(* ===== verification/_CoqProject ===== *)
-Q . S2P
Prelude.v
Ip.v
IpText.v
IpTextProofs.v
IpTextTheorems.v
Trie.v
TrieChildren.v
PfxTable.v
PfxTableProofs.v
PfxLevels.v
PfxTableBulk.v
PfxTheorems.v
AspaArray.v
Aspa.v
AspaUpdate.v
AspaVerification.v
AspaVerificationProofs.v
AspaUpdateProofs.v
AspaTheorems.v
AspaSwapIn.v
AspaReplace.v
Hashlin.v
HashlinProofs.v
Spki.v
SpkiProofs.v
SpkiTheorems.v
Pdu.v
PduProofs.v
PduTheorems.v
Transport.v
TransportProofs.v
Sys.v
Tcp.v
TcpTheorems.v
Ssh.v
SshTheorems.v
Socket.v
Packets.v
SetOps.v
Update.v
Sync.v
PacketsProofs.v
ReceiveProofs.v
UpdateProofs.v
UpdateInstances.v
AspaPdus.v
SyncUpdate.v
UpdateTheorems.v
SyncProofs.v
SyncReset.v
SyncTheorems.v
ReceiveTheorems.v
Rtr.v
RtrProofs.v
FsmProofs.v
FsmLiveness.v
FsmTheorems.v
TommyList.v
TommyListProofs.v
RtrMgr.v
RtrMgrProofs.v
RtrMgrGroups.v
RtrMgrLife.v
RtrMgrInvariant.v
RtrMgrTheorems.v
Bgpsec.v
BgpsecProofs.v
BgpsecTheorems.v
RtrMgrBgpsec.v
Rov.v
RovTheorems.v
Client.v
ClientTheorems.v
TommyArray.v
TommyArrayProofs.v
Mustach.v
ClientExport.v
ClientExportTheorems.v
