(* ===== verification/Prelude.v ===== *)
(** * RTRlib: a verification of the C library

    RTRlib connects a BGP router to RPKI caches: it fetches validated prefixes (ROA
    payloads), router keys and ASPA records with the RTR protocol (RFC 8210 and its
    successor), keeps them in tables, and answers questions about routes, AS paths and
    BGPsec paths.  This library translates the C code under [src/] to Rocq functions and
    proves what they do.

    ** The program and the files

    From the bottom to the top; a file [X.v] holds the definitions, [XProofs.v] and files
    named after a group of lemmas the proofs, [XTheorems.v] the theorems with concrete
    instances and the limits that were found.

    - Addresses ([rtrlib/lib]): [Ip.v] has bit extraction, equality and the zero test
      ([rtr_get_bits], [rtr_ip_addr_get_bits], ...), [IpText.v] the conversion to and from
      text, with what the code uses of [sscanf] and [snprintf].
    - Prefix tree and prefix table ([rtrlib/pfx/trie]): [Trie.v] has the tree, in which a
      pointer to a node is the path to it; [TrieChildren.v] its enumeration into an array;
      [PfxTable.v] the table: adding, removing, validating, enumerating, copying, swapping
      and comparing tables, with allocation failures, callbacks and the lock; [PfxLevels.v]
      proves which levels of a tree a validation reaches.
    - ASPA ([rtrlib/aspa]): [AspaArray.v] has the sorted array, with the allocated bytes
      apart from the capacity; [Aspa.v] the store of the table; [AspaUpdate.v] the swap-in
      updates; [AspaVerification.v] the verification of AS paths.
    - Router keys ([rtrlib/spki], [third-party/tommyds]): [Hashlin.v] is the linear hash
      table, behind the class [HashTable] (its laws are the class [HashTableSpec]), against
      which [Spki.v] is written and proved.
    - Transports ([rtrlib/transport]): [Transport.v] has the loops that send and receive
      everything, over any transport, and the clock; [Sys.v] an oracle of the system;
      [Tcp.v] and [Ssh.v] the two transports over it and over an oracle of libssh.
    - The protocol ([rtrlib/rtr]): [Pdu.v] has the layout of PDUs in buffers of bytes, byte
      order and size checks; [Socket.v] the members of a socket; [Packets.v] sending and
      receiving of PDUs; [Update.v] the updates of the three tables and undoing them;
      [Sync.v] the synchronisation, with the shadow tables of a reset; [Rtr.v] the thread
      of a socket as a state machine.
    - The manager ([rtrlib/rtr_mgr.c]): [RtrMgr.v] has the groups of sockets, failover
      between them, and what the client calls; [TommyList.v] the merge sort it uses;
      [RtrMgrBgpsec.v] the functions for BGPsec.
    - BGPsec ([rtrlib/bgpsec]): [Bgpsec.v] has the octets to hash, validation and signing.
      OpenSSL is the parameter [OpenSSL], a class of functions.
    - Tools ([tools], [third-party/mustach]): [Rov.v] has [rpki-rov] from the wait for the
      first synchronisation on; [Client.v] the command line of [rtrclient] up to the sockets
      it makes, with what it uses of [getopt]; [Mustach.v] the template engine;
      [TommyArray.v] the array for the records, which grows in segments; [ClientExport.v]
      the export of the prefix table of [rtrclient] through a template.

    ** How C is translated

    Integers are [Z], with the conversions [u8], [u16], [u32] where the code narrows them.
    Memory is written out where the code depends on it: buffers of bytes with bounds
    ([slice], [write]), fields that may be uninitialised ([field]), allocated sizes, objects
    that are shared through pointers as finite maps.  Code that only computes is a function
    to [option]: [None] is undefined behaviour, a failed assertion or an endless wait for a
    lock.  The class [Build] says whether assertions are compiled in, the class [Host] what
    the byte order is; theorems hold for all instances.  Code with effects is in the monad
    [M] on a [world]: the answers of the allocator to come, the callbacks to the client so
    far, and the answers of the network and the clock to come.  [wp m Q w] says that [m]
    runs in [w] without undefined behaviour and ends with [Q]: it is total correctness.
    [emits] and [talks] say which events a run appended to the world.  The transports run in
    the monad [Os] on the open descriptors and the answers of the system to come, where
    [returns] plays the role of [wp]; the command line of [rtrclient] in the monad [Cli],
    in which a run may also end with an exit of the process.

    ** What the theorems show

    - Tables: origin validation is RFC 6811 ([validate_rfc6811]) if the tree is not higher
      than an address has bits, a bound that is exact ([validate_defined]); the prefix
      table, the table of router keys, the hash table and the ASPA table refine sets,
      multisets and maps for all sequences of operations ([run_ops_refines],
      [spki_ops_refine], [hashlin_refines_multiset], [swap_in_update_correct]); AS path
      verification equals the definition of the IETF draft ([verify_as_path_correct]).
    - Protocol: PDUs keep their values when the byte order is converted ([pdu_roundtrip]),
      receiving stays inside of the buffer on every stream, returns, and has the outcome that
      the bytes determine ([receive_pdu_correct], [recv_all_correct]), an update is applied
      as a whole or refused ([sync_update_correct]), and so is a synchronisation from the
      bytes on the wire to the tables and the callbacks ([rtr_sync_correct]).  The conditions
      on the answers are [response_ok] and [reset_ok]: canonical prefixes, room for the keys,
      and [no_early_replace] for the ASPAs.
    - State machine: invariants of every step ([fsm_safe], [fsm_transitions]), liveness
      against a cache that answers ([fsm_establishes]), expiry and stopping.
    - Manager: an invariant of all histories ([mgr_reachable_safe]) of a manager with tables
      for all three kinds of records, and what each event and call does.  Memory and threads
      do not run out.
    - BGPsec: the verdict is that of RFC 8205 ([validate_as_path_correct]), signing and
      validating fit together ([forward_validates]; [forward] composes the calls that a
      router makes and is no function of the library).  Both are for updates within the sizes
      that the code can handle.
    - Text and transports: addresses survive printing and parsing ([ip_text_roundtrip]); the
      transports give back what they took ([tcp_open_correct], [tcp_life_correct],
      [ssh_open_correct]), and keep what the loops above rely on ([tcp_recv_all_refines],
      [tcp_send_all_correct]).
    - Tools: each answer of [rpki-rov] to a well-formed line is the verdict on its route
      ([rov_answers_correct]); sockets that [rtrclient] accepts are complete, and a command
      line written for a list of sockets gives this list ([cli_sockets_complete],
      [cli_roundtrip]); an export has one entry per record, each as its template says
      ([client_export_correct]).
    - Limits: theorems named after what goes wrong ([default_route_aborts],
      [undo_order_changes_records], [refused_reset_locks_out], ...) run the definitions on
      concrete inputs on which the code does not do what it means to.

    ** Fuel

    Recursion is structural where the code allows it.  The other loops have a bound, which
    is shown to be enough by theorems on their result: the bytes that will arrive for the
    receive loops ([supply]), the length of the text for the parser of IPv6 addresses
    ([words_loop_fuel]), the records of a cache for removing them, the height of a tree
    (at most one more than the bits of an address), the positions of a search, 2^32 nodes
    for the merge sort, the lines of the input for [rpki-rov], the words of the command line
    and the bytes of an argument for [rtrclient], the tags that are met for a template
    (seven per record and ten more suffice for those of [rtrclient]), the bits of the size
    for the growing array.

    ** Not modelled

    - Concurrency: one thread runs at a time; locks are checked for balance and deadlock
      with themselves.  Requests to shut down come between iterations of the thread of a
      socket, callbacks of sockets to the manager one after the other.  Cancellation of
      threads inside of a system call is not modelled.
    - When memory is freed, except where the code reads a pointer to it afterwards.
    - Log messages ([rtrlib/lib/log.c]) and text for debugging; the allocator behind
      [rtr_malloc] ([alloc_utils.c]) is an oracle.
    - [tools/rtrclient.c]: printing of updates and of the usage, and [main] itself, which
      starts the manager; the start of [rpki-rov] up to its wait.  The contents of
      a template file are a parameter; the file exported to is the text written to it.
    - [mustach] and [fdmustach], which call [fmustach] on other outputs, and the containers of
      tommyds that neither the library nor the tools use.
    - Headers that only declare functions. *)

From stdpp Require Export base tactics option list numbers decidable sorting gmap.
From Stdlib Require Export ZArith Lia.

#[global] Open Scope Z_scope.

(** ** Machine integers

    A [w]-bit unsigned C integer is a [Z] in [0 .. 2^w); the conversions
    below are the C conversions to the unsigned types. *)

Declare Scope rtr_scope.
Delimit Scope rtr_scope with rtr.
#[global] Open Scope rtr_scope.

Definition UINT32_MAX : Z := 4294967295.

Definition u8 (x : Z) : Z := x mod 256.
Definition u16 (x : Z) : Z := x mod 65536.
Definition u32 (x : Z) : Z := x mod 4294967296.

(** Conversion of an unsigned 32-bit value to [int] (two's complement). *)
Definition s32 (x : Z) : Z :=
  let y := u32 x in if y <? 2147483648 then y else y - 4294967296.

(** [x >> n] and [~x] on [uint32_t].  A shift count outside [0 .. 31] is
    undefined behaviour, which is the value [None]. *)
Definition shr32 (x n : Z) : option Z :=
  if (0 <=? n) && (n <? 32) then Some (Z.shiftr x n) else None.
Definition not32 (x : Z) : Z := UINT32_MAX - x.

Notation "'is_u8' x" := (0 <= x < 256) (at level 70) : rtr_scope.
Notation "'is_u32' x" := (0 <= x < 4294967296) (at level 70) : rtr_scope.

(** ** Build flavour and assertions

    [assert] is active unless the library is compiled with [NDEBUG]; a failed
    assertion aborts the process, which is the value [None]. *)
Class Build := { ndebug : bool }.

Definition assert_ `{Build} (b : bool) : option unit :=
  if ndebug || b then Some tt else None.

(** ** The effects of the C code

    The [world] threads what the C code reads from and writes to its
    environment: the outcomes of the coming calls of the allocator
    ([true]: memory was returned; an exhausted list means every further
    call succeeds), the calls made to the client's callbacks, oldest first, and
    what the network and the clock are going to answer.  A computation returns
    [None] when the process aborts or runs into undefined behaviour. *)

(** The error codes of the transports ([enum rtr_tr_rtvals]). *)
Inductive tr_error := TR_ERROR | TR_WOULDBLOCK | TR_INTR | TR_CLOSED.

(** The peer sends [bytes], or the next call that receives fails. *)
Inductive incoming := Segment (bytes : list Z) | RecvFails (e : tr_error).
(** The next call that sends accepts at most [n] bytes, or fails. *)
Inductive send_answer := Accepts (n : nat) | SendFails (e : tr_error).

(** Exhausted lists: nothing more is received (an error of the transport),
    everything sent is accepted, opening a connection succeeds, and the time is 0.
    A clock reading is seconds and nanoseconds, or the failure of [clock_gettime]. *)
Record network := Network {
  stream : list incoming;
  send_answers : list send_answer;
  open_answers : list bool;
  clock : list (option (Z * Z)) }.

Definition idle : network := Network [] [] [] [].

Record world (E : Type) := World { allocs : list bool; events : list E; net : network }.
Arguments World {E} _ _ _.
Arguments allocs {E} _.
Arguments events {E} _.
Arguments net {E} _.

Definition M (E A : Type) : Type := world E → option (A * world E).

#[global] Instance M_ret {E} : MRet (M E) := λ A x w, Some (x, w).
#[global] Instance M_bind {E} : MBind (M E) := λ A B f m w,
  match m w with
  | Some (x, w') => f x w'
  | None => None
  end.

Definition of_option {E A} (o : option A) : M E A := λ w,
  match o with Some x => Some (x, w) | None => None end.

(** One call of [rtr_malloc] or [rtr_realloc]. *)
Definition alloc {E} : M E bool := λ w,
  match allocs w with
  | [] => Some (true, w)
  | b :: bs => Some (b, World bs (events w) (net w))
  end.

(** One call of a client callback. *)
Definition emit {E} (e : E) : M E unit := λ w,
  Some (tt, World (allocs w) (events w ++ [e]) (net w)).

(** The event type of a component's callbacks embeds into the event type of
    the program that uses the component. *)
Class Event (X E : Type) := event : X → E.
#[global] Instance event_id {X} : Event X X | 10 := λ x, x.

(** A pointer to a [struct rtr_socket], and one to a client's callback. *)
Abbreviation socket_ptr := nat (only parsing).
Abbreviation fn_ptr := nat (only parsing).

(** ** Read-write locks

    The state of a [pthread_rwlock_t] as seen by the only running thread.
    Taking a lock the thread already holds for writing deadlocks and
    releasing a lock that is not held is undefined: both are [None]. *)
Inductive rwlock := Unlocked | ReadLocked (readers : nat) | WriteLocked.

#[global] Instance rwlock_eq_dec : EqDecision rwlock.
Proof. solve_decision. Defined.

Definition rdlock (l : rwlock) : option rwlock :=
  match l with
  | Unlocked => Some (ReadLocked 0)
  | ReadLocked n => Some (ReadLocked (S n))
  | WriteLocked => None
  end.
Definition wrlock (l : rwlock) : option rwlock :=
  match l with
  | Unlocked => Some WriteLocked
  | _ => None
  end.
Definition unlock (l : rwlock) : option rwlock :=
  match l with
  | Unlocked => None
  | ReadLocked 0 => Some Unlocked
  | ReadLocked (S n) => Some (ReadLocked n)
  | WriteLocked => Some Unlocked
  end.

(** ** Automation *)

(** Turn the boolean comparisons of the code into propositions. *)
Ltac reflect_bools :=
  repeat match goal with
  | H : context [bool_decide _ = true] |- _ => rewrite bool_decide_eq_true in H
  | H : context [bool_decide _ = false] |- _ => rewrite bool_decide_eq_false in H
  | H : _ && _ = true |- _ => apply andb_true_iff in H as [? ?]
  | H : _ && _ = false |- _ => apply andb_false_iff in H
  | H : _ || _ = true |- _ => apply orb_true_iff in H
  | H : _ || _ = false |- _ => apply orb_false_iff in H as [? ?]
  | H : negb _ = true |- _ => apply negb_true_iff in H
  | H : negb _ = false |- _ => apply negb_false_iff in H
  | H : (_ =? _) = true |- _ => apply Z.eqb_eq in H
  | H : (_ =? _) = false |- _ => apply Z.eqb_neq in H
  | H : (_ <? _) = true |- _ => apply Z.ltb_lt in H
  | H : (_ <? _) = false |- _ => apply Z.ltb_ge in H
  | H : (_ <=? _) = true |- _ => apply Z.leb_le in H
  | H : (_ <=? _) = false |- _ => apply Z.leb_gt in H
  end.

(** Case on a boolean comparison in the goal, with the proposition it decides. *)
Ltac case_bool :=
  match goal with
  | |- context [if ?b then _ else _] =>
      let E := fresh "Hb" in destruct b eqn:E; reflect_bools
  end.

(** Split an option or monadic bind in a hypothesis that says it succeeded. *)
Ltac simplify_option :=
  repeat match goal with
  | H : match ?o with Some _ => _ | None => _ end = Some _ |- _ =>
      let E := fresh "E" in destruct o eqn:E; [|discriminate H]
  | H : Some _ = Some _ |- _ => injection H as H
  | H : (let '(_, _) := ?p in _) = _ |- _ => destruct p
  end; subst.

Create HintDb rtr discriminated.

(** ** Shared lemmas *)

Lemma assert_true `{Build} b : b = true → assert_ b = Some tt.
Proof. unfold assert_. intros ->. by rewrite orb_true_r. Qed.

Lemma assert_ndebug `{Build} b : ndebug = true → assert_ b = Some tt.
Proof. unfold assert_. by intros ->. Qed.

Lemma u8_small x : is_u8 x → u8 x = x.
Proof. apply Z.mod_small. Qed.

Lemma u32_small x : is_u32 x → u32 x = x.
Proof. apply Z.mod_small. Qed.

Lemma filter_none {A} (P : A → Prop) `{!∀ x, Decision (P x)} (l : list A) :
  (∀ x, x ∈ l → ¬ P x) → filter P l = [].
Proof.
  intros Hn. apply elem_of_nil_inv. intros x [Hp Hx]%list_elem_of_filter. by apply (Hn x).
Qed.

Lemma filter_all {A} (P : A → Prop) `{!∀ x, Decision (P x)} (l : list A) :
  (∀ x, x ∈ l → P x) → filter P l = l.
Proof.
  induction l as [|x l IH]; intros Hl; [done|]. rewrite filter_cons_True by (apply Hl; left).
  f_equal. apply IH. intros y Hy. apply Hl. by right.
Qed.

Lemma filter_agree {A} (P Q : A → Prop) `{!∀ x, Decision (P x)} `{!∀ x, Decision (Q x)} (l : list A) :
  (∀ x, x ∈ l → P x ↔ Q x) → filter P l = filter Q l.
Proof.
  induction l as [|x l IH]; intros Hl; [done|]. rewrite !filter_cons.
  rewrite IH by (intros y Hy; apply Hl; by right). pose proof (Hl x (list_elem_of_here x l)).
  destruct (decide (P x)), (decide (Q x)); tauto.
Qed.

Lemma existsb_perm {A} (f : A → bool) l l' : l ≡ₚ l' → existsb f l = existsb f l'.
Proof.
  intros Hp. apply eq_true_iff_eq. rewrite !existsb_exists.
  setoid_rewrite <- list_elem_of_In. by setoid_rewrite Hp.
Qed.

(** Discharge an assertion whose condition is an arithmetic fact. *)
Ltac discharge_assert :=
  match goal with
  | |- context [assert_ ?b] =>
      rewrite (assert_true b) by (rewrite ?Z.leb_le, ?Z.ltb_lt, ?Z.eqb_eq; lia); cbn [mbind option_bind]
  end.

Lemma M_bind_eval {E A B} (m : M E A) (f : A → M E B) w :
  (m ≫= f) w = match m w with Some (x, w') => f x w' | None => None end.
Proof. done. Qed.

(** ** Weakest preconditions

    [wp m Q w]: in the world [w] the computation [m] neither aborts nor runs
    into undefined behaviour, and [Q] holds of its result and of the world it
    leaves. *)
Definition wp {E A} (m : M E A) (Q : A → world E → Prop) (w : world E) : Prop :=
  ∃ x w', m w = Some (x, w') ∧ Q x w'.

(** No call of the allocator fails any more. *)
Definition no_fail {E} (w : world E) : Prop := Forall (λ b, b = true) (allocs w).

(** From [w] to [w'] exactly the callbacks [evs] were called, and the network and
    the clock were not used. *)
Definition emits {E} (w : world E) (evs : list E) (w' : world E) : Prop :=
  events w' = events w ++ evs ∧ (no_fail w → no_fail w') ∧ net w' = net w.

Section Wp.
Context {E : Type}.
Implicit Types w : world E.

Lemma wp_ret {A} (x : A) Q w : Q x w → wp (mret x) Q w.
Proof. intros HQ. by exists x, w. Qed.

Lemma wp_bind {A B} (m : M E A) (f : A → M E B) Q w :
  wp m (λ x w', wp (f x) Q w') w → wp (m ≫= f) Q w.
Proof.
  intros (x & w' & Hm & y & w'' & Hf & HQ). exists y, w''. split; [|done].
  unfold mbind, M_bind. by rewrite Hm.
Qed.

Lemma wp_mono {A} (m : M E A) (Q R : A → world E → Prop) w :
  wp m Q w → (∀ x w', Q x w' → R x w') → wp m R w.
Proof. intros (x & w' & Hm & HQ) HR. exists x, w'. auto. Qed.

Lemma wp_of_option {A} (o : option A) (x : A) Q w :
  o = Some x → Q x w → wp (of_option o) Q w.
Proof. intros -> HQ. by exists x, w. Qed.

Lemma emits_refl w : emits w [] w.
Proof. split; [by rewrite app_nil_r|done]. Qed.

Lemma emits_net w evs w' : emits w evs w' → net w' = net w.
Proof. by intros (_ & _ & ?). Qed.

Lemma emits_trans w w' w'' evs evs' :
  emits w evs w' → emits w' evs' w'' → emits w (evs ++ evs') w''.
Proof.
  intros (H1 & N1 & M1) (H2 & N2 & M2). split; [by rewrite H2, H1, app_assoc|].
  split; [auto|congruence].
Qed.

Lemma wp_alloc Q w :
  (∀ b w', emits w [] w' → (b = false → ¬ no_fail w) → Q b w') → wp alloc Q w.
Proof.
  intros HQ. unfold wp, alloc. destruct w as [[|b bs] evs]; simpl.
  - eexists _, _. split; [done|]. apply HQ; [apply emits_refl|done].
  - eexists _, _. split; [done|]. apply HQ.
    + split; [by rewrite app_nil_r|]. split; [by inversion 1|done].
    + intros ->. by inversion 1.
Qed.

Lemma wp_emit e Q w : (∀ w', emits w [e] w' → Q tt w') → wp (emit e) Q w.
Proof. intros HQ. eexists _, _. split; [done|]. by apply HQ. Qed.

Lemma emits_no_fail w evs w' : emits w evs w' → no_fail w → no_fail w'.
Proof. by intros (_ & ? & _). Qed.

Lemma emits_fail w evs w' : emits w evs w' → ¬ no_fail w' → ¬ no_fail w.
Proof. intros (_ & ? & _). auto. Qed.

Lemma emits_quiet w w' w'' evs : emits w [] w' → emits w' evs w'' → emits w evs w''.
Proof. apply emits_trans. Qed.

Lemma emits_then_quiet w w' w'' evs : emits w evs w' → emits w' [] w'' → emits w evs w''.
Proof. intros H1 H2. rewrite <- (app_nil_r evs). by eapply emits_trans. Qed.

End Wp.

#[export] Hint Resolve emits_refl emits_no_fail emits_fail emits_quiet : rtr.

(** Symbolic execution of one step of a computation. *)
Ltac wp_step :=
  lazymatch goal with
  | |- wp (match (_, _) with pair _ _ => _ end) _ _ => cbv beta iota; wp_step
  | |- wp (_ ≫= _) _ _ => apply wp_bind
  | |- wp (mret _) _ _ => apply wp_ret
  | |- wp alloc _ _ => apply wp_alloc; intros ? ? ? ?
  | |- wp (emit _) _ _ => apply wp_emit; intros ? ?
  | |- wp (of_option (Some _)) _ _ => eapply wp_of_option; [reflexivity|]
  end.

(** The case of a failed allocation where none fails. *)
Ltac no_alloc_failure :=
  match goal with
  | Hb : false = false → ¬ no_fail ?w, Hn : no_fail ?w |- _ => destruct (Hb eq_refl Hn)
  end.

(** ** Concrete instances *)

(** The two build flavours: assertions on, and off. *)
Definition debug_build : Build := {| ndebug := false |}.
Definition release_build : Build := {| ndebug := true |}.

(** Decide a closed proposition by evaluation. *)
Ltac decided := refine (bool_decide_unpack _ _); vm_compute; exact I.
