(* ===== verification/Ip.v ===== *)
(** * IP addresses: [rtrlib/lib/utils.c], [ipv4.c], [ipv6.c], [ip.c]

    Addresses in host byte order, bit extraction, zero test and equality, with
    the specification of each in terms of [addr_bit], the bits of an address
    numbered from the most significant one. *)

From S2P Require Import Prelude.

Section Ip.
Context `{Build}.

(** ** Bit extraction on a word *)

Definition rtr_get_bits (val from number : Z) : option Z :=
  _ ← assert_ (number <? 33);
  _ ← assert_ (0 <? number);
  let mask := UINT32_MAX in
  mask ← (if negb (number =? 32) then m ← shr32 mask number; Some (not32 m)
          else Some mask);
  mask ← shr32 mask from;
  Some (Z.land mask val).

(** ** Addresses *)

Inductive rtr_ip_version := RTR_IPV4 | RTR_IPV6.

Record rtr_ipv4_addr := { addr : Z }.

Record rtr_ipv6_addr := { addr0 : Z; addr1 : Z; addr2 : Z; addr3 : Z }.

(** The tagged union [struct rtr_ip_addr]. *)
Inductive rtr_ip_addr :=
| Addr4 (addr4 : rtr_ipv4_addr)
| Addr6 (addr6 : rtr_ipv6_addr).

#[global] Instance rtr_ip_version_eq_dec : EqDecision rtr_ip_version.
Proof. solve_decision. Defined.
#[global] Instance rtr_ipv4_addr_eq_dec : EqDecision rtr_ipv4_addr.
Proof. solve_decision. Defined.
#[global] Instance rtr_ipv6_addr_eq_dec : EqDecision rtr_ipv6_addr.
Proof. solve_decision. Defined.
#[global] Instance rtr_ip_addr_eq_dec : EqDecision rtr_ip_addr.
Proof. solve_decision. Defined.

Definition ver (a : rtr_ip_addr) : rtr_ip_version :=
  match a with Addr4 _ => RTR_IPV4 | Addr6 _ => RTR_IPV6 end.

Definition rtr_ipv4_get_bits (val : rtr_ipv4_addr) (from quantity : Z)
  : option rtr_ipv4_addr :=
  r ← rtr_get_bits (addr val) from quantity; Some {| addr := r |}.

Definition rtr_ipv6_get_bits (val : rtr_ipv6_addr) (first_bit quantity : Z)
  : option rtr_ipv6_addr :=
  _ ← assert_ (first_bit <=? 127);
  _ ← assert_ (quantity <=? 128);
  _ ← assert_ (first_bit + quantity <=? 128);
  let bits_left := quantity in
  '(bits_left, r0) ←
    (if first_bit <=? 31 then
       let q := if 32 <? quantity then 32 else quantity in
       _ ← assert_ (q <=? bits_left);
       r ← rtr_get_bits (addr0 val) first_bit q;
       Some (u8 (bits_left - q), r)
     else Some (bits_left, 0));
  '(bits_left, r1) ←
    (if (first_bit <=? 63) && (32 <? first_bit + quantity) then
       let fr := if first_bit <? 32 then 0 else first_bit - 32 in
       let q := if 32 <? bits_left then 32 else bits_left in
       _ ← assert_ (q <=? bits_left);
       r ← rtr_get_bits (addr1 val) fr q;
       Some (u8 (bits_left - q), r)
     else Some (bits_left, 0));
  '(bits_left, r2) ←
    (if (first_bit <=? 95) && (64 <? first_bit + quantity) then
       let fr := if first_bit <? 64 then 0 else first_bit - 64 in
       let q := if 32 <? bits_left then 32 else bits_left in
       _ ← assert_ (q <=? bits_left);
       r ← rtr_get_bits (addr2 val) fr q;
       Some (u8 (bits_left - q), r)
     else Some (bits_left, 0));
  r3 ←
    (if (first_bit <=? 127) && (96 <? first_bit + quantity) then
       let fr := if first_bit <? 96 then 0 else first_bit - 96 in
       let q := if 32 <? bits_left then 32 else bits_left in
       _ ← assert_ (q <=? bits_left);
       rtr_get_bits (addr3 val) fr q
     else Some 0);
  Some {| addr0 := r0; addr1 := r1; addr2 := r2; addr3 := r3 |}.

Definition rtr_ip_addr_get_bits (val : rtr_ip_addr) (from number : Z)
  : option rtr_ip_addr :=
  match val with
  | Addr6 a => r ← rtr_ipv6_get_bits a from number; Some (Addr6 r)
  | Addr4 a => r ← rtr_ipv4_get_bits a from number; Some (Addr4 r)
  end.

Definition rtr_ip_addr_is_zero (prefix : rtr_ip_addr) : bool :=
  match prefix with
  | Addr6 a => (addr0 a =? 0) && (addr1 a =? 0) && (addr2 a =? 0) && (addr3 a =? 0)
  | Addr4 a => addr a =? 0
  end.

Definition rtr_ipv4_addr_equal (a b : rtr_ipv4_addr) : bool := addr a =? addr b.

Definition rtr_ipv6_addr_equal (a b : rtr_ipv6_addr) : bool :=
  (addr0 a =? addr0 b) && (addr1 a =? addr1 b) && (addr2 a =? addr2 b)
  && (addr3 a =? addr3 b).

Definition rtr_ip_addr_equal (a b : rtr_ip_addr) : bool :=
  match a, b with
  | Addr6 a, Addr6 b => rtr_ipv6_addr_equal a b
  | Addr4 a, Addr4 b => rtr_ipv4_addr_equal a b
  | _, _ => false
  end.

(** ** Specification vocabulary *)

(** Number of bits of an address of the given version. *)
Definition width (v : rtr_ip_version) : Z :=
  match v with RTR_IPV4 => 32 | RTR_IPV6 => 128 end.

(** Bit [i] of a word, bit [0] being the most significant. *)
Definition word_bit (x i : Z) : bool := Z.testbit x (31 - i).

Definition word_of (a : rtr_ipv6_addr) (k : Z) : Z :=
  if k =? 0 then addr0 a else if k =? 1 then addr1 a
  else if k =? 2 then addr2 a else addr3 a.

(** Bit [i] of an address, bit [0] being the most significant. *)
Definition addr_bit (a : rtr_ip_addr) (i : Z) : bool :=
  match a with
  | Addr4 a => word_bit (addr a) i
  | Addr6 a => word_bit (word_of a (i / 32)) (i mod 32)
  end.

Definition valid_addr (a : rtr_ip_addr) : Prop :=
  match a with
  | Addr4 a => is_u32 (addr a)
  | Addr6 a => is_u32 (addr0 a) ∧ is_u32 (addr1 a) ∧ is_u32 (addr2 a) ∧ is_u32 (addr3 a)
  end.

#[global] Instance valid_addr_dec a : Decision (valid_addr a).
Proof. destruct a; simpl; apply _. Defined.

(** [a] and [b] agree on their first [n] bits. *)
Definition same_prefix (a b : rtr_ip_addr) (n : Z) : Prop :=
  ver a = ver b ∧ Forall (λ i, addr_bit a i = addr_bit b i) (seqZ 0 n).

#[global] Instance same_prefix_dec a b n : Decision (same_prefix a b n).
Proof. apply _. Defined.

(** The lengths [rtr_get_bits] accepts: [0] only where assertions are off. *)
Definition len_ok (n : Z) : Prop := 0 < n ∨ (n = 0 ∧ ndebug = true).

#[global] Instance len_ok_dec n : Decision (len_ok n).
Proof. apply _. Defined.

(** ** Words *)

Lemma UINT32_MAX_ones : UINT32_MAX = Z.ones 32.
Proof. reflexivity. Qed.

Lemma testbit_u32_high x j : is_u32 x → 32 <= j → Z.testbit x j = false.
Proof.
  intros Hx Hj. rewrite <- (Z.mod_small x (2 ^ 32)) by lia.
  apply Z.mod_pow2_bits_high. lia.
Qed.

Lemma u32_of_bits x : 0 <= x → (∀ j, 32 <= j → Z.testbit x j = false) → is_u32 x.
Proof.
  intros Hx Hj. enough (x = x mod 2 ^ 32) as ->.
  { pose proof (Z.mod_pos_bound x (2 ^ 32)). lia. }
  apply Z.bits_inj'. intros j ?.
  destruct (decide (j < 32)).
  - by rewrite Z.mod_pow2_bits_low by lia.
  - rewrite Z.mod_pow2_bits_high by lia. apply Hj. lia.
Qed.

(** Two words are equal when their bits [0 .. 31] are. *)
Lemma word_bit_inj x y :
  is_u32 x → is_u32 y → (∀ i, 0 <= i < 32 → word_bit x i = word_bit y i) → x = y.
Proof.
  intros Hx Hy Hb. apply Z.bits_inj'. intros j ?.
  destruct (decide (j < 32)).
  - specialize (Hb (31 - j)). unfold word_bit in Hb.
    replace (31 - (31 - j)) with j in Hb by lia. apply Hb. lia.
  - by rewrite !testbit_u32_high by lia.
Qed.

Lemma word_bit_0 i : word_bit 0 i = false.
Proof. apply Z.testbit_0_l. Qed.

Lemma testbit_not32 x j :
  is_u32 x → 0 <= j → Z.testbit (not32 x) j = (j <? 32) && negb (Z.testbit x j).
Proof.
  intros Hx Hj. unfold not32. rewrite UINT32_MAX_ones, Z.sub_nocarry_ldiff.
  - rewrite Z.ldiff_spec. f_equal. rewrite Z.testbit_ones by lia. lia.
  - apply Z.bits_inj'. intros k ?. rewrite Z.ldiff_spec, Z.bits_0.
    destruct (decide (k < 32)).
    + rewrite Z.ones_spec_low by lia. apply andb_false_r.
    + by rewrite testbit_u32_high by lia.
Qed.

(** The mask of [rtr_get_bits] before it is shifted by [from]. *)
Definition get_bits_mask (n : Z) : option Z :=
  if negb (n =? 32) then m ← shr32 UINT32_MAX n; Some (not32 m) else Some UINT32_MAX.

Lemma get_bits_mask_spec n :
  0 <= n <= 32 →
  ∃ m, get_bits_mask n = Some m ∧ 0 <= m ∧
    ∀ j, 0 <= j → Z.testbit m j = (32 - n <=? j) && (j <? 32).
Proof.
  intros Hn. unfold get_bits_mask. destruct (Z.eqb_spec n 32) as [->|Hne]; simpl.
  - exists UINT32_MAX. split_and!; [done|by vm_compute|]. intros j ?.
    rewrite UINT32_MAX_ones, Z.testbit_ones by lia. lia.
  - unfold shr32. rewrite (proj2 (Z.leb_le 0 n)), (proj2 (Z.ltb_lt n 32)) by lia. simpl.
    assert (is_u32 (Z.shiftr UINT32_MAX n)) as Hu.
    { rewrite Z.shiftr_div_pow2 by lia. pose proof (Z.pow_pos_nonneg 2 n). split.
      - apply Z.div_pos; [done|lia].
      - apply Z.div_lt_upper_bound; [lia|]. unfold UINT32_MAX. nia. }
    eexists. split_and!; [done|unfold not32, UINT32_MAX in *; lia|]. intros j ?.
    rewrite testbit_not32, Z.shiftr_spec, UINT32_MAX_ones, Z.testbit_ones by lia. lia.
Qed.

(** [rtr_get_bits] keeps exactly the bits [from .. from + n - 1]. *)
Lemma rtr_get_bits_spec val from n :
  0 <= from < 32 → n <= 32 → len_ok n →
  ∃ r, rtr_get_bits val from n = Some r ∧
    (is_u32 val → is_u32 r) ∧
    ∀ i, 0 <= i < 32 → word_bit r i = (from <=? i) && (i <? from + n) && word_bit val i.
Proof.
  intros Hf Hn Hl.
  assert (rtr_get_bits val from n =
          mask ← get_bits_mask n; mask ← shr32 mask from; Some (Z.land mask val)) as ->.
  { unfold rtr_get_bits, assert_. destruct Hl as [?|[-> ->]]; [|done].
    rewrite (proj2 (Z.ltb_lt n 33)), (proj2 (Z.ltb_lt 0 n)), !orb_true_r by lia. done. }
  destruct (get_bits_mask_spec n) as (m & -> & Hm0 & Hm).
  { unfold len_ok in Hl. lia. }
  simpl. unfold shr32. rewrite (proj2 (Z.leb_le 0 from)), (proj2 (Z.ltb_lt from 32)) by lia.
  simpl. eexists. split; [done|]. split.
  - intros Hu. apply u32_of_bits.
    + apply Z.land_nonneg. lia.
    + intros j ?. rewrite Z.land_spec, (testbit_u32_high val) by lia. apply andb_false_r.
  - intros i ?. unfold word_bit. rewrite Z.land_spec, Z.shiftr_spec, Hm by lia.
    f_equal. destruct (32 - n <=? _) eqn:E1, (_ <? 32) eqn:E2, (from <=? i) eqn:E3,
      (i <? from + n) eqn:E4; reflect_bools; simpl; lia.
Qed.

(** ** Addresses *)

(** The bit ranges [rtr_ipv6_get_bits] extracts correctly: those that start on
    a word boundary or stay within one word. *)
Definition aligned_range (first_bit quantity : Z) : Prop :=
  first_bit mod 32 = 0 ∨ first_bit mod 32 + quantity <= 32.

Lemma addr_bit_6 a k j :
  0 <= k < 4 → 0 <= j < 32 → addr_bit (Addr6 a) (32 * k + j) = word_bit (word_of a k) j.
Proof.
  intros. simpl. replace ((32 * k + j) / 32) with k by (apply Z.div_unique with j; lia).
  replace ((32 * k + j) mod 32) with j by (apply Z.mod_unique with k; lia). done.
Qed.

(** To prove a fact about the bits of an IPv6 address, prove it word by word. *)
Lemma bit_index_6 (P : Z → Prop) :
  (∀ k j, 0 <= k < 4 → 0 <= j < 32 → P (32 * k + j)) → ∀ i, 0 <= i < 128 → P i.
Proof.
  intros HP i Hi. rewrite (Z.div_mod i 32) by lia. apply HP.
  - split; [apply Z.div_pos; lia|apply Z.div_lt_upper_bound; lia].
  - apply Z.mod_pos_bound. lia.
Qed.

(** The bits still to extract when [rtr_ipv6_get_bits] reaches the word that
    starts at bit [lo]. *)
Definition bits_left_at (first q lo : Z) : Z := Z.max 0 (first + q - Z.max first lo).

(** One of the four steps of [rtr_ipv6_get_bits], for the word [w] that starts
    at bit [lo]. *)
Definition ipv6_word_step (w lo first q bits_left : Z) : option (Z * Z) :=
  if (first <=? lo + 31) && (lo <? first + q) then
    let fr := if first <? lo then 0 else first - lo in
    let q := if 32 <? bits_left then 32 else bits_left in
    _ ← assert_ (q <=? bits_left);
    r ← rtr_get_bits w fr q;
    Some (u8 (bits_left - q), r)
  else Some (bits_left, 0).

(** What a step leaves: the bits of [w] within the range, and the count of the
    bits left for the next word. *)
Definition word_result (w r lo first q : Z) : Prop :=
  (is_u32 w → is_u32 r) ∧
  ∀ j, 0 <= j < 32 →
    word_bit r j = (first <=? lo + j) && (lo + j <? first + q) && word_bit w j.

Lemma word_result_0 w lo first q :
  first + q <= lo ∨ lo + 32 <= first → word_result w 0 lo first q.
Proof.
  intros ?. split; [done|]. intros j ?. rewrite word_bit_0.
  destruct (Z.leb_spec first (lo + j)), (Z.ltb_spec (lo + j) (first + q)); simpl; done || lia.
Qed.

Lemma word_result_get_bits w lo first q fr n :
  0 <= fr < 32 → n <= 32 → len_ok n →
  Z.max first lo = lo + fr → Z.min (first + q) (lo + 32) = Z.min (lo + fr + n) (lo + 32) →
  ∃ r, rtr_get_bits w fr n = Some r ∧ word_result w r lo first q.
Proof.
  intros Hfr Hn Hl Hlo Hhi.
  destruct (rtr_get_bits_spec w fr n) as (r & Hr & Hu & Hb); [done..|].
  exists r. split; [done|]. split; [done|]. intros j ?. rewrite Hb by done. f_equal.
  destruct (Z.leb_spec fr j), (Z.ltb_spec j (fr + n)), (Z.leb_spec first (lo + j)),
    (Z.ltb_spec (lo + j) (first + q)); simpl; done || lia.
Qed.

Section Steps.
Context (first q : Z).
Hypothesis Hfirst : 0 <= first <= 127.
Hypothesis Hsum : first + q <= 128.
Hypothesis Hlen : len_ok q.
Hypothesis Haligned : aligned_range first q.

Lemma ipv6_word_step_spec w lo :
  lo = 32 ∨ lo = 64 ∨ lo = 96 →
  ∃ r, ipv6_word_step w lo first q (bits_left_at first q lo)
         = Some (bits_left_at first q (lo + 32), r) ∧
       word_result w r lo first q.
Proof using Hfirst Hsum Hlen Haligned.
  intros Hlo. unfold len_ok in Hlen.
  assert (∃ k o, first = 32 * k + o ∧ 0 <= o < 32 ∧ (o = 0 ∨ o + q <= 32)) as (k & o & Hk & Ho & Hao).
  { exists (first / 32), (first mod 32). unfold aligned_range in Haligned.
    pose proof (Z.div_mod first 32). pose proof (Z.mod_pos_bound first 32). lia. }
  unfold ipv6_word_step.
  destruct (Z.leb_spec first (lo + 31)), (Z.ltb_spec lo (first + q)); cbn [andb].
  - remember (bits_left_at first q lo) as bl eqn:Hbl. unfold bits_left_at in *.
    assert ((if 32 <? bl then 32 else bl) = Z.min 32 bl) as ->.
    { destruct (Z.ltb_spec 32 bl); lia. }
    discharge_assert.
    assert (len_ok (Z.min 32 bl)) as Hl'.
    { destruct Hlen as [?|[? ?]]; [left; lia|].
      destruct (decide (0 < bl)); [left; lia|right; split; [lia|done]]. }
    destruct (word_result_get_bits w lo first q (if first <? lo then 0 else first - lo) (Z.min 32 bl))
      as (r & -> & Hr).
    1-5: destruct (Z.ltb_spec first lo); done || lia.
    exists r. split; [|done]. simpl. rewrite u8_small by lia. repeat f_equal.
    assert (first < lo ∨ first = lo + o) by (destruct Hlo as [->|[->| ->]]; lia).
    destruct Hao; lia.
  - exists 0. split; [|apply word_result_0; lia]. unfold bits_left_at. do 2 f_equal. lia.
  - exists 0. split; [|apply word_result_0; lia]. unfold bits_left_at. do 2 f_equal. lia.
  - exists 0. split; [|apply word_result_0; lia]. unfold bits_left_at. do 2 f_equal. lia.
Qed.

(** The first step of [rtr_ipv6_get_bits] tests only where the range starts. *)
Definition ipv6_first_step (w : Z) : option (Z * Z) :=
  if first <=? 31 then
    let n := if 32 <? q then 32 else q in
    _ ← assert_ (n <=? q); r ← rtr_get_bits w first n; Some (u8 (q - n), r)
  else Some (q, 0).

Lemma ipv6_first_step_spec w :
  ∃ r, ipv6_first_step w = Some (bits_left_at first q 32, r) ∧ word_result w r 0 first q.
Proof using Hfirst Hsum Hlen Haligned.
  unfold ipv6_first_step, bits_left_at, aligned_range in *.
  assert (0 <= q) by (unfold len_ok in Hlen; lia).
  destruct (Z.leb_spec first 31).
  - assert (first mod 32 = first) as Hmod by (apply Z.mod_small; lia).
    assert ((if 32 <? q then 32 else q) = Z.min 32 q) as ->.
    { destruct (Z.ltb_spec 32 q); lia. }
    cbv zeta. discharge_assert.
    destruct (word_result_get_bits w 0 first q first (Z.min 32 q)) as (r & -> & Hr).
    1-5: try lia. { destruct Hlen as [?|[-> ?]]; [left; lia|by right]. }
    exists r. split; [|done]. simpl. rewrite u8_small by lia. do 2 f_equal. lia.
  - exists 0. split; [|apply word_result_0; lia]. do 2 f_equal. lia.
Qed.

Lemma rtr_ipv6_get_bits_steps val :
  rtr_ipv6_get_bits val first q =
    '(bl, r0) ← ipv6_first_step (addr0 val);
    '(bl, r1) ← ipv6_word_step (addr1 val) 32 first q bl;
    '(bl, r2) ← ipv6_word_step (addr2 val) 64 first q bl;
    '(_, r3) ← ipv6_word_step (addr3 val) 96 first q bl;
    Some {| addr0 := r0; addr1 := r1; addr2 := r2; addr3 := r3 |}.
Proof using Hfirst Hsum Hlen.
  unfold rtr_ipv6_get_bits, ipv6_first_step, ipv6_word_step. unfold len_ok in Hlen.
  do 3 discharge_assert. cbv zeta.
  change (32 + 31) with 63. change (64 + 31) with 95. change (96 + 31) with 127.
  do 3 (match goal with |- mbind _ ?m = _ =>
          destruct m as [[? ?]|]; cbn [mbind option_bind]; [|reflexivity] end).
  destruct (_ && _); [|done].
  by destruct (assert_ _); simpl; [destruct (rtr_get_bits _ _ _)|].
Qed.

Lemma rtr_ipv6_get_bits_spec val :
  ∃ r, rtr_ipv6_get_bits val first q = Some r ∧
    (valid_addr (Addr6 val) → valid_addr (Addr6 r)) ∧
    ∀ i, 0 <= i < 128 →
      addr_bit (Addr6 r) i = (first <=? i) && (i <? first + q) && addr_bit (Addr6 val) i.
Proof using Hfirst Hsum Hlen Haligned.
  rewrite rtr_ipv6_get_bits_steps.
  destruct (ipv6_first_step_spec (addr0 val)) as (r0 & -> & U0 & B0).
  destruct (ipv6_word_step_spec (addr1 val) 32) as (r1 & E1 & U1 & B1); [lia|].
  destruct (ipv6_word_step_spec (addr2 val) 64) as (r2 & E2 & U2 & B2); [lia|].
  destruct (ipv6_word_step_spec (addr3 val) 96) as (r3 & E3 & U3 & B3); [lia|].
  change (32 + 32) with 64 in E1. change (64 + 32) with 96 in E2.
  cbn [mbind option_bind]. rewrite E1. cbn [mbind option_bind]. rewrite E2.
  cbn [mbind option_bind]. rewrite E3. cbn [mbind option_bind].
  eexists. split; [done|]. split; [simpl; tauto|].
  apply (bit_index_6 (λ i, addr_bit _ i = _)). intros k j Hk Hj. rewrite !addr_bit_6 by done.
  assert (k = 0 ∨ k = 1 ∨ k = 2 ∨ k = 3) as [->|[->|[->| ->]]] by lia; cbn;
    [apply B0|apply B1|apply B2|apply B3]; done.
Qed.

End Steps.

(** Both versions: the first [n] bits, and one single bit. *)
Lemma get_bits_first a n :
  n <= width (ver a) → len_ok n →
  ∃ r, rtr_ip_addr_get_bits a 0 n = Some r ∧ ver r = ver a ∧
    (valid_addr a → valid_addr r) ∧
    ∀ i, 0 <= i < width (ver a) → addr_bit r i = (i <? n) && addr_bit a i.
Proof.
  intros Hn Hl. destruct a as [a|a]; simpl in *.
  - unfold rtr_ipv4_get_bits.
    destruct (rtr_get_bits_spec (addr a) 0 n) as (r & -> & Hu & Hb); [lia..|done|].
    simpl. eexists. split_and!; [done..|]. intros i ?. simpl. rewrite Hb by done.
    by rewrite (proj2 (Z.leb_le 0 i)) by lia.
  - destruct (rtr_ipv6_get_bits_spec 0 n) with a as (r & -> & Hu & Hb); [lia..|done|by left|].
    simpl. eexists. split_and!; [done..|]. intros i ?. rewrite Hb by done.
    by rewrite (proj2 (Z.leb_le 0 i)) by lia.
Qed.

Lemma get_bits_single a i :
  0 <= i < width (ver a) →
  ∃ r, rtr_ip_addr_get_bits a i 1 = Some r ∧ ver r = ver a ∧
    (valid_addr a → valid_addr r) ∧
    ∀ j, 0 <= j < width (ver a) → addr_bit r j = (j =? i) && addr_bit a j.
Proof.
  intros Hi. assert (len_ok 1) by (left; lia).
  assert (∀ j, (i <=? j) && (j <? i + 1) = (j =? i)) as Hj.
  { intros j. destruct (Z.leb_spec i j), (Z.ltb_spec j (i + 1)), (Z.eqb_spec j i); lia. }
  destruct a as [a|a]; simpl in *.
  - unfold rtr_ipv4_get_bits.
    destruct (rtr_get_bits_spec (addr a) i 1) as (r & -> & Hu & Hb); [lia..|done|].
    simpl. eexists. split_and!; [done..|]. intros j ?. simpl. by rewrite Hb, Hj.
  - destruct (rtr_ipv6_get_bits_spec i 1) with a as (r & -> & Hu & Hb); [lia..|done| |].
    { right. pose proof (Z.mod_pos_bound i 32). lia. }
    simpl. eexists. split_and!; [done..|]. intros j ?. by rewrite Hb, Hj.
Qed.

(** Addresses are determined by their bits. *)
Lemma addr_ext a b :
  valid_addr a → valid_addr b → ver a = ver b →
  (∀ i, 0 <= i < width (ver a) → addr_bit a i = addr_bit b i) → a = b.
Proof.
  intros Ha Hb Hv Hbits. destruct a as [[a]|a], b as [[b]|b]; simplify_eq/=.
  - do 2 f_equal. by apply word_bit_inj.
  - assert (∀ k, 0 <= k < 4 → ∀ j, 0 <= j < 32 →
      word_bit (word_of a k) j = word_bit (word_of b k) j) as Hw.
    { intros k Hk j Hj. rewrite <- !addr_bit_6 by done. apply Hbits. lia. }
    f_equal. destruct a as [a0 a1 a2 a3], b as [b0 b1 b2 b3].
    unfold word_of in Hw. simpl in *. f_equal; apply word_bit_inj; try tauto.
    + by apply (Hw 0).
    + by apply (Hw 1).
    + by apply (Hw 2).
    + by apply (Hw 3).
Qed.

Lemma rtr_ip_addr_equal_spec a b : rtr_ip_addr_equal a b = bool_decide (a = b).
Proof.
  apply eq_true_iff_eq. rewrite bool_decide_eq_true.
  destruct a as [[a]|[a0 a1 a2 a3]], b as [[b]|[b0 b1 b2 b3]];
    unfold rtr_ip_addr_equal, rtr_ipv4_addr_equal, rtr_ipv6_addr_equal; simpl;
    rewrite ?andb_true_iff, ?Z.eqb_eq; split; try done; intuition (subst; done || congruence).
Qed.

(** The address all of whose bits are [0]. *)
Definition zero_addr (v : rtr_ip_version) : rtr_ip_addr :=
  match v with
  | RTR_IPV4 => Addr4 {| addr := 0 |}
  | RTR_IPV6 => Addr6 {| addr0 := 0; addr1 := 0; addr2 := 0; addr3 := 0 |}
  end.

Lemma zero_addr_bit v i : addr_bit (zero_addr v) i = false.
Proof. destruct v; simpl; [apply word_bit_0|]. unfold word_of. simpl.
  repeat case_match; apply word_bit_0. Qed.

Lemma rtr_ip_addr_is_zero_eq a :
  rtr_ip_addr_is_zero a = true ↔ a = zero_addr (ver a).
Proof.
  destruct a as [[a]|[a0 a1 a2 a3]]; simpl; rewrite ?andb_true_iff, ?Z.eqb_eq;
    split; intuition (subst; done || congruence).
Qed.

Lemma rtr_ip_addr_is_zero_spec a :
  valid_addr a →
  rtr_ip_addr_is_zero a = true ↔ ∀ i, 0 <= i < width (ver a) → addr_bit a i = false.
Proof.
  intros Ha. rewrite rtr_ip_addr_is_zero_eq. split.
  - intros -> i _. apply zero_addr_bit.
  - intros Hz. apply addr_ext; [done|by destruct a|by destruct a|].
    intros i Hi. by rewrite Hz, zero_addr_bit.
Qed.

Lemma same_prefix_spec a b n :
  same_prefix a b n ↔ ver a = ver b ∧ ∀ i, 0 <= i < n → addr_bit a i = addr_bit b i.
Proof.
  unfold same_prefix. rewrite Forall_forall. setoid_rewrite elem_of_seqZ.
  by setoid_rewrite Z.add_0_l.
Qed.

(** The comparison of [trie_lookup]: the first [n] bits of two addresses. *)
Lemma get_bits_first_equal a b n :
  valid_addr a → valid_addr b → ver a = ver b → n <= width (ver a) → len_ok n →
  ∃ x y, rtr_ip_addr_get_bits a 0 n = Some x ∧ rtr_ip_addr_get_bits b 0 n = Some y ∧
    rtr_ip_addr_equal x y = bool_decide (same_prefix a b n).
Proof.
  intros Ha Hb Hv Hn Hl.
  destruct (get_bits_first a n) as (x & Hx & Hvx & Hax & Hbx); [done..|].
  destruct (get_bits_first b n) as (y & Hy & Hvy & Hay & Hby); [by rewrite <- Hv|done|].
  exists x, y. split_and!; [done..|]. rewrite rtr_ip_addr_equal_spec.
  apply bool_decide_ext. rewrite same_prefix_spec. split.
  - intros ->. split; [done|]. intros i Hi.
    specialize (Hbx i ltac:(lia)). specialize (Hby i ltac:(rewrite <- Hv; lia)).
    rewrite Hbx in Hby. by rewrite (proj2 (Z.ltb_lt i n)) in Hby by lia.
  - intros [_ Heq]. apply addr_ext; auto; [congruence|]. rewrite Hvx. intros i Hi.
    rewrite Hbx, Hby by congruence.
    destruct (Z.ltb_spec i n); simpl; [apply Heq; lia|done].
Qed.

(** The branch test of the trie: one bit of an address. *)
Lemma get_bits_single_zero a i :
  valid_addr a → 0 <= i < width (ver a) →
  ∃ x, rtr_ip_addr_get_bits a i 1 = Some x ∧ rtr_ip_addr_is_zero x = negb (addr_bit a i).
Proof.
  intros Ha Hi. destruct (get_bits_single a i) as (x & Hx & Hvx & Hax & Hbx); [done|].
  exists x. split; [done|]. apply eq_true_iff_eq.
  rewrite rtr_ip_addr_is_zero_spec, negb_true_iff by auto. rewrite Hvx. split.
  - intros Hz. specialize (Hz i Hi). by rewrite Hbx, Z.eqb_refl in Hz.
  - intros Hz j Hj. rewrite Hbx by done. destruct (Z.eqb_spec j i) as [->|]; done.
Qed.

End Ip.
