(* ===== verification/IpText.v ===== *)
(** * IP addresses as text: [rtrlib/lib/ipv4.c], [ipv6.c], [ip.c]

    A string is the list of its character codes, without the terminating zero.  A function
    that returns -1 has the result [None]; where the behaviour of the code is undefined,
    that is [None] again, one level further out.  A shift to the left into the sign bit is
    taken to wrap around. *)

From S2P Require Import Prelude Ip.
Open Scope Z_scope.

Definition colon : Z := 58.
Definition dot : Z := 46.
Definition INET6_ADDRSTRLEN : Z := 46.

(** ** Numbers *)

Definition digit_char (k : Z) : Z := if k <? 10 then 48 + k else 87 + k.

(** The conversions [%d], [%hhu] and [%x] of [sprintf], for numbers of at most [n] digits. *)
Fixpoint digits (base : Z) (n : nat) (v : Z) : list Z :=
  match n with
  | O => []
  | S n => if v <? base then [digit_char v] else digits base n (v / base) ++ [digit_char (v mod base)]
  end.
Definition decimal (v : Z) : list Z := digits 10 3 v.
Definition hexadecimal (v : Z) : list Z := digits 16 4 v.

Definition is_digit (c : Z) : bool := (48 <=? c) && (c <=? 57).
Definition is_space (c : Z) : bool := (c =? 32) || ((9 <=? c) && (c <=? 13)).

Fixpoint skip_space (a : list Z) : list Z :=
  match a with c :: a' => if is_space c then skip_space a' else a | [] => [] end.

(** Up to [width] digits; their number is added to [n]. *)
Fixpoint scan_digits (width : nat) (a : list Z) (v : Z) (n : nat) : Z * nat * list Z :=
  match width, a with
  | S width, c :: a' => if is_digit c then scan_digits width a' (v * 10 + (c - 48)) (S n) else (v, n, a)
  | _, _ => (v, n, a)
  end.

(** The conversion [%3hhu] of [sscanf]: white space, a sign and digits; a value that an
    [unsigned char] cannot represent is undefined. *)
Definition scan_hhu (a : list Z) : option (option (Z * list Z)) :=
  let a := skip_space a in
  let '(negative, width, a) :=
    match a with
    | c :: a' => if c =? 45 then (true, 2%nat, a') else if c =? 43 then (false, 2%nat, a') else (false, 3%nat, a)
    | [] => (false, 3%nat, a)
    end in
  let '(v, n, rest) := scan_digits width a 0 0 in
  if Nat.eqb n 0 then Some None
  else if (255 <? v) || (negative && negb (v =? 0)) then None
  else Some (Some (v, rest)).

(** A character of the format that has to be there. *)
Definition scan_char (c : Z) (a : list Z) : option (list Z) :=
  match a with d :: a' => if d =? c then Some a' else None | [] => None end.

(** ** IPv4 *)

Definition rtr_ipv4_addr_to_str (ip : rtr_ipv4_addr) (len : Z) : Z * option (list Z) :=
  let buff0 := Z.land (Z.shiftr (addr ip) 24) 255 in
  let buff1 := Z.land (Z.shiftr (addr ip) 16) 255 in
  let buff2 := Z.land (Z.shiftr (addr ip) 8) 255 in
  let buff3 := Z.land (addr ip) 255 in
  let text := decimal buff0 ++ [dot] ++ decimal buff1 ++ [dot] ++ decimal buff2 ++ [dot] ++ decimal buff3 in
  (0, if len =? 0 then None else Some (take (Z.to_nat (len - 1)) text)).

(** The next number after a dot. *)
Definition scan_dot_hhu (a : list Z) : option (option (Z * list Z)) :=
  match scan_char dot a with None => Some None | Some a => scan_hhu a end.

Definition rtr_ipv4_str_to_addr (str : list Z) : option (option rtr_ipv4_addr) :=
  r0 ← scan_hhu str;
  match r0 with
  | None => Some None
  | Some (buff0, a) =>
      r1 ← scan_dot_hhu a;
      match r1 with
      | None => Some None
      | Some (buff1, a) =>
          r2 ← scan_dot_hhu a;
          match r2 with
          | None => Some None
          | Some (buff2, a) =>
              r3 ← scan_dot_hhu a;
              match r3 with
              | None => Some None
              | Some (buff3, _) =>
                  Some (Some {| addr := Z.lor (Z.lor (Z.lor (Z.shiftl buff0 24) (Z.shiftl buff1 16)) (Z.shiftl buff2 8)) buff3 |})
              end
          end
      end
  end.

(** ** IPv6 *)

Definition hex_digit (c : Z) : option Z :=
  if (48 <=? c) && (c <=? 57) then Some (c - 48)
  else if (65 <=? c) && (c <=? 70) then Some (c - 65 + 10)
  else if (97 <=? c) && (c <=? 102) then Some (c - 97 + 10)
  else None.

(** The inner loop; [None] is -1. *)
Fixpoint hex_loop (a : list Z) (j l : Z) : option (Z * list Z) :=
  match a with
  | c :: a' =>
      match hex_digit c with
      | Some k =>
          let j := Z.shiftl j 4 + k in
          if (65536 <=? j) || (4 <? l + 1) then None else hex_loop a' j (l + 1)
      | None => Some (j, a)
      end
  | [] => Some (j, [])
  end.

(** The outer loop.  A word that was not written to is [None].  Each iteration moves on
    by a character at least. *)
Fixpoint words_loop (fuel : nat) (a : list Z) (words : list (option Z)) (i hfil : Z) : option (option (list (option Z) * Z * Z)) :=
  match a, fuel with
  | [], _ => Some (Some (words, i, hfil))
  | _, O => None
  | c :: a', S fuel =>
      if c =? colon then if 0 <=? hfil then Some None else words_loop fuel a' words i i
      else
        match hex_loop a 0 0 with
        | None => Some None
        | Some (j, b) =>
            let next b := if 8 <=? i then Some None else words_loop fuel b (<[Z.to_nat i := Some j]> words) (i + 1) hfil in
            match b with
            | [] => next []
            | d :: b' =>
                if (d =? colon) && negb (bool_decide (b' = [])) then next b'
                else if (d =? dot) && ((i =? 6) || ((i <? 6) && (0 <=? hfil))) then
                  addr4 ← rtr_ipv4_str_to_addr a;
                  match addr4 with
                  | None => Some None
                  | Some addr4 =>
                      let words := <[Z.to_nat i := Some (u16 (Z.shiftr (addr addr4) 16))]> words in
                      Some (Some (<[Z.to_nat (i + 1) := Some (u16 (addr addr4))]> words, i + 2, hfil))
                  end
                else Some None
            end
        end
  end.

(** The loop from [n - 1] down that writes zeros, and the one before it that moves the
    words after the double colon to the end. *)
Fixpoint zero_words (n : nat) (hfil : Z) (words : list (option Z)) : list (option Z) :=
  match n with
  | O => words
  | S i => if hfil <=? Z.of_nat i then zero_words i hfil (<[i := Some 0]> words) else words
  end.
Fixpoint move_words (n : nat) (j hfil : Z) (words : list (option Z)) : list (option Z) :=
  match n with
  | O => words
  | S i =>
      if hfil <=? Z.of_nat i - j then move_words i j hfil (<[i := mjoin (words !! Z.to_nat (Z.of_nat i - j))]> words)
      else zero_words n hfil words
  end.

Definition read_word (words : list (option Z)) (k : nat) : option Z :=
  hi ← mjoin (words !! (2 * k)%nat);
  lo ← mjoin (words !! (2 * k + 1)%nat);
  Some (Z.lor (u32 (Z.shiftl hi 16)) lo).

(** The check of a colon at the beginning; [None] is -1. *)
Definition leading_colons (a : list Z) : option (list Z) :=
  match a with
  | c :: a' => if c =? colon then match a' with d :: _ => if d =? colon then Some a' else None | [] => None end else Some a
  | [] => Some a
  end.

Definition rtr_ipv6_str_to_addr (a : list Z) : option (option rtr_ipv6_addr) :=
  match leading_colons a with
  | None => Some None
  | Some a =>
      r ← words_loop (length a) a (repeat None 8) 0 (-1);
      match r with
      | None => Some None
      | Some (words, i, hfil) =>
          let words := if 0 <=? hfil then move_words 8 (8 - i) hfil words else words in
          o0 ← read_word words 0; o1 ← read_word words 1; o2 ← read_word words 2; o3 ← read_word words 3;
          Some (Some {| addr0 := o0; addr1 := o1; addr2 := o2; addr3 := o3 |})
      end
  end.

Definition ipv6_words (a : rtr_ipv6_addr) : list Z :=
  flat_map (λ x, [Z.land (Z.shiftr x 16) 65535; Z.land x 65535]) [addr0 a; addr1 a; addr2 a; addr3 a].

(** The longest run of zeros: its position and its length. *)
Fixpoint best_run (words : list Z) (i bestpos bestlen curpos curlen : Z) : Z * Z :=
  match words with
  | [] => (bestpos, bestlen)
  | w :: words =>
      if negb (w =? 0) then best_run words (i + 1) bestpos bestlen curpos 0
      else
        let curpos := if curlen =? 0 then i else curpos in
        let curlen := curlen + 1 in
        if bestlen <? curlen then best_run words (i + 1) curpos curlen curpos curlen
        else best_run words (i + 1) bestpos bestlen curpos curlen
  end.

(** The loop that writes the words; [n] is the number of iterations at most. *)
Fixpoint print_words (n : nat) (words : list Z) (i bestpos bestlen : Z) : list Z :=
  match n with
  | O => []
  | S n =>
      if i <? 8 then
        if i =? bestpos then
          let i := i + (bestlen - 1) in
          [colon] ++ (if i =? 7 then [colon] else []) ++ print_words n words (i + 1) bestpos bestlen
        else (if i =? 0 then [] else [colon]) ++ hexadecimal (default 0 (words !! Z.to_nat i)) ++ print_words n words (i + 1) bestpos bestlen
      else []
  end.

Definition rtr_ipv6_addr_to_str (a : rtr_ipv6_addr) (len : Z) : Z * option (list Z) :=
  if len <? INET6_ADDRSTRLEN then (-1, None)
  else
    let words := ipv6_words a in
    let '(bestpos, bestlen) := best_run words 0 0 0 0 0 in
    let bestpos := if bestlen <? 2 then -1 else bestpos in
    if (bestpos =? 0) && (((bestlen =? 5) && (addr2 a =? 65535)) || (bestlen =? 6)) then
      let x := addr3 a in
      (0, Some ([colon; colon] ++ (if negb (addr2 a =? 0) then [102; 102; 102; 102; colon] else []) ++
        decimal (Z.land (Z.shiftr x 24) 255) ++ [dot] ++ decimal (Z.land (Z.shiftr x 16) 255) ++ [dot] ++
        decimal (Z.land (Z.shiftr x 8) 255) ++ [dot] ++ decimal (Z.land x 255)))
    else (0, Some (print_words 8 words 0 bestpos bestlen)).

(** ** Both *)

Definition rtr_ip_addr_to_str (ip : rtr_ip_addr) (len : Z) : Z * option (list Z) :=
  match ip with Addr6 a => rtr_ipv6_addr_to_str a len | Addr4 a => rtr_ipv4_addr_to_str a len end.

Definition rtr_ip_str_to_addr (str : list Z) : option (option rtr_ip_addr) :=
  if negb (existsb (λ c, c =? colon) str) then r ← rtr_ipv4_str_to_addr str; Some (option_map Addr4 r)
  else r ← rtr_ipv6_str_to_addr str; Some (option_map Addr6 r).

Definition rtr_ip_str_cmp (addr1 : rtr_ip_addr) (addr2 : list Z) : option bool :=
  tmp ← rtr_ip_str_to_addr addr2;
  Some (match tmp with None => false | Some tmp => rtr_ip_addr_equal addr1 tmp end).
