(* ===== verification/IpTextProofs.v ===== *)
(** * IP addresses as text: reading what was written *)

From S2P Require Import Prelude Ip IpText.
Open Scope Z_scope.

(** ** Numbers *)

(** What follows a number is not a digit. *)
Definition stops (p : Z → bool) (rest : list Z) : Prop := match rest with c :: _ => p c = false | [] => True end.

Ltac z_cases := repeat (rewrite (proj2 (Z.ltb_lt _ _)) by lia || rewrite (proj2 (Z.ltb_ge _ _)) by lia).

Ltac divs := Z.div_mod_to_equations; lia.

Lemma digit_char_dec k : 0 <= k < 10 → digit_char k = 48 + k.
Proof. intros. unfold digit_char. by z_cases. Qed.

Lemma is_digit_char k : 0 <= k < 10 → is_digit (48 + k) = true.
Proof. intros. unfold is_digit. apply andb_true_intro. split; apply Z.leb_le; lia. Qed.

(** A byte has one to three digits. *)
Lemma decimal_cases v : 0 <= v < 256 →
  (v < 10 ∧ decimal v = [48 + v]) ∨
  (10 <= v < 100 ∧ decimal v = [48 + v / 10; 48 + v mod 10]) ∨
  (100 <= v ∧ decimal v = [48 + v / 10 / 10; 48 + (v / 10) mod 10; 48 + v mod 10]).
Proof.
  intros Hv. assert (0 <= v mod 10 < 10 ∧ 0 <= v / 10 <= 25 ∧ 0 <= (v / 10) mod 10 < 10 ∧ 0 <= v / 10 / 10 < 10 ∧ v = 10 * (v / 10) + v mod 10) by divs.
  unfold decimal. cbn [digits].
  destruct (Z.ltb_spec v 10); [left; by rewrite digit_char_dec by lia|right].
  destruct (Z.ltb_spec (v / 10) 10).
  - left. split; [lia|]. by rewrite !digit_char_dec by lia.
  - right. split; [lia|]. z_cases. by rewrite !digit_char_dec by lia.
Qed.

Lemma scan_decimal v rest n : 0 <= v < 256 → stops is_digit rest →
  ∃ k, scan_digits 3 (decimal v ++ rest) 0 n = (v, S k, rest).
Proof.
  intros Hv Hrest. assert (0 <= v mod 10 < 10 ∧ 0 <= v / 10 <= 25 ∧ 0 <= (v / 10) mod 10 < 10 ∧ 0 <= v / 10 / 10 < 10 ∧
    v = 10 * (v / 10) + v mod 10 ∧ v / 10 = 10 * (v / 10 / 10) + (v / 10) mod 10) by divs.
  destruct (decimal_cases v Hv) as [(? & ->)|[(? & ->)|(? & ->)]]; destruct rest as [|c rest]; simpl in Hrest; cbn [app scan_digits];
    rewrite !is_digit_char by lia; rewrite ?Hrest; eexists; do 2 f_equal; lia.
Qed.

Lemma decimal_head v : 0 <= v < 256 → ∃ c l, decimal v = c :: l ∧ 48 <= c <= 57.
Proof.
  intros Hv. destruct (decimal_cases v Hv) as [(? & ->)|[(? & ->)|(? & ->)]]; do 2 eexists; (split; [done|]); divs.
Qed.

Lemma scan_hhu_decimal v rest : 0 <= v < 256 → stops is_digit rest → scan_hhu (decimal v ++ rest) = Some (Some (v, rest)).
Proof.
  intros Hv Hrest. destruct (scan_decimal v rest 0 Hv Hrest) as (k & Hs). destruct (decimal_head v Hv) as (c & l & Hd & Hc).
  unfold scan_hhu. rewrite Hd in *. cbn [app skip_space].
  assert (is_space c = false) as -> by (unfold is_space; apply orb_false_intro; [apply Z.eqb_neq; lia|apply andb_false_intro2, Z.leb_gt; lia]).
  rewrite (proj2 (Z.eqb_neq c 45)), (proj2 (Z.eqb_neq c 43)) by lia. rewrite app_comm_cons, Hs. cbn [Nat.eqb].
  rewrite (proj2 (Z.ltb_ge _ _)) by lia. done.
Qed.

Lemma scan_dot_decimal v rest : 0 <= v < 256 → stops is_digit rest → scan_dot_hhu ([dot] ++ decimal v ++ rest) = Some (Some (v, rest)).
Proof. intros. unfold scan_dot_hhu. simpl scan_char. by apply scan_hhu_decimal. Qed.

(** ** IPv4 *)

Definition dotted (x : Z) : list Z :=
  decimal (Z.land (Z.shiftr x 24) 255) ++ [dot] ++ decimal (Z.land (Z.shiftr x 16) 255) ++ [dot] ++
  decimal (Z.land (Z.shiftr x 8) 255) ++ [dot] ++ decimal (Z.land x 255).

Lemma byte_range x : 0 <= Z.land x 255 < 256.
Proof. change 255 with (Z.ones 8). rewrite Z.land_ones by lia. apply Z.mod_pos_bound. lia. Qed.

(** Some bits of a word, at their place. *)
Lemma part_bit x k m n : 0 <= k → 0 <= m → 0 <= n →
  Z.testbit (Z.shiftl (Z.land (Z.shiftr x k) (Z.ones m)) k) n = (k <=? n) && (n <? k + m) && Z.testbit x n.
Proof.
  intros Hk Hm Hn. rewrite Z.shiftl_spec by done. destruct (Z.leb_spec k n).
  - rewrite Z.land_spec, Z.shiftr_spec, Z.testbit_ones by lia. replace (n - k + k) with n by lia.
    rewrite (proj2 (Z.leb_le 0 (n - k))) by lia. destruct (Z.ltb_spec (n - k) m), (Z.ltb_spec n (k + m)); try lia;
      simpl; by rewrite ?andb_true_r, ?andb_false_r.
  - rewrite Z.testbit_neg_r by lia. done.
Qed.

Lemma high_bit x n : is_u32 x → 32 <= n → Z.testbit x n = false.
Proof.
  intros Hx Hn. rewrite <- (Z.mod_small x (2 ^ 32)) by (simpl; lia). apply Z.mod_pow2_bits_high. lia.
Qed.

Lemma bytes_of_word x : is_u32 x →
  Z.lor (Z.lor (Z.lor (Z.shiftl (Z.land (Z.shiftr x 24) 255) 24) (Z.shiftl (Z.land (Z.shiftr x 16) 255) 16))
    (Z.shiftl (Z.land (Z.shiftr x 8) 255) 8)) (Z.land x 255) = x.
Proof.
  intros Hx. apply Z.bits_inj'. intros n Hn. replace (Z.land x 255) with (Z.shiftl (Z.land (Z.shiftr x 0) (Z.ones 8)) 0) by (by rewrite Z.shiftr_0_r, Z.shiftl_0_r).
  change 255 with (Z.ones 8). rewrite !Z.lor_spec, !part_bit by lia.
  destruct (Z.ltb_spec n 32); [|by rewrite (high_bit x n), !andb_false_r by done].
  destruct (Z.testbit x n); rewrite ?andb_false_r, ?andb_true_r; [|done].
  destruct (Z.leb_spec 24 n), (Z.leb_spec 16 n), (Z.leb_spec 8 n), (Z.leb_spec 0 n), (Z.ltb_spec n (24 + 8)), (Z.ltb_spec n (16 + 8)),
    (Z.ltb_spec n (8 + 8)), (Z.ltb_spec n (0 + 8)); done || lia.
Qed.

Lemma halves_of_word x : is_u32 x → Z.lor (u32 (Z.shiftl (Z.land (Z.shiftr x 16) 65535) 16)) (Z.land x 65535) = x.
Proof.
  intros Hx. unfold u32. change 4294967296 with (2 ^ 32). rewrite <- Z.land_ones by lia. apply Z.bits_inj'. intros n Hn.
  replace (Z.land x 65535) with (Z.shiftl (Z.land (Z.shiftr x 0) (Z.ones 16)) 0) by (by rewrite Z.shiftr_0_r, Z.shiftl_0_r).
  change 65535 with (Z.ones 16). rewrite Z.lor_spec, Z.land_spec, Z.testbit_ones, !part_bit by lia.
  destruct (Z.ltb_spec n 32); [|by rewrite (high_bit x n), !andb_false_r by done].
  destruct (Z.testbit x n); rewrite ?andb_false_r, ?andb_true_r; [|done].
  destruct (Z.leb_spec 16 n), (Z.leb_spec 0 n), (Z.ltb_spec n (16 + 16)), (Z.ltb_spec n (0 + 16)); done || lia.
Qed.

Lemma ipv4_parse_dotted x rest : is_u32 x → stops is_digit rest → rtr_ipv4_str_to_addr (dotted x ++ rest) = Some (Some {| addr := x |}).
Proof.
  intros Hx Hrest. unfold rtr_ipv4_str_to_addr, dotted. rewrite <- !(assoc_L (++)).
  rewrite scan_hhu_decimal; [|apply byte_range|done]. cbn [mbind option_bind].
  do 2 (rewrite scan_dot_decimal; [|apply byte_range|done]; cbn [mbind option_bind]).
  rewrite scan_dot_decimal; [|apply byte_range|done]. cbn [mbind option_bind]. by rewrite bytes_of_word.
Qed.

Lemma decimal_length v : 0 <= v < 256 → (length (decimal v) <= 3)%nat.
Proof. intros Hv. destruct (decimal_cases v Hv) as [(? & ->)|[(? & ->)|(? & ->)]]; simpl; lia. Qed.

Lemma dotted_length x : (length (dotted x) <= 15)%nat.
Proof.
  unfold dotted. rewrite !length_app. change (length [dot]) with 1%nat. pose proof (decimal_length _ (byte_range (Z.shiftr x 24))).
  pose proof (decimal_length _ (byte_range (Z.shiftr x 16))). pose proof (decimal_length _ (byte_range (Z.shiftr x 8))).
  pose proof (decimal_length _ (byte_range x)). lia.
Qed.

(** ** Words of an IPv6 address *)

Definition is_word (w : Z) : Prop := 0 <= w < 65536.

Lemma hex_digit_char k : 0 <= k < 16 → hex_digit (digit_char k) = Some k.
Proof.
  intros Hk. unfold digit_char, hex_digit. destruct (Z.ltb_spec k 10).
  - rewrite (proj2 (Z.leb_le 48 _)), (proj2 (Z.leb_le _ 57)) by lia. simpl andb. f_equal. lia.
  - rewrite (proj2 (Z.leb_gt _ 57)), (proj2 (Z.leb_gt _ 70)), (proj2 (Z.leb_le 97 _)), (proj2 (Z.leb_le _ 102)) by lia.
    rewrite !andb_false_r. simpl andb. f_equal. lia.
Qed.

Lemma hex_step k a j l : 0 <= k < 16 → 0 <= j → j * 16 + k < 65536 → l < 4 → hex_loop (digit_char k :: a) j l = hex_loop a (j * 16 + k) (l + 1).
Proof.
  intros Hk Hj Hw Hl. cbn [hex_loop]. rewrite hex_digit_char, Z.shiftl_mul_pow2 by lia. change (2 ^ 4) with 16.
  rewrite (proj2 (Z.leb_gt _ _)), (proj2 (Z.ltb_ge _ _)) by lia. done.
Qed.

Definition hex_stops (rest : list Z) : Prop := match rest with c :: _ => hex_digit c = None | [] => True end.

Lemma hex_stop rest j l : hex_stops rest → hex_loop rest j l = Some (j, rest).
Proof. destruct rest as [|c rest]; [done|]. simpl. by intros ->. Qed.

Lemma hexadecimal_cases w : is_word w →
  (w < 16 ∧ hexadecimal w = [digit_char w]) ∨
  (w < 256 ∧ hexadecimal w = [digit_char (w / 16); digit_char (w mod 16)]) ∨
  (w < 4096 ∧ hexadecimal w = [digit_char (w / 16 / 16); digit_char ((w / 16) mod 16); digit_char (w mod 16)]) ∨
  hexadecimal w = [digit_char (w / 16 / 16 / 16); digit_char ((w / 16 / 16) mod 16); digit_char ((w / 16) mod 16); digit_char (w mod 16)].
Proof.
  intros Hw. unfold is_word in Hw. unfold hexadecimal. cbn [digits]. destruct (Z.ltb_spec w 16); [by left|right].
  destruct (Z.ltb_spec (w / 16) 16); [left; split; [divs|done]|right]. destruct (Z.ltb_spec (w / 16 / 16) 16); [left; split; [divs|done]|right].
  rewrite (proj2 (Z.ltb_lt (w / 16 / 16 / 16) 16)) by divs. done.
Qed.

Lemma hex_loop_word w rest : is_word w → hex_stops rest → hex_loop (hexadecimal w ++ rest) 0 0 = Some (w, rest).
Proof.
  intros Hw Hrest. destruct (hexadecimal_cases w Hw) as [(? & ->)|[(? & ->)|[(? & ->)| ->]]]; unfold is_word in Hw; cbn [app];
    rewrite !hex_step by divs; rewrite hex_stop by done; do 2 f_equal; divs.
Qed.

Lemma hexadecimal_head w : is_word w → ∃ c l, hexadecimal w = c :: l ∧ c <> colon.
Proof.
  intros Hw. assert (∀ k, 0 <= k < 16 → digit_char k ≠ colon) as Hd.
  { intros k Hk. unfold digit_char, colon. destruct (Z.ltb_spec k 10); lia. }
  destruct (hexadecimal_cases w Hw) as [(? & ->)|[(? & ->)|[(? & ->)| ->]]]; unfold is_word in Hw; do 2 eexists; (split; [done|]); apply Hd; divs.
Qed.

Lemma hexadecimal_length w : is_word w → (1 <= length (hexadecimal w) <= 4)%nat.
Proof. intros Hw. destruct (hexadecimal_cases w Hw) as [(? & ->)|[(? & ->)|[(? & ->)| ->]]]; simpl; lia. Qed.

(** The digits of a decimal number, taken for hexadecimal ones. *)
Lemma hex_loop_decimal v rest : 0 <= v < 256 → hex_stops rest → ∃ j, hex_loop (decimal v ++ rest) 0 0 = Some (j, rest).
Proof.
  intros Hv Hrest. assert (∀ k, 0 <= k < 10 → 48 + k = digit_char k) as Hd by (intros; by rewrite digit_char_dec).
  destruct (decimal_cases v Hv) as [(? & ->)|[(? & ->)|(? & ->)]]; rewrite !Hd by divs; cbn [app]; rewrite !hex_step by divs;
    rewrite hex_stop by done; eauto.
Qed.

(** ** The loop over the words *)

Lemma hex_loop_length a j l j' b : hex_loop a j l = Some (j', b) → (length b <= length a)%nat.
Proof.
  revert j l. induction a as [|c a IH]; intros j l Hh; cbn [hex_loop] in Hh; [by injection Hh as <- <-|].
  destruct (hex_digit c); [|by injection Hh as <- <-]. destruct (_ || _); [done|]. apply IH in Hh. simpl. lia.
Qed.

(** More iterations than there are characters are not needed. *)
Lemma words_loop_fuel f g a words i hfil :
  (length a <= f)%nat → (length a <= g)%nat → words_loop f a words i hfil = words_loop g a words i hfil.
Proof.
  revert g a words i hfil. induction f as [|f IH]; intros g a words i hfil Hf Hg.
  { destruct a; [by destruct g|simpl in Hf; lia]. }
  destruct a as [|c a]; [by destruct g|]. destruct g as [|g]; [simpl in Hg; lia|]. simpl in Hf, Hg. cbn [words_loop].
  destruct (c =? colon); [destruct (0 <=? hfil); [done|]; apply IH; lia|].
  destruct (hex_loop (c :: a) 0 0) as [[j b]|] eqn:Hh; [|done]. apply hex_loop_length in Hh. simpl in Hh. destruct b as [|d b].
  - destruct (8 <=? i); [done|]. by destruct f, g.
  - simpl in Hh. destruct (_ && _); [|done]. destruct (8 <=? i); [done|]. apply IH; lia.
Qed.

Definition words_parse (a : list Z) := words_loop (length a) a.

Lemma words_parse_step a f words i hfil : (length a <= f)%nat → words_loop f a words i hfil = words_parse a words i hfil.
Proof. intros. by apply words_loop_fuel. Qed.

Lemma colon_stops rest : hex_stops (colon :: rest).
Proof. done. Qed.
Lemma dot_stops rest : hex_stops (dot :: rest).
Proof. done. Qed.

(** The parser on a word and what may follow it. *)
Lemma parse_word_colon w rest words i hfil :
  is_word w → rest ≠ [] → 0 <= i < 8 →
  words_parse (hexadecimal w ++ colon :: rest) words i hfil = words_parse rest (<[Z.to_nat i := Some w]> words) (i + 1) hfil.
Proof.
  intros Hw Hrest Hi. pose proof (hex_loop_word w (colon :: rest) Hw (colon_stops rest)) as Hh.
  destruct (hexadecimal_head w Hw) as (c & l & Hc & Hne). unfold words_parse at 1. rewrite Hc in *. cbn [app length words_loop].
  rewrite (proj2 (Z.eqb_neq c colon)) by done. change (c :: l ++ colon :: rest) with ((c :: l) ++ colon :: rest). rewrite Hh.
  rewrite Z.eqb_refl, bool_decide_false by done. simpl andb. cbv iota. rewrite (proj2 (Z.leb_gt 8 i)) by lia.
  apply words_parse_step. rewrite length_app. simpl. lia.
Qed.

Lemma parse_word_end w words i hfil :
  is_word w → 0 <= i < 8 → words_parse (hexadecimal w) words i hfil = Some (Some (<[Z.to_nat i := Some w]> words, i + 1, hfil)).
Proof.
  intros Hw Hi. pose proof (hex_loop_word w [] Hw I) as Hh. rewrite app_nil_r in Hh.
  destruct (hexadecimal_head w Hw) as (c & l & Hc & Hne). unfold words_parse. rewrite Hc in *. cbn [length words_loop].
  rewrite (proj2 (Z.eqb_neq c colon)), Hh, (proj2 (Z.leb_gt 8 i)) by (done || lia). by destruct (length l).
Qed.

Lemma parse_colon rest words i : words_parse (colon :: rest) words i (-1) = words_parse rest words i i.
Proof. unfold words_parse. cbn [length words_loop]. by rewrite Z.eqb_refl. Qed.

Lemma parse_dotted x words i hfil :
  is_u32 x → 0 <= i < 6 → 0 <= hfil →
  words_parse (dotted x) words i hfil =
  Some (Some (<[Z.to_nat (i + 1) := Some (u16 x)]> (<[Z.to_nat i := Some (u16 (Z.shiftr x 16))]> words), i + 2, hfil)).
Proof.
  intros Hx Hi Hf. pose proof (ipv4_parse_dotted x [] Hx I) as Hp. rewrite app_nil_r in Hp. unfold dotted in *.
  set (rest := decimal (Z.land (Z.shiftr x 16) 255) ++ _) in *. change ([dot] ++ rest) with (dot :: rest) in *.
  destruct (hex_loop_decimal _ (dot :: rest) (byte_range (Z.shiftr x 24)) (dot_stops rest)) as (j & Hh).
  destruct (decimal_head _ (byte_range (Z.shiftr x 24))) as (c & l & Hc & Hr). unfold words_parse. rewrite Hc in *. cbn [app length words_loop].
  rewrite (proj2 (Z.eqb_neq c colon)) by (unfold colon; lia). change (c :: l ++ dot :: rest) with ((c :: l) ++ dot :: rest). rewrite Hh.
  change (dot =? colon) with false. change (dot =? dot) with true. cbv iota. simpl andb at 1. cbv iota.
  rewrite (proj2 (Z.ltb_lt i 6)), (proj2 (Z.leb_le 0 hfil)), orb_true_r by lia. simpl andb. cbv iota. rewrite Hp. done.
Qed.

(** Words with colons in between, and the array after they were written from [i] on. *)
Definition tail_text (l : list Z) : list Z := flat_map (λ w, colon :: hexadecimal w) l.
Definition join (l : list Z) : list Z := match l with [] => [] | w :: l => hexadecimal w ++ tail_text l end.

Fixpoint written (i : nat) (l : list Z) (words : list (option Z)) : list (option Z) :=
  match l with [] => words | w :: l => written (S i) l (<[i := Some w]> words) end.

Lemma join_cons w w' l : join (w :: w' :: l) = hexadecimal w ++ colon :: join (w' :: l).
Proof. done. Qed.

Lemma join_nonempty w l : is_word w → join (w :: l) ≠ [].
Proof. intros Hw. destruct (hexadecimal_head w Hw) as (c & l' & Hc & _). simpl. by rewrite Hc. Qed.

Lemma parse_join_end l words i hfil :
  Forall is_word l → (i + length l <= 8)%nat →
  words_parse (join l) words (Z.of_nat i) hfil = Some (Some (written i l words, Z.of_nat (i + length l), hfil)).
Proof.
  intros Hl. revert words i. induction Hl as [|w l Hw Hl IH]; intros words i Hi.
  { unfold words_parse. simpl. by rewrite Nat.add_0_r. }
  simpl length in Hi. destruct l as [|w' l].
  - simpl join. rewrite app_nil_r, parse_word_end by (done || lia). rewrite Nat2Z.id. simpl. do 4 f_equal. lia.
  - rewrite join_cons, parse_word_colon; [|done|apply join_nonempty; by apply Forall_cons in Hl as [? _]|lia].
    replace (Z.of_nat i + 1) with (Z.of_nat (S i)) by lia. rewrite IH by (simpl in *; lia). rewrite Nat2Z.id. simpl. do 4 f_equal. lia.
Qed.

Lemma parse_join_colons l rest words i :
  Forall is_word l → l ≠ [] → (i + length l <= 8)%nat →
  words_parse (join l ++ colon :: colon :: rest) words (Z.of_nat i) (-1) =
  words_parse rest (written i l words) (Z.of_nat (i + length l)) (Z.of_nat (i + length l)).
Proof.
  intros Hl. revert words i. induction Hl as [|w l Hw Hl IH]; intros words i Hne Hi; [done|]. simpl length in *.
  destruct l as [|w' l].
  - simpl join. rewrite app_nil_r, parse_word_colon, parse_colon by (done || lia). rewrite Nat2Z.id.
    replace (Z.of_nat i + 1) with (Z.of_nat (i + 1)) by lia. done.
  - rewrite join_cons, <- (assoc_L (++)). cbn [app]. rewrite parse_word_colon; [|done| |lia].
    + replace (Z.of_nat i + 1) with (Z.of_nat (S i)) by lia. rewrite IH by (done || (simpl in *; lia)). rewrite Nat2Z.id. simpl length. cbn [written].
      by replace (S i + S (length l))%nat with (i + S (S (length l)))%nat by lia.
    + apply Forall_cons in Hl as [Hw' _]. pose proof (join_nonempty w' l Hw'). by destruct (join (w' :: l)).
Qed.

Lemma written_app i l l' words : written i (l ++ l') words = written (i + length l) l' (written i l words).
Proof.
  revert i words. induction l as [|w l IH]; intros i words; simpl; [by rewrite Nat.add_0_r|]. rewrite IH. f_equal. lia.
Qed.

(** ** The run of zeros *)

Definition zero_run (l : list Z) (pos len : nat) : Prop := (pos + len <= length l)%nat ∧ take len (drop pos l) = repeat 0 len.

Lemma zero_run_app l l' pos len : zero_run l pos len → zero_run (l ++ l') pos len.
Proof.
  intros [Hl Hz]. split; [rewrite length_app; lia|]. rewrite drop_app_le by lia. rewrite take_app_le; [done|]. rewrite length_drop. lia.
Qed.

Lemma zero_run_snoc l pos len : zero_run l pos len → (pos + len = length l)%nat → zero_run (l ++ [0]) pos (S len).
Proof.
  intros [Hl Hz] Hend. split; [rewrite length_app; simpl; lia|]. rewrite drop_app_le by lia.
  rewrite take_ge in Hz by (rewrite length_drop; lia). rewrite Hz, take_ge by (rewrite length_app, repeat_length; simpl; lia).
  by rewrite <- repeat_cons.
Qed.

Lemma best_run_spec l : ∀ pre bp bl cp cl,
  zero_run pre bp bl → zero_run pre cp cl → (cl ≠ 0 → cp + cl = length pre)%nat →
  ∃ p len, best_run l (Z.of_nat (length pre)) (Z.of_nat bp) (Z.of_nat bl) (Z.of_nat cp) (Z.of_nat cl) = (Z.of_nat p, Z.of_nat len) ∧
    zero_run (pre ++ l) p len.
Proof.
  induction l as [|w l IH]; intros pre bp bl cp cl Hb Hc He; cbn [best_run]; [exists bp, bl; by rewrite app_nil_r|].
  replace (Z.of_nat (length pre) + 1) with (Z.of_nat (length (pre ++ [w]))) by (rewrite length_app; simpl; lia).
  replace (pre ++ w :: l) with ((pre ++ [w]) ++ l) by by rewrite <- (assoc_L (++)).
  destruct (Z.eqb_spec w 0) as [->|Hw]; simpl negb; cbv iota.
  - set (cp' := if decide (cl = 0)%nat then length pre else cp).
    assert ((if Z.of_nat cl =? 0 then Z.of_nat (length pre) else Z.of_nat cp) = Z.of_nat cp') as ->.
    { unfold cp'. destruct (decide (cl = 0)%nat) as [->|Hn]; [done|]. by rewrite (proj2 (Z.eqb_neq _ _)) by lia. }
    assert (zero_run (pre ++ [0]) cp' (S cl)) as Hc'.
    { unfold cp'. destruct (decide (cl = 0)%nat) as [->|Hn]; apply zero_run_snoc; [|lia|done|by apply He].
      split; [lia|done]. }
    assert ((cp' + S cl)%nat = length (pre ++ [0])) as He'.
    { unfold cp'. rewrite length_app. simpl. destruct (decide (cl = 0)%nat) as [->|Hn]; [lia|]. specialize (He Hn). lia. }
    replace (Z.of_nat cl + 1) with (Z.of_nat (S cl)) by lia. destruct (Z.of_nat bl <? Z.of_nat (S cl)); apply IH; try done; by apply zero_run_app.
  - apply (IH (pre ++ [w]) bp bl cp 0%nat); [by apply zero_run_app| |done]. destruct Hc as [Hl _]. split; [rewrite length_app; lia|done].
Qed.

Lemma zero_run_split l pos len : zero_run l pos len → l = take pos l ++ repeat 0 len ++ drop (pos + len) l.
Proof. intros [_ Hz]. by rewrite <- Hz, <- drop_drop, take_drop, take_drop. Qed.

(** ** Writing the words *)

Lemma print_after n words i bp bl :
  length words = 8%nat → (1 <= i)%nat → (8 <= n + i)%nat → bp < Z.of_nat i →
  print_words n words (Z.of_nat i) bp bl = tail_text (drop i words).
Proof.
  intros Hl. revert i. induction n as [|n IH]; intros i Hi Hn Hb; cbn [print_words].
  { by rewrite drop_ge by lia. }
  destruct (Z.ltb_spec (Z.of_nat i) 8); [|by rewrite drop_ge by lia]. rewrite (proj2 (Z.eqb_neq _ bp)), (proj2 (Z.eqb_neq _ 0)) by lia.
  replace (Z.of_nat i + 1) with (Z.of_nat (S i)) by lia. rewrite IH by lia. rewrite Nat2Z.id.
  destruct (lookup_lt_is_Some_2 words i) as [w Hw]; [lia|]. rewrite Hw, (drop_S words w i) by done. done.
Qed.

Lemma print_run n words p len :
  length words = 8%nat → (p + len <= 8)%nat → (1 <= len)%nat → (8 <= n + p)%nat →
  print_words n words (Z.of_nat p) (Z.of_nat p) (Z.of_nat len) = colon :: colon :: join (drop (p + len) words).
Proof.
  intros Hl Hp Hlen Hn. destruct n as [|n]; [lia|]. cbn [print_words]. rewrite (proj2 (Z.ltb_lt _ 8)), Z.eqb_refl by lia.
  replace (Z.of_nat p + (Z.of_nat len - 1) + 1) with (Z.of_nat (p + len)) by lia. rewrite print_after by lia.
  destruct (Z.eqb_spec (Z.of_nat p + (Z.of_nat len - 1)) 7) as [He|He].
  - by rewrite drop_ge by lia.
  - destruct (lookup_lt_is_Some_2 words (p + len)) as [w Hw]; [lia|]. rewrite (drop_S words w) by done. done.
Qed.

Lemma print_before n words i p len :
  length words = 8%nat → (p + len <= 8)%nat → (1 <= len)%nat → (8 <= n + i)%nat → (1 <= i <= p)%nat →
  print_words n words (Z.of_nat i) (Z.of_nat p) (Z.of_nat len) =
  tail_text (take (p - i) (drop i words)) ++ colon :: colon :: join (drop (p + len) words).
Proof.
  intros Hl Hp Hlen. revert i. induction n as [|n IH]; intros i Hn Hi; [lia|]. destruct (decide (i = p)) as [->|Hne].
  { rewrite Nat.sub_diag. by apply print_run. }
  cbn [print_words]. rewrite (proj2 (Z.ltb_lt _ 8)), (proj2 (Z.eqb_neq _ (Z.of_nat p))), (proj2 (Z.eqb_neq _ 0)) by lia.
  replace (Z.of_nat i + 1) with (Z.of_nat (S i)) by lia. rewrite IH by lia. rewrite Nat2Z.id.
  destruct (lookup_lt_is_Some_2 words i) as [w Hw]; [lia|]. rewrite Hw, (drop_S words w i) by done.
  replace (p - i)%nat with (S (p - S i)) by lia. cbn [take tail_text flat_map default]. simpl. rewrite <- !(assoc_L (++)). done.
Qed.

Lemma print_compressed words p len :
  length words = 8%nat → (p + len <= 8)%nat → (1 <= len)%nat →
  print_words 8 words 0 (Z.of_nat p) (Z.of_nat len) = join (take p words) ++ colon :: colon :: join (drop (p + len) words).
Proof.
  intros Hl Hp Hlen. destruct p as [|p]; [by apply (print_run 8 words 0)|]. remember 7%nat as n. cbn [print_words]. simpl Z.ltb. cbv iota.
  rewrite (proj2 (Z.eqb_neq 0 _)) by lia. simpl Z.eqb. cbv iota. rewrite (print_before n words 1) by lia.
  destruct words as [|w words]; [done|]. simpl. rewrite Nat.sub_0_r, drop_0, <- (assoc_L (++)). done.
Qed.

Lemma print_uncompressed words bl : length words = 8%nat → print_words 8 words 0 (-1) bl = join words.
Proof.
  intros Hl. remember 7%nat as n. cbn [print_words]. simpl Z.ltb. simpl Z.eqb. cbv iota. rewrite (print_after n words 1) by lia.
  by destruct words.
Qed.

(** ** Reading it again *)

Lemma filled_words words p len :
  length words = 8%nat → (p + len <= 8)%nat → (1 <= len)%nat →
  move_words 8 (8 - Z.of_nat (p + length (drop (p + len) words))) (Z.of_nat p)
    (written p (drop (p + len) words) (written 0 (take p words) (repeat None 8))) =
  Some <$> (take p words ++ repeat 0 len ++ drop (p + len) words).
Proof.
  intros Hl Hp Hlen. do 8 (destruct words as [|? words]; [done|]). destruct words; [|done].
  assert (p = 0 ∨ p = 1 ∨ p = 2 ∨ p = 3 ∨ p = 4 ∨ p = 5 ∨ p = 6 ∨ p = 7)%nat as Hcp by lia.
  assert (len = 1 ∨ len = 2 ∨ len = 3 ∨ len = 4 ∨ len = 5 ∨ len = 6 ∨ len = 7 ∨ len = 8)%nat as Hcl by lia.
  destruct Hcp as [->|[->|[->|[->|[->|[->|[->| ->]]]]]]];
    destruct Hcl as [->|[->|[->|[->|[->|[->|[->| ->]]]]]]]; first [reflexivity|exfalso; lia].
Qed.

Lemma written_all words : length words = 8%nat → written 0 words (repeat None 8) = Some <$> words.
Proof. intros Hl. do 8 (destruct words as [|? words]; [done|]). by destruct words. Qed.

Lemma word_range x : is_word (Z.land x 65535).
Proof. unfold is_word. change 65535 with (Z.ones 16). rewrite Z.land_ones by lia. apply Z.mod_pos_bound. lia. Qed.

Lemma ipv6_words_ok a : Forall is_word (ipv6_words a) ∧ length (ipv6_words a) = 8%nat.
Proof. split; [|done]. unfold ipv6_words. simpl. repeat constructor; apply word_range. Qed.

Lemma ipv6_finish t t' words i hfil a :
  leading_colons t = Some t' → words_parse t' (repeat None 8) 0 (-1) = Some (Some (words, i, hfil)) → valid_addr (Addr6 a) →
  (if 0 <=? hfil then move_words 8 (8 - i) hfil words else words) = Some <$> ipv6_words a →
  rtr_ipv6_str_to_addr t = Some (Some a).
Proof.
  intros Ht Hp (H0 & H1 & H2 & H3) Hw. unfold rtr_ipv6_str_to_addr. rewrite Ht. unfold words_parse in Hp. rewrite Hp. cbn [mbind option_bind].
  rewrite Hw. unfold read_word, ipv6_words. simpl. rewrite !halves_of_word by done. by destruct a.
Qed.

Lemma join_leading w l t : is_word w → leading_colons (join (w :: l) ++ t) = Some (join (w :: l) ++ t).
Proof.
  intros Hw. destruct (hexadecimal_head w Hw) as (c & l' & Hc & Hne). unfold join. rewrite Hc. cbn [app leading_colons].
  by rewrite (proj2 (Z.eqb_neq c colon)) by done.
Qed.

Lemma parse_uncompressed a : valid_addr (Addr6 a) → rtr_ipv6_str_to_addr (join (ipv6_words a)) = Some (Some a).
Proof.
  intros Ha. destruct (ipv6_words_ok a) as [Hw Hl]. eapply (ipv6_finish _ (join (ipv6_words a))); [|apply (parse_join_end _ _ 0); [done|lia]|done|].
  - destruct (ipv6_words a) as [|w l]; [done|]. apply Forall_cons in Hw as [Hw _]. pose proof (join_leading w l [] Hw) as Hj. by rewrite app_nil_r in Hj.
  - by apply (written_all (ipv6_words a)).
Qed.

Lemma parse_compressed a p len : valid_addr (Addr6 a) → zero_run (ipv6_words a) p len → (1 <= len)%nat →
  rtr_ipv6_str_to_addr (join (take p (ipv6_words a)) ++ colon :: colon :: join (drop (p + len) (ipv6_words a))) = Some (Some a).
Proof.
  intros Ha Hz Hlen. pose proof Hz as [Hp _]. pose proof (zero_run_split _ _ _ Hz) as Hs. destruct (ipv6_words_ok a) as [Hw Hl].
  rewrite Hl in Hp. pose proof (filled_words _ p len Hl Hp Hlen) as Hf. rewrite <- Hs in Hf.
  assert (Forall is_word (drop (p + len) (ipv6_words a))) as Hd by by apply Forall_drop.
  assert (p + length (drop (p + len) (ipv6_words a)) <= 8)%nat as Hd8 by (rewrite length_drop; lia).
  destruct p as [|p].
  - eapply ipv6_finish; [done|rewrite parse_colon; by apply (parse_join_end _ _ 0)|done|exact Hf].
  - destruct (ipv6_words a) as [|w l] eqn:Hwords; [done|]. cbn [take] in *.
    eapply ipv6_finish; [apply join_leading; by apply Forall_cons in Hw as [? _]| |done|].
    + rewrite (parse_join_colons (w :: take p l) _ _ 0); [|apply (Forall_take _ (S p) _ Hw)|done|simpl; rewrite length_take; simpl in Hl; lia].
      assert (0 + length (w :: take p l) = S p)%nat as -> by (simpl; rewrite length_take; simpl in Hl; lia). by apply parse_join_end.
    + rewrite Hwords . exact Hf.
Qed.

(** An embedded IPv4 address. *)
Lemma low_word x : u16 x = Z.land x 65535.
Proof. unfold u16. change 65535 with (Z.ones 16). by rewrite Z.land_ones by lia. Qed.

Lemma parse_embedded a : valid_addr (Addr6 a) → take 5 (ipv6_words a) = repeat 0 5 → addr2 a = 65535 ∨ addr2 a = 0 →
  rtr_ipv6_str_to_addr ([colon; colon] ++ (if negb (addr2 a =? 0) then [102; 102; 102; 102; colon] else []) ++ dotted (addr3 a)) = Some (Some a).
Proof.
  intros Ha Hz Hx. assert (is_u32 (addr3 a)) as H3 by apply Ha. injection Hz as Z0 Z1 Z2 Z3 Z4.
  assert (dotted (addr3 a) ≠ []) as Hd.
  { unfold dotted. destruct (decimal_head _ (byte_range (Z.shiftr (addr3 a) 24))) as (c & l & -> & _). done. }
  destruct Hx as [Hx|Hx]; rewrite Hx; simpl negb; cbv iota; (eapply ipv6_finish; [done| |done|]).
  - change ([102; 102; 102; 102; colon] ++ dotted (addr3 a)) with (hexadecimal 65535 ++ colon :: dotted (addr3 a)).
    rewrite parse_colon, parse_word_colon by (done || lia). by apply parse_dotted.
  - unfold ipv6_words. simpl. rewrite Z0, Z1, Z2, Z3, Z4, Hx, !low_word. done.
  - rewrite parse_colon. by apply parse_dotted.
  - unfold ipv6_words. simpl. rewrite Z0, Z1, Z2, Z3, Z4, Hx, !low_word. done.
Qed.

(** The text of an IPv6 address. *)
Lemma ipv6_text a len : valid_addr (Addr6 a) → INET6_ADDRSTRLEN <= len →
  ∃ text, rtr_ipv6_addr_to_str a len = (0, Some text) ∧
    ((∃ t, text = [colon; colon] ++ t ++ dotted (addr3 a) ∧ (t = [] ∨ t = [102; 102; 102; 102; colon])) ∨
     text = join (ipv6_words a) ∨
     ∃ p n, zero_run (ipv6_words a) p n ∧ (2 <= n)%nat ∧ text = join (take p (ipv6_words a)) ++ colon :: colon :: join (drop (p + n) (ipv6_words a))) ∧
    rtr_ipv6_str_to_addr text = Some (Some a).
Proof.
  intros Ha Hlen. destruct (ipv6_words_ok a) as [Hw Hl]. unfold rtr_ipv6_addr_to_str. rewrite (proj2 (Z.ltb_ge _ _)) by done.
  destruct (best_run_spec (ipv6_words a) [] 0 0 0 0) as (p & n & Hb & Hz); [by split; [simpl; lia|]..|done|].
  change ([] ++ ipv6_words a) with (ipv6_words a) in Hz. change (Z.of_nat (length [])) with 0 in Hb. change (Z.of_nat 0) with 0 in Hb. rewrite Hb. cbv beta iota zeta. destruct (Z.ltb_spec (Z.of_nat n) 2) as [Hn|Hn].
  { change (-1 =? 0) with false. rewrite andb_false_l. rewrite print_uncompressed by done. eexists. split; [done|]. split; [by right; left|by apply parse_uncompressed]. }
  destruct ((Z.of_nat p =? 0) && _) eqn:Hemb.
  - apply andb_prop in Hemb as [Hp Hemb]. apply Z.eqb_eq in Hp. assert (p = 0)%nat as -> by lia. clear Hp. destruct Hz as [Hzl Hz]. rewrite drop_0 in Hz.
    assert ((5 <= n)%nat ∧ (addr2 a = 65535 ∨ addr2 a = 0)) as [H5 Hx].
    { apply orb_prop in Hemb as [[Hn5 Hx]%andb_prop|Hn6]; [apply Z.eqb_eq in Hn5, Hx; split; [lia|by left]|].
      apply Z.eqb_eq in Hn6. split; [lia|right]. assert (n = 6)%nat as -> by lia. injection Hz as _ _ _ _ Z4 Z5.
      rewrite <- (halves_of_word (addr2 a)) by apply Ha. by rewrite Z4, Z5. }
    eexists. split; [done|]. split; [left; eexists; split; [done|]; destruct Hx as [-> | ->]; [by right|by left]|].
    apply parse_embedded; [done| |done]. assert (take 5 (take n (ipv6_words a)) = take 5 (repeat 0 n)) as Ht by by rewrite Hz.
    rewrite take_take, Nat.min_l in Ht by lia. rewrite Ht. by do 5 (destruct n as [|n]; [lia|]).
  - pose proof Hz as [Hzl _]. rewrite Hl in Hzl. rewrite print_compressed by (done || lia). eexists. split; [done|].
    split; [right; right; exists p, n; split; [done|split; [lia|done]]|]. apply parse_compressed; [done|done|lia].
Qed.
