(* ===== verification/IpTextTheorems.v ===== *)
(** * IP addresses as text: the round trip, and limits *)

From stdpp Require Import strings.
From S2P Require Import Prelude Ip IpText IpTextProofs.
Open Scope Z_scope.

(** ** Lengths *)

Lemma tail_text_length l : Forall is_word l → (length (tail_text l) <= 5 * length l)%nat.
Proof.
  induction 1 as [|w l Hw _ IH]; [done|]. pose proof (hexadecimal_length w Hw). unfold tail_text in *. cbn [flat_map app]. rewrite length_cons, length_app.
  cbn [length]. lia.
Qed.

Lemma join_length l : Forall is_word l → (length (join l) <= 5 * length l - 1)%nat.
Proof.
  destruct 1 as [|w l Hw Hl]; [done|]. pose proof (hexadecimal_length w Hw). pose proof (tail_text_length l Hl). unfold join. rewrite length_app. cbn [length]. lia.
Qed.

(** What is written to the buffer, the terminating zero included, fits. *)
Lemma ipv6_text_fits a len : valid_addr (Addr6 a) → INET6_ADDRSTRLEN <= len →
  ∃ text, rtr_ipv6_addr_to_str a len = (0, Some text) ∧ Z.of_nat (length text) + 1 <= INET6_ADDRSTRLEN ∧ In colon text ∧
    rtr_ipv6_str_to_addr text = Some (Some a).
Proof.
  intros Ha Hlen. destruct (ipv6_text a len Ha Hlen) as (text & Ht & Hcases & Hp). exists text. split; [done|]. unfold INET6_ADDRSTRLEN.
  destruct (ipv6_words_ok a) as [Hw Hl]. pose proof (join_length _ Hw) as Hjoin. rewrite Hl in Hjoin. split; [|split; [|done]].
  - destruct Hcases as [(t & -> & Ht')|[-> |(p & n & [Hz _] & Hn & ->)]].
    + pose proof (dotted_length (addr3 a)). rewrite !length_app. destruct Ht' as [-> | ->]; cbn [length]; lia.
    + lia.
    + rewrite Hl in Hz. pose proof (join_length _ (Forall_take _ p _ Hw)) as H1. pose proof (join_length _ (Forall_drop _ (p + n) _ Hw)) as H2.
      rewrite length_take, Hl in H1. rewrite length_drop, Hl in H2. rewrite length_app, !length_cons. lia.
  - destruct Hcases as [(t & -> & Ht')|[-> |(p & n & [Hz _] & Hn & ->)]].
    + by left.
    + unfold ipv6_words. cbn [flat_map app join tail_text]. rewrite !in_app_iff. right. by left.
    + rewrite in_app_iff. right. by left.
Qed.

Lemma decimal_no_colon v : 0 <= v < 256 → ~ In colon (decimal v).
Proof.
  intros Hv. unfold colon. destruct (decimal_cases v Hv) as [(? & ->)|[(? & ->)|(? & ->)]]; cbn [In]; divs.
Qed.

Lemma dotted_no_colon x : existsb (λ c, c =? colon) (dotted x) = false.
Proof.
  destruct (existsb _ _) eqn:He; [|done]. apply existsb_exists in He as (c & Hc & ->%Z.eqb_eq). exfalso. revert Hc. unfold dotted.
  rewrite !in_app_iff. pose proof (decimal_no_colon _ (byte_range (Z.shiftr x 24))). pose proof (decimal_no_colon _ (byte_range (Z.shiftr x 16))).
  pose proof (decimal_no_colon _ (byte_range (Z.shiftr x 8))). pose proof (decimal_no_colon _ (byte_range x)).
  assert (~ In colon [dot]) by (intros [Hd|[]]; discriminate Hd). tauto.
Qed.

(** ** The round trip *)

(** The length of the buffer that the documentation asks for. *)
Definition str_len (ip : rtr_ip_addr) : Z := match ip with Addr4 _ => 16 | Addr6 _ => INET6_ADDRSTRLEN end.

(** The text of an address, and what is read from it. *)
Lemma ip_text_read ip len : valid_addr ip → str_len ip <= len →
  ∃ text, rtr_ip_addr_to_str ip len = (0, Some text) ∧ Z.of_nat (length text) + 1 <= str_len ip ∧ rtr_ip_str_to_addr text = Some (Some ip).
Proof.
  intros Hv Hlen. destruct ip as [[x]|a]; cbn [rtr_ip_addr_to_str str_len] in *.
  - pose proof (dotted_length x) as Hd. exists (dotted x). unfold rtr_ipv4_addr_to_str. rewrite (proj2 (Z.eqb_neq len 0)) by lia.
    cbn [addr]. fold (dotted x). rewrite take_ge by lia. split; [done|]. split; [lia|]. unfold rtr_ip_str_to_addr. rewrite dotted_no_colon. simpl negb. cbv iota.
    pose proof (ipv4_parse_dotted x [] Hv I) as Hp. rewrite app_nil_r in Hp. by rewrite Hp.
  - destruct (ipv6_text_fits a len Hv Hlen) as (text & Ht & Hl & Hc & Hp). exists text. split; [done|]. split; [done|].
    unfold rtr_ip_str_to_addr. assert (existsb (λ c, c =? colon) text = true) as ->; [|by simpl negb; cbv iota; rewrite Hp].
    apply existsb_exists. exists colon. by rewrite Z.eqb_refl.
Qed.

(** C19: An address that is written to a buffer of the documented size fits into it, with
    the terminating zero, and reading the text gives the same address: IPv4 in dotted
    notation, IPv6 with the longest run of zero words left out, and IPv6 with an embedded
    IPv4 address. *)
Theorem ip_text_roundtrip ip len : valid_addr ip → str_len ip <= len →
  ∃ text, rtr_ip_addr_to_str ip len = (0, Some text) ∧ Z.of_nat (length text) + 1 <= len ∧
    rtr_ip_str_to_addr text = Some (Some ip) ∧ rtr_ip_str_cmp ip text = Some true.
Proof.
  intros Hv Hlen. destruct (ip_text_read ip len Hv Hlen) as (text & Ht & Hl & Hp). exists text. split; [done|]. split; [lia|]. split; [done|].
  unfold rtr_ip_str_cmp. rewrite Hp. cbn [mbind option_bind]. f_equal. rewrite rtr_ip_addr_equal_spec. by apply bool_decide_eq_true.
Qed.

(** ** Limits *)

Definition codes (s : string) : list Z := (λ c, Z.of_N (Ascii.N_of_ascii c)) <$> String.list_ascii_of_string s.

Lemma ip_text_roundtrip_witness :
  let ip := Addr6 {| addr0 := 536939960; addr1 := 0; addr2 := 0; addr3 := 1 |} in
  ∃ text, rtr_ip_addr_to_str ip 46 = (0, Some text) ∧ text = codes "2001:db8::1" ∧ rtr_ip_str_to_addr text = Some (Some ip).
Proof.
  intros ip. destruct (ip_text_roundtrip ip 46) as (text & Ht & _ & Hp & _); [vm_compute; split_and!; (discriminate || reflexivity)|done|].
  exists text. split; [exact Ht|]. split; [|exact Hp]. vm_compute in Ht. injection Ht as <-. reflexivity.
Defined.

(** Without a double colon, text of less than eight words is accepted as an IPv6
    address, and the words that are missing are read from the array although nothing was
    written to them. *)
Theorem incomplete_ipv6_undefined l : Forall is_word l → (1 < length l < 8)%nat → rtr_ip_str_to_addr (join l) = None.
Proof.
  intros Hl Hlen. destruct l as [|w [|w' l]]; simpl in Hlen; try lia. unfold rtr_ip_str_to_addr.
  assert (existsb (λ c, c =? colon) (join (w :: w' :: l)) = true) as ->.
  { apply existsb_exists. exists colon. split; [|done]. rewrite join_cons, in_app_iff. right. by left. }
  simpl negb. cbv iota. unfold rtr_ipv6_str_to_addr. pose proof (join_leading w (w' :: l) [] (Forall_inv Hl)) as Hs. rewrite app_nil_r in Hs. rewrite Hs.
  pose proof (parse_join_end (w :: w' :: l) (repeat None 8) 0 (-1) Hl ltac:(simpl; lia)) as Hp. unfold words_parse in Hp.
  change (Z.of_nat 0) with 0 in Hp. rewrite Hp. cbn [mbind option_bind]. change (0 <=? -1) with false. cbv iota. clear Hp Hs.
  do 6 (destruct l as [|? l]; [done|]). simpl in Hlen. lia.
Qed.

Lemma incomplete_ipv6_undefined_witness : rtr_ip_str_to_addr (codes "2001:db8:1") = None.
Proof. apply (incomplete_ipv6_undefined [8193; 3512; 1]); [repeat constructor; lia|simpl; lia]. Defined.
