(* ===== verification/Trie.v ===== *)
(** * The shortest-prefix-first tree: [rtrlib/pfx/trie/trie.c]

    A tree of [struct trie_node]s is a value of [trie_node]; a pointer to a node
    of the tree is the path that leads to it from the root, so that the parent
    of a node is the path without its last step.  The tree functions are generic
    in the type [D] of what [data] points to. *)

From S2P Require Import Prelude Ip.

(** What [swap_nodes] and [replace_node_data] move between nodes. *)
Record trie_entry (D : Type) := Entry { prefix : rtr_ip_addr; len : Z; data : D }.
Arguments Entry {D} _ _ _.
Arguments prefix {D} _.
Arguments len {D} _.
Arguments data {D} _.

Inductive trie_node (D : Type) :=
| NULL
| Node (n : trie_entry D) (lchild rchild : trie_node D).
Arguments NULL {D}.
Arguments Node {D} _ _ _.

Inductive child_node_rel := LEFT | RIGHT.

#[global] Instance child_node_rel_eq_dec : EqDecision child_node_rel.
Proof. solve_decision. Defined.

(** A pointer to a node of a tree. *)
Abbreviation path := (list child_node_rel).

Section Trie.
Context `{Build} {D : Type}.
Implicit Types (t root : trie_node D) (e : trie_entry D) (p here : path).

(** ** The operations *)

Definition swap_nodes (a b : trie_entry D) : trie_entry D * trie_entry D := (b, a).

Definition add_child_node (parent child : trie_node D) (rel : child_node_rel)
  : option (trie_node D) :=
  match parent with
  | NULL => None
  | Node e l r =>
      Some (match rel with LEFT => Node e child r | RIGHT => Node e l child end)
  end.

Definition is_left_child (addr : rtr_ip_addr) (lvl : Z) : option bool :=
  b ← rtr_ip_addr_get_bits addr (u8 lvl) 1; Some (rtr_ip_addr_is_zero b).

Fixpoint trie_insert (root : trie_node D) (new : trie_entry D) (lvl : Z)
  : option (trie_node D) :=
  match root with
  | NULL => None
  | Node e l r =>
      let '(e, new) := if len new <? len e then swap_nodes e new else (e, new) in
      left ← is_left_child (prefix new) lvl;
      if left : bool then
        match l with
        | NULL => add_child_node (Node e l r) (Node new NULL NULL) LEFT
        | Node _ _ _ => l' ← trie_insert l new (lvl + 1); Some (Node e l' r)
        end
      else
        match r with
        | NULL => add_child_node (Node e l r) (Node new NULL NULL) RIGHT
        | Node _ _ _ => r' ← trie_insert r new (lvl + 1); Some (Node e l r')
        end
  end.

(** Returns the node found, with what is below it, and the final value of
    [*lvl]. *)
Fixpoint trie_lookup (root : trie_node D) (pfx : rtr_ip_addr) (mask_len lvl : Z)
  : option (trie_node D * Z) :=
  match root with
  | NULL => Some (NULL, lvl)
  | Node e l r =>
      matches ←
        (if len e <=? mask_len then
           x ← rtr_ip_addr_get_bits (prefix e) 0 (len e);
           y ← rtr_ip_addr_get_bits pfx 0 (len e);
           Some (rtr_ip_addr_equal x y)
         else Some false);
      if matches : bool then Some (root, lvl)
      else
        left ← is_left_child pfx lvl;
        trie_lookup (if left : bool then l else r) pfx mask_len (lvl + 1)
  end.

(** [parent] of the node at [here]: [None] is the null pointer. *)
Definition parent here : option path :=
  match here with [] => None | _ => Some (removelast here) end.

(** Returns the node pointer, the final value of [*lvl] and [*found]; [here] is
    the pointer to [root_node]. *)
Fixpoint trie_lookup_exact (root_node : trie_node D) here (pfx : rtr_ip_addr)
    (mask_len lvl : Z) : option (option path * Z * bool) :=
  match root_node with
  | NULL => Some (None, lvl, false)
  | Node e l r =>
      if (0 <? lvl) && (mask_len <? len e) then Some (parent here, lvl - 1, false)
      else if (len e =? mask_len) && rtr_ip_addr_equal (prefix e) pfx then
        Some (Some here, lvl, true)
      else
        left ← is_left_child pfx lvl;
        if left : bool then
          match l with
          | NULL => Some (Some here, lvl, false)
          | Node _ _ _ => trie_lookup_exact l (here ++ [LEFT]) pfx mask_len (lvl + 1)
          end
        else
          match r with
          | NULL => Some (Some here, lvl, false)
          | Node _ _ _ => trie_lookup_exact r (here ++ [RIGHT]) pfx mask_len (lvl + 1)
          end
  end.

(** Clears the pointer to [n] in its parent; the root of a tree has none. *)
Definition deref_node (has_parent : bool) (n : trie_node D) : trie_node D :=
  if has_parent then NULL else n.

Definition prefix_is_same (e : trie_entry D) (pfx : rtr_ip_addr) (mask_len : Z) : bool :=
  (len e =? mask_len) && rtr_ip_addr_equal (prefix e) pfx.

Definition trie_is_leaf (n : trie_node D) : bool :=
  match n with Node _ NULL NULL => true | _ => false end.

(** [a] takes over what [b] holds. *)
Definition replace_node_data (a b : trie_entry D) : trie_entry D := b.

Definition set_data (e : trie_entry D) (d : D) : trie_entry D :=
  Entry (prefix e) (len e) d.

(** The test for the child that takes the place of a removed node. *)
Definition left_is_next (l r : trie_node D) : bool :=
  match l, r with
  | NULL, _ => false
  | Node _ _ _, NULL => true
  | Node le _ _, Node re _ _ => len le <? len re
  end.

(** A node removed below the child [d], seen from its parent. *)
Definition below (d : child_node_rel) (rm : option (path * D)) : option (path * D) :=
  match rm with Some (p, x) => Some (d :: p, x) | None => None end.

(** The recursion of [trie_remove].  [root_data] is the [data] of [root], which
    the caller overwrites before it calls itself on a child.  Returns what is
    left of the tree under [root] and the removed node: the null pointer
    ([None]), or its path from [root] and its [data]. *)
Fixpoint trie_remove_from (root : trie_node D) (root_data : D) (has_parent : bool)
    (pfx : rtr_ip_addr) (mask_len lvl : Z)
  : option (trie_node D * option (path * D)) :=
  match root with
  | NULL => None
  | Node e l r =>
      let e := set_data e root_data in
      if prefix_is_same e pfx mask_len then
        if trie_is_leaf (Node e l r) then
          Some (deref_node has_parent (Node e l r), Some ([], data e))
        else
          let tmp := data e in
          if left_is_next l r then
            match l with
            | NULL => None
            | Node le _ _ =>
                let e := replace_node_data e le in
                '(l', rm) ← trie_remove_from l tmp true (prefix le) (len le) (lvl + 1);
                Some (Node e l' r, below LEFT rm)
            end
          else
            match r with
            | NULL => None
            | Node re _ _ =>
                let e := replace_node_data e re in
                '(r', rm) ← trie_remove_from r tmp true (prefix re) (len re) (lvl + 1);
                Some (Node e l r', below RIGHT rm)
            end
      else
        left ← is_left_child pfx lvl;
        if left : bool then
          match l with
          | NULL => Some (Node e l r, None)
          | Node le _ _ =>
              '(l', rm) ← trie_remove_from l (data le) true pfx mask_len (lvl + 1);
              Some (Node e l' r, below LEFT rm)
          end
        else
          match r with
          | NULL => Some (Node e l r, None)
          | Node re _ _ =>
              '(r', rm) ← trie_remove_from r (data re) true pfx mask_len (lvl + 1);
              Some (Node e l r', below RIGHT rm)
          end
  end.

Definition trie_remove (root : trie_node D) (has_parent : bool) (pfx : rtr_ip_addr)
    (mask_len lvl : Z) : option (trie_node D * option (path * D)) :=
  match root with
  | NULL => None
  | Node e _ _ => trie_remove_from root (data e) has_parent pfx mask_len lvl
  end.

(** ** Pointers into a tree *)

Definition child t (d : child_node_rel) : trie_node D :=
  match t, d with
  | NULL, _ => NULL
  | Node _ l _, LEFT => l
  | Node _ _ r, RIGHT => r
  end.

(** The node a pointer refers to, with what is below it. *)
Fixpoint subtree t p : trie_node D :=
  match p with [] => t | d :: p => subtree (child t d) p end.

(** Run [f] on the tree below the node at [p]. *)
Fixpoint update_at t p (f : trie_node D → option (trie_node D)) {struct p}
  : option (trie_node D) :=
  match p with
  | [] => f t
  | d :: p =>
      match t, d with
      | NULL, _ => None
      | Node e l r, LEFT => l' ← update_at l p f; Some (Node e l' r)
      | Node e l r, RIGHT => r' ← update_at r p f; Some (Node e l r')
      end
  end.

(** ** Specification vocabulary *)

(** The entries of a tree, in the order [pfx_table_for_each_rec] visits them. *)
Fixpoint entries t : list (trie_entry D) :=
  match t with NULL => [] | Node e l r => entries l ++ e :: entries r end.

Definition key e : rtr_ip_addr * Z := (prefix e, len e).

(** A prefix of version [v] the tree can hold: a valid address with no host
    bits, and a length within the address. *)
Definition key_ok (v : rtr_ip_version) (k : rtr_ip_addr * Z) : Prop :=
  ver k.1 = v ∧ valid_addr k.1 ∧ len_ok k.2 ∧ k.2 <= width v ∧
  ∀ i, k.2 <= i < width v → addr_bit k.1 i = false.

(** The shape of a tree at depth [lvl]: an entry is at least as long as its
    depth and not longer than the entries below it, and bit [lvl] of the
    entries below a node says on which side they are. *)
Fixpoint trie_shape (lvl : Z) t : Prop :=
  match t with
  | NULL => True
  | Node e l r =>
      lvl <= len e ∧
      Forall (λ e', len e <= len e' ∧ addr_bit (prefix e') lvl = false) (entries l) ∧
      Forall (λ e', len e <= len e' ∧ addr_bit (prefix e') lvl = true) (entries r) ∧
      trie_shape (lvl + 1) l ∧ trie_shape (lvl + 1) r
  end.

(** All prefixes of [ks] agree on their first [lvl] bits. *)
Definition agree (lvl : Z) (ks : list (rtr_ip_addr * Z)) : Prop :=
  ∀ k1 k2 i, k1 ∈ ks → k2 ∈ ks → 0 <= i < lvl → addr_bit k1.1 i = addr_bit k2.1 i.

(** The keys of a tree are admissible, different, and share [lvl] bits. *)
Definition keys_ok (v : rtr_ip_version) (lvl : Z) (ks : list (rtr_ip_addr * Z)) : Prop :=
  Forall (key_ok v) ks ∧ NoDup ks ∧ agree lvl ks.

(** The invariant of a tree of version [v] whose root is at depth [lvl]. *)
Definition trie_inv (v : rtr_ip_version) (lvl : Z) t : Prop :=
  keys_ok v lvl (key <$> entries t) ∧ trie_shape lvl t.

(** The number of levels of a tree. *)
Fixpoint height t : Z :=
  match t with NULL => 0 | Node _ l r => 1 + Z.max (height l) (height r) end.

(** The number of nodes of a tree. *)
Fixpoint size t : nat :=
  match t with NULL => 0 | Node _ l r => S (size l + size r) end.

(** The key [k] covers the prefix [pfx]/[mask_len]. *)
Definition covers (k : rtr_ip_addr * Z) (pfx : rtr_ip_addr) (mask_len : Z) : Prop :=
  k.2 <= mask_len ∧ same_prefix k.1 pfx k.2.

#[global] Instance covers_dec k pfx mask_len : Decision (covers k pfx mask_len).
Proof. apply _. Defined.

(** ** Decidability *)

#[global] Instance key_ok_dec v k : Decision (key_ok v k).
Proof.
  destruct (decide (ver k.1 = v ∧ valid_addr k.1 ∧ len_ok k.2 ∧ k.2 <= width v ∧
    Forall (λ i, addr_bit k.1 i = false) (seqZ k.2 (width v - k.2)))) as [Hd|Hd]; [left|right].
  - abstract (destruct Hd as (? & ? & ? & ? & Hf); split_and!; [done..|]; intros i Hi;
      rewrite Forall_forall in Hf; apply Hf, elem_of_seqZ; lia).
  - abstract (intros (? & ? & ? & ? & Hb); apply Hd; split_and!; [done..|];
      apply Forall_forall; intros i [? ?]%elem_of_seqZ; apply Hb; lia).
Defined.

#[global] Instance trie_shape_dec lvl t : Decision (trie_shape lvl t).
Proof.
  revert lvl. induction t as [|e l IHl r IHr]; intros lvl; simpl; [apply _|].
  pose proof (IHl (lvl + 1)). pose proof (IHr (lvl + 1)). apply _.
Defined.

#[global] Instance agree_dec lvl ks : Decision (agree lvl ks).
Proof.
  destruct (decide (Forall (λ k1 : rtr_ip_addr * Z, Forall (λ k2 : rtr_ip_addr * Z,
    Forall (λ i, addr_bit k1.1 i = addr_bit k2.1 i) (seqZ 0 lvl)) ks) ks)) as [Hd|Hd]; [left|right].
  - abstract (intros k1 k2 i H1 H2 Hi; repeat setoid_rewrite Forall_forall in Hd;
      apply Hd; [done..|]; apply elem_of_seqZ; lia).
  - abstract (intros Ha; apply Hd; repeat setoid_rewrite Forall_forall;
      intros k1 H1 k2 H2 i [? ?]%elem_of_seqZ; apply Ha; [done..|lia]).
Defined.

#[global] Instance trie_inv_dec v lvl t : Decision (trie_inv v lvl t).
Proof. apply _. Defined.

(** ** Keys *)

Lemma width_bound v : 32 <= width v <= 128.
Proof. destruct v; simpl; lia. Qed.

Lemma len_ok_nonneg n : len_ok n → 0 <= n.
Proof. unfold len_ok. lia. Qed.

(** Admissible prefixes of the same length that share that many bits are the
    same prefix. *)
Lemma key_ok_same v k1 k2 :
  key_ok v k1 → key_ok v k2 → k1.2 = k2.2 →
  (∀ i, 0 <= i < k1.2 → addr_bit k1.1 i = addr_bit k2.1 i) → k1 = k2.
Proof.
  destruct k1 as [a n], k2 as [b m]. intros (<- & Ha & _ & _ & Ca) (Hv & Hb & _ & _ & Cb) Hn Heq.
  simpl in *. subst m. f_equal. apply addr_ext; [done..|]. intros i Hi.
  destruct (decide (i < n)); [apply Heq; lia|]. rewrite Ca, Cb by lia. done.
Qed.

(** Two different admissible prefixes that share [lvl] bits cannot both be of
    length [lvl], so the longer one goes beyond the depth [lvl]. *)
Lemma key_ok_deeper v lvl k1 k2 :
  key_ok v k1 → key_ok v k2 → k1 ≠ k2 → lvl <= k1.2 <= k2.2 →
  (∀ i, 0 <= i < lvl → addr_bit k1.1 i = addr_bit k2.1 i) → lvl + 1 <= k2.2.
Proof.
  intros H1 H2 Hne Hl Heq. destruct (decide (lvl = k2.2)) as [->|]; [|lia].
  exfalso. apply Hne, (key_ok_same v); [done..|lia|]. intros. apply Heq. lia.
Qed.

Lemma is_left_child_spec a lvl :
  valid_addr a → 0 <= lvl < width (ver a) → is_left_child a lvl = Some (negb (addr_bit a lvl)).
Proof.
  intros Ha Hl. unfold is_left_child. pose proof (width_bound (ver a)).
  rewrite u8_small by lia.
  destruct (get_bits_single_zero a lvl) as (x & -> & ?); [done..|]. simpl. by f_equal.
Qed.

Lemma agree_weaken lvl ks ks' : (∀ k, k ∈ ks' → k ∈ ks) → agree lvl ks → agree lvl ks'.
Proof. unfold agree. eauto. Qed.

Lemma keys_ok_perm v lvl ks ks' : ks ≡ₚ ks' → keys_ok v lvl ks → keys_ok v lvl ks'.
Proof.
  intros Hp (Hk & Hn & Ha). split_and!.
  - by rewrite <- Hp.
  - by rewrite <- Hp.
  - eapply agree_weaken, Ha. intros k. by rewrite Hp.
Qed.

#[global] Instance keys_ok_proper v lvl : Proper ((≡ₚ) ==> iff) (keys_ok v lvl).
Proof. intros ks ks' Hp. split; by apply keys_ok_perm. Qed.

(** The entries on one side of a node share one more bit. *)
Lemma keys_ok_side v lvl ks ks' rest b :
  ks ≡ₚ ks' ++ rest → Forall (λ k, addr_bit k.1 lvl = b) ks' →
  keys_ok v lvl ks → keys_ok v (lvl + 1) ks'.
Proof.
  intros Hs Hb Hok. apply (keys_ok_perm _ _ _ _ Hs) in Hok as (Hk & Hn & Ha).
  rewrite Forall_forall in Hb. apply Forall_app in Hk as [Hk _].
  apply NoDup_app in Hn as (Hn & _ & _). split_and!; [done..|].
  intros k1 k2 i H1 H2 Hi. destruct (decide (i = lvl)) as [->|].
  - by rewrite (Hb k1), (Hb k2).
  - apply Ha; [apply elem_of_app; auto..|lia].
Qed.

(** Entries below [e] on the side of bit [b], for a node at depth [lvl]. *)
Definition side_ok (lvl : Z) (e : trie_entry D) (b : bool) (es : list (trie_entry D)) : Prop :=
  Forall (λ e', len e <= len e' ∧ addr_bit (prefix e') lvl = b) es.

Lemma trie_shape_node lvl e l r :
  trie_shape lvl (Node e l r) ↔
    lvl <= len e ∧ side_ok lvl e false (entries l) ∧ side_ok lvl e true (entries r) ∧
    trie_shape (lvl + 1) l ∧ trie_shape (lvl + 1) r.
Proof. done. Qed.

Lemma side_ok_perm lvl e b es es' : es ≡ₚ es' → side_ok lvl e b es → side_ok lvl e b es'.
Proof. unfold side_ok. by intros ->. Qed.

Lemma side_ok_cons lvl e b e' es :
  len e <= len e' → addr_bit (prefix e') lvl = b → side_ok lvl e b es →
  side_ok lvl e b (e' :: es).
Proof. by constructor. Qed.

Lemma side_ok_shorter lvl e e' b es :
  len e' <= len e → side_ok lvl e b es → side_ok lvl e' b es.
Proof. intros ? Hs. eapply Forall_impl; [exact Hs|]. simpl. intros ? [? ?]. split; [lia|done]. Qed.

Lemma side_ok_bits lvl e b es :
  side_ok lvl e b es → Forall (λ k, addr_bit k.1 lvl = b) (key <$> es).
Proof. intros Hs. apply Forall_fmap. eapply Forall_impl; [exact Hs|]. simpl. tauto. Qed.

(** The subtree on either side of a node is a tree one level deeper. *)
Lemma trie_inv_children v lvl e l r :
  trie_inv v lvl (Node e l r) → trie_inv v (lvl + 1) l ∧ trie_inv v (lvl + 1) r.
Proof.
  intros [Hk (? & Hl & Hr & ? & ?)%trie_shape_node]. simpl in Hk.
  rewrite fmap_app, fmap_cons in Hk. split; split; try done.
  - eapply keys_ok_side; [|by eapply side_ok_bits|done]. done.
  - eapply (keys_ok_side _ _ _ _ (key e :: (key <$> entries l))); [|by eapply side_ok_bits|done].
    solve_Permutation.
Qed.

(** ** Insertion *)

Definition not_null t : Prop := t ≠ NULL.

(** [trie_insert] once the longer entry is the one to push down. *)
Definition trie_push (e : trie_entry D) (l r : trie_node D) (new : trie_entry D) (lvl : Z)
  : option (trie_node D) :=
  left ← is_left_child (prefix new) lvl;
  if left : bool then
    l' ← match l with
         | NULL => Some (Node new NULL NULL)
         | Node _ _ _ => trie_insert l new (lvl + 1)
         end; Some (Node e l' r)
  else
    r' ← match r with
         | NULL => Some (Node new NULL NULL)
         | Node _ _ _ => trie_insert r new (lvl + 1)
         end; Some (Node e l r').

Lemma trie_insert_push e l r new lvl :
  trie_insert (Node e l r) new lvl =
    if len new <? len e then trie_push new l r e lvl else trie_push e l r new lvl.
Proof.
  unfold trie_push. simpl.
  destruct (_ <? _); simpl; destruct (is_left_child _ _) as [[]|]; by destruct l, r.
Qed.

Definition insert_ok (v : rtr_ip_version) t : Prop :=
  ∀ new lvl,
    not_null t → 0 <= lvl → lvl <= len new →
    keys_ok v lvl (key new :: (key <$> entries t)) → trie_shape lvl t →
    ∃ t', trie_insert t new lvl = Some t' ∧ entries t' ≡ₚ new :: entries t ∧ trie_shape lvl t'.

(** Inserting into the child of a node, which may be missing. *)
Lemma insert_child v t new lvl :
  insert_ok v t → 0 <= lvl → lvl <= len new →
  keys_ok v lvl (key new :: (key <$> entries t)) → trie_shape lvl t →
  ∃ t', match t with
        | NULL => Some (Node new NULL NULL)
        | Node _ _ _ => trie_insert t new lvl
        end = Some t' ∧ entries t' ≡ₚ new :: entries t ∧ trie_shape lvl t'.
Proof.
  intros IH ? ? ? ?. destruct t as [|e l r].
  - eexists. split_and!; [done..|]. repeat constructor. lia.
  - by apply IH.
Qed.

Lemma trie_push_spec v e l r new lvl :
  insert_ok v l → insert_ok v r → 0 <= lvl → lvl <= len e <= len new →
  keys_ok v lvl (key new :: key e :: (key <$> entries l ++ entries r)) →
  trie_shape lvl (Node e l r) →
  ∃ t', trie_push e l r new lvl = Some t' ∧
    entries t' ≡ₚ new :: e :: entries l ++ entries r ∧ trie_shape lvl t'.
Proof.
  intros IHl IHr Hlvl Hlen Hk (_ & Hl & Hr & Hsl & Hsr)%trie_shape_node.
  assert (key_ok v (key new) ∧ lvl + 1 <= len new) as [Hnew Hdeep].
  { destruct Hk as (Hk & Hn & Ha). inversion Hk as [|?? Hkn Hk']; subst.
    inversion Hk'; subst. split; [done|].
    apply (key_ok_deeper v lvl (key e) (key new)); try done.
    - apply NoDup_cons in Hn as [Hn _]. intros Heq. apply Hn. rewrite Heq. left.
    - intros i ?. apply Ha; [right; left|left|done]. }
  unfold trie_push. destruct Hnew as (Hv & Hvalid & Hlok & Hw & _). simpl in Hv, Hvalid, Hw.
  rewrite is_left_child_spec by (done || rewrite Hv; lia). simpl.
  destruct (addr_bit (prefix new) lvl) eqn:Hbit; simpl.
  - destruct (insert_child v r new (lvl + 1) IHr) as (r' & -> & Hp & Hs); [lia..| |done|].
    { eapply keys_ok_side; [|constructor; [exact Hbit|by eapply side_ok_bits]|exact Hk].
      rewrite fmap_app. instantiate (1 := key e :: (key <$> entries l)). solve_Permutation. }
    eexists. split; [done|]. split; [simpl; rewrite Hp; solve_Permutation|].
    apply trie_shape_node. split_and!; try done; [lia|].
    eapply side_ok_perm; [symmetry; exact Hp|]. apply side_ok_cons; [lia|done..].
  - destruct (insert_child v l new (lvl + 1) IHl) as (l' & -> & Hp & Hs); [lia..| |done|].
    { eapply keys_ok_side; [|constructor; [exact Hbit|by eapply side_ok_bits]|exact Hk].
      rewrite fmap_app. instantiate (1 := key e :: (key <$> entries r)). solve_Permutation. }
    eexists. split; [done|]. split; [simpl; rewrite Hp; solve_Permutation|].
    apply trie_shape_node. split_and!; try done; [lia|].
    eapply side_ok_perm; [symmetry; exact Hp|]. apply side_ok_cons; [lia|done..].
Qed.

(** [trie_insert] adds exactly the new entry and keeps the shape. *)
Lemma trie_insert_spec v t : insert_ok v t.
Proof.
  induction t as [|e l IHl r IHr]; intros new lvl Hnn Hlvl Hnew Hk Hs; [done|].
  pose proof Hs as (He & Hl & Hr & Hsl & Hsr)%trie_shape_node.
  assert (key <$> entries (Node e l r) ≡ₚ key e :: (key <$> entries l ++ entries r)) as Hkp.
  { simpl. rewrite !fmap_app, fmap_cons. solve_Permutation. }
  rewrite trie_insert_push. destruct (Z.ltb_spec (len new) (len e)).
  - destruct (trie_push_spec v new l r e lvl) as (t' & -> & Hp & Hs'); try done; [lia| | |].
    + eapply keys_ok_perm, Hk. rewrite Hkp. constructor.
    + apply trie_shape_node. split_and!; try done; apply (side_ok_shorter _ e); done || lia.
    + exists t'. split_and!; [done| |done]. rewrite Hp. simpl. solve_Permutation.
  - destruct (trie_push_spec v e l r new lvl) as (t' & -> & Hp & Hs'); try done.
    + eapply keys_ok_perm, Hk. by rewrite Hkp.
    + exists t'. split_and!; [done| |done]. rewrite Hp. simpl. solve_Permutation.
Qed.

(** ** Pointers *)

Definition dir_bit (d : child_node_rel) : bool :=
  match d with LEFT => false | RIGHT => true end.

(** The path [p] from a root at depth [lvl] is the one the code follows for the
    key [k], through entries that are not longer than [k]. *)
Fixpoint fits (k : rtr_ip_addr * Z) (lvl : Z) p t : Prop :=
  match t, p with
  | NULL, _ => False
  | Node _ _ _, [] => True
  | Node e _ _, d :: p =>
      len e <= k.2 ∧ addr_bit k.1 lvl = dir_bit d ∧ fits k (lvl + 1) p (child t d)
  end.

Lemma subtree_app t p q : subtree t (p ++ q) = subtree (subtree t p) q.
Proof. revert t. induction p; intros t; simpl; auto. Qed.

Lemma fits_not_null k lvl p t : fits k lvl p t → not_null (subtree t p).
Proof.
  revert lvl t. induction p as [|d p IH]; intros lvl [|e l r]; simpl; try done.
  intros (_ & _ & Hf). by eapply IH.
Qed.

Lemma fits_snoc k lvl p d t e l r :
  fits k lvl p t → subtree t p = Node e l r → len e <= k.2 →
  addr_bit k.1 (lvl + Z.of_nat (length p)) = dir_bit d → not_null (child (Node e l r) d) →
  fits k lvl (p ++ [d]) t.
Proof.
  revert lvl t. induction p as [|d' p IH]; intros lvl [|e' l' r']; try done; simpl.
  - intros _ [= -> -> ->]. rewrite Z.add_0_r. intros ? ? Hn. split_and!; [done..|].
    by destruct d; simpl in *; case_match.
  - intros (? & ? & Hf) Hs ? Hb ?. split_and!; [done..|]. apply IH; auto.
    rewrite <- Hb. f_equal. lia.
Qed.

Lemma fits_init k lvl p d t : fits k lvl (p ++ [d]) t → fits k lvl p t.
Proof.
  revert lvl t. induction p as [|d' p IH]; intros lvl [|e l r]; simpl; try done.
  intros (? & ? & ?). split_and!; auto.
Qed.

Lemma parent_snoc p d : parent (p ++ [d]) = Some p.
Proof.
  unfold parent. rewrite removelast_last. by destruct p.
Qed.

(** ** Exact lookup *)

Section LookupExact.
Context (v : rtr_ip_version) (t0 : trie_node D) (pfx : rtr_ip_addr) (mask_len : Z).
Hypothesis Hkey : key_ok v (pfx, mask_len).

(** What holds of the node the search has reached: it is on the path of the
    key, and nothing outside of it has the key. *)
Definition searching (s : trie_node D) here (lvl : Z) : Prop :=
  subtree t0 here = s ∧ not_null s ∧ lvl = Z.of_nat (length here) ∧
  fits (pfx, mask_len) 0 here t0 ∧ trie_inv v lvl s ∧
  (∀ e i, e ∈ entries s → 0 <= i < lvl → addr_bit (prefix e) i = addr_bit pfx i) ∧
  (∀ e, e ∈ entries t0 → key e = (pfx, mask_len) → e ∈ entries s).

(** What the search returns. *)
Definition lookup_result (res : option (option path * Z * bool)) : Prop :=
  ∃ p found, res = Some (Some p, Z.of_nat (length p), found) ∧
    fits (pfx, mask_len) 0 p t0 ∧
    if found : bool then ∃ e l r, subtree t0 p = Node e l r ∧ key e = (pfx, mask_len)
    else (pfx, mask_len) ∉ (key <$> entries t0).

Lemma prefix_is_same_spec e a n :
  (len e =? n) && rtr_ip_addr_equal (prefix e) a = bool_decide (key e = (a, n)).
Proof.
  rewrite rtr_ip_addr_equal_spec. destruct (Z.eqb_spec (len e) n) as [<-|?]; simpl.
  - apply bool_decide_ext. unfold key. split; congruence.
  - symmetry. apply bool_decide_eq_false. unfold key. congruence.
Qed.

(** All entries of a tree are at least as long as its root. *)
Lemma shape_root_shortest lvl e l r e' :
  trie_shape lvl (Node e l r) → e' ∈ entries (Node e l r) → len e <= len e'.
Proof.
  intros (_ & Hl & Hr & _)%trie_shape_node He. simpl in He.
  unfold side_ok in *. rewrite Forall_forall in Hl, Hr.
  apply elem_of_app in He as [He|He]; [by apply Hl|].
  apply elem_of_cons in He as [->|He]; [lia|by apply Hr].
Qed.

(** One step down keeps [searching]. *)
Lemma searching_down e l r here lvl d :
  searching (Node e l r) here lvl → len e <= mask_len →
  key e ≠ (pfx, mask_len) → addr_bit pfx lvl = dir_bit d → not_null (child (Node e l r) d) →
  searching (child (Node e l r) d) (here ++ [d]) (lvl + 1).
Proof.
  intros (Hs & _ & -> & Hf & Hinv & Hbits & Hin) He Hne Hb Hn.
  pose proof (trie_inv_children _ _ _ _ _ Hinv) as [Hinvl Hinvr].
  destruct Hinv as [_ (_ & Hl & Hr & _)%trie_shape_node].
  unfold side_ok in Hl, Hr. rewrite Forall_forall in Hl, Hr.
  assert (∀ e', e' ∈ entries (child (Node e l r) d) → e' ∈ entries (Node e l r)) as Hsub.
  { intros e'. destruct d; simpl; rewrite elem_of_app, elem_of_cons; auto. }
  split_and!.
  - by rewrite subtree_app, Hs.
  - done.
  - rewrite length_app. simpl. lia.
  - eapply fits_snoc; eauto.
  - by destruct d.
  - intros e' i He' Hi. destruct (decide (i = Z.of_nat (length here))) as [->|].
    + rewrite Hb. destruct d; simpl in *; [by apply Hl|by apply Hr].
    + apply Hbits; [by apply Hsub|lia].
  - intros e' He' Hk. specialize (Hin e' He' Hk). simpl in Hin.
    assert (addr_bit (prefix e') (Z.of_nat (length here)) = dir_bit d) as Hb'.
    { rewrite <- Hb. by injection Hk as -> _. }
    apply elem_of_app in Hin as [Hin|Hin]; [|apply elem_of_cons in Hin as [->|Hin]; [done|]].
    + destruct d; [done|]. apply Hl in Hin as [_ Hin]. by rewrite Hin in Hb'.
    + destruct d; [|done]. apply Hr in Hin as [_ Hin]. by rewrite Hin in Hb'.
Qed.

(** The search ends below a node that has no child where the key belongs. *)
Lemma searching_missing e l r here lvl d :
  searching (Node e l r) here lvl → key e ≠ (pfx, mask_len) →
  addr_bit pfx lvl = dir_bit d → child (Node e l r) d = NULL →
  (pfx, mask_len) ∉ (key <$> entries t0).
Proof.
  intros (_ & _ & -> & _ & [_ (_ & Hl & Hr & _)%trie_shape_node] & _ & Hin) Hne Hb Hn.
  intros (e' & Hk & He')%list_elem_of_fmap. symmetry in Hk. specialize (Hin e' He' Hk).
  unfold side_ok in Hl, Hr. rewrite Forall_forall in Hl, Hr.
  assert (addr_bit (prefix e') (Z.of_nat (length here)) = dir_bit d) as Hb'.
  { rewrite <- Hb. by injection Hk as -> _. }
  simpl in Hin. apply elem_of_app in Hin as [Hin|Hin];
    [|apply elem_of_cons in Hin as [->|Hin]; [done|]].
  - destruct d; simpl in Hn; [subst; inversion Hin|].
    apply Hl in Hin as [_ Hin]. by rewrite Hin in Hb'.
  - destruct d; simpl in Hn; [|subst; inversion Hin].
    apply Hr in Hin as [_ Hin]. by rewrite Hin in Hb'.
Qed.

(** Nothing below an entry longer than the key has the key. *)
Lemma searching_longer e l r here lvl :
  searching (Node e l r) here lvl → mask_len < len e →
  (pfx, mask_len) ∉ (key <$> entries t0).
Proof.
  intros (_ & _ & _ & _ & [_ Hs] & _ & Hin) Hlt (e' & Hk & He')%list_elem_of_fmap.
  specialize (Hin e' He' (eq_sym Hk)). injection Hk as _ Hlen.
  pose proof (shape_root_shortest _ _ _ _ _ Hs Hin). lia.
Qed.

(** At a node with another key, the search looks at a bit of the address. *)
Lemma searching_deeper e l r here lvl :
  searching (Node e l r) here lvl → key e ≠ (pfx, mask_len) → len e <= mask_len →
  0 <= lvl < width (ver pfx).
Proof.
  intros (_ & _ & -> & _ & [(Hk & _ & _) (Hle & _)%trie_shape_node] & Hbits & _) Hne Hlen.
  rewrite Forall_forall in Hk. assert (key e ∈ (key <$> entries (Node e l r))) as He.
  { simpl. rewrite fmap_app, fmap_cons. apply elem_of_app. right. left. }
  apply Hk in He. pose proof Hkey as (Hv & _ & _ & Hw & _). simpl in Hv, Hw.
  rewrite Hv. enough (Z.of_nat (length here) + 1 <= mask_len) by lia.
  apply (key_ok_deeper v _ (key e) (pfx, mask_len)); [done..|simpl; lia|].
  intros i Hi. apply Hbits; [|done]. simpl. apply elem_of_app. right. left.
Qed.

Lemma searching_root_child e l r d :
  searching (Node e l r) [] 0 → mask_len < len e →
  lookup_result (match child (Node e l r) d with
                 | NULL => Some (Some [], 0, false)
                 | Node _ _ _ =>
                     trie_lookup_exact (child (Node e l r) d) [d] pfx mask_len (0 + 1)
                 end).
Proof.
  intros Hs Hlt. pose proof (searching_longer _ _ _ _ _ Hs Hlt) as Habs.
  destruct Hs as (_ & _ & _ & Hf & [_ (_ & Hl & Hr & _)%trie_shape_node] & _).
  exists [], false. split; [|done].
  destruct (child _ d) as [|e' l' r'] eqn:Hc; [done|].
  unfold side_ok in Hl, Hr. rewrite Forall_forall in Hl, Hr.
  assert (len e <= len e') as Hle.
  { destruct d; simpl in Hc; subst; [apply Hl|apply Hr]; simpl; apply elem_of_app; right; left. }
  simpl. replace (mask_len <? len e') with true by (symmetry; apply Z.ltb_lt; lia). done.
Qed.

Lemma trie_lookup_exact_search s here lvl :
  searching s here lvl → lookup_result (trie_lookup_exact s here pfx mask_len lvl).
Proof.
  revert here lvl. induction s as [|e l IHl r IHr]; intros here lvl Hs; [by destruct Hs as (_ & ? & _)|].
  pose proof Hs as (Hsub & _ & Hlvl & Hf & _). cbn [trie_lookup_exact].
  destruct (Z.ltb_spec mask_len (len e)) as [Hlt|Hge].
  { destruct (Z.ltb_spec 0 lvl); simpl.
    - destruct here as [|d here _] using rev_ind; [simpl in Hlvl; lia|].
      rewrite parent_snoc. exists here, false. rewrite length_app in Hlvl. simpl in Hlvl.
      split_and!; [do 3 f_equal; lia|by eapply fits_init|by eapply searching_longer].
    - rewrite prefix_is_same_spec, bool_decide_eq_false_2 by (unfold key; intros [=]; lia).
      destruct here; simpl in Hlvl; [|lia]. change (Z.of_nat 0) with 0 in Hlvl. subst lvl. pose proof Hkey as (Hv & Hval & _).
      simpl in Hv, Hval. pose proof (width_bound (ver pfx)).
      rewrite is_left_child_spec by (done || lia). simpl.
      destruct (addr_bit pfx 0); [exact (searching_root_child e l r RIGHT Hs Hlt)|].
      exact (searching_root_child e l r LEFT Hs Hlt). }
  rewrite andb_false_r, prefix_is_same_spec. case_bool_decide as Hk.
  { exists here, true. subst lvl. split_and!; eauto. }
  pose proof (searching_deeper _ _ _ _ _ Hs Hk Hge). pose proof Hkey as (Hv & Hval & _).
  rewrite is_left_child_spec by done. simpl.
  assert (∀ d, addr_bit pfx lvl = dir_bit d → child (Node e l r) d = NULL →
    lookup_result (Some (Some here, lvl, false))) as Hmiss.
  { intros d Hb Hc. exists here, false. subst lvl. split_and!; [done..|].
    by eapply searching_missing. }
  destruct (addr_bit pfx lvl) eqn:Hb; simpl.
  - destruct r; [by apply (Hmiss RIGHT)|]. apply IHr.
    by apply (searching_down _ _ _ _ _ RIGHT Hs).
  - destruct l; [by apply (Hmiss LEFT)|]. apply IHl.
    by apply (searching_down _ _ _ _ _ LEFT Hs).
Qed.

End LookupExact.

(** [trie_lookup_exact] from the root finds the node with the key, or the node
    below which the key is to be inserted. *)
Lemma trie_lookup_exact_spec v t pfx mask_len :
  key_ok v (pfx, mask_len) → not_null t → trie_inv v 0 t →
  lookup_result t pfx mask_len (trie_lookup_exact t [] pfx mask_len 0).
Proof.
  intros Hk Hn Hi. apply (trie_lookup_exact_search v); [done|].
  split_and!; try done; [by destruct t|lia].
Qed.

(** ** Changes below a pointer *)

(** Changing the tree below a pointer to one with some of the same keys keeps
    the shape, and leaves the other entries alone. *)
Lemma update_at_spec p lvl t f s' :
  not_null (subtree t p) → f (subtree t p) = Some s' → trie_shape lvl t →
  trie_shape (lvl + Z.of_nat (length p)) s' →
  (∀ e', e' ∈ entries s' → ∃ e, e ∈ entries (subtree t p) ∧ key e = key e') →
  ∃ t' pre post, update_at t p f = Some t' ∧ trie_shape lvl t' ∧
    entries t = pre ++ entries (subtree t p) ++ post ∧ entries t' = pre ++ entries s' ++ post ∧
    (not_null s' → not_null t').
Proof.
  revert lvl t. induction p as [|d p IH]; intros lvl t Hn Hf Hs Hs' Hk; simpl.
  { simpl in *. rewrite Z.add_0_r in Hs'. exists s', [], []. split_and!; rewrite ?app_nil_r; auto. }
  destruct t as [|e l r]; [by destruct Hn; clear; induction p; simpl|].
  pose proof Hs as (He & Hl & Hr & Hsl & Hsr)%trie_shape_node. simpl in Hn, Hf, Hk.
  replace (lvl + Z.of_nat (length (d :: p))) with (lvl + 1 + Z.of_nat (length p)) in Hs'
    by (simpl; lia).
  destruct (IH (lvl + 1) (child (Node e l r) d)) as (t' & pre & post & Hu & Hs1 & He1 & He2 & _);
    [done..|by destruct d|done|done|].
  assert (∀ b, side_ok lvl e b (entries (child (Node e l r) d)) → side_ok lvl e b (entries t')) as Hside.
  { unfold side_ok. intros b. rewrite He1, He2, !Forall_app, !Forall_forall.
    intros (? & Hm & ?). split_and!; [done| |done]. intros e' (e0 & Hin & Hke)%Hk.
    injection Hke as <- <-. by apply Hm. }
  destruct d; simpl in *; rewrite Hu; cbn [mbind option_bind].
  - exists (Node e t' r), pre, (post ++ e :: entries r). split_and!; [done| |..|done].
    + apply trie_shape_node. auto.
    + simpl. by rewrite He1, <- !app_assoc.
    + simpl. by rewrite He2, <- !app_assoc.
  - exists (Node e l t'), (entries l ++ e :: pre), post. split_and!; [done| |..|done].
    + apply trie_shape_node. auto.
    + simpl. by rewrite He1, <- !app_assoc.
    + simpl. by rewrite He2, <- !app_assoc.
Qed.

(** Inserting below the pointer found for the new key is inserting into the tree. *)
Lemma update_at_insert v p lvl t new :
  fits (key new) lvl p t → 0 <= lvl → lvl <= len new →
  keys_ok v lvl (key new :: (key <$> entries t)) → trie_shape lvl t →
  ∃ t', update_at t p (λ s, trie_insert s new (lvl + Z.of_nat (length p))) = Some t' ∧
    entries t' ≡ₚ new :: entries t ∧ trie_shape lvl t'.
Proof.
  revert lvl t. induction p as [|d p IH]; intros lvl t Hf Hlvl Hnew Hk Hs.
  { simpl. rewrite Z.add_0_r. apply (trie_insert_spec v); try done. by destruct t. }
  destruct t as [|e l r]; [done|]. destruct Hf as (Hlen & Hb & Hf). simpl in Hlen, Hb.
  pose proof Hs as (He & Hl & Hr & Hsl & Hsr)%trie_shape_node.
  assert (lvl + 1 <= len new) as Hdeep.
  { simpl in Hk. rewrite fmap_app, fmap_cons in Hk. destruct Hk as (Hk & Hn & Ha).
    apply Forall_cons in Hk as [Hk1 Hk2]. apply Forall_app in Hk2 as [_ [Hk2 _]%Forall_cons].
    apply (key_ok_deeper v lvl (key e) (key new)); try done.
    - intros Heq. apply NoDup_cons in Hn as [[] _]. rewrite <- Heq. apply elem_of_app. right. left.
    - intros i ?. apply Ha; [right; apply elem_of_app; right; left|left|done]. }
  replace (lvl + Z.of_nat (length (d :: p))) with (lvl + 1 + Z.of_nat (length p)) by (simpl; lia).
  destruct (IH (lvl + 1) (child (Node e l r) d) Hf) as (t' & Hu & Hp & Hs'); [lia..| |by destruct d|].
  - eapply (keys_ok_side _ _ _ _ (key e :: (key <$> entries (child (Node e l r)
      match d with LEFT => RIGHT | RIGHT => LEFT end)))); [| |exact Hk].
    + destruct d; simpl; rewrite fmap_app, fmap_cons; solve_Permutation.
    + constructor; [exact Hb|]. by destruct d; eapply side_ok_bits.
  - destruct d; simpl in *; rewrite Hu; cbn [mbind option_bind]; eexists; split_and!; try done;
      try (simpl; rewrite Hp; solve_Permutation); apply trie_shape_node; split_and!; try done;
      (eapply side_ok_perm; [symmetry; exact Hp|by apply side_ok_cons]).
Qed.

(** ** Removal *)

(** What [trie_remove] does to a tree when asked for the key of its root: the
    [data] pointer handed back is the one of the root.  A leaf without a parent
    stays where it is. *)
Definition removes_root t : Prop :=
  match t with
  | NULL => True
  | Node e l r =>
      ∀ lvl d has_parent, trie_shape lvl t →
      ∃ t' p, trie_remove_from t d has_parent (prefix e) (len e) lvl = Some (t', Some (p, d)) ∧
        if trie_is_leaf t then p = [] ∧ t' = deref_node has_parent (Node (set_data e d) l r)
        else p ≠ [] ∧ not_null t' ∧ entries t' ≡ₚ entries l ++ entries r ∧ trie_shape lvl t'
  end.

(** Removing the root of a child. *)
Lemma removes_root_child lvl e l r d :
  removes_root (Node e l r) → trie_shape lvl (Node e l r) →
  ∃ t' p, trie_remove_from (Node e l r) d true (prefix e) (len e) lvl = Some (t', Some (p, d)) ∧
    entries (Node e l r) ≡ₚ e :: entries t' ∧ trie_shape lvl t'.
Proof.
  intros IH Hs. destruct (IH lvl d true Hs) as (t' & p & Hr & Ht). exists t', p. split; [done|].
  destruct (trie_is_leaf _) eqn:Hleaf.
  - destruct Ht as [_ ->]. simpl in Hleaf. by destruct l, r.
  - destruct Ht as (_ & _ & -> & ?). split; [|done]. simpl. solve_Permutation.
Qed.

(** A child that is not longer than its sibling can take the place of its parent. *)
Lemma shape_pull_left lvl e le ll lr r l' :
  trie_shape lvl (Node e (Node le ll lr) r) →
  entries (Node le ll lr) ≡ₚ le :: entries l' → trie_shape (lvl + 1) l' →
  (∀ e', e' ∈ entries r → len le <= len e') → trie_shape lvl (Node le l' r).
Proof.
  intros (He & Hl & Hr & Hsl & Hsr)%trie_shape_node Hp Hs' Hmin. apply trie_shape_node.
  apply (side_ok_perm _ _ _ _ _ Hp) in Hl. apply Forall_cons in Hl as [[Hle _] Hl].
  split_and!; try done; [lia| |].
  - apply Forall_forall. intros e' He'. rewrite Forall_forall in Hl. split; [|by apply Hl].
    apply (shape_root_shortest (lvl + 1) le ll lr); [done|]. rewrite Hp. by right.
  - apply Forall_forall. intros e' He'. split; [by apply Hmin|].
    unfold side_ok in Hr. rewrite Forall_forall in Hr. by apply Hr.
Qed.

Lemma shape_pull_right lvl e re rl rr l r' :
  trie_shape lvl (Node e l (Node re rl rr)) →
  entries (Node re rl rr) ≡ₚ re :: entries r' → trie_shape (lvl + 1) r' →
  (∀ e', e' ∈ entries l → len re <= len e') → trie_shape lvl (Node re l r').
Proof.
  intros (He & Hl & Hr & Hsl & Hsr)%trie_shape_node Hp Hs' Hmin. apply trie_shape_node.
  apply (side_ok_perm _ _ _ _ _ Hp) in Hr. apply Forall_cons in Hr as [[Hle _] Hr].
  split_and!; try done; [lia| |].
  - apply Forall_forall. intros e' He'. split; [by apply Hmin|].
    unfold side_ok in Hl. rewrite Forall_forall in Hl. by apply Hl.
  - apply Forall_forall. intros e' He'. rewrite Forall_forall in Hr. split; [|by apply Hr].
    apply (shape_root_shortest (lvl + 1) re rl rr); [done|]. rewrite Hp. by right.
Qed.

Lemma trie_remove_from_root t : removes_root t.
Proof.
  induction t as [|e l IHl r IHr]; [done|]. intros lvl d hp Hs.
  pose proof Hs as (_ & _ & _ & Hsl & Hsr)%trie_shape_node.
  cbn [trie_remove_from]. unfold prefix_is_same. rewrite prefix_is_same_spec.
  rewrite bool_decide_eq_true_2 by done.
  replace (trie_is_leaf (Node (set_data e d) l r)) with (trie_is_leaf (Node e l r)) by done.
  destruct (trie_is_leaf (Node e l r)) eqn:Hleaf; [by exists (deref_node hp (Node (set_data e d) l r)), []|].
  destruct (left_is_next l r) eqn:Hnext.
  - destruct l as [|le ll lr]; [done|]. cbn [data set_data].
    destruct (removes_root_child (lvl + 1) le ll lr d) as (l' & p & -> & Hp & Hs'); [done..|].
    exists (Node le l' r), (LEFT :: p). split_and!; try done.
    + rewrite Hp. simpl. solve_Permutation.
    + eapply shape_pull_left; [done..|]. intros e' He'. destruct r as [|re rl rr]; [inversion He'|].
      simpl in Hnext. apply Z.ltb_lt in Hnext.
      pose proof (shape_root_shortest _ _ _ _ _ Hsr He'). lia.
  - destruct r as [|re rl rr]; [by destruct l|]. cbn [data set_data].
    destruct (removes_root_child (lvl + 1) re rl rr d) as (r' & p & -> & Hp & Hs'); [done..|].
    exists (Node re l r'), (RIGHT :: p). split_and!; try done.
    + rewrite Hp. simpl. solve_Permutation.
    + eapply shape_pull_right; [done..|]. intros e' He'. destruct l as [|le ll lr]; [inversion He'|].
      simpl in Hnext. apply Z.ltb_ge in Hnext.
      pose proof (shape_root_shortest _ _ _ _ _ Hsl He'). lia.
Qed.

(** ** Lookup of the shortest covering prefix *)

Lemma height_nonneg t : 0 <= height t.
Proof. induction t; simpl; lia. Qed.

Lemma shape_depth lvl t e : trie_shape lvl t → e ∈ entries t → lvl <= len e.
Proof.
  destruct t as [|e' l r]; [inversion 2|]. intros Hs He.
  pose proof (shape_root_shortest _ _ _ _ _ Hs He). destruct Hs. lia.
Qed.

(** An entry below a node that covers a prefix is on the side that the bit of
    the prefix selects. *)
Lemma covers_side lvl e l r e' pfx mask_len :
  0 <= lvl → trie_shape lvl (Node e l r) → e' ∈ entries l ++ entries r →
  covers (key e') pfx mask_len → e' ∈ entries (if addr_bit pfx lvl then r else l).
Proof.
  intros Hlvl (_ & Hl & Hr & Hsl & Hsr)%trie_shape_node Hin [_ [_ Hc]%same_prefix_spec].
  unfold side_ok in Hl, Hr. rewrite Forall_forall in Hl, Hr. simpl in Hc.
  apply elem_of_app in Hin as [Hin|Hin].
  - pose proof (shape_depth _ _ _ Hsl Hin). apply Hl in Hin as Hb. destruct Hb as [_ Hb].
    rewrite <- Hc, Hb by lia. done.
  - pose proof (shape_depth _ _ _ Hsr Hin). apply Hr in Hin as Hb. destruct Hb as [_ Hb].
    rewrite <- Hc, Hb by lia. done.
Qed.

(** What [trie_lookup] returns below the tree [t] at depth [lvl]: the null
    pointer if nothing in [t] covers the prefix, else a node that covers it
    with everything else that covers it below. *)
Definition looked_up (v : rtr_ip_version) t (pfx : rtr_ip_addr) (mask_len lvl : Z)
    (s : trie_node D) (lvl' : Z) : Prop :=
  (∀ e, e ∈ entries s → e ∈ entries t) ∧
  (∀ e, e ∈ entries t → covers (key e) pfx mask_len → e ∈ entries s) ∧
  match s with
  | NULL => True
  | Node e l r =>
      covers (key e) pfx mask_len ∧ lvl <= lvl' ∧ trie_inv v lvl' s ∧ lvl' + height s <= width v
  end.

Lemma trie_lookup_spec v t pfx mask_len lvl :
  ver pfx = v → valid_addr pfx → 0 <= lvl → trie_inv v lvl t → lvl + height t <= width v →
  ∃ s lvl', trie_lookup t pfx mask_len lvl = Some (s, lvl') ∧
    looked_up v t pfx mask_len lvl s lvl'.
Proof.
  intros Hv Hval. revert lvl. induction t as [|e l IHl r IHr]; intros lvl Hlvl Hinv Hh.
  { exists NULL, lvl. split; [done|]. by split_and!. }
  pose proof Hinv as [(Hk & _) Hs]. assert (key_ok v (key e)) as (Hve & Hvale & Hlen & Hw & _).
  { rewrite Forall_forall in Hk. apply Hk, list_elem_of_fmap_2. simpl.
    apply elem_of_app. right. left. }
  simpl in Hve, Hvale, Hlen, Hw.
  assert ((if len e <=? mask_len
           then x ← rtr_ip_addr_get_bits (prefix e) 0 (len e);
                y ← rtr_ip_addr_get_bits pfx 0 (len e); Some (rtr_ip_addr_equal x y)
           else Some false) = Some (bool_decide (covers (key e) pfx mask_len))) as Hm.
  { destruct (Z.leb_spec (len e) mask_len).
    - destruct (get_bits_first_equal (prefix e) pfx (len e)) as (x & y & -> & -> & Heq);
        [done|done|congruence|by rewrite Hve|done|].
      simpl. rewrite Heq. f_equal. apply bool_decide_ext. unfold covers. simpl. tauto.
    - f_equal. symmetry. apply bool_decide_eq_false. intros [? _]. simpl in *. lia. }
  cbn [trie_lookup]. rewrite Hm. cbn [mbind option_bind]. case_bool_decide as Hc.
  { exists (Node e l r), lvl. split; [done|]. split_and!; try done. }
  pose proof (height_nonneg l). pose proof (height_nonneg r). cbn [height] in Hh.
  rewrite is_left_child_spec by (try done; rewrite Hv; lia). cbn [mbind option_bind].
  apply trie_inv_children in Hinv as [Hil Hir].
  assert (∃ s lvl', trie_lookup (if negb (addr_bit pfx lvl) then l else r) pfx mask_len (lvl + 1) =
      Some (s, lvl') ∧ looked_up v (if addr_bit pfx lvl then r else l) pfx mask_len (lvl + 1) s lvl')
    as (s & lvl' & -> & Hsub & Hcov & Hnode).
  { destruct (addr_bit pfx lvl); simpl; [apply IHr|apply IHl]; done || lia. }
  exists s, lvl'. split; [done|]. split_and!.
  - intros e' He'%Hsub. simpl. rewrite elem_of_app, elem_of_cons. destruct (addr_bit pfx lvl); auto.
  - intros e' He' Hc'. apply Hcov; [|done]. apply (covers_side lvl e l r e' pfx mask_len); try done.
    simpl in He'. rewrite elem_of_app, elem_of_cons in He'. rewrite elem_of_app.
    destruct He' as [?|[->|?]]; auto. by destruct Hc.
  - destruct s; [done|]. destruct Hnode as (? & ? & ? & ?). split_and!; try done. lia.
Qed.

Lemma trie_lookup_size t pfx mask_len lvl s lvl' :
  trie_lookup t pfx mask_len lvl = Some (s, lvl') → (size s <= size t)%nat.
Proof.
  revert lvl. induction t as [|e l IHl r IHr]; intros lvl; cbn [trie_lookup].
  { intros [= <- <-]. done. }
  match goal with |- mbind _ ?m = _ → _ => destruct m as [[]|]; try done end.
  { intros [= <- <-]. done. }
  cbn [mbind option_bind]. destruct (is_left_child pfx lvl) as [[]|]; try done.
  - intros ?%IHl. simpl. lia.
  - intros ?%IHr. simpl. lia.
Qed.

(** The entries that cover a prefix. *)
Definition covering (pfx : rtr_ip_addr) (mask_len : Z) (es : list (trie_entry D)) :=
  filter (λ e, covers (key e) pfx mask_len) es.

Lemma trie_inv_nodup v lvl t : trie_inv v lvl t → NoDup (entries t).
Proof. intros [(_ & Hn & _) _]. by eapply NoDup_fmap_1. Qed.

Lemma covering_lookup v t pfx mask_len lvl s lvl' :
  trie_inv v lvl t → looked_up v t pfx mask_len lvl s lvl' →
  covering pfx mask_len (entries t) ≡ₚ covering pfx mask_len (entries s).
Proof.
  intros Hi (Hsub & Hcov & Hs). apply NoDup_Permutation.
  - by eapply NoDup_filter, trie_inv_nodup.
  - destruct s; [constructor|]. destruct Hs as (_ & _ & ? & _). by eapply NoDup_filter, trie_inv_nodup.
  - intros e. unfold covering. rewrite !list_elem_of_filter. split; intros [? ?]; auto.
Qed.

Lemma covering_children v lvl e l r pfx mask_len :
  0 <= lvl → trie_inv v lvl (Node e l r) → covers (key e) pfx mask_len →
  covering pfx mask_len (entries (Node e l r)) ≡ₚ
    e :: covering pfx mask_len (entries (if addr_bit pfx lvl then r else l)).
Proof.
  intros Hlvl Hi Hc. pose proof (trie_inv_nodup _ _ _ Hi) as Hnd. simpl in Hnd.
  assert (entries l ++ e :: entries r ≡ₚ e :: entries l ++ entries r) as Hp by solve_Permutation.
  rewrite Hp in Hnd. apply NoDup_cons in Hnd as [He Hnd]. apply NoDup_app in Hnd as (Hl & _ & Hr).
  apply NoDup_Permutation.
  - by eapply NoDup_filter, trie_inv_nodup.
  - apply NoDup_cons. unfold covering. rewrite list_elem_of_filter, elem_of_app in *.
    split; [intros [_ ?]; apply He; destruct (addr_bit pfx lvl); auto|].
    apply NoDup_filter. by destruct (addr_bit pfx lvl).
  - intros e'. unfold covering. rewrite elem_of_cons, !list_elem_of_filter. simpl.
    rewrite Hp, elem_of_cons. split.
    + intros [Hc' [->|Hin]]; [by left|right]. split; [done|]. destruct Hi as [_ Hs].
      by apply (covers_side lvl e l r e' pfx mask_len).
    + intros [->|[Hc' Hin]]; [auto|]. split; [done|]. right. apply elem_of_app.
      destruct (addr_bit pfx lvl); auto.
Qed.

End Trie.
