(* ===== verification/TrieChildren.v ===== *)
(** * Collecting the nodes of a tree: [trie_get_children] of [rtrlib/pfx/trie/trie.c]

    The array of pointers is a list of paths; [None] is an array that was freed. *)

From S2P Require Import Prelude Ip Trie.

Section Children.
Context {E D : Type}.
Implicit Types (t : trie_node D) (here : path) (array : list path) (w : world E).

Definition append_node_to_array array (n : path) : M E (Z * list path) :=
  ok ← alloc;
  if negb ok then mret (-1, array) else mret (0, array ++ [n]).

(** What follows the label [err]: to free the array a second time is undefined. *)
Definition children_err (array : option (list path)) : M E (Z * option (list path)) :=
  of_option array;;
  mret (-1, None).

Fixpoint trie_get_children (root_node : trie_node D) here array : M E (Z * option (list path)) :=
  match root_node with
  | NULL => of_option None
  | Node _ lchild rchild =>
      '(rv, array) ← match lchild with
        | NULL => mret (0, Some array)
        | Node _ _ _ =>
            '(rv, array) ← append_node_to_array array (here ++ [LEFT]);
            if negb (rv =? 0) then children_err (Some array)
            else
              '(rv, array) ← trie_get_children lchild (here ++ [LEFT]) array;
              if rv =? -1 then children_err array else mret (0, array)
        end;
      if rv =? -1 then mret (-1, array)
      else
        array ← of_option array;
        match rchild with
        | NULL => mret (0, Some array)
        | Node _ _ _ =>
            '(rv, array) ← append_node_to_array array (here ++ [RIGHT]);
            if negb (rv =? 0) then children_err (Some array)
            else
              '(rv, array) ← trie_get_children rchild (here ++ [RIGHT]) array;
              if rv =? -1 then children_err array else mret (0, array)
        end
  end.

(** ** Specification *)

(** The nodes below a node, each before the ones below it. *)
Fixpoint nodes_below t here : list path :=
  match t with
  | NULL => []
  | Node _ l r =>
      match l with NULL => [] | _ => (here ++ [LEFT]) :: nodes_below l (here ++ [LEFT]) end ++
      match r with NULL => [] | _ => (here ++ [RIGHT]) :: nodes_below r (here ++ [RIGHT]) end
  end.

Lemma trie_get_children_spec t here array w :
  t ≠ NULL → no_fail w →
  wp (trie_get_children t here array) (λ '(rv, res) w', rv = 0 ∧ res = Some (array ++ nodes_below t here) ∧ emits w [] w') w.
Proof.
  revert here array w. induction t as [|e l IHl r IHr]; intros here array w Hn Hnf; [done|]. cbn [trie_get_children nodes_below].
  assert (∀ (c : trie_node D) d (IH : ∀ here array w, c ≠ NULL → no_fail w → wp (trie_get_children c here array)
      (λ '(rv, res) w', rv = 0 ∧ res = Some (array ++ nodes_below c here) ∧ emits w [] w') w) arr w1, no_fail w1 →
    wp (match c with
        | NULL => mret (0, Some arr)
        | Node _ _ _ =>
            '(rv, array) ← append_node_to_array arr (here ++ [d]);
            if negb (rv =? 0) then children_err (Some array)
            else '(rv, array) ← trie_get_children c (here ++ [d]) array; if rv =? -1 then children_err array else mret (0, array)
        end) (λ '(rv, res) w', rv = 0 ∧
          res = Some (arr ++ match c with NULL => [] | _ => (here ++ [d]) :: nodes_below c (here ++ [d]) end) ∧ emits w1 [] w') w1) as Hside.
  { intros c d IH arr w1 Hw1. destruct c as [|ec lc rc]; [wp_step; by rewrite app_nil_r; split_and!; [..|apply emits_refl]|].
    unfold append_node_to_array. wp_step. wp_step. apply wp_alloc. intros ok w2 Hw2 Hal. destruct ok; [|by destruct (Hal eq_refl)].
    simpl negb. cbv iota. wp_step. cbv beta iota. change (negb (0 =? 0)) with false. cbv iota. wp_step.
    eapply wp_mono; [apply IH; [done|by eapply emits_no_fail]|]. intros [rv res] w3 (-> & -> & Hw3). change (0 =? -1) with false. cbv iota. wp_step.
    split; [done|]. split; [by rewrite <- (assoc_L (++))|by eapply emits_quiet]. }
  wp_step. eapply wp_mono; [by apply Hside|]. intros [rv res] w1 (-> & -> & Hw1). change (0 =? -1) with false. cbv iota. wp_step. wp_step.
  eapply wp_mono; [apply Hside; [done|by eapply emits_no_fail]|]. intros [rv res] w2 (-> & -> & Hw2). split; [done|].
  split; [by rewrite <- (assoc_L (++))|by eapply emits_quiet].
Qed.

Lemma nodes_below_elem t here p : p ∈ nodes_below t here ↔ ∃ q, p = here ++ q ∧ q ≠ [] ∧ subtree t q ≠ NULL.
Proof.
  assert (∀ q, subtree (@NULL D) q = NULL) as Hnull by (intros q; induction q; [done|by destruct a]).
  revert here p. induction t as [|e l IHl r IHr]; intros here p; cbn [nodes_below].
  { split; [by intros ?%elem_of_nil|]. intros (q & _ & _ & Hs). by rewrite Hnull in Hs. }
  assert (∀ (c : trie_node D) d, (∀ here p, p ∈ nodes_below c here ↔ ∃ q, p = here ++ q ∧ q ≠ [] ∧ subtree c q ≠ NULL) →
    p ∈ match c with NULL => [] | _ => (here ++ [d]) :: nodes_below c (here ++ [d]) end ↔ ∃ q, p = here ++ d :: q ∧ subtree c q ≠ NULL) as Hside.
  { intros c d IH. assert (c ≠ NULL → (p ∈ (here ++ [d]) :: nodes_below c (here ++ [d]) ↔ ∃ q, p = here ++ d :: q ∧ subtree c q ≠ NULL)) as Hc.
    - intros Hc. rewrite elem_of_cons, IH. split.
      + intros [->|(q & -> & _ & Hs)]; [by exists []|]. exists q. by rewrite <- (assoc_L (++)).
      + intros (q & -> & Hs). destruct q as [|d' q]; [by left|]. right. exists (d' :: q). by rewrite <- (assoc_L (++)).
    - destruct c; [|by apply Hc]. split; [by intros ?%elem_of_nil|]. intros (q & _ & Hs). by rewrite Hnull in Hs. }
  rewrite elem_of_app, (Hside l LEFT IHl), (Hside r RIGHT IHr). split.
  - intros [(q & -> & Hs)|(q & -> & Hs)]; [exists (LEFT :: q)|exists (RIGHT :: q)]; done.
  - intros (q & -> & Hq & Hs). destruct q as [|[] q]; [done|left|right]; by exists q.
Qed.

Lemma nodes_below_nodup t here : NoDup (nodes_below t here).
Proof.
  revert here. induction t as [|e l IHl r IHr]; intros here; cbn [nodes_below]; [constructor|].
  assert (∀ (c : trie_node D) d, (∀ here, NoDup (nodes_below c here)) →
    NoDup match c with NULL => [] | _ => (here ++ [d]) :: nodes_below c (here ++ [d]) end ∧
    ∀ p, p ∈ match c with NULL => [] | _ => (here ++ [d]) :: nodes_below c (here ++ [d]) end → ∃ q, p = here ++ d :: q) as Hside.
  { intros c d IH. destruct c as [|ec lc rc]; [split; [constructor|by intros p ?%elem_of_nil]|]. split.
    - constructor; [|apply IH]. rewrite nodes_below_elem. intros (q & Hq & Hne & _). rewrite <- (app_nil_r (here ++ [d])) in Hq at 1.
      by apply (inj (app _)) in Hq; subst.
    - intros p [->|Hp]%elem_of_cons; [by exists []|]. apply nodes_below_elem in Hp as (q & -> & _). exists q. by rewrite <- (assoc_L (++)). }
  destruct (Hside l LEFT IHl) as [Hl Hlp], (Hside r RIGHT IHr) as [Hr Hrp].
  apply NoDup_app. split_and!; [done| |done]. intros p [q ->]%Hlp [q' Hq]%Hrp. by apply (inj (app _)) in Hq.
Qed.

(** Collecting the nodes below the root gives each pointer to them once. *)
Theorem get_children_correct t w :
  t ≠ NULL → no_fail w →
  wp (trie_get_children t [] []) (λ '(rv, res) w', rv = 0 ∧ ∃ l, res = Some l ∧ NoDup l ∧ ∀ p, p ∈ l ↔ p ≠ [] ∧ subtree t p ≠ NULL) w.
Proof.
  intros Ht Hnf. eapply wp_mono; [by apply trie_get_children_spec|]. intros [rv res] w' (-> & -> & _). split; [done|]. eexists. split; [done|].
  split; [apply nodes_below_nodup|]. intros p. simpl. rewrite nodes_below_elem. split; [by intros (q & -> & ?)|intros; by exists p].
Qed.

End Children.

(** ** Limits *)

(** When memory runs out below the first level, each level frees the array. *)
Lemma children_freed_twice (e : trie_entry unit) :
  trie_get_children (E := unit) (Node e (Node e (Node e NULL NULL) NULL) NULL) [] [] (World [true; false] [] idle) = None.
Proof. reflexivity. Qed.
