(* ===== verification/PfxTable.v ===== *)
(** * The prefix table: [rtrlib/pfx/trie/trie-pfx.c], [rtrlib/pfx/pfx.h]

    The table of validated ROA payloads: two trees, one per address family, whose
    nodes carry the array of records with the prefix of the node.  Functions that
    take the table by pointer return it; a null pointer is [None].  The loops that
    do not recurse on the tree run on fuel, and the theorems show that the fuel
    the callers give is enough. *)

From S2P Require Import Prelude Ip Trie.

Inductive rtr_pfx_rtvals :=
| RTR_PFX_SUCCESS
| RTR_PFX_ERROR
| RTR_PFX_DUPLICATE_RECORD
| RTR_PFX_RECORD_NOT_FOUND
| RTR_PFX_NOT_INITIALIZED.

Inductive rtr_pfxv_state :=
| RTR_BGP_PFXV_STATE_VALID
| RTR_BGP_PFXV_STATE_NOT_FOUND
| RTR_BGP_PFXV_STATE_INVALID.

Inductive rtr_pfx_operation_type := RTR_PFX_REMOVE | RTR_PFX_ADD.

Record rtr_pfx_record := PfxRecord {
  asn : Z;
  rec_prefix : rtr_ip_addr;
  min_len : Z;
  max_len : Z;
  socket : socket_ptr }.

Record data_elem := Elem { e_asn : Z; e_max_len : Z; e_socket : socket_ptr }.

(** The array of a node, with its [len] elements. *)
Abbreviation node_data := (list data_elem).

Record rtr_pfx_table := PfxTable {
  ipv4 : trie_node node_data;
  ipv6 : trie_node node_data;
  update_fp : option fn_ptr;
  lock : rwlock }.

#[global] Instance rtr_pfx_rtvals_eq_dec : EqDecision rtr_pfx_rtvals.
Proof. solve_decision. Defined.
#[global] Instance rtr_pfxv_state_eq_dec : EqDecision rtr_pfxv_state.
Proof. solve_decision. Defined.
#[global] Instance rtr_pfx_operation_type_eq_dec : EqDecision rtr_pfx_operation_type.
Proof. solve_decision. Defined.
#[global] Instance rtr_pfx_record_eq_dec : EqDecision rtr_pfx_record.
Proof. solve_decision. Defined.
#[global] Instance data_elem_eq_dec : EqDecision data_elem.
Proof. solve_decision. Defined.

(** A call of an [rtr_pfx_update_fp]. *)
Inductive pfx_event :=
| PfxUpdate (fp : fn_ptr) (record : rtr_pfx_record) (op : rtr_pfx_operation_type).

Definition set_lock (t : rtr_pfx_table) (l : rwlock) : rtr_pfx_table :=
  PfxTable (ipv4 t) (ipv6 t) (update_fp t) l.

Definition set_update_fp (t : rtr_pfx_table) (fp : option fn_ptr) : rtr_pfx_table :=
  PfxTable (ipv4 t) (ipv6 t) fp (lock t).

Definition set_root (t : rtr_pfx_table) (v : rtr_ip_version) (root : trie_node node_data)
  : rtr_pfx_table :=
  match v with
  | RTR_IPV4 => PfxTable root (ipv6 t) (update_fp t) (lock t)
  | RTR_IPV6 => PfxTable (ipv4 t) root (update_fp t) (lock t)
  end.

Section PfxTable.
Context `{Build} {E : Type} `{!Event pfx_event E}.
Implicit Types (t : rtr_pfx_table) (r record : rtr_pfx_record) (nd : node_data).

(** ** Helpers *)

Definition pfx_table_notify_clients t record (op : rtr_pfx_operation_type) : M E unit :=
  match update_fp t with
  | Some fp => emit (event (PfxUpdate fp record op))
  | None => mret tt
  end.

Definition pthread_rwlock_wrlock t : M E rtr_pfx_table :=
  l ← of_option (wrlock (lock t)); mret (set_lock t l).
Definition pthread_rwlock_rdlock t : M E rtr_pfx_table :=
  l ← of_option (rdlock (lock t)); mret (set_lock t l).
Definition pthread_rwlock_unlock t : M E rtr_pfx_table :=
  l ← of_option (unlock (lock t)); mret (set_lock t l).

Definition rtr_pfx_table_init (update_fp : option fn_ptr) : rtr_pfx_table :=
  PfxTable NULL NULL update_fp Unlocked.

Definition elem_of_record record : data_elem :=
  Elem (asn record) (max_len record) (socket record).

Definition pfx_table_append_elem nd record : M E (rtr_pfx_rtvals * node_data) :=
  ok ← alloc;
  if ok : bool then mret (RTR_PFX_SUCCESS, nd ++ [elem_of_record record])
  else mret (RTR_PFX_ERROR, nd).

Definition pfx_table_create_node record : M E (rtr_pfx_rtvals * trie_entry node_data) :=
  let node := Entry (rec_prefix record) (min_len record) [] in
  ok ← alloc;
  if negb ok then mret (RTR_PFX_ERROR, node)
  else
    ok ← alloc;
    if negb ok then mret (RTR_PFX_ERROR, node)
    else
      '(err, nd) ← pfx_table_append_elem [] record;
      mret (err, set_data node nd).

Definition elem_is record (e : data_elem) : bool :=
  (e_asn e =? asn record) && (e_max_len e =? max_len record)
  && bool_decide (e_socket e = socket record).

(** The index of the element, [None] is the null pointer. *)
Fixpoint pfx_table_find_elem nd record : option nat :=
  match nd with
  | [] => None
  | e :: nd =>
      if elem_is record e then Some 0%nat
      else i ← pfx_table_find_elem nd record; Some (S i)
  end.

Definition pfx_table_get_root t (v : rtr_ip_version) : trie_node node_data :=
  match v with RTR_IPV4 => ipv4 t | RTR_IPV6 => ipv6 t end.

(** The elements after [index] move down; if the smaller array cannot be
    allocated the deleted element is put back, at the end. *)
Definition pfx_table_del_elem nd (index : nat) : M E (rtr_pfx_rtvals * node_data) :=
  deleted_elem ← of_option (nd !! index);
  let nd := delete index nd in
  match nd with
  | [] => mret (RTR_PFX_SUCCESS, [])
  | _ =>
      ok ← alloc;
      if negb ok then mret (RTR_PFX_ERROR, nd ++ [deleted_elem])
      else mret (RTR_PFX_SUCCESS, nd)
  end.

(** The node a pointer refers to; dereferencing the null pointer is undefined. *)
Definition node_at (root : trie_node node_data) (p : path) : option (trie_entry node_data) :=
  match subtree root p with NULL => None | Node e _ _ => Some e end.

Definition set_node_data (d : node_data) (s : trie_node node_data)
  : option (trie_node node_data) :=
  match s with NULL => None | Node e l r => Some (Node (set_data e d) l r) end.

(** ** Adding a record *)

Definition pfx_table_add t record : M E (rtr_pfx_rtvals * rtr_pfx_table) :=
  t ← pthread_rwlock_wrlock t;
  let v := ver (rec_prefix record) in
  let root := pfx_table_get_root t v in
  match root with
  | Node _ _ _ =>
      '(node, lvl, found) ←
        of_option (trie_lookup_exact root [] (rec_prefix record) (min_len record) 0);
      if found : bool then
        p ← of_option node;
        e ← of_option (node_at root p);
        match pfx_table_find_elem (data e) record with
        | Some _ =>
            t ← pthread_rwlock_unlock t;
            mret (RTR_PFX_DUPLICATE_RECORD, t)
        | None =>
            '(rtval, nd) ← pfx_table_append_elem (data e) record;
            root ← of_option (update_at root p (set_node_data nd));
            t ← pthread_rwlock_unlock (set_root t v root);
            (if decide (rtval = RTR_PFX_SUCCESS)
             then pfx_table_notify_clients t record RTR_PFX_ADD else mret tt);;
            mret (rtval, t)
        end
      else
        '(err, new_node) ← pfx_table_create_node record;
        if decide (err = RTR_PFX_ERROR) then
          t ← pthread_rwlock_unlock t;
          mret (RTR_PFX_ERROR, t)
        else
          p ← of_option node;
          root ← of_option (update_at root p (λ s, trie_insert s new_node lvl));
          t ← pthread_rwlock_unlock (set_root t v root);
          pfx_table_notify_clients t record RTR_PFX_ADD;;
          mret (RTR_PFX_SUCCESS, t)
  | NULL =>
      '(err, new_node) ← pfx_table_create_node record;
      if decide (err = RTR_PFX_ERROR) then
        t ← pthread_rwlock_unlock t;
        mret (RTR_PFX_ERROR, t)
      else
        t ← pthread_rwlock_unlock (set_root t v (Node new_node NULL NULL));
        pfx_table_notify_clients t record RTR_PFX_ADD;;
        mret (RTR_PFX_SUCCESS, t)
  end.

Definition rtr_pfx_table_add (pfx_table : option rtr_pfx_table) (record : option rtr_pfx_record)
  : M E (rtr_pfx_rtvals * option rtr_pfx_table) :=
  match pfx_table, record with
  | None, _ => mret (RTR_PFX_NOT_INITIALIZED, None)
  | Some _, None => mret (RTR_PFX_ERROR, pfx_table)
  | Some t, Some record => '(rtval, t) ← pfx_table_add t record; mret (rtval, Some t)
  end.

(** ** Removing a record *)

Definition is_nil (p : path) : bool := match p with [] => true | _ => false end.

(** [trie_remove] of the root of [s], whose array has become empty: what is left
    of [s], and the pointer from there to the removed node, whose array must be
    empty before the node is freed. *)
Definition pfx_table_drop_node (s : trie_node node_data) (has_parent : bool) (pfx : rtr_ip_addr)
    (mask_len lvl : Z) : option (trie_node node_data * path) :=
  '(s, rm) ← trie_remove s has_parent pfx mask_len lvl;
  '(q, rm_data) ← rm;
  assert_ (Nat.eqb (length rm_data) 0);;
  Some (s, q).

Definition rtr_pfx_table_remove t record : M E (rtr_pfx_rtvals * rtr_pfx_table) :=
  t ← pthread_rwlock_wrlock t;
  let v := ver (rec_prefix record) in
  let root := pfx_table_get_root t v in
  '(node, lvl, found) ←
    of_option (trie_lookup_exact root [] (rec_prefix record) (min_len record) 0);
  if negb found then
    t ← pthread_rwlock_unlock t;
    mret (RTR_PFX_RECORD_NOT_FOUND, t)
  else
    p ← of_option node;
    e ← of_option (node_at root p);
    match pfx_table_find_elem (data e) record with
    | None =>
        t ← pthread_rwlock_unlock t;
        mret (RTR_PFX_RECORD_NOT_FOUND, t)
    | Some index =>
        '(err, nd) ← pfx_table_del_elem (data e) index;
        root ← of_option (update_at root p (set_node_data nd));
        if decide (err = RTR_PFX_ERROR) then
          t ← pthread_rwlock_unlock (set_root t v root);
          mret (RTR_PFX_ERROR, t)
        else
          root ←
            match nd with
            | [] =>
                '(s, rm) ← of_option (pfx_table_drop_node (subtree root p) (negb (is_nil p))
                  (rec_prefix record) (min_len record) lvl);
                root ← of_option (update_at root p (λ _, Some s));
                mret (if is_nil (p ++ rm) then NULL else root)
            | _ => mret root
            end;
          t ← pthread_rwlock_unlock (set_root t v root);
          pfx_table_notify_clients t record RTR_PFX_REMOVE;;
          mret (RTR_PFX_SUCCESS, t)
    end.

(** ** Origin validation *)

Definition pfx_table_elem_matches nd (asn prefix_len : Z) : bool :=
  existsb (λ e, negb (e_asn e =? 0) && (e_asn e =? asn) && (prefix_len <=? e_max_len e)) nd.

Definition record_of (e : trie_entry node_data) (x : data_elem) : rtr_pfx_record :=
  PfxRecord (e_asn x) (prefix e) (len e) (e_max_len x) (e_socket x).

(** The records written to an array of [ary_len] elements; [None] is
    [RTR_PFX_ERROR]. *)
Definition pfx_table_node2pfx_record (node : trie_entry node_data) (ary_len : nat)
  : option (list rtr_pfx_record) :=
  if Nat.ltb ary_len (length (data node)) then None
  else Some (record_of node <$> data node).

(** [*reason] and [*reason_len] after they are freed. *)
Definition pfx_table_free_reason : list rtr_pfx_record := [].

(** What [rtr_pfx_table_validate_r] returns: its value, [*result] if it was
    written, the [reason] array, and the table. *)
Definition validation : Type :=
  rtr_pfx_rtvals * option rtr_pfxv_state * list rtr_pfx_record * rtr_pfx_table.

(** The records of [node] are appended to [reason] if the caller asked for them;
    [None]: an error. *)
Definition pfx_table_add_reason (want_reason : bool) (reason : list rtr_pfx_record)
    (node : trie_entry node_data) : M E (option (list rtr_pfx_record)) :=
  if want_reason then
    ok ← alloc;
    if negb ok then mret None
    else mret (new ← pfx_table_node2pfx_record node (length (data node)); Some (reason ++ new))
  else mret (Some reason).

Fixpoint pfx_table_validate_loop (fuel : nat) t (node : trie_node node_data) (lvl : Z)
    (want_reason : bool) (reason : list rtr_pfx_record) (asn : Z) (pfx : rtr_ip_addr)
    (prefix_len : Z) : M E validation :=
  match fuel, node with
  | O, _ | _, NULL => of_option None
  | S fuel, Node e l r =>
      if pfx_table_elem_matches (data e) asn prefix_len then
        t ← pthread_rwlock_unlock t;
        mret (RTR_PFX_SUCCESS, Some RTR_BGP_PFXV_STATE_VALID, reason, t)
      else
        b ← of_option (rtr_ip_addr_get_bits pfx (u8 lvl) 1);
        let child := if rtr_ip_addr_is_zero b then l else r in
        '(node, lvl) ← of_option (trie_lookup child pfx prefix_len (lvl + 1));
        match node with
        | NULL =>
            t ← pthread_rwlock_unlock t;
            mret (RTR_PFX_SUCCESS, Some RTR_BGP_PFXV_STATE_INVALID, reason, t)
        | Node e _ _ =>
            more ← pfx_table_add_reason want_reason reason e;
            match more with
            | None =>
                t ← pthread_rwlock_unlock t;
                mret (RTR_PFX_ERROR, None, pfx_table_free_reason, t)
            | Some reason =>
                pfx_table_validate_loop fuel t node lvl want_reason reason asn pfx prefix_len
            end
        end
  end.

(** [want_reason]: both [reason] and [reason_len] are given. *)
Definition rtr_pfx_table_validate_r t (want_reason : bool) (asn : Z) (pfx : rtr_ip_addr)
    (prefix_len : Z) : M E validation :=
  t ← pthread_rwlock_rdlock t;
  let root := pfx_table_get_root t (ver pfx) in
  match root with
  | NULL =>
      t ← pthread_rwlock_unlock t;
      mret (RTR_PFX_SUCCESS, Some RTR_BGP_PFXV_STATE_NOT_FOUND, pfx_table_free_reason, t)
  | Node _ _ _ =>
      '(node, lvl) ← of_option (trie_lookup root pfx prefix_len 0);
      match node with
      | NULL =>
          t ← pthread_rwlock_unlock t;
          mret (RTR_PFX_SUCCESS, Some RTR_BGP_PFXV_STATE_NOT_FOUND, pfx_table_free_reason, t)
      | Node e _ _ =>
          more ← pfx_table_add_reason want_reason [] e;
          match more with
          | None =>
              t ← pthread_rwlock_unlock t;
              mret (RTR_PFX_ERROR, None, pfx_table_free_reason, t)
          | Some reason =>
              pfx_table_validate_loop (size root) t node lvl want_reason reason asn pfx prefix_len
          end
      end
  end.

Definition rtr_pfx_table_validate t (asn : Z) (pfx : rtr_ip_addr) (prefix_len : Z)
  : M E (rtr_pfx_rtvals * option rtr_pfxv_state * rtr_pfx_table) :=
  '(rtval, result, _, t) ← rtr_pfx_table_validate_r t false asn pfx prefix_len;
  mret (rtval, result, t).

(** ** Removing the records of a cache *)

(** The loop over the array of one node, at index [i]. *)
Fixpoint pfx_table_remove_id_elems (fuel : nat) t (node : trie_entry node_data)
    (sock : socket_ptr) (i : nat) nd : M E (rtr_pfx_rtvals * node_data) :=
  match nd !! i with
  | None => mret (RTR_PFX_SUCCESS, nd)
  | Some e =>
      match fuel with
      | O => of_option None
      | S fuel =>
          if decide (e_socket e = sock) then
            '(err, nd) ← pfx_table_del_elem nd i;
            if decide (err = RTR_PFX_ERROR) then mret (RTR_PFX_ERROR, nd)
            else
              pfx_table_notify_clients t (record_of node e) RTR_PFX_REMOVE;;
              pfx_table_remove_id_elems fuel t node sock i nd
          else pfx_table_remove_id_elems fuel t node sock (S i) nd
      end
  end.

(** [node] is the tree below the node, and [has_parent] is false for [*root];
    returns what is left of the tree, which is [NULL] if the node was freed. *)
Fixpoint pfx_table_remove_id (fuel : nat) t (has_parent : bool) (node : trie_node node_data)
    (sock : socket_ptr) (level : Z) : M E (rtr_pfx_rtvals * trie_node node_data) :=
  match fuel, node with
  | O, _ | _, NULL => of_option None
  | S fuel, Node e l r =>
      '(err, nd) ← pfx_table_remove_id_elems (length (data e)) t e sock 0 (data e);
      let e := set_data e nd in
      if decide (err = RTR_PFX_ERROR) then mret (RTR_PFX_ERROR, Node e l r)
      else
        match nd with
        | [] =>
            '(node, rm) ← of_option
              (pfx_table_drop_node (Node e l r) has_parent (prefix e) (len e) level);
            if is_nil rm then mret (RTR_PFX_SUCCESS, NULL)
            else pfx_table_remove_id fuel t has_parent node sock level
        | _ =>
            '(err, l) ←
              match l with
              | NULL => mret (RTR_PFX_SUCCESS, NULL)
              | Node _ _ _ => pfx_table_remove_id fuel t true l sock (level + 1)
              end;
            if decide (err = RTR_PFX_ERROR) then mret (RTR_PFX_ERROR, Node e l r)
            else
              '(err, r) ←
                match r with
                | NULL => mret (RTR_PFX_SUCCESS, NULL)
                | Node _ _ _ => pfx_table_remove_id fuel t true r sock (level + 1)
                end;
              mret (err, Node e l r)
        end
  end.

(** One round of the loop of [rtr_pfx_table_src_remove]. *)
Definition pfx_table_src_remove_family t (v : rtr_ip_version) (sock : socket_ptr)
  : M E (rtr_pfx_rtvals * rtr_pfx_table) :=
  t ← pthread_rwlock_wrlock t;
  '(rtval, t) ←
    match pfx_table_get_root t v with
    | NULL => mret (RTR_PFX_SUCCESS, t)
    | Node _ _ _ as root =>
        '(rtval, root) ← pfx_table_remove_id (size root) t false root sock 0;
        mret (rtval, set_root t v root)
    end;
  t ← pthread_rwlock_unlock t;
  mret (rtval, t).

Definition rtr_pfx_table_src_remove (pfx_table : option rtr_pfx_table) (sock : socket_ptr)
  : M E (rtr_pfx_rtvals * option rtr_pfx_table) :=
  match pfx_table with
  | None => mret (RTR_PFX_SUCCESS, None)
  | Some t =>
      '(rtval, t) ← pfx_table_src_remove_family t RTR_IPV4 sock;
      if decide (rtval = RTR_PFX_ERROR) then mret (RTR_PFX_ERROR, Some t)
      else
        '(rtval, t) ← pfx_table_src_remove_family t RTR_IPV6 sock;
        if decide (rtval = RTR_PFX_ERROR) then mret (RTR_PFX_ERROR, Some t)
        else mret (RTR_PFX_SUCCESS, Some t)
  end.

(** ** Freeing the table *)

Fixpoint notify_each t (node : trie_entry node_data) nd : M E unit :=
  match nd with
  | [] => mret tt
  | x :: nd =>
      pfx_table_notify_clients t (record_of node x) RTR_PFX_REMOVE;; notify_each t node nd
  end.

(** The loop that removes the root of the tree until it was the last node. *)
Fixpoint pfx_table_free_loop (fuel : nat) t (root : trie_node node_data) : M E unit :=
  match fuel, root with
  | O, _ | _, NULL => of_option None
  | S fuel, Node e l r =>
      notify_each t e (data e);;
      '(root, rm) ← of_option (trie_remove root false (prefix e) (len e) 0);
      '(q, _) ← of_option rm;
      if is_nil q then mret tt else pfx_table_free_loop fuel t root
  end.

Definition pfx_table_free_family t (v : rtr_ip_version) : M E rtr_pfx_table :=
  match pfx_table_get_root t v with
  | NULL => mret t
  | Node _ _ _ as root =>
      t ← pthread_rwlock_wrlock t;
      pfx_table_free_loop (size root) t root;;
      pthread_rwlock_unlock (set_root t v NULL)
  end.

(** The lock is destroyed at the end: it must not be held then. *)
Definition rtr_pfx_table_free (pfx_table : option rtr_pfx_table) : M E (option rtr_pfx_table) :=
  match pfx_table with
  | None => mret None
  | Some t =>
      t ← pfx_table_free_family t RTR_IPV4;
      t ← pfx_table_free_family t RTR_IPV6;
      if decide (lock t = Unlocked) then mret (Some t) else of_option None
  end.

Definition pfx_table_free_without_notify t : M E (option rtr_pfx_table) :=
  rtr_pfx_table_free (Some (set_update_fp t None)).

(** ** Enumeration

    The callback of the enumeration works on a state of its own ([void *data]). *)

Section ForEach.
Context {S : Type} (fp : rtr_pfx_record → S → M E S).

Fixpoint for_each_elem (n : trie_entry node_data) nd (st : S) : M E S :=
  match nd with
  | [] => mret st
  | x :: nd => st ← fp (record_of n x) st; for_each_elem n nd st
  end.

Fixpoint pfx_table_for_each_rec (n : trie_node node_data) (st : S) : M E S :=
  match n with
  | NULL => of_option None
  | Node e l r =>
      st ← match l with NULL => mret st | Node _ _ _ => pfx_table_for_each_rec l st end;
      st ← for_each_elem e (data e) st;
      match r with NULL => mret st | Node _ _ _ => pfx_table_for_each_rec r st end
  end.

Definition pfx_table_for_each_record (v : rtr_ip_version) (pfx_table : option rtr_pfx_table)
    (st : S) : M E (rtr_pfx_rtvals * S) :=
  match pfx_table with
  | None => mret (RTR_PFX_NOT_INITIALIZED, st)
  | Some t =>
      match pfx_table_get_root t v with
      | NULL => mret (RTR_PFX_SUCCESS, st)
      | Node _ _ _ as root =>
          t ← pthread_rwlock_rdlock t;
          st ← pfx_table_for_each_rec root st;
          pthread_rwlock_unlock t;;
          mret (RTR_PFX_SUCCESS, st)
      end
  end.

Definition rtr_pfx_table_for_each_ipv4_record := pfx_table_for_each_record RTR_IPV4.
Definition rtr_pfx_table_for_each_ipv6_record := pfx_table_for_each_record RTR_IPV6.

End ForEach.

(** ** Shadow tables *)

(** The arguments that change: the table written to and [error]. *)
Definition pfx_table_copy_cb (sock : socket_ptr) record (args : rtr_pfx_table * bool)
  : M E (rtr_pfx_table * bool) :=
  let '(dst, error) := args in
  if decide (socket record = sock) then mret args
  else
    '(rtval, dst) ← pfx_table_add dst record;
    mret (dst, if decide (rtval = RTR_PFX_SUCCESS) then error else true).

Definition pfx_table_copy_except_socket (src_table : option rtr_pfx_table)
    (dst_table : rtr_pfx_table) (sock : socket_ptr) : M E (rtr_pfx_rtvals * rtr_pfx_table) :=
  '(_, (dst, error)) ←
    rtr_pfx_table_for_each_ipv4_record (pfx_table_copy_cb sock) src_table (dst_table, false);
  if error : bool then mret (RTR_PFX_ERROR, dst)
  else
    '(_, (dst, error)) ←
      rtr_pfx_table_for_each_ipv6_record (pfx_table_copy_cb sock) src_table (dst, error);
    if error : bool then mret (RTR_PFX_ERROR, dst) else mret (RTR_PFX_SUCCESS, dst).

Definition pfx_table_swap (a b : rtr_pfx_table) : M E (rtr_pfx_table * rtr_pfx_table) :=
  a ← pthread_rwlock_wrlock a;
  b ← pthread_rwlock_wrlock b;
  let a' := PfxTable (ipv4 b) (ipv6 b) (update_fp a) (lock a) in
  let b' := PfxTable (ipv4 a) (ipv6 a) (update_fp b) (lock b) in
  b' ← pthread_rwlock_unlock b';
  a' ← pthread_rwlock_unlock a';
  mret (a', b').

(** The state is [args->old_table], the only table the callback changes. *)
Definition pfx_table_notify_diff_cb (new_table : rtr_pfx_table) (sock : socket_ptr)
    (operation_type : rtr_pfx_operation_type) record (old_table : rtr_pfx_table)
  : M E rtr_pfx_table :=
  if decide (sock = socket record) then
    match operation_type with
    | RTR_PFX_ADD =>
        '(rtval, old_table) ← rtr_pfx_table_remove old_table record;
        (if decide (rtval = RTR_PFX_SUCCESS) then mret tt
         else pfx_table_notify_clients new_table record operation_type);;
        mret old_table
    | RTR_PFX_REMOVE =>
        pfx_table_notify_clients new_table record operation_type;;
        mret old_table
    end
  else mret old_table.

Definition pfx_table_notify_diff (new_table old_table : rtr_pfx_table) (sock : socket_ptr)
  : M E rtr_pfx_table :=
  let old_table_fp := update_fp old_table in
  let old_table := set_update_fp old_table None in
  let add := pfx_table_notify_diff_cb new_table sock RTR_PFX_ADD in
  let remove := pfx_table_notify_diff_cb new_table sock RTR_PFX_REMOVE in
  '(_, old_table) ← rtr_pfx_table_for_each_ipv4_record add (Some new_table) old_table;
  '(_, old_table) ← rtr_pfx_table_for_each_ipv6_record add (Some new_table) old_table;
  '(_, old_table) ← rtr_pfx_table_for_each_ipv4_record remove (Some old_table) old_table;
  '(_, old_table) ← rtr_pfx_table_for_each_ipv6_record remove (Some old_table) old_table;
  mret (set_update_fp old_table old_table_fp).

End PfxTable.
