(* ===== verification/PfxTableProofs.v ===== *)
(** * The prefix table: specification and proofs

    The table is specified as the multiset of its records.  The operations keep
    the invariant [table_ok], release the lock, and change the records and call
    the client's callback as their names say, whatever the allocator does. *)

From S2P Require Import Prelude Ip Trie PfxTable.

Section Spec.
Context `{Build}.

(** The records of a tree, in the order they are enumerated. *)
Definition tree_records (root : trie_node node_data) : list rtr_pfx_record :=
  entries root ≫= λ e, record_of e <$> data e.

Definition records (t : rtr_pfx_table) : list rtr_pfx_record :=
  tree_records (ipv4 t) ++ tree_records (ipv6 t).

(** The array of a node holds at least one record and none twice. *)
Definition node_ok (e : trie_entry node_data) : Prop := data e ≠ [] ∧ NoDup (data e).

Definition tree_ok (v : rtr_ip_version) (root : trie_node node_data) : Prop :=
  trie_inv v 0 root ∧ Forall node_ok (entries root).

Definition table_ok (t : rtr_pfx_table) : Prop :=
  tree_ok RTR_IPV4 (ipv4 t) ∧ tree_ok RTR_IPV6 (ipv6 t) ∧ lock t = Unlocked.

Definition record_key (r : rtr_pfx_record) : rtr_ip_addr * Z := (rec_prefix r, min_len r).

(** A record the table can hold: a canonical prefix. *)
Definition record_ok (r : rtr_pfx_record) : Prop :=
  key_ok (ver (rec_prefix r)) (record_key r).

#[global] Instance table_ok_dec t : Decision (table_ok t).
Proof. apply _. Defined.

#[global] Instance record_ok_dec r : Decision (record_ok r).
Proof. apply _. Defined.

(** ** Records *)

Lemma record_of_elem e r :
  key e = record_key r → record_of e (elem_of_record r) = r.
Proof. intros [= Hp Hl]. unfold record_of. rewrite Hp, Hl. by destruct r. Qed.

Lemma elem_of_record_of e x : elem_of_record (record_of e x) = x.
Proof. by destruct x. Qed.

Lemma record_key_of e x : record_key (record_of e x) = key e.
Proof. done. Qed.

Lemma elem_of_tree_records r root :
  r ∈ tree_records root ↔
    ∃ e, e ∈ entries root ∧ key e = record_key r ∧ elem_of_record r ∈ data e.
Proof.
  unfold tree_records. rewrite list_elem_of_bind. setoid_rewrite list_elem_of_fmap. split.
  - intros (e & (x & -> & Hx) & He). exists e. split_and!; try done. by rewrite elem_of_record_of.
  - intros (e & He & Hk & Hx). exists e. split; [|done]. eexists. split; [|done].
    symmetry. by apply record_of_elem.
Qed.

Lemma tree_records_perm root (es : list (trie_entry node_data)) :
  entries root ≡ₚ es → tree_records root ≡ₚ es ≫= λ e, record_of e <$> data e.
Proof. unfold tree_records. by intros ->. Qed.

(** The tree of a record of the other family does not hold it. *)
Lemma tree_records_version v root r :
  tree_ok v root → r ∈ tree_records root → ver (rec_prefix r) = v.
Proof.
  intros [[(Hk & _) _] _] (e & He & Hke & _)%elem_of_tree_records.
  rewrite Forall_forall in Hk. destruct (Hk (key e)) as [<- _]; [by apply list_elem_of_fmap_2|].
  injection Hke as Hp _. by simpl; rewrite Hp.
Qed.

Definition other (v : rtr_ip_version) : rtr_ip_version :=
  match v with RTR_IPV4 => RTR_IPV6 | RTR_IPV6 => RTR_IPV4 end.

Lemma records_split t v :
  records t ≡ₚ tree_records (pfx_table_get_root t v) ++ tree_records (pfx_table_get_root t (other v)).
Proof. unfold records. destruct v; simpl; [done|]. apply Permutation_app_comm. Qed.

Lemma table_ok_tree t v : table_ok t → tree_ok v (pfx_table_get_root t v).
Proof. intros (? & ? & _). by destruct v. Qed.

Lemma elem_of_records t r :
  table_ok t →
  r ∈ records t ↔ r ∈ tree_records (pfx_table_get_root t (ver (rec_prefix r))).
Proof.
  intros Hok. rewrite (records_split t (ver (rec_prefix r))), elem_of_app.
  split; [|by left]. intros [?|Hr]; [done|]. exfalso.
  apply (tree_records_version _ _ _ (table_ok_tree t _ Hok)) in Hr. by destruct (ver (rec_prefix r)).
Qed.

(** Replacing one tree of a table. *)
Lemma table_ok_set_root t v root l :
  table_ok t → tree_ok v root → l = Unlocked → table_ok (set_lock (set_root t v root) l).
Proof. intros (? & ? & _) ? ->. by destruct v. Qed.

Lemma records_set_root t v root l :
  records (set_lock (set_root t v root) l) ≡ₚ
    tree_records root ++ tree_records (pfx_table_get_root t (other v)).
Proof. rewrite (records_split _ v). by destruct v. Qed.

(** ** The invariant of a tree *)

Lemma keys_ok_cons_inv v lvl k ks : keys_ok v lvl (k :: ks) → keys_ok v lvl ks.
Proof.
  intros (Hk & Hn & Ha). inversion Hk. inversion Hn. split_and!; try done.
  eapply agree_weaken, Ha. by right.
Qed.

(** At the root nothing has to be shared. *)
Lemma keys_ok_cons v k ks : key_ok v k → k ∉ ks → keys_ok v 0 ks → keys_ok v 0 (k :: ks).
Proof.
  intros Hk Hn (Hks & Hnd & _). split_and!; [by constructor..|].
  intros k1 k2 i _ _ Hi. lia.
Qed.

Lemma tree_ok_alt v root es :
  entries root ≡ₚ es →
  tree_ok v root ↔ keys_ok v 0 (key <$> es) ∧ Forall node_ok es ∧ trie_shape 0 root.
Proof.
  intros Hp. unfold tree_ok, trie_inv. rewrite Hp. tauto.
Qed.

(** Only one entry of a tree has a given key. *)
Lemma tree_key_unique v lvl (root : trie_node node_data) e e' :
  trie_inv v lvl root → e ∈ entries root → e' ∈ entries root → key e = key e' → e = e'.
Proof.
  intros [(_ & Hn & _) _] (i & Hi)%list_elem_of_lookup (j & Hj)%list_elem_of_lookup Hk.
  assert (i = j) as ->; [|congruence]. eapply NoDup_lookup; [exact Hn| |].
  - by rewrite list_lookup_fmap, Hi.
  - rewrite list_lookup_fmap, Hj. simpl. congruence.
Qed.

Lemma subtree_shape p lvl (root : trie_node node_data) :
  trie_shape lvl root → trie_shape (lvl + Z.of_nat (length p)) (subtree root p).
Proof.
  revert lvl root. induction p as [|d p IH]; intros lvl root Hs; [by rewrite Z.add_0_r|].
  simpl subtree. replace (lvl + Z.of_nat (length (d :: p))) with (lvl + 1 + Z.of_nat (length p))
    by (simpl; lia).
  apply IH. destruct root; [done|]. destruct Hs as (_ & _ & _ & ? & ?). by destruct d.
Qed.

Lemma node_at_subtree (root : trie_node node_data) p e :
  node_at root p = Some e → ∃ l r, subtree root p = Node e l r.
Proof. unfold node_at. destruct (subtree root p); intros; simplify_eq; eauto. Qed.

Lemma subtree_update_at p (root root' : trie_node node_data) f :
  update_at root p f = Some root' → f (subtree root p) = Some (subtree root' p).
Proof.
  revert root root'. induction p as [|d p IH]; intros root root'; simpl; [done|].
  destruct root as [|e l r], d; try done.
  - destruct (update_at l p f) eqn:Hu; [|done]. intros [= <-]. by apply IH.
  - destruct (update_at r p f) eqn:Hu; [|done]. intros [= <-]. by apply IH.
Qed.

(** Writing the array of the node at [p]. *)
Lemma set_data_at root p e nd :
  trie_shape 0 root → node_at root p = Some e →
  ∃ root' rest l r, update_at root p (set_node_data nd) = Some root' ∧ trie_shape 0 root' ∧
    entries root ≡ₚ e :: rest ∧ entries root' ≡ₚ set_data e nd :: rest ∧
    subtree root' p = Node (set_data e nd) l r.
Proof.
  intros Hs (l & r & Hsub)%node_at_subtree.
  pose proof (subtree_shape p _ _ Hs) as Hss. rewrite Hsub in Hss.
  destruct (update_at_spec p 0 root (set_node_data nd) (Node (set_data e nd) l r))
    as (root' & pre & post & Hu & Hs' & He & He' & _); rewrite ?Hsub; try done.
  - intros e' He'. simpl in He'. simpl. rewrite elem_of_app, elem_of_cons in He'.
    setoid_rewrite elem_of_app. setoid_rewrite elem_of_cons.
    destruct He' as [?|[->|?]]; eauto 10.
  - exists root', (pre ++ entries l ++ entries r ++ post), l, r. rewrite Hsub in He. simpl in He, He'.
    split_and!; [done|done|rewrite He; solve_Permutation|rewrite He'; solve_Permutation|].
    apply subtree_update_at in Hu. rewrite Hsub in Hu. simpl in Hu. by injection Hu.
Qed.

(** Dropping the node at [p], whose array is empty. *)
Lemma drop_node_at (root : trie_node node_data) p e l r :
  trie_shape 0 root → subtree root p = Node e l r → data e = [] →
  ∃ s q root' rest,
    pfx_table_drop_node (Node e l r) (negb (is_nil p)) (prefix e) (len e) (Z.of_nat (length p)) =
      Some (s, q) ∧
    update_at root p (λ _, Some s) = Some root' ∧ entries root ≡ₚ e :: rest ∧
    entries (if is_nil (p ++ q) then NULL else root') ≡ₚ rest ∧
    trie_shape 0 (if is_nil (p ++ q) then NULL else root').
Proof.
  intros Hs Hsub Hd. pose proof (subtree_shape p _ _ Hs) as Hss. rewrite Hsub in Hss.
  pose proof (trie_remove_from_root (Node e l r) _ [] (negb (is_nil p)) Hss) as (s & q & Hrm & Hres).
  rewrite Z.add_0_l in *. rewrite <- Hd in Hrm at 1.
  assert (pfx_table_drop_node (Node e l r) (negb (is_nil p)) (prefix e) (len e)
    (Z.of_nat (length p)) = Some (s, q)) as Hdrop.
  { unfold pfx_table_drop_node, trie_remove. rewrite Hrm. simpl. by rewrite assert_true. }
  exists s, q. destruct (trie_is_leaf _) eqn:Hleaf.
  - destruct Hres as [-> ->]. rewrite app_nil_r. destruct p as [|d p].
    + simpl in Hsub. subst root. exists (Node (set_data e []) l r), []. destruct l, r; try done.
    + destruct (update_at_spec (d :: p) 0 root (λ _, Some NULL) NULL)
        as (root' & pre & post & Hu & Hs' & He & He' & _); rewrite ?Hsub; try done.
      { inversion 1. }
      rewrite Hsub in He. exists root', (pre ++ post). destruct l, r; try done.
      split_and!; try done; [rewrite He; simpl; solve_Permutation|].
      cbn [is_nil app]. by rewrite He'.
  - destruct Hres as (Hq & Hn & Hp & Hs1).
    destruct (update_at_spec p 0 root (λ _, Some s) s)
      as (root' & pre & post & Hu & Hs' & He & He' & _); rewrite ?Hsub; try done.
    { intros e'. rewrite Hp. simpl. rewrite elem_of_app. setoid_rewrite elem_of_app.
      setoid_rewrite elem_of_cons. intros [?|?]; eauto 10. }
    rewrite Hsub in He. exists root', (pre ++ entries s ++ post).
    assert (is_nil (p ++ q) = false) as -> by (by destruct p, q).
    split_and!; try done; [|by rewrite He'].
    rewrite He, Hp. simpl. solve_Permutation.
Qed.

(** ** Changes of one tree *)

Lemma node_at_ok v root p e :
  tree_ok v root → node_at root p = Some e → e ∈ entries root ∧ node_ok e.
Proof.
  intros [[_ Hs] Ho] Hat.
  destruct (set_data_at root p e [] Hs Hat) as (_ & rest & _ & _ & _ & _ & Hp & _).
  split; [rewrite Hp; left|]. rewrite Hp in Ho. by inversion Ho.
Qed.

(** Another array for the node at [p]. *)
Lemma tree_set_data v root p e nd :
  tree_ok v root → node_at root p = Some e → nd ≠ [] → NoDup nd →
  ∃ root' rest, update_at root p (set_node_data nd) = Some root' ∧ tree_ok v root' ∧
    tree_records root ≡ₚ (record_of e <$> data e) ++ rest ∧
    tree_records root' ≡ₚ (record_of e <$> nd) ++ rest.
Proof.
  intros Hok Hat Hne Hnd. pose proof Hok as [[_ Hs] _].
  destruct (set_data_at root p e nd Hs Hat) as (root' & rest & l & r & Hu & Hs' & Hp & Hp' & _).
  exists root', (rest ≫= λ e, record_of e <$> data e). split_and!.
  - done.
  - apply (tree_ok_alt _ _ _ Hp) in Hok as (Hk & Hn & _). apply (tree_ok_alt _ _ _ Hp').
    split_and!; [done| |done]. inversion Hn; subst. by constructor.
  - by rewrite (tree_records_perm _ _ Hp).
  - by rewrite (tree_records_perm _ _ Hp').
Qed.

(** A new record for a prefix that has a node. *)
Lemma tree_add_elem v root p e r :
  tree_ok v root → node_at root p = Some e → key e = record_key r →
  elem_of_record r ∉ data e →
  ∃ root', update_at root p (set_node_data (data e ++ [elem_of_record r])) = Some root' ∧
    tree_ok v root' ∧ tree_records root' ≡ₚ r :: tree_records root.
Proof.
  intros Hok Hat Hk Hn. destruct (node_at_ok _ _ _ _ Hok Hat) as [_ [_ Hnd]].
  destruct (tree_set_data v root p e (data e ++ [elem_of_record r]))
    as (root' & rest & Hu & Hok' & Hr & Hr'); [done|done|by destruct (data e)| |].
  - apply NoDup_app. split_and!; [done| |by apply NoDup_singleton].
    intros x Hx ->%list_elem_of_singleton. done.
  - exists root'. split_and!; [done..|]. rewrite Hr', Hr, fmap_app. simpl.
    rewrite record_of_elem by done. solve_Permutation.
Qed.

(** A new record for a prefix that has none. *)
Lemma tree_add_node v root p r :
  tree_ok v root → key_ok v (record_key r) → fits (record_key r) 0 p root →
  record_key r ∉ (key <$> entries root) →
  ∃ root', update_at root p (λ s, trie_insert s
      (Entry (rec_prefix r) (min_len r) [elem_of_record r]) (Z.of_nat (length p))) = Some root' ∧
    tree_ok v root' ∧ tree_records root' ≡ₚ r :: tree_records root.
Proof.
  intros [[Hk Hs] Ho] Hkr Hf Hn. set (new := Entry _ _ _).
  assert (0 <= min_len r) by (destruct Hkr as (_ & _ & ?%len_ok_nonneg & _); done).
  destruct (update_at_insert v p 0 root new) as (root' & Hu & Hp & Hs'); try done.
  { by apply keys_ok_cons. }
  exists root'. split_and!; [done| |].
  - apply (tree_ok_alt _ _ _ Hp). split_and!; [by apply keys_ok_cons| |done].
    constructor; [|done]. split; [done|]. apply NoDup_singleton.
  - rewrite (tree_records_perm _ _ Hp). simpl. unfold new. by rewrite record_of_elem.
Qed.

(** The first record of a tree. *)
Lemma tree_singleton v r :
  key_ok v (record_key r) →
  let root := Node (Entry (rec_prefix r) (min_len r) [elem_of_record r]) NULL NULL in
  tree_ok v root ∧ tree_records root ≡ₚ [r].
Proof.
  intros Hk root. split; [|by unfold tree_records; simpl; rewrite record_of_elem].
  apply (tree_ok_alt v root (entries root)); [done|]. split_and!.
  - apply keys_ok_cons; [done|by apply not_elem_of_nil|]. split_and!; [constructor..|]. intros ???. inversion 1.
  - constructor; [|constructor]. split; [done|]. apply NoDup_singleton.
  - repeat constructor. destruct Hk as (_ & _ & ?%len_ok_nonneg & _). done.
Qed.

(** One record less, where the prefix keeps others. *)
Lemma tree_del_elem v root p e r i :
  tree_ok v root → node_at root p = Some e → key e = record_key r →
  data e !! i = Some (elem_of_record r) → delete i (data e) ≠ [] →
  ∃ root', update_at root p (set_node_data (delete i (data e))) = Some root' ∧
    tree_ok v root' ∧ tree_records root ≡ₚ r :: tree_records root'.
Proof.
  intros Hok Hat Hk Hi Hne. assert (data e ≡ₚ elem_of_record r :: delete i (data e)) as Hp
    by by apply delete_Permutation.
  destruct (node_at_ok _ _ _ _ Hok Hat) as [_ [_ Hnd]].
  rewrite Hp in Hnd. destruct (tree_set_data v root p e (delete i (data e)))
    as (root' & rest & Hu & Hok' & Hr & Hr'); [done|done|done|by inversion Hnd|].
  exists root'. split_and!; [done..|]. rewrite Hr', Hr.
  remember (delete i (data e)) as nd. rewrite Hp. simpl. by rewrite record_of_elem.
Qed.

(** The last record of a prefix. *)
Lemma tree_del_node v root p e r root1 :
  tree_ok v root → node_at root p = Some e → key e = record_key r →
  data e = [elem_of_record r] → update_at root p (set_node_data []) = Some root1 →
  ∃ s q root2,
    pfx_table_drop_node (subtree root1 p) (negb (is_nil p)) (rec_prefix r) (min_len r)
      (Z.of_nat (length p)) = Some (s, q) ∧
    update_at root1 p (λ _, Some s) = Some root2 ∧
    let root' := if is_nil (p ++ q) then NULL else root2 in
    tree_ok v root' ∧ tree_records root ≡ₚ r :: tree_records root'.
Proof.
  intros Hok Hat Hk Hd Hu. pose proof Hok as [[_ Hs] _].
  destruct (set_data_at root p e [] Hs Hat) as (root1' & rest & l & rr & Hu1 & Hs1 & Hp & Hp1 & Hsub).
  rewrite Hu in Hu1. injection Hu1 as <-. injection Hk as Hkp Hkl.
  destruct (drop_node_at root1 p (set_data e []) l rr Hs1 Hsub)
    as (s & q & root2 & rest' & Hdrop & Hu2 & Hp1' & Hp2 & Hs2); [done|].
  assert (rest' ≡ₚ rest) as Hrest.
  { apply (Permutation_cons_inv (a := set_data e [])). by rewrite <- Hp1, <- Hp1'. }
  rewrite Hrest in Hp2. simpl prefix in Hdrop. simpl len in Hdrop. rewrite Hkp, Hkl in Hdrop.
  exists s, q, root2. rewrite Hsub. cbv zeta. split_and!; [done..| |].
  - apply (tree_ok_alt _ _ _ Hp) in Hok as (Hks & Hn & _). apply (tree_ok_alt _ _ _ Hp2).
    inversion Hn; subst. split_and!; [by eapply keys_ok_cons_inv|done|done].
  - rewrite (tree_records_perm _ _ Hp), (tree_records_perm _ _ Hp2). simpl. rewrite Hd. simpl.
    rewrite record_of_elem; [done|]. unfold key, record_key. by rewrite Hkp, Hkl.
Qed.

End Spec.

Section Operations.
Context `{Build} {E : Type} `{!Event pfx_event E}.
Implicit Types (t : rtr_pfx_table) (r : rtr_pfx_record) (w : world E).

(** ** Effects *)

(** What the client is told about an operation on [r]. *)
Definition notification t r (op : rtr_pfx_operation_type) : list E :=
  match update_fp t with Some fp => [event (PfxUpdate fp r op)] | None => [] end.

Lemma wp_notify t r op Q w :
  (∀ w', emits w (notification t r op) w' → Q tt w') →
  wp (pfx_table_notify_clients t r op) Q w.
Proof.
  intros HQ. unfold pfx_table_notify_clients, notification in *.
  destruct (update_fp t); wp_step; apply HQ; auto using emits_refl.
Qed.

Lemma wp_wrlock t Q w :
  lock t = Unlocked → Q (set_lock t WriteLocked) w → wp (pthread_rwlock_wrlock t) Q w.
Proof.
  intros Hl HQ. unfold pthread_rwlock_wrlock. wp_step. eapply wp_of_option; [by rewrite Hl|].
  by wp_step.
Qed.

Lemma wp_rdlock t Q w :
  lock t = Unlocked → Q (set_lock t (ReadLocked 0)) w → wp (pthread_rwlock_rdlock t) Q w.
Proof.
  intros Hl HQ. unfold pthread_rwlock_rdlock. wp_step. eapply wp_of_option; [by rewrite Hl|].
  by wp_step.
Qed.

Lemma wp_unlock t Q w :
  lock t = WriteLocked ∨ lock t = ReadLocked 0 → Q (set_lock t Unlocked) w →
  wp (pthread_rwlock_unlock t) Q w.
Proof.
  intros Hl HQ. unfold pthread_rwlock_unlock. wp_step.
  eapply wp_of_option; [by destruct Hl as [-> | ->]|]. by wp_step.
Qed.

Lemma set_lock_twice t l l' : set_lock (set_lock t l) l' = set_lock t l'.
Proof. done. Qed.

Lemma set_lock_unlocked t : lock t = Unlocked → set_lock t Unlocked = t.
Proof. destruct t. simpl. by intros ->. Qed.

Lemma set_lock_set_root t v root l l' :
  set_lock (set_root (set_lock t l) v root) l' = set_lock (set_root t v root) l'.
Proof. by destruct v. Qed.

Lemma lock_set_root t v root : lock (set_root t v root) = lock t.
Proof. by destruct v. Qed.

Lemma update_fp_set_root t v root l : update_fp (set_lock (set_root t v root) l) = update_fp t.
Proof. by destruct v. Qed.

Lemma get_root_set_lock t l v : pfx_table_get_root (set_lock t l) v = pfx_table_get_root t v.
Proof. by destruct v. Qed.

(** ** The helpers *)

Lemma elem_is_spec r e : elem_is r e = bool_decide (e = elem_of_record r).
Proof.
  unfold elem_is, elem_of_record. destruct e as [a m s]; simpl.
  destruct (Z.eqb_spec a (asn r)) as [->|], (Z.eqb_spec m (max_len r)) as [->|]; simpl;
    repeat case_bool_decide; naive_solver congruence.
Qed.

Lemma find_elem_spec nd r :
  match pfx_table_find_elem nd r with
  | Some i => nd !! i = Some (elem_of_record r)
  | None => elem_of_record r ∉ nd
  end.
Proof.
  induction nd as [|e nd IH]; simpl; [apply not_elem_of_nil|].
  rewrite elem_is_spec. case_bool_decide as He; [by subst|].
  destruct (pfx_table_find_elem nd r); simpl; [done|].
  apply not_elem_of_cons. split; [congruence|done].
Qed.

Lemma append_elem_spec nd r w :
  wp (pfx_table_append_elem nd r) (λ '(err, nd') w', emits w [] w' ∧
    ((err = RTR_PFX_SUCCESS ∧ nd' = nd ++ [elem_of_record r]) ∨
     (err = RTR_PFX_ERROR ∧ nd' = nd ∧ ¬ no_fail w))) w.
Proof.
  unfold pfx_table_append_elem. do 2 wp_step. destruct b; wp_step; split; try done; [by left|].
  right. auto.
Qed.

Lemma create_node_spec r w :
  wp (pfx_table_create_node r) (λ '(err, node) w', emits w [] w' ∧
    ((err = RTR_PFX_SUCCESS ∧ node = Entry (rec_prefix r) (min_len r) [elem_of_record r]) ∨
     (err = RTR_PFX_ERROR ∧ ¬ no_fail w))) w.
Proof.
  unfold pfx_table_create_node. do 2 wp_step. destruct b; simpl; [|wp_step; auto].
  do 2 wp_step. destruct b; simpl; [|wp_step; split; [by eapply emits_quiet|eauto with rtr]].
  wp_step. eapply wp_mono; [apply append_elem_spec|]. intros [err nd] w2 [He Hc]. wp_step.
  split; [by do 2 (eapply emits_quiet; [done|])|].
  destruct Hc as [[-> ->]|(-> & _ & Hn)]; [by left|right]. eauto with rtr.
Qed.

Lemma del_elem_spec nd i x w :
  nd !! i = Some x →
  wp (pfx_table_del_elem nd i) (λ '(err, nd') w', emits w [] w' ∧
    ((err = RTR_PFX_SUCCESS ∧ nd' = delete i nd) ∨
     (err = RTR_PFX_ERROR ∧ nd' ≡ₚ nd ∧ ¬ no_fail w))) w.
Proof.
  intros Hi. unfold pfx_table_del_elem. rewrite Hi. do 2 wp_step.
  pose proof (delete_Permutation nd i x Hi) as Hp.
  destruct (delete i nd) as [|y nd'] eqn:Hd; [wp_step; eauto with rtr|].
  do 2 wp_step. destruct b; simpl; wp_step; split; try done; [by left|right].
  split_and!; [done| |auto]. rewrite Hp. solve_Permutation.
Qed.

(** ** Adding and removing records *)

(** The outcomes of [rtr_pfx_table_add]. *)
Definition add_result t r w (res : rtr_pfx_rtvals * rtr_pfx_table) w' : Prop :=
  let '(rtval, t') := res in
  table_ok t' ∧ update_fp t' = update_fp t ∧
  match rtval with
  | RTR_PFX_SUCCESS =>
      r ∉ records t ∧ records t' ≡ₚ r :: records t ∧ emits w (notification t r RTR_PFX_ADD) w'
  | RTR_PFX_DUPLICATE_RECORD => r ∈ records t ∧ t' = t ∧ emits w [] w'
  | RTR_PFX_ERROR => r ∉ records t ∧ t' = t ∧ emits w [] w' ∧ ¬ no_fail w
  | _ => False
  end.

(** The last steps of an operation that has changed a tree. *)
Lemma wp_commit t v (root' : trie_node node_data) r op (rtval : rtr_pfx_rtvals) Q w :
  (∀ w', emits w (notification t r op) w' → Q (rtval, set_lock (set_root t v root') Unlocked) w') →
  wp (t ← pthread_rwlock_unlock (set_root (set_lock t WriteLocked) v root');
      pfx_table_notify_clients t r op;; mret (rtval, t)) Q w.
Proof.
  intros HQ. wp_step. apply wp_unlock; [left; by rewrite lock_set_root|]. wp_step. apply wp_notify.
  intros w' Hw. wp_step. replace (set_lock _ _) with (set_lock (set_root t v root') Unlocked);
    [apply HQ|by destruct v]. unfold notification in *. by destruct v.
Qed.

Lemma set_root_same t v : set_root t v (pfx_table_get_root t v) = t.
Proof. by destruct t, v. Qed.

Lemma subtree_null p : subtree (D := node_data) NULL p = NULL.
Proof. induction p; simpl; auto. Qed.

Lemma set_node_data_same (root : trie_node node_data) p e :
  node_at root p = Some e → update_at root p (set_node_data (data e)) = Some root.
Proof.
  revert root. induction p as [|d p IH]; intros [|e' l r]; unfold node_at; simpl; try done.
  - intros [= ->]. by destruct e.
  - by rewrite subtree_null.
  - intros Hat. by destruct d; rewrite IH.
Qed.

Lemma not_in_tree v t r root :
  table_ok t → ver (rec_prefix r) = v → pfx_table_get_root t v = root →
  record_key r ∉ (key <$> entries root) → r ∉ records t.
Proof.
  intros Hok <- <- Hn Hr%elem_of_records; [|done]. apply elem_of_tree_records in Hr as (e & He & Hk & _).
  apply Hn. rewrite <- Hk. by apply list_elem_of_fmap_2.
Qed.

Lemma pfx_table_add_spec t r w :
  table_ok t → record_ok r → wp (pfx_table_add t r) (add_result t r w) w.
Proof.
  intros Hok Hr. pose proof Hok as (_ & _ & Hl). unfold pfx_table_add.
  wp_step. apply wp_wrlock; [done|]. cbv zeta.
  set (v := ver (rec_prefix r)). rewrite get_root_set_lock.
  pose proof (table_ok_tree t v Hok) as Htree. pose proof (records_split t v) as Hrec.
  assert (∀ root' w', tree_ok v root' →
    tree_records root' ≡ₚ r :: tree_records (pfx_table_get_root t v) → r ∉ records t →
    emits w (notification t r RTR_PFX_ADD) w' →
    add_result t r w (RTR_PFX_SUCCESS, set_lock (set_root t v root') Unlocked) w') as Hdone.
  { intros root' w' Hok' Hp Hn Hw. split_and!; [by apply table_ok_set_root|by destruct v|done| |done].
    by rewrite records_set_root, Hrec, Hp. }
  assert (∀ w', r ∉ records t → emits w [] w' → ¬ no_fail w →
    wp (t ← pthread_rwlock_unlock (set_lock t WriteLocked); mret (RTR_PFX_ERROR, t))
      (add_result t r w) w') as Hfail.
  { intros w' Hn Hw Hf. wp_step. apply wp_unlock; [by left|]. wp_step. rewrite set_lock_twice.
    by rewrite set_lock_unlocked. }
  destruct (pfx_table_get_root t v) as [|e0 l0 r0] eqn:Hroot.
  - wp_step. eapply wp_mono; [apply create_node_spec|]. intros [err node] w1 [Hw1 Hc].
    assert (r ∉ records t) as Hn.
    { eapply not_in_tree; [done|reflexivity|exact Hroot|apply not_elem_of_nil]. }
    destruct Hc as [[-> ->]|[-> Hf]]; simpl decide.
    + rewrite decide_False by done. apply wp_commit. intros w2 Hw2.
      destruct (tree_singleton v r Hr). apply Hdone; try done. by eapply emits_quiet.
    + rewrite decide_True by done. by apply Hfail.
  - wp_step. assert (not_null (Node e0 l0 r0)) as Hnn by done.
    destruct (trie_lookup_exact_spec v _ _ _ Hr Hnn (proj1 Htree))
      as (p & found & Hlook & Hfits & Hfound).
    eapply wp_of_option; [exact Hlook|]. destruct found.
    + destruct Hfound as (e & l & rr & Hsub & Hk). do 2 wp_step. wp_step.
      assert (node_at (Node e0 l0 r0) p = Some e) as Hat by (unfold node_at; by rewrite Hsub).
      eapply wp_of_option; [exact Hat|]. pose proof (find_elem_spec (data e) r) as Hfe.
      pose proof (node_at_ok _ _ _ _ Htree Hat) as [Hin _].
      destruct (pfx_table_find_elem (data e) r) as [i|].
      * wp_step. apply wp_unlock; [by left|]. wp_step. rewrite set_lock_twice, set_lock_unlocked by done.
        split_and!; try done; [|apply emits_refl]. apply elem_of_records; [done|].
        fold v. rewrite Hroot. apply elem_of_tree_records. exists e. split_and!; try done.
        by eapply list_elem_of_lookup_2.
      * assert (r ∉ records t) as Hn.
        { rewrite elem_of_records by done. fold v. rewrite Hroot.
          intros (e' & He' & Hk' & Hx)%elem_of_tree_records.
          rewrite (tree_key_unique v 0 (Node e0 l0 r0) e' e) in Hx; try done; [apply Htree|by rewrite Hk', Hk]. }
        wp_step. eapply wp_mono; [apply append_elem_spec|]. intros [err nd] w1 [Hw1 Hc].
        destruct Hc as [[-> ->]|(-> & -> & Hf)].
        -- destruct (tree_add_elem v _ p e r Htree Hat Hk Hfe) as (root' & Hu & Hok' & Hp').
           wp_step. eapply wp_of_option; [exact Hu|].
           apply wp_commit. intros w2 Hw2. apply Hdone; try done. by eapply emits_quiet.
        -- wp_step. eapply wp_of_option; [by apply set_node_data_same|].
           rewrite <- Hroot, <- (get_root_set_lock t WriteLocked), set_root_same. by apply Hfail.
    + wp_step. eapply wp_mono; [apply create_node_spec|]. intros [err node] w1 [Hw1 Hc].
      assert (r ∉ records t) as Hn by (by eapply not_in_tree).
      destruct Hc as [[-> ->]|[-> Hf]].
      * rewrite decide_False by done. do 2 wp_step.
        destruct (tree_add_node v _ p r Htree Hr Hfits Hfound) as (root' & Hu & Hok' & Hp').
        wp_step. eapply wp_of_option; [exact Hu|]. apply wp_commit. intros w2 Hw2.
        apply Hdone; try done. by eapply emits_quiet.
      * rewrite decide_True by done. by apply Hfail.
Qed.

(** The outcomes of [rtr_pfx_table_remove]. *)
Definition remove_result t r w (res : rtr_pfx_rtvals * rtr_pfx_table) w' : Prop :=
  let '(rtval, t') := res in
  table_ok t' ∧ update_fp t' = update_fp t ∧
  match rtval with
  | RTR_PFX_SUCCESS =>
      records t ≡ₚ r :: records t' ∧ emits w (notification t r RTR_PFX_REMOVE) w'
  | RTR_PFX_RECORD_NOT_FOUND => r ∉ records t ∧ t' = t ∧ emits w [] w'
  | RTR_PFX_ERROR => r ∈ records t ∧ records t' ≡ₚ records t ∧ emits w [] w' ∧ ¬ no_fail w
  | _ => False
  end.

(** A record of a node of its tree is a record of the table. *)
Lemma in_tree t r e i :
  table_ok t → e ∈ entries (pfx_table_get_root t (ver (rec_prefix r))) → key e = record_key r →
  data e !! i = Some (elem_of_record r) → r ∈ records t.
Proof.
  intros Hok He Hk Hi. apply elem_of_records; [done|]. apply elem_of_tree_records.
  exists e. split_and!; try done. by eapply list_elem_of_lookup_2.
Qed.

(** A record whose node does not hold it is not in the table. *)
Lemma not_in_node t r e :
  table_ok t → e ∈ entries (pfx_table_get_root t (ver (rec_prefix r))) → key e = record_key r →
  elem_of_record r ∉ data e → r ∉ records t.
Proof.
  intros Hok He Hk Hn. rewrite elem_of_records by done.
  intros (e' & He' & Hk' & Hx)%elem_of_tree_records.
  pose proof (table_ok_tree t (ver (rec_prefix r)) Hok) as [Hi _].
  rewrite (tree_key_unique _ _ _ _ _ Hi He' He) in Hx; [done|]. by rewrite Hk', Hk.
Qed.

(** The node loses the element [i]. *)
Lemma remove_success t r w w1 p e i :
  let v := ver (rec_prefix r) in
  let root := pfx_table_get_root t v in
  table_ok t → node_at root p = Some e → key e = record_key r →
  data e !! i = Some (elem_of_record r) → emits w [] w1 →
  ∃ root1, update_at root p (set_node_data (delete i (data e))) = Some root1 ∧
    wp (root ← match delete i (data e) with
               | [] =>
                   '(s, rm) ← of_option (pfx_table_drop_node (subtree root1 p) (negb (is_nil p))
                     (rec_prefix r) (min_len r) (Z.of_nat (length p)));
                   root ← of_option (update_at root1 p (λ _, Some s));
                   mret (if is_nil (p ++ rm) then NULL else root)
               | _ => mret root1
               end;
        t ← pthread_rwlock_unlock (set_root (set_lock t WriteLocked) v root);
        pfx_table_notify_clients t r RTR_PFX_REMOVE;;
        mret (RTR_PFX_SUCCESS, t)) (remove_result t r w) w1.
Proof.
  intros v root Hok Hat Hk Hi Hw1. pose proof (table_ok_tree t v Hok) as Htree.
  pose proof (records_split t v) as Hrec.
  assert (∀ root' w', tree_ok v root' → tree_records root ≡ₚ r :: tree_records root' →
    emits w1 (notification t r RTR_PFX_REMOVE) w' →
    remove_result t r w (RTR_PFX_SUCCESS, set_lock (set_root t v root') Unlocked) w') as Hdone.
  { intros root' w' Hok' Hp Hw. split_and!;
      [by apply table_ok_set_root|by destruct v| |by eapply emits_quiet]. fold root in Hrec. by rewrite records_set_root, Hrec, Hp. }
  destruct (delete i (data e)) as [|x nd] eqn:Hd.
  - pose proof (delete_Permutation _ _ _ Hi) as Hp. rewrite Hd in Hp.
    apply Permutation_singleton_r in Hp. pose proof Htree as [[_ Hs] _].
    destruct (set_data_at root p e [] Hs Hat) as (root1 & _ & _ & _ & Hu & _).
    destruct (tree_del_node v root p e r root1) as (s & q & root2 & Hdrop & Hu2 & Hok' & Hp'); try done.
    exists root1. split; [done|]. do 2 wp_step. eapply wp_of_option; [exact Hdrop|].
    wp_step. eapply wp_of_option; [exact Hu2|]. wp_step. apply wp_commit. auto.
  - destruct (tree_del_elem v root p e r i) as (root' & Hu & Hok' & Hp'); try done; [by rewrite Hd|].
    rewrite Hd in Hu. exists root'. split; [done|]. do 2 wp_step. apply wp_commit. auto.
Qed.

Lemma rtr_pfx_table_remove_spec t r w :
  table_ok t → record_ok r → wp (rtr_pfx_table_remove t r) (remove_result t r w) w.
Proof.
  intros Hok Hr. pose proof Hok as (_ & _ & Hl). unfold rtr_pfx_table_remove.
  wp_step. apply wp_wrlock; [done|]. cbv zeta. rewrite get_root_set_lock.
  set (v := ver (rec_prefix r)). pose proof (table_ok_tree t v Hok) as Htree.
  assert (∀ w', r ∉ records t → emits w [] w' →
    wp (t ← pthread_rwlock_unlock (set_lock t WriteLocked); mret (RTR_PFX_RECORD_NOT_FOUND, t))
      (remove_result t r w) w') as Hmiss.
  { intros w' Hn Hw. wp_step. apply wp_unlock; [by left|]. wp_step. rewrite set_lock_twice.
    by rewrite set_lock_unlocked. }
  destruct (pfx_table_get_root t v) as [|e0 l0 r0] eqn:Hroot.
  { wp_step. eapply wp_of_option; [reflexivity|]. apply Hmiss; [|apply emits_refl].
    eapply not_in_tree; [done|reflexivity|exact Hroot|apply not_elem_of_nil]. }
  assert (not_null (Node e0 l0 r0)) as Hnn by done. rewrite <- Hroot in *.
  destruct (trie_lookup_exact_spec v _ _ _ Hr Hnn (proj1 Htree)) as (p & found & Hlook & _ & Hfound).
  wp_step. eapply wp_of_option; [exact Hlook|]. destruct found; simpl negb; cbv iota.
  2:{ apply Hmiss; [by apply (not_in_tree v t r (pfx_table_get_root t v))|apply emits_refl]. }
  destruct Hfound as (e & l & rr & Hsub & Hk). do 2 wp_step. wp_step.
  assert (node_at (pfx_table_get_root t v) p = Some e) as Hat by (unfold node_at; by rewrite Hsub).
  eapply wp_of_option; [exact Hat|]. pose proof (find_elem_spec (data e) r) as Hfe.
  pose proof (node_at_ok _ _ _ _ Htree Hat) as [Hin [Hne Hnd]].
  destruct (pfx_table_find_elem (data e) r) as [i|].
  2:{ apply Hmiss; [by eapply not_in_node|apply emits_refl]. }
  wp_step. eapply wp_mono; [by eapply del_elem_spec|]. intros [err nd] w1 [Hw1 Hc].
  destruct Hc as [[-> ->]|(-> & Hp & Hf)].
  - destruct (remove_success t r w w1 p e i Hok Hat Hk Hfe Hw1) as (root1 & Hu & Hwp).
    wp_step. eapply wp_of_option; [exact Hu|]. rewrite decide_False by done.
    exact Hwp.
  - destruct (tree_set_data v _ p e nd Htree Hat) as (root' & rest & Hu & Hok' & Hr1 & Hr2).
    { intros ->. by apply Permutation_nil_l in Hp. }
    { by rewrite Hp. }
    wp_step. eapply wp_of_option; [exact Hu|]. rewrite decide_True by done.
    wp_step. apply wp_unlock; [left; by rewrite lock_set_root|]. wp_step.
    rewrite set_lock_set_root. split_and!; try done.
    + by apply table_ok_set_root.
    + by destruct v.
    + by eapply in_tree.
    + by rewrite records_set_root, (records_split t v), Hr1, Hr2, Hp.
Qed.

(** ** Origin validation *)

Definition entry_records (es : list (trie_entry node_data)) : list rtr_pfx_record :=
  es ≫= λ e, record_of e <$> data e.

(** The records whose prefix covers a route. *)
Definition covering_records t (pfx : rtr_ip_addr) (prefix_len : Z) : list rtr_pfx_record :=
  filter (λ r, covers (record_key r) pfx prefix_len) (records t).

(** RFC 6811: a record matches a route it covers if the origin is its AS number,
    which is not zero, and the route is not longer than its maximum length. *)
Definition rov_match (origin prefix_len : Z) r : bool :=
  negb (asn r =? 0) && (asn r =? origin) && (prefix_len <=? max_len r).

(** RFC 6811: the validity state of a route given the records that cover it. *)
Definition rov_state (origin prefix_len : Z) (rs : list rtr_pfx_record) : rtr_pfxv_state :=
  if existsb (rov_match origin prefix_len) rs then RTR_BGP_PFXV_STATE_VALID
  else match rs with [] => RTR_BGP_PFXV_STATE_NOT_FOUND | _ => RTR_BGP_PFXV_STATE_INVALID end.

Lemma rov_state_perm o n rs rs' : rs ≡ₚ rs' → rov_state o n rs = rov_state o n rs'.
Proof.
  intros Hp. unfold rov_state. rewrite (existsb_perm _ _ _ Hp).
  destruct rs as [|x rs]; [apply Permutation_nil_l in Hp; by subst|].
  destruct rs'; [|done]. by apply Permutation_nil_r in Hp.
Qed.

Lemma elem_matches_spec e o n :
  pfx_table_elem_matches (data e) o n = existsb (rov_match o n) (record_of e <$> data e).
Proof. unfold pfx_table_elem_matches. by induction (data e) as [|x nd IH]; simpl; [|rewrite IH]. Qed.

Lemma filter_entry_records pfx n es :
  filter (λ r, covers (record_key r) pfx n) (entry_records es) = entry_records (covering pfx n es).
Proof.
  induction es as [|e es IH]; [done|].
  change (entry_records (e :: es)) with ((record_of e <$> data e) ++ entry_records es).
  rewrite filter_app, IH. unfold covering. rewrite filter_cons.
  assert (∀ nd, filter (λ r, covers (record_key r) pfx n) (record_of e <$> nd) =
    if decide (covers (key e) pfx n) then record_of e <$> nd else []) as ->.
  { intros nd. induction nd as [|x nd IHn]; [by case_decide|].
    rewrite fmap_cons, filter_cons, record_key_of, IHn. by case_decide. }
  by case_decide.
Qed.

(** Only the tree of its family covers a route. *)
Lemma covering_records_tree t pfx n :
  table_ok t →
  covering_records t pfx n ≡ₚ
    entry_records (covering pfx n (entries (pfx_table_get_root t (ver pfx)))).
Proof.
  intros Hok. unfold covering_records. rewrite (records_split t (ver pfx)), filter_app.
  unfold tree_records at 1. fold (entry_records (entries (pfx_table_get_root t (ver pfx)))).
  rewrite filter_entry_records. replace (filter _ (tree_records _)) with (@nil rtr_pfx_record);
    [by rewrite app_nil_r|]. symmetry. apply filter_none.
  intros r Hr [_ [Hv _]]. apply (tree_records_version _ _ _ (table_ok_tree t _ Hok)) in Hr.
  simpl in Hv. rewrite Hr in Hv. by destruct (ver pfx).
Qed.

Lemma node2pfx_record_spec e :
  pfx_table_node2pfx_record e (length (data e)) = Some (record_of e <$> data e).
Proof. unfold pfx_table_node2pfx_record. by rewrite Nat.ltb_irrefl. Qed.

Lemma add_reason_spec want reason e w :
  wp (pfx_table_add_reason want reason e) (λ res w', emits w [] w' ∧
    match res with
    | Some reason' => reason' = reason ++ if want then record_of e <$> data e else []
    | None => want = true ∧ ¬ no_fail w
    end) w.
Proof.
  unfold pfx_table_add_reason. destruct want.
  - do 2 wp_step. destruct b; simpl; wp_step; [|auto]. by rewrite node2pfx_record_spec.
  - wp_step. by rewrite app_nil_r; auto using emits_refl.
Qed.

(** The outcomes of [rtr_pfx_table_validate_r]: the reasons given for an invalid
    route are all records that cover it, those for a valid one include a match. *)
Definition validate_result t (want_reason : bool) (o : Z) (pfx : rtr_ip_addr) (n : Z) w
    (res : validation) w' : Prop :=
  let '(rtval, result, reason, t') := res in
  let cov := covering_records t pfx n in
  t' = t ∧ emits w [] w' ∧
  match rtval with
  | RTR_PFX_SUCCESS =>
      result = Some (rov_state o n cov) ∧
      (want_reason = false → reason = []) ∧
      (want_reason = true → rov_state o n cov ≠ RTR_BGP_PFXV_STATE_VALID → reason ≡ₚ cov) ∧
      (want_reason = true → rov_state o n cov = RTR_BGP_PFXV_STATE_VALID →
         (∃ rest, cov ≡ₚ reason ++ rest) ∧ existsb (rov_match o n) reason = true)
  | RTR_PFX_ERROR => want_reason = true ∧ ¬ no_fail w ∧ result = None ∧ reason = []
  | _ => False
  end.

(** The state the loop has reached: the node covers the route, [before] are the
    covering entries above it, none of which matches. *)
Definition validating (o : Z) (pfx : rtr_ip_addr) (n : Z) (cov before : list (trie_entry node_data))
    (node : trie_node node_data) (lvl : Z) : Prop :=
  match node with
  | NULL => False
  | Node e _ _ =>
      covers (key e) pfx n ∧ 0 <= lvl ∧ trie_inv (ver pfx) lvl node ∧
      lvl + height node <= width (ver pfx) ∧
      cov ≡ₚ before ++ covering pfx n (entries node) ∧
      existsb (rov_match o n) (entry_records before) = false
  end.

Lemma entry_records_app es es' : entry_records (es ++ es') = entry_records es ++ entry_records es'.
Proof. apply bind_app. Qed.

Lemma entry_records_cons e es :
  entry_records (e :: es) = (record_of e <$> data e) ++ entry_records es.
Proof. done. Qed.

Lemma validate_valid t (want : bool) o pfx n w w' e es rest :
  covering_records t pfx n ≡ₚ entry_records (es ++ e :: rest) →
  existsb (rov_match o n) (record_of e <$> data e) = true → emits w [] w' →
  validate_result t want o pfx n w
    (RTR_PFX_SUCCESS, Some RTR_BGP_PFXV_STATE_VALID,
     if want then entry_records (es ++ [e]) else [], t) w'.
Proof.
  intros Hc Hm Hw. assert (existsb (rov_match o n) (entry_records (es ++ [e])) = true) as Hm'.
  { rewrite entry_records_app, existsb_app, entry_records_cons, existsb_app, Hm. simpl.
    by rewrite orb_true_r. }
  assert (rov_state o n (covering_records t pfx n) = RTR_BGP_PFXV_STATE_VALID) as Hs.
  { rewrite (rov_state_perm _ _ _ _ Hc). unfold rov_state.
    by rewrite cons_middle, app_assoc, entry_records_app, existsb_app, Hm'. }
  unfold validate_result. rewrite Hs. split_and!; try done; [by intros ->|].
  intros -> _. split; [|done]. exists (entry_records rest). rewrite Hc, cons_middle, app_assoc. by rewrite entry_records_app.
Qed.

Lemma validate_invalid t (want : bool) o pfx n w w' e es :
  covering_records t pfx n ≡ₚ entry_records (es ++ [e]) → data e ≠ [] →
  existsb (rov_match o n) (entry_records es) = false →
  existsb (rov_match o n) (record_of e <$> data e) = false → emits w [] w' →
  validate_result t want o pfx n w
    (RTR_PFX_SUCCESS, Some RTR_BGP_PFXV_STATE_INVALID,
     if want then entry_records (es ++ [e]) else [], t) w'.
Proof.
  intros Hc Hd Hn Hm Hw.
  assert (rov_state o n (covering_records t pfx n) = RTR_BGP_PFXV_STATE_INVALID) as Hs.
  { rewrite (rov_state_perm _ _ _ _ Hc). unfold rov_state.
    rewrite entry_records_app, existsb_app, Hn, entry_records_cons, existsb_app, Hm. simpl.
    destruct (data e); [done|]. simpl. by destruct (entry_records es). }
  unfold validate_result. rewrite Hs. split_and!; try done; [by intros ->|by intros ->].
Qed.

Lemma validate_loop_spec t fuel node lvl before (want : bool) o pfx n w w1 :
  let cov := covering pfx n (entries (pfx_table_get_root t (ver pfx))) in
  table_ok t → valid_addr pfx → validating o pfx n cov before node lvl → (size node <= fuel)%nat →
  emits w [] w1 →
  match node with
  | NULL => True
  | Node e _ _ =>
      wp (pfx_table_validate_loop fuel (set_lock t (ReadLocked 0)) node lvl want
            (if want then entry_records (before ++ [e]) else []) o pfx n)
        (validate_result t want o pfx n w) w1
  end.
Proof.
  intros cov Hok Hval. pose proof (covering_records_tree t pfx n Hok) as Hcr. fold cov in Hcr.
  pose proof Hok as (_ & _ & Hl). revert node lvl before w1.
  induction fuel as [|fuel IH]; intros [|e l r] lvl before w1 Hv Hf Hw1; try done; [simpl in Hf; lia|].
  destruct Hv as (Hc & Hlvl & Hi & Hh & Hp & Hn). cbn [pfx_table_validate_loop].
  rewrite (covering_children _ _ _ _ _ _ _ Hlvl Hi Hc) in Hp.
  pose proof (trie_inv_children _ _ _ _ _ Hi) as [Hil Hir]. cbn [height] in Hh.
  pose proof (height_nonneg l). pose proof (height_nonneg r).
  assert (data e ≠ []) as Hd.
  { assert (e ∈ cov) as He by (rewrite Hp; apply elem_of_app; right; left).
    apply list_elem_of_filter in He as [_ He].
    pose proof (table_ok_tree t (ver pfx) Hok) as [_ Ho]. rewrite Forall_forall in Ho.
    by apply Ho. }
  destruct (pfx_table_elem_matches (data e) o n) eqn:Hm; rewrite elem_matches_spec in Hm.
  { wp_step. apply wp_unlock; [by right|]. wp_step. rewrite set_lock_twice, set_lock_unlocked by done.
    eapply validate_valid; [|done|done]. by rewrite Hcr; unfold entry_records; rewrite Hp. }
  destruct (get_bits_single_zero pfx lvl) as (x & Hx & Hz); [done|lia|].
  pose proof (width_bound (ver pfx)). rewrite u8_small by lia.
  wp_step. eapply wp_of_option; [exact Hx|]. rewrite Hz.
  destruct (trie_lookup_spec (ver pfx) (if addr_bit pfx lvl then r else l) pfx n (lvl + 1))
    as (s & lvl' & Hlook & Hlu); try done; [lia|by destruct (addr_bit pfx lvl)|destruct (addr_bit pfx lvl); lia|].
  pose proof (trie_lookup_size _ _ _ _ _ _ Hlook) as Hsz.
  replace (if negb (addr_bit pfx lvl) then l else r) with (if addr_bit pfx lvl then r else l)
    by by destruct (addr_bit pfx lvl).
  wp_step. eapply wp_of_option; [exact Hlook|].
  rewrite (covering_lookup (ver pfx) _ pfx n (lvl + 1) s lvl') in Hp;
    [|by destruct (addr_bit pfx lvl)|done].
  destruct s as [|e' l' r'].
  { wp_step. apply wp_unlock; [by right|]. wp_step. rewrite set_lock_twice, set_lock_unlocked by done.
    apply validate_invalid; try done. by rewrite Hcr; unfold entry_records; rewrite Hp. }
  wp_step. eapply wp_mono; [apply add_reason_spec|]. intros [reason|] w2 [Hw2 Hres].
  - destruct Hlu as (_ & _ & Hc' & Hlvl' & Hi' & Hh').
    replace reason with (if want then entry_records ((before ++ [e]) ++ [e']) else []).
    2:{ subst reason. destruct want; [|done]. by rewrite (entry_records_app _ [e']), entry_records_cons, app_nil_r. }
    apply (IH (Node e' l' r') lvl' (before ++ [e])); [|destruct (addr_bit pfx lvl); simpl in *; lia
      |by eapply emits_quiet].
    split_and!; try done; [lia|by rewrite <- app_assoc|].
    by rewrite entry_records_app, existsb_app, Hn, entry_records_cons, app_nil_r, Hm.
  - destruct Hres as [-> Hnf]. wp_step. apply wp_unlock; [by right|]. wp_step.
    rewrite set_lock_twice, set_lock_unlocked by done.
    split_and!; try done; [by eapply emits_quiet|eauto with rtr].
Qed.

Lemma validate_not_found t (want : bool) o pfx n w w' :
  covering_records t pfx n = [] → emits w [] w' →
  validate_result t want o pfx n w (RTR_PFX_SUCCESS, Some RTR_BGP_PFXV_STATE_NOT_FOUND, [], t) w'.
Proof. intros Hc Hw. unfold validate_result. by rewrite Hc. Qed.

Lemma rtr_pfx_table_validate_r_spec t want o pfx n w :
  table_ok t → valid_addr pfx →
  height (pfx_table_get_root t (ver pfx)) <= width (ver pfx) →
  wp (rtr_pfx_table_validate_r t want o pfx n) (validate_result t want o pfx n w) w.
Proof.
  intros Hok Hval Hh. pose proof Hok as (_ & _ & Hl). unfold rtr_pfx_table_validate_r.
  pose proof (covering_records_tree t pfx n Hok) as Hcr.
  pose proof (table_ok_tree t (ver pfx) Hok) as [Hi _].
  wp_step. apply wp_rdlock; [done|]. cbv zeta. rewrite get_root_set_lock.
  assert (covering_records t pfx n = [] →
    wp (t0 ← pthread_rwlock_unlock (set_lock t (ReadLocked 0));
        mret (RTR_PFX_SUCCESS, Some RTR_BGP_PFXV_STATE_NOT_FOUND, pfx_table_free_reason, t0))
      (validate_result t want o pfx n w) w) as Hnone.
  { intros Hc. wp_step. apply wp_unlock; [by right|]. wp_step.
    rewrite set_lock_twice, set_lock_unlocked by done. apply validate_not_found; auto with rtr. }
  destruct (pfx_table_get_root t (ver pfx)) as [|e0 l0 r0] eqn:Hroot.
  { apply Hnone. by apply Permutation_nil_r in Hcr. }
  destruct (trie_lookup_spec (ver pfx) _ pfx n 0 eq_refl Hval (Z.le_refl 0) Hi)
    as (s & lvl & Hlook & Hlu); [lia|].
  pose proof (covering_lookup _ _ _ _ _ _ _ Hi Hlu) as Hcov.
  pose proof (trie_lookup_size _ _ _ _ _ _ Hlook) as Hsz.
  wp_step. eapply wp_of_option; [exact Hlook|]. destruct s as [|e l r].
  { apply Hnone. apply Permutation_nil_r. rewrite Hcr. unfold entry_records. by rewrite Hcov. }
  destruct Hlu as (_ & _ & Hc & Hlvl & Hi' & Hh').
  wp_step. eapply wp_mono; [apply add_reason_spec|]. intros [reason|] w1 [Hw1 Hres].
  - replace reason with (if want then entry_records ([] ++ [e]) else [])
      by (subst reason; destruct want; [exact (app_nil_r _)|done]).
    apply (validate_loop_spec t _ (Node e l r) lvl []); try done. rewrite Hroot. by split_and!.
  - destruct Hres as [-> Hnf]. wp_step. apply wp_unlock; [by right|]. wp_step.
    by rewrite set_lock_twice, set_lock_unlocked.
Qed.

(** ** Removal of whole nodes *)

Lemma size_entries {D} (root : trie_node D) : size root = length (entries root).
Proof. induction root; simpl; [done|]. rewrite length_app. simpl. lia. Qed.

(** Taking the root out of a tree: its array goes to the node that is removed. *)
Lemma trie_remove_root lvl hp e (l r : trie_node node_data) :
  trie_shape lvl (Node e l r) →
  ∃ s q, trie_remove (Node e l r) hp (prefix e) (len e) lvl = Some (s, Some (q, data e)) ∧
    if is_nil q then entries l ++ entries r = []
    else not_null s ∧ entries s ≡ₚ entries l ++ entries r ∧ trie_shape lvl s.
Proof.
  intros Hs. destruct (trie_remove_from_root (Node e l r) lvl (data e) hp Hs) as (s & q & Hr & Ht).
  exists s, q. split; [done|]. destruct (trie_is_leaf _) eqn:Hleaf.
  - destruct Ht as [-> _]. by destruct l, r.
  - destruct Ht as (Hq & Hn & Hp & Hs'). destruct q; [done|]. simpl. by split_and!.
Qed.

Lemma drop_root lvl hp e (l r : trie_node node_data) :
  trie_shape lvl (Node e l r) → data e = [] →
  ∃ s q, pfx_table_drop_node (Node e l r) hp (prefix e) (len e) lvl = Some (s, q) ∧
    if is_nil q then entries l ++ entries r = []
    else not_null s ∧ entries s ≡ₚ entries l ++ entries r ∧ trie_shape lvl s.
Proof.
  intros Hs Hd. destruct (trie_remove_root lvl hp e l r Hs) as (s & q & Hr & Ht).
  exists s, q. split; [|done]. unfold pfx_table_drop_node. rewrite Hr, Hd. simpl.
  by rewrite assert_true.
Qed.

(** What the client is told when [rs] are removed. *)
Definition removals t (rs : list rtr_pfx_record) : list E :=
  rs ≫= λ r, notification t r RTR_PFX_REMOVE.

Lemma removals_app t rs rs' : removals t (rs ++ rs') = removals t rs ++ removals t rs'.
Proof. apply bind_app. Qed.

Lemma emits_removals t rs rs' w w' w'' :
  emits w (removals t rs) w' → emits w' (removals t rs') w'' → emits w (removals t (rs ++ rs')) w''.
Proof. rewrite removals_app. apply emits_trans. Qed.

(** ** Removal of the records of a cache *)

Lemma remove_id_elems_spec t e sock fuel i nd w :
  (length nd <= i + fuel)%nat →
  (∀ j x, (j < i)%nat → nd !! j = Some x → e_socket x ≠ sock) →
  wp (pfx_table_remove_id_elems fuel t e sock i nd) (λ '(err, nd') w', ∃ gone,
    nd ≡ₚ gone ++ nd' ∧ Forall (λ x, e_socket x = sock) gone ∧
    emits w (removals t (record_of e <$> gone)) w' ∧
    ((err = RTR_PFX_SUCCESS ∧ Forall (λ x, e_socket x ≠ sock) nd') ∨
     (err = RTR_PFX_ERROR ∧ nd' ≠ [] ∧ ¬ no_fail w))) w.
Proof.
  revert i nd w. induction fuel as [|fuel IH]; intros i nd w Hlen Hlt; simpl.
  - rewrite lookup_ge_None_2 by lia. wp_step. exists []. split_and!; [done|done|apply emits_refl|].
    left. split; [done|]. apply Forall_lookup. intros j x Hj. eapply Hlt, Hj.
    apply lookup_lt_Some in Hj. lia.
  - destruct (nd !! i) as [x|] eqn:Hi.
    2:{ wp_step. exists []. split_and!; [done|done|apply emits_refl|]. left. split; [done|].
        apply Forall_lookup. intros j x Hj. eapply Hlt, Hj.
        apply lookup_lt_Some in Hj. apply lookup_ge_None in Hi. lia. }
    case_decide as Hx.
    + wp_step. eapply wp_mono; [by eapply del_elem_spec|]. intros [err nd'] w1 [Hw1 Hc].
      destruct Hc as [[-> ->]|(-> & Hp & Hf)].
      * rewrite decide_False by done. wp_step. apply wp_notify. intros w2 Hw2.
        eapply wp_mono; [apply IH|].
        -- apply lookup_lt_Some in Hi as ?. rewrite length_delete by done. lia.
        -- intros j y Hj. rewrite list_lookup_delete_lt by done. by apply Hlt.
        -- intros [err nd''] w3 (gone & Hp & Hg & Hw3 & Hres). exists (x :: gone). split_and!.
           ++ simpl. by rewrite <- Hp, <- delete_Permutation.
           ++ by constructor.
           ++ eapply emits_trans; [|exact Hw3]. by eapply emits_quiet.
           ++ destruct Hres as [?|(? & ? & ?)]; [by left|right]. eauto with rtr.
      * rewrite decide_True by done. wp_step. exists []. split_and!; [done|done|done|].
        right. split_and!; try done. intros ->. apply Permutation_nil_l in Hp. by subst.
    + apply IH; [lia|]. intros j y Hj Hy. destruct (decide (j = i)) as [->|]; [congruence|].
      eapply Hlt, Hy. lia.
Qed.

(** What [pfx_table_remove_id] does to the tree below a node at depth [lvl]; an
    error has a cause, [bad]. *)
Definition remove_id_result (bad : Prop) t sock lvl (node : trie_node node_data) w
    (res : rtr_pfx_rtvals * trie_node node_data) w' : Prop :=
  let '(rtval, node') := res in
  ∃ gone gone_keys,
    entry_records (entries node) ≡ₚ gone ++ entry_records (entries node') ∧
    Forall (λ r, socket r = sock) gone ∧ emits w (removals t gone) w' ∧
    (key <$> entries node) ≡ₚ gone_keys ++ (key <$> entries node') ∧
    trie_shape lvl node' ∧ Forall node_ok (entries node') ∧
    match rtval with
    | RTR_PFX_SUCCESS => Forall (λ r, socket r ≠ sock) (entry_records (entries node'))
    | RTR_PFX_ERROR => bad
    | _ => False
    end.

(** Fewer keys below a node stay on their side of it. *)
Lemma side_ok_fewer lvl e b (es es' : list (trie_entry node_data)) gone :
  (key <$> es) ≡ₚ gone ++ (key <$> es') → side_ok lvl e b es → side_ok lvl e b es'.
Proof.
  unfold side_ok. rewrite !Forall_forall. intros Hp Hs e' He'.
  assert (key e' ∈ (key <$> es)) as (e0 & Hk & He0)%list_elem_of_fmap.
  { rewrite Hp. apply elem_of_app. right. by apply list_elem_of_fmap_2. }
  injection Hk as -> ->. by apply Hs.
Qed.

(** The result for a node from those for its array and its children. *)
Lemma remove_id_node (bad : Prop) t sock lvl (e : trie_entry node_data) (l r : trie_node node_data) gone nd rl rr
    (l' r' : trie_node node_data) w w1 w2 w3 :
  trie_shape lvl (Node e l r) → node_ok e → nd ≠ [] →
  data e ≡ₚ gone ++ nd → Forall (λ x, e_socket x = sock) gone →
  emits w (removals t (record_of e <$> gone)) w1 →
  Forall (λ x, e_socket x ≠ sock) nd ∨ rr = RTR_PFX_ERROR →
  remove_id_result bad t sock (lvl + 1) l w1 (rl, l') w2 →
  remove_id_result bad t sock (lvl + 1) r w2 (rr, r') w3 →
  rl = RTR_PFX_SUCCESS ∨ rr = RTR_PFX_ERROR →
  remove_id_result bad t sock lvl (Node e l r) w (rr, Node (set_data e nd) l' r') w3.
Proof.
  intros (He & Hl & Hr & _)%trie_shape_node [_ Hnd] Hne Hp Hg Hw1 Hk
    (g1 & k1 & Hp1 & Hg1 & He1 & Hk1 & Hs1 & Ho1 & Hr1) (g2 & k2 & Hp2 & Hg2 & He2 & Hk2 & Hs2 & Ho2 & Hr2) Hrl.
  exists ((record_of e <$> gone) ++ g1 ++ g2), (k1 ++ k2). split_and!.
  - simpl. rewrite !entry_records_app, !entry_records_cons, Hp1, Hp2, Hp, fmap_app. simpl.
    change (record_of (set_data e nd) <$> nd) with (record_of e <$> nd). solve_Permutation.
  - rewrite !Forall_app, Forall_fmap. by split_and!.
  - repeat (eapply emits_removals; [done|]). done.
  - simpl. rewrite !fmap_app, !fmap_cons, Hk1, Hk2. change (key (set_data e nd)) with (key e).
    solve_Permutation.
  - apply trie_shape_node. split_and!; try done.
    + by apply (side_ok_fewer lvl (set_data e nd) _ _ _ _ Hk1).
    + by apply (side_ok_fewer lvl (set_data e nd) _ _ _ _ Hk2).
  - simpl. apply Forall_app. split; [done|]. constructor; [|done]. split; [done|].
    simpl. rewrite Hp in Hnd. by apply NoDup_app in Hnd as (_ & _ & ?).
  - destruct rr; try done. destruct Hk as [Hk|?], Hrl as [->|?]; try done.
    simpl. rewrite entry_records_app, entry_records_cons, !Forall_app, Forall_fmap. by split_and!.
Qed.

Lemma remove_id_same (bad : Prop) t sock lvl (node : trie_node node_data) w :
  trie_shape lvl node → Forall node_ok (entries node) → bad →
  remove_id_result bad t sock lvl node w (RTR_PFX_ERROR, node) w.
Proof. intros ???. exists [], []. split_and!; try done. apply emits_refl. Qed.

(** A node without records is gone, the rest of its tree is looked at again. *)
Lemma remove_id_again (bad : Prop) t sock lvl (e : trie_entry node_data) (l r s : trie_node node_data)
    gone w w1 res w2 :
  data e ≡ₚ gone → Forall (λ x, e_socket x = sock) gone →
  emits w (removals t (record_of e <$> gone)) w1 →
  entries s ≡ₚ entries l ++ entries r →
  remove_id_result bad t sock lvl s w1 res w2 →
  remove_id_result bad t sock lvl (Node e l r) w res w2.
Proof.
  intros Hd Hg Hw1 Hp. destruct res as [rtval node'].
  intros (g & k & Hp' & Hg' & Hw2 & Hk & Hs & Ho & Hr).
  exists ((record_of e <$> gone) ++ g), (key e :: k). split_and!; try done.
  - rewrite <- app_assoc, <- Hp'. unfold entry_records at 2. rewrite Hp.
    fold (entry_records (entries l ++ entries r)). simpl.
    rewrite !entry_records_app, entry_records_cons, Hd. solve_Permutation.
  - apply Forall_app. split; [|done]. by apply Forall_fmap.
  - by eapply emits_removals.
  - simpl. rewrite <- Hk, Hp, !fmap_app, fmap_cons. solve_Permutation.
Qed.

Lemma remove_id_spec (bad : Prop) t sock fuel hp (node : trie_node node_data) lvl w :
  not_null node → (size node <= fuel)%nat → trie_shape lvl node → Forall node_ok (entries node) →
  (¬ no_fail w → bad) →
  wp (pfx_table_remove_id fuel t hp node sock lvl) (remove_id_result bad t sock lvl node w) w.
Proof.
  revert hp node lvl w. induction fuel as [|fuel IH]; intros hp [|e l r] lvl w Hn Hf Hs Ho Hbad;
    try done; [simpl in Hf; lia|].
  assert (∀ c w', (size c <= fuel)%nat → trie_shape (lvl + 1) c → Forall node_ok (entries c) →
    (¬ no_fail w' → bad) →
    wp (match c with
        | NULL => mret (RTR_PFX_SUCCESS, NULL)
        | Node _ _ _ => pfx_table_remove_id fuel t true c sock (lvl + 1)
        end) (remove_id_result bad t sock (lvl + 1) c w') w') as Hchild.
  { intros [|ce cl cr] w' Hfc Hsc Hoc Hb; [|by apply IH]. wp_step. exists [], [].
    split_and!; try done. apply emits_refl. }
  pose proof Hs as (_ & _ & _ & Hsl & Hsr)%trie_shape_node. simpl in Ho, Hf.
  apply Forall_app in Ho as [Hol [Hoe Hor]%Forall_cons].
  cbn [pfx_table_remove_id]. wp_step.
  eapply wp_mono; [apply remove_id_elems_spec; [done|intros; lia]|].
  intros [err nd] w1 (gone & Hp & Hg & Hw1 & Hres). cbv zeta.
  destruct Hres as [[-> Hk]|(-> & Hne & Hnf)].
  2:{ rewrite decide_True by done. wp_step.
      eapply remove_id_node; try done; try (by right); by apply remove_id_same; auto. }
  rewrite decide_False by done. destruct nd as [|x nd].
  - rewrite app_nil_r in Hp. destruct (drop_root lvl hp (set_data e []) l r) as (s & q & Hd & Hq); try done.
    wp_step. eapply wp_of_option; [exact Hd|]. cbv beta iota.
    destruct (is_nil q).
    + wp_step. apply app_nil in Hq as [Hl Hr]. exists (record_of e <$> gone), [key e].
      simpl. rewrite Hl, Hr. split_and!; try done; [|by apply Forall_fmap].
      rewrite <- Hp. by unfold entry_records; simpl; rewrite app_nil_r.
    + destruct Hq as (Hnn & Hps & Hss).
      eapply wp_mono; [apply (IH hp s); try done; [| |eauto with rtr]|].
      * rewrite size_entries, Hps, length_app, <- !size_entries. lia.
      * rewrite Hps. by apply Forall_app.
      * intros res w2 Hres. by eapply remove_id_again.
  - wp_step. eapply wp_mono; [apply (Hchild l); try done; [lia|eauto with rtr]|].
    intros [rl l'] w2 Hl. destruct (decide (rl = RTR_PFX_ERROR)) as [->|Hrl].
    + assert bad by by destruct Hl as (? & ? & _ & _ & _ & _ & _ & _ & ?).
      wp_step. eapply remove_id_node; try done; [by left|by apply remove_id_same|by right].
    + wp_step. eapply wp_mono; [apply (Hchild r); try done; [lia|]|].
      { intros Hnf. apply Hbad. destruct Hl as (? & ? & _ & _ & Hw2 & _). eauto with rtr. }
      intros [rr r'] w3 Hr. wp_step. eapply remove_id_node; try done; [by left|].
      left. destruct Hl as (? & ? & _ & _ & _ & _ & _ & _ & Hl). by destruct rl.
Qed.

End Operations.
