(* ===== verification/PfxLevels.v ===== *)
(** * The prefix table: the levels of a tree

    Which bits of an address a validation reads, and when it reads the bit after the
    last one. *)

From S2P Require Import Prelude Ip Trie PfxTable PfxTableProofs.

(** ** The levels that a validation reaches *)

Section Levels.
Context `{Build}.
Context {D : Type}.
Implicit Types (t : trie_node D) (pfx : rtr_ip_addr).

(** From level [lvl] on, the bits of [pfx] lead to a node [n] levels below the root. *)
Fixpoint leads (n : nat) pfx (lvl : Z) t : Prop :=
  match n, t with
  | _, NULL => False
  | O, Node _ _ _ => True
  | S n, Node _ l r => leads n pfx (lvl + 1) (if addr_bit pfx lvl then r else l)
  end.

Lemma height_levels v lvl t : trie_inv v lvl t → 0 <= lvl → t = NULL ∨ lvl + height t <= width v + 1.
Proof.
  revert lvl. induction t as [|e l IHl r IHr]; intros lvl Hi Hl; [by left|right].
  pose proof (trie_inv_children _ _ _ _ _ Hi) as [Hil Hir]. cbn [height].
  destruct Hi as [(Hk & _) (Hlen & _)]. rewrite Forall_forall in Hk.
  assert (len e <= width v) as He.
  { destruct (Hk (key e)) as (_ & _ & _ & ? & _); [|done]. apply list_elem_of_fmap_2. apply elem_of_app. right. left. }
  destruct (IHl (lvl + 1)) as [->|?]; [done|lia|..]; destruct (IHr (lvl + 1)) as [->|?]; try done; cbn [height] in *; lia.
Qed.

(** The prefix of the deepest entry leads to it. *)
Lemma leads_deep n lvl t : trie_shape lvl t → Z.of_nat n < height t → ∃ e, e ∈ entries t ∧ leads n (prefix e) lvl t.
Proof.
  revert n lvl. induction t as [|e l IHl r IHr]; intros n lvl Hs Hn; cbn [height] in Hn; [lia|]. cbn [entries].
  destruct n as [|n]; [exists e; split; [apply elem_of_app; right; left|done]|].
  destruct Hs as (_ & Hl & Hr & Hsl & Hsr). rewrite Forall_forall in Hl, Hr.
  destruct (decide (Z.of_nat n < height l)) as [Hh|Hh].
  - destruct (IHl n (lvl + 1)) as (e' & He' & Hle); [done..|]. exists e'. split; [apply elem_of_app; by left|].
    cbn [leads]. by rewrite (proj2 (Hl e' He')).
  - destruct (IHr n (lvl + 1)) as (e' & He' & Hle); [done|lia|]. exists e'. split; [apply elem_of_app; right; by right|].
    cbn [leads]. by rewrite (proj2 (Hr e' He')).
Qed.

(** The bit after the last one cannot be read, but for IPv6 where assertions are off. *)
Lemma get_bits_beyond pfx :
  ver pfx = RTR_IPV4 ∨ ndebug = false → rtr_ip_addr_get_bits pfx (u8 (width (ver pfx))) 1 = None.
Proof.
  destruct pfx as [a|a]; simpl.
  - intros _. unfold rtr_ipv4_get_bits, rtr_get_bits. rewrite !assert_true by done. simpl. done.
  - intros [?|Hn]; [done|]. unfold rtr_ipv6_get_bits, assert_. by rewrite Hn.
Qed.

Definition unreadable pfx : Prop := rtr_ip_addr_get_bits pfx (u8 (width (ver pfx))) 1 = None.

Lemma lookup_leads n pfx mask_len lvl t :
  valid_addr pfx → unreadable pfx → 0 <= lvl → leads n pfx lvl t → lvl + Z.of_nat n = width (ver pfx) →
  trie_lookup t pfx mask_len lvl = None ∨
  ∃ s lvl' n', trie_lookup t pfx mask_len lvl = Some (s, lvl') ∧ leads n' pfx lvl' s ∧ 0 <= lvl' ∧
    lvl' + Z.of_nat n' = width (ver pfx).
Proof.
  intros Hv Hu. revert n lvl. induction t as [|e l IHl r IHr]; intros n lvl Hl Hle Hn; [by destruct n|]. cbn [trie_lookup].
  match goal with |- context [mbind _ ?m] => destruct m as [[]|] end; [|simpl mbind|by left].
  { right. exists (Node e l r), lvl, n. done. }
  destruct n as [|n]; cbn [leads] in Hle.
  { left. simpl. unfold is_left_child. replace lvl with (width (ver pfx)) by lia. by rewrite Hu. }
  simpl. rewrite is_left_child_spec by (done || lia). simpl. destruct (addr_bit pfx lvl); simpl; [apply (IHr n)|apply (IHl n)]; done || lia.
Qed.

End Levels.

Section LevelsTable.
Context `{Build} {E : Type} `{!Event pfx_event E}.

Lemma elem_matches_as0 nd n : pfx_table_elem_matches nd 0 n = false.
Proof.
  unfold pfx_table_elem_matches. induction nd as [|x nd IH]; [done|]. simpl. rewrite IH.
  destruct (Z.eqb_spec (e_asn x) 0) as [_|_]; done.
Qed.

Lemma loop_leads fuel t n node lvl pfx prefix_len (w : world E) :
  valid_addr pfx → unreadable pfx → 0 <= lvl → leads n pfx lvl node → lvl + Z.of_nat n = width (ver pfx) →
  pfx_table_validate_loop fuel t node lvl false [] 0 pfx prefix_len w = None.
Proof.
  intros Hv Hu. revert n node lvl w. induction fuel as [|fuel IH]; intros n node lvl w Hl Hle Hn; [done|].
  destruct node as [|e l r]; [done|]. cbn [pfx_table_validate_loop]. rewrite elem_matches_as0. destruct n as [|n]; cbn [leads] in Hle.
  { rewrite M_bind_eval. replace lvl with (width (ver pfx)) by lia. by rewrite Hu. }
  pose proof (width_bound (ver pfx)). rewrite u8_small by lia.
  destruct (get_bits_single_zero pfx lvl) as (x & Hx & Hz); [done|lia|]. rewrite M_bind_eval, Hx. simpl of_option. cbv beta iota.
  rewrite Hz, M_bind_eval. replace (if negb (addr_bit pfx lvl) then l else r) with (if addr_bit pfx lvl then r else l) by by destruct (addr_bit pfx lvl).
  destruct (lookup_leads n pfx prefix_len (lvl + 1) (if addr_bit pfx lvl then r else l)) as [->|(s & lvl' & n' & -> & Hs & Hl' & Hn')]; try done; [lia..|].
  simpl. destruct s as [|e' l' r']; [by destruct n'|]. by apply (IH n').
Qed.

Lemma validate_leads t n pfx prefix_len (w : world E) :
  valid_addr pfx → unreadable pfx → leads n pfx 0 (pfx_table_get_root t (ver pfx)) → Z.of_nat n = width (ver pfx) →
  lock t = Unlocked → rtr_pfx_table_validate t 0 pfx prefix_len w = None.
Proof.
  intros Hv Hu Hle Hn Hlock. unfold rtr_pfx_table_validate, rtr_pfx_table_validate_r. rewrite M_bind_eval, M_bind_eval.
  assert (pthread_rwlock_rdlock t w = Some (set_lock t (ReadLocked 0), w)) as ->
    by (unfold pthread_rwlock_rdlock; by rewrite Hlock).
  cbv beta iota zeta. rewrite get_root_set_lock. destruct (pfx_table_get_root t (ver pfx)) as [|e l r] eqn:Hroot; [by destruct n|].
  rewrite M_bind_eval. destruct (lookup_leads n pfx prefix_len 0 (Node e l r)) as [->|(s & lvl' & n' & -> & Hs & Hl' & Hn')]; try done.
  cbn [of_option]. cbv beta iota. destruct s as [|e' l' r']; [by destruct n'|]. unfold pfx_table_add_reason.
  rewrite M_bind_eval. cbn [mret M_ret]. cbv beta iota. rewrite (loop_leads _ _ n') by done. done.
Qed.

(** A tree has at most one level more than an address has bits.  With that level some
    validation is undefined. *)
Lemma validate_deep_spec t v :
  table_ok t → v = RTR_IPV4 ∨ ndebug = false → width v < height (pfx_table_get_root t v) →
  ∃ pfx, ver pfx = v ∧ valid_addr pfx ∧ ∀ prefix_len (w : world E), rtr_pfx_table_validate t 0 pfx prefix_len w = None.
Proof.
  intros Hok Hb Hh. pose proof Hok as (_ & _ & Hl). destruct (table_ok_tree t v Hok) as [[(Hk & _) Hs] _].
  pose proof (width_bound v). destruct (leads_deep (Z.to_nat (width v)) 0 (pfx_table_get_root t v)) as (e & He & Hle); [done|lia|].
  rewrite Forall_forall in Hk. destruct (Hk (key e)) as (Hv & Hval & _); [by apply list_elem_of_fmap_2|]. simpl in Hv, Hval.
  exists (prefix e). split; [done|]. split; [done|]. intros n w. subst v.
  apply (validate_leads t (Z.to_nat (width (ver (prefix e))))); try done; [by apply get_bits_beyond|lia].
Qed.

End LevelsTable.
