(* ===== verification/PfxTableBulk.v ===== *)
(** * The prefix table: operations on all records

    [rtr_pfx_table_src_remove], [rtr_pfx_table_free], the enumerations, and the
    shadow tables a resynchronisation works with: [pfx_table_copy_except_socket],
    [pfx_table_swap] and [pfx_table_notify_diff]. *)

From S2P Require Import Prelude Ip Trie PfxTable PfxTableProofs.

Section Bulk.
Context `{Build} {E : Type} `{!Event pfx_event E}.
Implicit Types (t : rtr_pfx_table) (r : rtr_pfx_record) (w : world E).

Lemma records_ok t r : table_ok t → r ∈ records t → record_ok r.
Proof.
  intros Hok Hr. apply (elem_of_records t r Hok) in Hr. set (v := ver (rec_prefix r)) in *.
  destruct (table_ok_tree t v Hok) as [[(Hk & _) _] _]. rewrite Forall_forall in Hk.
  apply elem_of_tree_records in Hr as (e & He & Hke & _). unfold record_ok. fold v.
  rewrite <- Hke. by apply Hk, list_elem_of_fmap_2.
Qed.

Lemma entry_records_nodup (es : list (trie_entry node_data)) :
  NoDup (key <$> es) → Forall node_ok es → NoDup (entry_records es).
Proof.
  induction es as [|e es IH]; intros Hk Ho; [constructor|].
  rewrite fmap_cons in Hk. apply NoDup_cons in Hk as [Hn Hk].
  apply Forall_cons in Ho as [[_ Hd] Ho]. rewrite entry_records_cons. apply NoDup_app. split_and!.
  - apply NoDup_fmap_2_strong; [|done]. intros x y _ _ Heq.
    by rewrite <- (elem_of_record_of e x), Heq, elem_of_record_of.
  - intros r (x & -> & _)%list_elem_of_fmap (e' & (y & Heq & _)%list_elem_of_fmap & He')%list_elem_of_bind.
    apply Hn. apply (f_equal record_key) in Heq. rewrite !record_key_of in Heq. rewrite Heq.
    by apply list_elem_of_fmap_2.
  - by apply IH.
Qed.

(** The table holds no record twice. *)
Lemma records_nodup t : table_ok t → NoDup (records t).
Proof.
  intros ([[(Hv4 & Hk4 & Ha4) Hs4] Ho4] & [[(Hv6 & Hk6 & Ha6) Hs6] Ho6] & Hl).
  apply NoDup_app. split_and!; [by apply entry_records_nodup| |by apply entry_records_nodup].
  intros r H4 H6. apply (tree_records_version RTR_IPV4) in H4; [|done].
  apply (tree_records_version RTR_IPV6) in H6; [|done]. congruence.
Qed.

(** ** Removal of the records of a cache *)

(** The outcomes of [rtr_pfx_table_src_remove]: the client is told about each
    record that went; after a success none of the cache is left. *)
Definition src_remove_result t (sock : socket_ptr) w
    (res : rtr_pfx_rtvals * rtr_pfx_table) w' : Prop :=
  let '(rtval, t') := res in
  ∃ gone, table_ok t' ∧ update_fp t' = update_fp t ∧ records t ≡ₚ gone ++ records t' ∧
    Forall (λ r, socket r = sock) gone ∧ emits w (removals t gone) w' ∧
    match rtval with
    | RTR_PFX_SUCCESS => Forall (λ r, socket r ≠ sock) (records t')
    | RTR_PFX_ERROR => ¬ no_fail w
    | _ => False
    end.

Lemma removals_update_fp t t' rs : update_fp t = update_fp t' → removals t rs = removals (E := E) t' rs.
Proof. intros Hf. unfold removals, notification. by rewrite Hf. Qed.

Lemma src_remove_family_spec t v sock w :
  table_ok t →
  wp (pfx_table_src_remove_family t v sock) (λ '(rtval, t') w', ∃ gone,
    table_ok t' ∧ update_fp t' = update_fp t ∧
    pfx_table_get_root t' (other v) = pfx_table_get_root t (other v) ∧
    tree_records (pfx_table_get_root t v) ≡ₚ gone ++ tree_records (pfx_table_get_root t' v) ∧
    Forall (λ r, socket r = sock) gone ∧ emits w (removals t gone) w' ∧
    match rtval with
    | RTR_PFX_SUCCESS => Forall (λ r, socket r ≠ sock) (tree_records (pfx_table_get_root t' v))
    | RTR_PFX_ERROR => ¬ no_fail w
    | _ => False
    end) w.
Proof.
  intros Hok. pose proof Hok as (_ & _ & Hl). pose proof (table_ok_tree t v Hok) as [[Hk Hs] Ho].
  unfold pfx_table_src_remove_family. wp_step. apply wp_wrlock; [done|]. rewrite get_root_set_lock.
  destruct (pfx_table_get_root t v) as [|e l r] eqn:Hroot.
  - do 3 wp_step. apply wp_unlock; [by left|]. wp_step.
    rewrite set_lock_twice, set_lock_unlocked, Hroot by done. exists [].
    split_and!; try done. apply emits_refl.
  - wp_step. wp_step. eapply wp_mono; [apply (remove_id_spec (¬ no_fail w)); done|].
    intros [rtval root'] w1 (gone & gk & Hp & Hg & Hw1 & Hks & Hs' & Ho' & Hres).
    do 2 wp_step. apply wp_unlock; [left; by rewrite lock_set_root|]. wp_step.
    rewrite set_lock_set_root. exists gone.
    assert (pfx_table_get_root (set_lock (set_root t v root') Unlocked) v = root') as -> by by destruct v.
    split_and!; try done; [|by destruct v..]. apply table_ok_set_root; try done. split; [|done].
    split; [|done]. rewrite Hks in Hk. destruct Hk as (Hk & Hn & _).
    apply Forall_app in Hk as [_ Hk]. apply NoDup_app in Hn as (_ & _ & Hn).
    split_and!; [done..|]. intros ???. lia.
Qed.

Lemma rtr_pfx_table_src_remove_spec t sock w :
  table_ok t →
  wp (rtr_pfx_table_src_remove (Some t) sock) (λ '(rtval, res) w',
    ∃ t', res = Some t' ∧ src_remove_result t sock w (rtval, t') w') w.
Proof.
  intros Hok. unfold rtr_pfx_table_src_remove. wp_step.
  eapply wp_mono; [by apply src_remove_family_spec|].
  intros [r4 t4] w4 (g4 & Hok4 & Hf4 & Ho4 & Hp4 & Hg4 & Hw4 & Hr4). simpl in Ho4, Hp4, Hr4.
  destruct (decide (r4 = RTR_PFX_ERROR)) as [->|Hne].
  { wp_step. exists t4. split; [done|]. exists g4. split_and!; try done.
    unfold records. by rewrite Hp4, Ho4, app_assoc. }
  destruct r4; try done. wp_step. eapply wp_mono; [by apply src_remove_family_spec|].
  intros [r6 t6] w6 (g6 & Hok6 & Hf6 & Ho6 & Hp6 & Hg6 & Hw6 & Hr6). simpl in Ho6, Hp6, Hr6.
  assert (src_remove_result t sock w (r6, t6) w6) as Hres.
  { exists (g4 ++ g6). split_and!; try done.
    - congruence.
    - unfold records. rewrite Hp4, <- Ho4, Hp6, Ho6. solve_Permutation.
    - by apply Forall_app.
    - rewrite (removals_update_fp t4 t) in Hw6 by done. by eapply emits_removals.
    - destruct r6; try done; [|eauto with rtr]. apply Forall_app. by rewrite Ho6. }
  destruct r6; try done.
  - rewrite decide_False by done. wp_step. eauto.
  - rewrite decide_True by done. wp_step. eauto.
Qed.

(** ** Freeing *)

Lemma notify_each_spec t e nd w :
  wp (notify_each t e nd) (λ _ w', emits w (removals t (record_of e <$> nd)) w') w.
Proof.
  revert w. induction nd as [|x nd IH]; intros w; simpl; wp_step; [apply emits_refl|].
  apply wp_notify. intros w' Hw. eapply wp_mono; [apply IH|]. intros [] w'' Hw'.
  by eapply emits_trans.
Qed.

Lemma free_loop_spec t fuel (root : trie_node node_data) w :
  not_null root → (size root <= fuel)%nat → trie_shape 0 root →
  wp (pfx_table_free_loop fuel t root) (λ _ w', ∃ gone,
    gone ≡ₚ tree_records root ∧ emits w (removals t gone) w') w.
Proof.
  revert root w. induction fuel as [|fuel IH]; intros [|e l r] w Hn Hf Hs; try done; [simpl in Hf; lia|].
  cbn [pfx_table_free_loop]. wp_step. eapply wp_mono; [apply notify_each_spec|]. intros [] w1 Hw1.
  destruct (trie_remove_root 0 false e l r Hs) as (s & q & Hr & Hq).
  wp_step. eapply wp_of_option; [exact Hr|]. wp_step. wp_step. cbv beta iota. destruct (is_nil q).
  - wp_step. apply app_nil in Hq as [Hl Hrr]. exists (record_of e <$> data e).
    split; [|done]. unfold tree_records. simpl. rewrite Hl, Hrr. simpl. by rewrite app_nil_r.
  - destruct Hq as (Hnn & Hp & Hs'). eapply wp_mono; [apply IH; try done|].
    { rewrite size_entries, Hp, length_app, <- !size_entries. simpl in Hf. lia. }
    intros [] w2 (gone & Hg & Hw2). exists ((record_of e <$> data e) ++ gone).
    split; [|by eapply emits_removals]. rewrite Hg, (tree_records_perm _ _ Hp).
    unfold tree_records. simpl. rewrite !bind_app, bind_cons. solve_Permutation.
Qed.

Lemma free_family_spec t v w :
  lock t = Unlocked → trie_shape 0 (pfx_table_get_root t v) →
  wp (pfx_table_free_family t v) (λ t' w', t' = set_root t v NULL ∧ ∃ gone,
    gone ≡ₚ tree_records (pfx_table_get_root t v) ∧ emits w (removals t gone) w') w.
Proof.
  intros Hl Hs. unfold pfx_table_free_family.
  destruct (pfx_table_get_root t v) as [|e l r] eqn:Hroot.
  - wp_step. split; [by rewrite <- Hroot, set_root_same|]. exists []. split; [done|apply emits_refl].
  - wp_step. apply wp_wrlock; [done|]. wp_step. eapply wp_mono; [by apply free_loop_spec|].
    intros [] w1 (gone & Hg & Hw1). apply wp_unlock; [left; by rewrite lock_set_root|].
    split; [|eauto]. destruct t as [? ? ? l']. simpl in Hl. subst l'. by destruct v.
Qed.

Lemma rtr_pfx_table_free_spec t w :
  table_ok t →
  wp (rtr_pfx_table_free (Some t)) (λ res w', ∃ gone,
    res = Some (rtr_pfx_table_init (update_fp t)) ∧ gone ≡ₚ records t ∧
    emits w (removals t gone) w') w.
Proof.
  intros ([[_ Hs4] _] & [[_ Hs6] _] & Hl). unfold rtr_pfx_table_free. wp_step.
  eapply wp_mono; [by apply free_family_spec|]. intros ? w1 [-> (g4 & Hg4 & Hw1)].
  wp_step. eapply wp_mono; [by apply free_family_spec|]. intros ? w2 [-> (g6 & Hg6 & Hw2)].
  rewrite decide_True by done. wp_step. exists (g4 ++ g6). split_and!.
  - destruct t. simpl in Hl. by subst.
  - by rewrite Hg4, Hg6.
  - by eapply emits_removals.
Qed.

(** ** Enumeration *)

Section ForEachOf.
Context {S : Type} (fp : rtr_pfx_record → S → M E S).

(** The callback on each record of a list. *)
Fixpoint for_each_of (rs : list rtr_pfx_record) (st : S) : M E S :=
  match rs with
  | [] => mret st
  | r :: rs => st ← fp r st; for_each_of rs st
  end.

Lemma for_each_of_app rs rs' st w :
  for_each_of (rs ++ rs') st w = (st ← for_each_of rs st; for_each_of rs' st) w.
Proof.
  revert st w. induction rs as [|r rs IH]; intros st w; [done|]. simpl.
  unfold mbind, M_bind. destruct (fp r st w) as [[st' w']|]; [|done]. apply IH.
Qed.

Lemma for_each_elem_of e nd st w :
  for_each_elem fp e nd st w = for_each_of (record_of e <$> nd) st w.
Proof.
  revert st w. induction nd as [|x nd IH]; intros st w; [done|]. simpl.
  unfold mbind, M_bind. destruct (fp _ st w) as [[st' w']|]; [|done]. apply IH.
Qed.

(** The enumeration of a tree visits its records in order. *)
Lemma for_each_rec_of root st w :
  not_null root → pfx_table_for_each_rec fp root st w = for_each_of (tree_records root) st w.
Proof.
  revert st w. induction root as [|e l IHl r IHr]; intros st w Hn; [done|].
  assert (∀ c st w, (not_null c → pfx_table_for_each_rec fp c st w = for_each_of (tree_records c) st w) →
    (match c with NULL => mret st | Node _ _ _ => pfx_table_for_each_rec fp c st end) w =
      for_each_of (tree_records c) st w) as Hc.
  { intros [|? ? ?] ? ? Hc; [done|]. by apply Hc. }
  unfold tree_records. cbn [pfx_table_for_each_rec entries]. rewrite bind_app, bind_cons.
  rewrite for_each_of_app, !M_bind_eval, Hc by auto.
  unfold tree_records. destruct (for_each_of _ st w) as [[st1 w1]|]; [|done].
  rewrite for_each_of_app, !M_bind_eval, for_each_elem_of.
  destruct (for_each_of _ st1 w1) as [[st2 w2]|]; [|done]. by rewrite Hc by auto.
Qed.

(** The enumeration of the records of one family. *)
Lemma for_each_record_of v t st w :
  lock t = Unlocked →
  pfx_table_for_each_record fp v (Some t) st w =
    (st ← for_each_of (tree_records (pfx_table_get_root t v)) st; mret (RTR_PFX_SUCCESS, st)) w.
Proof.
  intros Hl. unfold pfx_table_for_each_record.
  destruct (pfx_table_get_root t v) as [|e l r] eqn:Hroot; [done|].
  rewrite (M_bind_eval (pthread_rwlock_rdlock t)). unfold pthread_rwlock_rdlock.
  rewrite M_bind_eval, Hl. cbn [rdlock of_option mret M_ret].
  rewrite M_bind_eval, for_each_rec_of by done. rewrite M_bind_eval.
  by destruct (for_each_of _ st w) as [[st' w']|].
Qed.

(** Reasoning about the enumeration with an invariant of the records done. *)
Lemma wp_for_each_of (I : list rtr_pfx_record → S → world E → Prop) rs st w :
  I [] st w →
  (∀ pre r post st' w', rs = pre ++ r :: post → I pre st' w' → wp (fp r st') (I (pre ++ [r])) w') →
  wp (for_each_of rs st) (I rs) w.
Proof.
  intros HI Hstep. assert (∀ post pre st' w', rs = pre ++ post → I pre st' w' →
    wp (for_each_of post st') (I rs) w') as Hgen; [|by apply (Hgen rs [])].
  induction post as [|r post IH]; intros pre st' w' -> Hpre; simpl; wp_step.
  { by rewrite app_nil_r. }
  eapply wp_mono; [by eapply Hstep|]. intros st'' w'' HI'. apply (IH (pre ++ [r])); [|done].
  by rewrite <- app_assoc.
Qed.

Lemma wp_for_each_record v t st (Q : S → world E → Prop) w :
  lock t = Unlocked → wp (for_each_of (tree_records (pfx_table_get_root t v)) st) Q w →
  wp (pfx_table_for_each_record fp v (Some t) st)
    (λ '(rtval, st) w', rtval = RTR_PFX_SUCCESS ∧ Q st w') w.
Proof.
  intros Hl (st' & w' & Hf & HQ). exists (RTR_PFX_SUCCESS, st'), w'. split; [|done].
  rewrite for_each_record_of by done. unfold mbind, M_bind. by rewrite Hf.
Qed.

End ForEachOf.

(** ** Copying *)

Definition additions t (rs : list rtr_pfx_record) : list E :=
  rs ≫= λ r, notification t r RTR_PFX_ADD.

(** The records of the other caches. *)
Definition of_others (sock : socket_ptr) (rs : list rtr_pfx_record) : list rtr_pfx_record :=
  filter (λ r, socket r ≠ sock) rs.

Definition of_socket (sock : socket_ptr) (rs : list rtr_pfx_record) : list rtr_pfx_record :=
  filter (λ r, socket r = sock) rs.

(** What copying the records [rs] into [dst] has done: [copied] is what went in. *)
Definition copying (dst : rtr_pfx_table) sock w (rs : list rtr_pfx_record)
    (args : rtr_pfx_table * bool) w' : Prop :=
  let '(dst', error) := args in
  ∃ copied, table_ok dst' ∧ update_fp dst' = update_fp dst ∧
    records dst' ≡ₚ copied ++ records dst ∧ (∀ r, r ∈ copied → r ∈ of_others sock rs) ∧
    emits w (additions dst copied) w' ∧
    if error : bool then ¬ no_fail w else copied ≡ₚ of_others sock rs.

Lemma copy_cb_spec dst sock w w' pre r args :
  copying dst sock w pre args w' → record_ok r → r ∉ pre → (socket r ≠ sock → r ∉ records dst) →
  wp (pfx_table_copy_cb sock r args) (copying dst sock w (pre ++ [r])) w'.
Proof.
  intros Hc Hr Hn Hd. destruct args as [dst' error]. unfold pfx_table_copy_cb.
  pose proof Hc as (copied & Hok & Hf & Hp & Hin & Hw & He).
  assert (of_others sock (pre ++ [r]) =
    of_others sock pre ++ if decide (socket r = sock) then [] else [r]) as Hof.
  { unfold of_others. rewrite filter_app, filter_cons. by repeat case_decide. }
  case_decide as Hs.
  { wp_step. exists copied. rewrite Hof, app_nil_r. by split_and!. }
  assert (r ∉ records dst') as Hnd.
  { rewrite Hp. intros [Hr'%Hin|?]%elem_of_app; [|by apply Hd].
    apply list_elem_of_filter in Hr' as [_ ?]. done. }
  wp_step. eapply wp_mono; [by apply pfx_table_add_spec|].
  intros [rtval dst''] w'' (Hok' & Hf' & Hres). wp_step. destruct rtval; try done.
  - destruct Hres as (_ & Hp' & Hw'). rewrite decide_True by done. exists (copied ++ [r]). split_and!.
    + done.
    + congruence.
    + rewrite Hp', Hp. solve_Permutation.
    + intros r' [?%Hin| ->%list_elem_of_singleton]%elem_of_app; rewrite Hof; apply elem_of_app; [by left|].
      right. by left.
    + unfold additions. rewrite bind_app. eapply emits_trans; [done|]. simpl. rewrite app_nil_r.
      unfold notification in *. by rewrite <- Hf.
    + destruct error; [done|]. by rewrite He, Hof.
  - destruct Hres as (_ & -> & Hw' & Hnf). rewrite decide_False by done. exists copied. split_and!; try done.
    + intros r' ?%Hin. rewrite Hof. apply elem_of_app. by left.
    + by eapply emits_then_quiet.
    + eauto with rtr.
  - by destruct Hres.
Qed.

Lemma nodup_middle {A} (pre post : list A) x : NoDup (pre ++ x :: post) → x ∉ pre.
Proof. intros (_ & Hd & _)%NoDup_app Hx. apply (Hd x Hx). left. Qed.

(** One family of the source table. *)
Lemma copy_family_spec src dst sock v pre post args w w' :
  table_ok src → records src = pre ++ tree_records (pfx_table_get_root src v) ++ post →
  (∀ r, r ∈ of_others sock (records src) → r ∉ records dst) →
  copying dst sock w pre args w' →
  wp (pfx_table_for_each_record (pfx_table_copy_cb sock) v (Some src) args)
    (λ '(rtval, args) w', rtval = RTR_PFX_SUCCESS ∧
       copying dst sock w (pre ++ tree_records (pfx_table_get_root src v)) args w') w'.
Proof.
  intros Hok Hrec Hdis Hc. pose proof Hok as (_ & _ & Hl). apply wp_for_each_record; [done|].
  pose proof (records_nodup src Hok) as Hnd. rewrite Hrec in Hnd.
  apply (wp_for_each_of _ (λ rs, copying dst sock w (pre ++ rs))); [by rewrite app_nil_r|].
  intros done r rest args' w'' Hd HI. rewrite app_assoc.
  assert (r ∈ records src) as Hr.
  { rewrite Hrec, Hd, !elem_of_app, elem_of_cons. auto. }
  apply copy_cb_spec; [done|by eapply records_ok| |].
  - rewrite Hd, <- app_assoc in Hnd. simpl in Hnd. rewrite app_assoc in Hnd. by eapply nodup_middle.
  - intros Hs. apply Hdis. by apply list_elem_of_filter.
Qed.

Lemma pfx_table_copy_except_socket_spec src dst sock w :
  table_ok src → table_ok dst → (∀ r, r ∈ of_others sock (records src) → r ∉ records dst) →
  wp (pfx_table_copy_except_socket (Some src) dst sock) (λ '(rtval, dst') w', ∃ copied,
    table_ok dst' ∧ update_fp dst' = update_fp dst ∧ records dst' ≡ₚ copied ++ records dst ∧
    emits w (additions dst copied) w' ∧
    match rtval with
    | RTR_PFX_SUCCESS => copied ≡ₚ of_others sock (records src)
    | RTR_PFX_ERROR => ¬ no_fail w
    | _ => False
    end) w.
Proof.
  intros Hsrc Hdst Hdis. unfold pfx_table_copy_except_socket. wp_step.
  eapply wp_mono; [apply (copy_family_spec src dst sock RTR_IPV4 [] (tree_records (ipv6 src)));
    [done..| |]|].
  { done. }
  { exists []. split_and!; try done. apply emits_refl. }
  intros [rv [d4 e4]] w4 [_ H4]. destruct e4.
  { wp_step. destruct H4 as (copied & ? & ? & ? & _ & ? & ?). exists copied. by split_and!. }
  wp_step. eapply wp_mono; [apply (copy_family_spec src dst sock RTR_IPV6 (tree_records (ipv4 src)) []
    (d4, false) w); try done|].
  { by rewrite app_nil_r. }
  intros [rv' [d6 e6]] w6 [_ (copied & ? & ? & ? & _ & ? & ?)].
  destruct e6; wp_step; exists copied; by split_and!.
Qed.

(** ** Swapping *)

Lemma pfx_table_swap_spec (a b : rtr_pfx_table) w :
  lock a = Unlocked → lock b = Unlocked →
  pfx_table_swap a b w =
    Some ((PfxTable (ipv4 b) (ipv6 b) (update_fp a) Unlocked,
           PfxTable (ipv4 a) (ipv6 a) (update_fp b) Unlocked), w).
Proof. destruct a, b; simpl. by intros -> ->. Qed.

(** ** Notification of the difference *)

Lemma of_socket_app sock rs rs' : of_socket sock (rs ++ rs') = of_socket sock rs ++ of_socket sock rs'.
Proof. apply filter_app. Qed.

(** The records of [sock] in [rs] that are not in [rs']. *)
Definition new_of (sock : socket_ptr) (rs rs' : list rtr_pfx_record) : list rtr_pfx_record :=
  filter (λ r, r ∉ rs') (of_socket sock rs).

(** What the first pass has done when it has looked at the records [rs]: the
    client has been told of the new ones, the others were taken out of the old
    table. *)
Definition diffing (new_table old : rtr_pfx_table) sock w (rs : list rtr_pfx_record)
    (old' : rtr_pfx_table) w' : Prop :=
  table_ok old' ∧ update_fp old' = None ∧
  (∀ r, r ∈ records old' ↔ r ∈ records old ∧ r ∉ of_socket sock rs) ∧
  emits w (additions new_table (new_of sock rs (records old))) w'.

Lemma diff_add_spec new_table old sock w w' pre r old' :
  no_fail w → diffing new_table old sock w pre old' w' → record_ok r → r ∉ pre →
  wp (pfx_table_notify_diff_cb new_table sock RTR_PFX_ADD r old')
    (diffing new_table old sock w (pre ++ [r])) w'.
Proof.
  intros Hnf (Hok & Hfp & Hrec & Hw) Hr Hpre. unfold pfx_table_notify_diff_cb.
  assert (of_socket sock (pre ++ [r]) =
    of_socket sock pre ++ if decide (sock = socket r) then [r] else []) as Hof.
  { rewrite of_socket_app. unfold of_socket at 2. rewrite filter_cons. repeat case_decide; done || congruence. }
  assert (new_of sock (pre ++ [r]) (records old) = new_of sock pre (records old) ++
    if decide (sock = socket r) then filter (λ r, r ∉ records old) [r] else []) as Hno.
  { unfold new_of. rewrite Hof, filter_app. by case_decide. }
  case_decide as Hs.
  2:{ wp_step. unfold diffing. rewrite Hof, Hno, !app_nil_r. by split_and!. }
  assert (r ∉ of_socket sock pre) as Hn by (by intros [_ ?]%list_elem_of_filter).
  wp_step. eapply wp_mono; [by apply rtr_pfx_table_remove_spec|].
  intros [rtval old''] w1 (Hok' & Hfp' & Hres). destruct rtval; try done.
  - destruct Hres as [Hp Hw1]. rewrite decide_True by done. do 3 wp_step.
    unfold notification in Hw1. rewrite Hfp in Hw1.
    assert (r ∈ records old) as Hold by (apply Hrec; rewrite Hp; left).
    split_and!; [done|congruence| |].
    + intros r'. rewrite Hof, elem_of_app, list_elem_of_singleton.
      pose proof (records_nodup old' Hok) as Hnd. rewrite Hp in Hnd. apply NoDup_cons in Hnd as [Hnr _].
      assert (r' ∈ records old' ↔ r' = r ∨ r' ∈ records old'') as Heq by (rewrite Hp; apply elem_of_cons).
      specialize (Hrec r'). split.
      * intros Hin. destruct (proj1 Hrec (proj2 Heq (or_intror Hin))) as [? ?].
        split; [done|]. intros [?| ->]; done.
      * intros [Ho Hno']. destruct (proj1 Heq (proj2 Hrec (conj Ho (λ Hx, Hno' (or_introl Hx))))) as [->|]; [|done].
        destruct Hno'. by right.
    + rewrite Hno. rewrite filter_cons_False, filter_nil, app_nil_r by tauto.
      by eapply emits_then_quiet.
  - destruct Hres as (_ & _ & _ & []). eauto with rtr.
  - destruct Hres as (Hnr & -> & Hw1). rewrite decide_False by done. wp_step. apply wp_notify.
    intros w2 Hw2. wp_step.
    assert (r ∉ records old) as Hold by (intros Ho; apply Hnr, Hrec; done).
    split_and!; [done|done| |].
    + intros r'. rewrite Hof, elem_of_app, list_elem_of_singleton, Hrec. split.
      * intros [? ?]. split; [done|]. intros [?| ->]; done.
      * intros [? Hno']. split; [done|]. intros ?. apply Hno'. by left.
    + rewrite Hno. rewrite filter_cons_True, filter_nil by done. unfold additions.
      rewrite bind_app. eapply emits_trans; [by eapply emits_then_quiet|]. simpl. by rewrite app_nil_r.
Qed.

(** The first pass over one family. *)
Lemma diff_add_family new_table old sock v pre post old' w w' :
  no_fail w → table_ok new_table →
  records new_table = pre ++ tree_records (pfx_table_get_root new_table v) ++ post →
  diffing new_table old sock w pre old' w' →
  wp (pfx_table_for_each_record (pfx_table_notify_diff_cb new_table sock RTR_PFX_ADD) v
        (Some new_table) old')
    (λ '(rtval, old') w', rtval = RTR_PFX_SUCCESS ∧
       diffing new_table old sock w (pre ++ tree_records (pfx_table_get_root new_table v)) old' w') w'.
Proof.
  intros Hnf Hok Hrec Hd. pose proof Hok as (_ & _ & Hl). apply wp_for_each_record; [done|].
  pose proof (records_nodup new_table Hok) as Hnd. rewrite Hrec in Hnd.
  apply (wp_for_each_of _ (λ rs, diffing new_table old sock w (pre ++ rs))); [by rewrite app_nil_r|].
  intros done r rest old'' w'' Heq HI. rewrite app_assoc. apply diff_add_spec; try done.
  - eapply (records_ok new_table); [done|]. rewrite Hrec, Heq, !elem_of_app, elem_of_cons. auto.
  - rewrite Heq, <- app_assoc in Hnd. simpl in Hnd. rewrite app_assoc in Hnd. by eapply nodup_middle.
Qed.

(** The second pass over one family. *)
Lemma diff_remove_family new_table old sock v w :
  lock old = Unlocked →
  wp (pfx_table_for_each_record (pfx_table_notify_diff_cb new_table sock RTR_PFX_REMOVE) v
        (Some old) old)
    (λ '(rtval, old') w', rtval = RTR_PFX_SUCCESS ∧ old' = old ∧
       emits w (removals new_table (of_socket sock (tree_records (pfx_table_get_root old v)))) w') w.
Proof.
  intros Hl. apply wp_for_each_record; [done|].
  apply (wp_for_each_of _ (λ rs old' w', old' = old ∧ emits w (removals new_table (of_socket sock rs)) w')).
  { split; [done|apply emits_refl]. }
  intros pre r post st w' _ [-> Hw]. unfold pfx_table_notify_diff_cb. rewrite of_socket_app.
  case_decide as Hs.
  - wp_step. apply wp_notify. intros w1 Hw1. wp_step. split; [done|].
    unfold of_socket at 2. rewrite filter_cons_True, filter_nil by done.
    eapply emits_removals; [done|]. unfold removals. simpl. by rewrite app_nil_r.
  - wp_step. split; [done|]. unfold of_socket at 2.
    by rewrite filter_cons_False, filter_nil, app_nil_r by congruence.
Qed.

Lemma pfx_table_notify_diff_spec new_table old sock w :
  table_ok new_table → table_ok old → no_fail w →
  wp (pfx_table_notify_diff new_table old sock) (λ old' w',
    table_ok old' ∧ update_fp old' = update_fp old ∧
    ∃ added removed,
      added ≡ₚ new_of sock (records new_table) (records old) ∧
      removed ≡ₚ new_of sock (records old) (records new_table) ∧
      emits w (additions new_table added ++ removals new_table removed) w') w.
Proof.
  intros Hnew Hold Hnf. unfold pfx_table_notify_diff. cbv zeta. wp_step.
  eapply wp_mono; [apply (diff_add_family new_table (set_update_fp old None) sock RTR_IPV4 []
    (tree_records (ipv6 new_table)) _ w); try done|].
  { split_and!; try done; [|apply emits_refl]. intros r. rewrite elem_of_nil. tauto. }
  intros [rv1 o1] w1 [_ H1]. wp_step.
  eapply wp_mono; [apply (diff_add_family new_table (set_update_fp old None) sock RTR_IPV6
    (tree_records (ipv4 new_table)) [] _ w); try done|].
  { by rewrite app_nil_r. }
  intros [rv2 o2] w2 [_ (Hok2 & Hfp2 & Hrec2 & Hw2)]. wp_step. pose proof Hok2 as (_ & _ & Hl2).
  change (tree_records (ipv4 new_table) ++ tree_records (pfx_table_get_root new_table RTR_IPV6))
    with (records new_table) in *.
  eapply wp_mono; [by apply diff_remove_family|]. intros [rv3 o3] w3 (_ & -> & Hw3). wp_step.
  eapply wp_mono; [by apply diff_remove_family|]. intros [rv4 o4] w4 (_ & -> & Hw4). wp_step.
  split_and!; [done|done|]. exists (new_of sock (records new_table) (records old)), (of_socket sock (records o2)).
  split_and!; [done| |].
  - apply NoDup_Permutation; [apply NoDup_filter, records_nodup; done
      |apply NoDup_filter, NoDup_filter, records_nodup; done|].
    intros r. unfold new_of, of_socket. rewrite !list_elem_of_filter, Hrec2. unfold of_socket.
    rewrite list_elem_of_filter. change (records (set_update_fp old None)) with (records old). tauto.
  - eapply emits_trans; [done|]. unfold records at 1. rewrite of_socket_app.
    by eapply emits_removals.
Qed.

End Bulk.
