(* ===== verification/PfxTheorems.v ===== *)
(** * The prefix table: the theorems

    What a user of [rtrlib/pfx/pfx.h] can rely on, with concrete instances. *)

From S2P Require Import Prelude Ip Trie PfxTable PfxTableProofs PfxLevels PfxTableBulk.

(** ** Concrete data for the instances *)

(** 10.0.0.0/8-16 and 10.1.0.0/16-24 of one cache, 2001:db8::/32-48 of another. *)
Definition r10_8 : rtr_pfx_record := PfxRecord 64496 (Addr4 {| addr := 167772160 |}) 8 16 1%nat.
Definition r10_1_16 : rtr_pfx_record := PfxRecord 64497 (Addr4 {| addr := 167837696 |}) 16 24 1%nat.
Definition r2001 : rtr_pfx_record :=
  PfxRecord 64498 (Addr6 {| addr0 := 536939960; addr1 := 0; addr2 := 0; addr3 := 0 |}) 32 48 2%nat.

Definition leaf (r : rtr_pfx_record) (lc rc : trie_node node_data) : trie_node node_data :=
  Node (Entry (rec_prefix r) (min_len r) [elem_of_record r]) lc rc.

Definition sample_table : rtr_pfx_table :=
  PfxTable (leaf r10_8 (leaf r10_1_16 NULL NULL) NULL) (leaf r2001 NULL NULL) (Some 7%nat) Unlocked.

Definition empty_world : world pfx_event := World [] [] idle.

(** ** Origin validation *)

Section Theorems.
Context `{Build} {E : Type} `{!Event pfx_event E}.

(** C1: Origin validation is RFC 6811, for a well-formed table whose tree for the family of
    the address has at most as many levels as an address has bits: [rtr_pfx_table_validate]
    succeeds, answers VALID when a record that covers the prefix has the origin (not AS 0)
    and a maximum length that is long enough, NOT FOUND when no record covers the prefix,
    and INVALID otherwise; it changes nothing, releases the lock and calls no callback. *)
Theorem validate_rfc6811 t origin pfx prefix_len (w : world E) :
  table_ok t → valid_addr pfx →
  height (pfx_table_get_root t (ver pfx)) <= width (ver pfx) →
  wp (rtr_pfx_table_validate t origin pfx prefix_len) (λ '(rtval, result, t') w',
    rtval = RTR_PFX_SUCCESS ∧
    result = Some (rov_state origin prefix_len (covering_records t pfx prefix_len)) ∧
    t' = t ∧ emits w [] w') w.
Proof.
  intros Hok Hval Hh. unfold rtr_pfx_table_validate. wp_step.
  eapply wp_mono; [by apply rtr_pfx_table_validate_r_spec|].
  intros [[[rtval result] reason] t'] w' (-> & Hw & Hres). wp_step.
  destruct rtval; try done; [|by destruct Hres]. by destruct Hres as (-> & _).
Qed.

(** C39: The bound on the height in the theorem on validation is the right one.  The tree of
    a well-formed table has at most one level more than an address has bits.  For IPv4,
    and for IPv6 where assertions are compiled in, every validation against the table is
    defined exactly if the tree does not have that level. *)
Theorem validate_defined t v :
  table_ok t →
  height (pfx_table_get_root t v) <= width v + 1 ∧
  (v = RTR_IPV4 ∨ ndebug = false →
   (∀ origin pfx prefix_len (w : world E), is_u32 origin → ver pfx = v → valid_addr pfx → 0 <= prefix_len <= width v →
      is_Some (rtr_pfx_table_validate t origin pfx prefix_len w)) ↔
   height (pfx_table_get_root t v) <= width v).
Proof.
  intros Hok. pose proof (width_bound v). split.
  { destruct (table_ok_tree t v Hok) as [Hi _]. destruct (height_levels _ _ _ Hi (Z.le_refl 0)) as [->|?]; simpl; lia. }
  intros Hb. split.
  - intros Hdef. apply Z.nlt_ge. intros Hh. destruct (validate_deep_spec (E := E) t v Hok Hb Hh) as (pfx & Hv & Hval & Hnone).
    destruct (Hdef 0 pfx 0 (World [] [] idle)) as [x Hx]; try done; [lia|]. by rewrite Hnone in Hx.
  - intros Hh origin pfx n w _ <- Hval _. unfold rtr_pfx_table_validate. rewrite M_bind_eval.
    by destruct (rtr_pfx_table_validate_r_spec t false origin pfx n w Hok Hval Hh) as ([[[rv res] reason] t'] & w' & -> & _).
Qed.

(** With [reason] and [reason_len] given, [rtr_pfx_table_validate_r] also lists
    why: for an invalid route all records that cover it, for a route that is not
    covered none, and for a valid one records that cover it, a matching one among
    them.  It fails only if memory runs out, and then gives no reasons. *)
Theorem validate_reasons t origin pfx prefix_len (w : world E) :
  table_ok t → valid_addr pfx →
  height (pfx_table_get_root t (ver pfx)) <= width (ver pfx) →
  let cov := covering_records t pfx prefix_len in
  wp (rtr_pfx_table_validate_r t true origin pfx prefix_len) (λ '(rtval, result, reason, t') w',
    t' = t ∧ emits w [] w' ∧
    ((rtval = RTR_PFX_SUCCESS ∧ result = Some (rov_state origin prefix_len cov) ∧
      match rov_state origin prefix_len cov with
      | RTR_BGP_PFXV_STATE_VALID =>
          (∃ rest, cov ≡ₚ reason ++ rest) ∧ ∃ r, r ∈ reason ∧ rov_match origin prefix_len r = true
      | _ => reason ≡ₚ cov
      end) ∨
     (rtval = RTR_PFX_ERROR ∧ result = None ∧ reason = [] ∧ ¬ no_fail w))) w.
Proof.
  intros Hok Hval Hh cov. eapply wp_mono; [by apply rtr_pfx_table_validate_r_spec|].
  intros [[[rtval result] reason] t'] w' (-> & Hw & Hres). fold cov in Hres.
  split_and!; [done..|]. destruct rtval; try done.
  - left. destruct Hres as (-> & _ & Hr & Hv). split_and!; [done..|].
    destruct (rov_state origin prefix_len cov) eqn:Hs; [|by apply Hr..].
    destruct (Hv eq_refl eq_refl) as [? (r & ?%list_elem_of_In & ?)%existsb_exists]. eauto.
  - right. by destruct Hres as (_ & ? & ? & ?).
Qed.

(** ** Adding and removing *)

(** [rtr_pfx_table_add] of a canonical record to a well-formed table keeps the
    table well-formed.  It answers DUPLICATE exactly when the table has the record,
    and then changes nothing; on SUCCESS the table has one record more and the
    client is told; on ERROR memory ran out, and nothing has changed. *)
Theorem add_correct t r (w : world E) :
  table_ok t → record_ok r →
  wp (rtr_pfx_table_add (Some t) (Some r)) (λ '(rtval, res) w', ∃ t', res = Some t' ∧
    table_ok t' ∧
    ((rtval = RTR_PFX_DUPLICATE_RECORD ∧ r ∈ records t ∧ t' = t ∧ emits w [] w') ∨
     (rtval = RTR_PFX_SUCCESS ∧ r ∉ records t ∧ records t' ≡ₚ r :: records t ∧
        emits w (notification t r RTR_PFX_ADD) w') ∨
     (rtval = RTR_PFX_ERROR ∧ ¬ no_fail w ∧ t' = t ∧ emits w [] w'))) w.
Proof.
  intros Hok Hr. unfold rtr_pfx_table_add. wp_step.
  eapply wp_mono; [by apply pfx_table_add_spec|]. intros [rtval t'] w' (Hok' & _ & Hres).
  wp_step. exists t'. split_and!; [done..|].
  destruct rtval; try done; destruct_and!; eauto 10.
Qed.

(** [rtr_pfx_table_remove] of a canonical record keeps a well-formed table
    well-formed.  It answers NOT FOUND exactly when the table does not have the
    record; on SUCCESS exactly that record is gone and the client is told; on
    ERROR memory ran out and the table still has the same records. *)
Theorem remove_correct t r (w : world E) :
  table_ok t → record_ok r →
  wp (rtr_pfx_table_remove t r) (λ '(rtval, t') w', table_ok t' ∧
    ((rtval = RTR_PFX_RECORD_NOT_FOUND ∧ r ∉ records t ∧ t' = t ∧ emits w [] w') ∨
     (rtval = RTR_PFX_SUCCESS ∧ records t ≡ₚ r :: records t' ∧
        emits w (notification t r RTR_PFX_REMOVE) w') ∨
     (rtval = RTR_PFX_ERROR ∧ ¬ no_fail w ∧ records t' ≡ₚ records t ∧ emits w [] w'))) w.
Proof.
  intros Hok Hr. eapply wp_mono; [by apply rtr_pfx_table_remove_spec|].
  intros [rtval t'] w' (Hok' & _ & Hres). split; [done|].
  destruct rtval; try done; destruct_and!; eauto 10.
Qed.

(** A sequence of additions and removals, with the values returned. *)
Inductive pfx_op := OpAdd (r : rtr_pfx_record) | OpRemove (r : rtr_pfx_record).

Definition op_record (op : pfx_op) : rtr_pfx_record :=
  match op with OpAdd r | OpRemove r => r end.

Fixpoint run_ops (ops : list pfx_op) (t : rtr_pfx_table)
  : M E (list rtr_pfx_rtvals * rtr_pfx_table) :=
  match ops with
  | [] => mret ([], t)
  | op :: ops =>
      '(rtval, t) ← match op with
                    | OpAdd r => pfx_table_add t r
                    | OpRemove r => rtr_pfx_table_remove t r
                    end;
      '(rtvals, t) ← run_ops ops t;
      mret (rtval :: rtvals, t)
  end.

(** The same on a set of records. *)
Definition set_op (op : pfx_op) (rs : list rtr_pfx_record)
  : rtr_pfx_rtvals * list rtr_pfx_record :=
  match op with
  | OpAdd r =>
      if decide (r ∈ rs) then (RTR_PFX_DUPLICATE_RECORD, rs) else (RTR_PFX_SUCCESS, r :: rs)
  | OpRemove r =>
      if decide (r ∈ rs) then (RTR_PFX_SUCCESS, filter (λ r', r' ≠ r) rs)
      else (RTR_PFX_RECORD_NOT_FOUND, rs)
  end.

Fixpoint set_ops (ops : list pfx_op) (rs : list rtr_pfx_record)
  : list rtr_pfx_rtvals * list rtr_pfx_record :=
  match ops with
  | [] => ([], rs)
  | op :: ops =>
      let '(rtval, rs) := set_op op rs in
      let '(rtvals, rs) := set_ops ops rs in (rtval :: rtvals, rs)
  end.

Lemma filter_neq_perm (r : rtr_pfx_record) rs rs' :
  NoDup rs → rs ≡ₚ r :: rs' → filter (λ r', r' ≠ r) rs ≡ₚ rs'.
Proof.
  intros Hnd Hp. rewrite Hp in Hnd. apply NoDup_cons in Hnd as [Hn _].
  rewrite Hp, filter_cons_False by tauto. rewrite filter_all; [done|]. by intros x Hx ->.
Qed.

(** One operation of the table is the operation on its set of records. *)
Lemma op_refines op t (rs : list rtr_pfx_record) (w : world E) :
  table_ok t → record_ok (op_record op) → no_fail w → records t ≡ₚ rs →
  wp (match op with
      | OpAdd r => pfx_table_add t r
      | OpRemove r => rtr_pfx_table_remove t r
      end) (λ '(rtval, t') w', table_ok t' ∧ no_fail w' ∧
        rtval = (set_op op rs).1 ∧ records t' ≡ₚ (set_op op rs).2) w.
Proof.
  intros Hok Hr Hnf Hp. pose proof (records_nodup t Hok) as Hnd. destruct op as [r|r]; simpl in *.
  - eapply wp_mono; [by apply pfx_table_add_spec|]. intros [rtval t'] w' (Hok' & _ & Hres).
    destruct rtval; try done.
    + destruct Hres as (Hn & Hp' & Hw). rewrite decide_False by by rewrite <- Hp.
      split_and!; [done|by eapply emits_no_fail|done|]. simpl. by rewrite Hp', Hp.
    + by destruct Hres as (_ & _ & _ & []).
    + destruct Hres as (Hn & -> & Hw). rewrite decide_True by by rewrite <- Hp.
      split_and!; [done|by eapply emits_no_fail|done..].
  - eapply wp_mono; [by apply rtr_pfx_table_remove_spec|]. intros [rtval t'] w' (Hok' & _ & Hres).
    destruct rtval; try done.
    + destruct Hres as (Hp' & Hw). rewrite decide_True by (rewrite <- Hp, Hp'; left).
      split_and!; [done|by eapply emits_no_fail|done|]. simpl. rewrite <- Hp.
      symmetry. by apply filter_neq_perm.
    + by destruct Hres as (_ & _ & _ & []).
    + destruct Hres as (Hn & -> & Hw). rewrite decide_False by by rewrite <- Hp.
      split_and!; [done|by eapply emits_no_fail|done..].
Qed.

(** C6: The table refines a set of records: if memory does not run out, every
    sequence of [rtr_pfx_table_add] and [rtr_pfx_table_remove] of canonical records
    returns the same values as on a mathematical set, and leaves the table
    well-formed with exactly the records of that set. *)
Theorem run_ops_refines ops t rs (w : world E) :
  table_ok t → Forall (λ op, record_ok (op_record op)) ops → no_fail w → records t ≡ₚ rs →
  wp (run_ops ops t) (λ '(rtvals, t') w', table_ok t' ∧
    rtvals = (set_ops ops rs).1 ∧ records t' ≡ₚ (set_ops ops rs).2) w.
Proof.
  revert t rs w. induction ops as [|op ops IH]; intros t rs w Hok Hops Hnf Hp; simpl.
  { by wp_step. }
  apply Forall_cons in Hops as [Hop Hops]. wp_step.
  eapply wp_mono; [by apply (op_refines op t rs)|]. intros [rtval t'] w' (Hok' & Hnf' & -> & Hp').
  destruct (set_op op rs) as [rtval rs'] eqn:Hset. simpl in *. wp_step.
  eapply wp_mono; [by apply (IH t' rs')|]. intros [rtvals t''] w'' (Hok'' & -> & Hp'').
  destruct (set_ops ops rs'). by wp_step.
Qed.

(** ** All records of a cache *)

(** C36: [rtr_pfx_table_src_remove] terminates and, on SUCCESS, leaves exactly the
    records of the other caches; the client is told about each record that went,
    once.  On ERROR memory ran out, only records of that cache went, and the table
    is still well-formed. *)
Theorem src_remove_correct t sock (w : world E) :
  table_ok t →
  wp (rtr_pfx_table_src_remove (Some t) sock) (λ '(rtval, res) w', ∃ t' gone, res = Some t' ∧
    table_ok t' ∧ records t ≡ₚ gone ++ records t' ∧ emits w (removals t gone) w' ∧
    ((rtval = RTR_PFX_SUCCESS ∧ gone ≡ₚ of_socket sock (records t) ∧
        records t' ≡ₚ of_others sock (records t)) ∨
     (rtval = RTR_PFX_ERROR ∧ ¬ no_fail w ∧ ∀ r, r ∈ gone → socket r = sock))) w.
Proof.
  intros Hok. eapply wp_mono; [by apply rtr_pfx_table_src_remove_spec|].
  intros [rtval res] w' (t' & -> & gone & Hok' & _ & Hp & Hg & Hw & Hres). exists t', gone.
  split_and!; [done..|]. rewrite Forall_forall in Hg. destruct rtval; try done; [left|by right].
  rewrite Forall_forall in Hres. unfold of_socket, of_others. rewrite Hp, !filter_app.
  rewrite (filter_all (λ r, socket r = sock) gone), (filter_none (λ r, socket r = sock) (records t')),
    (filter_none (λ r, socket r ≠ sock) gone), (filter_all (λ r, socket r ≠ sock) (records t'));
    auto. by rewrite app_nil_r.
Qed.

(** [rtr_pfx_table_free] terminates, empties both trees and tells the client
    about every record exactly once; the lock is free when it is destroyed. *)
Theorem free_notifies_all t (w : world E) :
  table_ok t →
  wp (rtr_pfx_table_free (Some t)) (λ res w', ∃ t' gone, res = Some t' ∧
    records t' = [] ∧ lock t' = Unlocked ∧ gone ≡ₚ records t ∧ emits w (removals t gone) w') w.
Proof.
  intros Hok. eapply wp_mono; [by apply rtr_pfx_table_free_spec|].
  intros res w' (gone & -> & Hg & Hw). by eexists _, gone.
Qed.

(** The enumerations call the callback once for every record of the address
    family, in the order of the tree, under the read lock, which they release. *)
Theorem for_each_visits_all {S} (fp : rtr_pfx_record → S → M E S) t st (w : world E) :
  table_ok t →
  (rtr_pfx_table_for_each_ipv4_record fp (Some t) st w =
    (st ← for_each_of fp (tree_records (ipv4 t)) st; mret (RTR_PFX_SUCCESS, st)) w) ∧
  (rtr_pfx_table_for_each_ipv6_record fp (Some t) st w =
    (st ← for_each_of fp (tree_records (ipv6 t)) st; mret (RTR_PFX_SUCCESS, st)) w) ∧
  NoDup (records t).
Proof.
  intros Hok. pose proof Hok as (_ & _ & Hl).
  split_and!; [by apply for_each_record_of..|by apply records_nodup].
Qed.

(** ** Shadow tables *)

(** [pfx_table_copy_except_socket] into a fresh table copies exactly the records
    of the other caches, without telling anyone; it fails only if memory runs out. *)
Theorem copy_except_socket_correct src sock (w : world E) :
  table_ok src →
  wp (pfx_table_copy_except_socket (Some src) (rtr_pfx_table_init None) sock) (λ '(rtval, dst) w',
    table_ok dst ∧ emits w [] w' ∧
    ((rtval = RTR_PFX_SUCCESS ∧ records dst ≡ₚ of_others sock (records src)) ∨
     (rtval = RTR_PFX_ERROR ∧ ¬ no_fail w))) w.
Proof.
  intros Hok. eapply wp_mono; [apply pfx_table_copy_except_socket_spec; try done|].
  - split_and!; [| |done]; (split; [split; [split_and!|]|]); try constructor; intros ???; lia.
  - intros r _. apply not_elem_of_nil.
  - intros [rtval dst] w' (copied & Hok' & _ & Hp & Hw & Hres). rewrite app_nil_r in Hp.
    assert (additions (rtr_pfx_table_init None) copied = (@nil E)) as Hnil.
    { clear. induction copied as [|? ? IH]; [done|exact IH]. }
    rewrite Hnil in Hw.
    split_and!; [done..|]. destruct rtval; try done; [left|by right]. by rewrite Hp, Hres.
Qed.

(** C37: [pfx_table_notify_diff] tells the client exactly the difference between two
    tables, as far as one cache is concerned: first an addition for each record of
    the cache that only the new table has, then a removal for each that only the
    old table has (provided memory does not run out). *)
Theorem notify_diff_correct new_table old sock (w : world E) :
  table_ok new_table → table_ok old → no_fail w →
  wp (pfx_table_notify_diff new_table old sock) (λ old' w',
    table_ok old' ∧ update_fp old' = update_fp old ∧
    ∃ added removed,
      added ≡ₚ new_of sock (records new_table) (records old) ∧
      removed ≡ₚ new_of sock (records old) (records new_table) ∧
      emits w (additions new_table added ++ removals new_table removed) w') w.
Proof. apply pfx_table_notify_diff_spec. Qed.

End Theorems.

Lemma validate_rfc6811_witness :
  rov_state 64496 24 (covering_records sample_table (Addr4 {| addr := 167837696 |}) 24) =
    RTR_BGP_PFXV_STATE_INVALID ∧
  wp (rtr_pfx_table_validate (H := debug_build) sample_table 64497 (Addr4 {| addr := 167837696 |}) 24)
    (λ '(rtval, result, t') w',
      rtval = RTR_PFX_SUCCESS ∧
      result = Some (rov_state 64497 24
        (covering_records sample_table (Addr4 {| addr := 167837696 |}) 24)) ∧
      t' = sample_table ∧ emits empty_world [] w') empty_world.
Proof.
  split; [vm_compute; reflexivity|].
  apply (@validate_rfc6811 debug_build pfx_event _); [decided|decided|vm_compute; discriminate].
Defined.

Lemma validate_reasons_witness :
  let pfx := Addr4 {| addr := 167837696 |} in
  let cov := covering_records sample_table pfx 24 in
  rov_state 64496 24 cov = RTR_BGP_PFXV_STATE_INVALID ∧
  wp (rtr_pfx_table_validate_r (H := debug_build) sample_table true 64496 pfx 24)
    (λ '(rtval, result, reason, t') w', t' = sample_table ∧ emits empty_world [] w' ∧
    ((rtval = RTR_PFX_SUCCESS ∧ result = Some (rov_state 64496 24 cov) ∧
      match rov_state 64496 24 cov with
      | RTR_BGP_PFXV_STATE_VALID =>
          (∃ rest, cov ≡ₚ reason ++ rest) ∧ ∃ r, r ∈ reason ∧ rov_match 64496 24 r = true
      | _ => reason ≡ₚ cov
      end) ∨
     (rtval = RTR_PFX_ERROR ∧ result = None ∧ reason = [] ∧ ¬ no_fail empty_world))) empty_world.
Proof.
  split; [vm_compute; reflexivity|].
  apply (@validate_reasons debug_build pfx_event _); [decided|decided|vm_compute; discriminate].
Defined.

(** A record with the prefix of [r10_8] and another origin. *)
Definition r10_8' : rtr_pfx_record := PfxRecord 64499 (Addr4 {| addr := 167772160 |}) 8 8 2%nat.

Lemma add_correct_witness :
  r10_8' ∉ records sample_table ∧
  wp (rtr_pfx_table_add (H := debug_build) (Some sample_table) (Some r10_8')) (λ '(rtval, res) w',
    ∃ t', res = Some t' ∧ table_ok (H := debug_build) t' ∧
    ((rtval = RTR_PFX_DUPLICATE_RECORD ∧ r10_8' ∈ records sample_table ∧ t' = sample_table ∧
        emits empty_world [] w') ∨
     (rtval = RTR_PFX_SUCCESS ∧ r10_8' ∉ records sample_table ∧
        records t' ≡ₚ r10_8' :: records sample_table ∧
        emits empty_world (notification sample_table r10_8' RTR_PFX_ADD) w') ∨
     (rtval = RTR_PFX_ERROR ∧ ¬ no_fail empty_world ∧ t' = sample_table ∧
        emits empty_world [] w'))) empty_world.
Proof.
  split; [decided|]. apply (@add_correct debug_build pfx_event _); decided.
Defined.

Lemma remove_correct_witness :
  r10_8 ∈ records sample_table ∧
  wp (rtr_pfx_table_remove (H := debug_build) sample_table r10_8) (λ '(rtval, t') w',
    table_ok (H := debug_build) t' ∧
    ((rtval = RTR_PFX_RECORD_NOT_FOUND ∧ r10_8 ∉ records sample_table ∧ t' = sample_table ∧
        emits empty_world [] w') ∨
     (rtval = RTR_PFX_SUCCESS ∧ records sample_table ≡ₚ r10_8 :: records t' ∧
        emits empty_world (notification sample_table r10_8 RTR_PFX_REMOVE) w') ∨
     (rtval = RTR_PFX_ERROR ∧ ¬ no_fail empty_world ∧ records t' ≡ₚ records sample_table ∧
        emits empty_world [] w'))) empty_world.
Proof.
  split; [decided|]. apply (@remove_correct debug_build pfx_event _); decided.
Defined.

Lemma run_ops_refines_witness :
  let ops := [OpAdd r10_8'; OpAdd r10_8'; OpRemove r10_8; OpRemove r10_8] in
  wp (run_ops (H := debug_build) ops sample_table) (λ '(rtvals, t') w',
    table_ok (H := debug_build) t' ∧ rtvals = (set_ops ops (records sample_table)).1 ∧
    records t' ≡ₚ (set_ops ops (records sample_table)).2) empty_world ∧
  (set_ops ops (records sample_table)).1 =
    [RTR_PFX_SUCCESS; RTR_PFX_DUPLICATE_RECORD; RTR_PFX_SUCCESS; RTR_PFX_RECORD_NOT_FOUND].
Proof.
  split; [|vm_compute; reflexivity].
  apply (@run_ops_refines debug_build pfx_event _); [decided|decided|constructor|reflexivity].
Defined.

Lemma src_remove_correct_witness :
  of_socket 1 (records sample_table) = [r10_1_16; r10_8] ∧
  wp (rtr_pfx_table_src_remove (H := debug_build) (Some sample_table) 1) (λ '(rtval, res) w',
    ∃ t' gone, res = Some t' ∧ table_ok (H := debug_build) t' ∧
    records sample_table ≡ₚ gone ++ records t' ∧ emits empty_world (removals sample_table gone) w' ∧
    ((rtval = RTR_PFX_SUCCESS ∧ gone ≡ₚ of_socket 1 (records sample_table) ∧
        records t' ≡ₚ of_others 1 (records sample_table)) ∨
     (rtval = RTR_PFX_ERROR ∧ ¬ no_fail empty_world ∧ ∀ r, r ∈ gone → socket r = 1%nat)))
    empty_world.
Proof.
  split; [vm_compute; reflexivity|]. apply (@src_remove_correct debug_build pfx_event _); decided.
Defined.

Lemma free_notifies_all_witness :
  wp (rtr_pfx_table_free (H := debug_build) (Some sample_table)) (λ res w', ∃ t' gone,
    res = Some t' ∧ records t' = [] ∧ lock t' = Unlocked ∧ gone ≡ₚ records sample_table ∧
    emits empty_world (removals sample_table gone) w') empty_world.
Proof. apply (@free_notifies_all debug_build pfx_event _); decided. Defined.

Lemma for_each_visits_all_witness :
  let count := λ (_ : rtr_pfx_record) (n : nat), mret (M := M pfx_event) (S n) in
  rtr_pfx_table_for_each_ipv4_record count (Some sample_table) 0%nat empty_world =
    Some (RTR_PFX_SUCCESS, 2%nat, empty_world) ∧
  NoDup (records sample_table).
Proof.
  intros count.
  destruct (@for_each_visits_all debug_build pfx_event nat count sample_table 0%nat empty_world)
    as (H4 & _ & Hn); [decided|]. split; [|exact Hn]. rewrite H4. reflexivity.
Defined.

Lemma copy_except_socket_correct_witness :
  of_others 1 (records sample_table) = [r2001] ∧
  wp (pfx_table_copy_except_socket (H := debug_build) (Some sample_table)
        (rtr_pfx_table_init None) 1) (λ '(rtval, dst) w',
    table_ok (H := debug_build) dst ∧ emits empty_world [] w' ∧
    ((rtval = RTR_PFX_SUCCESS ∧ records dst ≡ₚ of_others 1 (records sample_table)) ∨
     (rtval = RTR_PFX_ERROR ∧ ¬ no_fail empty_world))) empty_world.
Proof.
  split; [vm_compute; reflexivity|].
  apply (@copy_except_socket_correct debug_build pfx_event _); decided.
Defined.

(** The sample table after [r10_8] was withdrawn and [r10_8'] announced. *)
Definition sample_table' : rtr_pfx_table :=
  PfxTable (leaf r10_8' (leaf r10_1_16 NULL NULL) NULL) (leaf r2001 NULL NULL) (Some 7%nat) Unlocked.

Lemma notify_diff_correct_witness :
  new_of 1 (records sample_table) (records sample_table') = [r10_8] ∧
  wp (pfx_table_notify_diff (H := debug_build) sample_table' sample_table 1) (λ old' w',
    table_ok (H := debug_build) old' ∧ update_fp old' = update_fp sample_table ∧
    ∃ added removed,
      added ≡ₚ new_of 1 (records sample_table') (records sample_table) ∧
      removed ≡ₚ new_of 1 (records sample_table) (records sample_table') ∧
      emits empty_world (additions sample_table' added ++ removals sample_table' removed) w')
    empty_world.
Proof.
  split; [vm_compute; reflexivity|].
  apply (@notify_diff_correct debug_build pfx_event _); [decided|decided|constructor].
Defined.

(** ** Limits *)

Fixpoint add_all `{Build} (rs : list rtr_pfx_record) (t : rtr_pfx_table)
  : M pfx_event rtr_pfx_table :=
  match rs with
  | [] => mret t
  | r :: rs => '(_, t) ← pfx_table_add t r; add_all rs t
  end.

(** 128.0.0.0/1 and 0.0.0.0/1 to 0.0.0.0/32. *)
Definition deep_records : list rtr_pfx_record :=
  PfxRecord 1 (Addr4 {| addr := 2147483648 |}) 1 32 1%nat ::
  ((λ n, PfxRecord 1 (Addr4 {| addr := 0 |}) n 32 1%nat) <$> seqZ 1 32).

(** 33 ordinary records make a tree with 33 levels. *)
Lemma validate_defined_witness :
  ∃ t w, add_all (H := debug_build) deep_records (rtr_pfx_table_init None) empty_world = Some (t, w) ∧
    height (ipv4 t) = 33 ∧
    ¬ ∀ origin pfx prefix_len (w : world pfx_event), is_u32 origin → ver pfx = RTR_IPV4 → valid_addr pfx → 0 <= prefix_len <= 32 →
        is_Some (rtr_pfx_table_validate (H := debug_build) t origin pfx prefix_len w).
Proof.
  eexists _, _. split; [vm_compute; reflexivity|]. split; [vm_compute; reflexivity|]. intros Hdef.
  match type of Hdef with context [rtr_pfx_table_validate ?t _ _ _ _] =>
    destruct (@validate_defined debug_build pfx_event t RTR_IPV4) as [_ Hiff]; [decided|] end.
  apply (Hiff (or_introl eq_refl)) in Hdef. by apply Hdef.
Defined.

(** A record for the default route 0.0.0.0/0, or ::/0, is accepted, but where
    assertions are compiled in the next validation aborts the process. *)
Theorem default_route_aborts v :
  let a := zero_addr v in
  let r := PfxRecord 1 a 0 (width v) 1%nat in
  ∃ t w, rtr_pfx_table_add (H := debug_build) (Some (rtr_pfx_table_init None)) (Some r) empty_world =
      Some ((RTR_PFX_SUCCESS, Some t), w) ∧
    rtr_pfx_table_validate (H := debug_build) t 1 a 8 w = None ∧
    ∃ w', rtr_pfx_table_validate (H := release_build) t 1 a 8 w =
      Some ((RTR_PFX_SUCCESS, Some RTR_BGP_PFXV_STATE_VALID, t), w').
Proof.
  intros a r. subst a r. destruct v; eexists _, _; (split; [vm_compute; reflexivity|]);
    (split; [vm_compute; reflexivity|]); eexists; vm_compute; reflexivity.
Qed.
