(* ===== verification/AspaArray.v ===== *)
(** * The array of ASPA records: [rtrlib/aspa/aspa_array/aspa_array.c]

    [data] holds the records that are in the allocated memory, [room] is the
    number of bytes allocated for them, as opposed to the [capacity] the code
    believes in; a write beyond [room] and a read of a record that is not in
    [data] are undefined. *)

From S2P Require Import Prelude.

Inductive rtr_aspa_status :=
| RTR_ASPA_SUCCESS
| RTR_ASPA_ERROR
| RTR_ASPA_DUPLICATE_RECORD
| RTR_ASPA_RECORD_NOT_FOUND
| RTR_ASPA_NOT_INITIALIZED.

#[global] Instance rtr_aspa_status_eq_dec : EqDecision rtr_aspa_status.
Proof. solve_decision. Defined.

(** [provider_asns] is [None] for the null pointer. *)
Record rtr_aspa_record := AspaRecord {
  customer_asn : Z;
  provider_count : nat;
  provider_asns : option (list Z) }.

#[global] Instance rtr_aspa_record_eq_dec : EqDecision rtr_aspa_record.
Proof. solve_decision. Defined.

Record aspa_array := AspaArray {
  size : nat;
  capacity : Z;
  room : Z;
  data : list rtr_aspa_record }.

Definition sizeof_record : Z := 24.

Section AspaArray.
Context {E : Type}.
Implicit Types (a : aspa_array) (r record : rtr_aspa_record).

(** ** Operations *)

Definition aspa_array_create : M E (option aspa_array) :=
  let default_initial_size := 128 in
  ok ← alloc;
  if negb ok then mret None
  else
    ok ← alloc;
    if negb ok then mret None
    else mret (Some (AspaArray 0 default_initial_size (sizeof_record * default_initial_size) [])).

Definition aspa_array_reallocate a : M E (rtr_aspa_status * aspa_array) :=
  let SIZE_INCREASE_OFFSET := 1000 in
  ok ← alloc;
  if negb ok then mret (RTR_ASPA_ERROR, a)
  else mret (RTR_ASPA_SUCCESS,
    AspaArray (size a) (capacity a + SIZE_INCREASE_OFFSET)
      (sizeof_record * capacity a + SIZE_INCREASE_OFFSET) (data a)).

(** Writing the record at [index], the records from there on having moved up. *)
Definition put_record a (index : nat) record : option aspa_array :=
  if sizeof_record * (Z.of_nat (size a) + 1) <=? room a then
    Some (AspaArray (S (size a)) (capacity a) (room a)
      (take index (data a) ++ record :: drop index (data a)))
  else None.

Definition aspa_array_insert_internal a (index : nat) record (copy_providers : bool)
  : M E (rtr_aspa_status * aspa_array) :=
  '(err, a) ← (if capacity a <=? Z.of_nat (size a) then aspa_array_reallocate a
               else mret (RTR_ASPA_SUCCESS, a));
  if decide (err = RTR_ASPA_SUCCESS) then
    copied ←
      (if Nat.ltb 0 (provider_count record) then
         if copy_providers then
           ok ← alloc;
           if negb ok then mret None
           else
             l ← of_option (provider_asns record);
             mret (Some (Some (take (provider_count record) l)))
         else mret (Some (provider_asns record))
       else mret (Some None));
    match copied with
    | None => mret (RTR_ASPA_ERROR, a)
    | Some provider_asns =>
        a ← of_option (put_record a index
              (AspaRecord (customer_asn record) (provider_count record) provider_asns));
        mret (RTR_ASPA_SUCCESS, a)
    end
  else mret (RTR_ASPA_ERROR, a).

(** The guard on the record: providers must be given if there are any. *)
Definition record_given record : bool :=
  negb (Nat.ltb 0 (provider_count record) && bool_decide (provider_asns record = None)).

Definition aspa_array_insert a (index : nat) record (copy_providers : bool)
  : M E (rtr_aspa_status * aspa_array) :=
  if Nat.ltb (size a) index || negb (record_given record) then mret (RTR_ASPA_ERROR, a)
  else aspa_array_insert_internal a index record copy_providers.

Definition aspa_array_append a record (copy_providers : bool)
  : M E (rtr_aspa_status * aspa_array) :=
  if negb (record_given record) then mret (RTR_ASPA_ERROR, a)
  else aspa_array_insert_internal a (size a) record copy_providers.

(** The smaller block has [size + 1000] bytes: what lies beyond is lost. *)
Definition aspa_array_remove a (index : nat) : M E (rtr_aspa_status * aspa_array) :=
  if Nat.leb (size a) index || Nat.eqb (size a) 0 then mret (RTR_ASPA_RECORD_NOT_FOUND, a)
  else
    let a := AspaArray (size a - 1) (capacity a) (room a) (delete index (data a)) in
    let SIZE_DECREASE_OFFSET := 1000 in
    let new_size := Z.of_nat (size a) + SIZE_DECREASE_OFFSET in
    if new_size <? capacity a then
      ok ← alloc;
      if negb ok then mret (RTR_ASPA_SUCCESS, a)
      else mret (RTR_ASPA_SUCCESS, AspaArray (size a) new_size new_size
                   (take (Z.to_nat (new_size / sizeof_record)) (data a)))
    else mret (RTR_ASPA_SUCCESS, a).

(** The inner [option] is the pointer returned. *)
Definition aspa_array_get_record a (index : nat) : option (option rtr_aspa_record) :=
  if Nat.leb (size a) index || Nat.eqb (size a) 0 then Some None
  else r ← data a !! index; Some (Some r).

(** The loop between [left] and [right]; the result is the index found. *)
Fixpoint aspa_array_search_loop (fuel : nat) a (customer : Z) (left right : nat)
  : option (option nat) :=
  match fuel with
  | O => None
  | S fuel =>
      if Nat.leb left right then
        let center := Nat.div2 (left + right) in
        r ← data a !! center;
        let center_value := customer_asn r in
        if center_value =? customer then Some (Some center)
        else if center_value <? customer then aspa_array_search_loop fuel a customer (center + 1) right
        else if Nat.eqb center 0 then Some None
        else aspa_array_search_loop fuel a customer left (center - 1)
      else Some None
  end.

Definition aspa_array_search a (customer : Z) : option (option rtr_aspa_record) :=
  if Nat.eqb (size a) 0 || (capacity a =? 0) then Some None
  else
    found ← aspa_array_search_loop (S (size a)) a customer 0 (size a - 1);
    match found with
    | Some i => r ← data a !! i; Some (Some r)
    | None => Some None
    end.

Definition aspa_array_reserve a (new_size : Z) : M E (rtr_aspa_status * aspa_array) :=
  if new_size <=? capacity a then mret (RTR_ASPA_SUCCESS, a)
  else
    ok ← alloc;
    if negb ok then mret (RTR_ASPA_ERROR, a)
    else mret (RTR_ASPA_SUCCESS, AspaArray (size a) new_size (sizeof_record * new_size) (data a)).

(** ** Invariant *)

(** The array is consistent with its memory. *)
Definition array_ok a : Prop :=
  length (data a) = size a ∧ Z.of_nat (size a) <= capacity a ∧
  sizeof_record * Z.of_nat (size a) <= room a.

(** The capacity is really there. *)
Definition capacity_ok a : Prop := sizeof_record * capacity a <= room a.

(** The records are in strictly ascending order of their customers. *)
Definition customers_sorted (rs : list rtr_aspa_record) : Prop :=
  StronglySorted (λ r r', customer_asn r < customer_asn r') rs.

(** ** Search *)

Lemma sorted_lookup_lt rs i j r r' :
  customers_sorted rs → rs !! i = Some r → rs !! j = Some r' → (i < j)%nat →
  customer_asn r < customer_asn r'.
Proof.
  intros Hs. revert i j. induction Hs as [|x rs Hs IH Hx]; intros i j; [done|].
  destruct i as [|i], j as [|j]; simpl; intros Hi Hj Hij; try lia.
  - simplify_eq. rewrite Forall_forall in Hx. apply Hx. by eapply list_elem_of_lookup_2.
  - apply (IH i j); [done..|lia].
Qed.

(** The index of the record of a customer. *)
Definition is_record_at a (customer : Z) (i : nat) : Prop :=
  ∃ r, data a !! i = Some r ∧ customer_asn r = customer.

Lemma search_loop_spec a customer fuel left right :
  customers_sorted (data a) → (right < length (data a))%nat → (right + 1 - left < fuel)%nat →
  (∀ i, is_record_at a customer i → (left <= i <= right)%nat) →
  ∃ res, aspa_array_search_loop fuel a customer left right = Some res ∧
    match res with
    | Some i => is_record_at a customer i
    | None => ∀ i, ¬ is_record_at a customer i
    end.
Proof.
  intros Hs. revert left right. induction fuel as [|fuel IH]; intros left right Hr Hf Hin; [lia|].
  cbn [aspa_array_search_loop]. destruct (Nat.leb_spec left right) as [Hle|Hgt].
  2:{ exists None. split; [done|]. intros i Hi%Hin. lia. }
  pose proof (Nat.div2_odd (left + right)) as Hd. set (center := Nat.div2 (left + right)) in *.
  assert (left <= center <= right)%nat as Hc by (destruct (Nat.odd _); simpl in Hd; lia).
  destruct (lookup_lt_is_Some_2 (data a) center) as [r Hlk]; [lia|]. rewrite Hlk. simpl.
  assert (∀ i r', data a !! i = Some r' → customer_asn r' = customer →
    (i < center)%nat → customer < customer_asn r) as Hlt.
  { intros i r' Hi <- Hic. by eapply sorted_lookup_lt. }
  assert (∀ i r', data a !! i = Some r' → customer_asn r' = customer →
    (center < i)%nat → customer_asn r < customer) as Hgt.
  { intros i r' Hi <- Hic. by eapply sorted_lookup_lt. }
  destruct (Z.eqb_spec (customer_asn r) customer) as [Heq|Hne].
  { exists (Some center). split; [done|]. by exists r. }
  assert (∀ i, is_record_at a customer i → i ≠ center) as Hnc.
  { intros i (r' & Hi & He) ->. congruence. }
  destruct (Z.ltb_spec (customer_asn r) customer).
  - apply IH; [done|lia|]. intros i Hi. pose proof (Hin i Hi). pose proof (Hnc i Hi).
    destruct Hi as (r' & Hi & He). specialize (Hlt i r' Hi He). lia.
  - destruct (Nat.eqb_spec center 0) as [H0|H0].
    + exists None. split; [done|]. intros i Hi. pose proof (Hnc i Hi).
      destruct Hi as (r' & Hi & He). specialize (Hgt i r' Hi He). lia.
    + apply IH; [lia..|]. intros i Hi. pose proof (Hin i Hi). pose proof (Hnc i Hi).
      destruct Hi as (r' & Hi & He). specialize (Hgt i r' Hi He). lia.
Qed.

(** Search finds the record of the customer, if there is one. *)
Lemma aspa_array_search_spec a customer :
  array_ok a → customers_sorted (data a) →
  ∃ res, aspa_array_search a customer = Some res ∧
    match res with
    | Some r => r ∈ data a ∧ customer_asn r = customer
    | None => ∀ r, r ∈ data a → customer_asn r ≠ customer
    end.
Proof.
  intros (Hlen & Hcap & _) Hs. unfold aspa_array_search.
  destruct (Nat.eqb_spec (size a) 0) as [H0|H0]; cbn [orb].
  { exists None. split; [done|]. intros r Hr. destruct (data a); [inversion Hr|simpl in *; lia]. }
  destruct (Z.eqb_spec (capacity a) 0); [lia|].
  destruct (search_loop_spec a customer (S (size a)) 0 (size a - 1)) as (res & -> & Hres);
    [done|lia|lia|..].
  { intros i (r & Hi%lookup_lt_Some & _). lia. }
  simpl. destruct res as [i|].
  - destruct Hres as (r & Hi & He). rewrite Hi. simpl. exists (Some r). split_and!; [done| |done].
    by eapply list_elem_of_lookup_2.
  - exists None. split; [done|]. intros r (i & Hi)%list_elem_of_lookup He. apply (Hres i). by exists r.
Qed.

(** ** Insertion *)

Lemma put_record_spec a r :
  array_ok a → sizeof_record * (Z.of_nat (size a) + 1) <= room a → Z.of_nat (size a) < capacity a →
  ∃ a', put_record a (size a) r = Some a' ∧ array_ok a' ∧ data a' = data a ++ [r] ∧
    capacity a' = capacity a ∧ room a' = room a.
Proof.
  intros (Hlen & Hcap & Hroom) Hr Hc. unfold put_record. rewrite (proj2 (Z.leb_le _ _) Hr).
  eexists. split; [done|]. rewrite <- Hlen, firstn_all, drop_all. split_and!; try done.
  unfold array_ok. simpl. rewrite length_app. simpl. unfold sizeof_record in *. lia.
Qed.

(** The record as it is stored. *)
Definition stored record : rtr_aspa_record :=
  AspaRecord (customer_asn record) (provider_count record)
    (if Nat.ltb 0 (provider_count record) then provider_asns record else None).

(** A record whose array has as many providers as it says. *)
Definition record_wf record : Prop :=
  match provider_asns record with
  | Some l => length l = provider_count record
  | None => provider_count record = 0%nat
  end.

Lemma append_spec a r copy (w : world E) :
  array_ok a → capacity_ok a → Z.of_nat (size a) < capacity a → record_wf r →
  wp (aspa_array_append a r copy) (λ '(err, a') w', emits w [] w' ∧
    ((err = RTR_ASPA_SUCCESS ∧ array_ok a' ∧ capacity_ok a' ∧ capacity a' = capacity a ∧
      size a' = S (size a) ∧ data a' = data a ++ [stored r]) ∨
     (err = RTR_ASPA_ERROR ∧ a' = a ∧ ¬ no_fail w ∧ copy = true))) w.
Proof.
  intros Hok Hcap Hlt Hwf. unfold aspa_array_append.
  assert (record_given r = true) as ->.
  { unfold record_given. apply negb_true_iff, andb_false_iff. unfold record_wf in Hwf.
    destruct (provider_asns r); [right; by apply bool_decide_eq_false|left]. by rewrite Hwf. }
  simpl. unfold aspa_array_insert_internal. rewrite (proj2 (Z.leb_gt _ _) Hlt). do 2 wp_step.
  cbv beta iota. rewrite decide_True by done. wp_step.
  assert (∀ w', emits w [] w' → wp (a0 ← of_option (put_record a (size a) (stored r));
      mret (RTR_ASPA_SUCCESS, a0)) (λ '(err, a') w', emits w [] w' ∧
    ((err = RTR_ASPA_SUCCESS ∧ array_ok a' ∧ capacity_ok a' ∧ capacity a' = capacity a ∧
      size a' = S (size a) ∧ data a' = data a ++ [stored r]) ∨
     (err = RTR_ASPA_ERROR ∧ a' = a ∧ ¬ no_fail w ∧ copy = true))) w') as Hput.
  { intros w' Hw. destruct (put_record_spec a (stored r)) as (a' & Hp & Hok' & Hd & Hc & Hr); try done.
    { unfold capacity_ok, sizeof_record in *. lia. }
    wp_step. eapply wp_of_option; [exact Hp|]. wp_step. split; [done|]. left. split_and!; try done.
    - unfold capacity_ok in *. congruence.
    - destruct Hok as (Hl & _), Hok' as (Hl' & _). rewrite <- Hl', Hd, length_app, Hl. simpl. lia. }
  destruct (Nat.ltb 0 (provider_count r)) eqn:Hpc.
  - unfold record_wf in Hwf. destruct (provider_asns r) as [l|] eqn:Hl; [|by rewrite Hwf in Hpc].
    assert (stored r = AspaRecord (customer_asn r) (provider_count r) (Some l)) as Hst
      by (unfold stored; by rewrite Hpc, Hl).
    destruct copy.
    + do 2 wp_step. destruct b; simpl; [|wp_step; wp_step; split; [done|right]; auto].
      do 2 wp_step. wp_step. rewrite firstn_all2, <- Hst by lia. by apply Hput.
    + wp_step. rewrite <- Hst. apply Hput, emits_refl.
  - assert (stored r = AspaRecord (customer_asn r) (provider_count r) None) as Hst
      by (unfold stored; by rewrite Hpc).
    wp_step. rewrite <- Hst. apply Hput, emits_refl.
Qed.

End AspaArray.
