(* ===== verification/Aspa.v ===== *)
(** * The ASPA table: [rtrlib/aspa/aspa.c]

    The store is the linked list of a table, a node for each cache; a pointer to
    a node is its position.  The array of a node is never null, and the provider
    arrays, which the code never writes to once they are in a table, are values:
    what is freed when is not modelled. *)

From S2P Require Import Prelude AspaArray.

Inductive rtr_aspa_operation_type := RTR_ASPA_REMOVE | RTR_ASPA_ADD.

#[global] Instance rtr_aspa_operation_type_eq_dec : EqDecision rtr_aspa_operation_type.
Proof. solve_decision. Defined.

Record aspa_store_node := StoreNode { node_array : aspa_array; node_socket : socket_ptr }.

Record rtr_aspa_table := AspaTable {
  lock : rwlock;
  update_lock : rwlock;
  update_fp : option fn_ptr;
  store : list aspa_store_node }.

Record aspa_update_operation := AspaOp {
  index : nat;
  type : rtr_aspa_operation_type;
  record : rtr_aspa_record;
  is_no_op : bool }.

(** A pointer in a structure that comes from [malloc]. *)
Inductive field (A : Type) := Uninit | Null | Ptr (x : A).
Arguments Uninit {A}.
Arguments Null {A}.
Arguments Ptr {A} _.

Definition read_field {A} (f : field A) : option (option A) :=
  match f with Uninit => None | Null => Some None | Ptr x => Some (Some x) end.

(** [operations == NULL] only after the update was consumed; [node] is the cache
    of the node, [failed_operation] the position of the operation. *)
Record aspa_update := AspaUpdate {
  operations : list aspa_update_operation;
  failed_operation : option nat;
  node : field socket_ptr;
  new_array : field aspa_array;
  replaced_records : field aspa_array }.

(** A call of an [rtr_aspa_update_fp]. *)
Inductive aspa_event :=
| AspaNotify (fp : fn_ptr) (r : rtr_aspa_record) (sock : socket_ptr) (op : rtr_aspa_operation_type).

Definition set_lock (t : rtr_aspa_table) (l : rwlock) : rtr_aspa_table :=
  AspaTable l (update_lock t) (update_fp t) (store t).
Definition set_update_lock (t : rtr_aspa_table) (l : rwlock) : rtr_aspa_table :=
  AspaTable (lock t) l (update_fp t) (store t).
Definition set_store (t : rtr_aspa_table) (s : list aspa_store_node) : rtr_aspa_table :=
  AspaTable (lock t) (update_lock t) (update_fp t) s.

Section Aspa.
Context `{Build} {E : Type} `{!Event aspa_event E}.
Implicit Types (t : rtr_aspa_table) (sock : socket_ptr).

Definition wrlock_table t : M E rtr_aspa_table :=
  l ← of_option (wrlock (lock t)); mret (set_lock t l).
Definition rdlock_table t : M E rtr_aspa_table :=
  l ← of_option (rdlock (lock t)); mret (set_lock t l).
Definition unlock_table t : M E rtr_aspa_table :=
  l ← of_option (unlock (lock t)); mret (set_lock t l).
Definition wrlock_update t : M E rtr_aspa_table :=
  l ← of_option (wrlock (update_lock t)); mret (set_update_lock t l).
Definition unlock_update t : M E rtr_aspa_table :=
  l ← of_option (unlock (update_lock t)); mret (set_update_lock t l).

(** ** Notification *)

(** The client gets a copy of the providers. *)
Definition aspa_table_notify_clients t (r : rtr_aspa_record) sock (op : rtr_aspa_operation_type)
  : M E rtr_aspa_status :=
  match update_fp t with
  | None => mret RTR_ASPA_SUCCESS
  | Some fp =>
      match provider_asns r with
      | Some l =>
          if Nat.ltb 0 (provider_count r) then
            ok ← alloc;
            if negb ok then mret RTR_ASPA_ERROR
            else
              emit (event (AspaNotify fp (AspaRecord (customer_asn r) (provider_count r)
                (Some (take (provider_count r) l))) sock op));;
              mret RTR_ASPA_SUCCESS
          else
            emit (event (AspaNotify fp (AspaRecord (customer_asn r) (provider_count r) None) sock op));;
            mret RTR_ASPA_SUCCESS
      | None =>
          emit (event (AspaNotify fp (AspaRecord (customer_asn r) (provider_count r) None) sock op));;
          mret RTR_ASPA_SUCCESS
      end
  end.

(** The loops that notify the clients of [array->size] records, from [i] on. *)
Fixpoint aspa_table_notify_array t (a : aspa_array) (n i : nat) sock (op : rtr_aspa_operation_type)
  : M E unit :=
  match n with
  | O => mret tt
  | S n =>
      r ← of_option (aspa_array_get_record a i);
      match r with
      | Some r => aspa_table_notify_clients t r sock op;; mret tt
      | None => mret tt
      end;;
      aspa_table_notify_array t a n (S i) sock op
  end.

(** ** The store *)

Definition aspa_store_create_node (s : list aspa_store_node) sock (a : aspa_array)
  : M E (rtr_aspa_status * list aspa_store_node) :=
  ok ← alloc;
  if negb ok then mret (RTR_ASPA_ERROR, s)
  else mret (RTR_ASPA_SUCCESS, StoreNode a sock :: s).

Definition aspa_store_remove_node (s : list aspa_store_node) (pos : nat) : list aspa_store_node :=
  delete pos s.

(** The position of the node of [sock], [None] is the null pointer. *)
Fixpoint aspa_store_get_node (s : list aspa_store_node) sock : option nat :=
  match s with
  | [] => None
  | n :: s =>
      if decide (node_socket n = sock) then Some 0%nat
      else i ← aspa_store_get_node s sock; Some (S i)
  end.

Definition set_node_array (s : list aspa_store_node) (pos : nat) (a : aspa_array)
  : option (list aspa_store_node) :=
  n ← s !! pos; Some (<[pos := StoreNode a (node_socket n)]> s).

Definition rtr_aspa_table_init (update_fp : option fn_ptr) : rtr_aspa_table :=
  AspaTable Unlocked Unlocked update_fp [].

Definition aspa_table_remove_node t (pos : nat) (notify : bool)
  : M E (rtr_aspa_status * rtr_aspa_table) :=
  n ← of_option (store t !! pos);
  let t := set_store t (aspa_store_remove_node (store t) pos) in
  (if notify
   then aspa_table_notify_array t (node_array n) (size (node_array n)) 0 (node_socket n)
          RTR_ASPA_REMOVE
   else mret tt);;
  mret (RTR_ASPA_SUCCESS, t).

Definition rtr_aspa_table_src_remove (aspa_table : option rtr_aspa_table) sock (notify : bool)
  : M E (rtr_aspa_status * option rtr_aspa_table) :=
  match aspa_table with
  | None => mret (RTR_ASPA_SUCCESS, None)
  | Some t =>
      t ← wrlock_update t;
      t ← wrlock_table t;
      '(res, t) ←
        match aspa_store_get_node (store t) sock with
        | None => mret (RTR_ASPA_SUCCESS, t)
        | Some pos => aspa_table_remove_node t pos notify
        end;
      t ← unlock_table t;
      t ← unlock_update t;
      mret (res, Some t)
  end.

(** The loop of [rtr_aspa_table_free]: the list of nodes gets shorter. *)
Fixpoint aspa_table_free_nodes t (s : list aspa_store_node) (notify : bool) : M E rtr_aspa_table :=
  match s with
  | [] => mret t
  | _ :: s => '(_, t) ← aspa_table_remove_node t 0 notify; aspa_table_free_nodes t s notify
  end.

Definition rtr_aspa_table_free (aspa_table : option rtr_aspa_table) (notify : bool)
  : M E (option rtr_aspa_table) :=
  match aspa_table with
  | None => mret None
  | Some t =>
      t ← wrlock_update t;
      t ← wrlock_table t;
      t ← aspa_table_free_nodes t (store t) notify;
      t ← unlock_table t;
      t ← unlock_update t;
      mret (Some t)
  end.

(** ** Replacing the records of a cache *)

Definition unlock_both (dst src : rtr_aspa_table) : M E (rtr_aspa_table * rtr_aspa_table) :=
  src ← unlock_table src;
  dst ← unlock_table dst;
  src ← unlock_update src;
  dst ← unlock_update dst;
  mret (dst, src).

Definition aspa_table_src_replace (dst src : rtr_aspa_table) sock (notify_dst notify_src : bool)
  : M E (rtr_aspa_status * rtr_aspa_table * rtr_aspa_table) :=
  dst ← wrlock_update dst;
  src ← wrlock_update src;
  dst ← wrlock_table dst;
  src ← wrlock_table src;
  match aspa_store_get_node (store src) sock with
  | None =>
      '(dst, src) ← unlock_both dst src;
      mret (RTR_ASPA_ERROR, dst, src)
  | Some src_node =>
      n ← of_option (store src !! src_node);
      let new_array := node_array n in
      '(err, old_array, dst_store) ←
        match aspa_store_get_node (store dst) sock with
        | Some pos =>
            old ← of_option (store dst !! pos);
            s ← of_option (set_node_array (store dst) pos new_array);
            mret (RTR_ASPA_SUCCESS, Some (node_array old), s)
        | None =>
            '(err, s) ← aspa_store_create_node (store dst) sock new_array;
            mret (err, None, s)
        end;
      let dst := set_store dst dst_store in
      if decide (err = RTR_ASPA_SUCCESS) then
        let src := set_store src (aspa_store_remove_node (store src) src_node) in
        '(dst, src) ← unlock_both dst src;
        (if notify_src
         then aspa_table_notify_array src new_array (size new_array) 0 sock RTR_ASPA_REMOVE
         else mret tt);;
        match old_array with
        | Some old =>
            if notify_dst
            then aspa_table_notify_array dst old (size old) 0 sock RTR_ASPA_REMOVE
            else mret tt
        | None => mret tt
        end;;
        (if notify_dst
         then aspa_table_notify_array dst new_array (size new_array) 0 sock RTR_ASPA_ADD
         else mret tt);;
        mret (RTR_ASPA_SUCCESS, dst, src)
      else
        '(dst, src) ← unlock_both dst src;
        mret (RTR_ASPA_ERROR, dst, src)
  end.

End Aspa.
