(* ===== verification/AspaUpdate.v ===== *)
(** * Updating the ASPA table: the swap-in mechanism of [rtrlib/aspa/aspa.c]

    An update is computed from the array of a cache and a list of operations, and
    applied or discarded later; the table's update lock is held in between. *)

From S2P Require Import Prelude AspaArray Aspa.

(** ** The order of operations and of providers

    [qsort] with a total order on distinct elements has one possible result. *)

Definition compare_update_operations (a b : aspa_update_operation) : Z :=
  if customer_asn (record a) <? customer_asn (record b) then -1
  else if customer_asn (record b) <? customer_asn (record a) then 1
  else if Nat.ltb (index b) (index a) then 1
  else if Nat.ltb (index a) (index b) then -1
  else 0.

Definition compare_asns (a b : Z) : Z := if a <? b then -1 else if b <? a then 1 else 0.

Definition op_le (a b : aspa_update_operation) : Prop := compare_update_operations a b <= 0.
Definition asn_le (a b : Z) : Prop := compare_asns a b <= 0.

#[global] Instance op_le_dec a b : Decision (op_le a b).
Proof. unfold op_le. apply _. Defined.
#[global] Instance asn_le_dec a b : Decision (asn_le a b).
Proof. unfold asn_le. apply _. Defined.

Definition sort_operations (ops : list aspa_update_operation) : list aspa_update_operation :=
  merge_sort op_le ops.

Definition sort_providers (r : rtr_aspa_record) : rtr_aspa_record :=
  match provider_asns r with
  | Some l =>
      if Nat.ltb 0 (provider_count r) then
        AspaRecord (customer_asn r) (provider_count r)
          (Some (merge_sort asn_le (take (provider_count r) l) ++ drop (provider_count r) l))
      else r
  | None => r
  end.

Definition set_record (op : aspa_update_operation) (r : rtr_aspa_record) : aspa_update_operation :=
  AspaOp (index op) (type op) r (is_no_op op).
Definition set_no_op (op : aspa_update_operation) : aspa_update_operation :=
  AspaOp (index op) (type op) (record op) true.
Definition set_providers (op : aspa_update_operation) (n : nat) (l : option (list Z))
  : aspa_update_operation :=
  set_record op (AspaRecord (customer_asn (record op)) n l).

(** The variables of [aspa_table_update_compute_internal]. *)
Record compute_state := ComputeState {
  existing_i : nat;
  cs_new_array : aspa_array;
  cs_replaced : aspa_array }.

Section AspaUpdate.
Context `{Build} {E : Type} `{!Event aspa_event E}.
Implicit Types (t : rtr_aspa_table) (sock : socket_ptr) (array : aspa_array) (st : compute_state).

(** The loop over the existing records of smaller customers; [n] of them are left. *)
Fixpoint aspa_skip_smaller (n : nat) array (customer : Z) st : M E (rtr_aspa_status * compute_state) :=
  match n with
  | O => mret (RTR_ASPA_SUCCESS, st)
  | S n =>
      existing ← of_option (aspa_array_get_record array (existing_i st));
      existing_record ← of_option existing;
      if customer_asn existing_record <? customer then
        '(err, a) ← aspa_array_append (cs_new_array st) existing_record false;
        let st := ComputeState (S (existing_i st)) a (cs_replaced st) in
        if decide (err = RTR_ASPA_SUCCESS) then aspa_skip_smaller n array customer st
        else mret (RTR_ASPA_ERROR, st)
      else mret (RTR_ASPA_SUCCESS, st)
  end.

Definition customer_is (customer : Z) (r : option rtr_aspa_record) : bool :=
  match r with Some r => customer_asn r =? customer | None => false end.

(** An 'add' operation that is not followed by one for the same customer. *)
Definition aspa_compute_add st (existing : option rtr_aspa_record) (current : aspa_update_operation)
  : M E (rtr_aspa_status * aspa_update_operation * compute_state) :=
  '(err, a) ← aspa_array_append (cs_new_array st) (record current) true;
  let st := ComputeState (existing_i st) a (cs_replaced st) in
  if decide (err = RTR_ASPA_SUCCESS) then
    '(err, st) ←
      match existing with
      | Some existing_record =>
          if customer_asn existing_record =? customer_asn (record current) then
            '(err, b) ← aspa_array_append (cs_replaced st) existing_record false;
            mret (err, ComputeState (existing_i st) (cs_new_array st) b)
          else mret (RTR_ASPA_SUCCESS, st)
      | None => mret (RTR_ASPA_SUCCESS, st)
      end;
    if decide (err = RTR_ASPA_SUCCESS) then
      last ← of_option (aspa_array_get_record (cs_new_array st) (size (cs_new_array st) - 1));
      last ← of_option last;
      mret (RTR_ASPA_SUCCESS, set_providers current (provider_count (record current))
              (provider_asns last), st)
    else mret (RTR_ASPA_ERROR, current, st)
  else mret (RTR_ASPA_ERROR, current, st).

(** The debug build's check of a 'remove' operation. *)
Definition sanity_check (op : aspa_update_operation) : option unit :=
  match type op with
  | RTR_ASPA_REMOVE =>
      assert_ (Nat.eqb (provider_count (record op)) 0);;
      assert_ (bool_decide (provider_asns (record op) = None))
  | RTR_ASPA_ADD => Some tt
  end.

Definition next_existing st : compute_state :=
  ComputeState (S (existing_i st)) (cs_new_array st) (cs_replaced st).

(** The loop over the operations, at position [pos].  Returns the status, the
    position of the failed operation, the operations as they have become, and the
    variables. *)
Fixpoint aspa_compute_loop array (ops : list aspa_update_operation) (pos : nat) st
  : M E (rtr_aspa_status * option nat * list aspa_update_operation * compute_state) :=
  match ops with
  | [] => mret (RTR_ASPA_SUCCESS, None, [], st)
  | current :: rest =>
      of_option (sanity_check current);;
      let current := set_record current (sort_providers (record current)) in
      let customer := customer_asn (record current) in
      '(err, st) ← aspa_skip_smaller (size array - existing_i st) array customer st;
      if decide (err = RTR_ASPA_SUCCESS) then
        existing ← of_option (aspa_array_get_record array (existing_i st));
        match type current with
        | RTR_ASPA_ADD =>
            let add :=
              '(err, current, st) ← aspa_compute_add st existing current;
              if decide (err = RTR_ASPA_SUCCESS) then
                '(err, failed, rest, st) ← aspa_compute_loop array rest (S pos) st;
                mret (err, failed, current :: rest, st)
              else mret (RTR_ASPA_ERROR, Some pos, current :: rest, st) in
            match rest with
            | next :: rest' =>
                if customer_asn (record next) =? customer then
                  match type next with
                  | RTR_ASPA_ADD =>
                      mret (RTR_ASPA_DUPLICATE_RECORD, Some (S pos),
                        set_providers current (provider_count (record current)) None :: rest, st)
                  | RTR_ASPA_REMOVE =>
                      let '(current, next, st) :=
                        match existing with
                        | Some e =>
                            if customer_asn e =? customer then
                              (set_no_op current, set_providers next (provider_count e) (provider_asns e),
                               next_existing st)
                            else (set_no_op current, set_no_op next, st)
                        | None => (set_no_op current, set_no_op next, st)
                        end in
                      '(err, failed, rest, st) ← aspa_compute_loop array rest' (S (S pos)) st;
                      mret (err, failed, current :: next :: rest, st)
                  end
                else add
            | [] => add
            end
        | RTR_ASPA_REMOVE =>
            match existing with
            | Some e =>
                if customer_asn e =? customer then
                  let twice :=
                    match rest with
                    | next :: _ => (customer_asn (record next) =? customer)
                                   && bool_decide (type next = RTR_ASPA_REMOVE)
                    | [] => false
                    end in
                  if twice : bool then mret (RTR_ASPA_RECORD_NOT_FOUND, Some (S pos), current :: rest, st)
                  else
                    let current := set_providers current (provider_count e) (provider_asns e) in
                    '(err, failed, rest, st) ← aspa_compute_loop array rest (S pos) (next_existing st);
                    mret (err, failed, current :: rest, st)
                else mret (RTR_ASPA_RECORD_NOT_FOUND, Some pos, current :: rest, st)
            | None => mret (RTR_ASPA_RECORD_NOT_FOUND, Some pos, current :: rest, st)
            end
        end
      else mret (RTR_ASPA_ERROR, Some pos, current :: rest, st)
  end.

(** The remaining existing records, [n] of them; a failure to append is ignored. *)
Fixpoint aspa_append_rest (n : nat) array (i : nat) (a : aspa_array) : M E aspa_array :=
  match n with
  | O => mret a
  | S n =>
      r ← of_option (aspa_array_get_record array i);
      r ← of_option r;
      '(_, a) ← aspa_array_append a r false;
      aspa_append_rest n array (S i) a
  end.

Definition aspa_table_update_compute_internal array (new_array : aspa_array)
    (operations : list aspa_update_operation) (replaced : aspa_array)
  : M E (rtr_aspa_status * option nat * list aspa_update_operation * aspa_array * aspa_array) :=
  of_option (assert_ (Nat.ltb 0 (length operations)));;
  '(_, new_array) ← aspa_array_reserve new_array (Z.of_nat (size array + length operations));
  '(err, failed, operations, st) ←
    aspa_compute_loop array operations 0 (ComputeState 0 new_array replaced);
  let new_array := cs_new_array st in
  if decide (err = RTR_ASPA_SUCCESS) then
    last ← of_option (aspa_array_get_record new_array (size new_array - 1));
    next ← of_option (aspa_array_get_record array (existing_i st));
    let skip := match last, next with
                | Some l, Some n => customer_asn l =? customer_asn n
                | _, _ => false
                end in
    let i := if skip : bool then S (existing_i st) else existing_i st in
    new_array ← aspa_append_rest (size array - i) array i new_array;
    mret (RTR_ASPA_SUCCESS, failed, operations, new_array, cs_replaced st)
  else mret (err, failed, operations, new_array, cs_replaced st).

(** ** Computing an update *)

(** [update] is [*update]: the structure that is already there, or null. *)
Definition aspa_table_update_swap_in_compute t sock (operations : list aspa_update_operation)
    (update : option aspa_update) : M E (rtr_aspa_status * rtr_aspa_table * option aspa_update) :=
  match operations with
  | [] => mret (RTR_ASPA_SUCCESS, t, update)
  | _ =>
      update ← match update with
               | Some u => mret (Some u)
               | None =>
                   ok ← alloc;
                   mret (if ok : bool then Some (AspaUpdate [] None Uninit Uninit Uninit) else None)
               end;
      match update with
      | None => mret (RTR_ASPA_ERROR, t, None)
      | Some u =>
          t ← wrlock_update t;
          let operations := sort_operations operations in
          let fail u t := mret (RTR_ASPA_ERROR, t, Some u) in
          let u := AspaUpdate operations None (node u) (Aspa.new_array u) Null in
          t ← rdlock_table t;
          let found := aspa_store_get_node (store t) sock in
          t ← unlock_table t;
          '(found, t) ←
            match found with
            | Some pos => mret (Some pos, t)
            | None =>
                a ← aspa_array_create;
                match a with
                | None => mret (None, t)
                | Some a =>
                    t ← wrlock_table t;
                    '(err, s) ← aspa_store_create_node (store t) sock a;
                    t ← unlock_table (set_store t s);
                    mret (if decide (err = RTR_ASPA_SUCCESS) then Some 0%nat else None, t)
                end
            end;
          match found with
          | None => fail u t
          | Some pos =>
              new_array ← aspa_array_create;
              match new_array with
              | None => fail u t
              | Some new_array =>
                  replaced ← aspa_array_create;
                  match replaced with
                  | None => fail u t
                  | Some replaced =>
                      t ← rdlock_table t;
                      n ← of_option (store t !! pos);
                      '(res, failed, operations, new_array, replaced) ←
                        aspa_table_update_compute_internal (node_array n) new_array operations replaced;
                      t ← unlock_table t;
                      if decide (res = RTR_ASPA_SUCCESS) then
                        mret (res, t, Some (AspaUpdate operations failed (Ptr (node_socket n))
                                              (Ptr new_array) (Ptr replaced)))
                      else mret (res, t, Some (AspaUpdate operations failed Null Null Null))
                  end
              end
          end
      end
  end.

(** ** Applying or discarding an update *)

Fixpoint notify_operations t sock (ops : list aspa_update_operation) : M E unit :=
  match ops with
  | [] => mret tt
  | op :: ops =>
      (if is_no_op op then mret tt
       else aspa_table_notify_clients t (record op) sock (type op);; mret tt);;
      notify_operations t sock ops
  end.

(** Returns the table and [*update_pointer]. *)
Definition aspa_table_update_swap_in_consume t (update : option aspa_update) (apply : bool)
  : M E (rtr_aspa_table * option aspa_update) :=
  match update with
  | None => mret (t, None)
  | Some u =>
      if apply then
        node ← of_option (read_field (node u));
        match node with
        | None => mret (t, Some u)
        | Some sock =>
            new_array ← of_option (read_field (Aspa.new_array u));
            match new_array, failed_operation u with
            | Some a, None =>
                pos ← of_option (aspa_store_get_node (store t) sock);
                t ← wrlock_table t;
                s ← of_option (set_node_array (store t) pos a);
                t ← unlock_table (set_store t s);
                t ← unlock_update t;
                notify_operations t sock (operations u);;
                mret (t, None)
            | _, _ => mret (t, Some u)
            end
        end
      else
        t ← unlock_update t;
        of_option (read_field (Aspa.new_array u));;
        mret (t, None)
  end.

Definition aspa_table_update_swap_in_apply t (update : option aspa_update) :=
  aspa_table_update_swap_in_consume t update true.
Definition aspa_table_update_swap_in_discard t (update : option aspa_update) :=
  aspa_table_update_swap_in_consume t update false.

End AspaUpdate.
