(* ===== verification/AspaVerification.v ===== *)
(** * AS path verification: [rtrlib/aspa/aspa_verification.c]

    The path is an array with the origin at its end; the reference is the
    algorithm of draft-ietf-sidrops-aspa-verification (section 6), which works with
    the lengths of the up- and the down-ramp. *)

From S2P Require Import Prelude AspaArray Aspa.

Inductive aspa_hop_result := ASPA_NO_ATTESTATION | ASPA_NOT_PROVIDER_PLUS | ASPA_PROVIDER_PLUS.

Inductive rtr_aspa_verification_result :=
| RTR_ASPA_AS_PATH_UNKNOWN
| RTR_ASPA_AS_PATH_INVALID
| RTR_ASPA_AS_PATH_VALID.

Inductive rtr_aspa_direction := RTR_ASPA_UPSTREAM | RTR_ASPA_DOWNSTREAM.

#[global] Instance aspa_hop_result_eq_dec : EqDecision aspa_hop_result.
Proof. solve_decision. Defined.
#[global] Instance rtr_aspa_verification_result_eq_dec : EqDecision rtr_aspa_verification_result.
Proof. solve_decision. Defined.

(** ** Looking up a provider *)

(** The loop of [binary_search_asns]: [mid] is the value tested, [base] the index
    [base] points to.  The difference is taken modulo [2^32] and read as an [int].
    The result is the index found. *)
Fixpoint binary_search_loop (fuel : nat) (cas : Z) (array : list Z) (base mid top : nat)
  : option (option nat) :=
  match fuel with
  | O => None
  | S fuel =>
      if Nat.eqb mid 0 then Some None
      else
        let mid := Nat.div2 top in
        let pivot := (base + mid)%nat in
        x ← array !! pivot;
        let val := s32 (cas - x) in
        if val =? 0 then Some (Some pivot)
        else
          let base := if 0 <=? val then pivot else base in
          binary_search_loop fuel cas array base mid (top - mid)
  end.

Definition binary_search_asns (cas : Z) (array : list Z) (len : nat) : option (option nat) :=
  binary_search_loop (S (S len)) cas array 0 len len.

(** ** A hop *)

Fixpoint check_hop_nodes (s : list aspa_store_node) (customer_asn provider_asn : Z)
    (customer_found : bool) : option aspa_hop_result :=
  match s with
  | [] => Some (if customer_found then ASPA_NOT_PROVIDER_PLUS else ASPA_NO_ATTESTATION)
  | n :: s =>
      aspa_record ← aspa_array_search (node_array n) customer_asn;
      match aspa_record with
      | None => check_hop_nodes s customer_asn provider_asn customer_found
      | Some r =>
          provider ← match provider_asns r with
                     | Some l => binary_search_asns provider_asn l (provider_count r)
                     | None => if Nat.eqb (provider_count r) 0 then Some None else None
                     end;
          match provider with
          | Some _ => Some ASPA_PROVIDER_PLUS
          | None => check_hop_nodes s customer_asn provider_asn true
          end
      end
  end.

Definition aspa_check_hop (t : rtr_aspa_table) (customer_asn provider_asn : Z)
  : option aspa_hop_result :=
  if customer_asn =? provider_asn then Some ASPA_PROVIDER_PLUS
  else check_hop_nodes (store t) customer_asn provider_asn false.

(** ** The path *)

(** [aspa_check_hop] of two elements of the path. *)
Definition check_at (t : rtr_aspa_table) (as_path : list Z) (i j : nat) : option aspa_hop_result :=
  c ← as_path !! i; p ← as_path !! j; aspa_check_hop t c p.

(** [while (r > 0 && (last = check(r, r - 1)) == PROVIDER_PLUS) r--]; [last] is
    [None] as long as it is not assigned. *)
Fixpoint up_ramp (t : rtr_aspa_table) (as_path : list Z) (r : nat) (last : option aspa_hop_result)
  : option (nat * option aspa_hop_result) :=
  match r with
  | O => Some (O, last)
  | S r' =>
      h ← check_at t as_path r r';
      if decide (h = ASPA_PROVIDER_PLUS) then up_ramp t as_path r' (Some h) else Some (r, Some h)
  end.

(** [while (l < r && (last = check(l, l + 1)) == PROVIDER_PLUS) l++], with [n = r - l]. *)
Fixpoint down_ramp (t : rtr_aspa_table) (as_path : list Z) (n l : nat)
    (last : option aspa_hop_result) : option (nat * option aspa_hop_result) :=
  match n with
  | O => Some (l, last)
  | S n =>
      h ← check_at t as_path l (l + 1);
      if decide (h = ASPA_PROVIDER_PLUS) then down_ramp t as_path n (l + 1) (Some h)
      else Some (l, Some h)
  end.

(** The search for a hop that is not provider+ from [rr] down to [stop]; returns
    the final [rr] with [found_nP_from_right]. *)
Fixpoint np_from_right (t : rtr_aspa_table) (as_path : list Z) (n rr : nat) : option (nat * bool) :=
  match n with
  | O => Some (rr, false)
  | S n =>
      h ← check_at t as_path rr (rr - 1);
      if decide (h = ASPA_NOT_PROVIDER_PLUS) then Some (rr, true)
      else np_from_right t as_path n (rr - 1)
  end.

Fixpoint np_from_left (t : rtr_aspa_table) (as_path : list Z) (n ll : nat) : option bool :=
  match n with
  | O => Some false
  | S n =>
      h ← check_at t as_path ll (ll + 1);
      if decide (h = ASPA_NOT_PROVIDER_PLUS) then Some true
      else np_from_left t as_path n (ll + 1)
  end.

Definition rdlocked (t : rtr_aspa_table) : option rtr_aspa_table :=
  l ← rdlock (lock t); Some (set_lock t l).
Definition unlocked (t : rtr_aspa_table) : option rtr_aspa_table :=
  l ← unlock (lock t); Some (set_lock t l).

Definition aspa_verify_as_path_upstream (aspa_table : option rtr_aspa_table) (as_path : list Z)
  : option (rtr_aspa_verification_result * option rtr_aspa_table) :=
  match aspa_table with
  | None => Some (RTR_ASPA_AS_PATH_INVALID, None)
  | Some t =>
      let len := length as_path in
      if Nat.leb len 1 then Some (RTR_ASPA_AS_PATH_VALID, aspa_table)
      else
        t ← rdlocked t;
        '(r, last_hop_right) ← up_ramp t as_path (len - 1) None;
        if Nat.eqb r 0 then
          t ← unlocked t; Some (RTR_ASPA_AS_PATH_VALID, Some t)
        else
          last_hop_right ← last_hop_right;
          found_nP_from_right ←
            (if decide (last_hop_right = ASPA_NOT_PROVIDER_PLUS) then Some true
             else '(_, found) ← np_from_right t as_path r r; Some found);
          t ← unlocked t;
          Some (if found_nP_from_right : bool then RTR_ASPA_AS_PATH_INVALID
                else RTR_ASPA_AS_PATH_UNKNOWN, Some t)
  end.

Definition aspa_verify_as_path_downstream `{Build} (aspa_table : option rtr_aspa_table)
    (as_path : list Z) : option (rtr_aspa_verification_result * option rtr_aspa_table) :=
  match aspa_table with
  | None => Some (RTR_ASPA_AS_PATH_INVALID, None)
  | Some t =>
      let len := length as_path in
      if Nat.leb len 2 then Some (RTR_ASPA_AS_PATH_VALID, aspa_table)
      else
        t ← rdlocked t;
        '(r, last_hop_right) ← up_ramp t as_path (len - 1) None;
        '(l, last_hop_left) ← down_ramp t as_path r 0 None;
        assert_ (Nat.leb l r);;
        if Nat.leb (r - l) 1 then
          t ← unlocked t; Some (RTR_ASPA_AS_PATH_VALID, Some t)
        else
          last_hop_right ← last_hop_right;
          '(rr, found_nP_from_right) ←
            (if decide (last_hop_right = ASPA_NOT_PROVIDER_PLUS) then Some (r, true)
             else np_from_right t as_path (r - (l + 1)) r);
          found_nP_from_left ←
            (if found_nP_from_right : bool then
               last_hop_left ← last_hop_left;
               if decide (last_hop_left = ASPA_NOT_PROVIDER_PLUS) then Some true
               else np_from_left t as_path (rr - 1 - (l + 1)) (l + 1)
             else Some false);
          t ← unlocked t;
          Some (if found_nP_from_right && found_nP_from_left then RTR_ASPA_AS_PATH_INVALID
                else RTR_ASPA_AS_PATH_UNKNOWN, Some t)
  end.

Definition rtr_aspa_verify_as_path `{Build} (aspa_table : option rtr_aspa_table)
    (as_path : list Z) (direction : rtr_aspa_direction)
  : option (rtr_aspa_verification_result * option rtr_aspa_table) :=
  match direction with
  | RTR_ASPA_UPSTREAM => aspa_verify_as_path_upstream aspa_table as_path
  | RTR_ASPA_DOWNSTREAM => aspa_verify_as_path_downstream aspa_table as_path
  end.
