(* ===== verification/AspaVerificationProofs.v ===== *)
(** * AS path verification: specification and proofs *)

From S2P Require Import Prelude AspaArray Aspa AspaVerification.

(** ** Looking up a provider *)

(** The numbers whose difference the code computes exactly. *)
Definition near (a b : Z) : Prop := -2147483648 <= a - b < 2147483648.

Lemma s32_near a b : near a b → s32 (a - b) = a - b.
Proof.
  unfold near, s32, u32. intros Hn. destruct (Z.ltb_spec ((a - b) mod 4294967296) 2147483648).
  - destruct (decide (0 <= a - b)); [rewrite Z.mod_small in *; lia|].
    rewrite <- (Z_mod_plus_full (a - b) 1), Z.mod_small in *; lia.
  - destruct (decide (0 <= a - b)); [rewrite Z.mod_small in *; lia|].
    rewrite <- (Z_mod_plus_full (a - b) 1), Z.mod_small in *; lia.
Qed.

Definition asns_sorted (l : list Z) : Prop := StronglySorted Z.le l.

Lemma asns_lookup_le l i j x y :
  asns_sorted l → l !! i = Some x → l !! j = Some y → (i <= j)%nat → x <= y.
Proof.
  intros Hs. revert i j. induction Hs as [|z l Hs IH Hz]; intros i j; [done|].
  destruct i as [|i], j as [|j]; simpl; intros Hi Hj Hij; try lia.
  - simplify_eq. lia.
  - simplify_eq. rewrite Forall_forall in Hz. apply Hz. by eapply list_elem_of_lookup_2.
  - apply (IH i j); [done..|lia].
Qed.

Lemma binary_search_loop_spec cas l fuel base mid top :
  asns_sorted l → (∀ x, x ∈ l → near cas x) →
  (base + top <= length l)%nat → (1 <= top)%nat → (top < fuel)%nat → mid ≠ 0%nat →
  (∀ i, l !! i = Some cas → (base <= i < base + top)%nat) →
  ∃ res, binary_search_loop fuel cas l base mid top = Some res ∧
    match res with Some _ => cas ∈ l | None => cas ∉ l end.
Proof.
  intros Hs Hnear. revert base mid top. induction fuel as [|fuel IH]; intros base mid top Hb Ht Hf Hm Hin; [lia|].
  cbn [binary_search_loop]. destruct (Nat.eqb_spec mid 0); [done|].
  pose proof (Nat.div2_odd top) as Hd. set (m := Nat.div2 top) in *.
  assert (2 * m <= top <= 2 * m + 1)%nat as Hm2 by (destruct (Nat.odd _); simpl in Hd; lia).
  destruct (lookup_lt_is_Some_2 l (base + m)) as [x Hx]; [lia|]. rewrite Hx. cbn [mbind option_bind].
  assert (x ∈ l) as Hxl by by eapply list_elem_of_lookup_2.
  rewrite s32_near by auto. destruct (Z.eqb_spec (cas - x) 0) as [Heq|Hne].
  { exists (Some (base + m)%nat). split; [done|]. by replace cas with x by lia. }
  set (base' := if 0 <=? cas - x then (base + m)%nat else base).
  assert (∀ i, l !! i = Some cas → (base' <= i < base' + (top - m))%nat) as Hin'.
  { intros i Hi. pose proof (Hin i Hi). subst base'. destruct (Z.leb_spec 0 (cas - x)).
    - destruct (decide (i <= base + m)%nat) as [Hle|]; [|lia].
      pose proof (asns_lookup_le l i (base + m) cas x Hs Hi Hx Hle). lia.
    - destruct (decide (base + m <= i)%nat) as [Hle|]; [|lia].
      pose proof (asns_lookup_le l (base + m) i x cas Hs Hx Hi Hle). lia. }
  destruct (decide (m = 0%nat)) as [H0|H0].
  - exists None. split.
    + rewrite H0. destruct fuel; [lia|]. done.
    + intros (i & Hi)%list_elem_of_lookup. pose proof (Hin i Hi).
      assert (i = base + m)%nat as -> by lia. rewrite Hx in Hi. injection Hi as <-. lia.
  - apply IH; [|lia|lia|done|done]. subst base'. destruct (0 <=? cas - x); lia.
Qed.

Lemma binary_search_asns_spec cas l :
  asns_sorted l → (∀ x, x ∈ l → near cas x) →
  ∃ res, binary_search_asns cas l (length l) = Some res ∧
    match res with Some _ => cas ∈ l | None => cas ∉ l end.
Proof.
  intros Hs Hn. unfold binary_search_asns. destruct l as [|x l].
  { exists None. split; [done|]. apply not_elem_of_nil. }
  apply binary_search_loop_spec; try done; simpl; try lia.
  intros i Hi%lookup_lt_Some. simpl in *. lia.
Qed.

(** ** A hop *)

Definition providers (r : rtr_aspa_record) : list Z := default [] (provider_asns r).

(** A record as the arrays hold it. *)
Definition aspa_record_ok (r : rtr_aspa_record) : Prop :=
  record_wf r ∧ stored r = r ∧ asns_sorted (providers r).

Definition node_ok (n : aspa_store_node) : Prop :=
  array_ok (node_array n) ∧ customers_sorted (data (node_array n)) ∧
  Forall aspa_record_ok (data (node_array n)).

Definition store_records (s : list aspa_store_node) : list rtr_aspa_record :=
  s ≫= λ n, data (node_array n).

(** The hop from a customer to a provider, by the records of all caches. *)
Definition authorized_by (rs : list rtr_aspa_record) (c p : Z) : bool :=
  existsb (λ r, (customer_asn r =? c) && bool_decide (p ∈ providers r)) rs.
Definition attested_by (rs : list rtr_aspa_record) (c : Z) : bool :=
  existsb (λ r, customer_asn r =? c) rs.

Definition hop (rs : list rtr_aspa_record) (c p : Z) : aspa_hop_result :=
  if c =? p then ASPA_PROVIDER_PLUS
  else if authorized_by rs c p then ASPA_PROVIDER_PLUS
  else if attested_by rs c then ASPA_NOT_PROVIDER_PLUS else ASPA_NO_ATTESTATION.

(** A provider number of the table can be compared with [p]. *)
Definition comparable (rs : list rtr_aspa_record) (p : Z) : Prop :=
  ∀ r x, r ∈ rs → x ∈ providers r → near p x.

(** One array has at most one record of a customer. *)
Lemma array_authorized a c p r :
  customers_sorted (data a) → r ∈ data a → customer_asn r = c →
  authorized_by (data a) c p = bool_decide (p ∈ providers r) ∧ attested_by (data a) c = true.
Proof.
  intros Hs (i & Hi)%list_elem_of_lookup Hc.
  assert (∀ r', r' ∈ data a → customer_asn r' = c → r' = r) as Huniq.
  { intros r' (j & Hj)%list_elem_of_lookup Hc'. destruct (decide (i = j)) as [<-|Hij]; [congruence|].
    destruct (decide (i < j)%nat).
    - pose proof (sorted_lookup_lt _ _ _ _ _ Hs Hi Hj). lia.
    - pose proof (sorted_lookup_lt _ _ _ _ _ Hs Hj Hi). lia. }
  assert (r ∈ data a) as Hr by by eapply list_elem_of_lookup_2.
  unfold authorized_by, attested_by. split.
  - apply eq_true_iff_eq. rewrite existsb_exists, bool_decide_eq_true. split.
    + intros (r' & Hr'%list_elem_of_In & [Hc' Hp]%andb_true_iff).
      rewrite <- (Huniq r' Hr'); [by apply bool_decide_eq_true in Hp|by apply Z.eqb_eq].
    + intros Hp. exists r. rewrite <- list_elem_of_In, Hc, Z.eqb_refl, bool_decide_eq_true_2; auto.
  - apply existsb_exists. exists r. rewrite <- list_elem_of_In, Hc, Z.eqb_refl. auto.
Qed.

Lemma array_not_attested rs c p :
  (∀ r, r ∈ rs → customer_asn r ≠ c) → authorized_by rs c p = false ∧ attested_by rs c = false.
Proof.
  intros Hn. unfold authorized_by, attested_by. split; apply not_true_iff_false;
    rewrite existsb_exists; intros (r & Hr%list_elem_of_In & Hc);
    rewrite ?andb_true_iff, Z.eqb_eq in Hc; by apply (Hn r); try tauto.
Qed.

Lemma hop_split rs rs' c p :
  authorized_by (rs ++ rs') c p = authorized_by rs c p || authorized_by rs' c p ∧
  attested_by (rs ++ rs') c = attested_by rs c || attested_by rs' c.
Proof. unfold authorized_by, attested_by. by rewrite !existsb_app. Qed.

Lemma check_hop_nodes_spec s c p found :
  Forall node_ok s → comparable (store_records s) p →
  check_hop_nodes s c p found = Some (
    if authorized_by (store_records s) c p then ASPA_PROVIDER_PLUS
    else if found || attested_by (store_records s) c then ASPA_NOT_PROVIDER_PLUS
    else ASPA_NO_ATTESTATION).
Proof.
  revert found. induction s as [|n s IH]; intros found Hok Hcmp; simpl; [by rewrite orb_false_r|].
  apply Forall_cons in Hok as [(Ha & Hs & Hr) Hok].
  change (store_records (n :: s)) with (data (node_array n) ++ store_records s) in *.
  assert (comparable (store_records s) p) as Hcmp'.
  { intros r x Hin. apply Hcmp, elem_of_app. by right. }
  destruct (hop_split (data (node_array n)) (store_records s) c p) as [-> ->].
  destruct (aspa_array_search_spec (node_array n) c Ha Hs) as (res & -> & Hres). simpl.
  destruct res as [r|].
  - destruct Hres as [Hin Hc]. rewrite Forall_forall in Hr. destruct (Hr r Hin) as (Hwf & _ & Hsort).
    destruct (array_authorized _ c p r Hs Hin Hc) as [-> ->].
    assert (∃ q, match provider_asns r with
                 | Some l => binary_search_asns p l (provider_count r)
                 | None => if Nat.eqb (provider_count r) 0 then Some None else None
                 end = Some q ∧ match q with Some _ => p ∈ providers r | None => p ∉ providers r end)
      as (q & -> & Hq).
    { unfold record_wf in Hwf. unfold providers in *. destruct (provider_asns r) as [l|] eqn:Hl; simpl in *.
      - rewrite <- Hwf. apply binary_search_asns_spec; [done|]. intros x Hx.
        apply (Hcmp r x); [apply elem_of_app; by left|]. unfold providers. by rewrite Hl.
      - rewrite Hwf. exists None. split; [done|]. apply not_elem_of_nil. }
    simpl. destruct q.
    + by rewrite bool_decide_eq_true_2.
    + rewrite bool_decide_eq_false_2, IH by done. simpl. by rewrite orb_true_r.
  - destruct (array_not_attested _ c p Hres) as [-> ->]. by apply IH.
Qed.

Lemma aspa_check_hop_spec t c p :
  Forall node_ok (store t) → comparable (store_records (store t)) p →
  aspa_check_hop t c p = Some (hop (store_records (store t)) c p).
Proof.
  intros Hok Hcmp. unfold aspa_check_hop, hop. destruct (c =? p); [done|].
  by rewrite check_hop_nodes_spec.
Qed.

(** ** The reference algorithm *)

(** The first [u] of the [n] numbers from [u] on for which [bad] holds, else the
    number after them. *)
Fixpoint first_from (bad : nat → bool) (n u : nat) : nat :=
  match n with
  | O => u
  | S n => if bad u then u else first_from bad n (S u)
  end.

Section Reference.
Context (rs : list rtr_aspa_record) (as_path : list Z).

(** The [i]-th AS of the path, counted from the origin, which is number one. *)
Definition path_as (i : nat) : Z := default 0 (as_path !! (length as_path - i)%nat).

Definition is_not_provider (h : aspa_hop_result) : bool := bool_decide (h = ASPA_NOT_PROVIDER_PLUS).
Definition is_no_provider (h : aspa_hop_result) : bool := bool_decide (h ≠ ASPA_PROVIDER_PLUS).

(** The length of the up-ramp is the first [u] for which the hop from the [u]-th AS
    to the next one is not (or not known to be) to a provider; that of the
    down-ramp is counted in the same way from the other end. *)
Definition up_hop (u : nat) : aspa_hop_result := hop rs (path_as u) (path_as (u + 1)).
Definition down_hop (u : nat) : aspa_hop_result :=
  hop rs (path_as (length as_path + 1 - u)) (path_as (length as_path - u)).

Definition ramp (bad : nat → bool) : nat := first_from bad (length as_path - 1) 1.

Definition max_up_ramp : nat := ramp (λ u, is_not_provider (up_hop u)).
Definition min_up_ramp : nat := ramp (λ u, is_no_provider (up_hop u)).
Definition max_down_ramp : nat := ramp (λ u, is_not_provider (down_hop u)).
Definition min_down_ramp : nat := ramp (λ u, is_no_provider (down_hop u)).

Definition verify_upstream : rtr_aspa_verification_result :=
  if Nat.leb (length as_path) 1 then RTR_ASPA_AS_PATH_VALID
  else if Nat.ltb max_up_ramp (length as_path) then RTR_ASPA_AS_PATH_INVALID
  else if Nat.ltb min_up_ramp (length as_path) then RTR_ASPA_AS_PATH_UNKNOWN
  else RTR_ASPA_AS_PATH_VALID.

Definition verify_downstream : rtr_aspa_verification_result :=
  if Nat.leb (length as_path) 2 then RTR_ASPA_AS_PATH_VALID
  else if Nat.ltb (max_up_ramp + max_down_ramp) (length as_path) then RTR_ASPA_AS_PATH_INVALID
  else if Nat.ltb (min_up_ramp + min_down_ramp) (length as_path) then RTR_ASPA_AS_PATH_UNKNOWN
  else RTR_ASPA_AS_PATH_VALID.

End Reference.

Lemma is_no_provider_true h : h ≠ ASPA_PROVIDER_PLUS → is_no_provider h = true.
Proof. apply bool_decide_eq_true_2. Qed.

Lemma is_no_provider_false h : h = ASPA_PROVIDER_PLUS → is_no_provider h = false.
Proof. intros ->. done. Qed.

Lemma is_not_provider_true h : h = ASPA_NOT_PROVIDER_PLUS → is_not_provider h = true.
Proof. apply bool_decide_eq_true_2. Qed.

Lemma is_not_provider_false h : h ≠ ASPA_NOT_PROVIDER_PLUS → is_not_provider h = false.
Proof. apply bool_decide_eq_false_2. Qed.

Lemma first_from_spec bad n u :
  let x := first_from bad n u in
  (u <= x <= u + n)%nat ∧ (∀ v, (u <= v < x)%nat → bad v = false) ∧
  ((x < u + n)%nat → bad x = true).
Proof.
  revert u. induction n as [|n IH]; intros u; simpl; [split_and!; intros; lia|].
  destruct (bad u) eqn:Hb; [split_and!; intros; lia || done|].
  destruct (IH (S u)) as (Hx & Hlt & Heq). split; [lia|split].
  - intros v Hv. destruct (decide (v = u)) as [->|]; [done|]. apply Hlt. lia.
  - intros ?. apply Heq. lia.
Qed.

(** It is determined by this. *)
Lemma first_from_unique bad n u x :
  (u <= x <= u + n)%nat → (∀ v, (u <= v < x)%nat → bad v = false) →
  ((x < u + n)%nat → bad x = true) → first_from bad n u = x.
Proof.
  intros Hx Hlt Heq. destruct (first_from_spec bad n u) as (Hy & Hlt' & Heq').
  destruct (Nat.lt_trichotomy (first_from bad n u) x) as [?|[?|?]]; [|done|].
  - rewrite Hlt in Heq' by lia. discriminate Heq'. lia.
  - rewrite Hlt' in Heq by lia. discriminate Heq. lia.
Qed.

(** ** The loops *)

Section Loops.
Context (t : rtr_aspa_table) (as_path : list Z).
Hypothesis Hok : Forall node_ok (store t).
Hypothesis Hcmp : ∀ p, p ∈ as_path → comparable (store_records (store t)) p.

Notation rs := (store_records (store t)).
Notation N := (length as_path).
Notation up := (up_hop rs as_path).
Notation down := (down_hop rs as_path).

Lemma check_at_spec i j :
  (i < N)%nat → (j < N)%nat →
  check_at t as_path i j = Some (hop rs (path_as as_path (N - i)) (path_as as_path (N - j))).
Proof.
  intros Hi Hj. unfold check_at, path_as.
  replace (N - (N - i))%nat with i by lia. replace (N - (N - j))%nat with j by lia.
  destruct (lookup_lt_is_Some_2 as_path i Hi) as [c Hc], (lookup_lt_is_Some_2 as_path j Hj) as [p Hp].
  rewrite Hc, Hp. simpl. apply aspa_check_hop_spec; [done|]. apply Hcmp.
  by eapply list_elem_of_lookup_2.
Qed.

Lemma check_up r : (0 < r < N)%nat → check_at t as_path r (r - 1) = Some (up (N - r)).
Proof.
  intros Hr. rewrite check_at_spec by lia. unfold up_hop.
  by replace (N - (r - 1))%nat with (N - r + 1)%nat by lia.
Qed.

Lemma check_down l : (l + 1 < N)%nat → check_at t as_path l (l + 1) = Some (down (l + 1)).
Proof.
  intros Hl. rewrite check_at_spec by lia. unfold down_hop.
  by replace (N + 1 - (l + 1))%nat with (N - l)%nat by lia.
Qed.

Lemma up_ramp_spec r last :
  (r < N)%nat →
  let u := first_from (λ u, is_no_provider (up u)) r (N - r) in
  ∃ last', up_ramp t as_path r last = Some (N - u, last')%nat ∧
    ((u < N)%nat → last' = Some (up u)).
Proof.
  revert last. induction r as [|r IH]; intros last Hr; simpl.
  - eexists. split; [do 2 f_equal; lia|]. lia.
  - pose proof (check_up (S r)) as Hc. replace (S r - 1)%nat with r in Hc by lia.
    rewrite Hc by lia. simpl. case_decide as Hp.
    + rewrite is_no_provider_false by done. replace (S (N - S r)) with (N - r)%nat by lia.
      apply IH. lia.
    + rewrite is_no_provider_true by done. eexists. split; [do 2 f_equal; lia|done].
Qed.

Lemma down_ramp_spec n l last :
  (l + n < N)%nat →
  let u := first_from (λ u, is_no_provider (down u)) n (l + 1) in
  ∃ last', down_ramp t as_path n l last = Some (u - 1, last')%nat ∧
    ((u < l + 1 + n)%nat → last' = Some (down u)).
Proof.
  revert l last. induction n as [|n IH]; intros l last Hl; simpl.
  - eexists. split; [do 2 f_equal; lia|]. lia.
  - rewrite check_down by lia. simpl. case_decide as Hp.
    + rewrite is_no_provider_false by done. replace (S (l + 1)) with (l + 1 + 1)%nat by lia.
      destruct (IH (l + 1)%nat (Some (down (l + 1)))) as (last' & -> & Hl'); [lia|].
      eexists. split; [done|]. intros ?. apply Hl'. lia.
    + rewrite is_no_provider_true by done. eexists. split; [do 2 f_equal; lia|done].
Qed.

Lemma np_from_right_spec n rr :
  (n <= rr < N)%nat →
  let u := first_from (λ u, is_not_provider (up u)) n (N - rr) in
  np_from_right t as_path n rr = Some (N - u, Nat.ltb u (N - rr + n))%nat.
Proof.
  revert rr. induction n as [|n IH]; intros rr Hr; simpl.
  - rewrite (proj2 (Nat.ltb_ge _ _)) by lia. do 2 f_equal. lia.
  - rewrite check_up by lia. simpl. case_decide as Hp.
    + rewrite is_not_provider_true, (proj2 (Nat.ltb_lt _ _)) by (done || lia). do 2 f_equal. lia.
    + rewrite is_not_provider_false by done. rewrite IH by lia.
      replace (N - (rr - 1))%nat with (S (N - rr)) by lia. do 3 f_equal. lia.
Qed.

Lemma np_from_left_spec n ll :
  (ll + n < N)%nat →
  np_from_left t as_path n ll =
    Some (Nat.ltb (first_from (λ u, is_not_provider (down u)) n (ll + 1)) (ll + 1 + n)).
Proof.
  revert ll. induction n as [|n IH]; intros ll Hl; simpl.
  - rewrite (proj2 (Nat.ltb_ge _ _)) by lia. done.
  - rewrite check_down by lia. simpl. case_decide as Hp.
    + rewrite is_not_provider_true, (proj2 (Nat.ltb_lt _ _)) by (done || lia). done.
    + rewrite is_not_provider_false by done. rewrite IH by lia.
      replace (S (ll + 1)) with (ll + 1 + 1)%nat by lia. do 2 f_equal. lia.
Qed.

End Loops.

(** ** Equivalence with the reference *)

Section Equivalence.
Context (t : rtr_aspa_table) (as_path : list Z).
Hypothesis Hok : Forall node_ok (store t).
Hypothesis Hcmp : ∀ p, p ∈ as_path → comparable (store_records (store t)) p.
Hypothesis Hlock : lock t = Unlocked.

Notation rs := (store_records (store t)).
Notation N := (length as_path).
Notation up := (up_hop rs as_path).
Notation down := (down_hop rs as_path).

Lemma not_provider_no_provider h : is_not_provider h = true → is_no_provider h = true.
Proof. by destruct h. Qed.

(** A hop that is not provider+ is not before the first that is not known to be. *)
Lemma first_np_skip (f : nat → aspa_hop_result) n u m :
  let x := first_from (λ u, is_no_provider (f u)) n u in
  (x + m = u + n)%nat →
  first_from (λ u, is_not_provider (f u)) n u = first_from (λ u, is_not_provider (f u)) m x.
Proof.
  intros x Hm. subst x. destruct (first_from_spec (λ u, is_no_provider (f u)) n u) as (Hx & Hlt & _).
  set (x := first_from _ n u) in *.
  destruct (first_from_spec (λ u, is_not_provider (f u)) m x) as (Hy & Hlt' & Heq).
  apply first_from_unique; [lia| |intros; apply Heq; lia].
  intros v Hv. destruct (decide (v < x)%nat); [|apply Hlt'; lia].
  apply not_true_iff_false. intros Hn%not_provider_no_provider. rewrite Hlt in Hn by lia. done.
Qed.

(** Fewer numbers to look at. *)
Lemma first_from_min bad n m u :
  (n <= m)%nat → first_from bad n u = Nat.min (first_from bad m u) (u + n).
Proof.
  intros Hnm. destruct (first_from_spec bad m u) as (Hx & Hlt & Heq).
  apply first_from_unique; [lia|intros; apply Hlt; lia|].
  intros ?. rewrite Nat.min_l by lia. apply Heq. lia.
Qed.

(** The first number is not the one. *)
Lemma first_from_next bad n u :
  bad u = false → (1 <= n)%nat → first_from bad n u = first_from bad (n - 1) (u + 1).
Proof.
  intros Hb Hn. destruct n; [lia|]. simpl. rewrite Hb. f_equal; lia.
Qed.

Lemma set_lock_back l : l = Unlocked → set_lock (set_lock t (ReadLocked 0)) l = t.
Proof using Hlock. clear Hok Hcmp. intros ->. destruct t. simpl in *. by subst. Qed.

Lemma upstream_spec :
  aspa_verify_as_path_upstream (Some t) as_path = Some (verify_upstream rs as_path, Some t).
Proof using Hok Hcmp Hlock.
  unfold aspa_verify_as_path_upstream, verify_upstream. destruct (Nat.leb_spec N 1) as [|HN]; [done|].
  unfold rdlocked, unlocked. rewrite Hlock. cbn [rdlock mbind option_bind].
  set (t' := set_lock t (ReadLocked 0)).
  destruct (up_ramp_spec t' as_path Hok Hcmp (N - 1) None) as (last & Hup & Hlast); [lia|].
  replace (N - (N - 1))%nat with 1%nat in * by lia. rewrite Hup. clear Hup. cbn [mbind option_bind].
  change (store t') with (store t) in *. unfold min_up_ramp, max_up_ramp, ramp.
  destruct (first_from_spec (λ u, is_no_provider (up u)) (N - 1) 1) as (Ha & Hlt & Heq).
  rewrite (first_np_skip up (N - 1) 1 (N - first_from (λ u, is_no_provider (up u)) (N - 1) 1)) by lia.
  set (a := first_from (λ u, is_no_provider (up u)) (N - 1) 1) in *.
  destruct (first_from_spec (λ u, is_not_provider (up u)) (N - a) a) as (HA & _ & HAeq).
  set (A := first_from (λ u, is_not_provider (up u)) (N - a) a) in *.
  destruct (Nat.eqb_spec (N - a) 0).
  { rewrite !(proj2 (Nat.ltb_ge _ _)) by lia. simpl. by rewrite set_lock_back. }
  rewrite Hlast by lia. cbn [mbind option_bind]. rewrite (proj2 (Nat.ltb_lt a N)) by lia.
  case_decide as Hnp.
  - assert (A = a) as ->.
    { apply first_from_unique; [lia|intros; lia|]. intros _. by apply is_not_provider_true. }
    rewrite (proj2 (Nat.ltb_lt a N)) by lia. simpl. by rewrite set_lock_back.
  - rewrite np_from_right_spec by (done || lia). cbn [mbind option_bind].
    change (store t') with (store t). replace (N - (N - a))%nat with a by lia. fold A.
    replace (a + (N - a))%nat with N by lia. simpl. by rewrite set_lock_back by done; destruct (A <? N)%nat.
Qed.

Context `{Build}.

Lemma downstream_spec :
  aspa_verify_as_path_downstream (Some t) as_path = Some (verify_downstream rs as_path, Some t).
Proof using Hok Hcmp Hlock.
  unfold aspa_verify_as_path_downstream, verify_downstream. destruct (Nat.leb_spec N 2) as [|HN]; [done|].
  unfold rdlocked, unlocked. rewrite Hlock. cbn [rdlock mbind option_bind].
  set (t' := set_lock t (ReadLocked 0)).
  destruct (up_ramp_spec t' as_path Hok Hcmp (N - 1) None) as (last & Hup & Hlast); [lia|].
  replace (N - (N - 1))%nat with 1%nat in * by lia. rewrite Hup. clear Hup. cbn [mbind option_bind].
  change (store t') with (store t) in *. unfold min_up_ramp, max_up_ramp, min_down_ramp, max_down_ramp, ramp.
  destruct (first_from_spec (λ u, is_no_provider (up u)) (N - 1) 1) as (Ha & Hlt & Heq).
  rewrite (first_np_skip up (N - 1) 1 (N - first_from (λ u, is_no_provider (up u)) (N - 1) 1)) by lia.
  set (a := first_from (λ u, is_no_provider (up u)) (N - 1) 1) in *.
  destruct (down_ramp_spec t' as_path Hok Hcmp (N - a) 0 None) as (lastl & Hdown & Hlastl); [lia|].
  rewrite Hdown. clear Hdown. cbn [mbind option_bind]. change (store t') with (store t) in *.
  change (0 + 1)%nat with 1%nat in *.
  rewrite (first_from_min _ (N - a) (N - 1)) in * by lia.
  destruct (first_from_spec (λ u, is_no_provider (down u)) (N - 1) 1) as (Hb & Hblt & Hbeq).
  rewrite (first_np_skip down (N - 1) 1 (N - first_from (λ u, is_no_provider (down u)) (N - 1) 1)) by lia.
  set (b := first_from (λ u, is_no_provider (down u)) (N - 1) 1) in *.
  destruct (first_from_spec (λ u, is_not_provider (up u)) (N - a) a) as (HA & HAlt & HAeq).
  set (A := first_from (λ u, is_not_provider (up u)) (N - a) a) in *.
  destruct (first_from_spec (λ u, is_not_provider (down u)) (N - b) b) as (HB & HBlt & HBeq).
  set (B := first_from (λ u, is_not_provider (down u)) (N - b) b) in *.
  rewrite assert_true by (apply Nat.leb_le; lia). cbn [mbind option_bind].
  destruct (Nat.leb_spec (N - a - (b `min` (1 + (N - a)) - 1)) 1).
  { rewrite !(proj2 (Nat.ltb_ge _ _)) by lia. simpl. by rewrite set_lock_back. }
  rewrite Hlast by lia. cbn [mbind option_bind]. rewrite Nat.min_l in * by lia.
  rewrite (proj2 (Nat.ltb_lt (a + b) N)) by lia.
  assert ((if decide (up a = ASPA_NOT_PROVIDER_PLUS) then Some ((N - a)%nat, true)
    else np_from_right t' as_path (N - a - (b - 1 + 1)) (N - a)) =
    Some (N - Nat.min A (N - b), Nat.ltb A (N - b))%nat) as ->.
  { case_decide as Hnp.
    - assert (A = a) as ->.
      { apply first_from_unique; [lia|intros; lia|]. intros _. by apply is_not_provider_true. }
      rewrite (proj2 (Nat.ltb_lt a (N - b))) by lia. do 2 f_equal. lia.
    - rewrite np_from_right_spec by (done || lia). change (store t') with (store t).
      replace (N - (N - a))%nat with a by lia.
      rewrite (first_from_min _ (N - a - (b - 1 + 1)) (N - a)) by lia. fold A.
      replace (a + (N - a - (b - 1 + 1)))%nat with (N - b)%nat by lia.
      do 2 f_equal. destruct (Nat.ltb_spec A (N - b)), (Nat.ltb_spec (A `min` (N - b)) (N - b)); done || lia. }
  cbn [mbind option_bind]. destruct (Nat.ltb_spec A (N - b)) as [HAb|HAb].
  2:{ rewrite (proj2 (Nat.ltb_ge (A + B) N)) by lia. simpl. by rewrite set_lock_back. }
  rewrite Nat.min_l, Hlastl by lia. cbn [mbind option_bind].
  assert ((if decide (down b = ASPA_NOT_PROVIDER_PLUS) then Some true
    else np_from_left t' as_path (N - A - 1 - (b - 1 + 1)) (b - 1 + 1)) =
    Some (Nat.ltb (A + B) N)) as ->.
  { case_decide as Hnp.
    - assert (B = b) as ->.
      { apply first_from_unique; [lia|intros; lia|]. intros _. by apply is_not_provider_true. }
      by rewrite (proj2 (Nat.ltb_lt (A + b) N)) by lia.
    - rewrite np_from_left_spec by (done || lia). change (store t') with (store t).
      assert (first_from (λ u, is_not_provider (down u)) (N - b - 1) (b + 1) = B) as HB'.
      { unfold B. rewrite (first_from_next _ (N - b) b) by (by apply is_not_provider_false || lia). done. }
      replace (b - 1 + 1)%nat with b by lia.
      rewrite (first_from_min _ (N - A - 1 - b) (N - b - 1)), HB' by lia. f_equal.
      destruct (Nat.ltb_spec (A + B) N), (Nat.ltb_spec (B `min` (b + 1 + (N - A - 1 - b))) (b + 1 + (N - A - 1 - b)));
        done || lia. }
  cbn [mbind option_bind]. simpl. rewrite set_lock_back by done. by destruct (A + B <? N)%nat.
Qed.

End Equivalence.
