(* ===== verification/AspaUpdateProofs.v ===== *)
(** * Updating the ASPA table: specification and proofs

    An update is specified as the sequential execution of its operations on a
    finite map from customers to provider sets. *)

From S2P Require Import Prelude AspaArray Aspa AspaUpdate AspaVerification AspaVerificationProofs.

(** ** The reference *)

(** The records of a cache as a map. *)
Definition map_of (rs : list rtr_aspa_record) : gmap Z (list Z) :=
  list_to_map ((λ r, (customer_asn r, providers r)) <$> rs).

Definition op_customer (op : aspa_update_operation) : Z := customer_asn (record op).
Definition op_providers (op : aspa_update_operation) : list Z :=
  providers (sort_providers (record op)).

(** The operations one after the other: an 'add' sets the providers of its
    customer, unless the operation before was an 'add' for that customer, a
    'remove' needs a record to remove.  [prev] is the customer of the operation
    before, if that was an 'add'; an error comes with the position. *)
Fixpoint ref_run (m : gmap Z (list Z)) (prev : option Z) (pos : nat)
    (ops : list aspa_update_operation) : (rtr_aspa_status * nat) + gmap Z (list Z) :=
  match ops with
  | [] => inr m
  | op :: ops =>
      let c := op_customer op in
      match type op with
      | RTR_ASPA_ADD =>
          if decide (prev = Some c) then inl (RTR_ASPA_DUPLICATE_RECORD, pos)
          else ref_run (<[c := op_providers op]> m) (Some c) (S pos) ops
      | RTR_ASPA_REMOVE =>
          match m !! c with
          | None => inl (RTR_ASPA_RECORD_NOT_FOUND, pos)
          | Some _ => ref_run (delete c m) None (S pos) ops
          end
      end
  end.

(** No record is replaced by an 'add' that operations for other customers follow. *)
Fixpoint no_early_replace (m : gmap Z (list Z)) (ops : list aspa_update_operation) : Prop :=
  match ops with
  | [] => True
  | op :: ops' =>
      let c := op_customer op in
      (type op = RTR_ASPA_ADD →
       match ops' with next :: _ => op_customer next ≠ c → m !! c = None | [] => True end) ∧
      no_early_replace (match type op with
                        | RTR_ASPA_ADD => <[c := op_providers op]> m
                        | RTR_ASPA_REMOVE => delete c m
                        end) ops'
  end.

(** The copy of a record that the client gets. *)
Definition copied (r : rtr_aspa_record) : rtr_aspa_record :=
  AspaRecord (customer_asn r) (provider_count r)
    (match provider_asns r with
     | Some l => if Nat.ltb 0 (provider_count r) then Some (take (provider_count r) l) else None
     | None => None
     end).

Lemma copied_providers r : record_wf r → providers (copied r) = providers r.
Proof.
  unfold record_wf, providers, copied. simpl. destruct (provider_asns r) as [l|]; [|done].
  intros <-. destruct l; [done|]. simpl. by rewrite firstn_all.
Qed.

(** What a client that follows the notifications makes of its copy; it fails if a
    removal is not of the record it has. *)
Fixpoint replay (m : gmap Z (list Z)) (ops : list aspa_update_operation)
  : option (gmap Z (list Z)) :=
  match ops with
  | [] => Some m
  | op :: ops =>
      let c := op_customer op in
      if is_no_op op then replay m ops
      else match type op with
           | RTR_ASPA_ADD => replay (<[c := providers (copied (record op))]> m) ops
           | RTR_ASPA_REMOVE =>
               if decide (m !! c = Some (providers (copied (record op)))) then replay (delete c m) ops
               else None
           end
  end.

Definition op_ok (op : aspa_update_operation) : Prop :=
  record_wf (record op) ∧ is_no_op op = false ∧
  (type op = RTR_ASPA_REMOVE → provider_count (record op) = 0%nat ∧ provider_asns (record op) = None).

Definition ops_sorted (ops : list aspa_update_operation) : Prop :=
  StronglySorted (λ a b, op_customer a <= op_customer b) ops.

(** ** Sorted records as a map *)

Lemma map_of_cons r rs : map_of (r :: rs) = <[customer_asn r := providers r]> (map_of rs).
Proof. done. Qed.

Lemma map_of_lookup_None rs c : (∀ r, r ∈ rs → customer_asn r ≠ c) → map_of rs !! c = None.
Proof.
  induction rs as [|r rs IH]; intros Hn; [apply lookup_empty|]. rewrite map_of_cons.
  rewrite lookup_insert_ne by (apply Hn; left). apply IH. intros r' Hr. apply Hn. by right.
Qed.

Lemma customers_sorted_app rs rs' :
  customers_sorted (rs ++ rs') ↔
    customers_sorted rs ∧ customers_sorted rs' ∧
    ∀ r r', r ∈ rs → r' ∈ rs' → customer_asn r < customer_asn r'.
Proof.
  unfold customers_sorted. induction rs as [|x rs IH]; simpl.
  { split; [|tauto]. intros ?. split_and!; [constructor|done|]. intros ???%elem_of_nil. done. }
  rewrite !StronglySorted_cons, Forall_app, IH, !Forall_forall. setoid_rewrite elem_of_cons. split.
  - intros ([Hx Hx'] & Hs & Hs' & Hlt). split_and!; try done. intros r r' [->|?]; auto.
  - intros ([Hx Hs] & Hs' & Hlt). split_and!; auto.
Qed.

Lemma map_of_app_insert rs r rs' :
  (∀ r', r' ∈ rs → customer_asn r' ≠ customer_asn r) →
  map_of (rs ++ r :: rs') = <[customer_asn r := providers r]> (map_of (rs ++ rs')).
Proof.
  induction rs as [|x rs IH]; intros Hn; [done|]. simpl. rewrite !map_of_cons, IH.
  - rewrite insert_insert_ne; [done|]. intros Heq. apply (Hn x); [left|done].
  - intros r' Hr. apply Hn. by right.
Qed.

Lemma map_of_lookup_head rs r rs' :
  customers_sorted (rs ++ r :: rs') → map_of (rs ++ r :: rs') !! customer_asn r = Some (providers r).
Proof.
  intros (_ & _ & Hlt)%customers_sorted_app. rewrite map_of_app_insert, lookup_insert_eq; [done|].
  intros r' Hr. assert (customer_asn r' < customer_asn r) by (apply Hlt; [done|left]). lia.
Qed.

Lemma map_of_delete_head rs r rs' :
  customers_sorted (rs ++ r :: rs') →
  map_of (rs ++ rs') = delete (customer_asn r) (map_of (rs ++ r :: rs')).
Proof.
  intros Hs. pose proof Hs as (_ & Hs' & Hlt)%customers_sorted_app.
  apply StronglySorted_cons in Hs' as [Hr Hs']. rewrite Forall_forall in Hr.
  assert (∀ r', r' ∈ rs → customer_asn r' < customer_asn r) as Hlt' by (intros; apply Hlt; [done|left]).
  rewrite map_of_app_insert by (intros r' ?%Hlt'; lia).
  rewrite delete_insert_eq, delete_id; [done|]. apply map_of_lookup_None.
  intros r' [?%Hlt'|?%Hr]%elem_of_app; lia.
Qed.

Section Proofs.
Context `{Build} {E : Type} `{!Event aspa_event E}.
Implicit Types (array : aspa_array) (st : compute_state) (w : world E).

Lemma get_record_spec a i :
  array_ok a → aspa_array_get_record a i = Some (head (drop i (data a))).
Proof.
  intros (Hlen & _). unfold aspa_array_get_record.
  destruct (Nat.leb_spec (size a) i) as [Hle|Hlt]; simpl.
  - rewrite drop_ge by lia. done.
  - destruct (Nat.eqb_spec (size a) 0); [lia|]. destruct (lookup_lt_is_Some_2 (data a) i) as [r Hr]; [lia|].
    rewrite Hr. simpl. by rewrite (drop_S _ _ _ Hr).
Qed.

(** The variables of the computation: [ex] are the existing records not looked at
    yet, [m] is the map the new array will hold if nothing else happens, and
    [n] operations are still to come. *)
Definition computing array st (ex : list rtr_aspa_record) (m : gmap Z (list Z)) (n : nat) : Prop :=
  ex = drop (existing_i st) (data array) ∧
  array_ok (cs_new_array st) ∧ capacity_ok (cs_new_array st) ∧
  Z.of_nat (size (cs_new_array st) + length ex + n) <= capacity (cs_new_array st) ∧
  array_ok (cs_replaced st) ∧ capacity_ok (cs_replaced st) ∧
  Z.of_nat (size (cs_replaced st)) < capacity (cs_replaced st) ∧
  customers_sorted (data (cs_new_array st) ++ ex) ∧
  Forall aspa_record_ok (data (cs_new_array st) ++ ex) ∧
  map_of (data (cs_new_array st) ++ ex) = m.

(** The records already in the new array are of customers smaller than [c]. *)
Definition new_below (c : Z) st : Prop :=
  ∀ r, r ∈ data (cs_new_array st) → customer_asn r < c.

Lemma skip_smaller_spec array c st ex m n k w :
  array_ok array → computing array st ex m n → new_below c st → no_fail w →
  k = (size array - existing_i st)%nat →
  wp (aspa_skip_smaller k array c st) (λ '(err, st') w', err = RTR_ASPA_SUCCESS ∧
    emits w [] w' ∧ ∃ ex', computing array st' ex' m n ∧ new_below c st' ∧
      (∀ r, r ∈ ex' → c <= customer_asn r)) w.
Proof.
  intros Ha. revert st ex w. induction k as [|k IH]; intros st ex w Hc Hb Hnf Hk.
  { cbn [aspa_skip_smaller]. wp_step. split_and!; [done|apply emits_refl|]. exists ex. split_and!; [done..|].
    destruct Hc as (-> & _), Ha as (Hlen & _). rewrite drop_ge by lia. intros r Hr. inversion Hr. }
  cbn [aspa_skip_smaller]. pose proof Hc as (Hex & Hn & Hcap & Hsz & Hr1 & Hr2 & Hr3 & Hs & Ho & Hm).
  assert (existing_i st < length (data array))%nat as Hlt by (destruct Ha as (-> & _); lia).
  destruct (lookup_lt_is_Some_2 (data array) (existing_i st) Hlt) as [r Hr].
  rewrite (drop_S _ _ _ Hr) in Hex. set (ex' := drop (S (existing_i st)) (data array)) in *.
  wp_step. eapply wp_of_option; [by apply get_record_spec|]. rewrite (drop_S _ _ _ Hr). cbn [head]. do 2 wp_step.
  pose proof Hs as (_ & Hs' & Hlt')%customers_sorted_app. subst ex.
  apply StronglySorted_cons in Hs' as [Hall Hs']. rewrite Forall_forall in Hall.
  destruct (Z.ltb_spec (customer_asn r) c).
  2:{ wp_step. split_and!; [done|apply emits_refl|]. eexists. split_and!; [done..|].
      intros r' [->|Hr']%elem_of_cons; [done|]. apply Hall in Hr'. lia. }
  apply Forall_app in Ho as [Ho1 [Hor Ho2]%Forall_cons]. simpl in Hsz.
  wp_step. eapply wp_mono; [apply (append_spec (cs_new_array st) r false); try done; [lia|apply Hor]|].
  intros [err a] w1 [Hw1 Hres]. destruct Hres as [(-> & Hok' & Hcap' & Hc' & Hsz' & Hd')|(_ & _ & _ & ?)]; [|done].
  rewrite decide_True by done.
  destruct Hor as (Hwf & Hst & Hso). rewrite Hst in Hd'.
  eapply wp_mono; [apply (IH (ComputeState (S (existing_i st)) a (cs_replaced st)) ex')|].
  - assert (data a ++ ex' = data (cs_new_array st) ++ r :: ex') as Heq by (rewrite Hd', <- app_assoc; done).
    split_and!; simpl; try done; try (rewrite Heq; done); [lia|].
    rewrite Hd', !Forall_app. split_and!; [done| |done]. by constructor.
  - intros r'. simpl. rewrite Hd', elem_of_app, list_elem_of_singleton. intros [?| ->]; [by apply Hb|done].
  - eauto with rtr.
  - simpl. lia.
  - intros [err st'] w' (-> & Hw' & Hres). split_and!; [done|by eapply emits_quiet|done].
Qed.

(** ** One operation *)

Lemma sort_providers_customer r : customer_asn (sort_providers r) = customer_asn r.
Proof. unfold sort_providers. destruct (provider_asns r); [|done]. by destruct (Nat.ltb _ _). Qed.

Lemma asn_le_spec a b : asn_le a b ↔ a <= b.
Proof.
  unfold asn_le, compare_asns. destruct (Z.ltb_spec a b), (Z.ltb_spec b a); lia.
Qed.

Lemma asn_le_sorted l : asns_sorted (merge_sort asn_le l).
Proof.
  assert (Transitive asn_le) by (intros a b c; rewrite !asn_le_spec; lia).
  assert (Total asn_le) by (intros a b; rewrite !asn_le_spec; lia).
  pose proof (StronglySorted_merge_sort asn_le l) as Hs. unfold asns_sorted.
  induction Hs as [|x l' Hs IH Hx]; constructor; [done|].
  eapply Forall_impl; [exact Hx|]. intros y. by rewrite asn_le_spec.
Qed.

(** The record of an operation once its providers are sorted. *)
Lemma sort_providers_ok r :
  record_wf r → record_wf (sort_providers r) ∧ aspa_record_ok (stored (sort_providers r)) ∧
    providers (stored (sort_providers r)) = providers (sort_providers r).
Proof.
  unfold record_wf, sort_providers, aspa_record_ok, providers, stored, record_wf.
  destruct (provider_asns r) as [l|] eqn:Hl; intros Hwf.
  - rewrite <- Hwf. destruct l as [|x l]; simpl.
    + rewrite Hl. simpl. rewrite <- Hwf. simpl. split_and!; try done. constructor.
    + rewrite firstn_all, drop_all, app_nil_r.
      assert (length (merge_sort asn_le (x :: l)) = S (length l)) as Hlen.
      { by rewrite merge_sort_Permutation. }
      split_and!; try done. apply asn_le_sorted.
  - rewrite Hl, Hwf. simpl. split_and!; try done. constructor.
Qed.

Lemma compute_add_spec array st ex m n current w :
  computing array st ex m (S n) → record_wf (record current) → no_fail w →
  wp (aspa_compute_add st (head ex) current) (λ '(err, current', st') w',
    err = RTR_ASPA_SUCCESS ∧ emits w [] w' ∧
    current' = set_providers current (provider_count (record current))
      (provider_asns (stored (record current))) ∧
    existing_i st' = existing_i st ∧
    data (cs_new_array st') = data (cs_new_array st) ++ [stored (record current)] ∧
    array_ok (cs_new_array st') ∧ capacity_ok (cs_new_array st') ∧
    capacity (cs_new_array st') = capacity (cs_new_array st) ∧
    size (cs_new_array st') = S (size (cs_new_array st)) ∧
    (match ex with
     | e :: _ => customer_asn e ≠ op_customer current → cs_replaced st' = cs_replaced st
     | [] => cs_replaced st' = cs_replaced st
     end)) w.
Proof.
  intros (Hex & Hn & Hcap & Hsz & Hr1 & Hr2 & Hr3 & Hs & Ho & Hm) Hwf Hnf. unfold aspa_compute_add.
  wp_step. eapply wp_mono; [apply append_spec; try done; lia|].
  intros [err a] w1 [Hw1 [(-> & Ha & Hc & Hca & Hsz' & Hd)|(_ & _ & [] & _)]]; [|done].
  rewrite decide_True by done. wp_step.
  assert (no_fail w1) as Hnf1 by eauto with rtr.
  eapply (wp_mono _ (λ '(err, st') w', err = RTR_ASPA_SUCCESS ∧ emits w1 [] w' ∧
    existing_i st' = existing_i st ∧ cs_new_array st' = a ∧
    match ex with
    | e :: _ => customer_asn e ≠ op_customer current → cs_replaced st' = cs_replaced st
    | [] => cs_replaced st' = cs_replaced st
    end)).
  - destruct ex as [|e ex]; simpl; [wp_step; split_and!; try done; apply emits_refl|].
    destruct (Z.eqb_spec (customer_asn e) (customer_asn (record current))) as [He|He].
    + apply Forall_app in Ho as [_ [(Hwfe & _) _]%Forall_cons].
      wp_step. eapply wp_mono; [apply append_spec; done|].
      intros [err b] w2 [Hw2 [(-> & _)|(_ & _ & _ & ?)]]; [|done]. wp_step. by split_and!.
    + wp_step. split_and!; try done. apply emits_refl.
  - intros [err st'] w2 (-> & Hw2 & Hi & <- & Hrep). rewrite decide_True by done.
    wp_step. eapply wp_of_option; [by apply get_record_spec|].
    replace (drop _ _) with [stored (record current)].
    2:{ rewrite Hd. rewrite drop_app_length'; [done|]. destruct Ha as (Hl & _), Hn as (Hl' & _). lia. }
    cbn [head]. do 2 wp_step. wp_step. split_and!; try done. by eapply emits_quiet.
Qed.

(** ** The loop *)

(** The first of the existing records that are left decides about the customer. *)
Lemma computing_lookup array st ex m n c :
  computing array st ex m n → new_below c st → (∀ r, r ∈ ex → c <= customer_asn r) →
  m !! c = match ex with
           | e :: _ => if customer_asn e =? c then Some (providers e) else None
           | [] => None
           end.
Proof.
  intros (_ & _ & _ & _ & _ & _ & _ & Hs & _ & <-) Hb Hge.
  destruct ex as [|e ex].
  - rewrite app_nil_r. apply map_of_lookup_None. intros r Hr%Hb. lia.
  - destruct (Z.eqb_spec (customer_asn e) c) as [<-|Hne]; [by apply map_of_lookup_head|].
    apply customers_sorted_app in Hs as (_ & [Hall _]%StronglySorted_cons & _).
    rewrite Forall_forall in Hall. apply map_of_lookup_None.
    assert (c < customer_asn e) by (assert (c <= customer_asn e) by (apply Hge; left); lia).
    intros r [?%Hb|[->|?%Hall]%elem_of_cons]%elem_of_app; lia.
Qed.

(** Leaving out the first existing record removes it. *)
Lemma computing_remove array st e ex m n n' :
  (n' <= n)%nat → computing array st (e :: ex) m n →
  computing array (next_existing st) ex (delete (customer_asn e) m) n'.
Proof.
  intros Hn (Hex & Ha & Hc & Hsz & Hr1 & Hr2 & Hr3 & Hs & Ho & Hm). unfold computing. simpl.
  split_and!; try done.
  - by rewrite <- Nat.add_1_r, <- drop_drop, <- Hex.
  - simpl in Hsz. lia.
  - apply customers_sorted_app in Hs as (? & [_ ?]%StronglySorted_cons & Hlt).
    apply customers_sorted_app. split_and!; [done..|]. intros ????. apply Hlt; [done|by right].
  - apply Forall_app in Ho as [? [_ ?]%Forall_cons]. by apply Forall_app.
  - subst m. by apply map_of_delete_head.
Qed.

(** A smaller number of operations left. *)
Lemma computing_fewer array st ex m n n' :
  (n' <= n)%nat → computing array st ex m n → computing array st ex m n'.
Proof. intros Hn Hc. unfold computing in *. destruct_and!. split_and!; try done. lia. Qed.

(** The existing records to be appended in the end: the first may be the one that was
    replaced last. *)
Definition still_existing (new ex : list rtr_aspa_record) : list rtr_aspa_record :=
  match last new, ex with
  | Some l, e :: ex' => if customer_asn l =? customer_asn e then ex' else ex
  | _, _ => ex
  end.

Lemma still_existing_sorted new ex : customers_sorted (new ++ ex) → still_existing new ex = ex.
Proof.
  intros (_ & _ & Hlt)%customers_sorted_app. unfold still_existing.
  destruct (last new) as [l|] eqn:Hl; [|done]. destruct ex as [|e ex]; [done|].
  assert (customer_asn l < customer_asn e).
  { apply Hlt; [|left]. apply last_Some in Hl as (l' & ->). apply elem_of_app. right. left. }
  by destruct (Z.eqb_spec (customer_asn l) (customer_asn e)); [lia|].
Qed.

(** The computation has come to the end of the operations. *)
Definition finished array st (m : gmap Z (list Z)) : Prop :=
  let ex := drop (existing_i st) (data array) in
  let all := data (cs_new_array st) ++ still_existing (data (cs_new_array st)) ex in
  array_ok (cs_new_array st) ∧ capacity_ok (cs_new_array st) ∧
  Z.of_nat (size (cs_new_array st) + length ex) <= capacity (cs_new_array st) ∧
  customers_sorted all ∧ Forall aspa_record_ok all ∧ map_of all = m.

Lemma computing_finished array st ex m : computing array st ex m 0 → finished array st m.
Proof.
  intros (Hex & Ha & Hc & Hsz & _ & _ & _ & Hs & Ho & Hm). unfold finished. cbv zeta. rewrite <- Hex.
  rewrite still_existing_sorted by done. split_and!; try done. lia.
Qed.

(** The state after the record [r] was appended to the new array. *)
Definition appended st st' (r : rtr_aspa_record) : Prop :=
  existing_i st' = existing_i st ∧ data (cs_new_array st') = data (cs_new_array st) ++ [r] ∧
  array_ok (cs_new_array st') ∧ capacity_ok (cs_new_array st') ∧
  capacity (cs_new_array st') = capacity (cs_new_array st) ∧
  size (cs_new_array st') = S (size (cs_new_array st)).

(** A new customer. *)
Lemma computing_add array st st' ex m n r :
  computing array st ex m (S n) → appended st st' r → cs_replaced st' = cs_replaced st →
  aspa_record_ok r → new_below (customer_asn r) st → (∀ e, e ∈ ex → customer_asn r < customer_asn e) →
  computing array st' ex (<[customer_asn r := providers r]> m) n.
Proof.
  intros (Hex & Ha & Hc & Hsz & Hr1 & Hr2 & Hr3 & Hs & Ho & Hm) (Hi & Hd & Ha' & Hc' & Hcap & Hsz') Hrep Hr Hb Hgt.
  unfold computing. rewrite Hi, Hd, Hrep, <- app_assoc, Hsz', Hcap. simpl. split_and!; try done.
  - lia.
  - apply customers_sorted_app in Hs as (? & ? & Hlt). apply customers_sorted_app. split_and!.
    + done.
    + apply StronglySorted_cons. rewrite Forall_forall. auto.
    + intros r1 r2 Hin1 [->|Hin2]%elem_of_cons; [by apply Hb|by apply Hlt].
  - apply Forall_app in Ho as [? ?]. apply Forall_app. auto.
  - rewrite map_of_app_insert, Hm; [done|]. intros r' ?%Hb. lia.
Qed.

(** A customer that has a record, at the end of the operations. *)
Lemma finished_replace array st st' e ex m n r :
  computing array st (e :: ex) m (S n) → appended st st' r → aspa_record_ok r →
  new_below (customer_asn r) st → customer_asn e = customer_asn r →
  finished array st' (<[customer_asn r := providers r]> m).
Proof.
  intros (Hex & Ha & Hc & Hsz & _ & _ & _ & Hs & Ho & Hm) (Hi & Hd & Ha' & Hc' & Hcap & Hsz') Hr Hb He.
  unfold finished. cbv zeta. rewrite Hi, <- Hex, Hd, Hsz', Hcap, <- app_assoc. unfold still_existing.
  rewrite last_snoc, He, Z.eqb_refl.
  pose proof Hs as (Hs1 & [Hall Hs2]%StronglySorted_cons & Hlt)%customers_sorted_app.
  rewrite Forall_forall in Hall. simpl in Hsz |- *. split_and!; try done; [lia|..].
  - apply customers_sorted_app. split_and!; [done| |].
    + apply StronglySorted_cons. rewrite Forall_forall, <- He. auto.
    + intros r1 r2 Hin1 [->|Hin2]%elem_of_cons; [by apply Hb|]. apply Hlt; [done|by right].
  - apply Forall_app in Ho as [? [_ ?]%Forall_cons]. apply Forall_app. auto.
  - rewrite map_of_app_insert by (intros r' ?%Hb; lia).
    rewrite (map_of_delete_head _ _ _ Hs), Hm, He. by rewrite insert_delete_eq.
Qed.

Definition compute_result array (m : gmap Z (list Z)) (pos : nat) (ops : list aspa_update_operation) w
    (res : rtr_aspa_status * option nat * list aspa_update_operation * compute_state) w' : Prop :=
  let '(err, failed, ops', st') := res in
  emits w [] w' ∧
  match ref_run m None pos ops with
  | inl (e, p) => err = e ∧ failed = Some p
  | inr m' => err = RTR_ASPA_SUCCESS ∧ failed = None ∧ finished array st' m' ∧ replay m ops' = Some m'
  end.

(** What the loop promises for the operations [ops]. *)
Definition loop_ok array (ops : list aspa_update_operation) : Prop :=
  ∀ pos st ex m w,
    computing array st ex m (length ops) → (∀ op, op ∈ ops → new_below (op_customer op) st) →
    no_early_replace m ops → no_fail w →
    wp (aspa_compute_loop array ops pos st) (compute_result array m pos ops w) w.

Lemma ref_run_prev m c pos ops :
  match ops with op :: _ => op_customer op ≠ c | [] => True end →
  ref_run m (Some c) pos ops = ref_run m None pos ops.
Proof.
  destruct ops as [|op ops]; [done|]. intros Hc. simpl. destruct (type op); [done|].
  rewrite !decide_False; congruence.
Qed.

(** An 'add' that is not followed by an operation for its customer. *)
Lemma compute_add_path array st ex m rest pos current w :
  let c := op_customer current in
  let sorted := set_record current (sort_providers (record current)) in
  loop_ok array rest → computing array st ex m (S (length rest)) → new_below c st →
  (∀ r, r ∈ ex → c <= customer_asn r) → op_ok current → type current = RTR_ASPA_ADD →
  (∀ op, op ∈ rest → c < op_customer op) → (rest ≠ [] → m !! c = None) →
  no_early_replace (<[c := op_providers current]> m) rest → no_fail w →
  wp ('(err, current, st) ← aspa_compute_add st (head ex) sorted;
      if decide (err = RTR_ASPA_SUCCESS) then
        '(err, failed, rest, st) ← aspa_compute_loop array rest (S pos) st;
        mret (err, failed, current :: rest, st)
      else mret (RTR_ASPA_ERROR, Some pos, current :: rest, st))
    (compute_result array m pos (current :: rest) w) w.
Proof.
  intros c sorted IH Hcomp Hb Hge (Hwf & Hno & _) Hty Hgt Hnone Hne Hnf.
  destruct (sort_providers_ok _ Hwf) as (Hwf' & Hrok & Hprov).
  wp_step. eapply wp_mono; [by apply (compute_add_spec array st ex m (length rest) sorted)|].
  intros [[err cur'] st'] w1 (-> & Hw1 & -> & Hi & Hd & Ha & Hcap & Hcc & Hsz & Hrep).
  rewrite decide_True by done.
  assert (appended st st' (stored (record sorted))) as Happ by (by split_and!).
  assert (customer_asn (stored (record sorted)) = c) as Hcust by (simpl; apply sort_providers_customer).
  assert (providers (stored (record sorted)) = op_providers current) as Hpr by done.
  assert (ref_run m None pos (current :: rest) =
    ref_run (<[c := op_providers current]> m) None (S pos) rest) as Href.
  { simpl. rewrite Hty. apply ref_run_prev. destruct rest as [|op rest]; [done|].
    assert (c < op_customer op) by (apply Hgt; left). subst c. lia. }
  assert (∀ ops', replay m (set_providers sorted (provider_count (record sorted))
    (provider_asns (stored (record sorted))) :: ops') = replay (<[c := op_providers current]> m) ops') as Hrp.
  { intros ops'. cbn [replay set_providers set_record is_no_op type sorted]. rewrite Hno, Hty.
    change (op_customer (set_providers _ _ _)) with (customer_asn (stored (record sorted))). rewrite Hcust.
    change (record (set_providers _ _ _)) with (stored (record sorted)).
    rewrite copied_providers, Hpr; [done|apply Hrok]. }
  destruct (m !! c) as [l|] eqn:Hmc.
  - destruct rest as [|]; [|by discriminate Hnone]. cbn [aspa_compute_loop]. do 3 wp_step.
    split; [done|]. rewrite Href, Hrp. cbn [ref_run]. split_and!; try done.
    rewrite (computing_lookup _ _ _ _ _ _ Hcomp Hb Hge) in Hmc.
    destruct ex as [|e ex]; [done|]. destruct (Z.eqb_spec (customer_asn e) c); [|done].
    rewrite <- Hpr, <- Hcust. eapply finished_replace; try done; rewrite ?Hcust; done.
  - wp_step. assert (∀ e, e ∈ ex → c < customer_asn e) as Hgt'.
    { rewrite (computing_lookup _ _ _ _ _ _ Hcomp Hb Hge) in Hmc. intros e' He'. pose proof (Hge e' He').
      destruct Hcomp as (_ & _ & _ & _ & _ & _ & _ & (_ & Hs & _)%customers_sorted_app & _).
      destruct ex as [|e ex]; [inversion He'|]. destruct (Z.eqb_spec (customer_asn e) c); [done|].
      assert (c <= customer_asn e) by (apply Hge; left).
      apply elem_of_cons in He' as [->|He']; [lia|].
      apply StronglySorted_cons in Hs as [Hs _]. rewrite Forall_forall in Hs. apply Hs in He'. lia. }
    eapply wp_mono; [apply (IH (S pos) st' ex (<[c := op_providers current]> m)); try done|].
    + rewrite <- Hpr, <- Hcust. eapply computing_add; try done; rewrite ?Hcust; try done.
      destruct ex as [|e ex]; [done|]. apply Hrep. assert (c < customer_asn e) by (apply Hgt'; left).
      unfold op_customer. simpl. rewrite sort_providers_customer. subst c. unfold op_customer in *. lia.
    + intros op Hop r. rewrite Hd, elem_of_app, list_elem_of_singleton. pose proof (Hgt op Hop).
      intros [Hr%Hb| ->]; [lia|]. rewrite Hcust. lia.
    + eauto with rtr.
    + intros [[[err failed] ops'] st''] w2 [Hw2 Hres]. wp_step.
      split; [by eapply emits_quiet|]. rewrite Href, Hrp. done.
Qed.

Lemma replay_remove m op ops :
  is_no_op op = false → type op = RTR_ASPA_REMOVE → m !! op_customer op = Some (providers (copied (record op))) →
  replay m (op :: ops) = replay (delete (op_customer op) m) ops.
Proof. intros Hn Ht Hm. simpl. by rewrite Hn, Ht, decide_True. Qed.

(** An 'add' that is followed by a 'remove' of the same customer. *)
Lemma compute_pair_path array st ex m rest pos current next w :
  let c := op_customer current in
  let sorted := set_record current (sort_providers (record current)) in
  loop_ok array rest → computing array st ex m (S (S (length rest))) → new_below c st →
  (∀ r, r ∈ ex → c <= customer_asn r) → op_ok current → op_ok next →
  type current = RTR_ASPA_ADD → type next = RTR_ASPA_REMOVE → op_customer next = c →
  (∀ op, op ∈ rest → c <= op_customer op) → no_early_replace (delete c m) rest → no_fail w →
  wp (let '(current, next, st) :=
        match head ex with
        | Some e =>
            if customer_asn e =? c then
              (set_no_op sorted, set_providers next (provider_count e) (provider_asns e), next_existing st)
            else (set_no_op sorted, set_no_op next, st)
        | None => (set_no_op sorted, set_no_op next, st)
        end in
      '(err, failed, rest, st) ← aspa_compute_loop array rest (S (S pos)) st;
      mret (err, failed, current :: next :: rest, st))
    (compute_result array m pos (current :: next :: rest) w) w.
Proof.
  intros c sorted IH Hcomp Hb Hge _ (_ & Hno & _) Hty Hty' Hc Hle Hne Hnf.
  assert (ref_run m None pos (current :: next :: rest) = ref_run (delete c m) None (S (S pos)) rest) as Href.
  { simpl. rewrite Hty, Hty', Hc. fold c. rewrite lookup_insert_eq. by rewrite delete_insert_eq. }
  pose proof (computing_lookup _ _ _ _ _ _ Hcomp Hb Hge) as Hmc.
  assert (∀ st', data (cs_new_array st') = data (cs_new_array st) →
    ∀ op, op ∈ rest → new_below (op_customer op) st') as Hbelow.
  { intros st' Hd op Hop r. rewrite Hd. intros Hr%Hb. pose proof (Hle op Hop). lia. }
  assert (∀ (op2 : aspa_update_operation) st' ex' w',
    (∀ ops', replay m (set_no_op sorted :: op2 :: ops') = replay (delete c m) ops') →
    computing array st' ex' (delete c m) (length rest) →
    data (cs_new_array st') = data (cs_new_array st) → w' = w →
    wp ('(err, failed, rest, st) ← aspa_compute_loop array rest (S (S pos)) st';
        mret (err, failed, set_no_op sorted :: op2 :: rest, st))
      (compute_result array m pos (current :: next :: rest) w) w') as Hgo.
  { intros op2 st' ex' w' Hrp Hcomp' Hd ->. wp_step.
    eapply wp_mono; [apply (IH (S (S pos)) st' ex' (delete c m)); try done; by apply Hbelow|].
    intros [[[err failed] ops'] st''] w2 [Hw2 Hres]. wp_step. split; [done|]. by rewrite Href, Hrp. }
  assert (match ex with e :: _ => customer_asn e ≠ c | [] => True end →
    wp ('(err, failed, rest, st) ← aspa_compute_loop array rest (S (S pos)) st;
        mret (err, failed, set_no_op sorted :: set_no_op next :: rest, st))
      (compute_result array m pos (current :: next :: rest) w) w) as Hnot.
  { intros Hex. assert (m !! c = None) as Hn.
    { rewrite Hmc. destruct ex as [|e ex']; [done|]. by rewrite (proj2 (Z.eqb_neq _ _) Hex). }
    apply (Hgo _ st ex); try done; rewrite delete_id by done; [done|].
    eapply computing_fewer, Hcomp. lia. }
  destruct ex as [|e ex]; [by apply Hnot|]. cbn [head].
  destruct (Z.eqb_spec (customer_asn e) c) as [He|He]; [|by apply Hnot].
  apply (Hgo _ (next_existing st) ex); try done.
  - intros ops'. change (replay m (set_no_op sorted :: ?l)) with (replay m l).
    rewrite replay_remove; [by rewrite <- Hc|done..|].
    change (m !! op_customer next = Some (providers (copied e))). rewrite Hc, Hmc, copied_providers.
    + by rewrite ?He, ?Z.eqb_refl.
    + destruct Hcomp as (_ & _ & _ & _ & _ & _ & _ & _ & Ho & _).
      apply Forall_app in Ho as [_ [(? & _) _]%Forall_cons]. done.
  - rewrite <- He. eapply computing_remove, Hcomp. lia.
Qed.

(** A 'remove' that is not followed by another one. *)
Lemma compute_remove_path array st e ex m rest pos current (sorted : aspa_update_operation) w :
  let c := op_customer current in
  let removed := set_providers sorted (provider_count e) (provider_asns e) in
  loop_ok array rest → computing array st (e :: ex) m (S (length rest)) → new_below c st →
  customer_asn e = c → op_customer sorted = c → type sorted = RTR_ASPA_REMOVE → is_no_op sorted = false →
  type current = RTR_ASPA_REMOVE → m !! c = Some (providers e) →
  (∀ op, op ∈ rest → c <= op_customer op) → no_early_replace (delete c m) rest → no_fail w →
  wp ('(err, failed, rest, st) ← aspa_compute_loop array rest (S pos) (next_existing st);
      mret (err, failed, removed :: rest, st))
    (compute_result array m pos (current :: rest) w) w.
Proof.
  intros c removed IH Hcomp Hb He Hcs Hts Hns Hty Hmc Hle Hne Hnf. wp_step.
  eapply wp_mono; [apply (IH (S pos) (next_existing st) ex (delete c m)); try done|].
  - rewrite <- He. eapply computing_remove, Hcomp. lia.
  - intros op Hop r Hr%Hb. pose proof (Hle op Hop). lia.
  - intros [[[err failed] ops'] st''] w2 [Hw2 Hres]. wp_step. split; [done|].
    assert (record_wf e) as Hwf.
    { destruct Hcomp as (_ & _ & _ & _ & _ & _ & _ & _ & Ho & _).
      apply Forall_app in Ho as [_ [(? & _) _]%Forall_cons]. done. }
    rewrite replay_remove; [|done..|].
    2:{ change (m !! op_customer sorted = Some (providers (copied e))). by rewrite Hcs, copied_providers. }
    change (op_customer removed) with (op_customer sorted). rewrite Hcs.
    simpl. rewrite Hty. fold c. by rewrite Hmc.
Qed.

Lemma compute_loop_spec array ops :
  array_ok array → Forall op_ok ops → ops_sorted ops → loop_ok array ops.
Proof.
  intros Harr. remember (length ops) as k eqn:Hk. assert (length ops <= k)%nat as Hlen by lia. clear Hk.
  revert ops Hlen. induction k as [|k IH]; intros ops Hlen Hops Hsort pos st ex m w Hcomp Hbel Hne Hnf.
  { destruct ops; [|simpl in Hlen; lia]. simpl. wp_step. split; [apply emits_refl|]. simpl.
    split_and!; try done. by eapply computing_finished. }
  destruct ops as [|current rest].
  { simpl. wp_step. split; [apply emits_refl|]. simpl. split_and!; try done. by eapply computing_finished. }
  apply Forall_cons in Hops as [Hop Hops]. apply StronglySorted_cons in Hsort as [Hle Hsort].
  rewrite Forall_forall in Hle. simpl in Hlen. destruct Hne as [Hne1 Hne2].
  set (c := op_customer current) in *.
  assert (sanity_check current = Some tt) as Hsan.
  { unfold sanity_check. destruct Hop as (_ & _ & Hrem). destruct (type current); [|done].
    destruct (Hrem eq_refl) as [-> ->]. by rewrite !assert_true. }
  cbn [aspa_compute_loop]. wp_step. eapply wp_of_option; [exact Hsan|]. cbv zeta.
  replace (customer_asn (record (set_record current (sort_providers (record current))))) with c
    by (symmetry; apply sort_providers_customer).
  wp_step. eapply wp_mono; [eapply skip_smaller_spec; try done; apply Hbel; left|].
  intros [err st1] w1 (-> & Hw1 & ex1 & Hcomp1 & Hb1 & Hge1). rewrite decide_True by done.
  wp_step. eapply wp_of_option; [by apply get_record_spec|].
  replace (drop (existing_i st1) (data array)) with ex1 by apply Hcomp1.
  assert (no_fail w1) as Hnf1 by eauto with rtr.
  pose proof (computing_lookup _ _ _ _ _ _ Hcomp1 Hb1 Hge1) as Hmc.
  assert (∀ (mm : M E _), wp mm (compute_result array m pos (current :: rest) w1) w1 →
    wp mm (compute_result array m pos (current :: rest) w) w1) as Hw.
  { intros mm Hmm. eapply wp_mono; [exact Hmm|]. intros [[[err failed] ops'] st'] w' [Hw' Hres].
    split; [by eapply emits_quiet|done]. }
  apply Hw. change (type (set_record current _)) with (type current).
  destruct (type current) eqn:Hty.
  - assert (loop_ok array rest) as IHrest by (apply IH; [lia|done..]).
    destruct Hop as (Hwf & Hno & Hrem). destruct (Hrem Hty) as [Hpc Hpa].
    destruct ex1 as [|e ex1]; cbn [head].
    { wp_step. split; [apply emits_refl|]. simpl. rewrite Hty. fold c. by rewrite Hmc. }
    destruct (Z.eqb_spec (customer_asn e) c) as [He|He].
    2:{ wp_step. split; [apply emits_refl|]. simpl. rewrite Hty. fold c. by rewrite Hmc. }
    assert (∀ b : bool, (b = true → match rest with
        | next :: _ => op_customer next = c ∧ type next = RTR_ASPA_REMOVE | [] => False end) →
      wp (if b then mret (RTR_ASPA_RECORD_NOT_FOUND, Some (S pos),
                set_record current (sort_providers (record current)) :: rest, st1)
          else '(err, failed, rest, st) ← aspa_compute_loop array rest (S pos) (next_existing st1);
               mret (err, failed, set_providers (set_record current (sort_providers (record current)))
                 (provider_count e) (provider_asns e) :: rest, st))
        (compute_result array m pos (current :: rest) w1) w1) as Hgo.
    { intros [] Hb.
      - wp_step. split; [apply emits_refl|]. destruct rest as [|next rest]; [by destruct Hb|].
        destruct (Hb eq_refl) as [Hnc Htn]. simpl. rewrite Hty. fold c. rewrite Hmc, Htn, Hnc.
        by rewrite lookup_delete_eq.
      - eapply compute_remove_path; try done. unfold op_customer. simpl. apply sort_providers_customer. }
    destruct rest as [|next rest]; [by apply (Hgo false)|].
    apply Hgo. intros [Hnc%Z.eqb_eq Htn%bool_decide_eq_true]%andb_true_iff. done.
  - assert (loop_ok array rest) as IHrest by (apply IH; [lia|done..]).
    destruct rest as [|next rest].
    { apply compute_add_path; try done. intros op Hin. inversion Hin. }
    fold (op_customer next). apply StronglySorted_cons in Hsort as [Hle' Hsort].
    rewrite Forall_forall in Hle'. destruct (Z.eqb_spec (op_customer next) c) as [Hnc|Hnc].
    + apply Forall_cons in Hops as [Hopn Hops]. destruct (type next) eqn:Htn.
      * apply compute_pair_path; try done; [by apply IH; [simpl in Hlen; lia|..]| |].
        { intros op Hin. apply Hle. by right. }
        destruct Hne2 as [_ Hne2]. by rewrite Htn, Hnc, delete_insert_eq in Hne2.
      * wp_step. split; [apply emits_refl|]. simpl. rewrite Hty, Htn. fold c. rewrite Hnc.
        by rewrite decide_True.
    + apply compute_add_path; try done.
      * assert (c <= op_customer next) by (apply Hle; left).
        intros op [->|Hin%Hle']%elem_of_cons; fold c; lia.
      * intros _. by apply Hne1.
Qed.

(** ** The computation *)

Lemma append_rest_spec array n i (a : aspa_array) w :
  array_ok array → array_ok a → capacity_ok a → n = (size array - i)%nat →
  Z.of_nat (size a + n) <= capacity a → Forall aspa_record_ok (drop i (data array)) →
  wp (aspa_append_rest n array i a) (λ a' w', emits w [] w' ∧ array_ok a' ∧
    data a' = data a ++ drop i (data array)) w.
Proof.
  intros Harr. revert i a w. induction n as [|n IH]; intros i a w Ha Hc Hn Hcap Ho; cbn [aspa_append_rest].
  { wp_step. split_and!; [apply emits_refl|done|]. destruct Harr as (Hl & _).
    by rewrite drop_ge, app_nil_r by lia. }
  pose proof Harr as (Hl & _). destruct (lookup_lt_is_Some_2 (data array) i) as [r Hr]; [lia|].
  wp_step. eapply wp_of_option; [by apply get_record_spec|]. rewrite (drop_S _ _ _ Hr) in *.
  apply Forall_cons in Ho as [(Hwf & Hst & Hs) Ho]. cbn [head]. do 2 wp_step. wp_step.
  eapply wp_mono; [apply append_spec; try done; lia|].
  intros [err a'] w1 [Hw1 [(-> & Ha' & Hc' & Hcap' & Hsz' & Hd')|(_ & _ & _ & ?)]]; [|done].
  eapply wp_mono; [apply IH; try done; lia|]. intros a'' w2 (Hw2 & Ha'' & Hd'').
  split_and!; [by eapply emits_quiet|done|]. by rewrite Hd'', Hd', Hst, <- app_assoc.
Qed.

Lemma ref_run_error m prev pos ops e p : ref_run m prev pos ops = inl (e, p) → e ≠ RTR_ASPA_SUCCESS.
Proof.
  revert m prev pos. induction ops as [|op ops IH]; intros m prev pos; simpl; [done|].
  destruct (type op).
  - destruct (m !! _); [by apply IH|]. by intros [= <- <-].
  - case_decide; [by intros [= <- <-]|by apply IH].
Qed.

(** The array of a cache. *)
Definition cache_array_ok (a : aspa_array) : Prop :=
  array_ok a ∧ customers_sorted (data a) ∧ Forall aspa_record_ok (data a).

Definition internal_result array (ops : list aspa_update_operation) w
    (res : rtr_aspa_status * option nat * list aspa_update_operation * aspa_array * aspa_array) w' : Prop :=
  let '(err, failed, ops', new, _) := res in
  emits w [] w' ∧
  match ref_run (map_of (data array)) None 0 ops with
  | inl (e, p) => err = e ∧ failed = Some p
  | inr m' => err = RTR_ASPA_SUCCESS ∧ failed = None ∧ cache_array_ok new ∧ map_of (data new) = m' ∧
      replay (map_of (data array)) ops' = Some m'
  end.

Lemma reserve_spec (a : aspa_array) n w :
  array_ok a → capacity_ok a → no_fail w →
  wp (aspa_array_reserve a n) (λ '(_, a') w', emits w [] w' ∧ array_ok a' ∧ capacity_ok a' ∧
    n <= capacity a' ∧ size a' = size a ∧ data a' = data a) w.
Proof.
  intros (Hl & Hc & Hr) Hcap Hnf. unfold aspa_array_reserve. destruct (Z.leb_spec n (capacity a)).
  - wp_step. split_and!; try done. apply emits_refl.
  - do 2 wp_step. destruct b; simpl; [|no_alloc_failure]. wp_step.
    unfold array_ok, capacity_ok, sizeof_record in *. simpl. split_and!; try done; lia.
Qed.

Lemma finished_rest array st m :
  array_ok array → finished array st m →
  let new := cs_new_array st in
  ∃ l n, aspa_array_get_record new (size new - 1) = Some l ∧
    aspa_array_get_record array (existing_i st) = Some n ∧
    let skip := match l, n with Some l, Some n => customer_asn l =? customer_asn n | _, _ => false end in
    drop (if skip then S (existing_i st) else existing_i st) (data array) =
      still_existing (data new) (drop (existing_i st) (data array)).
Proof.
  intros Harr (Ha & _) new. exists (last (data new)), (head (drop (existing_i st) (data array))).
  split; [|split; [by apply get_record_spec|]].
  - rewrite get_record_spec by done. f_equal. destruct Ha as (Hl & _).
    destruct (data new) as [|x l] eqn:Hd using rev_ind; [by rewrite drop_nil|].
    rewrite last_snoc, drop_app_length'; [done|]. unfold new in *. rewrite Hd, length_app in Hl. simpl in Hl. lia.
  - cbv zeta. unfold still_existing. destruct (last (data new)) as [l|]; [|done].
    destruct (drop (existing_i st) (data array)) as [|e ex] eqn:Hdr; [done|]. cbn [head].
    destruct (customer_asn l =? customer_asn e); [|done].
    by rewrite <- Nat.add_1_r, <- drop_drop, Hdr.
Qed.

Lemma compute_internal_spec array (new_array replaced : aspa_array) ops w :
  cache_array_ok array → Forall op_ok ops → ops_sorted ops → ops ≠ [] →
  no_early_replace (map_of (data array)) ops → no_fail w →
  array_ok new_array → capacity_ok new_array → size new_array = 0%nat → data new_array = [] →
  array_ok replaced → capacity_ok replaced → Z.of_nat (size replaced) < capacity replaced →
  wp (aspa_table_update_compute_internal array new_array ops replaced) (internal_result array ops w) w.
Proof.
  intros (Harr & Hs & Ho) Hops Hsort Hne Hearly Hnf Hn1 Hn2 Hn3 Hn4 Hr1 Hr2 Hr3.
  unfold aspa_table_update_compute_internal. wp_step.
  eapply wp_of_option; [apply assert_true; destruct ops; done|]. wp_step.
  eapply wp_mono; [by apply reserve_spec|]. intros [err0 na] w1 (Hw1 & Ha1 & Hc1 & Hcap & Hsz & Hd).
  assert (no_fail w1) as Hnf1 by eauto with rtr. wp_step.
  pose proof Harr as (Hlen & _).
  eapply wp_mono; [apply (compute_loop_spec array ops Harr Hops Hsort 0%nat _ (data array)
    (map_of (data array))); try done|].
  - unfold computing. simpl. rewrite Hd, Hn4, Hsz, Hn3. simpl. split_and!; try done.
    rewrite Hlen. lia.
  - intros op Hop r. simpl. rewrite Hd, Hn4. intros Hr. inversion Hr.
  - intros [[[err failed] ops'] st] w2 [Hw2 Hres]. unfold internal_result.
    destruct (ref_run _ None 0 ops) as [[e p]|m'] eqn:Href.
    + destruct Hres as [-> ->]. cbv zeta. rewrite decide_False by by eapply ref_run_error.
      wp_step. split_and!; try done. by eapply emits_quiet.
    + destruct Hres as (-> & -> & Hfin & Hrep). cbv zeta. rewrite decide_True by done.
      destruct (finished_rest array st m' Harr Hfin) as (l & nx & Hl & Hnx & Hdrop).
      wp_step. eapply wp_of_option; [exact Hl|]. wp_step. eapply wp_of_option; [exact Hnx|].
      destruct Hfin as (Hfa & Hfc & Hfcap & Hfs & Hfo & Hfm). cbv zeta in *. wp_step.
      eapply wp_mono; [eapply append_rest_spec; try done|].
      * rewrite length_drop in Hfcap. destruct (match l with Some l => match nx with Some n => _ | None => false end | None => false end); lia.
      * rewrite Hdrop. by apply Forall_app in Hfo as [_ ?].
      * intros a' w3 (Hw3 & Ha3 & Hd3). rewrite Hdrop in Hd3. wp_step.
        split; [by do 2 (eapply emits_quiet; [done|])|]. unfold cache_array_ok. by rewrite Hd3.
Qed.

End Proofs.
