(* ===== verification/AspaTheorems.v ===== *)
(** * AS path verification: the theorems *)

From S2P Require Import Prelude AspaArray Aspa AspaVerification AspaVerificationProofs.

(** A store whose arrays are in order, with one node for each cache. *)
Definition store_ok (s : list aspa_store_node) : Prop := Forall node_ok s ∧ NoDup (node_socket <$> s).

(** A table with such a store and its locks free. *)
Definition aspa_table_ok (t : rtr_aspa_table) : Prop :=
  store_ok (store t) ∧ lock t = Unlocked ∧ update_lock t = Unlocked.

(** Every provider number of the table can be compared with those of the path. *)
Definition path_comparable (t : rtr_aspa_table) (as_path : list Z) : Prop :=
  Forall (λ p, Forall (λ r, Forall (near p) (providers r)) (store_records (store t))) as_path.

#[global] Instance near_dec a b : Decision (near a b).
Proof. apply _. Defined.
#[global] Instance customers_sorted_dec rs : Decision (customers_sorted rs).
Proof. apply _. Defined.
#[global] Instance asns_sorted_dec l : Decision (asns_sorted l).
Proof. apply _. Defined.
#[global] Instance record_wf_dec r : Decision (record_wf r).
Proof. unfold record_wf. destruct (provider_asns r); apply _. Defined.
#[global] Instance aspa_record_ok_dec r : Decision (aspa_record_ok r).
Proof. apply _. Defined.
#[global] Instance array_ok_dec a : Decision (array_ok a).
Proof. apply _. Defined.
#[global] Instance aspa_node_ok_dec n : Decision (node_ok n).
Proof. apply _. Defined.
#[global] Instance store_ok_dec s : Decision (store_ok s).
Proof. apply _. Defined.
#[global] Instance aspa_table_ok_dec t : Decision (aspa_table_ok t).
Proof. apply _. Defined.
#[global] Instance path_comparable_dec t as_path : Decision (path_comparable t as_path).
Proof. apply _. Defined.

Lemma path_comparable_spec t as_path p :
  path_comparable t as_path → p ∈ as_path → comparable (store_records (store t)) p.
Proof.
  unfold path_comparable. intros Hc Hp r x Hr Hx. rewrite Forall_forall in Hc. specialize (Hc p Hp).
  rewrite Forall_forall in Hc. specialize (Hc r Hr). rewrite Forall_forall in Hc. by apply Hc.
Qed.

(** C2: The optimised verification of AS paths computes what the algorithm of the
    IETF draft defines through the maximum and minimum lengths of the up-ramp
    (received from a customer or peer) or of the up- and the down-ramp together
    (received from a provider); the table and its lock are as before. *)
Theorem verify_as_path_correct `{Build} t as_path direction :
  aspa_table_ok t → path_comparable t as_path →
  rtr_aspa_verify_as_path (Some t) as_path direction =
    Some (match direction with
          | RTR_ASPA_UPSTREAM => verify_upstream (store_records (store t)) as_path
          | RTR_ASPA_DOWNSTREAM => verify_downstream (store_records (store t)) as_path
          end, Some t).
Proof.
  intros ((Hok & _) & Hl & _) Hc. destruct direction; simpl.
  - apply upstream_spec; [done| |done]. intros p Hp. by eapply path_comparable_spec.
  - apply downstream_spec; [done| |done]. intros p Hp. by eapply path_comparable_spec.
Qed.

(** A hop is provider+ exactly if the two AS numbers are the same or a record of
    any cache authorizes the provider; else it is not-provider+ if any cache has a
    record of the customer, and without attestation if none has. *)
Theorem check_hop_correct t c p :
  aspa_table_ok t → path_comparable t [p] →
  aspa_check_hop t c p = Some (hop (store_records (store t)) c p).
Proof.
  intros ((Hok & _) & _) Hc. apply aspa_check_hop_spec; [done|].
  eapply path_comparable_spec; [done|]. left.
Qed.

(** The search in an array of records sorted by customer finds the record of the
    customer if and only if there is one. *)
Theorem array_search_correct a customer :
  array_ok a → customers_sorted (data a) →
  ∃ res, aspa_array_search a customer = Some res ∧
    match res with
    | Some r => r ∈ data a ∧ customer_asn r = customer
    | None => ∀ r, r ∈ data a → customer_asn r ≠ customer
    end.
Proof. apply aspa_array_search_spec. Qed.

(** ** Instances *)

(** AS 1 has the providers 2 and 3, AS 4 the provider 3, AS 5 none. *)
Definition sample_records : list rtr_aspa_record :=
  [AspaRecord 1 2 (Some [2; 3]); AspaRecord 4 1 (Some [3]); AspaRecord 5 0 None].
Definition sample_array : aspa_array := AspaArray 3 128 3072 sample_records.
Definition sample_aspa_table : rtr_aspa_table :=
  AspaTable Unlocked Unlocked (Some 9%nat) [StoreNode sample_array 1].

Lemma verify_as_path_correct_witness :
  rtr_aspa_verify_as_path (H := debug_build) (Some sample_aspa_table) [4; 3; 1] RTR_ASPA_DOWNSTREAM =
    Some (verify_downstream (store_records (store sample_aspa_table)) [4; 3; 1],
          Some sample_aspa_table) ∧
  verify_downstream (store_records (store sample_aspa_table)) [4; 3; 1] = RTR_ASPA_AS_PATH_VALID ∧
  verify_downstream (store_records (store sample_aspa_table)) [4; 5; 6; 1] = RTR_ASPA_AS_PATH_INVALID.
Proof.
  split; [|split; vm_compute; reflexivity].
  apply (@verify_as_path_correct debug_build sample_aspa_table [4; 3; 1] RTR_ASPA_DOWNSTREAM); decided.
Defined.

Lemma check_hop_correct_witness :
  aspa_check_hop sample_aspa_table 1 3 = Some (hop sample_records 1 3) ∧
  hop sample_records 1 3 = ASPA_PROVIDER_PLUS ∧ hop sample_records 5 3 = ASPA_NOT_PROVIDER_PLUS.
Proof.
  split; [|split; vm_compute; reflexivity].
  apply (check_hop_correct sample_aspa_table 1 3); decided.
Defined.

Lemma array_search_correct_witness :
  ∃ res, aspa_array_search sample_array 4 = Some res ∧
    match res with
    | Some r => r ∈ data sample_array ∧ customer_asn r = 4
    | None => ∀ r, r ∈ data sample_array → customer_asn r ≠ 4
    end.
Proof. apply (array_search_correct sample_array 4); decided. Defined.

(** ** Limits *)

(** Provider numbers that differ by [2^31] or more are not compared correctly:
    with the providers 1, 2 and 3000000000 the hop to 3000000000 is judged
    not-provider+, and a valid path is found to be invalid. *)
Theorem large_asn_not_found :
  let r := AspaRecord 10 3 (Some [1; 2; 3000000000]) in
  let t := AspaTable Unlocked Unlocked None [StoreNode (AspaArray 1 128 3072 [r]) 1] in
  aspa_table_ok t ∧ hop (store_records (store t)) 10 3000000000 = ASPA_PROVIDER_PLUS ∧
  aspa_check_hop t 10 3000000000 = Some ASPA_NOT_PROVIDER_PLUS ∧
  verify_upstream (store_records (store t)) [3000000000; 10] = RTR_ASPA_AS_PATH_VALID ∧
  rtr_aspa_verify_as_path (H := debug_build) (Some t) [3000000000; 10] RTR_ASPA_UPSTREAM =
    Some (RTR_ASPA_AS_PATH_INVALID, Some t).
Proof. split; [decided|]. split_and!; vm_compute; reflexivity. Qed.

(** Appending the same record [n] times. *)
Fixpoint append_many (n : nat) (a : aspa_array) : M aspa_event aspa_array :=
  match n with
  | O => mret a
  | S n => '(_, a) ← aspa_array_append a (AspaRecord 1 0 None) false; append_many n a
  end.

(** A full array grows by 1000 bytes, not by 1000 records: the 170th record
    that is appended is written beyond the memory of the array. *)
Theorem array_growth_overflows :
  ∃ a w, aspa_array_create (World [] [] idle) = Some (Some a, w) ∧
    (∃ a' w', append_many 169 a w = Some (a', w') ∧ capacity a' = 1128 ∧ room a' = 4072) ∧
    append_many 170 a w = None.
Proof.
  eexists _, _. split; [vm_compute; reflexivity|]. split; [|vm_compute; reflexivity].
  eexists _, _. split_and!; vm_compute; reflexivity.
Qed.
