(* ===== verification/AspaSwapIn.v ===== *)
(** * The ASPA table: the theorems on updates

    The swap-in update and the operations on all records of a cache, in terms of
    the map from customers to providers of each cache. *)

From S2P Require Import Prelude AspaArray Aspa AspaUpdate AspaVerification.
From S2P Require Import AspaVerificationProofs AspaUpdateProofs AspaTheorems.

(** The records of the cache [sock]. *)
Definition cache_records (t : rtr_aspa_table) (sock : socket_ptr) : list rtr_aspa_record :=
  match aspa_store_get_node (store t) sock with
  | Some pos => default [] ((λ n, data (node_array n)) <$> store t !! pos)
  | None => []
  end.
Definition cache_map (t : rtr_aspa_table) (sock : socket_ptr) : gmap Z (list Z) :=
  map_of (cache_records t sock).

Section SwapIn.
Context `{Build} {E : Type} `{!Event aspa_event E}.
Implicit Types (t : rtr_aspa_table) (sock : socket_ptr) (w : world E).

(** ** The store *)

Lemma get_node_spec s sock :
  match aspa_store_get_node s sock with
  | Some pos => ∃ n, s !! pos = Some n ∧ node_socket n = sock ∧
      ∀ i n', (i < pos)%nat → s !! i = Some n' → node_socket n' ≠ sock
  | None => ∀ n, n ∈ s → node_socket n ≠ sock
  end.
Proof.
  induction s as [|n s IH]; simpl; [intros n Hn; inversion Hn|]. case_decide as Hs.
  { exists n. split_and!; [done..|]. intros i n' Hi. lia. }
  destruct (aspa_store_get_node s sock) as [pos|]; simpl.
  - destruct IH as (n' & Hn & Hsock & Hmin). exists n'. split_and!; [done..|].
    intros [|i] n'' Hi; simpl; [congruence|]. apply Hmin. lia.
  - intros n' [->|Hn]%elem_of_cons; auto.
Qed.

(** The first node of a cache is determined by its position. *)
Lemma get_node_unique s sock pos n :
  s !! pos = Some n → node_socket n = sock →
  (∀ i n', (i < pos)%nat → s !! i = Some n' → node_socket n' ≠ sock) →
  aspa_store_get_node s sock = Some pos.
Proof.
  revert pos. induction s as [|x s IH]; intros pos Hn Hs Hmin; [done|]. simpl. case_decide as Hx.
  - destruct pos; [done|]. by destruct (Hmin 0%nat x); [lia|..].
  - destruct pos as [|pos]; simpl in Hn; [congruence|]. rewrite (IH pos); [done..|].
    intros i n' Hi Hn'. apply (Hmin (S i)); [lia|done].
Qed.

Lemma get_node_none s sock :
  (∀ n, n ∈ s → node_socket n ≠ sock) → aspa_store_get_node s sock = None.
Proof.
  induction s as [|x s IH]; intros Hn; [done|]. simpl. rewrite decide_False by (apply Hn; left).
  rewrite IH; [done|]. intros n Hin. apply Hn. by right.
Qed.

(** ** The store stays in order *)

Lemma store_ok_replace s pos n a :
  store_ok s → s !! pos = Some n → cache_array_ok a → store_ok (<[pos := StoreNode a (node_socket n)]> s).
Proof.
  intros [Hok Hnd] Hn Ha. split; [apply Forall_insert; [done|]; by destruct Ha as (? & ? & ?)|].
  by rewrite list_fmap_insert, list_insert_id by (simpl; by rewrite list_lookup_fmap, Hn).
Qed.
Lemma store_ok_prepend s sock a :
  store_ok s → aspa_store_get_node s sock = None → cache_array_ok a → store_ok (StoreNode a sock :: s).
Proof.
  intros [Hok Hnd] Hg Ha. split; [constructor; [by destruct Ha as (? & ? & ?)|done]|]. rewrite fmap_cons.
  apply NoDup_cons. split; [|done]. simpl. rewrite list_elem_of_fmap. intros (n & -> & Hn).
  pose proof (get_node_spec s (node_socket n)) as Hsp. rewrite Hg in Hsp. by apply (Hsp n).
Qed.
Lemma store_ok_delete s pos : store_ok s → store_ok (delete pos s).
Proof.
  intros [Hok Hnd]. split; [by apply Forall_delete|]. eapply sublist_NoDup; [exact Hnd|].
  apply fmap_sublist, sublist_delete.
Qed.

Lemma get_node_replace s pos n a sock :
  aspa_store_get_node s sock = Some pos → s !! pos = Some n →
  is_Some (aspa_store_get_node (<[pos := StoreNode a (node_socket n)]> s) sock).
Proof.
  revert pos. induction s as [|n' s IH]; intros pos; simpl; [done|]. destruct (decide (node_socket n' = sock)) as [Hs|Hs].
  - intros [= <-] [= <-]. simpl. rewrite decide_True by done. by eexists.
  - destruct (aspa_store_get_node s sock) as [i|]; [|done]. intros [= <-] Hn. simpl. rewrite decide_False by done.
    destruct (IH i eq_refl Hn) as [j ->]. by eexists.
Qed.

(** Another array for the node of a cache. *)
Lemma cache_records_replace t pos n a s l1 l2 sock :
  aspa_store_get_node (store t) sock = Some pos → store t !! pos = Some n →
  s = <[pos := StoreNode a (node_socket n)]> (store t) →
  ∀ sock', cache_records (AspaTable l1 l2 (update_fp t) s) sock' =
    if decide (sock' = sock) then data a else cache_records t sock'.
Proof.
  intros Hg Hn -> sock'. pose proof (get_node_spec (store t) sock) as Hspec. rewrite Hg in Hspec.
  destruct Hspec as (n0 & Hn0 & Hs & Hmin). rewrite Hn in Hn0. injection Hn0 as <-.
  assert (pos < length (store t))%nat as Hlt by by eapply lookup_lt_Some.
  assert (aspa_store_get_node (<[pos := StoreNode a (node_socket n)]> (store t)) sock' =
    aspa_store_get_node (store t) sock') as Heq.
  { assert (∀ i x, <[pos := StoreNode a (node_socket n)]> (store t) !! i = Some x →
      ∃ x', store t !! i = Some x' ∧ node_socket x' = node_socket x) as Hsame.
    { intros i x Hi. destruct (decide (i = pos)) as [->|Hne].
      - rewrite list_lookup_insert_eq in Hi by done. injection Hi as <-. eauto.
      - rewrite list_lookup_insert_ne in Hi by done. eauto. }
    pose proof (get_node_spec (<[pos := StoreNode a (node_socket n)]> (store t)) sock') as Hsp.
    destruct (aspa_store_get_node (<[pos := _]> _) sock') as [q|]; symmetry.
    - destruct Hsp as (x & Hx & Hsx & Hm). destruct (Hsame q x Hx) as (x' & Hx' & Hsx').
      apply (get_node_unique _ _ _ x'); [done|congruence|]. intros i y Hi Hy.
      destruct (decide (i = pos)) as [->|Hne].
      + rewrite Hn in Hy. injection Hy as <-. apply (Hm pos (StoreNode a (node_socket n))); [done|].
        by rewrite list_lookup_insert_eq.
      + apply (Hm i); [done|]. by rewrite list_lookup_insert_ne.
    - apply get_node_none. intros x (i & Hi)%list_elem_of_lookup. destruct (decide (i = pos)) as [->|Hne].
      + rewrite Hn in Hi. injection Hi as <-. apply (Hsp (StoreNode a (node_socket n))).
        apply list_elem_of_lookup. exists pos. by rewrite list_lookup_insert_eq.
      + apply Hsp, list_elem_of_lookup. exists i. by rewrite list_lookup_insert_ne. }
  unfold cache_records. simpl. rewrite Heq. case_decide as Hd.
  - subst sock'. rewrite Hg, list_lookup_insert_eq by done. done.
  - destruct (aspa_store_get_node (store t) sock') as [q|] eqn:Hq; [|done].
    rewrite list_lookup_insert_ne; [done|]. intros ->. pose proof (get_node_spec (store t) sock') as Hsp.
    rewrite Hq in Hsp. destruct Hsp as (x & Hx & Hsx & _). congruence.
Qed.

(** A new node in front. *)
Lemma cache_records_prepend t a sock l1 l2 sock' :
  aspa_store_get_node (store t) sock = None →
  cache_records (AspaTable l1 l2 (update_fp t) (StoreNode a sock :: store t)) sock' =
    if decide (sock' = sock) then data a else cache_records t sock'.
Proof.
  intros Hg. unfold cache_records. simpl. destruct (decide (sock = sock')) as [->|Hne].
  - by rewrite decide_True.
  - rewrite decide_False by congruence. by destruct (aspa_store_get_node (store t) sock').
Qed.

(** ** Locks *)

Lemma wp_wrlock_table t Q w :
  lock t = Unlocked → Q (set_lock t WriteLocked) w → wp (wrlock_table t) Q w.
Proof. intros Hl HQ. unfold wrlock_table. rewrite Hl. simpl. do 2 wp_step. by wp_step. Qed.
Lemma wp_rdlock_table t Q w :
  lock t = Unlocked → Q (set_lock t (ReadLocked 0)) w → wp (rdlock_table t) Q w.
Proof. intros Hl HQ. unfold rdlock_table. rewrite Hl. simpl. do 2 wp_step. by wp_step. Qed.
Lemma wp_unlock_table t Q w :
  lock t = WriteLocked ∨ lock t = ReadLocked 0 → Q (set_lock t Unlocked) w → wp (unlock_table t) Q w.
Proof. intros [Hl|Hl] HQ; unfold unlock_table; rewrite Hl; simpl; do 2 wp_step; by wp_step. Qed.
Lemma wp_wrlock_update t Q w :
  update_lock t = Unlocked → Q (set_update_lock t WriteLocked) w → wp (wrlock_update t) Q w.
Proof. intros Hl HQ. unfold wrlock_update. rewrite Hl. simpl. do 2 wp_step. by wp_step. Qed.
Lemma wp_unlock_update t Q w :
  update_lock t = WriteLocked → Q (set_update_lock t Unlocked) w → wp (unlock_update t) Q w.
Proof. intros Hl HQ. unfold unlock_update. rewrite Hl. simpl. do 2 wp_step. by wp_step. Qed.

(** ** Notification *)

(** What the client is told about a record. *)
Definition aspa_notification t (r : rtr_aspa_record) sock (op : rtr_aspa_operation_type) : list E :=
  match update_fp t with Some fp => [event (AspaNotify fp (copied r) sock op)] | None => [] end.

Lemma notify_clients_spec t r sock op w :
  no_fail w →
  wp (aspa_table_notify_clients t r sock op) (λ _ w', emits w (aspa_notification t r sock op) w') w.
Proof.
  intros Hnf. unfold aspa_table_notify_clients, aspa_notification, copied.
  destruct (update_fp t); [|wp_step; apply emits_refl].
  destruct (provider_asns r) as [l|]; [|by do 2 wp_step; wp_step].
  destruct (Nat.ltb 0 (provider_count r)); [|by do 2 wp_step; wp_step].
  do 2 wp_step. destruct b; simpl; [|no_alloc_failure].
  do 2 wp_step. wp_step. by eapply emits_quiet.
Qed.

Lemma notify_array_spec t a sock op n i w :
  array_ok a → no_fail w → (i + n = size a)%nat →
  wp (aspa_table_notify_array t a n i sock op) (λ _ w',
    emits w (drop i (data a) ≫= λ r, aspa_notification t r sock op) w') w.
Proof.
  intros Ha. revert i w. induction n as [|n IH]; intros i w Hnf Hi; cbn [aspa_table_notify_array].
  { wp_step. destruct Ha as (Hl & _). rewrite drop_ge by lia. apply emits_refl. }
  pose proof Ha as (Hl & _). destruct (lookup_lt_is_Some_2 (data a) i) as [r Hr]; [lia|].
  wp_step. eapply wp_of_option; [by apply get_record_spec|]. rewrite (drop_S _ _ _ Hr). cbn [head].
  do 2 wp_step. eapply wp_mono; [by apply notify_clients_spec|]. intros st w1 Hw1. cbv beta in Hw1. wp_step.
  eapply wp_mono; [apply IH; [by eapply emits_no_fail|lia]|]. intros [] w2 Hw2. rewrite bind_cons.
  by eapply emits_trans.
Qed.

(** The operations a client hears of. *)
Definition heard (ops : list aspa_update_operation) : list aspa_update_operation :=
  filter (λ op, is_no_op op = false) ops.

Definition op_notifications t sock (ops : list aspa_update_operation) : list E :=
  heard ops ≫= λ op, aspa_notification t (record op) sock (type op).

Lemma notify_operations_spec t sock ops w :
  no_fail w →
  wp (notify_operations t sock ops) (λ _ w', emits w (op_notifications t sock ops) w') w.
Proof.
  revert w. induction ops as [|op ops IH]; intros w Hnf; cbn [notify_operations].
  { wp_step. apply emits_refl. }
  unfold op_notifications, heard. rewrite filter_cons. wp_step.
  destruct (is_no_op op) eqn:Hno.
  - wp_step. rewrite decide_False by done. by apply IH.
  - rewrite decide_True by done. wp_step. eapply wp_mono; [by apply notify_clients_spec|].
    intros st w1 Hw1. cbv beta in Hw1. wp_step. eapply wp_mono; [apply IH; by eapply emits_no_fail|].
    intros [] w2 Hw2. rewrite bind_cons. by eapply emits_trans.
Qed.

(** ** Sorting the operations *)

Lemma op_le_customer a b : op_le a b → op_customer a <= op_customer b.
Proof.
  unfold op_le, compare_update_operations, op_customer.
  destruct (Z.ltb_spec (customer_asn (record a)) (customer_asn (record b))); [lia|].
  destruct (Z.ltb_spec (customer_asn (record b)) (customer_asn (record a))); lia.
Qed.

Lemma op_le_spec a b :
  op_le a b ↔ op_customer a < op_customer b ∨
    (op_customer a = op_customer b ∧ (index a <= index b)%nat).
Proof.
  unfold op_le, compare_update_operations, op_customer.
  destruct (Z.ltb_spec (customer_asn (record a)) (customer_asn (record b))); [lia|].
  destruct (Z.ltb_spec (customer_asn (record b)) (customer_asn (record a))); [lia|].
  destruct (Nat.ltb_spec (index b) (index a)); [lia|].
  destruct (Nat.ltb_spec (index a) (index b)); lia.
Qed.

#[global] Instance op_le_trans : Transitive op_le.
Proof. intros a b c. rewrite !op_le_spec. lia. Qed.
#[global] Instance op_le_total : Total op_le.
Proof. intros a b. rewrite !op_le_spec. lia. Qed.

Lemma sort_operations_sorted ops : ops_sorted (sort_operations ops).
Proof.
  pose proof (StronglySorted_merge_sort op_le ops) as Hs. unfold ops_sorted, sort_operations.
  induction Hs as [|x l Hs IH Hx]; constructor; [done|].
  eapply Forall_impl; [exact Hx|]. apply op_le_customer.
Qed.

(** ** Computing an update *)

Lemma array_create_spec w :
  no_fail w →
  wp (aspa_array_create) (λ res w', emits w [] w' ∧ ∃ a, res = Some a ∧ cache_array_ok a ∧
    capacity_ok a ∧ size a = 0%nat ∧ data a = [] ∧ Z.of_nat (size a) < capacity a) w.
Proof.
  intros Hnf. unfold aspa_array_create. do 2 wp_step. destruct b; simpl; [|no_alloc_failure].
  assert (no_fail w') by by eapply emits_no_fail.
  do 2 wp_step. destruct b; simpl; [|no_alloc_failure]. wp_step. split; [by eapply emits_quiet|].
  eexists. split; [done|]. unfold cache_array_ok, array_ok, capacity_ok, sizeof_record. simpl.
  split_and!; try done; try lia; constructor.
Qed.

(** The table between the computation of an update and its end: the update lock is
    taken, the records are those of [t]. *)
Definition pending t t1 sock : Prop :=
  lock t1 = Unlocked ∧ update_lock t1 = WriteLocked ∧ update_fp t1 = update_fp t ∧
  store_ok (store t1) ∧ (∀ s, cache_records t1 s = cache_records t s) ∧
  ∃ pos n, aspa_store_get_node (store t1) sock = Some pos ∧ store t1 !! pos = Some n ∧
    node_socket n = sock ∧ data (node_array n) = cache_records t sock.

(** The update that was computed. *)
Definition computed t sock (ops : list aspa_update_operation) (res : rtr_aspa_status)
    (u : aspa_update) : Prop :=
  match ref_run (cache_map t sock) None 0 (sort_operations ops) with
  | inl (e, p) => res = e ∧ failed_operation u = Some p ∧ node u = Null ∧ Aspa.new_array u = Null
  | inr m' => res = RTR_ASPA_SUCCESS ∧ failed_operation u = None ∧ node u = Ptr sock ∧
      replay (cache_map t sock) (operations u) = Some m' ∧
      ∃ a, Aspa.new_array u = Ptr a ∧ cache_array_ok a ∧ map_of (data a) = m'
  end.

Lemma find_or_create_spec t sock w :
  store_ok (store t) → lock t = Unlocked → update_lock t = WriteLocked → no_fail w →
  wp (match aspa_store_get_node (store t) sock with
      | Some pos => mret (Some pos, t)
      | None =>
          a ← aspa_array_create;
          match a with
          | None => mret (None, t)
          | Some a =>
              t ← wrlock_table t;
              '(err, s) ← aspa_store_create_node (store t) sock a;
              t ← unlock_table (set_store t s);
              mret (if decide (err = RTR_ASPA_SUCCESS) then Some 0%nat else None, t)
          end
      end) (λ '(found, t1) w', emits w [] w' ∧ pending t t1 sock ∧
        ∃ pos, found = Some pos ∧ aspa_store_get_node (store t1) sock = Some pos) w.
Proof.
  intros Hok Hl Hu Hnf. destruct (aspa_store_get_node (store t) sock) as [pos|] eqn:Hg.
  - wp_step. split_and!; [apply emits_refl| |eauto]. pose proof (get_node_spec (store t) sock) as Hsp.
    rewrite Hg in Hsp. destruct Hsp as (n & Hn & Hs & _). split_and!; try done.
    exists pos, n. split_and!; try done. unfold cache_records. by rewrite Hg, Hn.
  - wp_step. eapply wp_mono; [by apply array_create_spec|].
    intros res w1 (Hw1 & a & -> & Ha & Hc & Hsz & Hd & _). wp_step.
    apply wp_wrlock_table; [done|]. wp_step. unfold aspa_store_create_node. do 2 wp_step.
    assert (no_fail w1) by by eapply emits_no_fail.
    destruct b; simpl; [|no_alloc_failure]. do 2 wp_step. apply wp_unlock_table; [by left|]. wp_step.
    assert (∀ sock', cache_records (AspaTable Unlocked WriteLocked (update_fp t)
      (StoreNode a sock :: store t)) sock' = cache_records t sock') as Hcr.
    { intros sock'. rewrite cache_records_prepend by done. case_decide; [|done]. subst sock'.
      unfold cache_records. by rewrite Hg, Hd. }
    split_and!; [by eapply emits_quiet| |exists 0%nat; simpl; by rewrite decide_True].
    unfold pending, set_lock, set_store. simpl. rewrite Hu. split; [done|]. split; [done|]. split; [done|].
    split; [by apply store_ok_prepend|]. split; [done|].
    exists 0%nat, (StoreNode a sock). rewrite decide_True by done. split_and!; try done.
    simpl. rewrite Hd. unfold cache_records. by rewrite Hg.
Qed.

Lemma swap_in_compute_spec t sock ops w :
  aspa_table_ok t → Forall op_ok ops → ops ≠ [] →
  no_early_replace (cache_map t sock) (sort_operations ops) → no_fail w →
  wp (aspa_table_update_swap_in_compute t sock ops None) (λ '(res, t1, u) w1,
    emits w [] w1 ∧ pending t t1 sock ∧ ∃ u', u = Some u' ∧ computed t sock ops res u') w.
Proof.
  intros (Hok & Hl & Hu) Hops Hne Hearly Hnf. unfold aspa_table_update_swap_in_compute.
  destruct ops as [|op0 ops0]; [done|]. set (ops := op0 :: ops0) in *.
  do 3 wp_step. destruct b; [|no_alloc_failure].
  assert (no_fail w') by by eapply emits_no_fail. wp_step. cbv zeta. wp_step.
  apply wp_wrlock_update; [done|]. wp_step. apply wp_rdlock_table; [done|].
  wp_step. apply wp_unlock_table; [by right|]. wp_step.
  eapply wp_mono; [apply (find_or_create_spec
    (set_lock (set_lock (set_update_lock t WriteLocked) (ReadLocked 0)) Unlocked) sock); done|].
  intros [found t1] w1 (Hw1 & Hpend & pos & -> & Hpos).
  assert (no_fail w1) by by eapply emits_no_fail. cbv beta iota.
  wp_step. eapply wp_mono; [by apply array_create_spec|].
  intros res w2 (Hw2 & na & -> & (Hna & _) & Hnc & Hns & Hnd & _). wp_step.
  assert (no_fail w2) by by eapply emits_no_fail.
  eapply wp_mono; [by apply array_create_spec|].
  intros res w3 (Hw3 & ra & -> & (Hra & _) & Hrc & Hrs & Hrd & Hrlt). wp_step.
  assert (no_fail w3) by by eapply emits_no_fail.
  assert (emits w [] w3) as Hw by (do 3 (eapply emits_quiet; [done|]); done).
  pose proof Hpend as (Hpl & Hpu & Hpf & Hpok & Hprec & pos' & n & Hpos' & Hn & Hsn & Hdn).
  rewrite Hpos in Hpos'. injection Hpos' as <-.
  apply wp_rdlock_table; [done|]. wp_step. eapply wp_of_option; [exact Hn|]. wp_step.
  assert (cache_records (set_lock (set_lock (set_update_lock t WriteLocked) (ReadLocked 0)) Unlocked)
    sock = cache_records t sock) as Hcr by done.
  rewrite Hcr in Hdn.
  assert (node_ok n) as Hnok.
  { destruct Hpok as [Hpok _]. rewrite Forall_forall in Hpok. apply Hpok. by eapply list_elem_of_lookup_2. }
  eapply wp_mono; [apply (compute_internal_spec (node_array n)); try done|].
  { unfold sort_operations. by rewrite merge_sort_Permutation. }
  { apply sort_operations_sorted. }
  { intros Hnil. pose proof (merge_sort_Permutation op_le ops) as Hp.
    unfold sort_operations in Hnil. rewrite Hnil in Hp. by apply Permutation_nil_l in Hp. }
  { unfold cache_map in Hearly. by rewrite Hdn. }
  intros [[[[err failed] ops'] new] repl] w4 [Hw4 Hres]. wp_step.
  apply wp_unlock_table; [by right|]. rewrite Hdn in Hres. fold (cache_map t sock) in Hres.
  assert (pending t (set_lock (set_lock t1 (ReadLocked 0)) Unlocked) sock) as Hpend'.
  { destruct t1. simpl in *. unfold pending. simpl. subst. split_and!; try done.
    exists pos, n. by split_and!. }
  unfold computed. destruct (ref_run _ None 0 _) as [[e p]|m'] eqn:Href.
  - destruct Hres as [-> ->]. rewrite decide_False by by eapply ref_run_error.
    wp_step. split_and!; [by eapply emits_quiet|done|]. eexists. by split_and!.
  - destruct Hres as (-> & -> & Hnew & Hm & Hrep). rewrite decide_True by done.
    wp_step. split_and!; [by eapply emits_quiet|done|]. eexists. split; [done|]. simpl.
    rewrite Hsn. split_and!; try done. by exists new.
Qed.

(** ** Applying or discarding it *)

Lemma swap_in_discard_spec t t1 sock u w :
  pending t t1 sock → Aspa.new_array u ≠ Uninit →
  wp (aspa_table_update_swap_in_discard t1 (Some u)) (λ '(t2, u') w', u' = None ∧ aspa_table_ok t2 ∧
    (∀ s, cache_records t2 s = cache_records t s) ∧ emits w [] w') w.
Proof.
  intros (Hl & Hu & Hf & Hok & Hrec & _) Hn. unfold aspa_table_update_swap_in_discard,
    aspa_table_update_swap_in_consume. wp_step. apply wp_unlock_update; [done|]. wp_step.
  destruct (Aspa.new_array u); [done|..]; simpl; do 2 wp_step; split_and!; try done; apply emits_refl.
Qed.

Lemma swap_in_apply_spec t t1 sock u a w :
  pending t t1 sock → failed_operation u = None → node u = Ptr sock → Aspa.new_array u = Ptr a →
  cache_array_ok a → no_fail w →
  wp (aspa_table_update_swap_in_apply t1 (Some u)) (λ '(t2, u') w', u' = None ∧ aspa_table_ok t2 ∧
    (∀ s, cache_records t2 s = if decide (s = sock) then data a else cache_records t s) ∧
    is_Some (aspa_store_get_node (store t2) sock) ∧ emits w (op_notifications t sock (operations u)) w') w.
Proof.
  intros (Hl & Hu & Hf & Hok & Hrec & pos & n & Hpos & Hn & Hsn & Hdn) Hfail Hnode Hnew Ha Hnf.
  unfold aspa_table_update_swap_in_apply, aspa_table_update_swap_in_consume.
  rewrite Hnode, Hnew, Hfail. simpl read_field. do 2 wp_step. cbv beta iota. do 2 wp_step. cbv beta iota. wp_step.
  eapply wp_of_option; [exact Hpos|]. wp_step. apply wp_wrlock_table; [done|]. wp_step.
  assert (set_node_array (store (set_lock t1 WriteLocked)) pos a =
    Some (<[pos := StoreNode a (node_socket n)]> (store t1))) as Hset.
  { unfold set_node_array. change (store (set_lock _ _)) with (store t1). by rewrite Hn. }
  eapply wp_of_option; [exact Hset|]. wp_step. apply wp_unlock_table; [by left|]. wp_step.
  apply wp_unlock_update; [done|]. wp_step. eapply wp_mono; [by apply notify_operations_spec|].
  intros [] w1 Hw1. wp_step. split_and!; try done.
  - split; [|done]. by apply store_ok_replace.
  - intros s. etransitivity; [exact (cache_records_replace t1 pos n a _ Unlocked Unlocked sock Hpos Hn eq_refl s)|].
    case_decide; [done|]. apply Hrec.
  - by apply (get_node_replace (store t1) pos n).
  - unfold op_notifications, aspa_notification in *. simpl in Hw1. by rewrite Hf in Hw1.
Qed.

(** C7: A swap-in update behaves as its operations one after the other (in the order of
    their customers, those of one customer in the order given) on the map from customers to
    providers of the cache.  It fails exactly if one of them does, with that error and
    operation, and discarding it leaves every record; if it succeeds, applying it installs
    the new map and leaves the other caches alone, and the client's copy, updated with the
    notifications, is the new map.  Both locks are free in the end.  Assumptions: memory
    lasts, and no 'add' that replaces a record of the cache is followed, in the order of the
    customers, by an operation for another customer (the code then keeps the old record). *)
Theorem swap_in_update_correct t sock ops w :
  aspa_table_ok t → Forall op_ok ops → ops ≠ [] →
  no_early_replace (cache_map t sock) (sort_operations ops) → no_fail w →
  wp (aspa_table_update_swap_in_compute t sock ops None) (λ '(res, t1, u) w1, emits w [] w1 ∧
    wp (aspa_table_update_swap_in_discard t1 u) (λ '(t2, u') w2, u' = None ∧ aspa_table_ok t2 ∧
      (∀ s, cache_map t2 s = cache_map t s) ∧ emits w1 [] w2) w1 ∧
    match ref_run (cache_map t sock) None 0 (sort_operations ops) with
    | inl (e, p) => res = e ∧ failed_operation <$> u = Some (Some p)
    | inr m' =>
        res = RTR_ASPA_SUCCESS ∧
        wp (aspa_table_update_swap_in_apply t1 u) (λ '(t2, u') w2, u' = None ∧ aspa_table_ok t2 ∧
          (∀ s, cache_map t2 s = if decide (s = sock) then m' else cache_map t s) ∧
          ∃ ops', replay (cache_map t sock) ops' = Some m' ∧
            emits w1 (op_notifications t sock ops') w2) w1
    end) w.
Proof.
  intros Hok Hops Hne Hearly Hnf. eapply wp_mono; [by apply swap_in_compute_spec|].
  intros [[res t1] u] w1 (Hw1 & Hpend & u' & -> & Hcomp). unfold computed in Hcomp.
  assert (Aspa.new_array u' ≠ Uninit) as Hinit.
  { destruct (ref_run _ None 0 _) as [[e p]|m']; [destruct Hcomp as (_ & _ & _ & ->); done|].
    by destruct Hcomp as (_ & _ & _ & _ & a & -> & _). }
  split_and!; [done| |].
  - eapply wp_mono; [by eapply swap_in_discard_spec|]. intros [t2 u2] w2 (? & ? & Hr & ?).
    split_and!; try done. intros s. unfold cache_map. by rewrite Hr.
  - destruct (ref_run _ None 0 _) as [[e p]|m']; [destruct Hcomp as (-> & Hf & _); simpl; by rewrite Hf|].
    destruct Hcomp as (-> & Hf & Hn & Hrep & a & Hna & Ha & Hm). split; [done|].
    eapply wp_mono; [apply swap_in_apply_spec; try done; by eapply emits_no_fail|].
    intros [t2 u2] w2 (? & ? & Hr & _ & ?). split_and!; try done; [|eauto].
    intros s. unfold cache_map. rewrite Hr. by case_decide.
Qed.

(** ** All records of a cache *)

Lemma delete_first_node s sock pos :
  NoDup (node_socket <$> s) → aspa_store_get_node s sock = Some pos →
  ∀ sock', aspa_store_get_node (delete pos s) sock' =
    if decide (sock' = sock) then None
    else (λ q, if Nat.ltb pos q then (q - 1)%nat else q) <$> aspa_store_get_node s sock'.
Proof.
  intros Hnd. revert pos. induction s as [|n s IH]; intros pos Hg sock'; [done|].
  rewrite fmap_cons in Hnd. apply NoDup_cons in Hnd as [Hn Hnd]. simpl in Hg.
  destruct (decide (node_socket n = sock)) as [Hs|Hs].
  - injection Hg as <-. simpl. case_decide as Hd.
    + apply get_node_none. intros n' Hn' Heq. apply Hn. rewrite Hs, <- Hd, <- Heq.
      by apply list_elem_of_fmap_2.
    + rewrite decide_False by congruence. destruct (aspa_store_get_node s sock'); [|done].
      simpl. by rewrite Nat.sub_0_r.
  - destruct (aspa_store_get_node s sock) as [pos'|] eqn:Hg'; [|done]. injection Hg as <-. simpl.
    rewrite (IH Hnd pos' eq_refl sock'). destruct (decide (node_socket n = sock')) as [Hs'|Hs'].
    + rewrite decide_False by congruence. done.
    + case_decide; [done|]. destruct (aspa_store_get_node s sock') as [q|]; [|done]. simpl.
      change (S pos' <? S q)%nat with (pos' <? q)%nat. destruct (Nat.ltb_spec pos' q); f_equal; lia.
Qed.

(** Removing the node of a cache. *)
Lemma cache_records_delete t sock pos l1 l2 sock' :
  NoDup (node_socket <$> store t) → aspa_store_get_node (store t) sock = Some pos →
  cache_records (AspaTable l1 l2 (update_fp t) (delete pos (store t))) sock' =
    if decide (sock' = sock) then [] else cache_records t sock'.
Proof.
  intros Hnd Hg. unfold cache_records. simpl. rewrite (delete_first_node _ _ _ Hnd Hg).
  case_decide as Hd; [done|]. pose proof (get_node_spec (store t) sock') as Hsp.
  destruct (aspa_store_get_node (store t) sock') as [q|] eqn:Hq; [|done]. simpl.
  assert (q ≠ pos) as Hne.
  { intros ->. pose proof (get_node_spec (store t) sock) as Hsp'. rewrite Hg in Hsp'.
    destruct Hsp as (? & ? & ? & _), Hsp' as (? & ? & ? & _). congruence. }
  destruct (Nat.ltb_spec pos q).
  - rewrite list_lookup_delete_ge by lia. do 3 f_equal. lia.
  - by rewrite list_lookup_delete_lt by lia.
Qed.

(** What the client is told when the records of a cache go. *)
Definition aspa_notifications t (rs : list rtr_aspa_record) sock (op : rtr_aspa_operation_type)
  : list E := rs ≫= λ r, aspa_notification t r sock op.

Lemma aspa_src_remove_spec t sock (notify : bool) w :
  aspa_table_ok t → no_fail w →
  wp (rtr_aspa_table_src_remove (Some t) sock notify) (λ '(res, t') w', res = RTR_ASPA_SUCCESS ∧
    ∃ t2, t' = Some t2 ∧ aspa_table_ok t2 ∧ update_fp t2 = update_fp t ∧
      (∀ s, cache_records t2 s = if decide (s = sock) then [] else cache_records t s) ∧
      emits w (if notify then aspa_notifications t (cache_records t sock) sock RTR_ASPA_REMOVE
               else []) w') w.
Proof.
  intros ([Hok Hnd] & Hl & Hu) Hnf. unfold rtr_aspa_table_src_remove. wp_step.
  apply wp_wrlock_update; [done|]. wp_step. apply wp_wrlock_table; [done|]. wp_step.
  change (store (set_lock (set_update_lock t WriteLocked) WriteLocked)) with (store t).
  pose proof (get_node_spec (store t) sock) as Hsp.
  destruct (aspa_store_get_node (store t) sock) as [pos|] eqn:Hg.
  - destruct Hsp as (n & Hn & Hs & _).
    assert (cache_records t sock = data (node_array n)) as Hcr by (unfold cache_records; by rewrite Hg, Hn).
    assert (node_ok n) as (Ha & _).
    { rewrite Forall_forall in Hok. apply Hok. by eapply list_elem_of_lookup_2. }
    unfold aspa_table_remove_node. wp_step. eapply wp_of_option; [exact Hn|]. cbv zeta. wp_step.
    set (t' := set_store _ _).
    assert (∀ w', emits w (if notify then aspa_notifications t (cache_records t sock) sock RTR_ASPA_REMOVE
        else []) w' → wp (t0 ← unlock_table t'; t0 ← unlock_update t0; mret (RTR_ASPA_SUCCESS, Some t0))
      (λ '(res, t') w', res = RTR_ASPA_SUCCESS ∧ ∃ t2, t' = Some t2 ∧ aspa_table_ok t2 ∧ update_fp t2 = update_fp t ∧
        (∀ s, cache_records t2 s = if decide (s = sock) then [] else cache_records t s) ∧
        emits w (if notify then aspa_notifications t (cache_records t sock) sock RTR_ASPA_REMOVE
               else []) w') w') as Hend.
    { intros w' Hw. wp_step. apply wp_unlock_table; [by left|]. wp_step. apply wp_unlock_update; [done|].
      wp_step. split; [done|]. eexists. split; [done|]. split_and!; try done.
      - split; [by apply store_ok_delete|done].
      - intros s. exact (cache_records_delete t sock pos Unlocked Unlocked s Hnd Hg). }
    destruct notify.
    + eapply wp_mono; [by apply notify_array_spec|]. intros [] w1 Hw1. wp_step. cbv beta iota.
      apply Hend. unfold aspa_notifications. rewrite Hcr, Hs in *. done.
    + wp_step. wp_step. apply Hend, emits_refl.
  - wp_step. cbv beta iota. wp_step. apply wp_unlock_table; [by left|]. wp_step.
    apply wp_unlock_update; [done|]. wp_step. split; [done|]. eexists. split; [done|].
    assert (cache_records t sock = []) as Hcr by (unfold cache_records; by rewrite Hg).
    split_and!; try done.
    + intros s. case_decide; [by subst|done].
    + rewrite Hcr. destruct notify; apply emits_refl.
Qed.

(** [rtr_aspa_table_src_remove] removes exactly the records of the cache, tells
    the client about each of them if asked to, and releases both locks. *)
Theorem aspa_src_remove_correct t sock (notify : bool) w :
  aspa_table_ok t → no_fail w →
  wp (rtr_aspa_table_src_remove (Some t) sock notify) (λ '(res, t') w', res = RTR_ASPA_SUCCESS ∧
    ∃ t2, t' = Some t2 ∧ aspa_table_ok t2 ∧
      (∀ s, cache_records t2 s = if decide (s = sock) then [] else cache_records t s) ∧
      emits w (if notify then aspa_notifications t (cache_records t sock) sock RTR_ASPA_REMOVE
               else []) w') w.
Proof.
  intros Hok Hnf. eapply wp_mono; [by apply aspa_src_remove_spec|].
  intros [res t'] w' (-> & t2 & -> & ? & _ & ? & ?). split; [done|]. exists t2. by split_and!.
Qed.

End SwapIn.

(** ** Instances *)

Definition aspa_world : world aspa_event := World [] [] idle.

(** Add AS 7, remove AS 1, and add and remove AS 2. *)
Definition sample_ops : list aspa_update_operation :=
  [AspaOp 0 RTR_ASPA_ADD (AspaRecord 7 2 (Some [9; 8])) false;
   AspaOp 1 RTR_ASPA_REMOVE (AspaRecord 1 0 None) false;
   AspaOp 2 RTR_ASPA_ADD (AspaRecord 2 1 (Some [3])) false;
   AspaOp 3 RTR_ASPA_REMOVE (AspaRecord 2 0 None) false].

Lemma swap_in_update_correct_witness :
  wp (aspa_table_update_swap_in_compute (H := debug_build) sample_aspa_table 1 sample_ops None)
    (λ '(res, t1, u) w1, res = RTR_ASPA_SUCCESS ∧
      wp (aspa_table_update_swap_in_apply t1 u) (λ '(t2, u') w2,
        cache_map t2 1 = {[4 := [3]; 5 := []; 7 := [8; 9]]}) w1) aspa_world.
Proof.
  eapply wp_mono.
  { apply (@swap_in_update_correct debug_build aspa_event _ sample_aspa_table 1 sample_ops aspa_world).
    - decided.
    - unfold sample_ops. repeat apply Forall_cons_2; [vm_compute; intuition congruence..|apply Forall_nil_2].
    - discriminate.
    - vm_compute; intuition discriminate.
    - constructor. }
  intros [[res t1] u] w1 (_ & _ & Hres).
  assert (ref_run (cache_map sample_aspa_table 1) None 0 (sort_operations sample_ops) =
    inr {[4 := [3]; 5 := []; 7 := [8; 9]]}) as Hrun by (vm_compute; reflexivity).
  rewrite Hrun in Hres. destruct Hres as [-> Happ]. split; [done|].
  eapply wp_mono; [exact Happ|]. intros [t2 u'] w2 (_ & _ & Hm & _). by rewrite Hm.
Defined.

Lemma aspa_src_remove_correct_witness :
  wp (rtr_aspa_table_src_remove (Some sample_aspa_table) 1 true) (λ '(res, t') w', res = RTR_ASPA_SUCCESS ∧
    ∃ t2, t' = Some t2 ∧ aspa_table_ok t2 ∧
      (∀ s, cache_records t2 s = if decide (s = 1%nat) then [] else cache_records sample_aspa_table s) ∧
      emits aspa_world (aspa_notifications sample_aspa_table (cache_records sample_aspa_table 1) 1
        RTR_ASPA_REMOVE) w') aspa_world ∧
  cache_records sample_aspa_table 1 = sample_records.
Proof.
  split; [|vm_compute; reflexivity].
  apply (aspa_src_remove_correct sample_aspa_table 1 true aspa_world); [decided|constructor].
Defined.

(** ** Limits *)

(** The records of the new array of an update. *)
Definition new_records (u : option aspa_update) : list rtr_aspa_record :=
  match u with
  | Some u => match Aspa.new_array u with Ptr a => data a | _ => [] end
  | None => []
  end.

(** If an operation that replaces a record is followed by one for a greater
    customer, the replaced record stays in the new array next to its replacement, and
    is also listed among the records whose providers are freed when the update is
    applied. *)
Theorem early_replacement_keeps_old_record :
  let ops := [AspaOp 0 RTR_ASPA_ADD (AspaRecord 1 1 (Some [7])) false;
              AspaOp 1 RTR_ASPA_ADD (AspaRecord 9 0 None) false] in
  ∃ t1 u w1, aspa_table_update_swap_in_compute (H := debug_build) sample_aspa_table 1 ops None aspa_world =
      Some (RTR_ASPA_SUCCESS, t1, Some u, w1) ∧
    ref_run (cache_map sample_aspa_table 1) None 0 (sort_operations ops) =
      inr {[1 := [7]; 4 := [3]; 5 := []; 9 := []]} ∧
    new_records (Some u) =
      [AspaRecord 1 1 (Some [7]); AspaRecord 1 2 (Some [2; 3]); AspaRecord 4 1 (Some [3]);
       AspaRecord 5 0 None; AspaRecord 9 0 None] ∧
    ∃ a, replaced_records u = Ptr a ∧ data a = [AspaRecord 1 2 (Some [2; 3])].
Proof.
  eexists _, _, _. split; [vm_compute; reflexivity|]. split_and!; [vm_compute; reflexivity..|].
  eexists. split; [reflexivity|]. reflexivity.
Qed.

(** If memory runs out while an update is prepared, the update lock stays taken,
    and [aspa_table_update_swap_in_discard], which has to release it, reads a pointer
    that was never set. *)
Theorem discard_after_failed_compute_undefined :
  let w := World [true; false] [] idle in
  ∃ t1 u w1, aspa_table_update_swap_in_compute (H := debug_build) sample_aspa_table 1 sample_ops None w =
      Some (RTR_ASPA_ERROR, t1, u, w1) ∧
    update_lock t1 = WriteLocked ∧ aspa_table_update_swap_in_discard t1 u w1 = None.
Proof.
  eexists _, _, _. split; [vm_compute; reflexivity|]. split; reflexivity.
Qed.
