(* ===== verification/AspaReplace.v ===== *)
(** * The ASPA table: replacing and freeing whole caches

    The theorems on [aspa_table_src_replace] and [rtr_aspa_table_free]. *)

From S2P Require Import Prelude AspaArray Aspa AspaVerification AspaVerificationProofs.
From S2P Require Import AspaUpdateProofs AspaTheorems AspaSwapIn.

Section AspaReplace.
Context {E : Type} `{!Event aspa_event E}.
Implicit Types (t dst src : rtr_aspa_table) (sock : socket_ptr) (w : world E).

(** Giving a cache another array, in an existing node or a new one; the second
    result is the array it had. *)
Lemma install_array_spec dst sock (a : aspa_array) w :
  store_ok (store dst) → cache_array_ok a → no_fail w →
  wp (match aspa_store_get_node (store dst) sock with
      | Some pos =>
          old ← of_option (store dst !! pos);
          s ← of_option (set_node_array (store dst) pos a);
          mret (RTR_ASPA_SUCCESS, Some (node_array old), s)
      | None =>
          '(err, s) ← aspa_store_create_node (store dst) sock a;
          mret (err, None, s)
      end) (λ '(err, old, s) w', err = RTR_ASPA_SUCCESS ∧ emits w [] w' ∧ store_ok s ∧
        (∀ l1 l2 s', cache_records (AspaTable l1 l2 (update_fp dst) s) s' =
           if decide (s' = sock) then data a else cache_records dst s') ∧
        match old with
        | Some o => array_ok o ∧ data o = cache_records dst sock
        | None => cache_records dst sock = []
        end) w.
Proof.
  intros Hok Ha Hnf. pose proof (get_node_spec (store dst) sock) as Hsp.
  destruct (aspa_store_get_node (store dst) sock) as [pos|] eqn:Hg.
  - destruct Hsp as (n & Hn & Hs & _). wp_step. eapply wp_of_option; [exact Hn|]. wp_step.
    assert (set_node_array (store dst) pos a = Some (<[pos := StoreNode a (node_socket n)]> (store dst))) as Hset.
    { unfold set_node_array. by rewrite Hn. }
    eapply wp_of_option; [exact Hset|]. wp_step.
    split; [done|]. split; [apply emits_refl|]. split; [|split; [|split]].
    + by apply store_ok_replace.
    + intros l1 l2 s'. by eapply cache_records_replace.
    + destruct Hok as [Hok _]. rewrite Forall_forall in Hok. apply (Hok n). by eapply list_elem_of_lookup_2.
    + unfold cache_records. by rewrite Hg, Hn.
  - unfold aspa_store_create_node. do 3 wp_step. destruct b; simpl; [|no_alloc_failure]. do 2 wp_step.
    split; [done|]. split; [done|]. split; [by apply store_ok_prepend|]. split.
    + intros l1 l2 s'. by apply cache_records_prepend.
    + unfold cache_records. by rewrite Hg.
Qed.

Lemma wp_unlock_both dst src Q w :
  lock dst = WriteLocked → lock src = WriteLocked → update_lock dst = WriteLocked →
  update_lock src = WriteLocked →
  Q (AspaTable Unlocked Unlocked (update_fp dst) (store dst),
     AspaTable Unlocked Unlocked (update_fp src) (store src)) w →
  wp (unlock_both dst src) Q w.
Proof.
  intros Hl1 Hl2 Hu1 Hu2 HQ. unfold unlock_both. wp_step. apply wp_unlock_table; [by left|].
  wp_step. apply wp_unlock_table; [by left|]. wp_step. apply wp_unlock_update; [done|].
  wp_step. apply wp_unlock_update; [done|]. by wp_step.
Qed.

(** The notification of all records of an array, if it is asked for. *)
Lemma notify_array_if (b : bool) t t' a sock op w :
  update_fp t' = update_fp t → array_ok a → no_fail w →
  wp (if b then aspa_table_notify_array t' a (size a) 0 sock op else mret tt) (λ _ w',
    emits w (if b then aspa_notifications t (data a) sock op else []) w') w.
Proof.
  intros Hfp Ha Hnf. destruct b; [|wp_step; apply emits_refl].
  eapply wp_mono; [by apply notify_array_spec|]. intros [] w' Hw.
  unfold aspa_notifications, aspa_notification in *. by rewrite Hfp in Hw.
Qed.

Lemma src_replace_spec dst src sock (notify_dst notify_src : bool) w :
  aspa_table_ok dst → aspa_table_ok src → no_fail w →
  wp (aspa_table_src_replace dst src sock notify_dst notify_src) (λ '(res, dst', src') w',
    aspa_table_ok dst' ∧ aspa_table_ok src' ∧ update_fp dst' = update_fp dst ∧
    match aspa_store_get_node (store src) sock with
    | None => res = RTR_ASPA_ERROR ∧ dst' = dst ∧ src' = src ∧ emits w [] w'
    | Some _ =>
        res = RTR_ASPA_SUCCESS ∧
        (∀ s, cache_records dst' s =
           if decide (s = sock) then cache_records src sock else cache_records dst s) ∧
        (∀ s, cache_records src' s = if decide (s = sock) then [] else cache_records src s) ∧
        emits w ((if notify_src
                  then aspa_notifications src (cache_records src sock) sock RTR_ASPA_REMOVE else []) ++
                 (if notify_dst
                  then aspa_notifications dst (cache_records dst sock) sock RTR_ASPA_REMOVE else []) ++
                 (if notify_dst
                  then aspa_notifications dst (cache_records src sock) sock RTR_ASPA_ADD else [])) w'
    end) w.
Proof.
  intros (Hdok & Hdl & Hdu) (Hsok & Hsl & Hsu) Hnf. unfold aspa_table_src_replace.
  wp_step. apply wp_wrlock_update; [done|]. wp_step. apply wp_wrlock_update; [done|].
  wp_step. apply wp_wrlock_table; [done|]. wp_step. apply wp_wrlock_table; [done|].
  change (store (set_lock (set_update_lock dst _) _)) with (store dst).
  change (store (set_lock (set_update_lock src _) _)) with (store src).
  pose proof (get_node_spec (store src) sock) as Hsp.
  destruct (aspa_store_get_node (store src) sock) as [pos|] eqn:Hg.
  2:{ wp_step. apply wp_unlock_both; try done. wp_step. destruct dst, src. simpl in *. subst.
      split_and!; try done. apply emits_refl. }
  destruct Hsp as (n & Hn & Hs & _).
  assert (cache_records src sock = data (node_array n)) as Hcr by (unfold cache_records; by rewrite Hg, Hn).
  assert (node_ok n) as Hnok.
  { destruct Hsok as [Hsok _]. rewrite Forall_forall in Hsok. apply Hsok. by eapply list_elem_of_lookup_2. }
  pose proof Hnok as (Han & _).
  wp_step. eapply wp_of_option; [exact Hn|]. cbv zeta. wp_step.
  eapply wp_mono; [by apply (install_array_spec dst sock (node_array n))|].
  intros [[err old] s] w1 (-> & Hw1 & Hsok' & Hdrec & Hold). rewrite decide_True by done.
  assert (no_fail w1) by by eapply emits_no_fail.
  wp_step. apply wp_unlock_both; try done. wp_step.
  eapply wp_mono; [by apply (notify_array_if notify_src src)|]. intros [] w2 Hw2. cbv beta in Hw2. wp_step.
  assert (no_fail w2) by by eapply emits_no_fail.
  eapply (wp_mono _ (λ _ w', emits w2 (if notify_dst
    then aspa_notifications dst (cache_records dst sock) sock RTR_ASPA_REMOVE else []) w')).
  { destruct old as [o|].
    - destruct Hold as [Ho <-]. by apply (notify_array_if notify_dst dst).
    - wp_step. rewrite Hold. destruct notify_dst; apply emits_refl. }
  intros [] w3 Hw3. assert (no_fail w3) by by eapply emits_no_fail. cbv beta in Hw3.
  wp_step. eapply wp_mono; [by apply (notify_array_if notify_dst dst)|].
  intros [] w4 Hw4. wp_step. rewrite Hcr. split_and!; try done.
  - split; [by apply store_ok_delete|done].
  - intros s'. exact (cache_records_delete src sock pos Unlocked Unlocked s' (proj2 Hsok) Hg).
  - eapply emits_quiet; [exact Hw1|]. eapply emits_trans; [exact Hw2|]. by eapply emits_trans.
Qed.

(** C38: [aspa_table_src_replace] fails, and changes nothing, if the source table has
    no node for the cache.  Otherwise the destination has exactly the source's records
    for that cache, the source has none, no other cache is touched, and the clients
    are told if asked to: the source's of the removal of its records, the
    destination's of the removal of the old and the addition of the new ones.  All
    four locks are free in the end. *)
Theorem aspa_src_replace_correct dst src sock (notify_dst notify_src : bool) w :
  aspa_table_ok dst → aspa_table_ok src → no_fail w →
  wp (aspa_table_src_replace dst src sock notify_dst notify_src) (λ '(res, dst', src') w',
    aspa_table_ok dst' ∧ aspa_table_ok src' ∧
    match aspa_store_get_node (store src) sock with
    | None => res = RTR_ASPA_ERROR ∧ dst' = dst ∧ src' = src ∧ emits w [] w'
    | Some _ =>
        res = RTR_ASPA_SUCCESS ∧
        (∀ s, cache_records dst' s =
           if decide (s = sock) then cache_records src sock else cache_records dst s) ∧
        (∀ s, cache_records src' s = if decide (s = sock) then [] else cache_records src s) ∧
        emits w ((if notify_src
                  then aspa_notifications src (cache_records src sock) sock RTR_ASPA_REMOVE else []) ++
                 (if notify_dst
                  then aspa_notifications dst (cache_records dst sock) sock RTR_ASPA_REMOVE else []) ++
                 (if notify_dst
                  then aspa_notifications dst (cache_records src sock) sock RTR_ASPA_ADD else [])) w'
    end) w.
Proof.
  intros Hd Hs Hnf. eapply wp_mono; [by apply src_replace_spec|].
  by intros [[res dst'] src'] w' (Hok & Hok' & _ & Hres).
Qed.

(** What the client is told when all caches go. *)
Definition all_notifications t (s : list aspa_store_node) : list E :=
  s ≫= λ n, aspa_notifications t (data (node_array n)) (node_socket n) RTR_ASPA_REMOVE.

Lemma free_nodes_spec t (notify : bool) s t' w :
  store t' = s → Forall node_ok s → update_fp t' = update_fp t → no_fail w →
  wp (aspa_table_free_nodes t' s notify) (λ t'' w', t'' = set_store t' [] ∧
    emits w (if notify then all_notifications t s else []) w') w.
Proof.
  revert t' w. induction s as [|n s IH]; intros t' w Hst Hs Hfp Hnf; cbn [aspa_table_free_nodes].
  { wp_step. split; [by destruct t'; simpl in *; subst|]. destruct notify; apply emits_refl. }
  apply Forall_cons in Hs as [(Ha & _) Hs]. wp_step. unfold aspa_table_remove_node. rewrite Hst.
  wp_step. eapply wp_of_option; [reflexivity|]. cbv zeta. wp_step. eapply wp_mono; [by apply (notify_array_if notify t)|].
  intros [] w1 Hw1. cbv beta in Hw1. wp_step. cbv beta iota. eapply wp_mono; [apply IH; try done; by eapply emits_no_fail|].
  intros t'' w2 [-> Hw2]. split; [done|]. destruct notify; [|by eapply emits_quiet].
  unfold all_notifications. rewrite bind_cons. by eapply emits_trans.
Qed.

Lemma aspa_free_spec t (notify : bool) w :
  aspa_table_ok t → no_fail w →
  wp (rtr_aspa_table_free (Some t) notify) (λ res w',
    res = Some (rtr_aspa_table_init (update_fp t)) ∧
    emits w (if notify then all_notifications t (store t) else []) w') w.
Proof.
  intros ((Hok & _) & Hl & Hu) Hnf. unfold rtr_aspa_table_free. wp_step. apply wp_wrlock_update; [done|].
  wp_step. apply wp_wrlock_table; [done|]. wp_step.
  eapply wp_mono; [by apply (free_nodes_spec t notify (store t))|]. intros t' w1 [-> Hw1]. wp_step.
  apply wp_unlock_table; [by left|]. wp_step. apply wp_unlock_update; [done|]. by wp_step.
Qed.

(** [rtr_aspa_table_free] leaves an empty table with both locks free and, if asked
    to, tells the client about every record of every cache once. *)
Theorem aspa_free_correct t (notify : bool) w :
  aspa_table_ok t → no_fail w →
  wp (rtr_aspa_table_free (Some t) notify) (λ res w',
    res = Some (rtr_aspa_table_init (update_fp t)) ∧
    emits w (if notify then all_notifications t (store t) else []) w') w.
Proof. apply aspa_free_spec. Qed.

End AspaReplace.

(** ** Instances *)

(** The shadow table of a reset: new records for the cache 1. *)
Definition sample_shadow : rtr_aspa_table :=
  AspaTable Unlocked Unlocked None [StoreNode (AspaArray 1 128 3072 [AspaRecord 6 1 (Some [3])]) 1].

Lemma aspa_src_replace_correct_witness :
  wp (aspa_table_src_replace sample_aspa_table sample_shadow 1 true false) (λ '(res, dst', src') w',
    res = RTR_ASPA_SUCCESS ∧ cache_records dst' 1 = [AspaRecord 6 1 (Some [3])] ∧
    cache_records src' 1 = [] ∧ length (events w') = 4%nat) aspa_world.
Proof.
  eapply wp_mono.
  { apply (aspa_src_replace_correct sample_aspa_table sample_shadow 1 true false aspa_world);
      [decided|decided|constructor]. }
  intros [[res dst'] src'] w' (_ & _ & Hres). simpl aspa_store_get_node in Hres.
  destruct Hres as (-> & Hd & Hs & [He _]). rewrite Hd, Hs, He. split_and!; reflexivity.
Defined.

Lemma aspa_free_correct_witness :
  wp (rtr_aspa_table_free (Some sample_aspa_table) true) (λ res w',
    res = Some (rtr_aspa_table_init (Some 9%nat)) ∧ length (events w') = 3%nat) aspa_world.
Proof.
  eapply wp_mono; [apply (aspa_free_correct sample_aspa_table true aspa_world); [decided|constructor]|].
  intros res w' [-> [He _]]. rewrite He. split; reflexivity.
Defined.
