(* ===== verification/Hashlin.v ===== *)
(** * The linear hash table: [third-party/tommyds/tommyhashlin.c]

    The table of router keys keeps its entries in a tommyds hash table that grows
    and shrinks one bucket at a time.  The segments [bucket[i]] of the C structure
    are one map from positions to lists of nodes: position [pos] lies in segment
    [ilog2(pos | 1)], which is allocated if that is less than [bucket_bit], and a
    position that the map lacks has never been written (or is stale).  A node is its
    key and its data. *)

From S2P Require Import Prelude.

Definition TOMMY_HASHLIN_BIT : Z := 6.

Inductive hashlin_state :=
| TOMMY_HASHLIN_STATE_STABLE | TOMMY_HASHLIN_STATE_GROW | TOMMY_HASHLIN_STATE_SHRINK.

#[global] Instance hashlin_state_eq_dec : EqDecision hashlin_state.
Proof. solve_decision. Defined.

Record tommy_hashlin (A : Type) := Hashlin {
  bucket : gmap Z (list (Z * A));
  bucket_bit : Z;
  bucket_max : Z;
  bucket_mask : Z;
  low_max : Z;
  low_mask : Z;
  split : Z;
  count : Z;
  state : hashlin_state }.
Arguments Hashlin {A} _ _ _ _ _ _ _ _ _.
Arguments bucket {A} _.
Arguments bucket_bit {A} _.
Arguments bucket_max {A} _.
Arguments bucket_mask {A} _.
Arguments low_max {A} _.
Arguments low_mask {A} _.
Arguments split {A} _.
Arguments count {A} _.
Arguments state {A} _.

(** [tommy_inthash_u32]. *)
Definition tommy_inthash_u32 (key : Z) : Z :=
  let key := u32 (key - Z.shiftl key 6) in
  let key := Z.lxor key (Z.shiftr key 17) in
  let key := u32 (key - Z.shiftl key 9) in
  let key := Z.lxor key (u32 (Z.shiftl key 4)) in
  let key := u32 (key - Z.shiftl key 3) in
  let key := Z.lxor key (u32 (Z.shiftl key 10)) in
  Z.lxor key (Z.shiftr key 15).

(** [1 << n] on [int]: undefined from 31 on. *)
Definition shl1 (n : Z) : option Z := if (0 <=? n) && (n <? 31) then Some (Z.shiftl 1 n) else None.

Section Hashlin.
Context {E A : Type}.
Abbreviation hashlin := (tommy_hashlin A).
Implicit Types (h : hashlin).

Definition set_bucket h (b : gmap Z (list (Z * A))) : hashlin :=
  Hashlin b (bucket_bit h) (bucket_max h) (bucket_mask h) (low_max h) (low_mask h) (split h)
    (count h) (state h).
Definition set_split h (s : Z) : hashlin :=
  Hashlin (bucket h) (bucket_bit h) (bucket_max h) (bucket_mask h) (low_max h) (low_mask h) s
    (count h) (state h).
Definition set_count h (n : Z) : hashlin :=
  Hashlin (bucket h) (bucket_bit h) (bucket_max h) (bucket_mask h) (low_max h) (low_mask h) (split h)
    n (state h).
Definition set_state h (s : hashlin_state) : hashlin :=
  Hashlin (bucket h) (bucket_bit h) (bucket_max h) (bucket_mask h) (low_max h) (low_mask h) (split h)
    (count h) s.
Definition set_low h (max mask : Z) : hashlin :=
  Hashlin (bucket h) (bucket_bit h) (bucket_max h) (bucket_mask h) max mask (split h)
    (count h) (state h).

(** [++bucket_bit] or [--bucket_bit] and the sizes that follow from it. *)
Definition set_bucket_bit h (bit : Z) : option hashlin :=
  max ← shl1 bit;
  Some (Hashlin (bucket h) bit max (max - 1) (low_max h) (low_mask h) (split h) (count h) (state h)).

Definition tommy_hashlin_stable h : hashlin :=
  Hashlin (bucket h) (bucket_bit h) (bucket_max h) (bucket_mask h) (bucket_max h) (bucket_mask h) 0
    (count h) TOMMY_HASHLIN_STATE_STABLE.

(** The positions [0 .. n) with empty lists, as [tommy_calloc] leaves them. *)
Definition empty_buckets (n : Z) : gmap Z (list (Z * A)) :=
  list_to_map ((λ i, (i, [])) <$> seqZ 0 n).

(** Without memory [bucket[0]] is null, and no position can be used. *)
Definition tommy_hashlin_init : M E hashlin :=
  ok ← alloc;
  mret (tommy_hashlin_stable (Hashlin (if ok : bool then empty_buckets 64 else ∅)
    TOMMY_HASHLIN_BIT 64 63 64 63 0 0 TOMMY_HASHLIN_STATE_STABLE)).

(** The address of the bucket at [pos]. *)
Definition tommy_hashlin_pos h (pos : Z) : option Z :=
  if Z.log2 (Z.lor pos 1) <? bucket_bit h then Some pos else None.

Definition tommy_hashlin_bucket_ref h (hash : Z) : option Z :=
  let pos := Z.land hash (low_mask h) in
  let high_pos := Z.land hash (bucket_mask h) in
  tommy_hashlin_pos h (if pos <? split h then high_pos else pos).

Definition tommy_hashlin_bucket h (hash : Z) : option (list (Z * A)) :=
  pos ← tommy_hashlin_bucket_ref h hash; bucket h !! pos.

Fixpoint search_nodes (cmp : A → bool) (hash : Z) (l : list (Z * A)) : option A :=
  match l with
  | [] => None
  | (key, x) :: l => if (key =? hash) && cmp x then Some x else search_nodes cmp hash l
  end.

(** [cmp x] is [cmp(cmp_arg, x) == 0]. *)
Definition tommy_hashlin_search h (cmp : A → bool) (hash : Z) : option (option A) :=
  l ← tommy_hashlin_bucket h hash; Some (search_nodes cmp hash l).

(** ** Growing *)

(** The loop that flushes a bucket into the low and the high one. *)
Fixpoint flush (mask : Z) (l lo hi : list (Z * A)) : list (Z * A) * list (Z * A) :=
  match l with
  | [] => (lo, hi)
  | j :: l =>
      if negb (Z.land j.1 mask =? 0) then flush mask l lo (hi ++ [j])
      else flush mask l (lo ++ [j]) hi
  end.

Definition split_bucket h : option hashlin :=
  split0 ← tommy_hashlin_pos h (split h);
  split1 ← tommy_hashlin_pos h (u32 (split h + low_max h));
  j ← bucket h !! split0;
  let '(lo, hi) := flush (low_max h) j [] [] in
  Some (set_split (set_bucket h (<[split1 := hi]> (<[split0 := lo]> (bucket h)))) (u32 (split h + 1))).

(** The loop of [hashlin_grow_step]: at most [fuel] buckets are split. *)
Fixpoint grow_loop (fuel : nat) h (split_target : Z) : option hashlin :=
  if u32 (split h + low_max h) <? split_target then
    match fuel with
    | O => None
    | S fuel =>
        h ← split_bucket h;
        if split h =? low_max h then Some (tommy_hashlin_stable h)
        else grow_loop fuel h split_target
    end
  else Some h.

Definition hashlin_grow_step h : M E hashlin :=
  h ← (if bool_decide (state h ≠ TOMMY_HASHLIN_STATE_GROW) && (bucket_max h / 2 <? count h) then
         h ← (if bool_decide (state h = TOMMY_HASHLIN_STATE_STABLE) then
                let h := set_low h (bucket_max h) (bucket_mask h) in
                ok ← alloc;
                if negb ok then of_option None
                else h ← of_option (set_bucket_bit h (bucket_bit h + 1)); mret (set_split h 0)
              else mret h);
         mret (set_state h TOMMY_HASHLIN_STATE_GROW)
       else mret h);
  if bool_decide (state h = TOMMY_HASHLIN_STATE_GROW)
  then of_option (grow_loop (Z.to_nat (low_max h)) h (u32 (2 * count h)))
  else mret h.

(** ** Shrinking *)

(** The high bucket still points into the joined list; it is not used again before
    it is written anew, and has no value from now on. *)
Definition join_buckets h : option hashlin :=
  let h := set_split h (u32 (split h - 1)) in
  split0 ← tommy_hashlin_pos h (split h);
  split1 ← tommy_hashlin_pos h (u32 (split h + low_max h));
  lo ← bucket h !! split0;
  hi ← bucket h !! split1;
  Some (set_bucket h (<[split0 := lo ++ hi]> (delete split1 (bucket h)))).

Fixpoint shrink_loop (fuel : nat) h (split_target : Z) : option hashlin :=
  if split_target <? u32 (split h + low_max h) then
    match fuel with
    | O => None
    | S fuel =>
        h ← join_buckets h;
        if split h =? 0 then
          h ← set_bucket_bit h (bucket_bit h - 1); Some (tommy_hashlin_stable h)
        else shrink_loop fuel h split_target
    end
  else Some h.

Definition hashlin_shrink_step h : option hashlin :=
  let h :=
    if bool_decide (state h ≠ TOMMY_HASHLIN_STATE_SHRINK) && (count h <? bucket_max h / 8) then
      if TOMMY_HASHLIN_BIT <? bucket_bit h then
        let h := if bool_decide (state h = TOMMY_HASHLIN_STATE_STABLE) then
                   set_split (set_low h (bucket_max h / 2) (bucket_mask h / 2)) (bucket_max h / 2)
                 else h in
        set_state h TOMMY_HASHLIN_STATE_SHRINK
      else h
    else h in
  if bool_decide (state h = TOMMY_HASHLIN_STATE_SHRINK)
  then shrink_loop (Z.to_nat (low_max h)) h (u32 (8 * count h))
  else Some h.

(** ** Inserting and removing *)

Definition tommy_hashlin_insert h (x : A) (hash : Z) : M E hashlin :=
  pos ← of_option (tommy_hashlin_bucket_ref h hash);
  l ← of_option (bucket h !! pos);
  let h := set_bucket h (<[pos := l ++ [(hash, x)]]> (bucket h)) in
  hashlin_grow_step (set_count h (u32 (count h + 1))).

(** The first node with the key [hash] that [cmp] accepts, and the list without it. *)
Fixpoint take_node (cmp : A → bool) (hash : Z) (l : list (Z * A)) : option (A * list (Z * A)) :=
  match l with
  | [] => None
  | (key, x) :: l =>
      if (key =? hash) && cmp x then Some (x, l)
      else '(y, l) ← take_node cmp hash l; Some (y, (key, x) :: l)
  end.

(** Returns the data of the node that was removed; the null pointer if there is none. *)
Definition tommy_hashlin_remove h (cmp : A → bool) (hash : Z) : option (option A * hashlin) :=
  pos ← tommy_hashlin_bucket_ref h hash;
  l ← bucket h !! pos;
  match take_node cmp hash l with
  | Some (x, l) =>
      let h := set_bucket h (<[pos := l]> (bucket h)) in
      h ← hashlin_shrink_step (set_count h (u32 (count h - 1)));
      Some (Some x, h)
  | None => Some (None, h)
  end.

(** The node of the object [x], which [same] recognises; undefined if the bucket
    does not have it. *)
Definition tommy_hashlin_remove_existing h (same : A → bool) (hash : Z) : option hashlin :=
  pos ← tommy_hashlin_bucket_ref h hash;
  l ← bucket h !! pos;
  '(_, l) ← take_node same hash l;
  let h := set_bucket h (<[pos := l]> (bucket h)) in
  hashlin_shrink_step (set_count h (u32 (count h - 1))).

End Hashlin.
