(* ===== verification/HashlinProofs.v ===== *)
(** * The linear hash table: invariant and contents

    The table is a multiset of nodes: whatever the state of its reorganisation, a
    node is in the bucket that its key selects. *)

From S2P Require Import Prelude Hashlin.

(** Taking one element out of a concatenation. *)
Lemma bind_extract {A B} `{!EqDecision A} (f : A → list B) (l : list A) x :
  NoDup l → x ∈ l → l ≫= f ≡ₚ f x ++ (filter (λ y, y ≠ x) l ≫= f).
Proof.
  induction l as [|y l IH]; intros Hnd Hx; [by apply elem_of_nil in Hx|].
  apply NoDup_cons in Hnd as [Hy Hnd]. rewrite bind_cons.
  destruct (decide (y = x)) as [->|Hne].
  - rewrite filter_cons_False by tauto. rewrite filter_all; [done|]. by intros z Hz ->.
  - rewrite filter_cons_True, bind_cons by done. apply elem_of_cons in Hx as [|Hx]; [done|].
    rewrite IH by done. rewrite !app_assoc. by rewrite (Permutation_app_comm (f y)).
Qed.

Lemma bind_agree {A B} (f g : A → list B) (l : list A) :
  (∀ x, x ∈ l → f x = g x) → l ≫= f = l ≫= g.
Proof.
  induction l as [|x l IH]; intros Hfg; [done|]. rewrite !bind_cons. f_equal; [apply Hfg; left|].
  apply IH. intros y Hy. apply Hfg. by right.
Qed.

Section HashlinProofs.
Context {E A : Type}.
Abbreviation hashlin := (tommy_hashlin A).
Implicit Types (h : hashlin) (w : world E) (l : list (Z * A)).

(** The number of buckets in use, the bucket of a key, and the nodes of the table. *)
Definition used h : Z := low_max h + split h.
Definition place (low sp key : Z) : Z :=
  if key mod low <? sp then key mod (2 * low) else key mod low.
Definition bucket_at h (pos : Z) : list (Z * A) := default [] (bucket h !! pos).
Definition contents h : list (Z * A) := seqZ 0 (used h) ≫= bucket_at h.

Definition sizes_ok h : Prop :=
  6 <= bucket_bit h <= 30 ∧ bucket_max h = 2 ^ bucket_bit h ∧ bucket_mask h = bucket_max h - 1 ∧
  low_mask h = low_max h - 1 ∧
  ((low_max h = bucket_max h ∧ split h = 0) ∨
   (bucket_max h = 2 * low_max h ∧ 6 < bucket_bit h ∧ 0 <= split h <= low_max h)).

Definition buckets_ok h : Prop :=
  ∀ pos, 0 <= pos < used h →
    ∃ l, bucket h !! pos = Some l ∧ ∀ n, n ∈ l → place (low_max h) (split h) n.1 = pos.

(** Between two operations. *)
Definition settled h : Prop :=
  match state h with
  | TOMMY_HASHLIN_STATE_STABLE => low_max h = bucket_max h ∧ split h = 0
  | _ => bucket_max h = 2 * low_max h ∧ 0 < split h < low_max h
  end.

Definition hashlin_ok h : Prop :=
  sizes_ok h ∧ buckets_ok h ∧ settled h ∧ count h = Z.of_nat (length (contents h)).

(** ** Positions *)

Lemma low_max_pow h : sizes_ok h → ∃ n, 6 <= n <= bucket_bit h ∧ low_max h = 2 ^ n.
Proof.
  intros (Hb & Hmax & _ & _ & [[Hl _]|(Hl & Hb' & _)]).
  - exists (bucket_bit h). split; [lia|congruence].
  - exists (bucket_bit h - 1). split; [lia|]. rewrite Hmax in Hl.
    replace (bucket_bit h) with (Z.succ (bucket_bit h - 1)) in Hl by lia.
    rewrite Z.pow_succ_r in Hl by lia. lia.
Qed.

Lemma land_mask key n m : 0 <= n → m = 2 ^ n → Z.land key (m - 1) = key mod m.
Proof.
  intros Hn ->. rewrite <- Z.land_ones by done. by rewrite Z.ones_equiv, Z.sub_1_r.
Qed.

Lemma sizes_bounds h :
  sizes_ok h → 64 <= low_max h ∧ 0 <= split h ∧ used h <= bucket_max h ∧ bucket_max h <= 2 ^ 30.
Proof.
  intros Hok. destruct (low_max_pow h Hok) as (n & Hn & Hl). unfold used.
  assert (2 ^ 6 <= 2 ^ n) by (apply Z.pow_le_mono_r; lia).
  destruct Hok as (Hb & Hmax & _ & _ & Hs).
  assert (2 ^ bucket_bit h <= 2 ^ 30) by (apply Z.pow_le_mono_r; lia).
  change (2 ^ 6) with 64 in *. destruct Hs as [[? ?]|(? & ? & ?)]; lia.
Qed.

Lemma pos_ok h pos : sizes_ok h → 0 <= pos < bucket_max h → tommy_hashlin_pos h pos = Some pos.
Proof.
  intros (Hb & Hmax & _) Hp. unfold tommy_hashlin_pos. rewrite Z.log2_lor by lia.
  change (Z.log2 1) with 0. rewrite Hmax in Hp.
  assert (Z.log2 pos < bucket_bit h).
  { destruct (decide (pos = 0)) as [->|]; [change (Z.log2 0) with 0; lia|].
    apply Z.log2_lt_pow2; lia. }
  destruct (Z.ltb_spec (Z.max (Z.log2 pos) 0) (bucket_bit h)); [done|lia].
Qed.

Lemma mod_double key low :
  0 < low → key mod (2 * low) = key mod low ∨ key mod (2 * low) = key mod low + low.
Proof.
  intros Hl. rewrite (Z.mul_comm 2 low), Z.rem_mul_r by lia.
  pose proof (Z.mod_pos_bound (key / low) 2).
  assert ((key / low) mod 2 = 0 ∨ (key / low) mod 2 = 1) as [-> | ->] by lia; lia.
Qed.

Lemma place_bound low sp key : 0 < low → 0 <= sp <= low → 0 <= place low sp key < low + sp.
Proof.
  intros Hl Hs. unfold place. pose proof (Z.mod_pos_bound key low Hl).
  destruct (Z.ltb_spec (key mod low) sp); [|lia]. destruct (mod_double key low Hl); lia.
Qed.

Lemma bucket_ref_spec h key :
  sizes_ok h →
  tommy_hashlin_bucket_ref h key = Some (place (low_max h) (split h) key) ∧
  0 <= place (low_max h) (split h) key < used h.
Proof.
  intros Hok. pose proof (sizes_bounds h Hok) as (Hlow & Hsp & Hused & _).
  assert (0 <= place (low_max h) (split h) key < used h) as Hp.
  { apply place_bound; [lia|]. destruct Hok as (_ & _ & _ & _ & [[? ?]|(? & ? & ?)]); lia. }
  split; [|done]. unfold tommy_hashlin_bucket_ref. pose proof (low_max_pow h Hok) as (n & Hn & Hl).
  pose proof Hok as (Hb & Hmax & Hbm & Hlm & Hs). rewrite Hlm, Hbm.
  rewrite (land_mask key n (low_max h)), (land_mask key (bucket_bit h) (bucket_max h)) by (lia || done).
  transitivity (tommy_hashlin_pos h (place (low_max h) (split h) key)); [|apply pos_ok; [done|lia]].
  f_equal. unfold place. destruct (Z.ltb_spec (key mod low_max h) (split h)); [|done].
  destruct Hs as [[? ?]|(-> & _)]; [|done].
  pose proof (Z.mod_pos_bound key (low_max h)). lia.
Qed.

(** ** Replacing a bucket *)

Lemma bucket_at_insert h pos l i :
  bucket_at (set_bucket h (<[pos := l]> (bucket h))) i = if decide (i = pos) then l else bucket_at h i.
Proof.
  unfold bucket_at. simpl. case_decide as Hi; [subst; by rewrite lookup_insert_eq|].
  by rewrite lookup_insert_ne.
Qed.

Lemma contents_update h pos l l' :
  0 <= pos < used h → bucket h !! pos = Some l →
  ∃ rest, contents h ≡ₚ l ++ rest ∧
    contents (set_bucket h (<[pos := l']> (bucket h))) ≡ₚ l' ++ rest.
Proof.
  intros Hp Hl. exists (filter (λ y, y ≠ pos) (seqZ 0 (used h)) ≫= bucket_at h).
  assert (pos ∈ seqZ 0 (used h)) by (apply elem_of_seqZ; lia).
  split.
  - unfold contents. rewrite (bind_extract _ _ pos) by (done || apply NoDup_seqZ).
    unfold bucket_at at 1. by rewrite Hl.
  - unfold contents. change (used (set_bucket _ _)) with (used h).
    rewrite (bind_extract _ _ pos) by (done || apply NoDup_seqZ).
    rewrite bucket_at_insert, decide_True by done. apply Permutation_app_head.
    erewrite bind_agree; [reflexivity|]. intros x [Hx _]%list_elem_of_filter.
    by rewrite bucket_at_insert, decide_False.
Qed.

Lemma buckets_ok_update h pos l' :
  buckets_ok h → 0 <= pos < used h →
  (∀ n, n ∈ l' → place (low_max h) (split h) n.1 = pos) →
  buckets_ok (set_bucket h (<[pos := l']> (bucket h))).
Proof.
  intros Hb Hp Hl i Hi. simpl. destruct (decide (i = pos)) as [->|Hne].
  - exists l'. by rewrite lookup_insert_eq.
  - rewrite lookup_insert_ne by done. by apply Hb.
Qed.

(** ** Splitting and joining *)

Lemma land_pow2 key n :
  0 <= n → Z.land key (2 ^ n) = if Z.testbit key n then 2 ^ n else 0.
Proof.
  intros Hn. apply Z.bits_inj'. intros i Hi. rewrite Z.land_spec, Z.pow2_bits_eqb by done.
  destruct (Z.eqb_spec n i) as [->|Hne].
  - destruct (Z.testbit key i) eqn:Hk; simpl; [by rewrite Z.pow2_bits_true|by rewrite Z.bits_0].
  - rewrite andb_false_r. destruct (Z.testbit key n); [|by rewrite Z.bits_0].
    by rewrite Z.pow2_bits_false.
Qed.

Lemma land_place key n low :
  0 <= n → low = 2 ^ n →
  key mod (2 * low) = if Z.land key low =? 0 then key mod low else key mod low + low.
Proof.
  intros Hn ->. assert (0 < 2 ^ n) by (apply Z.pow_pos_nonneg; lia).
  rewrite land_pow2 by done. rewrite (Z.mul_comm 2), Z.rem_mul_r by lia.
  rewrite <- Z.testbit_spec' by done. destruct (Z.testbit key n); simpl Z.b2z.
  - destruct (Z.eqb_spec (2 ^ n) 0); lia.
  - rewrite Z.eqb_refl. lia.
Qed.

Definition goes_low (low : Z) (n : Z * A) : Prop := Z.land n.1 low = 0.

#[local] Instance goes_low_dec low n : Decision (goes_low low n).
Proof. unfold goes_low. apply _. Defined.

Lemma flush_spec mask l lo hi :
  flush mask l lo hi = (lo ++ filter (goes_low mask) l, hi ++ filter (λ n, ¬ goes_low mask n) l).
Proof.
  revert lo hi. induction l as [|j l IH]; intros lo hi; simpl; [by rewrite !app_nil_r|].
  unfold goes_low in *. destruct (Z.eqb_spec (Z.land j.1 mask) 0) as [Hj|Hj]; simpl; rewrite IH.
  - rewrite filter_cons_True, filter_cons_False by tauto. by rewrite <- app_assoc.
  - rewrite filter_cons_False, filter_cons_True by tauto. by rewrite <- app_assoc.
Qed.

Lemma filter_complement {B} (P : B → Prop) `{!∀ x, Decision (P x)} (l : list B) :
  l ≡ₚ filter P l ++ filter (λ x, ¬ P x) l.
Proof.
  induction l as [|x l IH]; [done|]. destruct (decide (P x)).
  - rewrite filter_cons_True, filter_cons_False by tauto. simpl. by constructor.
  - rewrite filter_cons_False, filter_cons_True by tauto. rewrite <- Permutation_middle. by constructor.
Qed.

(** The bucket of a key before and after the bucket at [sp] is split. *)
Lemma place_split low sp key n :
  0 <= n → low = 2 ^ n → 0 <= sp < low →
  place low (sp + 1) key =
    if decide (place low sp key = sp) then (if Z.land key low =? 0 then sp else sp + low)
    else place low sp key.
Proof.
  intros Hn Hl Hs. assert (0 < low) as Hpos by lia. pose proof (Z.mod_pos_bound key low Hpos).
  pose proof (land_place key n low Hn Hl) as Hd. unfold place.
  destruct (Z.ltb_spec (key mod low) (sp + 1)), (Z.ltb_spec (key mod low) sp).
  - rewrite decide_False; [done|]. rewrite Hd. destruct (_ =? 0); lia.
  - rewrite decide_True by lia. rewrite Hd. destruct (_ =? 0); lia.
  - lia.
  - rewrite decide_False; [done|lia].
Qed.

Lemma seqZ_snoc (n : Z) : 0 <= n → seqZ 0 (n + 1) = seqZ 0 n ++ [n].
Proof. intros Hn. by rewrite seqZ_app by lia. Qed.

(** Two tables that differ in the bucket [sp] and in one more bucket at the end. *)
Lemma contents_split f g (sp n : Z) (l lo hi : list (Z * A)) :
  0 <= sp < n → (∀ i, 0 <= i < n → i ≠ sp → g i = f i) → f sp = l → g sp = lo → g n = hi →
  l ≡ₚ lo ++ hi → seqZ 0 (n + 1) ≫= g ≡ₚ seqZ 0 n ≫= f.
Proof.
  intros Hs Hfg Hf Hg Hn Hl. rewrite seqZ_snoc, bind_app, bind_singleton by lia.
  assert (sp ∈ seqZ 0 n) by (apply elem_of_seqZ; lia).
  rewrite (bind_extract f _ sp), (bind_extract g _ sp) by (done || apply NoDup_seqZ).
  rewrite (bind_agree g f).
  2:{ intros x [Hx ?%elem_of_seqZ]%list_elem_of_filter. apply Hfg; [lia|done]. }
  rewrite Hf, Hg, Hn, Hl. solve_Permutation.
Qed.

Lemma split_bucket_spec h :
  sizes_ok h → buckets_ok h → bucket_max h = 2 * low_max h → split h < low_max h →
  ∃ b, split_bucket h = Some (set_split (set_bucket h b) (split h + 1)) ∧
    sizes_ok (set_split (set_bucket h b) (split h + 1)) ∧
    buckets_ok (set_split (set_bucket h b) (split h + 1)) ∧
    contents (set_split (set_bucket h b) (split h + 1)) ≡ₚ contents h.
Proof.
  intros Hok Hb Hmax Hsp. pose proof (sizes_bounds h Hok) as (Hlow & Hs0 & _ & Hbig).
  change (2 ^ 30) with 1073741824 in Hbig. destruct (low_max_pow h Hok) as (n & Hn & Hl).
  unfold split_bucket. rewrite !u32_small by lia. rewrite !pos_ok by (done || lia). cbn [mbind option_bind].
  destruct (Hb (split h)) as (l & Hbl & Hpl); [unfold used; lia|]. rewrite Hbl. cbn [mbind option_bind].
  rewrite flush_spec. eexists. split; [done|]. set (b := <[_ := _]> _).
  assert (∀ i, b !! i = if decide (i = split h + low_max h) then Some (filter (λ n, ¬ goes_low (low_max h) n) l)
    else if decide (i = split h) then Some (filter (goes_low (low_max h)) l) else bucket h !! i) as Hbi.
  { intros i. unfold b. case_decide; [subst; by rewrite lookup_insert_eq|].
    rewrite lookup_insert_ne by done. case_decide; [subst; by rewrite lookup_insert_eq|].
    by rewrite lookup_insert_ne. }
  split_and!.
  - destruct Hok as (? & ? & ? & ? & Hd). unfold sizes_ok. simpl. do 4 (split; [lia|]). right. lia.
  - intros pos Hp. unfold used in Hp. simpl in Hp |- *. rewrite Hbi.
    repeat case_decide; subst; try (eexists; split; [done|]).
    + intros m [Hm Hml]%list_elem_of_filter. rewrite (place_split _ _ _ n) by (lia || done).
      rewrite decide_True by auto. destruct (Z.eqb_spec (Z.land m.1 (low_max h)) 0); [done|lia].
    + intros m [Hm Hml]%list_elem_of_filter. rewrite (place_split _ _ _ n) by (lia || done).
      rewrite decide_True by auto. destruct (Z.eqb_spec (Z.land m.1 (low_max h)) 0); [lia|done].
    + destruct (Hb pos) as (l' & Hl' & Hpl'); [unfold used; lia|]. exists l'. split; [done|].
      intros m Hm. rewrite (place_split _ _ _ n) by (lia || done). rewrite decide_False by (rewrite Hpl'; done).
      auto.
  - unfold contents, used. simpl. rewrite Z.add_assoc.
    apply (contents_split _ _ (split h) (low_max h + split h) l (filter (goes_low (low_max h)) l)
      (filter (λ n, ¬ goes_low (low_max h) n) l)); [lia| | | | |apply filter_complement].
    + intros i Hi Hne. unfold bucket_at. simpl. by rewrite Hbi, !decide_False by lia.
    + unfold bucket_at. by rewrite Hbl.
    + unfold bucket_at. simpl. by rewrite Hbi, decide_False, decide_True by lia.
    + unfold bucket_at. simpl. by rewrite Hbi, decide_True by lia.
Qed.

(** ** Finishing a reorganisation *)

Lemma stable_spec h :
  sizes_ok h → buckets_ok h → bucket_max h = 2 * low_max h → split h = low_max h →
  sizes_ok (tommy_hashlin_stable h) ∧ buckets_ok (tommy_hashlin_stable h) ∧
  contents (tommy_hashlin_stable h) = contents h.
Proof.
  intros Hok Hb Hmax Hsp. pose proof (sizes_bounds h Hok) as (Hlow & _).
  assert (used (tommy_hashlin_stable h) = used h) as Hu by (unfold used; simpl; lia).
  split_and!.
  - destruct Hok as (? & ? & ? & ? & _). unfold sizes_ok. simpl. do 4 (split; [lia|]). by left.
  - intros pos Hp. rewrite Hu in Hp. destruct (Hb pos Hp) as (l & Hl & Hpl). exists l. split; [done|].
    intros n Hn. rewrite <- (Hpl n Hn). unfold place. simpl. rewrite Hsp, Hmax.
    pose proof (Z.mod_pos_bound n.1 (low_max h)). pose proof (Z.mod_pos_bound n.1 (2 * low_max h)).
    destruct (Z.ltb_spec (n.1 mod (2 * low_max h)) 0), (Z.ltb_spec (n.1 mod low_max h) (low_max h)); lia.
  - unfold contents. by rewrite Hu.
Qed.

(** What a step of reorganisation keeps, and where it may stop. *)
Definition reorganised h h' : Prop :=
  sizes_ok h' ∧ buckets_ok h' ∧ contents h' ≡ₚ contents h ∧ count h' = count h.

Lemma reorganised_ok h h' :
  reorganised h h' → settled h' → count h = Z.of_nat (length (contents h)) → hashlin_ok h'.
Proof. intros (? & ? & Hp & Hc) Hs Hn. split_and!; try done. by rewrite Hc, Hn, Hp. Qed.

Lemma grow_loop_spec fuel h target :
  sizes_ok h → buckets_ok h → bucket_max h = 2 * low_max h → split h < low_max h →
  low_max h - split h <= Z.of_nat fuel → state h = TOMMY_HASHLIN_STATE_GROW →
  ∃ h', grow_loop fuel h target = Some h' ∧ reorganised h h' ∧
    ((state h' = TOMMY_HASHLIN_STATE_STABLE ∧ low_max h' = bucket_max h' ∧ split h' = 0) ∨
     (state h' = TOMMY_HASHLIN_STATE_GROW ∧ bucket_max h' = 2 * low_max h' ∧
      low_max h' = low_max h ∧ split h <= split h' < low_max h' ∧ target <= used h')).
Proof.
  revert h. induction fuel as [|fuel IH]; intros h Hok Hb Hmax Hsp Hf Hst; [lia|].
  pose proof (sizes_bounds h Hok) as (Hlow & Hs0 & _ & Hbig). change (2 ^ 30) with 1073741824 in Hbig.
  cbn [grow_loop]. rewrite u32_small by lia. destruct (Z.ltb_spec (split h + low_max h) target).
  2:{ exists h. split; [done|]. split; [by split_and!|]. right. unfold used. split_and!; try done; lia. }
  destruct (split_bucket_spec h) as (b & -> & Hok' & Hb' & Hc'); try done. cbn [mbind option_bind].
  set (h1 := set_split _ _) in *. destruct (Z.eqb_spec (split h1) (low_max h1)) as [Heq|Hne].
  - destruct (stable_spec h1) as (Hok2 & Hb2 & Hc2); try done.
    eexists. split; [done|]. split; [|by left]. split_and!; try done. by rewrite Hc2, Hc'.
  - destruct (IH h1) as (h' & Hg & (Hok2 & Hb2 & Hc2 & Hn2) & Hfin); try done; try (simpl in *; lia).
    exists h'. split; [done|]. split; [split_and!; try done; by rewrite Hc2, Hc'|].
    simpl in Hfin. destruct Hfin as [?|(? & ? & ? & ? & ?)]; [by left|right]. split_and!; try done; lia.
Qed.

(** Setting up a bigger table. *)
Lemma grow_setup_spec h h1 :
  sizes_ok h → buckets_ok h → low_max h = bucket_max h → split h = 0 → bucket_bit h < 30 →
  set_bucket_bit (set_low h (bucket_max h) (bucket_mask h)) (bucket_bit h + 1) = Some h1 →
  let h' := set_state (set_split h1 0) TOMMY_HASHLIN_STATE_GROW in
  reorganised h h' ∧ bucket_max h' = 2 * low_max h' ∧ low_max h' = bucket_max h ∧ split h' = 0.
Proof.
  intros Hok Hb Hl Hs Hbit. pose proof Hok as (Hbb & Hmax & Hbm & Hlm & _).
  unfold set_bucket_bit, shl1. destruct (Z.leb_spec 0 (bucket_bit h + 1)); [|lia].
  destruct (Z.ltb_spec (bucket_bit h + 1) 31); [|lia]. cbn [andb mbind option_bind]. intros [= <-]. simpl.
  rewrite Z.shiftl_1_l.
  assert (2 ^ (bucket_bit h + 1) = 2 * bucket_max h) as Hp.
  { rewrite Hmax, Z.pow_add_r by lia. lia. }
  split; [|lia]. unfold reorganised, buckets_ok, contents, used, sizes_ok. simpl.
  split_and!; try done; try lia.
  - intros pos Hpos. destruct (Hb pos) as (l & ? & Hpl); [unfold used; lia|]. exists l. split; [done|].
    intros n Hn. rewrite <- (Hpl n Hn), Hl, Hs. done.
  - by rewrite Hl, Hs.
Qed.

Lemma grow_step_spec h w :
  sizes_ok h → buckets_ok h → settled h → 0 <= count h <= 2 ^ 28 → no_fail w →
  wp (hashlin_grow_step h) (λ h' w', emits w [] w' ∧ reorganised h h' ∧ settled h') w.
Proof.
  intros Hok Hb Hset Hc Hnf. change (2 ^ 28) with 268435456 in Hc.
  pose proof (sizes_bounds h Hok) as (Hlow & Hs0 & _ & _).
  (* the loop, from a table in the state of growing *)
  assert (∀ h1 w1, emits w [] w1 → reorganised h h1 → bucket_max h1 = 2 * low_max h1 →
      split h1 < low_max h1 → state h1 = TOMMY_HASHLIN_STATE_GROW →
      (0 < split h1 ∨ low_max h1 < 2 * count h1) →
      wp (of_option (grow_loop (Z.to_nat (low_max h1)) h1 (u32 (2 * count h1))))
        (λ h' w', emits w [] w' ∧ reorganised h h' ∧ settled h') w1) as Hloop.
  { intros h1 w1 Hw1 (Hok1 & Hb1 & Hp1 & Hn1) Hmax Hsp Hst Hpos.
    pose proof (sizes_bounds h1 Hok1) as (Hlow1 & Hs1 & _).
    destruct (grow_loop_spec (Z.to_nat (low_max h1)) h1 (u32 (2 * count h1)))
      as (h' & Hg & (Hok' & Hb' & Hp' & Hn') & Hfin); try done; [lia|].
    eapply wp_of_option; [exact Hg|]. split; [done|]. split.
    - split_and!; try done; [by rewrite Hp', Hp1|congruence].
    - rewrite u32_small in Hfin by lia. unfold settled, used in *.
      destruct Hfin as [(-> & ? & ?)|(-> & ? & Hll & ? & ?)]; [lia|].
      destruct Hok' as (_ & _ & _ & _ & [[? ?]|(? & ? & ?)]); lia. }
  assert (reorganised h h) by by split_and!.
  assert (reorganised h (set_state h TOMMY_HASHLIN_STATE_GROW)) by by split_and!.
  unfold hashlin_grow_step. wp_step.
  destruct (state h) eqn:Hst; unfold settled in Hset; rewrite Hst in Hset; simpl; try case_bool.
  - destruct Hset as [Hl Hsp]. do 3 wp_step. destruct b; simpl; [|no_alloc_failure].
    pose proof Hok as (Hbb & Hmax & _).
    pose proof (Z.div_mod (bucket_max h) 2). pose proof (Z.mod_pos_bound (bucket_max h) 2).
    assert (bucket_bit h < 30).
    { destruct (Z.lt_ge_cases (bucket_bit h) 30); [done|]. exfalso.
      assert (2 ^ 30 <= 2 ^ bucket_bit h) by (apply Z.pow_le_mono_r; lia). change (2 ^ 30) with 1073741824 in *. lia. }
    wp_step. destruct (set_bucket_bit (set_low h _ _) (bucket_bit h + 1)) as [h1|] eqn:Hsb.
    2:{ unfold set_bucket_bit, shl1 in Hsb. destruct (Z.leb_spec 0 (bucket_bit h + 1)); [|lia].
        destruct (Z.ltb_spec (bucket_bit h + 1) 31); [done|lia]. }
    destruct (grow_setup_spec h h1 Hok Hb Hl Hsp) as (Hre & Hmax1 & Hl1 & Hs1); try done.
    eapply wp_of_option; [done|]. do 2 wp_step. rewrite bool_decide_eq_true_2 by done. apply Hloop; try done; [lia|]. right.
    destruct Hre as (_ & _ & _ & Hn). lia.
  - wp_step. rewrite Hst. simpl. wp_step. split; [apply emits_refl|]. split; [done|].
    unfold settled. by rewrite Hst.
  - wp_step. rewrite Hst. simpl. apply Hloop; try done; try lia. apply emits_refl.
  - do 2 wp_step. wp_step. rewrite bool_decide_eq_true_2 by done. apply Hloop; simpl; try done; try lia. apply emits_refl.
  - wp_step. rewrite Hst. simpl. wp_step. split; [apply emits_refl|]. split; [done|].
    unfold settled. by rewrite Hst.
Qed.

(** ** Shrinking *)

Lemma place_join low sp key n p :
  0 <= n → low = 2 ^ n → 0 <= sp < low → place low (sp + 1) key = p →
  place low sp key = if decide (p = sp + low) then sp else p.
Proof.
  intros Hn Hl Hs Hp. rewrite (place_split low sp key n) in Hp by done.
  pose proof (place_bound low sp key). repeat case_decide; subst; try lia; destruct (_ =? 0); lia.
Qed.

Lemma join_buckets_spec h :
  sizes_ok h → buckets_ok h → bucket_max h = 2 * low_max h → 0 < split h →
  ∃ b, join_buckets h = Some (set_bucket (set_split h (split h - 1)) b) ∧
    reorganised h (set_bucket (set_split h (split h - 1)) b).
Proof.
  intros Hok Hb Hmax Hsp. pose proof (sizes_bounds h Hok) as (Hlow & _ & _ & Hbig).
  change (2 ^ 30) with 1073741824 in Hbig. destruct (low_max_pow h Hok) as (n & Hn & Hl).
  pose proof Hok as (Hbb & Hbm & Hbk & Hlm & Hd).
  assert (sizes_ok (set_split h (split h - 1))) as Hok1.
  { unfold sizes_ok. simpl. do 4 (split; [lia|]). right. lia. }
  unfold join_buckets. rewrite (u32_small (split h - 1)) by lia. simpl split. simpl low_max.
  rewrite u32_small by lia. rewrite !pos_ok by (done || (simpl; lia)). cbn [mbind option_bind]. simpl bucket.
  destruct (Hb (split h - 1)) as (lo & Hlo & Hplo); [unfold used; lia|].
  destruct (Hb (split h - 1 + low_max h)) as (hi & Hhi & Hphi); [unfold used; lia|].
  rewrite Hlo, Hhi. cbn [mbind option_bind]. eexists. split; [done|]. set (b := <[_ := _]> _).
  assert (∀ i, i ≠ split h - 1 + low_max h →
    b !! i = if decide (i = split h - 1) then Some (lo ++ hi) else bucket h !! i) as Hbi.
  { intros i Hi. unfold b. case_decide; [subst; by rewrite lookup_insert_eq|].
    by rewrite lookup_insert_ne, lookup_delete_ne by done. }
  split_and!; try done.
  - intros pos Hp. unfold used in Hp. simpl in Hp |- *. rewrite Hbi by lia. case_decide as Hd'.
    + eexists. split; [done|]. intros m [Hm|Hm]%elem_of_app.
      * rewrite (place_join _ _ _ n (split h - 1)); try lia; [rewrite decide_False; lia|].
        replace (split h - 1 + 1) with (split h) by lia. by apply Hplo.
      * rewrite (place_join _ _ _ n (split h - 1 + low_max h)); try lia; [rewrite decide_True; lia|].
        replace (split h - 1 + 1) with (split h) by lia. by apply Hphi.
    + destruct (Hb pos) as (l & Hbl & Hpl); [unfold used; lia|]. exists l. split; [done|]. intros m Hm.
      rewrite (place_join _ _ _ n pos); try lia; [rewrite decide_False; lia|].
      replace (split h - 1 + 1) with (split h) by lia. by apply Hpl.
  - unfold contents, used. simpl. symmetry.
    replace (low_max h + split h) with (low_max h + (split h - 1) + 1) by lia.
    apply (contents_split _ _ (split h - 1) _ (lo ++ hi) lo hi); [lia| | | | |done].
    + intros i Hi Hne. unfold bucket_at. simpl. by rewrite Hbi, decide_False by lia.
    + unfold bucket_at. simpl. by rewrite Hbi, decide_True by lia.
    + unfold bucket_at. by rewrite Hlo.
    + unfold bucket_at. replace (low_max h + (split h - 1)) with (split h - 1 + low_max h) by lia. by rewrite Hhi.
Qed.

Lemma reorganised_trans h1 h2 h3 : reorganised h1 h2 → reorganised h2 h3 → reorganised h1 h3.
Proof.
  intros (_ & _ & Hp & Hn) (? & ? & Hp' & Hn'). split_and!; try done; [by rewrite Hp'|congruence].
Qed.

(** The end of shrinking: the last segment goes. *)
Lemma shrunk_spec h :
  sizes_ok h → buckets_ok h → bucket_max h = 2 * low_max h → split h = 0 →
  ∃ h', set_bucket_bit h (bucket_bit h - 1) = Some h' ∧ reorganised h (tommy_hashlin_stable h').
Proof.
  intros Hok Hb Hmax Hsp. pose proof (sizes_bounds h Hok) as (Hlow & _).
  pose proof Hok as (Hbb & Hbm & Hbk & Hlm & Hd).
  unfold set_bucket_bit, shl1. destruct (Z.leb_spec 0 (bucket_bit h - 1)); [|lia].
  destruct (Z.ltb_spec (bucket_bit h - 1) 31); [|lia]. cbn [andb mbind option_bind].
  rewrite Z.shiftl_1_l. eexists. split; [done|].
  assert (2 ^ bucket_bit h = 2 * 2 ^ (bucket_bit h - 1)) as Hp.
  { replace (bucket_bit h) with (1 + (bucket_bit h - 1)) at 1 by lia. rewrite Z.pow_add_r by lia. lia. }
  assert (2 ^ (bucket_bit h - 1) = low_max h) as Hl by lia.
  unfold reorganised, sizes_ok, buckets_ok, contents, used. simpl. rewrite Hl.
  split; [do 4 (split; [lia|]); by left|]. split; [|by rewrite Hsp].
  intros pos Hpos. destruct (Hb pos) as (l & ? & Hpl); [unfold used; lia|]. exists l. split; [done|].
  intros n Hn. rewrite <- (Hpl n Hn), Hsp. done.
Qed.

Lemma shrink_loop_spec fuel h target :
  sizes_ok h → buckets_ok h → bucket_max h = 2 * low_max h → 0 < split h →
  split h <= Z.of_nat fuel → state h = TOMMY_HASHLIN_STATE_SHRINK →
  ∃ h', shrink_loop fuel h target = Some h' ∧ reorganised h h' ∧
    ((state h' = TOMMY_HASHLIN_STATE_STABLE ∧ low_max h' = bucket_max h' ∧ split h' = 0) ∨
     (state h' = TOMMY_HASHLIN_STATE_SHRINK ∧ bucket_max h' = 2 * low_max h' ∧
      low_max h' = low_max h ∧ 0 < split h' <= split h ∧ used h' <= target)).
Proof.
  revert h. induction fuel as [|fuel IH]; intros h Hok Hb Hmax Hsp Hf Hst; [lia|].
  pose proof (sizes_bounds h Hok) as (Hlow & _ & Hu & Hbig). change (2 ^ 30) with 1073741824 in Hbig.
  unfold used in Hu. cbn [shrink_loop]. rewrite u32_small by lia.
  destruct (Z.ltb_spec target (split h + low_max h)).
  2:{ exists h. split; [done|]. split; [by split_and!|]. right. unfold used. split_and!; try done; lia. }
  destruct (join_buckets_spec h) as (b & -> & Hre); try done. cbn [mbind option_bind].
  set (h1 := set_bucket _ _) in *. pose proof Hre as (Hok1 & Hb1 & _).
  destruct (Z.eqb_spec (split h1) 0) as [Heq|Hne].
  - destruct (shrunk_spec h1) as (h2 & -> & Hre2); try done. cbn [mbind option_bind].
    eexists. split; [done|]. split; [by eapply reorganised_trans|by left].
  - destruct (IH h1) as (h' & Hg & Hre2 & Hfin); try done; try (simpl in *; lia).
    exists h'. split; [done|]. split; [by eapply reorganised_trans|].
    simpl in Hfin. destruct Hfin as [?|(? & ? & ? & ? & ?)]; [by left|right]. split_and!; try done; lia.
Qed.

(** Setting up a smaller table. *)
Lemma shrink_setup_spec h :
  sizes_ok h → buckets_ok h → low_max h = bucket_max h → split h = 0 → 6 < bucket_bit h →
  let h' := set_state (set_split (set_low h (bucket_max h / 2) (bucket_mask h / 2)) (bucket_max h / 2))
              TOMMY_HASHLIN_STATE_SHRINK in
  reorganised h h' ∧ bucket_max h' = 2 * low_max h' ∧ split h' = low_max h'.
Proof.
  intros Hok Hb Hl Hs Hbit. pose proof Hok as (Hbb & Hbm & Hbk & Hlm & _). simpl.
  pose proof (sizes_bounds h Hok) as (Hlow & _).
  assert (2 ^ bucket_bit h = 2 * 2 ^ (bucket_bit h - 1)) as Hp.
  { replace (bucket_bit h) with (1 + (bucket_bit h - 1)) at 1 by lia. rewrite Z.pow_add_r by lia. lia. }
  set (m := 2 ^ (bucket_bit h - 1)) in *.
  assert (bucket_max h / 2 = m) as Hm by (symmetry; apply (Z.div_unique _ _ _ 0); lia).
  assert (bucket_mask h / 2 = m - 1) as Hm' by (symmetry; apply (Z.div_unique _ _ _ 1); lia).
  rewrite Hm, Hm'. split; [|lia].
  unfold reorganised, sizes_ok, buckets_ok, contents, used. simpl.
  split; [do 4 (split; [lia|]); right; lia|]. split; [|split; [|done]].
  - intros pos Hpos. destruct (Hb pos) as (l & ? & Hpl); [unfold used; lia|]. exists l. split; [done|].
    intros n Hn. rewrite <- (Hpl n Hn). unfold place. rewrite Hs, Hl.
    replace (bucket_max h) with (2 * m) by lia.
    pose proof (Z.mod_pos_bound n.1 m). pose proof (Z.mod_pos_bound n.1 (2 * m)).
    destruct (Z.ltb_spec (n.1 mod m) m), (Z.ltb_spec (n.1 mod (2 * m)) 0); lia.
  - replace (low_max h + split h) with (m + m) by lia. done.
Qed.

Lemma shrink_step_spec h :
  sizes_ok h → buckets_ok h → settled h → 0 <= count h <= 2 ^ 28 →
  ∃ h', hashlin_shrink_step h = Some h' ∧ reorganised h h' ∧ settled h'.
Proof.
  intros Hok Hb Hset Hc. change (2 ^ 28) with 268435456 in Hc.
  assert (∀ h1, reorganised h h1 → bucket_max h1 = 2 * low_max h1 → 0 < split h1 →
      state h1 = TOMMY_HASHLIN_STATE_SHRINK → (split h1 < low_max h1 ∨ 8 * count h1 < bucket_max h1) →
      ∃ h', shrink_loop (Z.to_nat (low_max h1)) h1 (u32 (8 * count h1)) = Some h' ∧
        reorganised h h' ∧ settled h') as Hloop.
  { intros h1 Hre Hmax Hsp Hst Hlt. pose proof Hre as (Hok1 & Hb1 & Hp1 & Hn1).
    pose proof (sizes_bounds h1 Hok1) as (Hlow1 & Hs1 & Hu1 & _). unfold used in Hu1.
    destruct (shrink_loop_spec (Z.to_nat (low_max h1)) h1 (u32 (8 * count h1)))
      as (h' & Hg & Hre' & Hfin); try done; [lia|].
    exists h'. split; [done|]. split; [by eapply reorganised_trans|].
    rewrite u32_small in Hfin by lia. unfold settled, used in *.
    destruct Hfin as [(-> & ? & ?)|(-> & ? & ? & ? & ?)]; lia. }
  assert (∃ h', Some h = Some h' ∧ reorganised h h' ∧ settled h') as Hsame by by exists h; split_and!.
  assert (reorganised h (set_state h TOMMY_HASHLIN_STATE_SHRINK)) by by split_and!.
  unfold hashlin_shrink_step. pose proof (sizes_bounds h Hok) as (Hlow & _).
  destruct (state h) eqn:Hst; unfold settled in Hset; rewrite Hst in Hset.
  - destruct ((bool_decide _) && (count h <? bucket_max h / 8)) eqn:Hb1; [reflect_bools|by rewrite ?Hst].
    destruct (Z.ltb_spec TOMMY_HASHLIN_BIT (bucket_bit h)) as [Hbit|]; [|by rewrite ?Hst].
    rewrite ?Hst. unfold TOMMY_HASHLIN_BIT in Hbit. destruct Hset as [Hl Hsp].
    destruct (shrink_setup_spec h Hok Hb Hl Hsp Hbit) as (Hre & Hmax & Hs).
    rewrite !bool_decide_eq_true_2 by done. apply Hloop; try done.
    + rewrite Hs. pose proof Hre as (Hok1 & _). pose proof (sizes_bounds _ Hok1). lia.
    + right. simpl. pose proof (Z.div_mod (bucket_max h) 8). pose proof (Z.mod_pos_bound (bucket_max h) 8). lia.
  - destruct ((bool_decide _) && (count h <? bucket_max h / 8)) eqn:Hb1; [reflect_bools|by rewrite ?Hst].
    destruct (Z.ltb_spec TOMMY_HASHLIN_BIT (bucket_bit h)) as [Hbit|]; [|by rewrite ?Hst].
    rewrite ?Hst. rewrite (bool_decide_eq_false_2 (TOMMY_HASHLIN_STATE_GROW = _)) by done.
    rewrite bool_decide_eq_true_2 by done. apply Hloop; simpl; try done; lia.
  - destruct ((bool_decide _) && (count h <? bucket_max h / 8)) eqn:Hb1; reflect_bools; [done|].
    rewrite bool_decide_eq_true_2 by done. apply Hloop; try done; try lia.
Qed.

(** ** The operations *)

Lemma init_spec w :
  no_fail w →
  wp tommy_hashlin_init (λ h w', emits w [] w' ∧ hashlin_ok h ∧ contents h = []) w.
Proof.
  intros Hnf. unfold tommy_hashlin_init. do 2 wp_step. destruct b; [|no_alloc_failure]. wp_step.
  split; [done|].
  set (h := tommy_hashlin_stable _).
  assert (∀ pos, 0 <= pos < 64 → bucket h !! pos = Some []) as Hb.
  { intros pos Hp. simpl. unfold empty_buckets. apply elem_of_list_to_map_1.
    - rewrite <- list_fmap_compose, list_fmap_id. apply NoDup_seqZ.
    - apply list_elem_of_fmap. exists pos. split; [done|]. apply elem_of_seqZ. lia. }
  assert (sizes_ok h) as Hok.
  { unfold sizes_ok, h, TOMMY_HASHLIN_BIT. simpl. split; [lia|]. do 3 (split; [reflexivity|]). left. by split. }
  assert (settled h ∧ used h = 64 ∧ count h = 0) as (Hs & Hu & Hn) by by split_and!.
  clearbody h. assert (contents h = []) as Hc.
  { unfold contents. rewrite Hu. apply elem_of_nil_inv.
    intros n (pos & Hin & Hpos%elem_of_seqZ)%list_elem_of_bind. unfold bucket_at in Hin.
    rewrite Hb in Hin by lia. by apply elem_of_nil in Hin. }
  split; [|done]. split; [done|]. split; [|split; [done|by rewrite Hc, Hn]].
  intros pos Hp. exists []. split; [apply Hb; lia|]. intros n Hin. by apply elem_of_nil in Hin.
Qed.

Lemma bucket_spec h key :
  hashlin_ok h → ∃ l, tommy_hashlin_bucket h key = Some l ∧ ∃ rest, contents h ≡ₚ l ++ rest ∧
    ∀ n, n ∈ rest → n.1 ≠ key.
Proof.
  intros (Hok & Hb & _). destruct (bucket_ref_spec h key Hok) as [Hr Hp].
  destruct (Hb _ Hp) as (l & Hl & Hpl). exists l. unfold tommy_hashlin_bucket. rewrite Hr.
  split; [done|]. set (pos := place _ _ key) in *.
  exists (filter (λ y, y ≠ pos) (seqZ 0 (used h)) ≫= bucket_at h).
  assert (pos ∈ seqZ 0 (used h)) by (apply elem_of_seqZ; lia). split.
  - unfold contents. rewrite (bind_extract _ _ pos) by (done || apply NoDup_seqZ).
    unfold bucket_at at 1. by rewrite Hl.
  - intros n (q & Hn & [Hne Hq%elem_of_seqZ]%list_elem_of_filter)%list_elem_of_bind Hk.
    destruct (Hb q) as (l' & Hl' & Hpl'); [lia|]. unfold bucket_at in Hn. rewrite Hl' in Hn.
    apply Hne. rewrite <- (Hpl' n Hn), Hk. done.
Qed.

Lemma search_nodes_spec cmp key l :
  match search_nodes cmp key l with
  | Some x => (key, x) ∈ l ∧ cmp x = true
  | None => ∀ x, (key, x) ∈ l → cmp x = false
  end.
Proof.
  induction l as [|[k x] l IH]; simpl; [intros x Hx; by apply elem_of_nil in Hx|].
  destruct (Z.eqb_spec k key) as [->|Hk]; simpl; [destruct (cmp x) eqn:Hc|].
  - split; [left|done].
  - destruct (search_nodes cmp key l); [by destruct IH; split; [right|]|].
    intros y [Hy|Hy]%elem_of_cons; [congruence|auto].
  - destruct (search_nodes cmp key l); [by destruct IH; split; [right|]|].
    intros y [Hy|Hy]%elem_of_cons; [congruence|auto].
Qed.

Lemma search_spec h cmp key :
  hashlin_ok h → ∃ res, tommy_hashlin_search h cmp key = Some res ∧
    match res with
    | Some x => (key, x) ∈ contents h ∧ cmp x = true
    | None => ∀ x, (key, x) ∈ contents h → cmp x = false
    end.
Proof.
  intros Hok. destruct (bucket_spec h key Hok) as (l & Hl & rest & Hp & Hrest).
  unfold tommy_hashlin_search. rewrite Hl. eexists. split; [done|].
  pose proof (search_nodes_spec cmp key l) as Hs. destruct (search_nodes cmp key l) as [x|].
  - destruct Hs. split; [|done]. rewrite Hp. apply elem_of_app. by left.
  - intros x Hx. rewrite Hp in Hx. apply elem_of_app in Hx as [Hx|Hx]; [auto|]. by destruct (Hrest _ Hx).
Qed.

Lemma insert_spec h x key w :
  hashlin_ok h → Z.of_nat (length (contents h)) < 2 ^ 28 → no_fail w →
  wp (tommy_hashlin_insert h x key) (λ h' w', emits w [] w' ∧ hashlin_ok h' ∧
    contents h' ≡ₚ (key, x) :: contents h) w.
Proof.
  intros (Hok & Hb & Hset & Hn) Hlen Hnf. change (2 ^ 28) with 268435456 in Hlen.
  destruct (bucket_ref_spec h key Hok) as [Hr Hp]. destruct (Hb _ Hp) as (l & Hl & Hpl).
  set (pos := place _ _ key) in *.
  unfold tommy_hashlin_insert. wp_step. eapply wp_of_option; [exact Hr|]. wp_step.
  eapply wp_of_option; [exact Hl|]. rewrite u32_small by (simpl; lia). simpl count.
  set (h1 := set_bucket h _). destruct (contents_update h pos l (l ++ [(key, x)]) Hp Hl) as (rest & Hc & Hc').
  assert (buckets_ok h1) as Hb1.
  { apply buckets_ok_update; [done..|]. intros n [?|Hn1%list_elem_of_singleton]%elem_of_app; [auto|by subst]. }
  assert (contents h1 ≡ₚ (key, x) :: contents h) as Hc1.
  { unfold h1. rewrite Hc', Hc, <- app_assoc. simpl. by rewrite <- Permutation_middle. }
  eapply wp_mono; [apply (grow_step_spec (set_count h1 (count h + 1))); try done|].
  { simpl. change (2 ^ 28) with 268435456. lia. }
  intros h' w' (Hw & Hre & Hs'). split; [done|]. split.
  - eapply reorganised_ok; [done..|]. change (contents (set_count _ _)) with (contents h1).
    rewrite Hc1. simpl. lia.
  - destruct Hre as (_ & _ & Hp' & _). rewrite Hp'. done.
Qed.

Lemma take_node_spec cmp key l :
  match take_node cmp key l with
  | Some (x, l') => l ≡ₚ (key, x) :: l' ∧ cmp x = true
  | None => ∀ x, (key, x) ∈ l → cmp x = false
  end.
Proof.
  induction l as [|[k x] l IH]; simpl; [intros x Hx; by apply elem_of_nil in Hx|].
  destruct (Z.eqb_spec k key) as [->|Hk]; simpl; [destruct (cmp x) eqn:Hc; [done|]|];
    (destruct (take_node cmp key l) as [[y l']|]; simpl;
      [destruct IH as [-> ?]; split; [constructor|done]
      |intros y [Hy|Hy]%elem_of_cons; [congruence|auto]]).
Qed.

(** Taking a node out of its bucket. *)
Lemma removed_spec h key l x l' :
  hashlin_ok h → Z.of_nat (length (contents h)) <= 2 ^ 28 →
  bucket h !! place (low_max h) (split h) key = Some l → l ≡ₚ (key, x) :: l' →
  ∃ h', hashlin_shrink_step (set_count (set_bucket h (<[place (low_max h) (split h) key := l']> (bucket h)))
      (u32 (count h - 1))) = Some h' ∧ hashlin_ok h' ∧ contents h ≡ₚ (key, x) :: contents h'.
Proof.
  intros (Hok & Hb & Hset & Hn) Hlen Hl Hp. change (2 ^ 28) with 268435456 in Hlen.
  destruct (bucket_ref_spec h key Hok) as [_ Hpos]. set (pos := place _ _ key) in *.
  destruct (Hb _ Hpos) as (l0 & Hl0 & Hpl). rewrite Hl in Hl0. injection Hl0 as <-.
  destruct (contents_update h pos l l' Hpos Hl) as (rest & Hc & Hc'). set (h1 := set_bucket h _) in *.
  assert (buckets_ok h1) as Hb1.
  { apply buckets_ok_update; [done..|]. intros n Hn'. apply Hpl. rewrite Hp. by right. }
  assert (contents h ≡ₚ (key, x) :: contents h1) as Hc1 by by rewrite Hc, Hc', Hp.
  assert (count h = Z.of_nat (length (contents h1)) + 1) as Hn1 by (rewrite Hn, Hc1; simpl; lia).
  rewrite u32_small by (rewrite Hc1 in Hlen; simpl in Hlen; lia).
  destruct (shrink_step_spec (set_count h1 (count h - 1))) as (h' & Hs & Hre & Hset'); try done.
  { simpl. change (2 ^ 28) with 268435456. lia. }
  exists h'. split; [done|]. split.
  - eapply reorganised_ok; [done..|]. change (contents (set_count _ _)) with (contents h1). simpl. lia.
  - destruct Hre as (_ & _ & Hp' & _). rewrite Hp'. done.
Qed.

Lemma remove_spec h cmp key :
  hashlin_ok h → Z.of_nat (length (contents h)) <= 2 ^ 28 →
  ∃ res h', tommy_hashlin_remove h cmp key = Some (res, h') ∧ hashlin_ok h' ∧
    match res with
    | Some x => contents h ≡ₚ (key, x) :: contents h' ∧ cmp x = true
    | None => h' = h ∧ ∀ x, (key, x) ∈ contents h → cmp x = false
    end.
Proof.
  intros Hh Hlen. pose proof Hh as (Hok & Hb & _). destruct (bucket_ref_spec h key Hok) as [Hr Hp].
  destruct (Hb _ Hp) as (l & Hl & Hpl). unfold tommy_hashlin_remove. rewrite Hr. cbn [mbind option_bind].
  rewrite Hl. cbn [mbind option_bind]. pose proof (take_node_spec cmp key l) as Ht.
  destruct (take_node cmp key l) as [[x l']|].
  - destruct Ht as [Hperm Hx]. destruct (removed_spec h key l x l') as (h' & Hs & Hok' & Hc); try done.
    change (count (set_bucket _ _)) with (count h). rewrite Hs. cbn [mbind option_bind].
    exists (Some x), h'. done.
  - exists None, h. split_and!; try done. intros x Hx.
    destruct (bucket_spec h key Hh) as (l0 & Hl0 & rest & Hperm & Hrest).
    unfold tommy_hashlin_bucket in Hl0. rewrite Hr in Hl0. cbn [mbind option_bind] in Hl0.
    rewrite Hl in Hl0. injection Hl0 as <-. rewrite Hperm in Hx.
    apply elem_of_app in Hx as [?|Hx]; [auto|]. by destruct (Hrest _ Hx).
Qed.

Lemma remove_existing_spec h same key x :
  hashlin_ok h → Z.of_nat (length (contents h)) <= 2 ^ 28 →
  (key, x) ∈ contents h → (∀ y, same y = true ↔ y = x) →
  ∃ h', tommy_hashlin_remove_existing h same key = Some h' ∧ hashlin_ok h' ∧
    contents h ≡ₚ (key, x) :: contents h'.
Proof.
  intros Hh Hlen Hx Hsame. pose proof Hh as (Hok & Hb & _).
  destruct (bucket_ref_spec h key Hok) as [Hr Hp]. destruct (Hb _ Hp) as (l & Hl & Hpl).
  destruct (bucket_spec h key Hh) as (l0 & Hl0 & rest & Hperm & Hrest).
  unfold tommy_hashlin_bucket in Hl0. rewrite Hr in Hl0. cbn [mbind option_bind] in Hl0.
  rewrite Hl in Hl0. injection Hl0 as <-. rewrite Hperm in Hx.
  unfold tommy_hashlin_remove_existing. rewrite Hr. cbn [mbind option_bind].
  rewrite Hl. cbn [mbind option_bind]. pose proof (take_node_spec same key l) as Ht.
  destruct (take_node same key l) as [[y l']|].
  - destruct Ht as [Hperm' Hy]. apply Hsame in Hy as ->. cbn [mbind option_bind].
    by apply (removed_spec h key l x l').
  - exfalso. apply elem_of_app in Hx as [Hx|Hx]; [|by destruct (Hrest _ Hx)].
    apply Ht in Hx. destruct (Hsame x) as [_ Hs]. by rewrite Hs in Hx.
Qed.

End HashlinProofs.
