(* ===== verification/Spki.v ===== *)
(** * The table of router keys: [rtrlib/spki/hashtable/ht-spkitable.c]

    An entry is in a hash table and in a list.  The hash table is used through the
    interface [HashTable]; [SpkiTheorems] puts the tommyds table behind it.  A pointer to an entry is
    the entry: a table never has two equal ones. *)

From S2P Require Import Prelude Hashlin.

Definition SKI_SIZE : nat := 20.
Definition SPKI_SIZE : nat := 91.

Inductive rtr_spki_rtvals :=
| RTR_SPKI_SUCCESS | RTR_SPKI_ERROR | RTR_SPKI_DUPLICATE_RECORD | RTR_SPKI_RECORD_NOT_FOUND.

Inductive rtr_spki_operation_type := RTR_SPKI_REMOVE | RTR_SPKI_ADD.

#[global] Instance rtr_spki_rtvals_eq_dec : EqDecision rtr_spki_rtvals.
Proof. solve_decision. Defined.

(** The arrays of bytes have [SKI_SIZE] and [SPKI_SIZE] elements. *)
Record rtr_spki_record := SpkiRecord {
  ski : list Z;
  asn : Z;
  spki : list Z;
  socket : socket_ptr }.

(** The nodes of the hash table and of the list are part of the entry. *)
Record key_entry := KeyEntry {
  e_ski : list Z;
  e_asn : Z;
  e_spki : list Z;
  e_socket : socket_ptr }.

#[global] Instance rtr_spki_record_eq_dec : EqDecision rtr_spki_record.
Proof. solve_decision. Defined.
#[global] Instance key_entry_eq_dec : EqDecision key_entry.
Proof. solve_decision. Defined.

(** A call of an [rtr_spki_update_fp]. *)
Inductive spki_event :=
| SpkiNotify (fp : fn_ptr) (r : rtr_spki_record) (op : rtr_spki_operation_type).

(** What the code uses of a hash table of objects of type [A]; [cmp] is the comparison
    with the object searched for, [same] the comparison of addresses. *)
Class HashTable (E H A : Type) := {
  ht_init : M E H;
  ht_insert : H → A → Z → M E H;
  ht_search : H → (A → bool) → Z → option (option A);
  ht_bucket : H → Z → option (list (Z * A));
  ht_remove : H → (A → bool) → Z → option (option A * H);
  ht_remove_existing : H → (A → bool) → Z → option H }.

Definition key_entry_cmp (param entry : key_entry) : Z :=
  if negb (e_asn param =? e_asn entry) then 1
  else if bool_decide (e_ski param ≠ e_ski entry) then 1
  else if bool_decide (e_spki param ≠ e_spki entry) then 1
  else if bool_decide (e_socket param ≠ e_socket entry) then 1
  else 0.

Definition key_entry_to_spki_record (e : key_entry) : rtr_spki_record :=
  SpkiRecord (e_ski e) (e_asn e) (e_spki e) (e_socket e).
Definition spki_record_to_key_entry (r : rtr_spki_record) : key_entry :=
  KeyEntry (ski r) (asn r) (spki r) (socket r).

(** [tommy_list_remove_existing]: undefined if the list does not have the node. *)
Fixpoint list_remove_existing (l : list key_entry) (e : key_entry) : option (list key_entry) :=
  match l with
  | [] => None
  | x :: l => if decide (x = e) then Some l else l ← list_remove_existing l e; Some (x :: l)
  end.

Record rtr_spki_table (H : Type) := SpkiTable {
  hashtable : H;
  klist : list key_entry;
  update_fp : option fn_ptr;
  lock : rwlock }.
Arguments SpkiTable {H} _ _ _ _.
Arguments hashtable {H} _.
Arguments klist {H} _.
Arguments update_fp {H} _.
Arguments lock {H} _.

Section Spki.
Context {E H : Type} `{!HashTable E H key_entry} `{!Event spki_event E}.
Abbreviation table := (rtr_spki_table H).
Implicit Types (t : table) (r : rtr_spki_record) (e : key_entry).

Definition set_lock t (l : rwlock) : table := SpkiTable (hashtable t) (klist t) (update_fp t) l.
Definition set_update_fp t (fp : option fn_ptr) : table :=
  SpkiTable (hashtable t) (klist t) fp (lock t).
Definition set_entries t (h : H) (l : list key_entry) : table :=
  SpkiTable h l (update_fp t) (lock t).

Definition wrlock_table t : M E table := l ← of_option (wrlock (lock t)); mret (set_lock t l).
Definition rdlock_table t : M E table := l ← of_option (rdlock (lock t)); mret (set_lock t l).
Definition unlock_table t : M E table := l ← of_option (unlock (lock t)); mret (set_lock t l).

Definition spki_table_notify_clients t r (op : rtr_spki_operation_type) : M E unit :=
  match update_fp t with
  | Some fp => emit (event (SpkiNotify fp r op))
  | None => mret tt
  end.

Definition spki_table_init (fp : option fn_ptr) : M E table :=
  h ← ht_init; mret (SpkiTable h [] fp Unlocked).

(** The entries and the buckets are freed; the table is gone.  No client is told. *)
Definition spki_table_free (spki_table : option table) : M E unit :=
  match spki_table with
  | None => mret tt
  | Some t => t ← wrlock_table t; unlock_table t;; mret tt
  end.
Definition spki_table_free_without_notify t : M E unit :=
  t ← wrlock_table t; unlock_table (set_update_fp t None);; mret tt.

(** [hash_of e] is the key of the hash node of [e]. *)
Definition hash_of e : Z := tommy_inthash_u32 (e_asn e).
Definition cmp_with e (obj : key_entry) : bool := key_entry_cmp e obj =? 0.
Definition is_entry e (obj : key_entry) : bool := bool_decide (obj = e).

Definition spki_table_add_entry t r : M E (rtr_spki_rtvals * table) :=
  ok ← alloc;
  if negb ok then mret (RTR_SPKI_ERROR, t)
  else
    let entry := spki_record_to_key_entry r in
    let hash := tommy_inthash_u32 (asn r) in
    t ← wrlock_table t;
    found ← of_option (ht_search (hashtable t) (cmp_with entry) hash);
    match found with
    | Some _ => t ← unlock_table t; mret (RTR_SPKI_DUPLICATE_RECORD, t)
    | None =>
        h ← ht_insert (hashtable t) entry hash;
        t ← unlock_table (set_entries t h (klist t ++ [entry]));
        spki_table_notify_clients t r RTR_SPKI_ADD;;
        mret (RTR_SPKI_SUCCESS, t)
    end.

(** The loops that collect the entries that [matches] accepts.  [None]: memory ran
    out, and the caller's pointer dangles. *)
Fixpoint collect (matches : key_entry → bool) (l : list key_entry) (result : list rtr_spki_record)
  : M E (option (list rtr_spki_record)) :=
  match l with
  | [] => mret (Some result)
  | element :: l =>
      if matches element then
        ok ← alloc;
        if negb ok then mret None
        else collect matches l (result ++ [key_entry_to_spki_record element])
      else collect matches l result
  end.

Definition spki_table_get_all t (a : Z) (key : list Z)
  : M E (rtr_spki_rtvals * option (list rtr_spki_record) * table) :=
  let hash := tommy_inthash_u32 a in
  t ← rdlock_table t;
  bucket ← of_option (ht_bucket (hashtable t) hash);
  result ← collect (λ e, (e_asn e =? a) && bool_decide (e_ski e = key)) bucket.*2 [];
  t ← unlock_table t;
  mret (match result with Some _ => RTR_SPKI_SUCCESS | None => RTR_SPKI_ERROR end, result, t).

Definition spki_table_search_by_ski t (key : list Z)
  : M E (rtr_spki_rtvals * option (list rtr_spki_record) * table) :=
  t ← rdlock_table t;
  result ← collect (λ e, bool_decide (e_ski e = key)) (klist t) [];
  t ← unlock_table t;
  mret (match result with Some _ => RTR_SPKI_SUCCESS | None => RTR_SPKI_ERROR end, result, t).

Definition spki_table_remove_entry t r : M E (rtr_spki_rtvals * table) :=
  let entry := spki_record_to_key_entry r in
  let hash := tommy_inthash_u32 (asn r) in
  t ← wrlock_table t;
  found ← of_option (ht_search (hashtable t) (cmp_with entry) hash);
  match found with
  | None => t ← unlock_table t; mret (RTR_SPKI_RECORD_NOT_FOUND, t)
  | Some _ =>
      '(rmv_elem, h) ← of_option (ht_remove (hashtable t) (cmp_with entry) hash);
      match rmv_elem with
      | Some rmv_elem =>
          l ← of_option (list_remove_existing (klist t) rmv_elem);
          let t := set_entries t h l in
          spki_table_notify_clients t r RTR_SPKI_REMOVE;;
          t ← unlock_table t;
          mret (RTR_SPKI_SUCCESS, t)
      | None => t ← unlock_table (set_entries t h (klist t)); mret (RTR_SPKI_ERROR, t)
      end
  end.

(** The loop of [spki_table_src_remove], with [nodes] still to visit. *)
Fixpoint src_remove_loop t (nodes : list key_entry) (sock : socket_ptr) : option table :=
  match nodes with
  | [] => Some t
  | entry :: nodes =>
      if decide (e_socket entry = sock) then
        l ← list_remove_existing (klist t) entry;
        h ← ht_remove_existing (hashtable t) (is_entry entry) (hash_of entry);
        src_remove_loop (set_entries t h l) nodes sock
      else src_remove_loop t nodes sock
  end.

Definition spki_table_src_remove (spki_table : option table) (sock : socket_ptr)
  : M E (rtr_spki_rtvals * option table) :=
  match spki_table with
  | None => mret (RTR_SPKI_SUCCESS, None)
  | Some t =>
      t ← wrlock_table t;
      t ← of_option (src_remove_loop t (klist t) sock);
      t ← unlock_table t;
      mret (RTR_SPKI_SUCCESS, Some t)
  end.

Fixpoint copy_loop (nodes : list key_entry) (dst : table) (sock : socket_ptr)
  : M E (rtr_spki_rtvals * table) :=
  match nodes with
  | [] => mret (RTR_SPKI_SUCCESS, dst)
  | entry :: nodes =>
      if decide (e_socket entry ≠ sock) then
        '(rtval, dst) ← spki_table_add_entry dst (key_entry_to_spki_record entry);
        if decide (rtval = RTR_SPKI_SUCCESS) then copy_loop nodes dst sock
        else mret (RTR_SPKI_ERROR, dst)
      else copy_loop nodes dst sock
  end.

(** Returns both tables; the source is locked for reading meanwhile. *)
Definition spki_table_copy_except_socket (src dst : table) (sock : socket_ptr)
  : M E (rtr_spki_rtvals * table * table) :=
  src ← rdlock_table src;
  '(ret, dst) ← copy_loop (klist src) dst sock;
  src ← unlock_table src;
  mret (ret, src, dst).

Fixpoint diff_add_loop (nodes : list key_entry) (new_table old : table) (sock : socket_ptr) : M E table :=
  match nodes with
  | [] => mret old
  | entry :: nodes =>
      if decide (e_socket entry = sock) then
        let r := key_entry_to_spki_record entry in
        '(rtval, old) ← spki_table_remove_entry old r;
        (if decide (rtval = RTR_SPKI_RECORD_NOT_FOUND)
         then spki_table_notify_clients new_table r RTR_SPKI_ADD else mret tt);;
        diff_add_loop nodes new_table old sock
      else diff_add_loop nodes new_table old sock
  end.

Fixpoint diff_remove_loop (nodes : list key_entry) (new_table : table) (sock : socket_ptr) : M E unit :=
  match nodes with
  | [] => mret tt
  | entry :: nodes =>
      (if decide (e_socket entry = sock)
       then spki_table_notify_clients new_table (key_entry_to_spki_record entry) RTR_SPKI_REMOVE
       else mret tt);;
      diff_remove_loop nodes new_table sock
  end.

Definition spki_table_notify_diff (new_table old : table) (sock : socket_ptr) : M E table :=
  let old_table_fp := update_fp old in
  let old := set_update_fp old None in
  old ← diff_add_loop (klist new_table) new_table old sock;
  diff_remove_loop (klist old) new_table sock;;
  mret (set_update_fp old old_table_fp).

Definition spki_table_swap (a b : table) : M E (table * table) :=
  a ← wrlock_table a;
  b ← wrlock_table b;
  let a' := set_entries a (hashtable b) (klist b) in
  let b' := set_entries b (hashtable a) (klist a) in
  a' ← unlock_table a';
  b' ← unlock_table b';
  mret (a', b').

End Spki.
