(* ===== verification/SpkiProofs.v ===== *)
(** * The table of router keys: proofs

    What the hash table has to promise, and what the table of router keys then
    promises: it is a set of records. *)

From S2P Require Import Prelude Hashlin HashlinProofs Spki.

(** The promises of a hash table: it is a multiset of nodes, of at most [ht_max]. *)
Class HashTableSpec (E H A : Type) `{!HashTable E H A} := {
  ht_ok : H → Prop;
  ht_contents : H → list (Z * A);
  ht_max : Z;
  ht_init_spec w : no_fail w →
    wp ht_init (λ h w', emits w [] w' ∧ ht_ok h ∧ ht_contents h = []) w;
  ht_insert_spec h x key w : ht_ok h → Z.of_nat (length (ht_contents h)) < ht_max → no_fail w →
    wp (ht_insert h x key) (λ h' w', emits w [] w' ∧ ht_ok h' ∧
      ht_contents h' ≡ₚ (key, x) :: ht_contents h) w;
  ht_search_spec h cmp key : ht_ok h → ∃ res, ht_search h cmp key = Some res ∧
    match res with
    | Some x => (key, x) ∈ ht_contents h ∧ cmp x = true
    | None => ∀ x, (key, x) ∈ ht_contents h → cmp x = false
    end;
  ht_bucket_spec h key : ht_ok h → ∃ l, ht_bucket h key = Some l ∧
    ∃ rest, ht_contents h ≡ₚ l ++ rest ∧ ∀ n, n ∈ rest → n.1 ≠ key;
  ht_remove_spec h cmp key : ht_ok h → Z.of_nat (length (ht_contents h)) <= ht_max →
    ∃ res h', ht_remove h cmp key = Some (res, h') ∧ ht_ok h' ∧
    match res with
    | Some x => ht_contents h ≡ₚ (key, x) :: ht_contents h' ∧ cmp x = true
    | None => h' = h ∧ ∀ x, (key, x) ∈ ht_contents h → cmp x = false
    end;
  ht_remove_existing_spec h same key x : ht_ok h → Z.of_nat (length (ht_contents h)) <= ht_max →
    (key, x) ∈ ht_contents h → (∀ y, same y = true ↔ y = x) →
    ∃ h', ht_remove_existing h same key = Some h' ∧ ht_ok h' ∧
      ht_contents h ≡ₚ (key, x) :: ht_contents h' }.

(** The tommyds table keeps these promises. *)
#[global] Instance hashlin_table {E A} : HashTable E (tommy_hashlin A) A := {
  ht_init := tommy_hashlin_init;
  ht_insert := tommy_hashlin_insert;
  ht_search := tommy_hashlin_search;
  ht_bucket := tommy_hashlin_bucket;
  ht_remove := tommy_hashlin_remove;
  ht_remove_existing := tommy_hashlin_remove_existing }.

#[global, refine] Instance hashlin_table_spec {E A} : HashTableSpec E (tommy_hashlin A) A := {
  ht_ok := hashlin_ok;
  ht_contents := contents;
  ht_max := 2 ^ 28 }.
Proof.
  - exact init_spec.
  - exact insert_spec.
  - exact search_spec.
  - exact bucket_spec.
  - exact remove_spec.
  - exact remove_existing_spec.
Defined.

Section SpkiProofs.
Context {E H : Type} `{!HashTable E H key_entry} `{!HashTableSpec E H key_entry}
  `{!Event spki_event E}.
Abbreviation table := (rtr_spki_table H).
Implicit Types (t : table) (r : rtr_spki_record) (e : key_entry) (w : world E).

Definition node_of e : Z * key_entry := (hash_of e, e).
Definition spki_records t : list rtr_spki_record := key_entry_to_spki_record <$> klist t.

(** The hash table and the list have the same entries, none of them twice. *)
Definition entries_ok t : Prop :=
  ht_ok (hashtable t) ∧ ht_contents (hashtable t) ≡ₚ node_of <$> klist t ∧ NoDup (klist t).
Definition spki_table_ok t : Prop :=
  entries_ok t ∧ Z.of_nat (length (klist t)) <= ht_max ∧ lock t = Unlocked.

(** ** Entries and records *)

Lemma entry_of_record r : key_entry_to_spki_record (spki_record_to_key_entry r) = r.
Proof. by destruct r. Qed.
Lemma record_of_entry e : spki_record_to_key_entry (key_entry_to_spki_record e) = e.
Proof. by destruct e. Qed.

Lemma in_records r t : r ∈ spki_records t ↔ spki_record_to_key_entry r ∈ klist t.
Proof.
  unfold spki_records. rewrite list_elem_of_fmap. split.
  - intros (e & -> & He). by rewrite record_of_entry.
  - intros He. exists (spki_record_to_key_entry r). by rewrite entry_of_record.
Qed.

Lemma cmp_with_spec e e' : cmp_with e e' = true ↔ e' = e.
Proof.
  unfold cmp_with, key_entry_cmp. destruct e as [s a k c], e' as [s' a' k' c']. simpl.
  destruct (Z.eqb_spec a a'); simpl; [|split; [done|congruence]].
  repeat case_bool_decide; simpl; split; try done; try congruence.
Qed.

Lemma is_entry_spec e e' : is_entry e e' = true ↔ e' = e.
Proof. unfold is_entry. by rewrite bool_decide_eq_true. Qed.

Lemma node_in e t : entries_ok t → (hash_of e, e) ∈ ht_contents (hashtable t) ↔ e ∈ klist t.
Proof.
  intros (_ & Hp & _). rewrite Hp, list_elem_of_fmap. split.
  - intros (e' & Heq & He). by injection Heq as _ ->.
  - intros He. by exists e.
Qed.

Lemma contents_length t : entries_ok t → length (ht_contents (hashtable t)) = length (klist t).
Proof. intros (_ & Hp & _). by rewrite Hp, length_fmap. Qed.

Lemma list_remove_spec l e :
  e ∈ l → ∃ l', list_remove_existing l e = Some l' ∧ l ≡ₚ e :: l' ∧ (NoDup l → l' = filter (λ x, x ≠ e) l).
Proof.
  induction l as [|x l IH]; intros He; [by apply elem_of_nil in He|]. simpl.
  destruct (decide (x = e)) as [->|Hne].
  - exists l. split_and!; [done..|]. intros [Hn _]%NoDup_cons. rewrite filter_cons_False by tauto.
    rewrite filter_all; [done|]. by intros y Hy ->.
  - apply elem_of_cons in He as [|He]; [congruence|]. destruct (IH He) as (l' & -> & Hp & Hf).
    exists (x :: l'). simpl. split_and!; [done|rewrite Hp; constructor|].
    intros [_ Hn]%NoDup_cons. by rewrite filter_cons_True, Hf.
Qed.

(** ** Searching an entry *)

Lemma search_entry t r :
  entries_ok t →
  ht_search (hashtable t) (cmp_with (spki_record_to_key_entry r)) (tommy_inthash_u32 (asn r)) =
    Some (if decide (r ∈ spki_records t) then Some (spki_record_to_key_entry r) else None).
Proof.
  intros Ht. pose proof Ht as (Hok & Hp & _). set (e := spki_record_to_key_entry r).
  change (tommy_inthash_u32 (asn r)) with (hash_of e).
  destruct (ht_search_spec (hashtable t) (cmp_with e) (hash_of e) Hok) as (res & -> & Hres).
  f_equal. case_decide as Hin; rewrite in_records in Hin; fold e in Hin; destruct res as [x|].
  - destruct Hres as [_ Hx]. by apply cmp_with_spec in Hx as ->.
  - apply (node_in e t Ht) in Hin. apply Hres in Hin. by rewrite (proj2 (cmp_with_spec e e)) in Hin.
  - destruct Hres as [Hx Hc]. apply cmp_with_spec in Hc as ->. by apply (node_in e t Ht) in Hx.
  - done.
Qed.

(** ** Locks and notification *)

Lemma wp_spki_wrlock t Q w : lock t = Unlocked → Q (set_lock t WriteLocked) w → wp (wrlock_table t) Q w.
Proof. intros Hl HQ. unfold wrlock_table. rewrite Hl. simpl. do 2 wp_step. by wp_step. Qed.
Lemma wp_spki_rdlock t Q w : lock t = Unlocked → Q (set_lock t (ReadLocked 0)) w → wp (rdlock_table t) Q w.
Proof. intros Hl HQ. unfold rdlock_table. rewrite Hl. simpl. do 2 wp_step. by wp_step. Qed.
Lemma wp_spki_unlock t Q w :
  lock t = WriteLocked ∨ lock t = ReadLocked 0 → Q (set_lock t Unlocked) w → wp (unlock_table t) Q w.
Proof. intros [Hl|Hl] HQ; unfold unlock_table; rewrite Hl; simpl; do 2 wp_step; by wp_step. Qed.

Definition spki_notification t r (op : rtr_spki_operation_type) : list E :=
  match update_fp t with Some fp => [event (SpkiNotify fp r op)] | None => [] end.

Lemma notify_spec t r op w :
  wp (spki_table_notify_clients t r op) (λ _ w', emits w (spki_notification t r op) w') w.
Proof.
  unfold spki_table_notify_clients, spki_notification. destruct (update_fp t); wp_step; [done|apply emits_refl].
Qed.

(** ** Adding and removing an entry *)

Lemma add_entry_spec t r w :
  spki_table_ok t → Z.of_nat (length (klist t)) < ht_max → no_fail w →
  wp (spki_table_add_entry t r) (λ '(rtval, t') w', spki_table_ok t' ∧ update_fp t' = update_fp t ∧
    if decide (r ∈ spki_records t)
    then rtval = RTR_SPKI_DUPLICATE_RECORD ∧ t' = t ∧ emits w [] w'
    else rtval = RTR_SPKI_SUCCESS ∧ klist t' = klist t ++ [spki_record_to_key_entry r] ∧
      emits w (spki_notification t r RTR_SPKI_ADD) w') w.
Proof.
  intros (Ht & Hmax & Hl) Hlen Hnf. unfold spki_table_add_entry. do 2 wp_step.
  destruct b; simpl negb; cbv iota; [|no_alloc_failure]. assert (no_fail w') by by eapply emits_no_fail.
  cbv zeta. wp_step. apply wp_spki_wrlock; [done|]. wp_step. eapply wp_of_option.
  { apply (search_entry (set_lock t WriteLocked)). done. }
  change (spki_records (set_lock t WriteLocked)) with (spki_records t). case_decide as Hin.
  - wp_step. apply wp_spki_unlock; [by left|]. wp_step.
    destruct t. simpl in *. subst. by split_and!.
  - pose proof Ht as (Hok & Hp & Hnd). wp_step.
    eapply wp_mono; [apply (ht_insert_spec (hashtable t)); [done|by rewrite contents_length|done]|].
    intros h w1 (Hw1 & Hok1 & Hp1). wp_step. apply wp_spki_unlock; [by left|]. wp_step.
    eapply wp_mono; [apply notify_spec|]. intros [] w2 Hw2. cbv beta in Hw2. wp_step.
    split; [|split_and!; try done].
    + split; [split; [done|split]|split; [|done]]; simpl.
      * rewrite fmap_app, Hp1, Hp. simpl. by rewrite <- Permutation_cons_append.
      * apply NoDup_app. split_and!; [done| |by apply NoDup_singleton].
        intros e He ->%list_elem_of_singleton. by rewrite in_records in Hin.
      * rewrite length_app. simpl. lia.
    + eapply emits_quiet; [done|]. by eapply emits_quiet.
Qed.

Lemma entries_ok_remove t e h l :
  entries_ok t → klist t ≡ₚ e :: l → ht_ok h → ht_contents (hashtable t) ≡ₚ node_of e :: ht_contents h →
  entries_ok (set_entries t h l).
Proof.
  intros (_ & Hp & Hnd) Hl Hok Hc. split_and!; [done| |].
  - apply (Permutation_cons_inv (a := node_of e)). simpl. by rewrite <- Hc, Hp, Hl.
  - rewrite Hl in Hnd. by apply NoDup_cons in Hnd as [_ ?].
Qed.

Lemma remove_entry_spec t r w :
  spki_table_ok t →
  wp (spki_table_remove_entry t r) (λ '(rtval, t') w', spki_table_ok t' ∧ update_fp t' = update_fp t ∧
    if decide (r ∈ spki_records t)
    then rtval = RTR_SPKI_SUCCESS ∧ klist t' = filter (λ e, e ≠ spki_record_to_key_entry r) (klist t) ∧
      klist t ≡ₚ spki_record_to_key_entry r :: klist t' ∧
      emits w (spki_notification t r RTR_SPKI_REMOVE) w'
    else rtval = RTR_SPKI_RECORD_NOT_FOUND ∧ t' = t ∧ emits w [] w') w.
Proof.
  intros (Ht & Hmax & Hl). pose proof Ht as (Hok & Hp & Hnd). unfold spki_table_remove_entry.
  cbv zeta. wp_step. apply wp_spki_wrlock; [done|]. wp_step. eapply wp_of_option.
  { apply (search_entry (set_lock t WriteLocked)). done. }
  change (spki_records (set_lock t WriteLocked)) with (spki_records t). case_decide as Hin.
  2:{ wp_step. apply wp_spki_unlock; [by left|]. wp_step.
      destruct t. simpl in *. subst. split_and!; try done. apply emits_refl. }
  rewrite in_records in Hin. set (e := spki_record_to_key_entry r) in *.
  change (tommy_inthash_u32 (asn r)) with (hash_of e).
  destruct (ht_remove_spec (hashtable t) (cmp_with e) (hash_of e)) as (res & h & Hr & Hokh & Hres);
    [done|by rewrite contents_length|].
  wp_step. eapply wp_of_option; [exact Hr|]. destruct res as [x|].
  2:{ destruct Hres as [_ Hres]. apply (node_in e t Ht) in Hin. apply Hres in Hin.
      by rewrite (proj2 (cmp_with_spec e e)) in Hin. }
  destruct Hres as [Hc Hx]. apply cmp_with_spec in Hx as ->.
  destruct (list_remove_spec (klist t) e Hin) as (l & Hrl & Hpl & Hf). cbv beta iota. wp_step.
  eapply wp_of_option; [exact Hrl|]. cbv zeta. wp_step. eapply wp_mono; [apply notify_spec|].
  intros [] w1 Hw1. cbv beta in Hw1. wp_step. apply wp_spki_unlock; [by left|]. wp_step.
  split; [|split_and!; try done; by apply Hf].
  split; [by apply (entries_ok_remove (set_lock t Unlocked) e h l)|]. split; [|done].
  simpl. rewrite Hpl in Hmax. simpl in Hmax. lia.
Qed.

(** ** Queries *)

Lemma collect_spec matches l acc w :
  no_fail w →
  wp (collect matches l acc) (λ res w', emits w [] w' ∧
    res = Some (acc ++ (key_entry_to_spki_record <$> filter (λ e, matches e = true) l))) w.
Proof.
  revert acc w. induction l as [|e l IH]; intros acc w Hnf; cbn [collect].
  { wp_step. split; [apply emits_refl|]. by rewrite app_nil_r. }
  destruct (matches e) eqn:Hm.
  - do 2 wp_step. destruct b; [|no_alloc_failure]. cbn [negb].
    eapply wp_mono; [apply IH; by eapply emits_no_fail|]. intros res w'' [Hw ->].
    split; [by eapply emits_quiet|]. rewrite filter_cons_True by done. rewrite fmap_cons, <- app_assoc. done.
  - rewrite filter_cons_False by congruence. by apply IH.
Qed.

Lemma fmap_filter (P : key_entry → Prop) (Q : rtr_spki_record → Prop) `{!∀ e, Decision (P e)}
    `{!∀ r, Decision (Q r)} (l : list key_entry) :
  (∀ e, P e ↔ Q (key_entry_to_spki_record e)) →
  key_entry_to_spki_record <$> filter P l = filter Q (key_entry_to_spki_record <$> l).
Proof.
  intros HPQ. induction l as [|e l IH]; [done|]. rewrite fmap_cons, !filter_cons.
  destruct (decide (P e)) as [Hp|Hp]; rewrite HPQ in Hp.
  - rewrite decide_True by done. rewrite fmap_cons. by f_equal.
  - by rewrite decide_False.
Qed.

(** The records of an AS with a key identifier. *)
Definition has_key (a : Z) (key : list Z) r : Prop := asn r = a ∧ ski r = key.
#[global] Instance has_key_dec a key r : Decision (has_key a key r).
Proof. unfold has_key. apply _. Defined.

Lemma get_all_spec t a key w :
  spki_table_ok t → no_fail w →
  wp (spki_table_get_all t a key) (λ '(rtval, res, t') w', t' = t ∧ emits w [] w' ∧
    rtval = RTR_SPKI_SUCCESS ∧ ∃ rs, res = Some rs ∧ rs ≡ₚ filter (has_key a key) (spki_records t)) w.
Proof.
  intros (Ht & _ & Hl) Hnf. pose proof Ht as (Hok & Hp & _). unfold spki_table_get_all. cbv zeta. wp_step.
  apply wp_spki_rdlock; [done|]. wp_step.
  destruct (ht_bucket_spec (hashtable t) (tommy_inthash_u32 a) Hok) as (l & Hb & rest & Hc & Hrest).
  eapply wp_of_option; [exact Hb|]. wp_step. eapply wp_mono; [by apply collect_spec|].
  intros res w1 [Hw1 ->]. wp_step. apply wp_spki_unlock; [by right|]. wp_step.
  split_and!; [by destruct t; simpl in *; subst|done|done|]. eexists. split; [done|]. simpl.
  set (P := λ e, _ = true). assert (∀ e, P e ↔ has_key a key (key_entry_to_spki_record e)) as HP.
  { intros e. unfold P, has_key. simpl. rewrite andb_true_iff, Z.eqb_eq, bool_decide_eq_true. done. }
  rewrite (fmap_filter P (has_key a key)) by done. unfold spki_records.
  assert (klist t ≡ₚ l.*2 ++ rest.*2) as Hkl.
  { rewrite <- fmap_app, <- Hc, Hp, <- list_fmap_compose. by rewrite list_fmap_id. }
  rewrite Hkl, fmap_app, filter_app.
  rewrite (filter_none (has_key a key) (key_entry_to_spki_record <$> rest.*2)); [by rewrite app_nil_r|].
  intros r (e & -> & (n & -> & Hn)%list_elem_of_fmap)%list_elem_of_fmap [Ha _]. apply (Hrest n Hn).
  assert (n ∈ node_of <$> klist t) as (e & -> & _)%list_elem_of_fmap.
  { rewrite <- Hp, Hc. apply elem_of_app. by right. }
  simpl in *. unfold hash_of. by rewrite Ha.
Qed.

Lemma search_by_ski_spec t key w :
  spki_table_ok t → no_fail w →
  wp (spki_table_search_by_ski t key) (λ '(rtval, res, t') w', t' = t ∧ emits w [] w' ∧
    rtval = RTR_SPKI_SUCCESS ∧ res = Some (filter (λ r, ski r = key) (spki_records t))) w.
Proof.
  intros (Ht & _ & Hl) Hnf. unfold spki_table_search_by_ski. wp_step.
  apply wp_spki_rdlock; [done|]. wp_step. eapply wp_mono; [by apply collect_spec|].
  intros res w1 [Hw1 ->]. wp_step. apply wp_spki_unlock; [by right|]. wp_step.
  split_and!; [by destruct t; simpl in *; subst|done|done|]. simpl. f_equal. unfold spki_records.
  apply fmap_filter. intros e. by rewrite bool_decide_eq_true.
Qed.

(** ** All entries of a cache *)

Lemma src_remove_loop_spec nodes t sock :
  entries_ok t → Z.of_nat (length (klist t)) <= ht_max → NoDup nodes →
  (∀ e, e ∈ nodes → e ∈ klist t) →
  ∃ t', src_remove_loop t nodes sock = Some t' ∧ entries_ok t' ∧ lock t' = lock t ∧
    update_fp t' = update_fp t ∧
    klist t' = filter (λ e, ¬ (e ∈ nodes ∧ e_socket e = sock)) (klist t).
Proof.
  revert t. induction nodes as [|e nodes IH]; intros t Ht Hmax Hnd Hin; simpl.
  { exists t. split_and!; try done; try apply Ht. rewrite filter_all; [done|].
    intros e _ [He _]. by apply elem_of_nil in He. }
  apply NoDup_cons in Hnd as [Hn Hnd]. destruct (decide (e_socket e = sock)) as [Hs|Hs].
  - assert (e ∈ klist t) as He by (apply Hin; left).
    destruct (list_remove_spec (klist t) e He) as (l & -> & Hp & Hf). cbn [mbind option_bind].
    pose proof Ht as (Hok & Hc & Hkl). destruct (ht_remove_existing_spec (hashtable t) (is_entry e) (hash_of e) e)
      as (h & -> & Hokh & Hch); [done|by rewrite contents_length|by apply node_in|apply is_entry_spec|].
    cbn [mbind option_bind]. specialize (Hf Hkl).
    assert (entries_ok (set_entries t h l)) as Ht1 by by eapply entries_ok_remove.
    destruct (IH (set_entries t h l)) as (t' & -> & ? & ? & ? & Hkl'); [done| |done| |].
    { simpl. rewrite Hp in Hmax. simpl in Hmax. lia. }
    { intros x Hx. simpl. rewrite Hf. apply list_elem_of_filter. split; [by intros ->|]. apply Hin. by right. }
    exists t'. split_and!; try done. rewrite Hkl'. simpl. rewrite Hf, list_filter_filter.
    apply filter_agree. intros x _. rewrite elem_of_cons.
    split; [by intros [Hx Hne] [[->|?] ?]; auto|intros Hx; split; [tauto|intros ->; auto]].
  - destruct (IH t) as (t' & -> & ? & ? & ? & Hkl'); [done..| |].
    { intros x Hx. apply Hin. by right. }
    exists t'. split_and!; try done. rewrite Hkl'. apply filter_agree. intros x _.
    rewrite elem_of_cons. split; [by intros Hx [[->|?] ?]; auto|tauto].
Qed.

Lemma src_remove_spec t sock w :
  spki_table_ok t →
  wp (spki_table_src_remove (Some t) sock) (λ '(rtval, res) w', rtval = RTR_SPKI_SUCCESS ∧ emits w [] w' ∧
    ∃ t', res = Some t' ∧ spki_table_ok t' ∧ update_fp t' = update_fp t ∧
      klist t' = filter (λ e, e_socket e ≠ sock) (klist t)) w.
Proof.
  intros (Ht & Hmax & Hl). unfold spki_table_src_remove. wp_step. apply wp_spki_wrlock; [done|]. wp_step.
  destruct (src_remove_loop_spec (klist t) (set_lock t WriteLocked) sock)
    as (t' & Hloop & Hok' & Hl' & Hfp & Hk); try done; [by destruct Ht as (_ & _ & ?)|].
  eapply wp_of_option; [exact Hloop|]. wp_step. apply wp_spki_unlock; [left; by rewrite Hl'|]. wp_step.
  split; [done|]. split; [apply emits_refl|]. eexists. split; [done|].
  assert (klist t' = filter (λ e, e_socket e ≠ sock) (klist t)) as Hk'.
  { rewrite Hk. apply filter_agree. intros x Hx. simpl in *. tauto. }
  split; [|done]. split; [done|]. split; [|done]. simpl. rewrite Hk'.
  pose proof (length_filter (λ e, e_socket e ≠ sock) (klist t)). lia.
Qed.

(** ** Shadow tables *)

Lemma copy_loop_spec nodes dst sock w :
  spki_table_ok dst → update_fp dst = None → NoDup nodes → (∀ e, e ∈ nodes → e ∉ klist dst) →
  Z.of_nat (length (klist dst) + length nodes) <= ht_max → no_fail w →
  wp (copy_loop nodes dst sock) (λ '(rtval, dst') w', rtval = RTR_SPKI_SUCCESS ∧ spki_table_ok dst' ∧
    update_fp dst' = None ∧ emits w [] w' ∧
    klist dst' = klist dst ++ filter (λ e, e_socket e ≠ sock) nodes) w.
Proof.
  revert dst w. induction nodes as [|e nodes IH]; intros dst w Hok Hfp Hnd Hnew Hlen Hnf; cbn [copy_loop].
  { wp_step. split_and!; try done; try apply Hok; [apply emits_refl|by rewrite app_nil_r]. }
  apply NoDup_cons in Hnd as [Hn Hnd]. simpl in Hlen. destruct (decide (e_socket e ≠ sock)) as [Hs|Hs].
  - wp_step. eapply wp_mono; [apply add_entry_spec; [done|lia|done]|].
    intros [rtval dst1] w1 (Hok1 & Hfp1 & Hres).
    rewrite decide_False in Hres by (rewrite in_records, record_of_entry; apply Hnew; left). destruct Hres as (-> & Hk1 & Hw1).
    rewrite record_of_entry in Hk1. unfold spki_notification in Hw1. rewrite Hfp in Hw1.
    rewrite decide_True by done. eapply wp_mono; [apply (IH dst1); try done|].
    + congruence.
    + intros x Hx. rewrite Hk1. intros [Hx'| ->%list_elem_of_singleton]%elem_of_app; [|done].
      revert Hx'. apply Hnew. by right.
    + rewrite Hk1, length_app. simpl. lia.
    + by eapply emits_no_fail.
    + intros [rtval dst2] w2 (-> & ? & ? & ? & Hk2). split_and!; try done; [by eapply emits_quiet|].
      rewrite Hk2, Hk1, filter_cons_True, <- app_assoc by done. done.
  - rewrite filter_cons_False by tauto. apply IH; try done; [|lia]. intros x Hx. apply Hnew. by right.
Qed.

Lemma copy_except_socket_spec src dst sock w :
  spki_table_ok src → spki_table_ok dst → update_fp dst = None → klist dst = [] → no_fail w →
  wp (spki_table_copy_except_socket src dst sock) (λ '(rtval, src', dst') w',
    rtval = RTR_SPKI_SUCCESS ∧ src' = src ∧ spki_table_ok dst' ∧ update_fp dst' = None ∧ emits w [] w' ∧
    klist dst' = filter (λ e, e_socket e ≠ sock) (klist src)) w.
Proof.
  intros ((_ & _ & Hnd) & Hmax & Hl) Hdst Hfp Hnil Hnf. unfold spki_table_copy_except_socket. wp_step.
  apply wp_spki_rdlock; [done|]. wp_step. eapply wp_mono; [apply (copy_loop_spec (klist src)); try done|].
  - intros e _. rewrite Hnil. apply not_elem_of_nil.
  - by rewrite Hnil.
  - intros [rtval dst'] w1 (-> & ? & ? & ? & Hk). wp_step. apply wp_spki_unlock; [by right|]. wp_step.
    rewrite Hnil in Hk. destruct src. simpl in *. subst. by split_and!.
Qed.

Lemma swap_spec a b w :
  spki_table_ok a → spki_table_ok b →
  wp (spki_table_swap a b) (λ '(a', b') w', spki_table_ok a' ∧ spki_table_ok b' ∧
    klist a' = klist b ∧ klist b' = klist a ∧ update_fp a' = update_fp a ∧ update_fp b' = update_fp b ∧
    emits w [] w') w.
Proof.
  intros (Ha & Hma & Hla) (Hb & Hmb & Hlb). unfold spki_table_swap. wp_step. apply wp_spki_wrlock; [done|].
  wp_step. apply wp_spki_wrlock; [done|]. cbv zeta. wp_step. apply wp_spki_unlock; [by left|]. wp_step.
  apply wp_spki_unlock; [by left|]. wp_step. split_and!; try done; try apply Ha; try apply Hb. apply emits_refl.
Qed.

(** ** The difference of two tables *)

(** The entries of a cache that only the first table has. *)
Definition only_in (sock : socket_ptr) (l l' : list key_entry) : list key_entry :=
  filter (λ e, e_socket e = sock ∧ e ∉ l') l.
Definition spki_notifications t (l : list key_entry) (op : rtr_spki_operation_type) : list E :=
  l ≫= λ e, spki_notification t (key_entry_to_spki_record e) op.

Lemma spki_diff_add_spec nodes new_table old sock w :
  spki_table_ok old → update_fp old = None → NoDup nodes →
  wp (diff_add_loop nodes new_table old sock) (λ old' w', spki_table_ok old' ∧ update_fp old' = None ∧
    klist old' = filter (λ e, ¬ (e ∈ nodes ∧ e_socket e = sock)) (klist old) ∧
    emits w (spki_notifications new_table (only_in sock nodes (klist old)) RTR_SPKI_ADD) w') w.
Proof.
  revert old w. induction nodes as [|e nodes IH]; intros old w Hok Hfp Hnd; cbn [diff_add_loop].
  { wp_step. split_and!; try done; try apply Hok; [|apply emits_refl].
    rewrite filter_all; [done|]. intros x _ [Hx _]. by apply elem_of_nil in Hx. }
  apply NoDup_cons in Hnd as [Hn Hnd]. unfold only_in. rewrite filter_cons.
  destruct (decide (e_socket e = sock)) as [Hs|Hs].
  2:{ rewrite decide_False by tauto. eapply wp_mono; [by apply IH|]. intros old' w' (? & ? & Hk & Hw).
      split_and!; try done. rewrite Hk. apply filter_agree. intros x _. rewrite elem_of_cons.
      split; [by intros Hx [[->|?] ?]; auto|tauto]. }
  cbv zeta. wp_step. eapply wp_mono; [by apply remove_entry_spec|].
  intros [rtval old1] w1 (Hok1 & Hfp1 & Hres).
  assert (only_in sock nodes (klist old1) = only_in sock nodes (klist old)) as Hon.
  { unfold only_in. apply filter_agree. intros x Hx. case_decide; destruct_and!; [|by subst].
    assert (x ≠ e) by by intros ->.
    match goal with Hf : klist old1 = filter _ _ |- _ =>
      rewrite Hf, list_elem_of_filter, record_of_entry end. tauto. }
  case_decide as Hin; rewrite in_records, record_of_entry in Hin.
  - destruct Hres as (-> & Hk1 & _ & Hw1). rewrite record_of_entry in Hk1. rewrite (decide_False (P := e_socket e = sock ∧ _)) by tauto.
    unfold spki_notification in Hw1. rewrite Hfp in Hw1. cbv beta iota. wp_step. rewrite decide_False by done.
    wp_step. eapply wp_mono; [apply IH; try done; congruence|].
    intros old' w' (? & ? & Hk & Hw). split_and!; try done.
    + rewrite Hk, Hk1, list_filter_filter. apply filter_agree. intros x _. rewrite elem_of_cons.
      split; [by intros [Hx Hne] [[->|?] ?]; auto|intros Hx; split; [tauto|intros ->; auto]].
    + fold (only_in sock nodes (klist old)). rewrite <- Hon. by eapply emits_quiet.
  - destruct Hres as (-> & -> & Hw1). rewrite (decide_True (P := e_socket e = sock ∧ _)) by tauto.
    cbv beta iota. wp_step. rewrite decide_True by done. eapply wp_mono; [apply notify_spec|].
    intros [] w2 Hw2. cbv beta in Hw2. eapply wp_mono; [by apply IH|].
    intros old' w' (? & ? & Hk & Hw). split_and!; try done.
    + rewrite Hk. apply filter_agree. intros x Hx. rewrite elem_of_cons.
      split; [|tauto]. intros Hx' [[->|?] ?]; auto.
    + unfold spki_notifications. rewrite bind_cons. eapply emits_quiet; [done|]. by eapply emits_trans.
Qed.

Lemma diff_remove_spec nodes new_table sock w :
  wp (diff_remove_loop nodes new_table sock) (λ _ w',
    emits w (spki_notifications new_table (filter (λ e, e_socket e = sock) nodes) RTR_SPKI_REMOVE) w') w.
Proof.
  revert w. induction nodes as [|e nodes IH]; intros w; cbn [diff_remove_loop].
  { wp_step. apply emits_refl. }
  rewrite filter_cons. wp_step. case_decide as Hs.
  - eapply wp_mono; [apply notify_spec|]. intros [] w1 Hw1. cbv beta in Hw1. eapply wp_mono; [apply IH|].
    intros [] w2 Hw2. unfold spki_notifications. rewrite bind_cons. by eapply emits_trans.
  - wp_step. apply IH.
Qed.

Lemma notify_diff_spec new_table old sock w :
  spki_table_ok new_table → spki_table_ok old →
  wp (spki_table_notify_diff new_table old sock) (λ old' w', spki_table_ok old' ∧
    update_fp old' = update_fp old ∧
    emits w (spki_notifications new_table (only_in sock (klist new_table) (klist old)) RTR_SPKI_ADD ++
             spki_notifications new_table (only_in sock (klist old) (klist new_table)) RTR_SPKI_REMOVE) w') w.
Proof.
  intros ((_ & _ & Hnd) & _) Hok. unfold spki_table_notify_diff. cbv zeta. wp_step.
  eapply wp_mono; [by apply (spki_diff_add_spec (klist new_table) new_table (set_update_fp old None))|].
  intros old1 w1 (Hok1 & Hfp1 & Hk1 & Hw1). wp_step. eapply wp_mono; [apply diff_remove_spec|].
  intros [] w2 Hw2. cbv beta in Hw2. wp_step. split_and!; try done; try apply Hok1.
  eapply emits_trans; [exact Hw1|]. rewrite Hk1, list_filter_filter in Hw2. unfold only_in.
  erewrite (filter_agree (λ e, e_socket e = sock ∧ e ∉ klist new_table)); [exact Hw2|]. intros x _. tauto.
Qed.

End SpkiProofs.
