(* ===== verification/SpkiTheorems.v ===== *)
(** * The table of router keys: the theorems

    The table with the tommyds hash table behind it, and that hash table on its own. *)

From S2P Require Import Prelude Hashlin HashlinProofs Spki SpkiProofs.

(** ** The hash table *)

Section HashTheorems.
Context {E : Type}.
Implicit Types w : world E.

(** A sequence of insertions and removals of nodes with a key and a number. *)
Inductive hash_op := HInsert (key x : Z) | HRemove (key x : Z).

Fixpoint run_hash_ops (ops : list hash_op) (h : tommy_hashlin Z) : M E (list bool * tommy_hashlin Z) :=
  match ops with
  | [] => mret ([], h)
  | HInsert key x :: ops =>
      h ← tommy_hashlin_insert h x key;
      '(found, h) ← run_hash_ops ops h; mret (true :: found, h)
  | HRemove key x :: ops =>
      '(res, h) ← of_option (tommy_hashlin_remove h (Z.eqb x) key);
      '(found, h) ← run_hash_ops ops h;
      mret (match res with Some _ => true | None => false end :: found, h)
  end.

(** Removing one occurrence from a list. *)
Fixpoint remove_one (n : Z * Z) (l : list (Z * Z)) : list (Z * Z) :=
  match l with
  | [] => []
  | m :: l => if decide (m = n) then l else m :: remove_one n l
  end.

Fixpoint list_ops (ops : list hash_op) (l : list (Z * Z)) : list bool * list (Z * Z) :=
  match ops with
  | [] => ([], l)
  | HInsert key x :: ops => let '(found, l) := list_ops ops ((key, x) :: l) in (true :: found, l)
  | HRemove key x :: ops =>
      let '(found, l') := list_ops ops (remove_one (key, x) l) in
      (bool_decide ((key, x) ∈ l) :: found, l')
  end.

Lemma remove_one_in n l : n ∈ l → l ≡ₚ n :: remove_one n l.
Proof.
  induction l as [|m l IH]; intros Hn; [by apply elem_of_nil in Hn|]. simpl. case_decide as Hm; [by subst|].
  apply elem_of_cons in Hn as [|Hn]; [congruence|]. rewrite IH at 1 by done. constructor.
Qed.

Lemma remove_one_out n l : n ∉ l → remove_one n l = l.
Proof.
  induction l as [|m l IH]; intros Hn; [done|]. simpl. apply not_elem_of_cons in Hn as [Hne Hn].
  rewrite decide_False by congruence. by rewrite IH.
Qed.

(** C17: The linear hash table is a multiset of up to 2^28 nodes while memory lasts,
    whatever buckets it has split or joined on the way: a sequence of insertions and
    removals, from any well-formed table, finds what it would find in a list, and leaves a
    well-formed table with the nodes of that list, in which a search finds a node if and
    only if there is one. *)
Theorem hashlin_refines_multiset ops (h : tommy_hashlin Z) l w :
  hashlin_ok h → contents h ≡ₚ l → Z.of_nat (length l + length ops) <= 2 ^ 28 → no_fail w →
  wp (run_hash_ops ops h) (λ '(found, h') w', hashlin_ok h' ∧ emits w [] w' ∧
    found = (list_ops ops l).1 ∧ contents h' ≡ₚ (list_ops ops l).2 ∧
    ∀ key x, tommy_hashlin_search h' (Z.eqb x) key =
      Some (if decide ((key, x) ∈ contents h') then Some x else None)) w.
Proof.
  revert h l w. induction ops as [|[key x|key x] ops IH]; intros h l w Hok Hc Hlen Hnf; simpl in *.
  - wp_step. split_and!; try done; try apply Hok; [apply emits_refl|]. intros key x.
    destruct (search_spec h (Z.eqb x) key Hok) as (res & -> & Hres). f_equal.
    case_decide as Hin; destruct res as [y|]; try done.
    + destruct Hres as [_ ->%Z.eqb_eq]. done.
    + apply Hres in Hin. by rewrite Z.eqb_refl in Hin.
    + by destruct Hres as [Hy ->%Z.eqb_eq].
  - wp_step. eapply wp_mono; [apply insert_spec; [done|rewrite Hc; lia|done]|].
    intros h1 w1 (Hw1 & Hok1 & Hc1). wp_step.
    eapply wp_mono; [apply (IH h1 ((key, x) :: l)); [done|by rewrite Hc1, Hc|simpl; lia|by eapply emits_no_fail]|].
    intros [found h2] w2 (? & ? & -> & ? & ?). wp_step.
    destruct (list_ops ops ((key, x) :: l)) eqn:Hlo. split_and!; try done. by eapply emits_quiet.
  - destruct (remove_spec h (Z.eqb x) key Hok) as (res & h1 & Hr & Hok1 & Hres); [rewrite Hc; lia|].
    wp_step. eapply wp_of_option; [exact Hr|]. cbv beta iota. wp_step.
    assert (bool_decide ((key, x) ∈ l) = (match res with Some _ => true | None => false end) ∧
      contents h1 ≡ₚ remove_one (key, x) l) as [Hb Hc1].
    { destruct res as [y|].
      - destruct Hres as [Hp ->%Z.eqb_eq]. rewrite Hc in Hp.
        assert ((key, y) ∈ l) as Hin by (rewrite Hp; left). split; [by apply bool_decide_eq_true|].
        apply (Permutation_cons_inv (a := (key, y))). rewrite <- Hp. by apply remove_one_in.
      - destruct Hres as [-> Hn]. assert ((key, x) ∉ l) as Hout.
        { rewrite <- Hc. intros Hx%Hn. by rewrite Z.eqb_refl in Hx. }
        split; [by apply bool_decide_eq_false|]. by rewrite remove_one_out. }
    eapply wp_mono; [apply (IH h1 (remove_one (key, x) l)); try done|].
    { destruct (decide ((key, x) ∈ l)) as [Hin|Hin].
      - pose proof (Permutation_length (remove_one_in _ _ Hin)) as Hl. simpl in Hl. lia.
      - rewrite remove_one_out by done. lia. }
    intros [found h2] w2 (? & ? & -> & ? & ?). wp_step.
    destruct (list_ops ops (remove_one (key, x) l)) eqn:Hlo. rewrite Hb. by split_and!.
Qed.

End HashTheorems.

(** ** The table of router keys *)

Section SpkiTheorems.
Context {E : Type} `{!Event spki_event E}.
Abbreviation table := (rtr_spki_table (tommy_hashlin key_entry)).
Abbreviation spki_ok := (spki_table_ok (E := E)).
Implicit Types (t : table) (w : world E).

(** A sequence of additions and removals, with the values returned. *)
Inductive spki_op := SpkiAdd (r : rtr_spki_record) | SpkiRemove (r : rtr_spki_record).

Fixpoint run_spki_ops (ops : list spki_op) t : M E (list rtr_spki_rtvals * table) :=
  match ops with
  | [] => mret ([], t)
  | op :: ops =>
      '(rtval, t) ← match op with
                    | SpkiAdd r => spki_table_add_entry t r
                    | SpkiRemove r => spki_table_remove_entry t r
                    end;
      '(rtvals, t) ← run_spki_ops ops t;
      mret (rtval :: rtvals, t)
  end.

(** The same on a list without duplicates. *)
Definition spki_set_op (op : spki_op) (rs : list rtr_spki_record)
  : rtr_spki_rtvals * list rtr_spki_record :=
  match op with
  | SpkiAdd r =>
      if decide (r ∈ rs) then (RTR_SPKI_DUPLICATE_RECORD, rs) else (RTR_SPKI_SUCCESS, rs ++ [r])
  | SpkiRemove r =>
      if decide (r ∈ rs) then (RTR_SPKI_SUCCESS, filter (λ r', r' ≠ r) rs)
      else (RTR_SPKI_RECORD_NOT_FOUND, rs)
  end.

Fixpoint spki_set_ops (ops : list spki_op) (rs : list rtr_spki_record)
  : list rtr_spki_rtvals * list rtr_spki_record :=
  match ops with
  | [] => ([], rs)
  | op :: ops =>
      let '(rtval, rs) := spki_set_op op rs in
      let '(rtvals, rs) := spki_set_ops ops rs in (rtval :: rtvals, rs)
  end.

Lemma spki_op_refines op t w :
  spki_ok t → Z.of_nat (length (klist t)) < 2 ^ 28 → no_fail w →
  wp (match op with
      | SpkiAdd r => spki_table_add_entry t r
      | SpkiRemove r => spki_table_remove_entry t r
      end) (λ '(rtval, t') w', spki_ok t' ∧ no_fail w' ∧
        (length (klist t') <= S (length (klist t)))%nat ∧
        (rtval, spki_records t') = spki_set_op op (spki_records t)) w.
Proof.
  intros Hok Hlen Hnf. destruct op as [r|r]; simpl.
  - eapply wp_mono; [by apply add_entry_spec|]. intros [rtval t'] w' (Hok' & _ & Hres). case_decide.
    + destruct Hres as (-> & -> & Hw). split; [done|]. split; [by eapply emits_no_fail|]. by split; [lia|].
    + destruct Hres as (-> & Hk & Hw). rewrite Hk, length_app. simpl.
      split; [done|]. split; [by eapply emits_no_fail|]. split; [lia|]. unfold spki_records. rewrite Hk, fmap_app. simpl.
      by rewrite entry_of_record.
  - eapply wp_mono; [by apply remove_entry_spec|]. intros [rtval t'] w' (Hok' & _ & Hres). case_decide.
    + destruct Hres as (-> & Hk & Hp & Hw). pose proof (Permutation_length Hp) as Hpl. simpl in Hpl.
      split; [done|]. split; [by eapply emits_no_fail|]. split; [lia|]. unfold spki_records. rewrite Hk. f_equal.
      apply fmap_filter. intros e. split; intros Hne Heq; apply Hne.
      * by rewrite <- Heq, record_of_entry.
      * by rewrite Heq, entry_of_record.
    + destruct Hres as (-> & -> & Hw). split; [done|]. split; [by eapply emits_no_fail|]. by split; [lia|].
Qed.

Lemma run_spki_ops_spec ops t w :
  spki_ok t → Z.of_nat (length (klist t) + length ops) <= 2 ^ 28 → no_fail w →
  wp (run_spki_ops ops t) (λ '(rtvals, t') w', spki_ok t' ∧ no_fail w' ∧
    (rtvals, spki_records t') = spki_set_ops ops (spki_records t)) w.
Proof.
  revert t w. induction ops as [|op ops IH]; intros t w Hok Hlen Hnf; simpl in *; [by wp_step|].
  wp_step. eapply wp_mono; [apply (spki_op_refines op t); [done|lia|done]|].
  intros [rtval t1] w1 (Hok1 & Hnf1 & Hl1 & Hset). wp_step.
  eapply wp_mono; [apply (IH t1); [done|lia|done]|]. intros [rtvals t2] w2 (Hok2 & Hnf2 & Hset2). wp_step.
  rewrite <- Hset, <- Hset2. by split_and!.
Qed.

(** C12: The table of router keys refines a set of records, up to 2^28 of them and while
    memory lasts: every sequence of additions and removals returns what it would on a set
    and leaves exactly its records, in the order of their addition; a query for an AS and a
    key identifier then returns exactly the records with both. *)
Theorem spki_ops_refine ops t w :
  spki_ok t → Z.of_nat (length (klist t) + length ops) <= 2 ^ 28 → no_fail w →
  wp (run_spki_ops ops t) (λ '(rtvals, t') w', spki_ok t' ∧
    (rtvals, spki_records t') = spki_set_ops ops (spki_records t) ∧
    ∀ a key, wp (spki_table_get_all t' a key) (λ '(rtval, res, t'') w'', t'' = t' ∧ emits w' [] w'' ∧
      rtval = RTR_SPKI_SUCCESS ∧
      ∃ rs, res = Some rs ∧ rs ≡ₚ filter (has_key a key) (spki_records t')) w') w.
Proof.
  intros Hok Hlen Hnf. eapply wp_mono; [by apply run_spki_ops_spec|].
  intros [rtvals t'] w' (Hok' & Hnf' & Hset). split_and!; try done; try apply Hok'.
  intros a key. by apply get_all_spec.
Qed.

(** [spki_table_src_remove] removes exactly the router keys of a cache from the
    list and from the hash table; no client hears of it. *)
Theorem spki_src_remove_correct t sock w :
  spki_ok t →
  wp (spki_table_src_remove (Some t) sock) (λ '(rtval, res) w', rtval = RTR_SPKI_SUCCESS ∧ emits w [] w' ∧
    ∃ t', res = Some t' ∧ spki_ok t' ∧
      spki_records t' = filter (λ r, socket r ≠ sock) (spki_records t)) w.
Proof.
  intros Hok. eapply wp_mono; [by apply src_remove_spec|].
  intros [rtval res] w' (-> & Hw & t' & -> & Hok' & _ & Hk). split_and!; try done. exists t'.
  split_and!; try done; try apply Hok'. unfold spki_records. rewrite Hk. by apply fmap_filter.
Qed.

(** [spki_table_notify_diff] tells the client exactly the difference between two
    tables with respect to one cache: an addition for each key that only the new table
    has, then a removal for each that only the old one has. *)
Theorem spki_notify_diff_correct new_table old sock w :
  spki_ok new_table → spki_ok old →
  wp (spki_table_notify_diff new_table old sock) (λ old' w', spki_ok old' ∧
    emits w (spki_notifications new_table (only_in sock (klist new_table) (klist old)) RTR_SPKI_ADD ++
             spki_notifications new_table (only_in sock (klist old) (klist new_table)) RTR_SPKI_REMOVE) w') w.
Proof.
  intros Hn Ho. eapply wp_mono; [by apply notify_diff_spec|]. by intros old' w' (? & _ & ?).
Qed.

End SpkiTheorems.

(** ** Instances *)

Definition spki_world : world spki_event := World [] [] idle.

Lemma hashlin_refines_multiset_witness :
  let ops := [HInsert 5 1; HInsert 69 2; HInsert 5 1; HRemove 5 1; HRemove 69 3; HRemove 69 2] in
  ∃ h w, tommy_hashlin_init spki_world = Some (h, w) ∧
    wp (run_hash_ops ops h) (λ '(found, h') _,
      found = [true; true; true; true; false; true] ∧ contents h' ≡ₚ [(5, 1)]) w.
Proof.
  intros ops. destruct (init_spec (A := Z) spki_world) as (h & w & Hi & Hw & Hok & Hc); [constructor|].
  exists h, w. split; [done|]. eapply wp_mono.
  { apply (hashlin_refines_multiset ops h []); [done|by rewrite Hc|vm_compute; discriminate|].
    eapply emits_no_fail; [done|constructor]. }
  intros [found h'] w' (_ & _ & -> & Hc' & _). split; [reflexivity|]. exact Hc'.
Defined.

Definition key1 : rtr_spki_record := SpkiRecord (replicate 20 1) 64496 (replicate 91 7) 1.
Definition key2 : rtr_spki_record := SpkiRecord (replicate 20 1) 64496 (replicate 91 8) 2.

(** An empty table of router keys, from the initialisation. *)
Lemma empty_spki_table fp :
  ∃ t w, spki_table_init (H := tommy_hashlin key_entry) fp spki_world = Some (t, w) ∧
    emits spki_world [] w ∧ spki_table_ok (E := spki_event) t ∧ klist t = [] ∧ update_fp t = fp.
Proof.
  destruct (init_spec (A := key_entry) spki_world) as (h & w & Hi & Hw & Hok & Hc); [constructor|].
  exists (SpkiTable h [] fp Unlocked), w. split; [unfold spki_table_init; simpl; unfold mbind, M_bind; by rewrite Hi|].
  split; [done|]. split; [|done]. split; [split; [exact Hok|split]|done]; simpl; [by rewrite Hc|constructor].
Qed.

Lemma spki_ops_refine_witness :
  let ops := [SpkiAdd key1; SpkiAdd key1; SpkiAdd key2; SpkiRemove key1; SpkiRemove key1] in
  ∃ t w, spki_table_init (H := tommy_hashlin key_entry) None spki_world = Some (t, w) ∧
    wp (run_spki_ops ops t) (λ '(rtvals, t') _,
      rtvals = [RTR_SPKI_SUCCESS; RTR_SPKI_DUPLICATE_RECORD; RTR_SPKI_SUCCESS; RTR_SPKI_SUCCESS;
                RTR_SPKI_RECORD_NOT_FOUND] ∧ spki_records t' = [key2]) w.
Proof.
  intros ops. destruct (empty_spki_table None) as (t & w & Hi & Hw & Hok & Hk & _).
  exists t, w. split; [done|]. eapply wp_mono.
  { apply (spki_ops_refine ops t w); [done|rewrite Hk; vm_compute; discriminate|].
    eapply emits_no_fail; [done|constructor]. }
  intros [rtvals t'] w' (_ & Hset & _). unfold spki_records in Hset at 2. rewrite Hk in Hset.
  vm_compute in Hset. injection Hset as -> Hr. split; [reflexivity|exact Hr].
Defined.

(** A table with both keys. *)
Lemma two_keys_table fp :
  ∃ t w, spki_table_ok (E := spki_event) (H := tommy_hashlin key_entry) t ∧ no_fail w ∧
    spki_records t = [key1; key2] ∧
    ∃ t0 w0, spki_table_init fp spki_world = Some (t0, w0) ∧
      run_spki_ops [SpkiAdd key1; SpkiAdd key2] t0 w0 = Some ([RTR_SPKI_SUCCESS; RTR_SPKI_SUCCESS], t, w).
Proof.
  destruct (empty_spki_table fp) as (t0 & w0 & Hi & Hw & Hok & Hk & _).
  destruct (run_spki_ops_spec [SpkiAdd key1; SpkiAdd key2] t0 w0) as ([rtvals t] & w & Hr & Ht & Hnf & Hset).
  - done.
  - rewrite Hk. vm_compute. discriminate.
  - eapply emits_no_fail; [done|constructor].
  - unfold spki_records in Hset at 2. rewrite Hk in Hset. vm_compute in Hset. injection Hset as -> Hset.
    exists t, w. split_and!; try done; try apply Ht. exists t0, w0. by split.
Qed.

Lemma spki_src_remove_correct_witness :
  ∃ t w, spki_records t = [key1; key2] ∧
    wp (spki_table_src_remove (H := tommy_hashlin key_entry) (Some t) 1) (λ '(rtval, res) w',
      rtval = RTR_SPKI_SUCCESS ∧ ∃ t', res = Some t' ∧ spki_records t' = [key2]) (w : world spki_event).
Proof.
  destruct (two_keys_table None) as (t & w & Hok & _ & Hr & _). exists t, w. split; [done|].
  eapply wp_mono; [exact (spki_src_remove_correct t 1 w Hok)|].
  intros [rtval res] w' (-> & _ & t' & -> & _ & Hr'). split; [done|]. exists t'. rewrite Hr' , Hr. split; done.
Defined.

Lemma spki_notify_diff_correct_witness :
  ∃ t t0 w, spki_records t = [key1; key2] ∧
    wp (spki_table_notify_diff (H := tommy_hashlin key_entry) t t0 1) (λ _ w',
      events w' = events w ++ spki_notification t key1 RTR_SPKI_ADD) (w : world spki_event).
Proof.
  destruct (two_keys_table (Some 3%nat)) as (t & w & Hok & _ & Hr & _).
  destruct (empty_spki_table None) as (t0 & w0 & _ & _ & Hok0 & Hk0 & _).
  exists t, t0, w. split; [done|].
  eapply wp_mono; [exact (spki_notify_diff_correct t t0 1 w Hok Hok0)|].
  intros old' w' [_ [-> _]]. f_equal. rewrite Hk0.
  assert (klist t = spki_record_to_key_entry <$> [key1; key2]) as ->.
  { rewrite <- Hr. unfold spki_records. rewrite <- list_fmap_compose.
    rewrite <- (list_fmap_id (klist t)) at 1. apply list_fmap_ext. intros i e _. symmetry. apply record_of_entry. }
  assert (only_in 1 (spki_record_to_key_entry <$> [key1; key2]) [] = [spki_record_to_key_entry key1]) as ->
    by (vm_compute; reflexivity).
  unfold spki_notifications. rewrite bind_singleton, app_nil_r. reflexivity.
Defined.
