(* ===== verification/Pdu.v ===== *)
(** * PDUs: layout, byte order and size checks

    The structures of [rtrlib/rtr/rtr_pdus.h] as the code uses them: a PDU is a buffer
    of bytes, a member of a structure is read and written at its offset in the byte
    order of the host.  An access outside of the buffer is undefined. *)

From S2P Require Import Prelude.

(** The byte order of the machine. *)
Class Host := { big_endian : bool }.
Definition little_endian_host : Host := {| big_endian := false |}.
Definition big_endian_host : Host := {| big_endian := true |}.

Abbreviation buffer := (list Z) (only parsing).

(** ** Bytes of integers *)

(** The [n] bytes of an integer, least significant byte first, and back. *)
Fixpoint le_bytes (n : nat) (v : Z) : list Z :=
  match n with O => [] | S n => u8 v :: le_bytes n (v / 256) end.
Fixpoint le_value (l : list Z) : Z :=
  match l with [] => 0 | b :: l => b + 256 * le_value l end.

Definition be_bytes (n : nat) (v : Z) : list Z := reverse (le_bytes n v).
Definition be_value (l : list Z) : Z := le_value (reverse l).

Section Pdu.
Context `{Host}.

Definition host_bytes (n : nat) (v : Z) : list Z := if big_endian then be_bytes n v else le_bytes n v.
Definition host_value (l : list Z) : Z := if big_endian then be_value l else le_value l.

(** ** Access to a buffer *)

(** [n] bytes at an offset. *)
Definition slice (b : buffer) (off n : nat) : option (list Z) :=
  if decide (off + n <= length b)%nat then Some (take n (drop off b)) else None.
Definition write (b : buffer) (off : nat) (l : list Z) : option buffer :=
  if decide (off + length l <= length b)%nat
  then Some (take off b ++ l ++ drop (off + length l) b) else None.

Definition get8 (b : buffer) (off : nat) : option Z := l ← slice b off 1; Some (host_value l).
Definition get16 (b : buffer) (off : nat) : option Z := l ← slice b off 2; Some (host_value l).
Definition get32 (b : buffer) (off : nat) : option Z := l ← slice b off 4; Some (host_value l).
Definition put16 (b : buffer) (off : nat) (v : Z) : option buffer := write b off (host_bytes 2 v).
Definition put32 (b : buffer) (off : nat) (v : Z) : option buffer := write b off (host_bytes 4 v).

(** ** Byte order: [rtrlib/lib/convert_byte_order.c] *)

Inductive target_byte_order := TO_NETWORK_BYTE_ORDER | TO_HOST_HOST_BYTE_ORDER.

(** [htons], [ntohs], [htonl] and [ntohl]: the bytes of the result are the other way
    round unless the host uses the byte order of the network. *)
Definition swap_bytes (n : nat) (v : Z) : Z :=
  if big_endian then le_value (le_bytes n v) else be_value (le_bytes n v).

Definition htons (v : Z) : Z := swap_bytes 2 v.
Definition ntohs (v : Z) : Z := swap_bytes 2 v.
Definition htonl (v : Z) : Z := swap_bytes 4 v.
Definition ntohl (v : Z) : Z := swap_bytes 4 v.

Definition rtr_convert_short (tbo : target_byte_order) (value : Z) : Z :=
  match tbo with
  | TO_NETWORK_BYTE_ORDER => htons value
  | TO_HOST_HOST_BYTE_ORDER => ntohs value
  end.
Definition rtr_convert_long (tbo : target_byte_order) (value : Z) : Z :=
  match tbo with
  | TO_NETWORK_BYTE_ORDER => htonl value
  | TO_HOST_HOST_BYTE_ORDER => ntohl value
  end.

End Pdu.

(** ** PDU types *)

Inductive pdu_type :=
| SERIAL_NOTIFY | SERIAL_QUERY | RESET_QUERY | CACHE_RESPONSE | IPV4_PREFIX | RESERVED | IPV6_PREFIX
| EOD | CACHE_RESET | ROUTER_KEY | ERROR | ASPA | UNKNOWN_TYPE.

#[global] Instance pdu_type_eq_dec : EqDecision pdu_type.
Proof. solve_decision. Defined.

Definition pdu_type_of (v : Z) : pdu_type :=
  match v with
  | 0 => SERIAL_NOTIFY | 1 => SERIAL_QUERY | 2 => RESET_QUERY | 3 => CACHE_RESPONSE
  | 4 => IPV4_PREFIX | 5 => RESERVED | 6 => IPV6_PREFIX | 7 => EOD | 8 => CACHE_RESET
  | 9 => ROUTER_KEY | 10 => ERROR | 11 => ASPA | _ => UNKNOWN_TYPE
  end.

Inductive pdu_error_type :=
| CORRUPT_DATA | INTERNAL_ERROR | NO_DATA_AVAIL | INVALID_REQUEST | UNSUPPORTED_PROTOCOL_VER
| UNSUPPORTED_PDU_TYPE | WITHDRAWAL_OF_UNKNOWN_RECORD | DUPLICATE_ANNOUNCEMENT
| UNEXPECTED_PROTOCOL_VERSION | INCORRECT_ASPA_PROVIDER_LIST | PDU_TOO_BIG.

Definition error_value (e : pdu_error_type) : Z :=
  match e with
  | CORRUPT_DATA => 0 | INTERNAL_ERROR => 1 | NO_DATA_AVAIL => 2 | INVALID_REQUEST => 3
  | UNSUPPORTED_PROTOCOL_VER => 4 | UNSUPPORTED_PDU_TYPE => 5 | WITHDRAWAL_OF_UNKNOWN_RECORD => 6
  | DUPLICATE_ANNOUNCEMENT => 7 | UNEXPECTED_PROTOCOL_VERSION => 8
  | INCORRECT_ASPA_PROVIDER_LIST => 9 | PDU_TOO_BIG => 32
  end.

Definition RTR_MAX_PDU_LEN : Z := 65535.
Definition RTR_ERRONEOUS_PDU_MIN_LEN : Z := 4.

(** The sizes of the structures. *)
Definition sizeof_header : Z := 8.
Definition sizeof_serial : Z := 12.
Definition sizeof_ipv4 : Z := 20.
Definition sizeof_ipv6 : Z := 32.
Definition sizeof_error : Z := 12.
Definition sizeof_router_key : Z := 123.
Definition sizeof_aspa : Z := 12.
Definition sizeof_eod_v0 : Z := 12.
Definition sizeof_eod_v1_v2 : Z := 24.

(** ** Conversion of a PDU *)

Section Convert.
Context `{Host}.
Implicit Types (pdu : buffer) (tbo : target_byte_order).

Definition rtr_get_pdu_type pdu : option pdu_type := v ← get8 pdu 1; Some (pdu_type_of v).

(** A member of the structure is converted in place. *)
Definition convert16 tbo pdu (off : nat) : option buffer :=
  v ← get16 pdu off; put16 pdu off (rtr_convert_short tbo v).
Definition convert32 tbo pdu (off : nat) : option buffer :=
  v ← get32 pdu off; put32 pdu off (rtr_convert_long tbo v).
(** [n] 32-bit numbers, from an offset on. *)
Fixpoint convert32s tbo pdu (off n : nat) : option buffer :=
  match n with
  | O => Some pdu
  | S n => pdu ← convert32 tbo pdu off; convert32s tbo pdu (off + 4) n
  end.

(** Offsets: version 0, type 1, session id, error code or flags 2, length 4. *)
Definition rtr_pdu_convert_header_byte_order pdu tbo : option buffer :=
  type ← rtr_get_pdu_type pdu;
  pdu ← (if bool_decide (type ≠ ROUTER_KEY) && bool_decide (type ≠ ASPA)
         then convert16 tbo pdu 2 else Some pdu);
  convert32 tbo pdu 4.

(** The subtraction is unsigned. *)
Definition rtr_aspa_provider_count pdu : option Z :=
  len ← get32 pdu 4;
  Some ((len - sizeof_aspa) mod 2 ^ 64 / 4).

Definition rtr_pdu_convert_footer_byte_order pdu tbo : option buffer :=
  type ← rtr_get_pdu_type pdu;
  match type with
  | SERIAL_QUERY | SERIAL_NOTIFY => convert32 tbo pdu 8
  | ERROR =>
      match tbo with
      | TO_NETWORK_BYTE_ORDER =>
          len_enc_pdu ← get32 pdu 8;
          pdu ← convert32 tbo pdu (12 + Z.to_nat len_enc_pdu);
          convert32 tbo pdu 8
      | TO_HOST_HOST_BYTE_ORDER =>
          pdu ← convert32 tbo pdu 8;
          len_enc_pdu ← get32 pdu 8;
          convert32 tbo pdu (12 + Z.to_nat len_enc_pdu)
      end
  | EOD =>
      ver ← get8 pdu 0;
      if (ver =? 1) || (ver =? 2) then
        pdu ← convert32 tbo pdu 20;
        pdu ← convert32 tbo pdu 12;
        pdu ← convert32 tbo pdu 16;
        convert32 tbo pdu 8
      else convert32 tbo pdu 8
  | IPV4_PREFIX => pdu ← convert32 tbo pdu 12; convert32 tbo pdu 16
  | IPV6_PREFIX => pdu ← convert32s tbo pdu 12 4; convert32 tbo pdu 28
  | ROUTER_KEY => convert32 tbo pdu 28
  | ASPA =>
      pdu ← convert32 tbo pdu 8;
      asn_count ← rtr_aspa_provider_count pdu;
      convert32s tbo pdu 12 (Z.to_nat (u16 asn_count))
  | _ => Some pdu
  end.

Definition rtr_pdu_header_to_network_byte_order pdu : option buffer :=
  rtr_pdu_convert_header_byte_order pdu TO_NETWORK_BYTE_ORDER.
Definition rtr_pdu_footer_to_network_byte_order pdu : option buffer :=
  rtr_pdu_convert_footer_byte_order pdu TO_NETWORK_BYTE_ORDER.
Definition rtr_pdu_to_network_byte_order pdu : option buffer :=
  pdu ← rtr_pdu_footer_to_network_byte_order pdu;
  rtr_pdu_header_to_network_byte_order pdu.
Definition rtr_pdu_footer_to_host_byte_order pdu : option buffer :=
  rtr_pdu_convert_footer_byte_order pdu TO_HOST_HOST_BYTE_ORDER.
Definition rtr_pdu_header_to_host_byte_order pdu : option buffer :=
  rtr_pdu_convert_header_byte_order pdu TO_HOST_HOST_BYTE_ORDER.

(** ** The size of a PDU whose header is in host byte order *)

Definition rtr_pdu_check_size pdu : option bool :=
  type ← rtr_get_pdu_type pdu;
  len ← get32 pdu 4;
  match type with
  | SERIAL_NOTIFY => Some (sizeof_serial =? len)
  | CACHE_RESPONSE => Some (sizeof_header =? len)
  | IPV4_PREFIX => Some (sizeof_ipv4 =? len)
  | IPV6_PREFIX => Some (sizeof_ipv6 =? len)
  | EOD =>
      ver ← get8 pdu 0;
      Some (((ver =? 0) && (sizeof_eod_v0 =? len)) ||
            (((ver =? 1) || (ver =? 2)) && (sizeof_eod_v1_v2 =? len)))
  | CACHE_RESET => Some (sizeof_header =? len)
  | ROUTER_KEY => Some (sizeof_router_key =? len)
  | ERROR =>
      let expected_size := 4 + sizeof_error in
      if len <? expected_size then Some false
      else
        len_enc_pdu ← get32 pdu 8;
        let enc_pdu_len := ntohl len_enc_pdu in
        let expected_size := expected_size + enc_pdu_len in
        if len <? expected_size then Some false
        else
          err_msg_len ← get32 pdu (12 + Z.to_nat enc_pdu_len);
          Some (len =? expected_size + ntohl err_msg_len)
  | SERIAL_QUERY => Some (sizeof_serial =? len)
  | RESET_QUERY => Some (sizeof_header =? len)
  | ASPA =>
      if len <? sizeof_aspa then Some false
      else
        flags ← get8 pdu 2;
        let is_withdrawal := Z.land flags 1 =? 0 in
        Some (negb (is_withdrawal && negb (len =? sizeof_aspa)))
  | RESERVED | UNKNOWN_TYPE => Some false
  end.

End Convert.
