(* ===== verification/PduProofs.v ===== *)
(** * PDUs: conversion as a permutation of bytes

    Converting a member of a PDU mirrors its bytes (or does nothing, if the host has
    the byte order of the network); converting a PDU mirrors a set of disjoint blocks. *)

From S2P Require Import Prelude Pdu.

Abbreviation bytes l := (Forall (λ b, is_u8 b) l) (only parsing).

(** ** Bytes and values *)

Lemma le_bytes_length n v : length (le_bytes n v) = n.
Proof. revert v. induction n as [|n IH]; intros v; simpl; [done|]. by rewrite IH. Qed.

Lemma le_bytes_ok n v : bytes (le_bytes n v).
Proof.
  revert v. induction n as [|n IH]; intros v; simpl; constructor; [|apply IH].
  apply Z.mod_pos_bound. lia.
Qed.

Lemma le_bytes_value l : bytes l → le_bytes (length l) (le_value l) = l.
Proof.
  induction 1 as [|b l Hb Hl IH]; [done|]. simpl. f_equal.
  - unfold u8. rewrite (Z.mul_comm 256), Z.mod_add by lia. by apply Z.mod_small.
  - rewrite (Z.mul_comm 256), Z.div_add, Z.div_small by lia. done.
Qed.

Lemma le_value_bytes n v : 0 <= v < 2 ^ (8 * Z.of_nat n) → le_value (le_bytes n v) = v.
Proof.
  revert v. induction n as [|n IH]; intros v Hv; [simpl in *; lia|]. cbn [le_bytes le_value].
  rewrite IH.
  - unfold u8. pose proof (Z.div_mod v 256). lia.
  - replace (8 * Z.of_nat (S n)) with (8 + 8 * Z.of_nat n) in Hv by lia.
    rewrite Z.pow_add_r in Hv by lia. change (2 ^ 8) with 256 in Hv.
    split; [apply Z.div_pos; lia|]. apply Z.div_lt_upper_bound; lia.
Qed.

Lemma le_value_bound l : bytes l → 0 <= le_value l < 2 ^ (8 * Z.of_nat (length l)).
Proof.
  induction 1 as [|b l Hb Hl IH]; [simpl; lia|]. cbn [le_value length].
  replace (8 * Z.of_nat (S (length l))) with (8 + 8 * Z.of_nat (length l)) by lia.
  rewrite Z.pow_add_r by lia. change (2 ^ 8) with 256. lia.
Qed.

Lemma bytes_reverse l : bytes l → bytes (reverse l).
Proof. intros Hl. by rewrite reverse_Permutation. Qed.

Section PduProofs.
Context `{Host}.
Implicit Types (p : list Z) (off i n : nat).

Lemma host_bytes_length n v : length (host_bytes n v) = n.
Proof. unfold host_bytes, be_bytes. destruct big_endian; by rewrite ?length_reverse, le_bytes_length. Qed.

Lemma host_bytes_value l : bytes l → host_bytes (length l) (host_value l) = l.
Proof.
  intros Hl. unfold host_bytes, host_value, be_bytes, be_value. destruct big_endian; [|by apply le_bytes_value].
  rewrite <- (length_reverse l), le_bytes_value by by apply bytes_reverse. apply reverse_involutive.
Qed.

Lemma host_value_bytes n v : 0 <= v < 2 ^ (8 * Z.of_nat n) → host_value (host_bytes n v) = v.
Proof.
  intros Hv. unfold host_bytes, host_value, be_bytes, be_value.
  destruct big_endian; rewrite ?reverse_involutive; by apply le_value_bytes.
Qed.

(** The bytes in the other byte order, unless it is the same. *)
Definition mirror (l : list Z) : list Z := if big_endian then l else reverse l.

Lemma mirror_length l : length (mirror l) = length l.
Proof. unfold mirror. destruct big_endian; [done|apply length_reverse]. Qed.

(** Swapping the bytes of a value mirrors the bytes in memory. *)
Lemma swap_bytes_mirror l :
  bytes l → host_bytes (length l) (swap_bytes (length l) (host_value l)) = mirror l.
Proof.
  intros Hl. unfold swap_bytes, host_bytes, host_value, mirror, be_bytes, be_value.
  pose proof (bytes_reverse l Hl) as Hr. destruct big_endian.
  - rewrite <- (length_reverse l), !le_bytes_value by done. apply reverse_involutive.
  - rewrite le_bytes_value by done. rewrite <- (length_reverse l). by apply le_bytes_value.
Qed.

(** Read by the host, the mirrored bytes are the value in network byte order. *)
Lemma host_value_mirror l : host_value (mirror l) = be_value l.
Proof. unfold host_value, mirror, be_value. by destruct big_endian. Qed.

Lemma ntohl_value l : bytes l → length l = 4%nat → ntohl (host_value l) = be_value l.
Proof.
  intros Hl Hn. pose proof (swap_bytes_mirror l Hl) as Hs. rewrite Hn in Hs. unfold ntohl.
  rewrite <- host_value_mirror, <- Hs, host_value_bytes; [done|].
  unfold swap_bytes, host_value, be_value. pose proof (bytes_reverse l Hl) as Hr.
  destruct big_endian.
  - rewrite <- Hn, <- (length_reverse l), le_bytes_value by done. by apply le_value_bound.
  - rewrite <- Hn at 1 2. rewrite le_bytes_value by done. rewrite <- Hn, <- (length_reverse l). by apply le_value_bound.
Qed.

(** ** Mirroring a block of a buffer *)

Definition flip (n : nat) p off : list Z :=
  take off p ++ mirror (take n (drop off p)) ++ drop (off + n) p.

Lemma flip_length n p off : (off + n <= length p)%nat → length (flip n p off) = length p.
Proof.
  intros Hl. unfold flip. rewrite !length_app, mirror_length, length_drop, length_take, length_take, length_drop. lia.
Qed.

Lemma flip_bytes n p off : bytes p → bytes (flip n p off).
Proof.
  intros Hp. unfold flip, mirror. apply Forall_app. split; [by apply Forall_take|].
  apply Forall_app. split; [|by apply Forall_drop].
  destruct big_endian; [|apply bytes_reverse]; by apply Forall_take, Forall_drop.
Qed.

(** Where the byte at [i] comes from. *)
Definition source (n off i : nat) : nat :=
  if decide (off <= i < off + n)%nat then (if big_endian then i else 2 * off + n - 1 - i)%nat else i.

Lemma flip_lookup n p off i :
  (off + n <= length p)%nat → flip n p off !! i = p !! source n off i.
Proof.
  intros Hl. unfold flip, source.
  assert (length (take off p) = off) as Ht by (rewrite length_take; lia).
  assert (length (mirror (take n (drop off p))) = n) as Hm.
  { rewrite mirror_length, length_take, length_drop. lia. }
  destruct (decide (i < off)%nat).
  { rewrite decide_False by lia. rewrite lookup_app_l by lia. apply lookup_take_lt. lia. }
  rewrite lookup_app_r by lia. rewrite Ht. destruct (decide (i < off + n)%nat) as [Hi|Hi].
  - rewrite decide_True by lia. rewrite lookup_app_l by lia. unfold mirror in *. destruct big_endian.
    + rewrite lookup_take_lt, lookup_drop by lia. f_equal. lia.
    + rewrite reverse_lookup by (rewrite length_take, length_drop; lia). rewrite length_take, length_drop.
      rewrite lookup_take_lt, lookup_drop by lia. f_equal. lia.
  - rewrite decide_False by lia. rewrite lookup_app_r by lia. rewrite Hm, lookup_drop. f_equal. lia.
Qed.

Lemma source_in n off i : (off <= i < off + n)%nat → (off <= source n off i < off + n)%nat.
Proof. intros Hi. unfold source. rewrite decide_True by done. destruct big_endian; lia. Qed.
Lemma source_out n off i : ¬ (off <= i < off + n)%nat → source n off i = i.
Proof. intros Hi. unfold source. by rewrite decide_False. Qed.
Lemma source_twice n off i : source n off (source n off i) = i.
Proof.
  destruct (decide (off <= i < off + n)%nat) as [Hi|Hi].
  - pose proof (source_in n off i Hi). unfold source in *. rewrite !decide_True in * by lia.
    destruct big_endian; lia.
  - by rewrite !source_out; rewrite ?source_out.
Qed.

Lemma flip_twice n p off : (off + n <= length p)%nat → flip n (flip n p off) off = p.
Proof.
  intros Hl. apply list_eq. intros i. rewrite flip_lookup by by rewrite flip_length.
  rewrite flip_lookup by done. by rewrite source_twice.
Qed.

(** Blocks that do not overlap can be mirrored in any order. *)
Lemma flip_comm n m p off off' :
  (off + n <= length p)%nat → (off' + m <= length p)%nat → (off + n <= off' ∨ off' + m <= off)%nat →
  flip n (flip m p off') off = flip m (flip n p off) off'.
Proof.
  intros H1 H2 Hd. apply list_eq. intros i. rewrite !flip_lookup by (rewrite ?flip_length; done). f_equal.
  destruct (decide (off <= i < off + n)%nat) as [Hi|Hi], (decide (off' <= i < off' + m)%nat) as [Hj|Hj]; [lia| | |].
  - pose proof (source_in n off i Hi). rewrite !(source_out m) by lia. done.
  - pose proof (source_in m off' i Hj). rewrite !(source_out n) by lia. done.
  - by rewrite (source_out n off i), (source_out m off' i), !source_out by done.
Qed.

(** ** Reading *)

Lemma slice_some p off n : (off + n <= length p)%nat → slice p off n = Some (take n (drop off p)).
Proof. intros Hl. unfold slice. by rewrite decide_True. Qed.

Lemma slice_length p off n l : slice p off n = Some l → length l = n.
Proof.
  unfold slice. case_decide; [|done]. intros [= <-]. rewrite length_take, length_drop. lia.
Qed.

Lemma slice_bytes p off n l : bytes p → slice p off n = Some l → bytes l.
Proof.
  intros Hp. unfold slice. case_decide; [|done]. intros [= <-]. by apply Forall_take, Forall_drop.
Qed.

(** A slice depends only on the bytes it covers. *)
Lemma slice_same p q off n :
  length p = length q → (∀ i, (off <= i < off + n)%nat → p !! i = q !! i) → slice p off n = slice q off n.
Proof.
  intros Hl Hi. unfold slice. rewrite Hl. case_decide; [|done]. f_equal. apply list_eq. intros i.
  destruct (decide (i < n)%nat).
  - rewrite !lookup_take_lt, !lookup_drop by done. apply Hi. lia.
  - rewrite !lookup_take_ge by lia. done.
Qed.

(** ** Converting a member *)

Lemma put_flip n p off (l : list Z) :
  (off + n <= length p)%nat → l = mirror (take n (drop off p)) → write p off l = Some (flip n p off).
Proof.
  intros Hl ->. unfold write, flip.
  assert (length (mirror (take n (drop off p))) = n) as ->.
  { rewrite mirror_length, length_take, length_drop. lia. }
  by rewrite decide_True.
Qed.

Lemma convert32_spec tbo p off :
  bytes p → (off + 4 <= length p)%nat → convert32 tbo p off = Some (flip 4 p off).
Proof.
  intros Hp Hl. unfold convert32, get32, put32. rewrite slice_some by done. cbn [mbind option_bind].
  apply put_flip; [done|]. assert (length (take 4 (drop off p)) = 4%nat) as Hn.
  { rewrite length_take, length_drop. lia. }
  rewrite <- swap_bytes_mirror by by apply Forall_take, Forall_drop. rewrite Hn. by destruct tbo.
Qed.

Lemma convert16_spec tbo p off :
  bytes p → (off + 2 <= length p)%nat → convert16 tbo p off = Some (flip 2 p off).
Proof.
  intros Hp Hl. unfold convert16, get16, put16. rewrite slice_some by done. cbn [mbind option_bind].
  apply put_flip; [done|]. assert (length (take 2 (drop off p)) = 2%nat) as Hn.
  { rewrite length_take, length_drop. lia. }
  rewrite <- swap_bytes_mirror by by apply Forall_take, Forall_drop. rewrite Hn. by destruct tbo.
Qed.

(** ** Mirroring several blocks of four bytes *)

Definition flips (offs : list nat) p : list Z := foldl (flip 4) p offs.

Definition apart (off off' : nat) : Prop := (off + 4 <= off' ∨ off' + 4 <= off)%nat.
#[global] Instance apart_dec off off' : Decision (apart off off').
Proof. unfold apart. apply _. Defined.
Definition fits (offs : list nat) (n : nat) : Prop :=
  StronglySorted apart offs ∧ Forall (λ off, off + 4 <= n)%nat offs.

#[global] Instance fits_dec offs n : Decision (fits offs n).
Proof. unfold fits. apply _. Defined.

Lemma flips_length offs p n : fits offs n → (n <= length p)%nat → length (flips offs p) = length p.
Proof.
  intros [_ Hf] Hn. revert p Hn. induction Hf as [|off offs Ho Hf IH]; intros p Hn; [done|]. simpl.
  rewrite IH; rewrite flip_length; lia.
Qed.

Lemma flips_bytes offs p : bytes p → bytes (flips offs p).
Proof. revert p. induction offs as [|off offs IH]; intros p Hp; [done|]. by apply IH, flip_bytes. Qed.

Lemma fits_tail off offs n : fits (off :: offs) n → fits offs n.
Proof. intros [[_ Hs]%StronglySorted_cons Hf]. by apply Forall_cons in Hf as [_ Hf]. Qed.

(** A block that is apart from all others can be mirrored last. *)
Lemma flips_comm off offs p n :
  fits (off :: offs) n → (n <= length p)%nat → flips offs (flip 4 p off) = flip 4 (flips offs p) off.
Proof.
  intros [[Ha _]%StronglySorted_cons Hf] Hn. apply Forall_cons in Hf as [Ho Hf].
  revert p Hn. induction offs as [|off' offs IH]; intros p Hn; [done|]. simpl.
  apply Forall_cons in Ha as [Ha Has]. apply Forall_cons in Hf as [Ho' Hf].
  rewrite <- (flip_comm 4 4 p off off') by (lia || (unfold apart in Ha; lia)).
  apply IH; try done. rewrite flip_length; lia.
Qed.

Lemma flips_twice offs p n : fits offs n → (n <= length p)%nat → flips offs (flips offs p) = p.
Proof.
  revert p. induction offs as [|off offs IH]; intros p Hf Hn; [done|]. pose proof (fits_tail _ _ _ Hf) as Hf'.
  assert (off + 4 <= n)%nat by (destruct Hf as [_ Hf]; by apply Forall_cons in Hf as [? _]).
  simpl. rewrite (flips_comm off offs p n) by done. rewrite flip_twice.
  - by apply IH.
  - rewrite (flips_length offs p n) by done. lia.
Qed.

(** A byte that no block covers stays. *)
Lemma flips_out offs p n i :
  fits offs n → (n <= length p)%nat → Forall (λ off, ¬ (off <= i < off + 4)%nat) offs →
  flips offs p !! i = p !! i.
Proof.
  intros [_ Hf] Hn Ho. revert p Hn. induction offs as [|off offs IH]; intros p Hn; [done|]. simpl.
  apply Forall_cons in Hf as [Hf1 Hf]. apply Forall_cons in Ho as [Ho1 Ho].
  rewrite IH; try done; [|rewrite flip_length; lia]. rewrite flip_lookup by lia. by rewrite source_out.
Qed.

(** A block is read as the number it is in network byte order. *)
Lemma flips_get32 offs p n off l :
  fits offs n → (n <= length p)%nat → off ∈ offs → slice p off 4 = Some l →
  slice (flips offs p) off 4 = Some (mirror l).
Proof.
  revert p. induction offs as [|o offs IH]; intros p Hf Hn Hin Hl; [by apply elem_of_nil in Hin|].
  pose proof (fits_tail _ _ _ Hf) as Hf'. pose proof Hf as [[Ha _]%StronglySorted_cons Hfl].
  apply Forall_cons in Hfl as [Ho _]. simpl. destruct (decide (o = off)) as [->|Hne].
  - rewrite (slice_same _ (flip 4 p off)).
    + unfold slice in Hl. rewrite decide_True in Hl by lia. injection Hl as <-.
      rewrite slice_some by (rewrite flip_length; lia). unfold flip. f_equal.
      rewrite drop_app_length' by (rewrite length_take; lia). apply take_app_length'.
      rewrite mirror_length, length_take, length_drop. lia.
    + rewrite (flips_length offs _ n); [done..|]. rewrite flip_length; lia.
    + intros i Hi. apply (flips_out offs _ n); [done|rewrite flip_length; lia|].
      eapply Forall_impl; [exact Ha|]. unfold apart. intros. simpl in *. lia.
  - apply elem_of_cons in Hin as [|Hin]; [congruence|]. apply IH; try done; [rewrite flip_length; lia|].
    rewrite <- Hl. apply slice_same; [rewrite flip_length; lia|]. intros i Hi. rewrite flip_lookup by lia.
    rewrite Forall_forall in Ha. specialize (Ha off Hin). unfold apart in Ha. rewrite source_out; [done|lia].
Qed.

Lemma convert32s_spec tbo p off n :
  bytes p → (off + 4 * n <= length p)%nat →
  convert32s tbo p off n = Some (flips ((λ k, off + 4 * k)%nat <$> seq 0 n) p).
Proof.
  revert p off. induction n as [|n IH]; intros p off Hp Hl; [done|]. cbn [convert32s seq].
  rewrite convert32_spec by (done || lia). cbn [mbind option_bind].
  rewrite IH by (by apply flip_bytes || (rewrite flip_length; lia)). f_equal. simpl.
  replace (off + 0)%nat with off by lia. f_equal. rewrite <- (fmap_S_seq 0 n), <- list_fmap_compose.
  apply list_fmap_ext. intros i k _. simpl. lia.
Qed.

(** ** Converting the footer *)

Lemma flips_length' offs p n :
  Forall (λ off, off + 4 <= n)%nat offs → (n <= length p)%nat → length (flips offs p) = length p.
Proof.
  intros Hf. revert p. induction Hf as [|off offs Ho Hf IH]; intros p Hn; [done|]. simpl.
  rewrite IH; rewrite flip_length; lia.
Qed.

Lemma convert_next tbo p offs off n :
  bytes p → (n <= length p)%nat → Forall (λ off, off + 4 <= n)%nat offs → (off + 4 <= n)%nat →
  convert32 tbo (flips offs p) off = Some (flips (offs ++ [off]) p).
Proof.
  intros Hp Hn Hf Ho. rewrite convert32_spec.
  - unfold flips. by rewrite foldl_app.
  - by apply flips_bytes.
  - rewrite (flips_length' offs p n) by done. lia.
Qed.

Lemma convert_first tbo p off n :
  bytes p → (n <= length p)%nat → (off + 4 <= n)%nat → convert32 tbo p off = Some (flips [off] p).
Proof. intros. apply convert32_spec; [done|lia]. Qed.

(** The header is not part of the footer. *)
Lemma header_same offs p n off k :
  fits offs n → (n <= length p)%nat → Forall (λ o, 8 <= o)%nat offs → (off + k <= 8)%nat →
  slice (flips offs p) off k = slice p off k.
Proof.
  intros Hf Hn H8 Hk. apply slice_same; [by eapply flips_length|]. intros i Hi.
  eapply flips_out; [done..|]. eapply Forall_impl; [exact H8|]. simpl. intros. lia.
Qed.

(** The blocks [offs] are the footer of a PDU: what the conversion to host byte order
    mirrors, and what the conversion to network byte order mirrors back. *)
Definition footer p (offs : list nat) (n : nat) : Prop :=
  fits offs n ∧ Forall (λ o, 8 <= o)%nat offs ∧
  rtr_pdu_footer_to_host_byte_order p = Some (flips offs p) ∧
  rtr_pdu_footer_to_network_byte_order (flips offs p) = Some p.

Lemma get8_type p t : rtr_get_pdu_type p = Some t → (2 <= length p)%nat.
Proof. unfold rtr_get_pdu_type, get8, slice. case_decide; [lia|done]. Qed.

Lemma type_same offs p n :
  fits offs n → (n <= length p)%nat → Forall (λ o, 8 <= o)%nat offs →
  rtr_get_pdu_type (flips offs p) = rtr_get_pdu_type p.
Proof. intros. unfold rtr_get_pdu_type, get8. by rewrite (header_same offs p n) by (done || lia). Qed.
Lemma ver_same offs p n :
  fits offs n → (n <= length p)%nat → Forall (λ o, 8 <= o)%nat offs →
  get8 (flips offs p) 0 = get8 p 0.
Proof. intros. unfold get8. by rewrite (header_same offs p n) by (done || lia). Qed.
Lemma len_same offs p n :
  fits offs n → (n <= length p)%nat → Forall (λ o, 8 <= o)%nat offs →
  get32 (flips offs p) 4 = get32 p 4.
Proof. intros. unfold get32. by rewrite (header_same offs p n) by (done || lia). Qed.

(** A footer whose blocks are converted one after the other, the same way in both
    directions. *)
Lemma footer_plain p offs n (conv : target_byte_order → buffer → option buffer) :
  bytes p → (n <= length p)%nat → fits offs n → Forall (λ o, 8 <= o)%nat offs →
  (∀ tbo q, rtr_get_pdu_type q = rtr_get_pdu_type p → get8 q 0 = get8 p 0 → get32 q 4 = get32 p 4 →
     rtr_pdu_convert_footer_byte_order q tbo = conv tbo q) →
  (∀ tbo q, bytes q → length q = length p → get32 q 4 = get32 p 4 → conv tbo q = Some (flips offs q)) →
  footer p offs n.
Proof.
  intros Hp Hn Hf H8 Hconv Hflips. split_and!; try done; try apply Hf.
  - unfold rtr_pdu_footer_to_host_byte_order. rewrite Hconv by done. by apply Hflips.
  - unfold rtr_pdu_footer_to_network_byte_order.
    rewrite Hconv by (by eapply type_same || by eapply ver_same || by eapply len_same).
    rewrite Hflips by (by apply flips_bytes || by eapply flips_length || by eapply len_same).
    f_equal. by eapply flips_twice.
Qed.

End PduProofs.

(** The side conditions for constant blocks. *)
Ltac blocks := first [decided|lia].
Ltac conversions n :=
  intros; first
    [done
    |rewrite (convert_first _ _ _ n) by (done || lia); cbn [mbind option_bind app];
     repeat (rewrite (convert_next _ _ _ _ n) by (done || blocks); cbn [mbind option_bind app]); done].
