(* ===== verification/PduTheorems.v ===== *)
(** * PDUs: the conversion of each type, and its inverse *)

From S2P Require Import Prelude Pdu PduProofs.

Section Theorems.
Context `{Host}.
Implicit Types (p : list Z).

Lemma get32_bound p off v : bytes p → get32 p off = Some v → 0 <= v < 2 ^ 32.
Proof.
  intros Hp. unfold get32. destruct (slice p off 4) as [l|] eqn:Hl; [|done]. intros [= <-].
  pose proof (slice_length _ _ _ _ Hl) as Hn. pose proof (slice_bytes _ _ _ _ Hp Hl) as Hb.
  unfold host_value, be_value. destruct big_endian.
  - pose proof (le_value_bound (reverse l) (bytes_reverse l Hb)) as Hv. rewrite length_reverse, Hn in Hv. done.
  - pose proof (le_value_bound l Hb) as Hv. by rewrite Hn in Hv.
Qed.

(** ** The footer, type by type *)

Lemma footer_aspa p n k :
  bytes p → (n <= length p)%nat → rtr_get_pdu_type p = Some ASPA →
  get32 p 4 = Some (Z.of_nat n) → (n = 12 + 4 * k + n mod 4)%nat → Z.of_nat n <= 65535 →
  footer p (8 :: ((λ i, 12 + 4 * i)%nat <$> seq 0 k))%nat n.
Proof.
  intros Hp Hn Ht Hlen Hk Hmax.
  apply (footer_plain p _ n (λ tbo q, q ← convert32 tbo q 8; c ← rtr_aspa_provider_count q;
    convert32s tbo q 12 (Z.to_nat (u16 c)))); try done.
  - split.
    + apply StronglySorted_cons. split.
      * apply Forall_fmap, Forall_forall. intros i _. unfold apart. simpl. lia.
      * cut (∀ j, StronglySorted apart ((λ i, 12 + 4 * i)%nat <$> seq j k)); [auto|]. clear.
        induction k as [|k IH]; intros j; simpl; [constructor|]. apply StronglySorted_cons. split; [|apply IH].
        apply Forall_fmap, Forall_forall. intros i Hi%elem_of_seq. unfold apart. simpl. lia.
    + constructor; [lia|]. apply Forall_fmap, Forall_forall. intros i Hi%elem_of_seq. simpl. lia.
  - constructor; [lia|]. apply Forall_fmap, Forall_forall. intros i _. simpl. lia.
  - intros tbo q Hq _ _. unfold rtr_pdu_convert_footer_byte_order. rewrite Hq, Ht. done.
  - intros tbo q Hq Hl Hq4. rewrite convert32_spec by (done || lia). cbn [mbind option_bind].
    assert (get32 (flip 4 q 8) 4 = Some (Z.of_nat n)) as Hg.
    { change (flip 4 q 8) with (flips [8%nat] q). rewrite (len_same _ _ 12); [congruence|blocks|lia|blocks]. }
    unfold rtr_aspa_provider_count. rewrite Hg. cbn [mbind option_bind].
    assert ((Z.of_nat n - sizeof_aspa) mod 2 ^ 64 / 4 = Z.of_nat k) as ->.
    { unfold sizeof_aspa. rewrite Z.mod_small by lia. symmetry. pose proof (Nat.mod_upper_bound n 4).
      apply (Z.div_unique _ _ _ (Z.of_nat (n mod 4))); lia. }
    unfold u16. rewrite Z.mod_small by lia. rewrite Nat2Z.id.
    rewrite convert32s_spec; [done|by apply flip_bytes|]. rewrite flip_length; lia.
Qed.

Lemma footer_error p n l :
  bytes p → (n <= length p)%nat → rtr_get_pdu_type p = Some ERROR →
  slice p 8 4 = Some l → (12 + Z.to_nat (be_value l) + 4 <= n)%nat →
  footer p [8; 12 + Z.to_nat (be_value l)]%nat n.
Proof.
  intros Hp Hn Ht Hl Henc. set (e := (12 + Z.to_nat (be_value l))%nat) in *.
  assert (12 <= e)%nat by (unfold e; lia).
  assert (fits [8; e]%nat n) as Hf.
  { split; [|apply Forall_cons; split; [lia|apply Forall_cons; split; [lia|constructor]]].
    apply StronglySorted_cons. split; [|apply StronglySorted_cons; split; constructor].
    apply Forall_singleton. unfold apart. lia. }
  assert (Forall (λ o, 8 <= o)%nat [8; e]%nat) as H8 
    by (apply Forall_cons; split; [lia|apply Forall_singleton; lia]).
  split_and!; try done; try apply Hf.
  - unfold rtr_pdu_footer_to_host_byte_order, rtr_pdu_convert_footer_byte_order. rewrite Ht. cbn [mbind option_bind].
    rewrite convert32_spec by (done || lia). cbn [mbind option_bind].
    assert (get32 (flip 4 p 8) 8 = Some (be_value l)) as ->.
    { unfold get32. change (flip 4 p 8) with (flips [8%nat] p).
      rewrite (flips_get32 _ _ 12 _ l) by (blocks || lia || done || left). cbn [mbind option_bind].
      by rewrite host_value_mirror. }
    cbn [mbind option_bind]. rewrite convert32_spec; [done|by apply flip_bytes|]. rewrite flip_length; lia.
  - set (q := flips [8; e]%nat p).
    assert (length q = length p) as Hq by by eapply flips_length.
    assert (bytes q) as Hqb by by apply flips_bytes.
    unfold rtr_pdu_footer_to_network_byte_order, rtr_pdu_convert_footer_byte_order.
    unfold q. rewrite (type_same _ _ n) by done. rewrite Ht. cbn [mbind option_bind]. fold q.
    assert (get32 q 8 = Some (be_value l)) as ->.
    { unfold get32, q. rewrite (flips_get32 _ _ n _ l) by (done || left). cbn [mbind option_bind].
      by rewrite host_value_mirror. }
    cbn [mbind option_bind]. fold e. rewrite convert32_spec by (done || lia). cbn [mbind option_bind].
    rewrite convert32_spec; [|by apply flip_bytes|rewrite flip_length; lia]. f_equal.
    transitivity (flips [8; e]%nat q); [|by eapply flips_twice]. simpl.
    apply flip_comm; lia.
Qed.

Lemma footer_none p t :
  bytes p → (8 <= length p)%nat → rtr_get_pdu_type p = Some t →
  (t = RESET_QUERY ∨ t = CACHE_RESPONSE ∨ t = CACHE_RESET) → footer p [] 8.
Proof.
  intros Hp Hn Ht Hcase. apply (footer_plain _ [] 8 (λ _ q, Some q)); [done|done|decided|decided| |done].
  intros tbo q Hq _ _. unfold rtr_pdu_convert_footer_byte_order. rewrite Hq, Ht. by destruct Hcase as [-> |[-> | ->]].
Qed.

(** The blocks of the footer of a PDU of [n] bytes. *)
Definition footer_offs p (t : pdu_type) (n : nat) : list nat :=
  match t with
  | SERIAL_NOTIFY | SERIAL_QUERY => [8]
  | IPV4_PREFIX => [12; 16]
  | IPV6_PREFIX => [12; 16; 20; 24; 28]
  | EOD => if decide (n = 24) then [20; 12; 16; 8] else [8]
  | ROUTER_KEY => [28]
  | ERROR => [8; 12 + Z.to_nat (be_value (take 4 (drop 8 p)))]
  | ASPA => 8 :: ((λ i, 12 + 4 * i) <$> seq 0 ((n - 12) / 4))
  | _ => []
  end%nat.

Ltac plain offs n conv :=
  change (footer_offs _ _ _) with offs; apply (footer_plain _ offs n conv); try done;
  [blocks|blocks|intros ? q Hq ? ?; unfold rtr_pdu_convert_footer_byte_order; rewrite Hq|intros; conversions n].

(** A PDU that passes the size check has a footer within its length. *)
Lemma check_size_footer p len t :
  bytes p → get32 p 4 = Some len → (Z.to_nat len <= length p)%nat → len <= 65535 →
  rtr_get_pdu_type p = Some t → rtr_pdu_check_size p = Some true →
  footer p (footer_offs p t (Z.to_nat len)) (Z.to_nat len).
Proof.
  intros Hp Hlen Hl Hmax Ht. pose proof (get32_bound _ _ _ Hp Hlen) as Hb.
  unfold rtr_pdu_check_size. rewrite Ht, Hlen. cbn [mbind option_bind].
  unfold sizeof_serial, sizeof_header, sizeof_ipv4, sizeof_ipv6, sizeof_router_key, sizeof_eod_v0,
    sizeof_eod_v1_v2.
  destruct t; intros Hc; try (apply (inj Some) in Hc; try discriminate Hc).
  - apply Z.eqb_eq in Hc as <-. change (Z.to_nat 12) with 12%nat in *.
    plain [8]%nat 12%nat (λ tbo q, convert32 tbo q 8). by rewrite Ht.
  - apply Z.eqb_eq in Hc as <-. change (Z.to_nat 12) with 12%nat in *.
    plain [8]%nat 12%nat (λ tbo q, convert32 tbo q 8). by rewrite Ht.
  - apply Z.eqb_eq in Hc as <-. change (Z.to_nat 8) with 8%nat in *.
    eapply footer_none; [done..|]. tauto.
  - apply Z.eqb_eq in Hc as <-. change (Z.to_nat 8) with 8%nat in *.
    eapply footer_none; [done..|]. tauto.
  - apply Z.eqb_eq in Hc as <-. change (Z.to_nat 20) with 20%nat in *.
    plain [12; 16]%nat 20%nat (λ tbo q, q ← convert32 tbo q 12; convert32 tbo q 16). by rewrite Ht.
  - apply Z.eqb_eq in Hc as <-. change (Z.to_nat 32) with 32%nat in *.
    change (footer_offs p IPV6_PREFIX 32) with [12; 16; 20; 24; 28]%nat.
    apply (footer_plain _ _ 32 (λ tbo q, q ← convert32s tbo q 12 4; convert32 tbo q 28)); try done; [blocks|blocks| |].
    { intros ? q Hq ? ?. unfold rtr_pdu_convert_footer_byte_order. by rewrite Hq, Ht. }
    intros tbo q Hq Hlq _. rewrite convert32s_spec by (done || lia). cbn [mbind option_bind].
    by rewrite (convert_next _ _ _ _ 32) by (done || lia || blocks).
  - destruct (get8 p 0) as [v|] eqn:Hv; [|done]. cbn [mbind option_bind] in Hc. apply (inj Some) in Hc.
    apply orb_true_iff in Hc as [[Hv0%Z.eqb_eq <-%Z.eqb_eq]%andb_true_iff|[Hv12 <-%Z.eqb_eq]%andb_true_iff].
    + change (Z.to_nat 12) with 12%nat in *. subst v.
      plain [8]%nat 12%nat (λ tbo q, convert32 tbo q 8). rewrite Ht. cbn [mbind option_bind].
      match goal with Hq0 : get8 q 0 = _ |- _ => rewrite Hq0, Hv end. done.
    + change (Z.to_nat 24) with 24%nat in *.
      plain [20; 12; 16; 8]%nat 24%nat (λ tbo q, q ← convert32 tbo q 20; q ← convert32 tbo q 12;
        q ← convert32 tbo q 16; convert32 tbo q 8). rewrite Ht. cbn [mbind option_bind].
      match goal with Hq0 : get8 q 0 = _ |- _ => rewrite Hq0, Hv end. cbn [mbind option_bind]. by rewrite Hv12.
  - apply Z.eqb_eq in Hc as <-. change (Z.to_nat 8) with 8%nat in *.
    eapply footer_none; [done..|]. tauto.
  - apply Z.eqb_eq in Hc as <-. change (Z.to_nat 123) with 123%nat in *.
    plain [28]%nat 123%nat (λ tbo q, convert32 tbo q 28). by rewrite Ht.
  - unfold sizeof_error in Hc. destruct (Z.ltb_spec len (4 + 12)); [done|].
    destruct (get32 p 8) as [enc|] eqn:Henc; [|done]. cbn [mbind option_bind] in Hc. unfold get32 in Henc.
    destruct (slice p 8 4) as [l|] eqn:Hs; [|done]. injection Henc as <-.
    rewrite ntohl_value in Hc by (by eapply slice_bytes || by eapply slice_length).
    destruct (Z.ltb_spec len (4 + 12 + be_value l)); [done|].
    assert (footer_offs p ERROR (Z.to_nat len) = [8; 12 + Z.to_nat (be_value l)]%nat) as ->.
    { unfold slice in Hs. destruct (decide _) in Hs; [|done]. by injection Hs as <-. }
    eapply footer_error; try done.
    assert (0 <= be_value l); [|lia]. unfold be_value.
    pose proof (le_value_bound (reverse l) (bytes_reverse l (slice_bytes _ _ _ _ Hp Hs))). lia.
  - unfold sizeof_aspa in Hc. destruct (Z.ltb_spec len 12) as [|Hge]; [done|].
    set (n := Z.to_nat len). apply footer_aspa; try done; try (unfold n; lia).
    + rewrite Hlen. f_equal. unfold n. lia.
    + assert (12 <= n)%nat by (unfold n; lia). clearbody n.
      pose proof (Nat.div_mod_eq (n - 12) 4) as Hd. pose proof (Nat.div_mod_eq n 4) as Hd'.
      replace n with ((n - 12) + 3 * 4)%nat at 3 by lia. rewrite Nat.Div0.mod_add. lia.
Qed.

Lemma check_size_header p len :
  rtr_pdu_check_size p = Some true → get32 p 4 = Some len → (8 <= Z.to_nat len)%nat.
Proof.
  unfold rtr_pdu_check_size. destruct (rtr_get_pdu_type p) as [t|]; [|done]. intros Hc Hlen.
  rewrite Hlen in Hc. cbn [mbind option_bind] in Hc.
  unfold sizeof_serial, sizeof_header, sizeof_ipv4, sizeof_ipv6, sizeof_router_key, sizeof_eod_v0,
    sizeof_eod_v1_v2, sizeof_error, sizeof_aspa in Hc.
  destruct t; try (apply (inj Some) in Hc; try discriminate Hc); try (apply Z.eqb_eq in Hc; lia).
  - destruct (get8 p 0) as [v|]; [|done]. cbn [mbind option_bind] in Hc. apply (inj Some) in Hc.
    apply orb_true_iff in Hc as [[_ ?%Z.eqb_eq]%andb_true_iff|[_ ?%Z.eqb_eq]%andb_true_iff]; lia.
  - destruct (Z.ltb_spec len (4 + 12)); [done|lia].
  - destruct (Z.ltb_spec len 12); [done|lia].
Qed.

(** ** The header *)

(** The blocks of the header that are mirrored. *)
Definition header_flip (t : pdu_type) p : list Z :=
  let p := if bool_decide (t ≠ ROUTER_KEY) && bool_decide (t ≠ ASPA) then flip 2 p 2 else p in
  flip 4 p 4.

Lemma convert_header_spec tbo p t :
  bytes p → (8 <= length p)%nat → rtr_get_pdu_type p = Some t →
  rtr_pdu_convert_header_byte_order p tbo = Some (header_flip t p).
Proof.
  intros Hp Hl Ht. unfold rtr_pdu_convert_header_byte_order, header_flip. rewrite Ht. cbn [mbind option_bind].
  case_match.
  - rewrite convert16_spec by (done || lia). cbn [mbind option_bind].
    apply convert32_spec; [by apply flip_bytes|rewrite flip_length; lia].
  - cbn [mbind option_bind]. apply convert32_spec; [done|lia].
Qed.

Lemma header_flip_length t p : (8 <= length p)%nat → length (header_flip t p) = length p.
Proof. intros Hl. unfold header_flip. case_match; rewrite !flip_length; rewrite ?flip_length; lia. Qed.
Lemma header_flip_bytes t p : bytes p → bytes (header_flip t p).
Proof. intros Hp. unfold header_flip. case_match; repeat apply flip_bytes; done. Qed.

Lemma header_flip_twice t p : (8 <= length p)%nat → header_flip t (header_flip t p) = p.
Proof.
  intros Hl. unfold header_flip. case_match.
  - rewrite (flip_comm 2 4) by (rewrite ?flip_length; lia). rewrite (flip_twice 2) by lia. by rewrite flip_twice by lia.
  - rewrite flip_twice; [done|lia].
Qed.

Lemma header_flip_type t p :
  (8 <= length p)%nat → rtr_get_pdu_type (header_flip t p) = rtr_get_pdu_type p.
Proof.
  intros Hl. unfold rtr_get_pdu_type, get8. rewrite (slice_same _ p); [done|by apply header_flip_length|].
  intros i Hi. unfold header_flip. case_match; rewrite !flip_lookup by (rewrite ?flip_length; lia).
  - rewrite (source_out 4), source_out by lia. done.
  - by rewrite source_out by lia.
Qed.

Lemma header_flip_footer t p offs n :
  fits offs n → (n <= length p)%nat → (8 <= n)%nat → Forall (λ o, 8 <= o)%nat offs →
  header_flip t (flips offs p) = flips offs (header_flip t p).
Proof.
  intros Hf Hn H8 Ho. unfold header_flip.
  assert (∀ k off q, (off + k <= 8)%nat → length q = length p → flip k (flips offs q) off = flips offs (flip k q off)) as Hc.
  { intros k off q Hk Hq. destruct Hf as [_ Hf]. revert q Hq. clear -Hf Ho Hk Hn H8.
    induction offs as [|o offs IH]; intros q Hq; [done|]. simpl.
    apply Forall_cons in Hf as [Hf1 Hf]. apply Forall_cons in Ho as [Ho1 Ho].
    rewrite IH by (done || (rewrite flip_length; lia)). f_equal. apply flip_comm; lia. }
  case_match; [|by apply Hc].
  rewrite Hc by (done || lia). apply Hc; [lia|]. rewrite flip_length; lia.
Qed.

(** What the conversion to host byte order does to the bytes [b] of a PDU. *)
Definition host_order b (t : pdu_type) (len : Z) : list Z :=
  flips (footer_offs (header_flip t b) t (Z.to_nat len)) (header_flip t b).

Lemma host_order_spec b h len t :
  bytes b → (8 <= length b)%nat → rtr_get_pdu_type b = Some t →
  rtr_pdu_header_to_host_byte_order b = Some h →
  get32 h 4 = Some len → (Z.to_nat len <= length b)%nat → len <= RTR_MAX_PDU_LEN →
  rtr_pdu_check_size h = Some true →
  let p := host_order b t len in
  h = header_flip t b ∧ footer h (footer_offs h t (Z.to_nat len)) (Z.to_nat len) ∧
  rtr_pdu_footer_to_host_byte_order h = Some p ∧ rtr_pdu_to_network_byte_order p = Some b ∧
  length p = length b ∧ drop (Z.to_nat len) p = drop (Z.to_nat len) b ∧ bytes p.
Proof.
  intros Hb Hl Ht Hh Hlen Hll Hmax Hc p. unfold rtr_pdu_header_to_host_byte_order in Hh.
  rewrite (convert_header_spec _ _ t) in Hh by done. injection Hh as <-.
  assert (length (header_flip t b) = length b) as Hhl by by apply header_flip_length.
  assert (bytes (header_flip t b)) as Hhb by by apply header_flip_bytes.
  assert (rtr_get_pdu_type (header_flip t b) = Some t) as Ht' by by rewrite header_flip_type.
  destruct (check_size_footer _ len t Hhb Hlen) as (Hf & H8 & Hhost & Hnet); [lia|done..|].
  assert (8 <= Z.to_nat len)%nat as Hlen8 by by eapply check_size_header.
  assert (length p = length b) as Hpl.
  { unfold p, host_order. rewrite (flips_length _ _ (Z.to_nat len)) by (done || lia). done. }
  split; [done|]. split; [done|]. split; [done|]. split; [|split; [done|split]].
  - unfold rtr_pdu_to_network_byte_order, p, host_order. rewrite Hnet. cbn [mbind option_bind].
    unfold rtr_pdu_header_to_network_byte_order. rewrite (convert_header_spec _ _ t); [|done|lia|done].
    f_equal. by apply header_flip_twice.
  - apply list_eq. intros i. rewrite !lookup_drop. unfold p, host_order.
    rewrite (flips_out _ _ (Z.to_nat len)); [|done|lia|].
    + unfold header_flip. case_match; rewrite !flip_lookup by (rewrite ?flip_length; lia); by rewrite (source_out 4), ?(source_out 2) by lia.
    + destruct Hf as [_ Hf]. eapply Forall_impl; [exact Hf|]. simpl. intros. lia.
  - by apply flips_bytes.
Qed.

End Theorems.
