(* ===== verification/Transport.v ===== *)
(** * Transports: [rtrlib/transport/transport.c] and the clock

    A transport is a structure of function pointers; what its functions do is given
    by the [network] of the world.  Received data is a stream of segments that calls
    consume from the front; what is sent is an event.  The timeouts are arguments of
    the transport's functions only, and are left out (the clock is read). *)

From S2P Require Import Prelude.

Inductive tr_event := Opened (ok : bool) | Closed | Sent (bytes : list Z).

Definition set_net {E} (w : world E) (n : network) : world E := World (allocs w) (events w) n.

Section Transport.
Context {E : Type} `{!Event tr_event E}.
Implicit Types w : world E.

(** ** The clock: [rtr_get_monotonic_time] *)

(** [clock_gettime]: seconds and nanoseconds, or the value -1. *)
Definition clock_gettime : M E (option (Z * Z)) := λ w,
  match clock (net w) with
  | [] => Some (Some (0, 0), w)
  | t :: ts => Some (t, set_net w (Network (stream (net w)) (send_answers (net w)) (open_answers (net w)) ts))
  end.

(** [None]: -1 is returned, and the variable is left as it was. *)
Definition rtr_get_monotonic_time : M E (option Z) :=
  time ← clock_gettime;
  mret (match time with
        | None => None
        | Some (tv_sec, tv_nsec) =>
            Some (if 5 <=? tv_nsec * 1000000000 then tv_sec + 1 else tv_sec)
        end).

(** ** The functions of a transport *)

Definition tr_open : M E bool := λ w,
  let '(ok, answers) := match open_answers (net w) with [] => (true, []) | b :: bs => (b, bs) end in
  emit (event (Opened ok)) (set_net w (Network (stream (net w)) (send_answers (net w)) answers (clock (net w))))
  ≫= λ '(_, w), Some (ok, w).

Definition tr_close : M E unit := emit (event Closed).

(** At most [len] bytes; what is left of a segment stays in the stream. *)
Definition tr_recv (len : nat) : M E (tr_error + list Z) := λ w,
  let set s := set_net w (Network s (send_answers (net w)) (open_answers (net w)) (clock (net w))) in
  match stream (net w) with
  | [] => Some (inl TR_ERROR, w)
  | RecvFails e :: s => Some (inl e, set s)
  | Segment l :: s =>
      if Nat.leb (length l) len then Some (inr l, set s)
      else Some (inr (take len l), set (Segment (drop len l) :: s))
  end.

(** The number of bytes of [pdu] that were accepted. *)
Definition tr_send (pdu : list Z) : M E (tr_error + nat) := λ w,
  let set s := set_net w (Network (stream (net w)) s (open_answers (net w)) (clock (net w))) in
  match send_answers (net w) with
  | [] => emit (event (Sent pdu)) w ≫= λ '(_, w), Some (inr (length pdu), w)
  | SendFails e :: s => Some (inl e, set s)
  | Accepts n :: s =>
      emit (event (Sent (take n pdu))) (set s) ≫= λ '(_, w), Some (inr (Nat.min n (length pdu)), w)
  end.

End Transport.

(** ** Sending and receiving everything

    The loops call the transport through the pointers of its structure: [time] is the clock
    that is read before each call and gives the time that is left, [send_fp] and [recv_fp]
    return a negative value or what they did.  The result is [stuck] without fuel. *)

Section Loops.
Context {T : Type → Type} `{!MRet T, !MBind T} {Error Time : Type} (time : T Time).
Implicit Types fuel : nat.

(** The loop of [tr_send_all], with [rest] still to be sent. *)
Fixpoint send_loop (stuck : T (Error + nat)%type) (send_fp : list Z → Time → T (Error + nat)%type) fuel (rest : list Z) (total_send : nat)
  : T (Error + nat)%type :=
  match rest with
  | [] => mret (inr total_send)
  | _ =>
      match fuel with
      | O => stuck
      | S fuel =>
          left_time ← time;
          rtval ← send_fp rest left_time;
          match rtval with
          | inl e => mret (inl e)
          | inr n => send_loop stuck send_fp fuel (drop n rest) (total_send + n)
          end
      end
  end.

(** The loop of [tr_recv_all]: [buf] was received, [left] bytes are missing. *)
Fixpoint recv_loop (stuck : T (Error + list Z)%type) (recv_fp : nat → Time → T (Error + list Z)%type) fuel (buf : list Z) (left : nat)
  : T (Error + list Z)%type :=
  match left with
  | O => mret (inr buf)
  | _ =>
      match fuel with
      | O => stuck
      | S fuel =>
          left_time ← time;
          rtval ← recv_fp left left_time;
          match rtval with
          | inl e => mret (inl e)
          | inr l => recv_loop stuck recv_fp fuel (buf ++ l) (left - length l)
          end
      end
  end.
End Loops.

Abbreviation net_send_loop := (send_loop rtr_get_monotonic_time (of_option None) (λ pdu _, tr_send pdu)).
Abbreviation net_recv_loop := (recv_loop rtr_get_monotonic_time (of_option None) (λ len _, tr_recv len)).

Section SendRecvAll.
Context {E : Type} `{!Event tr_event E}.


Definition tr_send_all (pdu : list Z) : M E (tr_error + nat) := λ w,
  (rtr_get_monotonic_time;;
   net_send_loop (S (length (send_answers (net w)))) pdu 0%nat) w.

Definition tr_recv_all (len : nat) : M E (tr_error + list Z) := λ w,
  (rtr_get_monotonic_time;;
   net_recv_loop (S (length (stream (net w)))) [] len) w.
End SendRecvAll.
