(* ===== verification/TransportProofs.v ===== *)
(** * Transports: proofs

    Receiving and sending do not depend on how the network cuts the data. *)

From S2P Require Import Prelude Transport.

(** The bytes that can be received before a call fails, the failure, and what is
    left after it. *)
Fixpoint bytes_of (s : list incoming) : list Z :=
  match s with Segment l :: s => l ++ bytes_of s | _ => [] end.
Fixpoint failure_of (s : list incoming) : tr_error :=
  match s with [] => TR_ERROR | RecvFails e :: _ => e | Segment _ :: s => failure_of s end.
Fixpoint after_failure (s : list incoming) : list incoming :=
  match s with [] => [] | RecvFails _ :: s => s | Segment _ :: s => after_failure s end.

(** Two streams that differ only in how the bytes are cut into segments. *)
Definition same_stream (s s' : list incoming) : Prop :=
  bytes_of s = bytes_of s' ∧ failure_of s = failure_of s' ∧ after_failure s = after_failure s'.

#[global] Instance same_stream_equiv : Equivalence same_stream.
Proof.
  split; unfold same_stream; repeat intro; destruct_and?; by split_and!; etransitivity || congruence.
Qed.

(** A stream whose next bytes are [l]. *)
Definition delivers (s : list incoming) (l : list Z) (s' : list incoming) : Prop :=
  bytes_of s = l ++ bytes_of s' ∧ failure_of s' = failure_of s ∧ after_failure s' = after_failure s.

Lemma delivers_nil s : delivers s [] s.
Proof. done. Qed.
Lemma delivers_trans s l s' l' s'' : delivers s l s' → delivers s' l' s'' → delivers s (l ++ l') s''.
Proof.
  intros (Hb & Hf & Ha) (Hb' & Hf' & Ha'). split_and!; [|congruence..]. by rewrite Hb, Hb', app_assoc.
Qed.

#[global] Instance delivers_proper l : Proper (same_stream ==> same_stream ==> iff) (λ s s', delivers s l s').
Proof.
  intros s1 s2 (H1 & H2 & H3) s1' s2' (H1' & H2' & H3'). unfold delivers. split; intros (? & ? & ?); split_and!; congruence.
Qed.

Section TransportProofs.
Context {E : Type} `{!Event tr_event E}.
Implicit Types w : world E.

(** Only the clock is read. *)
Definition ticks w w' : Prop :=
  allocs w' = allocs w ∧ events w' = events w ∧ stream (net w') = stream (net w) ∧
  send_answers (net w') = send_answers (net w) ∧ open_answers (net w') = open_answers (net w) ∧
  clock (net w') `suffix_of` clock (net w).

(** The clock does not fail. *)
Definition clock_works w : Prop := Forall is_Some (clock (net w)).

Lemma clock_works_later w w' : clock (net w') `suffix_of` clock (net w) → clock_works w → clock_works w'.
Proof. intros [k Hk]. unfold clock_works. rewrite Hk. by intros [_ ?]%Forall_app. Qed.

(** What [rtr_get_monotonic_time] finds. *)
Definition reading w : option Z := match rtr_get_monotonic_time w with Some (t, _) => t | None => None end.

Lemma wp_time_reading Q w : (∀ w', ticks w w' → Q (reading w) w') → wp rtr_get_monotonic_time Q w.
Proof.
  intros HQ. unfold wp, reading in *. unfold rtr_get_monotonic_time, mbind, M_bind, mret, M_ret, clock_gettime in *.
  destruct (clock (net w)) as [|t ts] eqn:Hc; simpl in *; (eexists _, _; split; [done|]); apply HQ.
  - split_and!; done || by rewrite Hc.
  - split_and!; try done. simpl. rewrite Hc. by exists [t].
Qed.

Lemma reading_works w : clock_works w → is_Some (reading w).
Proof.
  unfold clock_works, reading, rtr_get_monotonic_time, mbind, M_bind, mret, M_ret, clock_gettime.
  destruct (clock (net w)) as [|t ts]; [by eexists|]. intros [[[sec nsec] ->] _]%Forall_cons. by eexists.
Qed.

Lemma wp_time_works Q w :
  (∀ t w', ticks w w' → (clock_works w → is_Some t) → Q t w') → wp rtr_get_monotonic_time Q w.
Proof. intros HQ. apply wp_time_reading. intros w' Hw. apply HQ; [done|apply reading_works]. Qed.

Lemma wp_time Q w : (∀ t w', ticks w w' → Q t w') → wp rtr_get_monotonic_time Q w.
Proof. intros HQ. apply wp_time_works. intros t w' Hw _. by apply HQ. Qed.

(** Receiving consumes the stream and touches nothing else but the clock. *)
Definition receives w (s : list incoming) w' : Prop :=
  allocs w' = allocs w ∧ events w' = events w ∧ stream (net w') = s ∧
  send_answers (net w') = send_answers (net w) ∧ open_answers (net w') = open_answers (net w) ∧
  clock (net w') `suffix_of` clock (net w).

Lemma recv_loop_spec fuel buf left w :
  (length (stream (net w)) < fuel)%nat →
  wp (net_recv_loop fuel buf left) (λ res w', ∃ s', receives w s' w' ∧
    if decide (left <= length (bytes_of (stream (net w))))%nat
    then res = inr (buf ++ take left (bytes_of (stream (net w)))) ∧
      delivers (stream (net w)) (take left (bytes_of (stream (net w)))) s'
    else res = inl (failure_of (stream (net w))) ∧ s' = after_failure (stream (net w))) w.
Proof.
  revert buf left w. induction fuel as [|fuel IH]; intros buf left w Hf; [lia|]. cbn [recv_loop].
  destruct left as [|left].
  { wp_step. exists (stream (net w)). split; [done|]. rewrite decide_True by lia. by rewrite app_nil_r. }
  wp_step. apply wp_time. intros ? w1 (Ha & He & Hs & Hsa & Ho & Hck). cbv beta. wp_step. rewrite <- Hs in *.
  unfold wp at 1, tr_recv. destruct (stream (net w1)) as [|[l|e] s] eqn:Hst.
  - eexists _, _. split; [done|]. cbv beta iota. wp_step. exists []. rewrite decide_False by (simpl; lia). by split_and!.
  - destruct (Nat.leb_spec (length l) (S left)) as [Hl|Hl].
    + eexists _, _. split; [done|]. cbv beta iota. eapply wp_mono; [apply IH; simpl in *; lia|].
      intros res w2 (s' & (? & ? & ? & ? & ? & Hck') & Hres). exists s'. simpl in *. split; [split_and!; [congruence..|by trans (clock (net w1))]|].
      rewrite length_app. case_decide as Hd.
      * rewrite decide_True by lia. destruct Hres as [-> Hdel]. rewrite <- app_assoc.
        rewrite take_app_ge by lia. split; [done|]. eapply delivers_trans; [|exact Hdel]. done.
      * rewrite decide_False by lia. done.
    + eexists _, _. split; [done|]. cbv beta iota.
      assert (length (take (S left) l) = S left) as -> by (rewrite length_take; lia).
      rewrite Nat.sub_diag. destruct fuel; cbn [recv_loop]; wp_step.
      all: exists (Segment (drop (S left) l) :: s); split; [done|]; simpl;
        rewrite decide_True by (rewrite length_app; lia); rewrite take_app_le by lia; split; [done|].
      all: split_and!; try done; simpl; by rewrite app_assoc, take_drop.
  - eexists _, _. split; [done|]. cbv beta iota. wp_step. exists s. rewrite decide_False by (simpl; lia). by split_and!.
Qed.

Lemma recv_all_spec len w :
  wp (tr_recv_all len) (λ res w', ∃ s', receives w s' w' ∧
    if decide (len <= length (bytes_of (stream (net w))))%nat
    then res = inr (take len (bytes_of (stream (net w)))) ∧
      delivers (stream (net w)) (take len (bytes_of (stream (net w)))) s'
    else res = inl (failure_of (stream (net w))) ∧ s' = after_failure (stream (net w))) w.
Proof.
  unfold wp, tr_recv_all. fold (wp (rtr_get_monotonic_time;;
    net_recv_loop (S (length (stream (net w)))) [] len)  (λ res w', ∃ s', receives w s' w' ∧
    if decide (len <= length (bytes_of (stream (net w))))%nat
    then res = inr (take len (bytes_of (stream (net w)))) ∧
      delivers (stream (net w)) (take len (bytes_of (stream (net w)))) s'
    else res = inl (failure_of (stream (net w))) ∧ s' = after_failure (stream (net w))) w).
  wp_step. apply wp_time. intros ? w1 (Ha & He & Hs & Hsa & Ho & Hck). cbv beta.
  eapply wp_mono; [apply recv_loop_spec; rewrite Hs; lia|]. intros res w' (s' & (? & ? & ? & ? & ? & Hck') & Hres).
  exists s'. rewrite Hs in Hres. split; [split_and!; [congruence..|by trans (clock (net w1))]|done].
Qed.

(** ** Sending *)

(** The bytes sent in a sequence of events. *)
Definition sent (l : list (list Z)) : list E := (λ b, event (Sent b)) <$> l.

(** Sending leaves the stream alone. *)
Definition sends w (l : list (list Z)) w' : Prop :=
  allocs w' = allocs w ∧ events w' = events w ++ sent l ∧ stream (net w') = stream (net w) ∧
  open_answers (net w') = open_answers (net w) ∧ clock (net w') `suffix_of` clock (net w).

Lemma sends_cons w w1 w2 l ls : sends w [l] w1 → sends w1 ls w2 → sends w (l :: ls) w2.
Proof.
  intros (Ha & He & Hs & Ho & Hc) (Ha' & He' & Hs' & Ho' & Hc').
  split_and!; [congruence| |congruence..|by trans (clock (net w1))]. rewrite He', He, <- app_assoc. done.
Qed.

Lemma send_loop_spec fuel rest total w :
  (length (send_answers (net w)) < fuel)%nat →
  wp (net_send_loop fuel rest total) (λ res w', ∃ ls tail, sends w ls w' ∧ rest = concat ls ++ tail ∧
    match res with
    | inr n => tail = [] ∧ n = (total + length rest)%nat
    | inl _ => tail ≠ []
    end) w.
Proof.
  revert rest total w. induction fuel as [|fuel IH]; intros rest total w Hf; [lia|].
  destruct rest as [|b rest]; cbn [send_loop].
  { wp_step. exists [], []. split; [|split; [done|split; [done|simpl; lia]]]. split_and!; try done. by rewrite app_nil_r. }
  set (r := b :: rest) in *. wp_step. apply wp_time. intros ? w1 (Ha & He & Hs & Hsa & Ho & Hck). cbv beta. wp_step.
  rewrite <- Hsa in Hf. unfold wp at 1, tr_send. destruct (send_answers (net w1)) as [|[n|e] s] eqn:Hst.
  - eexists _, _. split; [done|]. cbv beta iota. rewrite drop_all.
    assert (∀ k, net_send_loop k [] (total + length r) = mret (inr (total + length r)%nat)) as Hend by by intros [].
    rewrite Hend. wp_step. exists [r], []. rewrite app_nil_r. simpl. rewrite app_nil_r.
    split_and!; try done. simpl. by rewrite He.
  - eexists _, _. split; [done|]. cbv beta iota.
    set (w2 := World _ _ _). assert (sends w [take n r] w2) as Hw2.
    { unfold w2. split_and!; try done. simpl. by rewrite He. }
    assert (drop (n `min` length r) r = drop n r) as ->.
    { destruct (decide (n <= length r)%nat); [by rewrite Nat.min_l by lia|].
      rewrite Nat.min_r by lia. by rewrite !drop_ge by lia. }
    eapply wp_mono; [apply IH; simpl in *; lia|]. intros res w3 (ls & tail & Hw3 & Hr & Hres).
    exists (take n r :: ls), tail. split; [by eapply sends_cons|]. simpl. rewrite <- app_assoc, <- Hr, take_drop.
    split; [done|]. destruct res as [e|m]; [done|]. destruct Hres as [-> ->]. split; [done|].
    rewrite length_drop. unfold r. simpl length. lia.
  - eexists _, _. split; [done|]. cbv beta iota. wp_step. exists [], r. split; [|by split]. split_and!; try done. simpl. by rewrite He, app_nil_r.
Qed.

Lemma send_all_spec pdu w :
  wp (tr_send_all pdu) (λ res w', ∃ ls tail, sends w ls w' ∧ pdu = concat ls ++ tail ∧
    match res with
    | inr n => tail = [] ∧ n = length pdu
    | inl _ => tail ≠ []
    end) w.
Proof.
  cut (wp (rtr_get_monotonic_time;; net_send_loop (S (length (send_answers (net w)))) pdu 0)
    (λ res w', ∃ ls tail, sends w ls w' ∧ pdu = concat ls ++ tail ∧
      match res with inr n => tail = [] ∧ n = length pdu | inl _ => tail ≠ [] end) w); [done|].
  wp_step. apply wp_time. intros ? w1 (Ha & He & Hs & Hsa & Ho & Hck). cbv beta.
  eapply wp_mono; [apply send_loop_spec; rewrite Hsa; lia|]. intros res w' (ls & tail & (? & ? & ? & ? & Hck') & Hp & Hres).
  exists ls, tail. split; [split_and!; [congruence..|by trans (clock (net w1))]|]. by split.
Qed.

(** C21: [tr_recv_all] returns, and what it returns does not depend on how the network
    cuts the data: the next [len] bytes if there are as many before a call of the
    transport fails, else the error of that call (and then the bytes that had arrived
    are lost). Streams that differ in the cuts only are left differing in the cuts
    only. *)
Theorem recv_all_correct len w1 w2 :
  same_stream (stream (net w1)) (stream (net w2)) →
  ∃ res w1' w2',
    tr_recv_all len w1 = Some (res, w1') ∧ tr_recv_all len w2 = Some (res, w2') ∧
    same_stream (stream (net w1')) (stream (net w2')) ∧ events w1' = events w1 ∧
    let received := bytes_of (stream (net w1)) in
    if decide (len <= length received)%nat
    then res = inr (take len received) ∧ bytes_of (stream (net w1')) = drop len received
    else res = inl (failure_of (stream (net w1))) ∧ stream (net w1') = after_failure (stream (net w1)).
Proof.
  intros (Hb & Hf & Ha). destruct (recv_all_spec len w1) as (r1 & w1' & H1 & s1 & (_ & He & <- & _) & Hr1).
  destruct (recv_all_spec len w2) as (r2 & w2' & H2 & s2 & (_ & _ & <- & _) & Hr2).
  rewrite <- Hb, <- Hf, <- Ha in Hr2. cbv zeta. case_decide as Hl.
  - destruct Hr1 as [-> (Hb1 & Hf1 & Ha1)], Hr2 as [-> (Hb2 & Hf2 & Ha2)].
    rewrite <- (take_drop len (bytes_of (stream (net w1)))) in Hb1 at 1. apply app_inv_head in Hb1.
    rewrite <- Hb, <- (take_drop len (bytes_of (stream (net w1)))) in Hb2 at 1. apply app_inv_head in Hb2.
    eexists _, _, _. do 2 (split; [done|]). split; [split_and!; congruence|]. by split.
  - destruct Hr1 as [-> Hs1], Hr2 as [-> Hs2]. eexists _, _, _. do 2 (split; [done|]). split; [by rewrite Hs1, Hs2|]. by split.
Qed.

(** C22: [tr_send_all] returns, and the pieces that were sent are, in this order, the whole
    PDU if it reports success, with its length as the result, and a proper prefix of it if
    it reports an error.  Nothing is sent twice, whatever number of bytes the transport
    accepts at a time.  (The transport of the model answers a finite number of calls and
    accepts everything after them.) *)
Theorem send_all_correct pdu w :
  ∃ res w' pieces rest, tr_send_all pdu w = Some (res, w') ∧
    events w' = events w ++ sent pieces ∧ pdu = concat pieces ++ rest ∧
    stream (net w') = stream (net w) ∧
    match res with
    | inr n => rest = [] ∧ n = length pdu
    | inl _ => rest ≠ []
    end.
Proof.
  destruct (send_all_spec pdu w) as (res & w' & H & pieces & rest & (_ & He & Hs & _) & Hp & Hr).
  by exists res, w', pieces, rest.
Qed.

End TransportProofs.

Definition cut_in_two : world tr_event :=
  World [] [] (Network [Segment [1; 2]; Segment [3; 4; 5]; RecvFails TR_INTR] [] [] []).
Definition uncut : world tr_event :=
  World [] [] (Network [Segment [1; 2; 3; 4; 5]; RecvFails TR_INTR] [] [] []).

Lemma recv_all_correct_witness :
  same_stream (stream (net cut_in_two)) (stream (net uncut)) ∧
  (∃ res w1' w2', tr_recv_all 4 cut_in_two = Some (res, w1') ∧ tr_recv_all 4 uncut = Some (res, w2') ∧
    res = inr [1; 2; 3; 4] ∧ bytes_of (stream (net w1')) = [5]).
Proof.
  split; [done|].
  destruct (recv_all_correct 4 cut_in_two uncut) as (res & w1' & w2' & H1 & H2 & _ & _ & H); [done|].
  exists res, w1', w2'. by destruct H.
Defined.
