(* ===== verification/Sys.v ===== *)
(** * The system behind the transports

    What [tcp_transport.c] and [ssh_transport.c] use of the operating system, the C library,
    libssh and the allocator.  What a call will answer is not known: every call takes the
    next answer of an oracle, a return value and, where it has one, an error number or an
    output.  What the calls do to the resources of the process is written out: open file
    descriptors with their status flags, lists from [getaddrinfo], blocks of memory and
    objects of libssh.  To use a resource that is not there is undefined. *)

From stdpp Require Import strings gmap.
From S2P Require Import Prelude.
Open Scope Z_scope.

(** A call of libssh that decides on the security of the connection, with its result. *)
Inductive ssh_call := KnownServer (rv : Z) | PublicKeyAuth (rv : Z) | PasswordAuth (rv : Z) | Subsystem (rv : Z).

Record sys := Sys {
  answers : list (Z * Z);
  fds : gmap Z Z;            (* open descriptors and their flags *)
  infos : nat;               (* lists of addresses that were not freed *)
  live : gset nat;           (* blocks of memory and objects of libssh *)
  next : nat;                (* all live blocks are below *)
  custom : bool;             (* the client replaced the allocator *)
  inbox : list Z;            (* data that arrives *)
  outbox : list Z;           (* data that was accepted *)
  log : list ssh_call }.

Definition Os (A : Type) : Type := sys → option (A * sys).

#[global] Instance Os_ret : MRet Os := λ A x s, Some (x, s).
#[global] Instance Os_bind : MBind Os := λ A B f m s, match m s with Some (x, s') => f x s' | None => None end.

(** A step on the state. *)
Definition act {A} (f : sys → option (A * sys)) : Os A := f.
Definition undefined {A} : Os A := λ _, None.
Definition require {A} (o : option A) : Os A := λ s, match o with Some x => Some (x, s) | None => None end.

Implicit Types s : sys.

Definition set_fds s (m : gmap Z Z) : sys := Sys (answers s) m (infos s) (live s) (next s) (custom s) (inbox s) (outbox s) (log s).
Definition set_infos s (n : nat) : sys := Sys (answers s) (fds s) n (live s) (next s) (custom s) (inbox s) (outbox s) (log s).
Definition set_heap s (l : gset nat) (n : nat) : sys := Sys (answers s) (fds s) (infos s) l n (custom s) (inbox s) (outbox s) (log s).
Definition set_boxes s (i o : list Z) : sys := Sys (answers s) (fds s) (infos s) (live s) (next s) (custom s) i o (log s).
Definition set_log s (l : list ssh_call) : sys := Sys (answers s) (fds s) (infos s) (live s) (next s) (custom s) (inbox s) (outbox s) l.
Definition set_answers s (a : list (Z * Z)) : sys := Sys a (fds s) (infos s) (live s) (next s) (custom s) (inbox s) (outbox s) (log s).

(** The next answer; success if there is none. *)
Definition ask : Os (Z * Z) := λ s, match answers s with [] => Some ((0, 0), s) | a :: l => Some (a, set_answers s l) end.

(** ** Memory *)

(** A block is given out unless the answer is negative. *)
Definition malloc : Os (option nat) :=
  '(r, _) ← ask;
  act (λ s, if r <? 0 then Some (None, s) else Some (Some (next s), set_heap s ({[next s]} ∪ live s) (S (next s)))).

Definition free_block (p : option nat) : Os unit := λ s,
  match p with
  | None => Some (tt, s)
  | Some p => if decide (p ∈ live s) then Some (tt, set_heap s (live s ∖ {[p]}) (next s)) else None
  end.
Definition rtr_free : option nat → Os unit := free_block.

(** [free] of the C library must not be given memory of another allocator. *)
Definition libc_free (p : option nat) : Os unit := λ s, if custom s then (match p with None => Some (tt, s) | Some _ => None end) else free_block p s.

(** A string in a block of its own; [None] is the null pointer. *)
Abbreviation str_ptr := (option (nat * string)).
Definition block_of (p : str_ptr) : option nat := fst <$> p.

Definition rtr_strdup (string : option string) : Os str_ptr :=
  t ← require string;
  p ← malloc;
  mret (match p with Some p => Some (p, t) | None => None end).

(** ** Files and sockets *)

Definition O_NONBLOCK : Z := 2048.
Definition O_RDWR : Z := 2.
Definition EAGAIN : Z := 11.
Definition EINTR : Z := 4.
Definition EBADF : Z := 9.
Definition EINPROGRESS : Z := 115.

(** The lowest descriptor that is not open, as POSIX has it; one of the first
    [size + 1] is free. *)
Fixpoint lowest (n : nat) (fd : Z) (m : gmap Z Z) : Z :=
  match n with O => fd | S n => if decide (is_Some (m !! fd)) then lowest n (fd + 1) m else fd end.
Definition open_fd (flags : Z) : Os Z := λ s,
  let fd := lowest (size (fds s)) 0 (fds s) in Some (fd, set_fds s (<[fd := flags]> (fds s))).

Definition socket : Os Z := '(r, _) ← ask; if r =? -1 then mret (-1) else open_fd O_RDWR.

(** The callback of the client, which opens a descriptor of its own. *)
Definition new_socket : Os Z := '(r, flags) ← ask; if r <? 0 then mret r else open_fd flags.

(** A negative number is not a descriptor, and [close] fails. *)
Definition close (fd : Z) : Os unit := λ s, Some (tt, if fd <? 0 then s else set_fds s (delete fd (fds s))).

Definition fcntl_getfl (fd : Z) : Os Z :=
  '(r, _) ← ask;
  act (λ s, Some (if r =? -1 then -1 else default (-1) (fds s !! fd), s)).
Definition fcntl_setfl (fd flags : Z) : Os Z :=
  '(r, _) ← ask;
  act (λ s, if (r =? -1) || negb (bool_decide (is_Some (fds s !! fd))) then Some (-1, s) else Some (0, set_fds s (<[fd := flags]> (fds s)))).

Definition getaddrinfo : Os Z := '(r, _) ← ask; act (λ s, Some (r, if r =? 0 then set_infos s (S (infos s)) else s)).
Definition freeaddrinfo : Os unit := λ s, match infos s with O => None | S n => Some (tt, set_infos s n) end.

Definition bind : Os Z := '(r, _) ← ask; mret r.
Definition connect : Os (Z * Z) := ask.
Definition select : Os Z := '(r, _) ← ask; mret r.
(** The return value, and the error of the socket. *)
Definition getsockopt : Os (Z * Z) := ask.
Definition setsockopt : Os Z := '(r, _) ← ask; mret r.

(** [recv] and [send]: -1 with an error number, or a number of bytes; 0 from [recv] is the
    end of the data. *)
Definition recv (fd : Z) (len : nat) : Os (Z * Z * list Z) :=
  '(r, errno) ← ask;
  act (λ s, if bool_decide (fds s !! fd = None) then Some ((-1, EBADF, []), s)
       else if r <? 0 then Some ((-1, errno, []), s)
       else let n := Nat.min (Z.to_nat r) len in
            Some ((Z.of_nat (length (take n (inbox s))), 0, take n (inbox s)), set_boxes s (drop n (inbox s)) (outbox s))).
Definition send (fd : Z) (data : list Z) : Os (Z * Z) :=
  '(r, errno) ← ask;
  act (λ s, if bool_decide (fds s !! fd = None) then Some ((-1, EBADF), s)
       else if r <? 0 then Some ((-1, errno), s)
       else let n := Nat.min (Z.to_nat r) (length data) in
            Some ((Z.of_nat n, 0), set_boxes s (inbox s) (outbox s ++ take n data))).

(** ** Runs *)

(** The call returns, with this result and this state. *)
Definition returns {A} (m : Os A) (Q : A → sys → Prop) s : Prop := ∃ x s', m s = Some (x, s') ∧ Q x s'.

Lemma os_bind {A B} (m : Os A) (f : A → Os B) Q s : returns m (λ x s', returns (f x) Q s') s → returns (m ≫= f) Q s.
Proof. intros (x & s' & Hm & y & s'' & Hf & HQ). exists y, s''. split; [|done]. unfold mbind, Os_bind. by rewrite Hm. Qed.

Lemma os_ret {A} (x : A) (Q : A → sys → Prop) s : Q x s → returns (mret x) Q s.
Proof. intros. by exists x, s. Qed.

Lemma returns_require {A} (o : option A) x (Q : A → sys → Prop) s : o = Some x → Q x s → returns (require o) Q s.
Proof. intros -> ?. by exists x, s. Qed.

Lemma os_mono {A} (m : Os A) (Q R : A → sys → Prop) s : returns m Q s → (∀ x s', Q x s' → R x s') → returns m R s.
Proof. intros (x & s' & Hm & HQ) HR. exists x, s'. auto. Qed.

(** What the process holds: everything but the answers of the oracle. *)
Definition holdings s := (fds s, infos s, live s, next s, custom s, (inbox s, outbox s, log s)).

Lemma returns_ask (Q : Z * Z → sys → Prop) s : (∀ a s', holdings s' = holdings s → Q a s') → returns ask Q s.
Proof. intros HQ. unfold returns, ask. destruct (answers s) as [|a l]; eexists _, _; (split; [done|]); by apply HQ. Qed.

Lemma returns_act {A} (f : sys → option (A * sys)) (Q : A → sys → Prop) s : (∃ x s', f s = Some (x, s') ∧ Q x s') → returns (act f) Q s.
Proof. done. Qed.

Ltac os_step :=
  lazymatch goal with
  | |- returns (match (_, _) with pair _ _ => _ end) _ _ => cbv beta iota; os_step
  | |- returns (_ ≫= _) _ _ => apply os_bind
  | |- returns (mret _) _ _ => apply os_ret; cbv beta
  | |- returns ask _ _ => apply returns_ask; let Hh := fresh "Hh" in intros [? ?] ? Hh; cbv beta iota
  | |- returns (require (Some _)) _ _ => eapply returns_require; [reflexivity|]; cbv beta
  end.

(** The equations that say what is held. *)
Ltac held := unfold holdings in *; simpl in *; simplify_eq; try congruence.

(** ** The lowest free descriptor *)

Lemma lowest_occupied n fd m : is_Some (m !! lowest n fd m) → ∀ i, fd <= i <= fd + Z.of_nat n → is_Some (m !! i).
Proof.
  revert fd. induction n as [|n IH]; intros fd Hl i Hi; simpl in Hl; [by replace i with fd by lia|].
  destruct (decide (is_Some (m !! fd))) as [Hfd|Hfd]; [|done]. destruct (decide (i = fd)) as [->|Hne]; [done|]. apply (IH (fd + 1)); [done|lia].
Qed.

Lemma lowest_ge n fd m : 0 <= fd → 0 <= lowest n fd m.
Proof. revert fd. induction n as [|n IH]; intros fd Hfd; simpl; [done|]. destruct (decide (is_Some (m !! fd))); [apply IH; lia|done]. Qed.

Lemma lowest_free (m : gmap Z Z) : m !! lowest (size m) 0 m = None ∧ 0 <= lowest (size m) 0 m.
Proof.
  split.
  - apply eq_None_not_Some. intros Hs. pose proof (lowest_occupied _ _ _ Hs) as Hall.
    assert (list_to_set (seqZ 0 (Z.of_nat (size m) + 1)) ⊆ dom m) as Hsub.
    { intros i Hi%elem_of_list_to_set. apply elem_of_seqZ in Hi. apply elem_of_dom, Hall. lia. }
    apply subseteq_size in Hsub. rewrite size_list_to_set in Hsub by apply NoDup_seqZ. rewrite length_seqZ, size_dom in Hsub. lia.
  - by apply lowest_ge.
Qed.

Lemma returns_open_fd flags (Q : Z → sys → Prop) s :
  (∀ fd, fds s !! fd = None → 0 <= fd → Q fd (set_fds s (<[fd := flags]> (fds s)))) → returns (open_fd flags) Q s.
Proof. intros HQ. destruct (lowest_free (fds s)) as [Hf H0]. eexists _, _. split; [done|]. by apply HQ. Qed.

(** ** Ownership of memory *)

Definition heap_ok s : Prop := ∀ p, p ∈ live s → (p < next s)%nat.
Definition others_than_heap s := (fds s, infos s, custom s, (inbox s, outbox s, log s)).

(** Besides [base], the blocks of [l] are live, which are all different. *)
Record owns (l : list (option nat)) (base : gset nat) s : Prop := {
  owns_live : live s = list_to_set (omap id l) ∪ base;
  owns_nodup : NoDup (omap id l);
  owns_new : ∀ p, p ∈ omap id l → p ∉ base;
  owns_heap : heap_ok s }.

Lemma owns_nil s : heap_ok s → owns [] (live s) s.
Proof. intros Hh. split; [simpl; by rewrite union_empty_l_L|constructor|by intros p Hp%elem_of_nil|done]. Qed.

Lemma owns_perm l l' base s : l ≡ₚ l' → owns l base s → owns l' base s.
Proof.
  intros Hp [H1 H2 H3 H4]. assert (omap id l ≡ₚ omap id l') as Ho by by rewrite Hp. split; [|by rewrite <- Ho|intros p; rewrite <- Ho; apply H3|done].
  rewrite H1. apply leibniz_equiv. by rewrite Ho.
Qed.

(** Memory is given out, or not. *)
Lemma malloc_spec l base s (Q : option nat → sys → Prop) :
  owns l base s → (∀ p s', owns (p :: l) base s' → others_than_heap s' = others_than_heap s → Q p s') → returns malloc Q s.
Proof.
  intros Ho HQ. unfold malloc. os_step. os_step. apply returns_act. assert (live s' = live s ∧ next s' = next s) as [Hl Hn] by (split; held).
  assert (heap_ok s') as Hok by (intros p Hp; rewrite Hl in Hp; rewrite Hn; by apply (owns_heap _ _ _ Ho)).
  destruct (z <? 0); eexists _, _; (split; [done|]); apply HQ.
  - split; simpl; [rewrite Hl; apply Ho|apply Ho|apply Ho|done].
  - unfold others_than_heap. held.
  - assert (next s' ∉ live s') as Hnew by (intros Hp; specialize (Hok _ Hp); lia). rewrite Hl, (owns_live _ _ _ Ho) in Hnew. split; simpl.
    + rewrite Hl, (owns_live _ _ _ Ho). set_solver.
    + constructor; [|apply Ho]. intros Hp. apply Hnew, elem_of_union_l, elem_of_list_to_set, Hp.
    + intros p [->|Hp]%elem_of_cons; [set_solver|by apply (owns_new _ _ _ Ho)].
    + intros p Hp. simpl in Hp. apply elem_of_union in Hp as [->%elem_of_singleton|Hp]; simpl; [lia|]. specialize (Hok p Hp). lia.
  - unfold others_than_heap. held.
Qed.

Lemma free_spec p l base s (Q : unit → sys → Prop) :
  owns (p :: l) base s → (∀ s', owns l base s' → others_than_heap s' = others_than_heap s → Q tt s') → returns (rtr_free p) Q s.
Proof.
  intros Ho HQ. destruct p as [p|]; [|exists tt, s; split; [done|]; apply HQ; [|done]; destruct Ho; by split]. simpl in Ho.
  pose proof (owns_nodup _ _ _ Ho) as [Hp Hnd]%NoDup_cons. pose proof (owns_live _ _ _ Ho) as Hlive. simpl in Hlive.
  assert (p ∉ base) as Hb by (apply (owns_new _ _ _ Ho); simpl; by left).
  exists tt, (set_heap s (live s ∖ {[p]}) (next s)). split; [unfold rtr_free, free_block; rewrite decide_True; [done|rewrite Hlive; set_solver]|].
  apply HQ; [|done]. split; simpl.
  - rewrite Hlive. apply leibniz_equiv. assert (p ∉ (list_to_set (omap id l) : gset nat)) by (by rewrite elem_of_list_to_set). set_solver.
  - done.
  - intros q Hq. apply (owns_new _ _ _ Ho). simpl. by right.
  - intros q Hq. simpl in Hq. apply (owns_heap _ _ _ Ho). set_solver.
Qed.

Lemma strdup_spec (t : string) l base s (Q : str_ptr → sys → Prop) :
  owns l base s → (∀ p s', owns (block_of p :: l) base s' → others_than_heap s' = others_than_heap s → Q p s') → returns (rtr_strdup (Some t)) Q s.
Proof.
  intros Ho HQ. unfold rtr_strdup. os_step. os_step. os_step. eapply malloc_spec; [done|]. intros p s' Ho' Hs. os_step.
  apply HQ; [|done]. by destruct p.
Qed.
