(* ===== verification/Tcp.v ===== *)
(** * The TCP transport: [rtrlib/transport/tcp/tcp_transport.c]

    Debug output is left out, and so are the parts of [rtr_tr_tcp_init] that set function
    pointers: the functions here are those behind them. *)

From stdpp Require Import strings gmap.
From S2P Require Import Prelude Transport Sys.
Open Scope Z_scope.

Definition RTR_TR_SUCCESS : Z := 0.
Definition RTR_TR_ERROR : Z := -1.
Definition RTR_TR_WOULDBLOCK : Z := -2.
Definition RTR_TR_INTR : Z := -3.
Definition RTR_TR_CLOSED : Z := -4.
Definition RTRLIB_TRANSPORT_CONNECT_TIMEOUT_DEFAULT : Z := 30.

(** What the client configures; [cfg_new_socket] says whether there is a callback. *)
Record rtr_tr_tcp_config := TcpConfig {
  cfg_host : option string;
  cfg_port : option string;
  cfg_bindaddr : option string;
  cfg_new_socket : bool;
  cfg_connect_timeout : Z }.

(** The socket with its own copies of the strings, in a block of its own. *)
Record tr_tcp_socket := TcpSocket {
  tcp_block : nat;
  tcp_fd : Z;
  tcp_host : str_ptr;
  tcp_port : str_ptr;
  tcp_bindaddr : str_ptr;
  tcp_new_socket : bool;
  tcp_connect_timeout : Z;
  tcp_ident : str_ptr }.
Implicit Types sk : tr_tcp_socket.

Definition set_fd sk (fd : Z) : tr_tcp_socket :=
  TcpSocket (tcp_block sk) fd (tcp_host sk) (tcp_port sk) (tcp_bindaddr sk) (tcp_new_socket sk) (tcp_connect_timeout sk) (tcp_ident sk).
Definition set_ident sk (i : str_ptr) : tr_tcp_socket :=
  TcpSocket (tcp_block sk) (tcp_fd sk) (tcp_host sk) (tcp_port sk) (tcp_bindaddr sk) (tcp_new_socket sk) (tcp_connect_timeout sk) i.

Section Tcp.
Context `{Build}.

(** [flags] is an [int]: [~O_NONBLOCK] is [-(O_NONBLOCK + 1)]. *)
Definition set_socket_blocking (socket : Z) : Os Z :=
  flags ← fcntl_getfl socket;
  if flags =? -1 then mret RTR_TR_ERROR
  else
    r ← fcntl_setfl socket (Z.land flags (Z.lnot O_NONBLOCK));
    if r =? -1 then mret RTR_TR_ERROR else mret RTR_TR_SUCCESS.

Definition set_socket_non_blocking (socket : Z) : Os Z :=
  flags ← fcntl_getfl socket;
  if flags =? -1 then mret RTR_TR_ERROR
  else
    r ← fcntl_setfl socket (Z.lor flags O_NONBLOCK);
    if r =? -1 then mret RTR_TR_ERROR else mret RTR_TR_SUCCESS.

Definition get_socket_error : Os Z :=
  '(r, result) ← getsockopt;
  if r <? 0 then mret RTR_TR_ERROR else mret result.

Definition tr_tcp_close sk : Os tr_tcp_socket :=
  (if negb (tcp_fd sk =? -1) then close (tcp_fd sk) else mret tt);;
  mret (set_fd sk (-1)).

(** What follows the label [end]; [res] and [bind_addrinfo] say which lists are not null. *)
Definition tcp_end (rtval : Z) (res bind_addrinfo : bool) sk : Os (Z * tr_tcp_socket) :=
  (if res then freeaddrinfo else mret tt);;
  (if bind_addrinfo then freeaddrinfo else mret tt);;
  sk ← (if rtval =? -1 then tr_tcp_close sk else mret sk);
  mret (rtval, sk).

(** From the call of [connect] on. *)
Definition tcp_connect sk : Os (Z * tr_tcp_socket) :=
  '(r, errno) ← connect;
  if (r =? -1) && negb (errno =? EINPROGRESS) then tcp_end RTR_TR_ERROR true false sk
  else
    freeaddrinfo;;
    ret ← select;
    if ret <? 0 then tcp_end RTR_TR_ERROR false false sk
    else if ret =? 0 then tcp_end RTR_TR_ERROR false false sk
    else
      socket_error ← get_socket_error;
      if socket_error =? RTR_TR_ERROR then tcp_end RTR_TR_ERROR false false sk
      else if 0 <? socket_error then tcp_end RTR_TR_ERROR false false sk
      else
        b ← set_socket_blocking (tcp_fd sk);
        if b =? RTR_TR_ERROR then tcp_end RTR_TR_ERROR false false sk else tcp_end RTR_TR_SUCCESS false false sk.

(** The descriptor is there, and the list of the addresses of the peer. *)
Definition tcp_bind_and_connect sk : Os (Z * tr_tcp_socket) :=
  let rest :=
    nb ← set_socket_non_blocking (tcp_fd sk);
    if nb =? RTR_TR_ERROR then tcp_end RTR_TR_ERROR true false sk else tcp_connect sk in
  if bool_decide (is_Some (tcp_bindaddr sk)) then
    r ← getaddrinfo;
    if negb (r =? 0) then tcp_end RTR_TR_ERROR true false sk
    else
      r ← bind;
      if negb (r =? 0) then tcp_end RTR_TR_ERROR true true sk
      else freeaddrinfo;; rest
  else rest.

Definition tr_tcp_open sk : Os (Z * tr_tcp_socket) :=
  require (assert_ (tcp_fd sk =? -1));;
  '(failed, sk) ←
    (if tcp_new_socket sk then fd ← new_socket; mret (fd <=? 0, set_fd sk fd) else mret (false, sk));
  if (failed : bool) then tcp_end RTR_TR_ERROR false false sk
  else if tcp_fd sk <? 0 then
    r ← getaddrinfo;
    if negb (r =? 0) then mret (RTR_TR_ERROR, sk)
    else
      fd ← socket;
      let sk := set_fd sk fd in
      if fd =? -1 then tcp_end RTR_TR_ERROR true false sk else tcp_bind_and_connect sk
  else tcp_end RTR_TR_SUCCESS false false sk.

(** The common end of [tr_tcp_recv] and [tr_tcp_send]; [EWOULDBLOCK] is [EAGAIN]. *)
Definition tcp_error (errno : Z) : Z :=
  if errno =? EAGAIN then RTR_TR_WOULDBLOCK else if errno =? EINTR then RTR_TR_INTR else RTR_TR_ERROR.

(** The return value and the data; with a timeout, it is set first. *)
Definition tr_tcp_recv sk (len : nat) (timeout : Z) : Os (Z * list Z) :=
  r ← (if timeout =? 0 then mret 0 else setsockopt);
  if r =? -1 then mret (RTR_TR_ERROR, [])
  else
    '(rtval, errno, data) ← recv (tcp_fd sk) len;
    if rtval =? -1 then mret (tcp_error errno, [])
    else if rtval =? 0 then mret (RTR_TR_CLOSED, [])
    else mret (rtval, data).

Definition tr_tcp_send sk (pdu : list Z) (timeout : Z) : Os Z :=
  r ← (if timeout =? 0 then mret 0 else setsockopt);
  if r =? -1 then mret RTR_TR_ERROR
  else
    '(rtval, errno) ← send (tcp_fd sk) pdu;
    if rtval =? -1 then mret (tcp_error errno)
    else if rtval =? 0 then mret RTR_TR_ERROR
    else mret rtval.

(** [tr_recv_all] and [tr_send_all] of [transport.c] with these functions behind the pointers.
    The time that is left, which is computed from two readings of the clock, is an answer of
    the system; a negative return value ends the loop. *)
Definition time_left : Os Z := '(t, _) ← ask; mret t.
Definition tcp_recv_fp sk (len : nat) (timeout : Z) : Os (Z + list Z) :=
  '(rtval, data) ← tr_tcp_recv sk len timeout;
  mret (if rtval <? 0 then inl rtval else inr data).
Definition tcp_send_fp sk (pdu : list Z) (timeout : Z) : Os (Z + nat) :=
  rtval ← tr_tcp_send sk pdu timeout;
  mret (if rtval <? 0 then inl rtval else inr (Z.to_nat rtval)).

Definition tcp_recv_all sk (len : nat) : Os (Z + list Z) := time_left;; recv_loop time_left undefined (tcp_recv_fp sk) len [] len.
Definition tcp_send_all sk (pdu : list Z) : Os (Z + nat) := time_left;; send_loop time_left undefined (tcp_send_fp sk) (length pdu) pdu 0%nat.

(** [strlen] of the null pointer is undefined.  The text has at most [len - 1] characters. *)
Definition tr_tcp_ident sk : Os (option string * tr_tcp_socket) :=
  match tcp_ident sk with
  | Some (_, t) => mret (Some t, sk)
  | None =>
      '(_, port) ← require (tcp_port sk);
      '(_, host) ← require (tcp_host sk);
      let len := (String.length port + String.length host + 2)%nat in
      p ← malloc;
      match p with
      | None => mret (None, sk)
      | Some p =>
          let t := String.substring 0 (len - 1) (host +:+ ":" +:+ port) in
          mret (Some t, set_ident sk (Some (p, t)))
      end
  end.

Definition tr_tcp_free sk : Os unit :=
  require (assert_ (tcp_fd sk =? -1));;
  rtr_free (block_of (tcp_host sk));;
  rtr_free (block_of (tcp_port sk));;
  rtr_free (block_of (tcp_bindaddr sk));;
  (if bool_decide (is_Some (tcp_ident sk)) then rtr_free (block_of (tcp_ident sk)) else mret tt);;
  rtr_free (Some (tcp_block sk)).

Definition rtr_tr_tcp_init (config : rtr_tr_tcp_config) : Os (Z * option tr_tcp_socket) :=
  b ← malloc;
  match b with
  | None => mret (RTR_TR_ERROR, None)
  | Some b =>
      host ← rtr_strdup (cfg_host config);
      port ← rtr_strdup (cfg_port config);
      bindaddr ← (if bool_decide (is_Some (cfg_bindaddr config)) then rtr_strdup (cfg_bindaddr config) else mret None);
      let timeout := if cfg_connect_timeout config =? 0 then RTRLIB_TRANSPORT_CONNECT_TIMEOUT_DEFAULT else cfg_connect_timeout config in
      mret (RTR_TR_SUCCESS, Some (TcpSocket b (-1) host port bindaddr (cfg_new_socket config) timeout None))
  end.

End Tcp.
