(* ===== verification/TcpTheorems.v ===== *)
(** * The TCP transport: what opening, receiving and sending do *)

From stdpp Require Import strings gmap.
From S2P Require Import Prelude Transport TransportProofs Sys Tcp.
Open Scope Z_scope.

Section Tcp.
Context `{Build}.
Implicit Types (s : sys) (sk : tr_tcp_socket).

(** ** Opening *)

Definition others s := (live s, next s, custom s, (inbox s, outbox s, log s)).

(** The process holds what it held, one descriptor more, and [k] lists of addresses. *)
Record opened s0 (fd flags : Z) (k : nat) s : Prop := {
  op_fds : fds s = <[fd := flags]> (fds s0);
  op_infos : infos s = (k + infos s0)%nat;
  op_others : others s = others s0 }.

Lemma opened_held s0 fd flags k s s' : opened s0 fd flags k s → holdings s' = holdings s → opened s0 fd flags k s'.
Proof. intros [H1 H2 H3] Hh. unfold others in *. held. split; unfold others; congruence. Qed.

Lemma opened_free s0 fd flags k s (Q : unit → sys → Prop) :
  opened s0 fd flags (S k) s → (∀ s', opened s0 fd flags k s' → Q tt s') → returns freeaddrinfo Q s.
Proof.
  intros [H1 H2 H3] HQ. exists tt, (set_infos s (k + infos s0)). split; [unfold freeaddrinfo; by rewrite H2|]. apply HQ. by split.
Qed.

(** What [tr_tcp_open] leaves behind. *)
Definition tcp_open_result s0 sk : Z * tr_tcp_socket → sys → Prop := λ '(rv, sk') s',
  infos s' = infos s0 ∧ others s' = others s0 ∧
  ((rv = RTR_TR_SUCCESS ∧ ∃ fd flags, sk' = set_fd sk fd ∧ 0 <= fd ∧ fds s0 !! fd = None ∧ fds s' = <[fd := flags]> (fds s0) ∧
      (tcp_new_socket sk = false → Z.land flags O_NONBLOCK = 0)) ∨
   (rv = RTR_TR_ERROR ∧ sk' = sk ∧ fds s' = fds s0)).

Lemma set_fd_back sk fd : tcp_fd sk = -1 → set_fd (set_fd sk fd) (-1) = sk.
Proof. intros Hs. destruct sk. simpl in *. by subst. Qed.

(** The way out after an error gives back what there is. *)
Lemma tcp_end_error s0 fd flags (res bind_addrinfo : bool) sk s :
  tcp_fd sk = -1 → 0 <= fd → fds s0 !! fd = None → opened s0 fd flags (Nat.b2n res + Nat.b2n bind_addrinfo) s →
  returns (tcp_end RTR_TR_ERROR res bind_addrinfo (set_fd sk fd)) (tcp_open_result s0 sk) s.
Proof.
  intros Hsk Hfd Hnew Ho. unfold tcp_end. os_step.
  assert (∀ Q : unit → sys → Prop, (∀ s', opened s0 fd flags (Nat.b2n bind_addrinfo) s' → Q tt s') → returns (if res then freeaddrinfo else mret tt) Q s) as Hres.
  { intros Q HQ. destruct res; [by eapply opened_free|os_step; by apply HQ]. }
  apply Hres. clear Hres. intros s1 H1. os_step.
  assert (∀ Q : unit → sys → Prop, (∀ s', opened s0 fd flags 0 s' → Q tt s') → returns (if bind_addrinfo then freeaddrinfo else mret tt) Q s1) as Hb.
  { intros Q HQ. destruct bind_addrinfo; [by eapply opened_free|os_step; by apply HQ]. }
  apply Hb. clear Hb. intros s2 [Hf Hi Ht]. change (RTR_TR_ERROR =? -1) with true. cbv iota. os_step. unfold tr_tcp_close. simpl tcp_fd.
  rewrite (proj2 (Z.eqb_neq fd (-1))) by lia. simpl negb. cbv iota. os_step. unfold close. eexists _, _. split; [done|].
  rewrite (proj2 (Z.ltb_ge fd 0)) by lia. os_step. os_step.
  split; [done|]. split; [done|]. right. split; [done|]. split; [by apply set_fd_back|]. simpl. rewrite Hf. by apply delete_insert_id.
Qed.

Lemma tcp_end_success sk s (Q : Z * tr_tcp_socket → sys → Prop) : Q (RTR_TR_SUCCESS, sk) s → returns (tcp_end RTR_TR_SUCCESS false false sk) Q s.
Proof. intros HQ. by exists (RTR_TR_SUCCESS, sk), s. Qed.

(** The flags of the socket are read and written, or there is an error. *)
Lemma set_flags_spec (f : Z → Z) fd s0 flags k s (Q : Z → sys → Prop) :
  flags ≠ -1 → opened s0 fd flags k s → fds s0 !! fd = None →
  (∀ s', opened s0 fd flags k s' → Q RTR_TR_ERROR s') → (∀ s', opened s0 fd (f flags) k s' → Q RTR_TR_SUCCESS s') →
  returns (flags ← fcntl_getfl fd; if flags =? -1 then mret RTR_TR_ERROR
           else r ← fcntl_setfl fd (f flags); if r =? -1 then mret RTR_TR_ERROR else mret RTR_TR_SUCCESS) Q s.
Proof.
  intros Hfl Ho Hnew He Hs. os_step. unfold fcntl_getfl. os_step. os_step. eapply opened_held in Ho as Ho1; [|done].
  apply returns_act. eexists _, _. split; [done|]. rewrite (op_fds _ _ _ _ _ Ho1), lookup_insert_eq. destruct (z =? -1); simpl; [os_step; by apply He|].
  rewrite (proj2 (Z.eqb_neq flags (-1))) by done. unfold fcntl_setfl. os_step. os_step. os_step. eapply opened_held in Ho1 as Ho2; [|done].
  apply returns_act. rewrite (op_fds _ _ _ _ _ Ho2), lookup_insert_eq, bool_decide_true by done. destruct (z1 =? -1); simpl orb; cbv iota; eexists _, _; (split; [done|]); cbv beta.
  - change (-1 =? -1) with true. cbv iota. os_step. by apply He.
  - change (0 =? -1) with false. cbv iota. os_step. apply Hs. destruct Ho2 as [? ? ?]. split; [|done|done]. simpl. by rewrite insert_insert_eq.
Qed.

Lemma tcp_connect_spec s0 fd flags sk s :
  tcp_fd sk = -1 → 0 <= fd → fds s0 !! fd = None → opened s0 fd flags 1 s → flags ≠ -1 →
  returns (tcp_connect (set_fd sk fd)) (tcp_open_result s0 sk) s.
Proof.
  intros Hsk Hfd Hnew Ho Hfl. unfold tcp_connect, connect. os_step. os_step. eapply opened_held in Ho as Ho1; [|done].
  destruct ((z =? -1) && _); [by eapply (tcp_end_error s0 fd flags true false)|]. os_step. eapply opened_free; [done|]. intros s2 H2.
  unfold select. os_step. os_step. os_step. eapply opened_held in H2 as H3; [|done]. os_step.
  destruct (z1 <? 0); [by eapply (tcp_end_error s0 fd flags false false)|]. destruct (z1 =? 0); [by eapply (tcp_end_error s0 fd flags false false)|].
  unfold get_socket_error, getsockopt. os_step. os_step. os_step. eapply opened_held in H3 as H4; [|done].
  assert (∀ v, returns (if v =? RTR_TR_ERROR then tcp_end RTR_TR_ERROR false false (set_fd sk fd)
    else if 0 <? v then tcp_end RTR_TR_ERROR false false (set_fd sk fd)
    else b ← set_socket_blocking (tcp_fd (set_fd sk fd));
         if b =? RTR_TR_ERROR then tcp_end RTR_TR_ERROR false false (set_fd sk fd) else tcp_end RTR_TR_SUCCESS false false (set_fd sk fd))
    (tcp_open_result s0 sk) s'1) as Hend; [|destruct (z3 <? 0); os_step; apply Hend].
  intros v. destruct (v =? RTR_TR_ERROR); [by eapply (tcp_end_error s0 fd flags false false)|].
  destruct (0 <? v); [by eapply (tcp_end_error s0 fd flags false false)|]. os_step.
  eapply (set_flags_spec (λ fl, Z.land fl (Z.lnot O_NONBLOCK))); [done..| |]; intros s5 H5.
  - by eapply (tcp_end_error s0 fd flags false false).
  - change (RTR_TR_SUCCESS =? RTR_TR_ERROR) with false. cbv iota. apply tcp_end_success.
    destruct H5 as [Hf Hi Ht]. split; [done|]. split; [done|]. left. split; [done|]. do 2 eexists. split; [done|]. split_and!; try done.
    intros _. apply Z.bits_inj'. intros n Hn. rewrite !Z.land_spec, Z.lnot_spec, Z.bits_0 by done. by destruct (Z.testbit flags n), (Z.testbit O_NONBLOCK n).
Qed.

Lemma tcp_bind_and_connect_spec s0 fd sk s :
  tcp_fd sk = -1 → 0 <= fd → fds s0 !! fd = None → opened s0 fd O_RDWR 1 s →
  returns (tcp_bind_and_connect (set_fd sk fd)) (tcp_open_result s0 sk) s.
Proof.
  intros Hsk Hfd Hnew Ho. unfold tcp_bind_and_connect.
  assert (∀ s', opened s0 fd O_RDWR 1 s' → returns (nb ← set_socket_non_blocking (tcp_fd (set_fd sk fd));
    if nb =? RTR_TR_ERROR then tcp_end RTR_TR_ERROR true false (set_fd sk fd) else tcp_connect (set_fd sk fd)) (tcp_open_result s0 sk) s') as Hrest.
  { intros s1 H1. os_step. apply (set_flags_spec (λ fl, Z.lor fl O_NONBLOCK) fd s0 O_RDWR 1); [done..| |]; intros s2 H2.
    - by eapply (tcp_end_error s0 fd O_RDWR true false).
    - change (RTR_TR_SUCCESS =? RTR_TR_ERROR) with false. cbv iota. by eapply tcp_connect_spec. }
  destruct (bool_decide _); [|by apply Hrest]. unfold getaddrinfo. os_step. os_step. os_step. eapply opened_held in Ho as H1; [|done].
  apply returns_act. eexists _, _. split; [done|]. destruct (Z.eqb_spec z 0) as [->|Hz]; simpl negb; cbv iota; [|by eapply (tcp_end_error s0 fd O_RDWR true false)].
  assert (opened s0 fd O_RDWR 2 (set_infos s' (S (infos s')))) as H2 by (destruct H1 as [Hf Hi Ht]; split; [done|simpl; lia|done]).
  unfold bind. os_step. os_step. os_step. eapply opened_held in H2 as H3; [|done]. os_step.
  destruct (negb (z =? 0)); [by eapply (tcp_end_error s0 fd O_RDWR true true)|]. os_step. eapply opened_free; [done|]. exact Hrest.
Qed.

(** The callback of the client failed, and there is nothing to give back. *)
Lemma tcp_end_nothing s0 fd sk s :
  tcp_fd sk = -1 → fd < 0 → holdings s = holdings s0 → returns (tcp_end RTR_TR_ERROR false false (set_fd sk fd)) (tcp_open_result s0 sk) s.
Proof.
  intros Hsk Hfd Hh. unfold tcp_end. do 4 os_step. os_step. change (RTR_TR_ERROR =? -1) with true. cbv iota. unfold tr_tcp_close. os_step.
  apply (os_mono _ (λ _ s', s' = s)).
  - destruct (negb _); [|by os_step]. unfold close. change (tcp_fd (set_fd sk fd)) with fd. eexists _, _. split; [done|]. by rewrite (proj2 (Z.ltb_lt fd 0)).
  - intros _ s' ->. os_step. os_step. unfold tcp_open_result, others. split; [held|]. split; [held|]. right. split; [done|]. split; [by apply set_fd_back|held].
Qed.

(** Opening a TCP connection, whatever the system answers: it returns, frees every list
    of addresses it got, and either succeeds with one new descriptor, in blocking mode if
    the library made it, or fails with the socket as it was and all descriptors as they
    were. *)
Lemma tcp_open_spec sk s : tcp_fd sk = -1 → returns (tr_tcp_open sk) (tcp_open_result s sk) s.
Proof.
  intros Hsk. unfold tr_tcp_open. os_step. rewrite Hsk, assert_true by done. os_step. os_step. destruct (tcp_new_socket sk) eqn:Hnew.
  - unfold new_socket. os_step. os_step. os_step. destruct (z <? 0) eqn:Hz.
    + os_step. os_step. cbv beta iota. apply Z.ltb_lt in Hz. rewrite (proj2 (Z.leb_le z 0)) by lia. by apply tcp_end_nothing.
    + apply returns_open_fd. intros fd Hfree Hfd. os_step. cbv beta iota. assert (fds s' = fds s) as Hf by held. rewrite Hf in *.
      assert (opened s fd z0 0 (set_fds s' (<[fd:=z0]> (fds s)))) as Ho by (split; [done|simpl; held|unfold others; simpl; held]).
      destruct (fd <=? 0); [by apply (tcp_end_error s fd z0 false false)|]. simpl tcp_fd. rewrite (proj2 (Z.ltb_ge fd 0)) by done.
      apply tcp_end_success. destruct Ho as [? ? ?]. split; [done|]. split; [done|]. left. split; [done|]. exists fd, z0. split_and!; try done.
      by rewrite Hnew.
  - os_step. cbv beta iota. rewrite Hsk. change (-1 <? 0) with true. cbv iota. unfold getaddrinfo. os_step. os_step. os_step.
    apply returns_act. eexists _, _. split; [done|]. destruct (Z.eqb_spec z 0) as [->|Hz]; simpl negb; cbv iota.
    + unfold socket. os_step. os_step. os_step. assert (fds s'0 = fds s) as Hf by held. destruct (z =? -1).
      * os_step. change (-1 =? -1) with true. cbv iota. assert (freeaddrinfo s'0 = Some (tt, set_infos s'0 (infos s))) as Hfr by (unfold freeaddrinfo; by assert (infos s'0 = S (infos s)) as -> by held).
        exists (RTR_TR_ERROR, set_fd (set_fd sk (-1)) (-1)), (set_infos s'0 (infos s)). split; [unfold tcp_end, mbind, Os_bind; by rewrite Hfr|].
        unfold tcp_open_result, others. simpl.
        split; [done|]. split; [held|]. right. split; [done|]. split; [by apply set_fd_back|done].
      * apply returns_open_fd. intros fd Hfree Hfd. rewrite Hf in *. rewrite (proj2 (Z.eqb_neq fd (-1))) by lia. apply tcp_bind_and_connect_spec; [done..|].
        split; [done|simpl; held|unfold others; simpl; held].
    + os_step. unfold tcp_open_result, others. split; [held|]. split; [held|]. right. split_and!; [done|done|held].
Qed.

(** C24: Opening a TCP connection, whatever the system answers: it returns, frees every list
    of addresses it got, and either succeeds with one new descriptor, in blocking mode if
    the library made it, or fails with the socket as it was and all descriptors as they
    were. *)
Theorem tcp_open_correct sk s : tcp_fd sk = -1 →
  returns (tr_tcp_open sk) (λ '(rv, sk') s', infos s' = infos s ∧ live s' = live s ∧
    ((rv = RTR_TR_SUCCESS ∧ ∃ fd flags, sk' = set_fd sk fd ∧ 0 <= fd ∧ fds s !! fd = None ∧ fds s' = <[fd := flags]> (fds s) ∧
        (tcp_new_socket sk = false → Z.land flags O_NONBLOCK = 0)) ∨
     (rv = RTR_TR_ERROR ∧ sk' = sk ∧ fds s' = fds s))) s.
Proof.
  intros Hfd. eapply os_mono; [by apply tcp_open_spec|]. intros [rv sk'] s' (Hi & Ho & Hres). unfold others in Ho. by simplify_eq.
Qed.

(** ** Receiving and sending *)

Definition tr_code (e : tr_error) : Z :=
  match e with TR_ERROR => RTR_TR_ERROR | TR_WOULDBLOCK => RTR_TR_WOULDBLOCK | TR_INTR => RTR_TR_INTR | TR_CLOSED => RTR_TR_CLOSED end.

(** A return value and data, as the loops of [Transport] see them. *)
Definition recv_result (rv : Z) (data : list Z) (res : tr_error + list Z) : Prop :=
  match res with inl e => rv = tr_code e ∧ data = [] | inr l => rv = Z.of_nat (length l) ∧ data = l end.

Definition quiet s := (fds s, infos s, live s, next s, custom s, log s).

Lemma holdings_parts s s' : holdings s' = holdings s → inbox s' = inbox s ∧ outbox s' = outbox s ∧ quiet s' = quiet s.
Proof. unfold quiet. intros Hh. held. split_and!; congruence. Qed.

Lemma tcp_error_code errno : ∃ e, tcp_error errno = tr_code e.
Proof. unfold tcp_error. destruct (errno =? EAGAIN); [by exists TR_WOULDBLOCK|]. destruct (errno =? EINTR); [by exists TR_INTR|by exists TR_ERROR]. Qed.

Lemma timeout_spec (timeout : Z) s (Q : Z → sys → Prop) : (∀ r s', holdings s' = holdings s → Q r s') → returns (if timeout =? 0 then mret 0 else setsockopt) Q s.
Proof.
  intros HQ. destruct (timeout =? 0); [os_step; by apply HQ|]. unfold setsockopt. os_step. os_step. os_step. by apply HQ.
Qed.

(** Data was taken from the front of what arrives, or there is an error and none was. *)
Lemma tcp_recv_spec sk len timeout s : (0 < len)%nat →
  returns (tr_tcp_recv sk len timeout) (λ '(rv, data) s', quiet s' = quiet s ∧ outbox s' = outbox s ∧ inbox s = data ++ inbox s' ∧
    ((rv = Z.of_nat (length data) ∧ (1 <= length data <= len)%nat) ∨ (∃ e, rv = tr_code e ∧ data = []))) s.
Proof.
  intros Hlen. unfold tr_tcp_recv. os_step. apply timeout_spec. intros r s1 Hh1. destruct (r =? -1).
  { os_step. destruct (holdings_parts _ _ Hh1) as (-> & -> & ->). split_and!; try done. right. by exists TR_ERROR. }
  os_step. unfold recv. os_step. os_step. assert (holdings s' = holdings s) as Hs by congruence. apply returns_act.
  assert (∀ e, returns (mret (tcp_error e, []) : Os (Z * list Z)) (λ '(rv, data) s', quiet s' = quiet s ∧ outbox s' = outbox s ∧ inbox s = data ++ inbox s' ∧
    ((rv = Z.of_nat (length data) ∧ (1 <= length data <= len)%nat) ∨ (∃ e, rv = tr_code e ∧ data = []))) s') as Herr.
  { intros e. os_step. destruct (tcp_error_code e) as (c & ->). destruct (holdings_parts _ _ Hs) as (-> & -> & ->). split_and!; try done. right. by exists c. }
  destruct (bool_decide _); [eexists _, _; split; [done|]; apply Herr|]. destruct (z <? 0); [eexists _, _; split; [done|]; apply Herr|].
  eexists _, _. split; [done|]. cbv beta iota. set (n := Nat.min (Z.to_nat z) len). rewrite (proj2 (Z.eqb_neq _ (-1))) by lia.
  assert (inbox s' = inbox s ∧ outbox s' = outbox s ∧ quiet s' = quiet s) as (Hi & Ho & Hq) by by apply holdings_parts.
  destruct (Z.eqb_spec (Z.of_nat (length (take n (inbox s')))) 0) as [Hz|Hz]; os_step; unfold quiet in *; simpl.
  - split_and!; try done; [|right; by exists TR_CLOSED]. assert (take n (inbox s') = []) as Hn by (apply nil_length_inv; lia).
    rewrite <- Hi, <- (take_drop n (inbox s')) at 1. by rewrite Hn.
  - split_and!; try done; [by rewrite take_drop|]. left. split; [done|]. rewrite length_take in *. lia.
Qed.

Lemma tcp_send_spec sk pdu timeout s :
  returns (tr_tcp_send sk pdu timeout) (λ rv s', quiet s' = quiet s ∧ inbox s' = inbox s ∧
    ((1 <= rv <= Z.of_nat (length pdu) ∧ outbox s' = outbox s ++ take (Z.to_nat rv) pdu) ∨ (∃ e, rv = tr_code e ∧ outbox s' = outbox s))) s.
Proof.
  unfold tr_tcp_send. os_step. apply timeout_spec. intros r s1 Hh1. destruct (r =? -1).
  { os_step. destruct (holdings_parts _ _ Hh1) as (-> & -> & ->). split_and!; try done. right. by exists TR_ERROR. }
  os_step. unfold send. os_step. os_step. assert (holdings s' = holdings s) as Hs by congruence. apply returns_act.
  assert (inbox s' = inbox s ∧ outbox s' = outbox s ∧ quiet s' = quiet s) as (Hi & Ho & Hq) by by apply holdings_parts.
  assert (∀ e, returns (mret (tcp_error e) : Os Z) (λ rv s', quiet s' = quiet s ∧ inbox s' = inbox s ∧
    ((1 <= rv <= Z.of_nat (length pdu) ∧ outbox s' = outbox s ++ take (Z.to_nat rv) pdu) ∨ (∃ e, rv = tr_code e ∧ outbox s' = outbox s))) s') as Herr.
  { intros e. os_step. destruct (tcp_error_code e) as (c & ->). split_and!; try done. right. by exists c. }
  destruct (bool_decide _); [eexists _, _; split; [done|]; apply Herr|]. destruct (z <? 0); [eexists _, _; split; [done|]; apply Herr|].
  eexists _, _. split; [done|]. cbv beta iota. set (n := Nat.min (Z.to_nat z) (length pdu)). rewrite (proj2 (Z.eqb_neq _ (-1))) by lia.
  destruct (Z.eqb_spec (Z.of_nat n) 0) as [Hz|Hz]; os_step; unfold quiet in *; simpl.
  - split_and!; try done. right. exists TR_ERROR. split; [done|]. rewrite Ho. assert (n = 0)%nat as -> by lia. by rewrite app_nil_r.
  - split_and!; try done. left. split; [lia|]. by rewrite Nat2Z.id, Ho.
Qed.

(** ** The loops over a TCP connection *)

Definition same_outcome (res : Z + list Z) (res' : tr_error + list Z) : Prop :=
  match res, res' with inl rv, inl e => rv = tr_code e | inr l, inr l' => l = l' | _, _ => False end.

Lemma time_keeps_stream {E} (w : world E) : ∃ t w', rtr_get_monotonic_time w = Some (t, w') ∧ stream (net w') = stream (net w).
Proof.
  unfold rtr_get_monotonic_time, clock_gettime, mbind, M_bind. destruct (clock (net w)) as [|[[? ?]|] l]; eexists _, _; by split.
Qed.

(** A step of the loop, when the network has the data that TCP has. *)
Lemma recv_loop_segment {E} (w : world E) fuel buf left data rest :
  (1 <= length data <= left)%nat → stream (net w) = Segment data :: rest →
  ∃ w', net_recv_loop (S fuel) buf left w = net_recv_loop fuel (buf ++ data) (left - length data) w' ∧ stream (net w') = rest.
Proof.
  intros Hd Hs. destruct (time_keeps_stream w) as (t & w1 & Ht & Hs1). rewrite Hs in Hs1. destruct left as [|left]; [lia|]. cbn [recv_loop].
  unfold mbind, M_bind. rewrite Ht. unfold tr_recv. rewrite Hs1. rewrite (proj2 (Nat.leb_le _ _)) by lia. by eexists.
Qed.

Lemma recv_loop_fails {E} (w : world E) fuel buf left e rest :
  (0 < left)%nat → stream (net w) = RecvFails e :: rest →
  ∃ w', net_recv_loop (S fuel) buf left w = Some (inl e, w') ∧ stream (net w') = rest.
Proof.
  intros Hd Hs. destruct (time_keeps_stream w) as (t & w1 & Ht & Hs1). rewrite Hs in Hs1. destruct left as [|left]; [lia|]. cbn [recv_loop].
  unfold mbind, M_bind. rewrite Ht. unfold tr_recv. rewrite Hs1. by eexists.
Qed.

Lemma tr_code_negative e : tr_code e < 0.
Proof. by destruct e. Qed.

Lemma time_left_spec s (Q : Z → sys → Prop) : (∀ t s', holdings s' = holdings s → Q t s') → returns time_left Q s.
Proof. intros HQ. unfold time_left. os_step. os_step. os_step. by apply HQ. Qed.

(** What the loop took from the data that arrives, as a part of a stream. *)
Definition taken (ins : list incoming) s s' : Prop := quiet s' = quiet s ∧ outbox s' = outbox s ∧ inbox s = bytes_of ins ++ inbox s'.

Lemma tcp_recv_loop_spec sk fuel : ∀ left buf s, (left <= fuel)%nat →
  returns (recv_loop time_left undefined (tcp_recv_fp sk) fuel buf left) (λ res s', ∃ ins, taken ins s s' ∧
    match res with inr l => l = buf ++ bytes_of ins ∧ length (bytes_of ins) = left | inl _ => (length (bytes_of ins) < left)%nat end ∧
    ∃ res', same_outcome res res' ∧ (length ins <= left)%nat ∧ ∀ E (w : world E) rest f, stream (net w) = ins ++ rest → (length ins <= f)%nat →
      ∃ w', net_recv_loop f buf left w = Some (res', w') ∧ stream (net w') = rest) s.
Proof.
  induction fuel as [|fuel IH]; intros left buf s Hl.
  { destruct left; [|lia]. simpl. os_step. exists []. split; [done|]. split; [by rewrite app_nil_r|]. exists (inr buf). split_and!; [done|done|].
    intros E w rest f Hs _. exists w. by destruct f. }
  destruct left as [|left].
  { simpl. os_step. exists []. split; [done|]. split; [by rewrite app_nil_r|]. exists (inr buf). split_and!; [done|done|].
    intros E w rest f Hs _. exists w. by destruct f. }
  cbn [recv_loop]. os_step. apply time_left_spec. intros t s0 (Hi0 & Ho0 & Hq0)%holdings_parts. os_step. unfold tcp_recv_fp. os_step.
  eapply os_mono; [apply tcp_recv_spec; lia|]. intros [rv data] s1 (Hq & Ho & Hi & [(-> & Hd)|(e & -> & ->)]).
  - os_step. rewrite (proj2 (Z.ltb_ge _ 0)) by lia. eapply os_mono; [apply IH; lia|]. intros res s2 (ins & (Hq2 & Ho2 & Hi2) & Hres & res' & Hsame & Hlen & Hsim).
    exists (Segment data :: ins). split; [split_and!; [congruence|congruence|]; simpl; by rewrite <- (assoc_L (++)), <- Hi2, <- Hi|]. split.
    { destruct res as [?|l]; simpl; rewrite length_app; [lia|]. destruct Hres as [-> ?]. rewrite <- (assoc_L (++)). split; [done|lia]. }
    exists res'. split; [done|]. split; [simpl; lia|]. intros E w rest f Hs Hf. simpl in Hs, Hf.
    destruct f as [|f]; [lia|]. destruct (recv_loop_segment w f buf (S left) data _ Hd Hs) as (w1 & -> & Hs1). apply (Hsim E w1 rest f Hs1). lia.
  - os_step. rewrite (proj2 (Z.ltb_lt _ 0)) by apply tr_code_negative. os_step. exists [RecvFails e].
    split; [split_and!; [congruence|congruence|simpl; by rewrite <- Hi0]|]. split; [simpl; lia|]. exists (inl e). split; [done|].
    split; [simpl; lia|]. intros E w rest f Hs Hf. simpl in Hs, Hf. destruct f as [|f]; [lia|]. apply (recv_loop_fails w f buf (S left) e rest); [lia|done].
Qed.

(** C25: Receiving [len] bytes over a TCP connection returns, whatever the system answers and
    however it cuts the data.  On success the result are the next [len] bytes of the data that
    arrives, on failure fewer bytes were taken from it, and nothing else was done.  In both
    cases this is the run of the same loop over the abstract network of the model whose
    stream has the data taken, and the failure if there is one. *)
Theorem tcp_recv_all_refines sk len s :
  returns (tcp_recv_all sk len) (λ res s', ∃ ins, quiet s' = quiet s ∧ outbox s' = outbox s ∧ inbox s = bytes_of ins ++ inbox s' ∧
    match res with inr l => l = take len (inbox s) ∧ length l = len | inl _ => (length (bytes_of ins) < len)%nat end ∧
    ∀ E (w : world E) rest, stream (net w) = ins ++ rest →
      ∃ res' w', tr_recv_all len w = Some (res', w') ∧ same_outcome res res' ∧ stream (net w') = rest) s.
Proof.
  unfold tcp_recv_all. os_step. apply time_left_spec. intros t s0 (Hi0 & Ho0 & Hq0)%holdings_parts.
  eapply os_mono; [by apply tcp_recv_loop_spec|]. intros res s' (ins & (Hq & Ho & Hi) & Hres & res' & Hsame & Hlen & Hsim). exists ins.
  split; [congruence|]. split; [congruence|]. rewrite <- Hi0. split; [done|]. split.
  { destruct res as [?|l]; [done|]. destruct Hres as [-> Hl]. simpl. rewrite Hi, take_app_length' by done. done. }
  intros E w rest Hs. destruct (time_keeps_stream w) as (t' & w1 & Ht & Hs1). rewrite Hs in Hs1.
  destruct (Hsim E w1 rest (S (length (stream (net w)))) Hs1) as (w' & Hr & Hs'); [rewrite Hs, length_app; lia|].
  exists res', w'. split; [|done]. unfold tr_recv_all, mbind, M_bind. by rewrite Ht.
Qed.

Lemma tcp_send_loop_spec sk fuel : ∀ rest total s, (length rest <= fuel)%nat →
  returns (send_loop time_left undefined (tcp_send_fp sk) fuel rest total) (λ res s', quiet s' = quiet s ∧ inbox s' = inbox s ∧ ∃ n,
    outbox s' = outbox s ++ take n rest ∧
    match res with inr k => n = length rest ∧ k = (total + length rest)%nat | inl rv => (n < length rest)%nat ∧ ∃ e, rv = tr_code e end) s.
Proof.
  induction fuel as [|fuel IH]; intros rest total s Hl; (destruct rest as [|b rest]; [cbn [send_loop]; os_step; split_and!; [done|done|]; exists 0%nat; simpl; rewrite app_nil_r; by split_and!|]);
    [simpl in Hl; lia|]. cbn [send_loop]. set (r := b :: rest) in *. os_step. apply time_left_spec. intros t s0 (Hi0 & Ho0 & Hq0)%holdings_parts. os_step.
  unfold tcp_send_fp. os_step. eapply os_mono; [apply tcp_send_spec|]. intros rv s1 (Hq & Hi & [(Hrv & Ho)|(e & -> & Ho)]).
  - os_step. rewrite (proj2 (Z.ltb_ge _ 0)) by lia. eapply os_mono; [apply IH; rewrite length_drop; lia|]. intros res s2 (Hq2 & Hi2 & n & Ho2 & Hres).
    split; [congruence|]. split; [congruence|]. exists (Z.to_nat rv + n)%nat. rewrite length_drop in Hres. split.
    + by rewrite Ho2, Ho, Ho0, <- (assoc_L (++)), <- (take_take_drop r (Z.to_nat rv)).
    + destruct res as [rv'|k]; [destruct Hres as [? ?]; split; [lia|done]|]. lia.
  - os_step. rewrite (proj2 (Z.ltb_lt _ 0)) by apply tr_code_negative. os_step. split; [congruence|]. split; [congruence|].
    exists 0%nat. simpl. rewrite app_nil_r. split; [congruence|]. split; [lia|by exists e].
Qed.

(** C30: Sending a PDU over a TCP connection returns, whatever the system answers and however
    few bytes it accepts at a time, since a call that accepts none is an error.  On success
    the whole PDU was added, once and in order, to the data that was accepted, on failure a
    proper prefix of it. *)
Theorem tcp_send_all_correct sk pdu s :
  returns (tcp_send_all sk pdu) (λ res s', quiet s' = quiet s ∧ inbox s' = inbox s ∧ ∃ n, outbox s' = outbox s ++ take n pdu ∧
    match res with inr k => n = length pdu ∧ k = length pdu | inl rv => (n < length pdu)%nat ∧ ∃ e, rv = tr_code e end) s.
Proof.
  unfold tcp_send_all. os_step. apply time_left_spec. intros t s0 (Hi0 & Ho0 & Hq0)%holdings_parts.
  eapply os_mono; [by apply tcp_send_loop_spec|]. intros res s' (Hq & Hi & n & Ho & Hres). split; [congruence|]. split; [congruence|].
  exists n. split; [congruence|done].
Qed.

(** ** From the beginning to the end *)

(** The blocks a socket owns. *)
Definition tcp_blocks sk : list (option nat) :=
  [block_of (tcp_host sk); block_of (tcp_port sk); block_of (tcp_bindaddr sk); block_of (tcp_ident sk); Some (tcp_block sk)].

Lemma tcp_init_spec (config : rtr_tr_tcp_config) host port base s :
  cfg_host config = Some host → cfg_port config = Some port → owns [] base s →
  returns (rtr_tr_tcp_init config) (λ '(rv, osk) s', others_than_heap s' = others_than_heap s ∧
    match osk with
    | None => rv = RTR_TR_ERROR ∧ owns [] base s'
    | Some sk => rv = RTR_TR_SUCCESS ∧ tcp_fd sk = -1 ∧ owns (tcp_blocks sk) base s'
    end) s.
Proof.
  intros Hhost Hport Ho. unfold rtr_tr_tcp_init. rewrite Hhost, Hport. os_step. eapply malloc_spec; [done|]. intros [b|] s1 H1 Hs1.
  2:{ os_step. split; [done|]. split; [done|]. destruct H1. by split. }
  os_step. eapply strdup_spec; [done|]. intros h s2 H2 Hs2. os_step. eapply strdup_spec; [done|]. intros q s3 H3 Hs3. os_step.
  assert (∀ bind s4, owns (block_of bind :: block_of q :: block_of h :: [Some b]) base s4 → others_than_heap s4 = others_than_heap s3 →
    ∀ t, let sk := TcpSocket b (-1) h q bind (cfg_new_socket config) t None in
    others_than_heap s4 = others_than_heap s ∧ RTR_TR_SUCCESS = RTR_TR_SUCCESS ∧ tcp_fd sk = -1 ∧ owns (tcp_blocks sk) base s4) as Hend.
  { intros bind s4 H4 Hs4 t sk. split; [congruence|]. split; [done|]. split; [done|].
    apply (owns_perm (None :: block_of bind :: block_of q :: block_of h :: [Some b])); [unfold tcp_blocks; simpl; solve_Permutation|]. destruct H4. by split. }
  destruct (cfg_bindaddr config) as [t|]; simpl.
  - eapply strdup_spec; [done|]. intros bind s4 H4 Hs4. os_step. by apply Hend.
  - os_step. os_step. apply Hend; [|done]. destruct H3. by split.
Qed.

Lemma tcp_free_spec sk base s : tcp_fd sk = -1 → owns (tcp_blocks sk) base s →
  returns (tr_tcp_free sk) (λ _ s', owns [] base s' ∧ others_than_heap s' = others_than_heap s) s.
Proof.
  intros Hfd Ho. unfold tr_tcp_free. os_step. rewrite Hfd, assert_true by done. do 2 os_step. eapply free_spec; [exact Ho|]. intros s1 H1 Hs1.
  os_step. eapply free_spec; [exact H1|]. intros s2 H2 Hs2. os_step. eapply free_spec; [exact H2|]. intros s3 H3 Hs3. os_step.
  apply (os_mono _ (λ _ s', owns [Some (tcp_block sk)] base s' ∧ others_than_heap s' = others_than_heap s3)).
  - destruct (tcp_ident sk) as [i|]; simpl; [eapply free_spec; [exact H3|]; by intros s4 H4 Hs4|os_step; split; [destruct H3; by split|done]].
  - intros _ s4 [H4 Hs4]. eapply free_spec; [exact H4|]. intros s5 H5 Hs5. split; [done|congruence].
Qed.

(** The life of a transport: it is initialised, opened, closed and freed. *)
Definition tcp_life (config : rtr_tr_tcp_config) : Os unit :=
  '(_, osk) ← rtr_tr_tcp_init config;
  match osk with
  | None => mret tt
  | Some sk => '(_, sk) ← tr_tcp_open sk; sk ← tr_tcp_close sk; tr_tcp_free sk
  end.

Lemma tcp_close_spec sk s (Q : tr_tcp_socket → sys → Prop) :
  Q (set_fd sk (-1)) (if tcp_fd sk <? 0 then s else set_fds s (delete (tcp_fd sk) (fds s))) → returns (tr_tcp_close sk) Q s.
Proof.
  intros HQ. unfold tr_tcp_close. os_step. destruct (Z.eqb_spec (tcp_fd sk) (-1)) as [He|He]; simpl negb; cbv iota.
  - rewrite He in HQ. os_step. by os_step.
  - unfold close. eexists _, _. split; [done|]. by os_step.
Qed.

(** C23: A transport that is initialised, opened, closed and freed gives back everything,
    whether opening it succeeds or not, and whichever call of the system or the allocator
    fails: file descriptors, lists of addresses and memory are as before. *)
Theorem tcp_life_correct (config : rtr_tr_tcp_config) s :
  is_Some (cfg_host config) → is_Some (cfg_port config) → heap_ok s →
  returns (tcp_life config) (λ _ s', fds s' = fds s ∧ infos s' = infos s ∧ live s' = live s) s.
Proof.
  intros [host Hh] [port Hp] Hok. unfold tcp_life. os_step. eapply os_mono; [by eapply tcp_init_spec, owns_nil|].
  intros [rv [sk|]] s1 (Hs1 & H1); cbv beta iota.
  2:{ destruct H1 as [_ Ho]. os_step. unfold others_than_heap in Hs1. simplify_eq. rewrite (owns_live _ _ _ Ho). simpl. by rewrite union_empty_l_L. }
  destruct H1 as (_ & Hfd & Ho). os_step. eapply os_mono; [by apply tcp_open_spec|]. intros [rv2 sk2] s2 (Hi2 & Hot2 & Hres).
  assert (owns (tcp_blocks sk) (live s) s2) as Ho2.
  { unfold others in Hot2. simplify_eq. destruct Ho as [Ha Hb Hc Hd]. split; [congruence|done|done|]. intros p Hl. specialize (Hd p). unfold heap_ok in *.
    assert (next s2 = next s1 ∧ live s2 = live s1) as [-> Hl2] by by split. apply Hd. by rewrite <- Hl2. }
  assert (infos s1 = infos s ∧ fds s1 = fds s) as [Hi1 Hf1] by (unfold others_than_heap in Hs1; by simplify_eq).
  cbv beta iota. os_step. apply tcp_close_spec.
  assert (∀ s3, fds s3 = fds s → infos s3 = infos s → live s3 = live s2 → next s3 = next s2 →
    returns (tr_tcp_free (set_fd sk2 (-1))) (λ _ s', fds s' = fds s ∧ infos s' = infos s ∧ live s' = live s) s3) as Hend.
  { intros s3 Hf Hi Hl Hn. eapply os_mono; [apply (tcp_free_spec _ (live s)); [done|]|].
    - assert (tcp_blocks (set_fd sk2 (-1)) = tcp_blocks sk) as -> by (by destruct Hres as [(_ & fd & fl & -> & _)|(_ & -> & _)]).
      destruct Ho2 as [Ha Hb Hc Hd]. split; [congruence|done|done|]. intros p Hq. rewrite Hn. apply Hd. by rewrite <- Hl.
    - intros _ s4 [H4 Hs4]. unfold others_than_heap in Hs4. simplify_eq. split_and!; [congruence|congruence|].
      rewrite (owns_live _ _ _ H4). simpl. by rewrite union_empty_l_L. }
  destruct Hres as [(_ & fd & fl & -> & Hfd0 & Hnew & Hfds & _)|(_ & -> & Hfds)]; simpl tcp_fd.
  - rewrite (proj2 (Z.ltb_ge fd 0)) by done. apply Hend; simpl; [|congruence|done|done]. rewrite Hfds, Hf1, delete_insert_id by congruence. done.
  - rewrite Hfd. change (-1 <? 0) with true. cbv iota. apply Hend; congruence.
Qed.

End Tcp.

(** ** Instances *)

Definition sample_tcp : rtr_tr_tcp_config := TcpConfig (Some "cache.example.net") (Some "323") (Some "192.0.2.1") false 0.
(** Descriptors 0 to 2 are open. *)
Definition fresh_sys (l : list (Z * Z)) : sys := Sys l {[0 := O_RDWR; 1 := O_RDWR; 2 := O_RDWR]} 0 ∅ 0 false [] [] [].

Lemma fresh_heap_ok l : heap_ok (fresh_sys l).
Proof. intros p Hp. simpl in Hp. set_solver. Qed.

(** The connection is refused: [getsockopt] reports an error. *)
Definition refused : list (Z * Z) := [(0, 0); (0, 0); (0, 0); (0, 0); (0, 0); (0, 0); (0, 0); (0, 0); (0, 0); (0, 0); (-1, EINPROGRESS); (1, 0); (0, 111)].

Lemma tcp_life_correct_witness :
  returns (tcp_life (H := release_build) sample_tcp) (λ _ s', fds s' = fds (fresh_sys refused) ∧ infos s' = 0%nat ∧ live s' = ∅) (fresh_sys refused).
Proof.
  apply (tcp_life_correct (H := release_build) sample_tcp (fresh_sys refused)); [by eexists|by eexists|apply fresh_heap_ok].
Defined.

Lemma tcp_open_correct_witness :
  let sk := TcpSocket 0 (-1) (Some (1%nat, "cache.example.net")) (Some (2%nat, "323")) None false 30 None in
  returns (tr_tcp_open (H := release_build) sk) (λ '(rv, sk') s', rv = RTR_TR_SUCCESS ∧ tcp_fd sk' = 3 ∧ infos s' = 0%nat)
    (fresh_sys [(0, 0); (0, 0); (0, 0); (0, 0); (-1, EINPROGRESS); (1, 0)]).
Proof.
  intros sk. set (s := fresh_sys _). destruct (tcp_open_correct (H := release_build) sk s eq_refl) as ([rv sk'] & s' & Hr & Hi & _ & Hres).
  exists (rv, sk'), s'. split; [exact Hr|]. vm_compute in Hr. injection Hr as <- <- <-. done.
Defined.

(** ** Limits *)

(** The copies of the strings are not checked: without memory for the copy of the host, the
    transport is initialised successfully, and asking for its name reads a null pointer. *)
Lemma tcp_init_ignores_failure :
  returns (rtr_tr_tcp_init sample_tcp) (λ '(rv, osk) s', rv = RTR_TR_SUCCESS ∧ ∃ sk, osk = Some sk ∧ tr_tcp_ident sk s' = None)
    (fresh_sys [(0, 0); (-1, 0)]).
Proof. eexists _, _. split; [vm_compute; reflexivity|]. split; [reflexivity|]. eexists. split; [reflexivity|]. vm_compute. reflexivity. Qed.
