(* ===== verification/Ssh.v ===== *)
(** * The SSH transport: [rtrlib/transport/ssh/ssh_transport.c]

    Sessions and channels of libssh are blocks of memory; to use one that was freed, or the
    null pointer, is undefined.  The code is that for libssh 0.9 and later.  Debug output
    is left out, and so are the parts of [rtr_tr_ssh_init] that set function pointers. *)

From stdpp Require Import strings gmap.
From S2P Require Import Prelude Sys Tcp.
Open Scope Z_scope.

Definition SSH_OK : Z := 0.
Definition SSH_ERROR : Z := -1.
Definition SSH_AGAIN : Z := -2.
Definition SSH_EINTR : Z := 3.
Definition SSH_AUTH_SUCCESS : Z := 0.
Definition SSH_KNOWN_HOSTS_OK : Z := 1.

Record rtr_tr_ssh_config := SshConfig {
  scfg_host : option string;
  scfg_port : Z;
  scfg_bindaddr : option string;
  scfg_username : option string;
  scfg_server_hostkey_path : option string;
  scfg_client_privkey_path : option string;
  scfg_new_socket : bool;
  scfg_connect_timeout : Z;
  scfg_password : option string }.

Record tr_ssh_socket := SshSocket {
  ssh_block : nat;
  session : option nat;
  channel : option nat;
  ssh_host : str_ptr;
  ssh_port : Z;
  ssh_bindaddr : str_ptr;
  ssh_username : str_ptr;
  server_hostkey_path : str_ptr;
  client_privkey_path : str_ptr;
  ssh_new_socket : bool;
  ssh_connect_timeout : Z;
  password : str_ptr;
  ssh_ident : str_ptr }.
Implicit Types sk : tr_ssh_socket.

Definition set_session sk (p : option nat) : tr_ssh_socket :=
  SshSocket (ssh_block sk) p (channel sk) (ssh_host sk) (ssh_port sk) (ssh_bindaddr sk) (ssh_username sk) (server_hostkey_path sk)
    (client_privkey_path sk) (ssh_new_socket sk) (ssh_connect_timeout sk) (password sk) (ssh_ident sk).
Definition set_channel sk (p : option nat) : tr_ssh_socket :=
  SshSocket (ssh_block sk) (session sk) p (ssh_host sk) (ssh_port sk) (ssh_bindaddr sk) (ssh_username sk) (server_hostkey_path sk)
    (client_privkey_path sk) (ssh_new_socket sk) (ssh_connect_timeout sk) (password sk) (ssh_ident sk).
Definition set_ssh_ident sk (i : str_ptr) : tr_ssh_socket :=
  SshSocket (ssh_block sk) (session sk) (channel sk) (ssh_host sk) (ssh_port sk) (ssh_bindaddr sk) (ssh_username sk) (server_hostkey_path sk)
    (client_privkey_path sk) (ssh_new_socket sk) (ssh_connect_timeout sk) (password sk) i.

(** ** libssh *)

(** A call on an object of libssh, and its answer. *)
Definition use (p : option nat) : Os unit := λ s,
  match p with Some p => if decide (p ∈ live s) then Some (tt, s) else None | None => None end.
Definition ssh_ask (p : option nat) : Os Z := use p;; '(r, _) ← ask; mret r.
Definition note (c : ssh_call) : Os unit := λ s, Some (tt, set_log s (log s ++ [c])).

(** What is set does not matter here: the answers are arbitrary. *)
Inductive ssh_option := LOG_VERBOSITY | HOST | PORT | BINDADDR | USER | KNOWNHOSTS | IDENTITY | FD.
Definition ssh_new : Os (option nat) := malloc.
Definition ssh_options_set (p : option nat) (type : ssh_option) : Os unit := use p.
Definition ssh_set_blocking (p : option nat) : Os unit := use p.
Definition ssh_connect (p : option nat) : Os Z := ssh_ask p.
Definition ssh_get_fd (p : option nat) : Os Z := ssh_ask p.
Definition ssh_session_is_known_server (p : option nat) : Os Z := r ← ssh_ask p; note (KnownServer r);; mret r.
Definition ssh_userauth_publickey_auto (p : option nat) : Os Z := r ← ssh_ask p; note (PublicKeyAuth r);; mret r.
Definition ssh_userauth_password (p : option nat) : Os Z := r ← ssh_ask p; note (PasswordAuth r);; mret r.
Definition ssh_channel_new (p : option nat) : Os (option nat) := use p;; malloc.
Definition ssh_channel_open_session (p : option nat) : Os Z := ssh_ask p.
Definition ssh_channel_request_subsystem (p : option nat) : Os Z := r ← ssh_ask p; note (Subsystem r);; mret r.
Definition ssh_channel_is_open (p : option nat) : Os Z := ssh_ask p.
Definition ssh_channel_close (p : option nat) : Os Z := ssh_ask p.
Definition ssh_channel_free (p : option nat) : Os unit := use p;; free_block p.
Definition ssh_disconnect (p : option nat) : Os unit := use p.
Definition ssh_free (p : option nat) : Os unit := use p;; free_block p.
Definition ssh_channel_is_eof (p : option nat) : Os Z := ssh_ask p.
(** The return value, and whether the channel is left in the array. *)
Definition ssh_channel_select (p : option nat) : Os (Z * bool) := use p;; '(r, ready) ← ask; mret (r, negb (ready =? 0)).
(** A number of bytes that is at most [len], or a negative number: [SSH_ERROR], and in some
    versions [SSH_AGAIN] or [SSH_EOF]. *)
Definition ssh_channel_read_nonblocking (p : option nat) (len : nat) : Os (Z * list Z) :=
  use p;;
  '(r, _) ← ask;
  act (λ s, if r <? 0 then Some ((r, []), s)
       else let n := Nat.min (Z.to_nat r) len in
            Some ((Z.of_nat (length (take n (inbox s))), take n (inbox s)), set_boxes s (drop n (inbox s)) (outbox s))).
Definition ssh_channel_write (p : option nat) (data : list Z) : Os Z :=
  use p;;
  '(r, _) ← ask;
  act (λ s, if r <? 0 then Some (r, s)
       else let n := Nat.min (Z.to_nat r) (length data) in Some (Z.of_nat n, set_boxes s (inbox s) (outbox s ++ take n data))).

(** ** The transport *)

Section Ssh.
Context `{Build}.

Definition tr_ssh_close sk : Os tr_ssh_socket :=
  sk ← (if bool_decide (is_Some (channel sk)) then
          o ← ssh_channel_is_open (channel sk);
          (if negb (o =? 0) then ssh_channel_close (channel sk);; mret tt else mret tt);;
          ssh_channel_free (channel sk);;
          mret (set_channel sk None)
        else mret sk);
  if bool_decide (is_Some (session sk)) then
    ssh_disconnect (session sk);;
    ssh_free (session sk);;
    mret (set_session sk None)
  else mret sk.

Definition ssh_error sk : Os (Z * tr_ssh_socket) := sk ← tr_ssh_close sk; mret (RTR_TR_ERROR, sk).

(** The loop that connects: [false] is the jump to [error].  Each iteration takes an answer. *)
Fixpoint connect_loop (fuel : nat) sk : Os bool :=
  match fuel with
  | O => undefined
  | S fuel =>
      ret ← ssh_connect (session sk);
      if ret =? SSH_ERROR then mret false
      else
        go ← (if ret =? SSH_AGAIN then
                ssh_get_fd (session sk);;
                sret ← select;
                mret (negb (sret =? 0))
              else mret true);
        if negb go then mret false
        else if ret =? SSH_OK then mret true
        else connect_loop fuel sk
  end.

(** From the authentication on. *)
Definition ssh_channel_setup sk : Os (Z * tr_ssh_socket) :=
  ch ← ssh_channel_new (session sk);
  let sk := set_channel sk ch in
  if bool_decide (ch = None) then ssh_error sk
  else
    r ← ssh_channel_open_session (channel sk);
    if r =? SSH_ERROR then ssh_error sk
    else
      r ← ssh_channel_request_subsystem (channel sk);
      if r =? SSH_ERROR then ssh_error sk else mret (RTR_TR_SUCCESS, sk).

Definition ssh_authenticate sk : Os (Z * tr_ssh_socket) :=
  if bool_decide (is_Some (client_privkey_path sk)) then
    ssh_options_set (session sk) IDENTITY;;
    rtval ← ssh_userauth_publickey_auto (session sk);
    if negb (rtval =? SSH_AUTH_SUCCESS) then ssh_error sk else ssh_channel_setup sk
  else
    rtval ← ssh_userauth_password (session sk);
    if negb (rtval =? SSH_AUTH_SUCCESS) then ssh_error sk else ssh_channel_setup sk.

Definition ssh_connected sk : Os (Z * tr_ssh_socket) :=
  ssh_set_blocking (session sk);;
  wrong ← (if bool_decide (is_Some (server_hostkey_path sk)) then
             r ← ssh_session_is_known_server (session sk); mret (negb (r =? SSH_KNOWN_HOSTS_OK))
           else mret false);
  if (wrong : bool) then ssh_error sk else ssh_authenticate sk.

Definition tr_ssh_open sk : Os (Z * tr_ssh_socket) :=
  require (assert_ (bool_decide (channel sk = None)));;
  require (assert_ (bool_decide (session sk = None)));;
  p ← ssh_new;
  let sk := set_session sk p in
  if bool_decide (p = None) then ssh_error sk
  else
    ssh_options_set (session sk) LOG_VERBOSITY;;
    ssh_options_set (session sk) HOST;;
    ssh_options_set (session sk) PORT;;
    ssh_options_set (session sk) BINDADDR;;
    ssh_options_set (session sk) USER;;
    (if bool_decide (is_Some (server_hostkey_path sk)) then ssh_options_set (session sk) KNOWNHOSTS else mret tt);;
    (if bool_decide (is_Some (client_privkey_path sk)) then ssh_options_set (session sk) IDENTITY else mret tt);;
    failed ← (if ssh_new_socket sk then
                fd ← new_socket;
                if 0 <=? fd then ssh_options_set (session sk) FD;; mret false else mret true
              else mret false);
    if (failed : bool) then ssh_error sk
    else
      ssh_set_blocking (session sk);;
      ok ← (λ s, connect_loop (S (length (answers s))) sk s);
      if negb ok then ssh_error sk else ssh_connected sk.

Definition tr_ssh_recv_async sk (buf_len : nat) : Os (Z * list Z) :=
  '(rtval, data) ← ssh_channel_read_nonblocking (channel sk) buf_len;
  if rtval =? 0 then
    eof ← ssh_channel_is_eof (channel sk);
    mret (if negb (eof =? 0) then RTR_TR_CLOSED else RTR_TR_WOULDBLOCK, [])
  else if rtval =? SSH_ERROR then mret (RTR_TR_ERROR, [])
  else mret (rtval, data).

Definition tr_ssh_recv sk (buf_len : nat) : Os (Z * list Z) :=
  '(ret, ready) ← ssh_channel_select (channel sk);
  if ret =? SSH_EINTR then mret (RTR_TR_INTR, [])
  else if ret =? SSH_ERROR then mret (RTR_TR_ERROR, [])
  else
    eof ← ssh_channel_is_eof (channel sk);
    if negb (eof =? 0) then mret (RTR_TR_ERROR, [])
    else if negb ready then mret (RTR_TR_WOULDBLOCK, [])
    else tr_ssh_recv_async sk buf_len.

Definition tr_ssh_send sk (pdu : list Z) : Os Z :=
  ret ← ssh_channel_write (channel sk) pdu;
  if ret =? SSH_ERROR then mret RTR_TR_ERROR else mret ret.

(** [ssh_port] is printed by the parameter [print]; the text is cut to the buffer. *)
Definition tr_ssh_ident (print : Z → string) sk : Os (option string * tr_ssh_socket) :=
  match ssh_ident sk with
  | Some (_, t) => mret (Some t, sk)
  | None =>
      '(_, username) ← require (ssh_username sk);
      '(_, host) ← require (ssh_host sk);
      let len := (String.length username + 1 + String.length host + 1 + 5 + 1)%nat in
      p ← malloc;
      match p with
      | None => mret (None, sk)
      | Some p =>
          let t := String.substring 0 (len - 1) (username +:+ "@" +:+ host +:+ ":" +:+ print (ssh_port sk)) in
          mret (Some t, set_ssh_ident sk (Some (p, t)))
      end
  end.

(** The copy of the password is not freed. *)
Definition tr_ssh_free sk : Os unit :=
  require (assert_ (bool_decide (channel sk = None)));;
  require (assert_ (bool_decide (session sk = None)));;
  rtr_free (block_of (ssh_host sk));;
  rtr_free (block_of (ssh_bindaddr sk));;
  rtr_free (block_of (ssh_username sk));;
  rtr_free (block_of (client_privkey_path sk));;
  rtr_free (block_of (server_hostkey_path sk));;
  (if bool_decide (is_Some (ssh_ident sk)) then rtr_free (block_of (ssh_ident sk)) else mret tt);;
  rtr_free (Some (ssh_block sk)).

(** What follows the label [error] of [rtr_tr_ssh_init]; the socket is kept, with pointers
    to memory that was freed. *)
Definition ssh_init_error sk : Os (Z * option tr_ssh_socket) :=
  libc_free (block_of (ssh_host sk));;
  libc_free (block_of (ssh_username sk));;
  libc_free (block_of (ssh_bindaddr sk));;
  libc_free (block_of (client_privkey_path sk));;
  libc_free (block_of (server_hostkey_path sk));;
  libc_free (block_of (password sk));;
  mret (RTR_TR_ERROR, Some sk).

(** A copy of a string that may be null; [false] if there is no memory. *)
Definition copy_optional (t : option string) : Os (bool * str_ptr) :=
  match t with
  | None => mret (true, None)
  | Some t => p ← rtr_strdup (Some t); mret (bool_decide (is_Some p), p)
  end.

Definition rtr_tr_ssh_init (config : rtr_tr_ssh_config) : Os (Z * option tr_ssh_socket) :=
  b ← malloc;
  match b with
  | None => mret (RTR_TR_ERROR, None)
  | Some b =>
      let sk host username bindaddr priv key timeout pass :=
        SshSocket b None None host (scfg_port config) bindaddr username key priv (scfg_new_socket config) timeout pass None in
      host ← rtr_strdup (scfg_host config);
      if bool_decide (host = None) then ssh_init_error (sk None None None None None 0 None)
      else
        username ← rtr_strdup (scfg_username config);
        if bool_decide (username = None) then ssh_init_error (sk host None None None None 0 None)
        else if Bool.eqb (bool_decide (is_Some (scfg_password config))) (bool_decide (is_Some (scfg_client_privkey_path config)))
        then ssh_init_error (sk host username None None None 0 None)
        else
          '(ok, bindaddr) ← copy_optional (scfg_bindaddr config);
          if negb ok then ssh_init_error (sk host username None None None 0 None)
          else
            '(ok, priv) ← copy_optional (scfg_client_privkey_path config);
            if negb ok then ssh_init_error (sk host username bindaddr None None 0 None)
            else
              '(ok, key) ← copy_optional (scfg_server_hostkey_path config);
              if negb ok then ssh_init_error (sk host username bindaddr priv None 0 None)
              else
                let timeout := if scfg_connect_timeout config =? 0 then RTRLIB_TRANSPORT_CONNECT_TIMEOUT_DEFAULT else scfg_connect_timeout config in
                '(ok, pass) ← copy_optional (scfg_password config);
                if negb ok then ssh_init_error (sk host username bindaddr priv key timeout None)
                else mret (RTR_TR_SUCCESS, Some (sk host username bindaddr priv key timeout pass))
  end.

End Ssh.
