(* ===== verification/SshTheorems.v ===== *)
(** * The SSH transport: what opening, receiving and freeing do *)

From stdpp Require Import strings gmap.
From S2P Require Import Prelude Transport Sys Tcp TcpTheorems Ssh.
Open Scope Z_scope.

Section Ssh.
Context `{Build}.
Implicit Types (s : sys) (sk : tr_ssh_socket).

(** The process owns the blocks [l], and the calls that were noted are [lg]. *)
Record ssh_at (l : list (option nat)) (base : gset nat) (lg : list ssh_call) s : Prop := { at_owns : owns l base s; at_log : log s = lg }.

Lemma ssh_at_held l base lg s s' : ssh_at l base lg s → holdings s' = holdings s → ssh_at l base lg s'.
Proof.
  intros [[H1 H2 H3 H4] Hl] Hh. assert (live s' = live s ∧ next s' = next s ∧ log s' = log s) as (Ha & Hb & Hc) by (split_and!; held).
  split; [|congruence]. split; [congruence|done|done|]. intros p Hp. rewrite Hb. apply H4. by rewrite <- Ha.
Qed.

Lemma ssh_at_perm l l' base lg s : l ≡ₚ l' → ssh_at l base lg s → ssh_at l' base lg s.
Proof. intros Hp [Ho Hl]. split; [by eapply owns_perm|done]. Qed.

Lemma use_spec l base lg p s (Q : unit → sys → Prop) : ssh_at l base lg s → Some p ∈ l → Q tt s → returns (use (Some p)) Q s.
Proof.
  intros Ha Hp HQ. exists tt, s. split; [|done]. unfold use. rewrite decide_True; [done|]. rewrite (owns_live _ _ _ (at_owns _ _ _ _ Ha)).
  apply elem_of_union_l, elem_of_list_to_set, list_elem_of_omap. by exists (Some p).
Qed.

Lemma use_if_spec (b : bool) l base lg p s (Q : unit → sys → Prop) :
  ssh_at l base lg s → Some p ∈ l → Q tt s → returns (if b then use (Some p) else mret tt) Q s.
Proof. intros. destruct b; [by eapply use_spec|by os_step]. Qed.

(** A call with an answer; when there are no more answers it is 0. *)
Lemma ssh_ask_spec l base lg p s (Q : Z → sys → Prop) :
  ssh_at l base lg s → Some p ∈ l →
  (∀ r s', ssh_at l base lg s' → (length (answers s') < length (answers s))%nat ∨ (r = 0 ∧ s' = s) → Q r s') → returns (ssh_ask (Some p)) Q s.
Proof.
  intros Ha Hp HQ. unfold ssh_ask. os_step. eapply use_spec; [done..|]. os_step. unfold returns at 1, ask. destruct (answers s) as [|[r e] a] eqn:Hans.
  - eexists _, _. split; [done|]. cbv beta iota. os_step. apply HQ; [done|by right].
  - eexists _, _. split; [done|]. cbv beta iota. os_step. apply HQ; [by eapply ssh_at_held|left; simpl; lia].
Qed.

Lemma ssh_call_spec (c : Z → ssh_call) l base lg p s (Q : Z → sys → Prop) :
  ssh_at l base lg s → Some p ∈ l → (∀ r s', ssh_at l base (lg ++ [c r]) s' → Q r s') → returns (r ← ssh_ask (Some p); note (c r);; mret r) Q s.
Proof.
  intros Ha Hp HQ. os_step. eapply ssh_ask_spec; [done..|]. intros r s1 [Ho Hl] _. os_step. eexists _, _. split; [done|]. os_step. apply HQ.
  split; [|simpl; by rewrite Hl]. destruct Ho. by split.
Qed.

Lemma ssh_free_spec p l base lg s (Q : unit → sys → Prop) :
  ssh_at (Some p :: l) base lg s → (∀ s', ssh_at l base lg s' → Q tt s') → returns (use (Some p);; free_block (Some p)) Q s.
Proof.
  intros Ha HQ. os_step. eapply use_spec; [done|by left|]. eapply free_spec; [apply Ha|]. intros s' Ho Hs. apply HQ. split; [done|].
  unfold others_than_heap in Hs. simplify_eq. destruct Ha as [_ Hl]. congruence.
Qed.

Lemma ssh_close_spec sk l base lg s :
  ssh_at (channel sk :: session sk :: l) base lg s →
  returns (tr_ssh_close sk) (λ sk' s', sk' = set_session (set_channel sk None) None ∧ ssh_at l base lg s') s.
Proof.
  intros Ha. unfold tr_ssh_close. os_step.
  apply (os_mono _ (λ sk' s', sk' = set_channel sk None ∧ ssh_at (session sk :: l) base lg s')).
  - destruct (channel sk) as [ch|] eqn:Hch; simpl.
    + os_step. eapply ssh_ask_spec; [done|by left|]. intros o s1 H1 _. os_step.
      apply (os_mono _ (λ _ s', ssh_at (Some ch :: session sk :: l) base lg s')).
      * destruct (negb _); [|by os_step]. os_step. eapply ssh_ask_spec; [done|by left|]. intros r s2 H2 _. by os_step.
      * intros _ s2 H2. os_step. eapply ssh_free_spec; [done|]. intros s3 H3. by os_step.
    + os_step. split; [destruct sk; simpl in *; by subst|]. destruct Ha as [[? ? ? ?] ?]. by split.
  - intros sk1 s1 [-> H1]. simpl. destruct (session sk) as [se|] eqn:Hse; simpl.
    + os_step. eapply use_spec; [done|by left|]. os_step. eapply ssh_free_spec; [done|]. intros s2 H2. by os_step.
    + os_step. split; [destruct sk; simpl in *; by subst|]. destruct H1 as [[? ? ? ?] ?]. by split.
Qed.

(** ** Opening *)

(** What [tr_ssh_open] leaves behind: on success the server's key and the client were
    checked, as far as it is configured. *)
Definition ssh_open_result s0 sk : Z * tr_ssh_socket → sys → Prop := λ '(rv, sk') s',
  (rv = RTR_TR_SUCCESS ∧ ∃ se ch r, sk' = set_channel (set_session sk (Some se)) (Some ch) ∧ r ≠ SSH_ERROR ∧
     ssh_at [Some ch; Some se] (live s0) (log s0 ++ (if bool_decide (is_Some (server_hostkey_path sk)) then [KnownServer SSH_KNOWN_HOSTS_OK] else []) ++
       [if bool_decide (is_Some (client_privkey_path sk)) then PublicKeyAuth SSH_AUTH_SUCCESS else PasswordAuth SSH_AUTH_SUCCESS; Subsystem r]) s') ∨
  (rv = RTR_TR_ERROR ∧ sk' = sk ∧ live s' = live s0 ∧ heap_ok s').

Lemma ssh_error_spec s0 sk sk' lg s :
  channel sk = None → session sk = None → set_session (set_channel sk' None) None = sk →
  ssh_at [channel sk'; session sk'] (live s0) lg s → returns (ssh_error sk') (ssh_open_result s0 sk) s.
Proof.
  intros Hc Hs Heq Ha. unfold ssh_error. os_step. eapply os_mono; [by apply ssh_close_spec|]. intros sk1 s1 [-> [Ho _]]. os_step. right.
  split; [done|]. split; [done|]. split; [|by apply Ho]. rewrite (owns_live _ _ _ Ho). simpl. by rewrite union_empty_l_L.
Qed.

Lemma ssh_set_back sk p q : channel sk = None → session sk = None → set_session (set_channel (set_channel (set_session sk p) q) None) None = sk.
Proof. intros. destruct sk. simpl in *. by subst. Qed.
Lemma ssh_set_back' sk p : channel sk = None → session sk = None → set_session (set_channel (set_session sk p) None) None = sk.
Proof. intros. destruct sk. simpl in *. by subst. Qed.

Lemma connect_loop_spec fuel sk p base lg s :
  session sk = Some p → ssh_at [None; Some p] base lg s → (length (answers s) < fuel)%nat →
  returns (connect_loop fuel sk) (λ _ s', ssh_at [None; Some p] base lg s') s.
Proof.
  intros Hp. assert (Some p ∈ [None; Some p]) as Hin by (right; by left). revert s. induction fuel as [|fuel IH]; intros s Ha Hf; [lia|].
  cbn [connect_loop]. rewrite Hp. os_step. eapply ssh_ask_spec; [done..|]. intros ret s1 H1 [Hlen|[-> ->]].
  - destruct (ret =? SSH_ERROR); [by os_step|]. os_step.
    apply (os_mono _ (λ _ s', ssh_at [None; Some p] base lg s' ∧ (length (answers s') <= length (answers s1))%nat)).
    + destruct (ret =? SSH_AGAIN); [|by os_step]. os_step. eapply ssh_ask_spec; [done..|]. intros fd s2 H2 Hl2. os_step. unfold select. os_step.
      unfold returns at 1, ask. destruct (answers s2) as [|[r e] a] eqn:Hans; eexists _, _; (split; [done|]); cbv beta iota; do 2 os_step.
      * split; [done|]. destruct Hl2 as [Hl2|[_ ->]]; rewrite Hans in *; simpl in *; lia.
      * split; [by eapply ssh_at_held|]. simpl. destruct Hl2 as [Hl2|[_ ->]]; rewrite ?Hans in *; simpl in *; lia.
    + intros go s2 [H2 Hl2]. destruct (negb go); [by os_step|]. destruct (ret =? SSH_OK); [by os_step|]. apply IH; [done|lia].
  - change (0 =? SSH_ERROR) with false. change (0 =? SSH_AGAIN) with false. change (0 =? SSH_OK) with true. cbv iota. os_step. os_step. simpl. by os_step.
Qed.

Lemma ssh_channel_setup_spec s0 sk p lg s :
  channel sk = None → session sk = None → ssh_at [None; Some p] (live s0) lg s →
  lg = log s0 ++ (if bool_decide (is_Some (server_hostkey_path sk)) then [KnownServer SSH_KNOWN_HOSTS_OK] else []) ++
       [if bool_decide (is_Some (client_privkey_path sk)) then PublicKeyAuth SSH_AUTH_SUCCESS else PasswordAuth SSH_AUTH_SUCCESS] →
  returns (ssh_channel_setup (set_session sk (Some p))) (ssh_open_result s0 sk) s.
Proof.
  intros Hc Hs Ha Hlg. assert (Some p ∈ [None; Some p]) as Hin by (right; by left). unfold ssh_channel_setup, ssh_channel_new. os_step. os_step.
  eapply use_spec; [done..|]. eapply (malloc_spec [Some p]); [destruct Ha as [[? ? ? ?] ?]; by split|]. intros ch s1 Ho1 Hs1.
  assert (ssh_at [ch; Some p] (live s0) lg s1) as H1.
  { split; [done|]. unfold others_than_heap in Hs1. simplify_eq. destruct Ha as [_ Hl]. congruence. }
  destruct ch as [ch|]; simpl bool_decide; cbv iota.
  2:{ eapply ssh_error_spec; [done|done|by apply ssh_set_back|done]. }
  os_step. eapply ssh_ask_spec; [done|by left|]. intros r s2 H2 _. destruct (r =? SSH_ERROR); [eapply ssh_error_spec; [done|done|by apply ssh_set_back|done]|].
  os_step. eapply (ssh_call_spec Subsystem); [done|by left|]. intros r3 s3 H3. destruct (Z.eqb_spec r3 SSH_ERROR) as [He|He].
  - eapply ssh_error_spec; [done|done|by apply ssh_set_back|done].
  - os_step. left. split; [done|]. exists p, ch, r3. split; [done|]. split; [done|]. subst lg. by rewrite <- !(assoc_L (++)) in H3.
Qed.

Lemma ssh_authenticate_spec s0 sk p s :
  channel sk = None → session sk = None →
  ssh_at [None; Some p] (live s0) (log s0 ++ (if bool_decide (is_Some (server_hostkey_path sk)) then [KnownServer SSH_KNOWN_HOSTS_OK] else [])) s →
  returns (ssh_authenticate (set_session sk (Some p))) (ssh_open_result s0 sk) s.
Proof.
  intros Hc Hs Ha. assert (Some p ∈ [None; Some p]) as Hin by (right; by left). unfold ssh_authenticate. simpl client_privkey_path. simpl session.
  destruct (bool_decide (is_Some (client_privkey_path sk))) eqn:Hk.
  - os_step. eapply use_spec; [done..|]. os_step. eapply (ssh_call_spec PublicKeyAuth); [done..|]. intros r s1 H1.
    destruct (Z.eqb_spec r SSH_AUTH_SUCCESS) as [->|Hr]; simpl negb; cbv iota.
    + eapply ssh_channel_setup_spec; [done..|]. by rewrite Hk, <- (assoc_L (++)).
    + eapply (ssh_error_spec _ _ (set_session sk (Some p))); [done|done|by apply ssh_set_back'|by simpl; rewrite Hc].
  - os_step. eapply (ssh_call_spec PasswordAuth); [done..|]. intros r s1 H1. destruct (Z.eqb_spec r SSH_AUTH_SUCCESS) as [->|Hr]; simpl negb; cbv iota.
    + eapply ssh_channel_setup_spec; [done..|]. by rewrite Hk, <- (assoc_L (++)).
    + eapply (ssh_error_spec _ _ (set_session sk (Some p))); [done|done|by apply ssh_set_back'|by simpl; rewrite Hc].
Qed.

Lemma ssh_connected_spec s0 sk p s :
  channel sk = None → session sk = None → ssh_at [None; Some p] (live s0) (log s0) s →
  returns (ssh_connected (set_session sk (Some p))) (ssh_open_result s0 sk) s.
Proof.
  intros Hc Hs Ha. assert (Some p ∈ [None; Some p]) as Hin by (right; by left). unfold ssh_connected. simpl server_hostkey_path. simpl session.
  os_step. eapply use_spec; [done..|]. os_step. pose proof (ssh_authenticate_spec s0 sk p) as Hauth.
  destruct (bool_decide (is_Some (server_hostkey_path sk))) eqn:Hk.
  - os_step. eapply (ssh_call_spec KnownServer); [done..|]. intros r s1 H1. os_step. destruct (Z.eqb_spec r SSH_KNOWN_HOSTS_OK) as [->|Hr]; simpl negb; cbv iota.
    + by apply Hauth.
    + eapply (ssh_error_spec _ _ (set_session sk (Some p))); [done|done|by apply ssh_set_back'|by simpl; rewrite Hc].
  - os_step. apply Hauth; [done..|]. by rewrite app_nil_r.
Qed.

Lemma ssh_open_spec sk s : channel sk = None → session sk = None → heap_ok s → returns (tr_ssh_open sk) (ssh_open_result s sk) s.
Proof.
  intros Hc Hs Hok. unfold tr_ssh_open. rewrite Hc, Hs. os_step. rewrite assert_true by done. os_step. os_step. os_step.
  os_step. eapply (malloc_spec []); [by apply owns_nil|]. intros p s1 Ho1 Hs1. assert (log s1 = log s) as Hl1 by (unfold others_than_heap in Hs1; by simplify_eq).
  destruct p as [p|]; simpl bool_decide; cbv iota.
  2:{ eapply (ssh_error_spec _ _ (set_session sk None)); [done|done|by apply ssh_set_back'|]. simpl. rewrite Hc. split; [destruct Ho1; by split|exact Hl1]. }
  assert (ssh_at [None; Some p] (live s) (log s) s1) as H1 by (split; [destruct Ho1; by split|done]).
  assert (Some p ∈ [None; Some p]) as Hin by (right; by left). simpl session.
  do 5 (os_step; eapply use_spec; [done..|]).
  do 2 (os_step; eapply use_if_spec; [done..|]). os_step. simpl ssh_new_socket.
  apply (os_mono _ (λ _ s', ssh_at [None; Some p] (live s) (log s) s')).
  - destruct (ssh_new_socket sk); [|by os_step]. os_step. unfold new_socket. os_step. os_step. eapply ssh_at_held in H1 as H2; [|done].
    destruct (Z.ltb_spec z 0) as [Hz|Hz]; [os_step; rewrite (proj2 (Z.leb_gt _ _) Hz); by os_step|].
    apply returns_open_fd. intros fd _ Hfd. rewrite (proj2 (Z.leb_le _ _) Hfd). os_step.
    match goal with |- returns _ _ ?s2 => assert (ssh_at [None; Some p] (live s) (log s) s2) as H3 by (destruct H2 as [[? ? ? ?] ?]; split; [by split|done]) end.
    eapply use_spec; [done..|]. by os_step.
  - intros failed s2 H2. destruct failed.
    { eapply (ssh_error_spec _ _ (set_session sk (Some p))); [done|done|by apply ssh_set_back'|by simpl; rewrite Hc]. }
    os_step. eapply use_spec; [done..|]. os_step. eapply os_mono; [apply (connect_loop_spec _ (set_session sk (Some p)) p); [done|done|lia]|].
    intros ok s3 H3. destruct ok; simpl negb; cbv iota; [by apply ssh_connected_spec|].
    eapply (ssh_error_spec _ _ (set_session sk (Some p))); [done|done|by apply ssh_set_back'|by simpl; rewrite Hc].
Qed.

(** *** Descriptors *)

(** A call that opens and closes no descriptor, and leaves the lists of addresses alone. *)
Definition files s := (fds s, infos s).
Definition keeps {A} (m : Os A) : Prop := ∀ s x s', m s = Some (x, s') → files s' = files s.

Lemma keeps_bind {A B} (m : Os A) (f : A → Os B) : keeps m → (∀ x, keeps (f x)) → keeps (m ≫= f).
Proof.
  intros Hm Hf s y s' Hr. unfold mbind, Os_bind in Hr. destruct (m s) as [[x s1]|] eqn:Hx; [|done]. rewrite (Hf x _ _ _ Hr). by apply (Hm _ _ _ Hx).
Qed.
Lemma keeps_ret {A} (x : A) : keeps (mret x).
Proof. by intros s y s' [= <- <-]. Qed.
Lemma keeps_use p : keeps (use p).
Proof. intros s x s' Hr. unfold use in Hr. destruct p as [p|]; [|done]. destruct (decide _); by simplify_eq. Qed.
Lemma keeps_ask : keeps ask.
Proof. intros s x s' Hr. unfold ask in Hr. destruct (answers s); by simplify_eq. Qed.
Lemma keeps_note c : keeps (note c).
Proof. by intros s x s' [= <- <-]. Qed.
Lemma keeps_malloc : keeps malloc.
Proof. apply keeps_bind; [apply keeps_ask|]. intros [r e] s x s' Hr. unfold act in Hr. destruct (r <? 0); by simplify_eq. Qed.
Lemma keeps_free p : keeps (free_block p).
Proof. intros s x s' Hr. unfold free_block in Hr. destruct p as [p|]; [|by simplify_eq]. destruct (decide _); by simplify_eq. Qed.
Lemma keeps_undefined {A} : keeps (undefined (A := A)).
Proof. by intros s x s' Hr. Qed.
Lemma keeps_require {A} (o : option A) : keeps (require o).
Proof. intros s x s' Hr. unfold require in Hr. by destruct o; simplify_eq. Qed.

Create HintDb keeps.
Hint Resolve keeps_bind keeps_ret keeps_use keeps_ask keeps_note keeps_malloc keeps_free keeps_undefined keeps_require : keeps.

Ltac keeping :=
  repeat first
    [ progress intros
    | match goal with
      | |- keeps (match ?x with pair _ _ => _ end) => destruct x
      | |- keeps (if ?b then _ else _) => destruct b
      end
    | solve [eauto 1 with keeps]
    | apply keeps_bind ].

Lemma keeps_ssh_error sk : keeps (ssh_error sk).
Proof. unfold ssh_error, tr_ssh_close, ssh_channel_is_open, ssh_channel_close, ssh_channel_free, ssh_disconnect, ssh_free, ssh_ask. keeping. Qed.
Lemma keeps_connect_loop fuel sk : keeps (connect_loop fuel sk).
Proof. induction fuel; cbn [connect_loop]; unfold ssh_connect, ssh_get_fd, select, ssh_ask; keeping. Qed.
Lemma keeps_connected sk : keeps (ssh_connected sk).
Proof.
  pose proof keeps_ssh_error. unfold ssh_connected, ssh_authenticate, ssh_channel_setup, ssh_set_blocking, ssh_session_is_known_server, ssh_options_set, ssh_userauth_publickey_auto,
    ssh_userauth_password, ssh_channel_new, ssh_channel_open_session, ssh_channel_request_subsystem, ssh_ask. keeping; eauto.
Qed.

(** The only descriptor that is opened is that of the client's callback. *)
Definition handed_over sk s s' : Prop := files s' = files s ∨
  ssh_new_socket sk = true ∧ infos s' = infos s ∧ ∃ fd flags, fds s !! fd = None ∧ fds s' = <[fd := flags]> (fds s).

Lemma new_socket_files s r s' : new_socket s = Some (r, s') → files s' = files s ∨ infos s' = infos s ∧ ∃ fd flags, fds s !! fd = None ∧ fds s' = <[fd := flags]> (fds s).
Proof.
  unfold new_socket, mbind, Os_bind. destruct (ask s) as [[[a flags] s1]|] eqn:Ha; [|done]. apply keeps_ask in Ha. unfold files in *. injection Ha as Hf Hi.
  destruct (a <? 0); [intros [= <- <-]; left; congruence|]. unfold open_fd. intros [= <- <-]. right. simpl. split; [done|]. eexists _, flags.
  rewrite Hf. split; [apply lowest_free|done].
Qed.

Lemma ssh_open_files sk s x s' : tr_ssh_open sk s = Some (x, s') → handed_over sk s s'.
Proof.
  unfold tr_ssh_open. revert x s'.
  assert (∀ A B (m : Os A) (f : A → Os B) t, files t = files s → keeps m → (∀ x t', files t' = files s → ∀ y s', f x t' = Some (y, s') → handed_over sk s s') →
    ∀ y s', (m ≫= f) t = Some (y, s') → handed_over sk s s') as Hkeep.
  { intros A B m f t Ht Hm Hf y s' Hr. unfold mbind, Os_bind in Hr. destruct (m t) as [[x t1]|] eqn:Hx; [|done]. apply (Hf x t1) with y; [|done]. rewrite (Hm _ _ _ Hx). done. }
  assert (∀ A (m : Os A) t, files t = files s → keeps m → ∀ y s', m t = Some (y, s') → handed_over sk s s') as Hend
    by (intros A m t Ht Hm y s' Hr; left; by rewrite (Hm _ _ _ Hr)).
  assert (∀ t, handed_over sk s t → ∀ A (m : Os A), keeps m → ∀ y s', m t = Some (y, s') → handed_over sk s s') as Hafter.
  { intros t Ht A m Hm y s' Hr. apply Hm in Hr. unfold handed_over in *. rewrite Hr. unfold files in Hr. injection Hr as -> ->. done. }
  apply Hkeep; [done|apply keeps_require|]. intros _ t1 Ht1. apply Hkeep; [done|apply keeps_require|]. intros _ t2 Ht2.
  apply Hkeep; [done|apply keeps_malloc|]. intros p t3 Ht3. destruct (bool_decide (p = None)); [apply Hend; [done|apply keeps_ssh_error]|].
  do 5 (apply Hkeep; [done|apply keeps_use|]; clear t3 Ht3; intros _ t3 Ht3).
  do 2 (apply Hkeep; [done|keeping; apply keeps_use|]; clear t3 Ht3; intros _ t3 Ht3).
  assert (∀ A B (m : Os A) (f : A → Os B) t, (∀ x t', m t = Some (x, t') → handed_over sk s t') → (∀ x, keeps (f x)) →
    ∀ y s', (m ≫= f) t = Some (y, s') → handed_over sk s s') as Hnew.
  { intros A B m f t Hm Hf y s' Hr. unfold mbind, Os_bind in Hr. destruct (m t) as [[x t1']|] eqn:Hx; [|done]. eapply Hafter; [by eapply Hm|apply (Hf x)|exact Hr]. }
  apply Hnew.
  - change (ssh_new_socket (set_session sk p)) with (ssh_new_socket sk). destruct (ssh_new_socket sk) eqn:Hns; [|intros x t4 Hr; left; by rewrite (keeps_ret _ _ _ _ Hr)]. apply Hnew; [|intros fd; keeping; apply keeps_use].
    intros fd t4 Hfd. apply new_socket_files in Hfd. unfold handed_over, files in *. injection Ht3 as Hf3 Hi3. rewrite Hns, <- Hf3, <- Hi3.
    destruct Hfd as [Hfd|Hfd]; [by left|right; by split].
  - intros failed. destruct failed; [apply keeps_ssh_error|]. apply keeps_bind; [apply keeps_use|]. intros _. apply keeps_bind.
    + intros u z u' Hr. by apply keeps_connect_loop in Hr.
    + intros ok. destruct (negb ok); [apply keeps_ssh_error|apply keeps_connected].
Qed.

(** C26: Opening an SSH connection returns for every finite list of answers of libssh and the
    system that success follows.  On failure, session and channel are null again and were
    freed.  On success there is one session and one channel, the server was found to be
    known if its key is configured, and the client authenticated with its key, or with its
    password if it has no key, before the subsystem was requested.  In both cases no list of
    addresses is left, and the only descriptor that is open in addition is the one that the
    client's callback opened, if it is configured: it was given to libssh, and the library
    does not close it itself when opening fails. *)
Theorem ssh_open_correct sk s : channel sk = None → session sk = None → heap_ok s →
  returns (tr_ssh_open sk) (λ '(rv, sk') s',
    ((rv = RTR_TR_SUCCESS ∧ ∃ se ch r, sk' = set_channel (set_session sk (Some se)) (Some ch) ∧ live s' = {[ch; se]} ∪ live s ∧ ch ≠ se ∧ r ≠ SSH_ERROR ∧
        log s' = log s ++ (if bool_decide (is_Some (server_hostkey_path sk)) then [KnownServer SSH_KNOWN_HOSTS_OK] else []) ++
          [if bool_decide (is_Some (client_privkey_path sk)) then PublicKeyAuth SSH_AUTH_SUCCESS else PasswordAuth SSH_AUTH_SUCCESS; Subsystem r]) ∨
     (rv = RTR_TR_ERROR ∧ sk' = sk ∧ live s' = live s)) ∧
    infos s' = infos s ∧
    (fds s' = fds s ∨ ssh_new_socket sk = true ∧ ∃ fd flags, fds s !! fd = None ∧ fds s' = <[fd := flags]> (fds s))) s.
Proof.
  intros Hc Hs Hok. destruct (ssh_open_spec sk s Hc Hs Hok) as ([rv sk'] & s' & Hrun & Hres). exists (rv, sk'), s'. split; [exact Hrun|].
  apply ssh_open_files in Hrun. unfold handed_over, files in Hrun. split; [|destruct Hrun as [[= -> ->]|(? & ? & ?)]; [by split; [|left]|split; [done|by right]]].
  destruct Hres as [(-> & se & ch & r & -> & Hr & [Ho Hl])|(-> & -> & Hl & _)]; [left|by right].
  split; [done|]. exists se, ch, r. pose proof (owns_nodup _ _ _ Ho) as Hnd. pose proof (owns_live _ _ _ Ho) as Hlive. simpl in *.
  split_and!; [done| |intros ->; inversion Hnd; set_solver|done|done]. rewrite Hlive. by rewrite union_empty_r_L.
Qed.

(** ** Receiving and sending *)

(** Data was taken from the front of what arrives, or there is an error and none was. *)
Lemma ssh_recv_spec sk ch len s : channel sk = Some ch → ch ∈ live s → (0 < len)%nat →
  returns (tr_ssh_recv sk len) (λ '(rv, data) s', quiet s' = quiet s ∧ outbox s' = outbox s ∧ inbox s = data ++ inbox s' ∧
    ((rv = Z.of_nat (length data) ∧ (1 <= length data <= len)%nat) ∨ (rv < 0 ∧ data = []))) s.
Proof.
  intros Hch Hlive Hlen. set (Q := λ '(rv, data) s', quiet s' = quiet s ∧ outbox s' = outbox s ∧ inbox s = data ++ inbox s' ∧
    ((rv = Z.of_nat (length data) ∧ (1 <= length data <= len)%nat) ∨ (rv < 0 ∧ data = []))).
  assert (∀ e s', holdings s' = holdings s → Q (tr_code e, []) s') as Herr.
  { intros e s' Hh. destruct (holdings_parts _ _ Hh) as (Hi & Ho & Hq). unfold Q. split_and!; [done|done|by rewrite Hi|]. right. by destruct e. }
  assert (∀ s' (R : unit → sys → Prop), holdings s' = holdings s → R tt s' → returns (use (Some ch)) R s') as Huse.
  { intros s' R Hh HR. exists tt, s'. split; [|done]. unfold use. rewrite decide_True; [done|]. assert (live s' = live s) as -> by held. done. }
  unfold tr_ssh_recv, ssh_channel_select, ssh_channel_is_eof, ssh_ask. rewrite Hch. os_step. os_step. apply Huse; [done|]. os_step. os_step. os_step. cbv beta iota.
  destruct (z =? SSH_EINTR); [os_step; by apply (Herr TR_INTR)|]. destruct (z =? SSH_ERROR); [os_step; by apply (Herr TR_ERROR)|].
  os_step. os_step. apply Huse; [done|]. os_step. os_step. assert (holdings s'0 = holdings s) as Hs0 by congruence. os_step.
  destruct (negb (z1 =? 0)); [os_step; by apply (Herr TR_ERROR)|]. destruct (negb (negb (z0 =? 0))); [os_step; by apply (Herr TR_WOULDBLOCK)|].
  unfold tr_ssh_recv_async, ssh_channel_read_nonblocking. rewrite Hch. os_step. os_step. apply Huse; [done|]. os_step. os_step.
  assert (holdings s'1 = holdings s) as Hs1 by congruence. apply returns_act. destruct (Z.ltb_spec z3 0) as [Hneg|Hneg].
  { eexists _, _. split; [done|]. cbv beta iota. destruct (Z.eqb_spec z3 0); [lia|]. destruct (z3 =? SSH_ERROR); os_step; [by apply (Herr TR_ERROR)|].
    destruct (holdings_parts _ _ Hs1) as (Hi & Ho & Hq). unfold Q. split_and!; [done|done|by rewrite Hi|by right]. }
  eexists _, _. split; [done|]. cbv beta iota. set (n := Nat.min (Z.to_nat z3) len). destruct (holdings_parts _ _ Hs1) as (Hi & Ho & Hq).
  destruct (Z.eqb_spec (Z.of_nat (length (take n (inbox s'1)))) 0) as [Hz|Hz].
  - assert (take n (inbox s'1) = []) as Hn by (apply nil_length_inv; lia).
    assert (drop n (inbox s'1) = inbox s'1) as Hd by (rewrite <- (take_drop n (inbox s'1)) at 2; by rewrite Hn). rewrite Hd.
    assert (holdings (set_boxes s'1 (inbox s'1) (outbox s'1)) = holdings s) as Hs2 by exact Hs1.
    unfold ssh_channel_is_eof, ssh_ask. os_step. os_step. apply Huse; [done|]. os_step. os_step. os_step. os_step.
    destruct (negb _); [apply (Herr TR_CLOSED)|apply (Herr TR_WOULDBLOCK)]; congruence.
  - assert (Z.of_nat (length (take n (inbox s'1))) =? SSH_ERROR = false) as -> by (apply Z.eqb_neq; unfold SSH_ERROR; lia). os_step. unfold Q, quiet in *. simpl.
    split_and!; [done|done|by rewrite take_drop|]. left. split; [done|]. rewrite length_take in *. lia.
Qed.

End Ssh.

(** ** Instances *)

Definition sample_ssh (pass priv : option string) : rtr_tr_ssh_config :=
  SshConfig (Some "cache.example.net") 22 None (Some "rtr") (Some "known_hosts") priv false 0 pass.

Definition closed_ssh : tr_ssh_socket :=
  SshSocket 0 None None (Some (1%nat, "cache.example.net")) 22 None (Some (2%nat, "rtr")) (Some (3%nat, "known_hosts")) (Some (4%nat, "id_rsa"))
    false 30 None None.

(** The server is not the one that is known. *)
Lemma ssh_open_correct_witness :
  let s := fresh_sys [(0, 0); (-2, 0); (5, 0); (1, 0); (0, 0); (2, 0); (0, 0)] in
  returns (tr_ssh_open (H := release_build) closed_ssh) (λ '(rv, sk') s', rv = RTR_TR_ERROR ∧ sk' = closed_ssh ∧ log s' = [KnownServer 2] ∧ live s' = ∅) s.
Proof.
  intros s. destruct (ssh_open_correct (H := release_build) closed_ssh s eq_refl eq_refl (fresh_heap_ok _)) as ([rv sk'] & s' & Hr & Hres).
  exists (rv, sk'), s'. split; [exact Hr|]. destruct Hres as [[(-> & _)|(-> & -> & Hl)] _]; vm_compute in Hr; [discriminate Hr|].
  injection Hr as <-. done.
Defined.

(** ** Limits *)

Definition ssh_life (config : rtr_tr_ssh_config) : Os Z :=
  '(rv, osk) ← rtr_tr_ssh_init config;
  match osk with
  | Some sk => if rv =? RTR_TR_SUCCESS then '(_, sk) ← tr_ssh_open (H := release_build) sk; sk ← tr_ssh_close sk; tr_ssh_free (H := release_build) sk;; mret rv else mret rv
  | None => mret rv
  end.

(** After a transport was initialised, opened, closed and freed, the copy of the password is
    still in memory. *)
Lemma ssh_password_leaks :
  returns (ssh_life (sample_ssh (Some "secret") None)) (λ rv s', rv = RTR_TR_SUCCESS ∧ live s' = {[4%nat]}) (fresh_sys []).
Proof. eexists _, _. split; [vm_compute; reflexivity|]. split; [reflexivity|]. by vm_compute. Qed.

(** Without a password and a key there is no transport, and the structure stays allocated;
    with an allocator of the client, the strings are given to the wrong function. *)
Lemma ssh_init_without_credentials :
  returns (ssh_life (sample_ssh None None)) (λ rv s', rv = RTR_TR_ERROR ∧ live s' = {[0%nat]}) (fresh_sys []) ∧
  rtr_tr_ssh_init (sample_ssh None None) (Sys [] ∅ 0 ∅ 0 true [] [] []) = None.
Proof. split; [|by vm_compute]. eexists _, _. split; [vm_compute; reflexivity|]. split; [reflexivity|]. by vm_compute. Qed.
