(* ===== verification/Socket.v ===== *)
(** * The RTR socket: [rtrlib/rtr/rtr.h] and the small functions of [packets.c]

    The state of a connection to a cache, its changes of state, and the intervals the
    cache suggests.  [self] is the address of the structure; the tables it points to
    are passed along on their own. *)

From S2P Require Import Prelude.

Definition RTR_SUCCESS : Z := 0.
Definition RTR_ERROR : Z := -1.
Definition RTR_INVALID_PARAM : Z := -2.

Inductive rtr_interval_mode :=
| RTR_INTERVAL_MODE_IGNORE_ANY | RTR_INTERVAL_MODE_ACCEPT_ANY | RTR_INTERVAL_MODE_DEFAULT_MIN_MAX
| RTR_INTERVAL_MODE_IGNORE_ON_FAILURE.

Inductive rtr_socket_state :=
| RTR_CONNECTING | RTR_ESTABLISHED | RTR_RESET | RTR_SYNC | RTR_FAST_RECONNECT
| RTR_ERROR_NO_DATA_AVAIL | RTR_ERROR_NO_INCR_UPDATE_AVAIL | RTR_ERROR_FATAL | RTR_ERROR_TRANSPORT
| RTR_SHUTDOWN | RTR_CLOSED.

#[global] Instance rtr_interval_mode_eq_dec : EqDecision rtr_interval_mode.
Proof. solve_decision. Defined.
#[global] Instance rtr_socket_state_eq_dec : EqDecision rtr_socket_state.
Proof. solve_decision. Defined.

Record rtr_socket := RtrSocket {
  self : socket_ptr;
  refresh_interval : Z;
  last_update : Z;
  expire_interval : Z;
  retry_interval : Z;
  iv_mode : rtr_interval_mode;
  state : rtr_socket_state;
  session_id : Z;
  request_session_id : bool;
  serial_number : Z;
  thread_id : Z;
  connection_state_fp : option fn_ptr;
  version : Z;
  has_received_pdus : bool;
  is_resetting : bool }.

(** The callback of a socket's changes of state, and [sleep]. *)
Inductive rtr_event := StateChanged (fp : fn_ptr) (sock : socket_ptr) (st : rtr_socket_state) | Slept (n : Z).

(** ** Assignments to the members *)

Section Setters.
Implicit Types s : rtr_socket.

Definition set_intervals s (refresh expire retry : Z) : rtr_socket :=
  RtrSocket (self s) refresh (last_update s) expire retry (iv_mode s) (state s) (session_id s)
    (request_session_id s) (serial_number s) (thread_id s) (connection_state_fp s) (version s)
    (has_received_pdus s) (is_resetting s).
Definition set_last_update s (t : Z) : rtr_socket :=
  RtrSocket (self s) (refresh_interval s) t (expire_interval s) (retry_interval s) (iv_mode s) (state s)
    (session_id s) (request_session_id s) (serial_number s) (thread_id s) (connection_state_fp s)
    (version s) (has_received_pdus s) (is_resetting s).
Definition set_iv_mode s (m : rtr_interval_mode) : rtr_socket :=
  RtrSocket (self s) (refresh_interval s) (last_update s) (expire_interval s) (retry_interval s) m
    (state s) (session_id s) (request_session_id s) (serial_number s) (thread_id s)
    (connection_state_fp s) (version s) (has_received_pdus s) (is_resetting s).
Definition set_state s (st : rtr_socket_state) : rtr_socket :=
  RtrSocket (self s) (refresh_interval s) (last_update s) (expire_interval s) (retry_interval s)
    (iv_mode s) st (session_id s) (request_session_id s) (serial_number s) (thread_id s)
    (connection_state_fp s) (version s) (has_received_pdus s) (is_resetting s).
Definition set_session s (id : Z) (request : bool) (sn : Z) : rtr_socket :=
  RtrSocket (self s) (refresh_interval s) (last_update s) (expire_interval s) (retry_interval s)
    (iv_mode s) (state s) id request sn (thread_id s) (connection_state_fp s) (version s)
    (has_received_pdus s) (is_resetting s).
Definition set_thread_id s (t : Z) : rtr_socket :=
  RtrSocket (self s) (refresh_interval s) (last_update s) (expire_interval s) (retry_interval s)
    (iv_mode s) (state s) (session_id s) (request_session_id s) (serial_number s) t
    (connection_state_fp s) (version s) (has_received_pdus s) (is_resetting s).
Definition set_version s (v : Z) : rtr_socket :=
  RtrSocket (self s) (refresh_interval s) (last_update s) (expire_interval s) (retry_interval s)
    (iv_mode s) (state s) (session_id s) (request_session_id s) (serial_number s) (thread_id s)
    (connection_state_fp s) v (has_received_pdus s) (is_resetting s).
Definition set_has_received_pdus s (b : bool) : rtr_socket :=
  RtrSocket (self s) (refresh_interval s) (last_update s) (expire_interval s) (retry_interval s)
    (iv_mode s) (state s) (session_id s) (request_session_id s) (serial_number s) (thread_id s)
    (connection_state_fp s) (version s) b (is_resetting s).
Definition set_is_resetting s (b : bool) : rtr_socket :=
  RtrSocket (self s) (refresh_interval s) (last_update s) (expire_interval s) (retry_interval s)
    (iv_mode s) (state s) (session_id s) (request_session_id s) (serial_number s) (thread_id s)
    (connection_state_fp s) (version s) (has_received_pdus s) b.

Definition set_session_id s (id : Z) : rtr_socket := set_session s id (request_session_id s) (serial_number s).
Definition set_request_session_id s (b : bool) : rtr_socket := set_session s (session_id s) b (serial_number s).
Definition set_serial_number s (sn : Z) : rtr_socket := set_session s (session_id s) (request_session_id s) sn.

End Setters.

(** ** Intervals *)

Inductive rtr_interval_type :=
| RTR_INTERVAL_TYPE_EXPIRATION | RTR_INTERVAL_TYPE_REFRESH | RTR_INTERVAL_TYPE_RETRY.
Inductive rtr_interval_range :=
| RTR_BELOW_INTERVAL_RANGE | RTR_INSIDE_INTERVAL_RANGE | RTR_ABOVE_INTERVAL_RANGE.

#[global] Instance rtr_interval_range_eq_dec : EqDecision rtr_interval_range.
Proof. solve_decision. Defined.

Definition RTR_EXPIRATION_MIN : Z := 600.
Definition RTR_EXPIRATION_MAX : Z := 172800.
Definition RTR_REFRESH_MIN : Z := 1.
Definition RTR_REFRESH_MAX : Z := 86400.
Definition RTR_RETRY_MIN : Z := 1.
Definition RTR_RETRY_MAX : Z := 7200.

Definition rtr_check_interval_range (interval minimum maximum : Z) : rtr_interval_range :=
  if interval <? minimum then RTR_BELOW_INTERVAL_RANGE
  else if maximum <? interval then RTR_ABOVE_INTERVAL_RANGE
  else RTR_INSIDE_INTERVAL_RANGE.

Definition apply_interval_value (s : rtr_socket) (interval : Z) (type : rtr_interval_type) : rtr_socket :=
  match type with
  | RTR_INTERVAL_TYPE_EXPIRATION => set_intervals s (refresh_interval s) interval (retry_interval s)
  | RTR_INTERVAL_TYPE_REFRESH => set_intervals s interval (expire_interval s) (retry_interval s)
  | RTR_INTERVAL_TYPE_RETRY => set_intervals s (refresh_interval s) (expire_interval s) interval
  end.

(** The branch for an unknown type cannot be taken. *)
Definition rtr_check_interval_option (s : rtr_socket) (interval_mode : rtr_interval_mode) (interval : Z)
    (type : rtr_interval_type) : Z * rtr_socket :=
  let '(minimum, maximum) :=
    match type with
    | RTR_INTERVAL_TYPE_EXPIRATION => (RTR_EXPIRATION_MIN, RTR_EXPIRATION_MAX)
    | RTR_INTERVAL_TYPE_REFRESH => (RTR_REFRESH_MIN, RTR_REFRESH_MAX)
    | RTR_INTERVAL_TYPE_RETRY => (RTR_RETRY_MIN, RTR_RETRY_MAX)
    end in
  let interv_retval := rtr_check_interval_range interval minimum maximum in
  (RTR_SUCCESS,
   if bool_decide (interv_retval = RTR_INSIDE_INTERVAL_RANGE) ||
      bool_decide (interval_mode = RTR_INTERVAL_MODE_ACCEPT_ANY)
   then apply_interval_value s interval type
   else if bool_decide (interval_mode = RTR_INTERVAL_MODE_DEFAULT_MIN_MAX) then
     if bool_decide (interv_retval = RTR_BELOW_INTERVAL_RANGE)
     then apply_interval_value s minimum type
     else apply_interval_value s maximum type
   else s).

Definition rtr_get_interval_mode (s : rtr_socket) : rtr_interval_mode := iv_mode s.
Definition rtr_set_interval_mode (s : rtr_socket) (option : rtr_interval_mode) : rtr_socket :=
  set_iv_mode s option.

(** ** Versions and states *)

Definition RTR_PROTOCOL_MIN_SUPPORTED_VERSION : Z := 0.
Definition RTR_PROTOCOL_MAX_SUPPORTED_VERSION : Z := 2.

Definition rtr_version_supported (v : Z) : bool :=
  (RTR_PROTOCOL_MIN_SUPPORTED_VERSION <=? v) && (v <=? RTR_PROTOCOL_MAX_SUPPORTED_VERSION).

Section Socket.
Context {E : Type} `{!Event rtr_event E}.

(** [RTR_SHUTDOWN] is final. *)
Definition rtr_change_socket_state (s : rtr_socket) (new_state : rtr_socket_state) : M E rtr_socket :=
  if decide (state s = new_state) then mret s
  else if decide (state s = RTR_SHUTDOWN) then mret s
  else
    let s := set_state s new_state in
    match connection_state_fp s with
    | Some fp => emit (event (StateChanged fp (self s) new_state));; mret s
    | None => mret s
    end.

(** [rtr_init]: a socket whose members, apart from the address, are indeterminate. *)
Definition rtr_init (s : rtr_socket) (refresh expire retry : Z) (mode : rtr_interval_mode)
    (fp : option fn_ptr) : Z * rtr_socket :=
  if bool_decide (rtr_check_interval_range refresh RTR_REFRESH_MIN RTR_REFRESH_MAX ≠ RTR_INSIDE_INTERVAL_RANGE) ||
     bool_decide (rtr_check_interval_range expire RTR_EXPIRATION_MIN RTR_EXPIRATION_MAX ≠ RTR_INSIDE_INTERVAL_RANGE) ||
     bool_decide (rtr_check_interval_range retry RTR_RETRY_MIN RTR_RETRY_MAX ≠ RTR_INSIDE_INTERVAL_RANGE)
  then (RTR_INVALID_PARAM, s)
  else
    (RTR_SUCCESS,
     RtrSocket (self s) refresh 0 expire retry mode RTR_CLOSED (session_id s) true 0 0 fp
       RTR_PROTOCOL_MAX_SUPPORTED_VERSION false false).

End Socket.
