(* ===== verification/Packets.v ===== *)
(** * Sending and receiving PDUs: [rtrlib/rtr/packets.c]

    Buffers hold bytes; the structures on the stack are the bytes of their members in
    host byte order.  Texts end with a zero byte.  Debug output is left out. *)

From Stdlib Require Import Ascii String.
From stdpp Require Import pretty.
From S2P Require Import Prelude Pdu Transport Socket.
Open Scope Z_scope.

(** The bytes of a string, with the terminating zero. *)
Definition text (s : string) : list Z := ((λ c, Z.of_N (N_of_ascii c)) <$> list_ascii_of_string s) ++ [0].

(** What [snprintf] prints for [%u], and what it leaves in an array of [n] bytes. *)
Definition decimal (v : Z) : string := pretty (Z.to_N v).
Definition snprintf (n : nat) (s : string) : list Z := text (String.substring 0 (n - 1) s).

(** [enum rtr_tr_rtvals] as integers. *)
Definition RTR_TR_WOULDBLOCK : Z := -2.
Definition RTR_TR_INTR : Z := -3.

Definition RTR_PROTOCOL_VERSION_1 : Z := 1.
Definition RTR_PROTOCOL_VERSION_2 : Z := 2.

(** How a PDU was received: the function returns, or jumps to the label [error]. *)
Inductive received := Return (rtval : Z) | TrFailed (e : tr_error) | PduFailed (e : pdu_error_type).

Section Packets.
Context `{Build} `{Host} {E : Type} `{!Event tr_event E} `{!Event rtr_event E}.
Implicit Types s : rtr_socket.

Definition rtr_set_last_update s : M E (Z * rtr_socket) :=
  t ← rtr_get_monotonic_time;
  match t with
  | None => s ← rtr_change_socket_state s RTR_ERROR_FATAL; mret (RTR_ERROR, s)
  | Some t => mret (RTR_SUCCESS, Socket.set_last_update s t)
  end.

(** ** Sending *)

Definition rtr_send_pdu s (pdu : buffer) : M E Z :=
  pdu_converted ← of_option (rtr_pdu_to_network_byte_order pdu);
  if decide (state s = RTR_SHUTDOWN) then mret RTR_ERROR
  else
    rtval ← tr_send_all pdu_converted;
    match rtval with
    | inr n => if Nat.ltb 0 n then mret RTR_SUCCESS else mret RTR_ERROR
    | inl _ => mret RTR_ERROR
    end.

(** The structure [pdu_error] with its rest. *)
Definition error_pdu (ver msg_size : Z) (error : pdu_error_type) (enc err_text : list Z) : buffer :=
  u8 ver :: 10 :: host_bytes 2 (error_value error) ++ host_bytes 4 msg_size ++
  host_bytes 4 (Z.of_nat (length enc)) ++ enc ++ host_bytes 4 (Z.of_nat (length err_text)) ++ err_text.

Definition rtr_send_error_pdu s (erroneous_pdu : buffer) (erroneous_pdu_len : Z) (error : pdu_error_type)
    (err_text : list Z) : M E Z :=
  let err_text_len := Z.of_nat (length err_text) in
  of_option (assert_ (err_text_len <=? RTR_MAX_PDU_LEN - (sizeof_error + 4 + RTR_ERRONEOUS_PDU_MIN_LEN)));;
  let msg_size := u32 (sizeof_error + 4 + erroneous_pdu_len + err_text_len) in
  let '(erroneous_pdu_len, msg_size) :=
    if RTR_MAX_PDU_LEN <? msg_size then
      let overflow_bytes := msg_size - RTR_MAX_PDU_LEN in
      (u32 (erroneous_pdu_len - overflow_bytes), u32 (msg_size - overflow_bytes))
    else (erroneous_pdu_len, msg_size) in
  is_error ←
    (if 2 <=? erroneous_pdu_len
     then type ← of_option (rtr_get_pdu_type erroneous_pdu); mret (bool_decide (type = ERROR))
     else mret false);
  if (is_error : bool) then mret RTR_SUCCESS
  else
    enc ← of_option (slice erroneous_pdu 0 (Z.to_nat erroneous_pdu_len));
    rtr_send_pdu s (error_pdu (version s) msg_size error enc err_text).

Definition interval_send_error_pdu s (pdu : buffer) : M E Z :=
  rtr_send_error_pdu s pdu RTR_MAX_PDU_LEN CORRUPT_DATA (text "Interval value out of range").

Definition rtr_send_error_pdu_from_network s (erroneous_pdu : buffer) (erroneous_pdu_len : Z)
    (error : pdu_error_type) (err_text : list Z) : M E Z :=
  rtr_send_error_pdu s erroneous_pdu erroneous_pdu_len error err_text.

Definition rtr_send_error_pdu_from_host s (erroneous_pdu : buffer) (erroneous_pdu_len : Z)
    (error : pdu_error_type) (err_text : list Z) : M E Z :=
  pdu ← of_option (slice erroneous_pdu 0 (Z.to_nat erroneous_pdu_len));
  if erroneous_pdu_len =? sizeof_header then
    pdu ← of_option (rtr_pdu_header_to_network_byte_order pdu);
    rtr_send_error_pdu s pdu erroneous_pdu_len error err_text
  else if sizeof_header <? erroneous_pdu_len then
    pdu ← of_option (rtr_pdu_to_network_byte_order pdu);
    rtr_send_error_pdu s pdu erroneous_pdu_len error err_text
  else mret RTR_ERROR.

Definition serial_query_pdu s : buffer :=
  u8 (version s) :: 1 :: host_bytes 2 (session_id s) ++ host_bytes 4 sizeof_serial ++
  host_bytes 4 (serial_number s).

Definition rtr_send_serial_query s : M E (Z * rtr_socket) :=
  rtval ← rtr_send_pdu s (serial_query_pdu s);
  if rtval =? RTR_SUCCESS then mret (RTR_SUCCESS, s)
  else s ← rtr_change_socket_state s RTR_ERROR_TRANSPORT; mret (RTR_ERROR, s).

Definition reset_query_pdu s : buffer :=
  u8 (version s) :: 2 :: host_bytes 2 0 ++ host_bytes 4 8.

Definition rtr_send_reset_query s : M E (Z * rtr_socket) :=
  rtval ← rtr_send_pdu s (reset_query_pdu s);
  if rtval =? RTR_SUCCESS then mret (RTR_SUCCESS, s)
  else s ← rtr_change_socket_state s RTR_ERROR_TRANSPORT; mret (RTR_ERROR, s).

(** ** Receiving *)

(** The protocol version is settled by the first PDU. *)
Definition downgrade s (type : pdu_type) (ver : Z) : rtr_socket :=
  if has_received_pdus s then s
  else
    let s := if bool_decide (type ≠ ERROR) && (ver <? version s) && rtr_version_supported ver
             then set_version s ver else s in
    set_has_received_pdus s true.

(** From [memcpy(pdu, &header, sizeof(header))] to the end. *)
Definition receive_check s (buf header : buffer) : M E (received * rtr_socket * buffer) :=
  buf ← of_option (write buf 0 header);
  ok ← of_option (rtr_pdu_check_size buf);
  if negb ok then mret (PduFailed CORRUPT_DATA, s, buf)
  else
    buf ← of_option (rtr_pdu_footer_to_host_byte_order buf);
    type ← of_option (rtr_get_pdu_type header);
    ver ← of_option (get8 buf 0);
    len ← of_option (get32 buf 4);
    if bool_decide (type = ASPA) then
      if negb (ver =? RTR_PROTOCOL_VERSION_2) then mret (PduFailed UNSUPPORTED_PROTOCOL_VER, s, buf)
      else if negb (len mod 4 =? 0) then mret (PduFailed CORRUPT_DATA, s, buf)
      else mret (Return RTR_SUCCESS, s, buf)
    else mret (Return RTR_SUCCESS, s, buf).

(** From the received header on; [header] is in host byte order. *)
Definition receive_payload s (buf header : buffer) : M E (received * rtr_socket * buffer) :=
  len ← of_option (get32 header 4);
  type ← of_option (rtr_get_pdu_type header);
  ver ← of_option (get8 header 0);
  if len <? sizeof_header then mret (PduFailed CORRUPT_DATA, s, buf)
  else if RTR_MAX_PDU_LEN <? len then mret (PduFailed PDU_TOO_BIG, s, buf)
  else
    let s := downgrade s type ver in
    if negb (ver =? version s) && bool_decide (type ≠ ERROR)
    then mret (PduFailed UNEXPECTED_PROTOCOL_VERSION, s, buf)
    else
      let remaining_len := len - sizeof_header in
      if 0 <? remaining_len then
        if decide (state s = RTR_SHUTDOWN) then mret (Return RTR_ERROR, s, buf)
        else
          error ← tr_recv_all (Z.to_nat remaining_len);
          match error with
          | inl e => mret (TrFailed e, s, buf)
          | inr payload =>
              buf ← of_option (write buf (Z.to_nat sizeof_header) payload);
              receive_check s buf header
          end
      else receive_check s buf header.

Definition receive_header s (buf : buffer) : M E (received * rtr_socket * buffer) :=
  if decide (state s = RTR_SHUTDOWN) then mret (Return RTR_ERROR, s, buf)
  else
    error ← tr_recv_all (Z.to_nat sizeof_header);
    match error with
    | inl e => mret (TrFailed e, s, buf)
    | inr l =>
        buf ← of_option (write buf 0 l);
        header ← of_option (rtr_pdu_header_to_host_byte_order l);
        receive_payload s buf header
    end.

(** The code at the label [error]; the other PDU errors do not occur. *)
Definition receive_error s (buf : buffer) (r : received) : M E (Z * rtr_socket) :=
  let fatal := s ← rtr_change_socket_state s RTR_ERROR_FATAL; mret (RTR_ERROR, s) in
  match r with
  | Return rtval => mret (rtval, s)
  | TrFailed TR_ERROR => s ← rtr_change_socket_state s RTR_ERROR_TRANSPORT; mret (RTR_ERROR, s)
  | TrFailed TR_WOULDBLOCK => mret (RTR_TR_WOULDBLOCK, s)
  | TrFailed TR_INTR => mret (RTR_TR_INTR, s)
  | TrFailed TR_CLOSED => fatal
  | PduFailed CORRUPT_DATA =>
      rtr_send_error_pdu_from_network s buf sizeof_header CORRUPT_DATA
        (text "corrupt data received, length value in PDU is too small");;
      fatal
  | PduFailed PDU_TOO_BIG =>
      rtr_send_error_pdu_from_network s buf sizeof_header CORRUPT_DATA
        (snprintf 43 ("PDU too big, max. PDU size is: " ++ decimal RTR_MAX_PDU_LEN ++ " bytes"));;
      fatal
  | PduFailed UNSUPPORTED_PDU_TYPE =>
      rtr_send_error_pdu_from_network s buf sizeof_header UNSUPPORTED_PDU_TYPE [];;
      fatal
  | PduFailed UNSUPPORTED_PROTOCOL_VER =>
      rtr_send_error_pdu_from_network s buf sizeof_header UNSUPPORTED_PROTOCOL_VER [];;
      mret (RTR_ERROR, s)
  | PduFailed UNEXPECTED_PROTOCOL_VERSION =>
      rtr_send_error_pdu_from_network s buf sizeof_header UNEXPECTED_PROTOCOL_VERSION [];;
      mret (RTR_ERROR, s)
  | PduFailed _ => fatal
  end.

(** After a failure of the transport the buffer is not looked at any more: the part
    of the data that may have arrived is not recorded. *)
Definition rtr_receive_pdu s (buf : buffer) : M E (Z * rtr_socket * buffer) :=
  of_option (assert_ (RTR_MAX_PDU_LEN <=? Z.of_nat (length buf)));;
  '(r, s, buf) ← receive_header s buf;
  '(rtval, s) ← receive_error s buf r;
  mret (rtval, s, buf).

(** ** Handling received PDUs *)

Definition rtr_handle_error_pdu s (buf : buffer) : M E (Z * rtr_socket) :=
  error_code ← of_option (get16 buf 2);
  ver ← of_option (get8 buf 0);
  s ← match error_code with
      | 2 => rtr_change_socket_state s RTR_ERROR_NO_DATA_AVAIL
      | 4 =>
          if (ver <=? RTR_PROTOCOL_MAX_SUPPORTED_VERSION) && (RTR_PROTOCOL_MIN_SUPPORTED_VERSION <=? ver) &&
             (ver <? version s)
          then rtr_change_socket_state (set_version s ver) RTR_FAST_RECONNECT
          else rtr_change_socket_state s RTR_ERROR_FATAL
      | _ => rtr_change_socket_state s RTR_ERROR_FATAL
      end;
  len_enc_pdu ← of_option (get32 buf 8);
  of_option (get32 buf (12 + Z.to_nat len_enc_pdu));;
  mret (RTR_SUCCESS, s).

Definition rtr_handle_cache_response_pdu s (pdu : buffer) : M E (Z * rtr_socket) :=
  id ← of_option (get16 pdu 2);
  if request_session_id s then
    let s := if negb (last_update s =? 0)
             then set_is_resetting (Socket.set_last_update s 0) true else s in
    mret (RTR_SUCCESS, set_session_id s id)
  else if negb (session_id s =? id) then
    rtr_send_error_pdu_from_host s [] 0 CORRUPT_DATA (text "Wrong session_id in Cache Response PDU");;
    s ← rtr_change_socket_state s RTR_ERROR_FATAL;
    mret (RTR_ERROR, s)
  else mret (RTR_SUCCESS, s).

(** The intervals of the PDU, in the order in which the code looks at them. *)
Definition eod_intervals s (pdu : buffer) : M E (Z * rtr_socket) :=
  expire ← of_option (get32 pdu 20);
  refresh ← of_option (get32 pdu 12);
  retry ← of_option (get32 pdu 16);
  let '(interv_retval, s) := rtr_check_interval_option s (iv_mode s) expire RTR_INTERVAL_TYPE_EXPIRATION in
  if interv_retval =? RTR_ERROR then interval_send_error_pdu s pdu;; mret (RTR_ERROR, s)
  else
    let '(interv_retval, s) := rtr_check_interval_option s (iv_mode s) refresh RTR_INTERVAL_TYPE_REFRESH in
    if interv_retval =? RTR_ERROR then interval_send_error_pdu s pdu;; mret (RTR_ERROR, s)
    else
      let '(interv_retval, s) := rtr_check_interval_option s (iv_mode s) retry RTR_INTERVAL_TYPE_RETRY in
      if interv_retval =? RTR_ERROR then interval_send_error_pdu s pdu;; mret (RTR_ERROR, s)
      else mret (RTR_SUCCESS, s).

Definition rtr_handle_eod_pdu s (pdu : buffer) : M E (Z * rtr_socket) :=
  id ← of_option (get16 pdu 2);
  ver ← of_option (get8 pdu 0);
  if negb (id =? session_id s) then
    rtr_send_error_pdu_from_host s pdu RTR_MAX_PDU_LEN CORRUPT_DATA
      (snprintf 67 ("Expected session_id: " ++ decimal (session_id s) ++ ", received session_id. " ++
             decimal id ++ " in EOD PDU"));;
    s ← rtr_change_socket_state s RTR_ERROR_FATAL;
    mret (RTR_ERROR, s)
  else if ((ver =? RTR_PROTOCOL_VERSION_1) || (ver =? RTR_PROTOCOL_VERSION_2)) &&
          bool_decide (iv_mode s ≠ RTR_INTERVAL_MODE_IGNORE_ANY)
  then eod_intervals s pdu
  else mret (RTR_SUCCESS, s).

End Packets.
