(* ===== verification/SetOps.v ===== *)
(** * Updates of a set, and undoing them

    The reference for the updates of the prefix table and of the table of router
    keys: announcements and withdrawals on a set (a list without duplicates, up to
    order), and what undoing them one by one, first to last, gives. *)

From S2P Require Import Prelude.

Inductive update (A : Type) : Type := Announce (x : A) | Withdraw (x : A) | Invalid.
Arguments Announce {A} _.
Arguments Withdraw {A} _.
Arguments Invalid {A}.

#[global] Instance update_eq_dec `{!EqDecision A} : EqDecision (update A).
Proof. solve_decision. Defined.

Section SetOps.
Context {A : Type} `{!EqDecision A}.
Implicit Types (u : update A) (us : list (update A)) (l : list A).

Definition element u : option A :=
  match u with Announce x | Withdraw x => Some x | Invalid => None end.

(** [None]: a duplicate announcement, a withdrawal of an unknown element, or not an
    update at all. *)
Definition run1 u l : option (list A) :=
  match u with
  | Announce x => if decide (x ∈ l) then None else Some (x :: l)
  | Withdraw x => if decide (x ∈ l) then Some (filter (λ y, y ≠ x) l) else None
  | Invalid => None
  end.

(** The set after all updates, or the position of the first that fails. *)
Fixpoint run us l : nat + list A :=
  match us with
  | [] => inr l
  | u :: us =>
      match run1 u l with
      | None => inl 0%nat
      | Some l => match run us l with inl k => inl (S k) | inr l => inr l end
      end
  end.

Definition inverse u : update A :=
  match u with Announce x => Withdraw x | Withdraw x => Announce x | Invalid => Invalid end.

(** The undoing: an update that cannot be undone is passed over. *)
Definition undo1 u l : list A := default l (run1 (inverse u) l).
Fixpoint undo us l : list A := match us with [] => l | u :: us => undo us (undo1 u l) end.

(** ** Sets up to order *)

Lemma filter_out_perm (x : A) l l' : NoDup l → l ≡ₚ x :: l' → filter (λ y, y ≠ x) l ≡ₚ l'.
Proof.
  intros Hnd Hp. rewrite Hp in Hnd. apply NoDup_cons in Hnd as [Hn _].
  rewrite Hp, filter_cons_False by tauto. rewrite filter_all; [done|]. by intros y Hy ->.
Qed.

Lemma run1_perm u l l' :
  l ≡ₚ l' →
  match run1 u l, run1 u l' with
  | Some m, Some m' => m ≡ₚ m'
  | None, None => True
  | _, _ => False
  end.
Proof.
  intros Hp. destruct u as [x|x|]; simpl; [| |done]; destruct (decide (x ∈ l)) as [Hx|Hx];
    rewrite Hp in Hx; destruct (decide (x ∈ l')); try done; by rewrite Hp.
Qed.

Lemma run_perm us l l' :
  l ≡ₚ l' →
  match run us l, run us l' with
  | inr m, inr m' => m ≡ₚ m'
  | inl k, inl k' => k = k'
  | _, _ => False
  end.
Proof.
  revert l l'. induction us as [|u us IH]; intros l l' Hp; simpl; [done|].
  pose proof (run1_perm u l l' Hp) as H1. destruct (run1 u l) as [m|], (run1 u l') as [m'|]; try done.
  specialize (IH m m' H1). destruct (run us m), (run us m'); naive_solver.
Qed.

Lemma run1_nodup u l m : NoDup l → run1 u l = Some m → NoDup m.
Proof.
  intros Hnd. destruct u as [x|x|]; simpl; [| |done]; case_decide; try done; intros [= <-].
  - by apply NoDup_cons.
  - by apply NoDup_filter.
Qed.

Lemma run_nodup us l m : NoDup l → run us l = inr m → NoDup m.
Proof.
  revert l. induction us as [|u us IH]; intros l Hnd; simpl; [by intros [= <-]|].
  destruct (run1 u l) as [l'|] eqn:Hu; [|done]. apply run1_nodup in Hu; [|done].
  destruct (run us l') as [k|m'] eqn:Hm; [done|]. intros [= <-]. eauto.
Qed.

Lemma run_app us us' l :
  run (us ++ us') l =
  match run us l with
  | inl k => inl k
  | inr m => match run us' m with inl k => inl (length us + k)%nat | inr m' => inr m' end
  end.
Proof.
  revert l. induction us as [|u us IH]; intros l; simpl; [by destruct (run us' l)|].
  destruct (run1 u l) as [l'|]; [|done]. rewrite IH. destruct (run us l'); [done|]. by destruct (run us' _).
Qed.

Lemma run_length us l m : run us l = inr m → (length m <= length l + length us)%nat.
Proof.
  revert l. induction us as [|u us IH]; intros l; simpl; [intros [= <-]; lia|].
  destruct (run1 u l) as [l'|] eqn:Hu; [|done]. destruct (run us l') as [k|m'] eqn:Hm; [done|]. intros [= <-].
  apply IH in Hm. cut (length l' <= S (length l))%nat; [lia|]. destruct u as [x|x|]; simpl in Hu; try done.
  - case_decide; [done|]. injection Hu as <-. done.
  - case_decide; [|done]. injection Hu as <-. pose proof (length_filter (λ y, y ≠ x) l). lia.
Qed.

(** The updates before the first one that fails succeed. *)
Lemma run_prefix us l k : run us l = inl k → (k < length us)%nat ∧ ∃ m, run (take k us) l = inr m.
Proof.
  revert l k. induction us as [|u us IH]; intros l k; simpl; [done|].
  destruct (run1 u l) as [l'|] eqn:Hu.
  - destruct (run us l') as [k'|m] eqn:Hm; [|done]. intros [= <-]. destruct (IH _ _ Hm) as [? [m Hk]].
    split; [lia|]. exists m. simpl. by rewrite Hu, Hk.
  - intros [= <-]. split; [lia|]. by exists l.
Qed.

(** ** Undoing *)

Lemma elem_undo1 u l y :
  y ∈ undo1 u l ↔
  match u with Announce x => y ≠ x ∧ y ∈ l | Withdraw x => y = x ∨ y ∈ l | Invalid => y ∈ l end.
Proof.
  unfold undo1. destruct u as [x|x|]; simpl; [| |done]; case_decide; simpl.
  - by rewrite list_elem_of_filter.
  - split; [|tauto]. intros Hy. split; [|done]. by intros ->.
  - split; [tauto|]. by intros [-> |?].
  - by rewrite elem_of_cons.
Qed.

Lemma undo_nodup us l : NoDup l → NoDup (undo us l).
Proof.
  revert l. induction us as [|u us IH]; intros l Hl; simpl; [done|]. apply IH. unfold undo1.
  destruct (run1 (inverse u) l) as [m|] eqn:Hm; [by eapply run1_nodup|done].
Qed.

Lemma announce_element u x us : u ∈ us → element u = Some x → Some x ∈ element <$> us.
Proof. intros Hu <-. by apply list_elem_of_fmap_2. Qed.

Lemma elem_undo us l y :
  NoDup (element <$> us) → y ∈ undo us l ↔ Withdraw y ∈ us ∨ (y ∈ l ∧ Announce y ∉ us).
Proof.
  revert l. induction us as [|u us IH]; intros l Hnd; simpl.
  { rewrite !elem_of_nil. tauto. }
  apply NoDup_cons in Hnd as [Hn Hnd]. rewrite IH, elem_undo1, !elem_of_cons by done.
  destruct u as [x|x|]; simpl in *.
  - split; [|intros [[?|?]|[? Ha]]]; try done; [intros [?|[[? ?] ?]]; [tauto|]|tauto|].
    + right. split; [done|]. intros [[= ?]|?]; [congruence|done].
    + right. split; [split|]; [|done|tauto]. intros ->. apply Ha. by left.
  - split.
    + intros [?|[[-> |?] ?]]; [tauto..|]. right. split; [done|]. by intros [[=]|?].
    + intros [[[= ->]|?]|[? Ha]]; [|tauto|tauto]. destruct (decide (Announce x ∈ us)) as [Hx|Hx]; [|tauto].
      destruct Hn. by eapply announce_element.
  - split; [intros [?|[? ?]]|intros [[?|?]|[? Ha]]]; try done; try tauto. right. split; [done|]. by intros [[=]|?].
Qed.

Lemma elem_run us l m :
  NoDup (element <$> us) → run us l = inr m → ∀ y,
  (y ∈ m ↔ Announce y ∈ us ∨ (y ∈ l ∧ Withdraw y ∉ us)) ∧
  (Announce y ∈ us → y ∉ l) ∧ (Withdraw y ∈ us → y ∈ l).
Proof.
  revert l. induction us as [|u us IH]; intros l Hnd; simpl.
  { intros [= <-] y. rewrite !elem_of_nil. tauto. }
  apply NoDup_cons in Hnd as [Hn Hnd]. destruct (run1 u l) as [l1|] eqn:Hu; [|done].
  destruct (run us l1) as [k|m1] eqn:Hm; [done|]. intros [= <-] y.
  destruct (IH l1 Hnd Hm y) as (H1 & H2 & H3). rewrite !elem_of_cons.
  destruct u as [x|x|]; simpl in *; [| |done]; case_decide as Hx; try done; injection Hu as <-.
  - rewrite elem_of_cons in H1, H2, H3. assert (y = x → Announce y ∉ us ∧ Withdraw y ∉ us).
    { intros ->. split; intros Hin; apply Hn; by eapply announce_element. }
    destruct (decide (y = x)) as [->|Hne].
    + destruct H as [? ?]; [done|]. rewrite H1. split_and!; [|done|intros [[=]|?]; tauto]. split; [tauto|]. intros _. right. tauto.
    + rewrite H1. split_and!.
      * split; [intros [?|[? ?]]|intros [[[= ?]|?]|[? Hw]]]; try tauto; try congruence.
        right. split; [tauto|]. by intros [[=]|?].
      * intros [[= ?]|?]; [congruence|]. tauto.
      * intros [[=]|?]. tauto.
  - rewrite list_elem_of_filter in H1, H2, H3. assert (y = x → Announce y ∉ us ∧ Withdraw y ∉ us).
    { intros ->. split; intros Hin; apply Hn; by eapply announce_element. }
    destruct (decide (y = x)) as [->|Hne].
    + destruct H as [? ?]; [done|]. rewrite H1. split_and!; [|intros [[=]|?]; done|done].
      split; [tauto|]. intros [[[=]|?]|[? Hw]]; [done|]. destruct Hw. by left.
    + rewrite H1. split_and!.
      * split; [intros [?|[? ?]]|intros [[[=]|?]|[? Hw]]]; try tauto.
        right. split; [tauto|]. intros [[= ?]|?]; [congruence|done].
      * intros [[=]|?]. tauto.
      * intros [[= ?]|?]; [congruence|]. tauto.
Qed.

(** Updates of distinct elements do not interfere, and undoing them, first to last,
    gives the set there was. *)
Lemma undo_run us l m :
  NoDup l → NoDup (element <$> us) → run us l = inr m → undo us m ≡ₚ l.
Proof.
  intros Hl Hnd Hm. apply NoDup_Permutation; [|done|].
  - apply undo_nodup. by eapply run_nodup.
  - intros y. destruct (elem_run us l m Hnd Hm y) as (H1 & H2 & H3). rewrite elem_undo, H1 by done.
    destruct (decide (Withdraw y ∈ us)); tauto.
Qed.

Lemma undo_app us us' l : undo (us ++ us') l = undo us' (undo us l).
Proof. revert l. induction us as [|u us IH]; intros l; simpl; [done|]. apply IH. Qed.

Lemma run_valid us l m : run us l = inr m → Forall (λ u, u ≠ Invalid) us.
Proof.
  revert l. induction us as [|u us IH]; intros l; simpl; [done|].
  destruct (run1 u l) as [l'|] eqn:Hu; [|done]. destruct (run us l') as [k|m'] eqn:Hr; [done|]. intros [= ->].
  constructor; [by intros ->|by eapply IH].
Qed.

Lemma undo_perm us l l' : l ≡ₚ l' → undo us l ≡ₚ undo us l'.
Proof.
  revert l l'. induction us as [|u us IH]; intros l l' Hp; simpl; [done|]. apply IH. unfold undo1.
  pose proof (run1_perm (inverse u) l l' Hp). destruct (run1 _ l), (run1 _ l'); done.
Qed.

End SetOps.
