(* ===== verification/Update.v ===== *)
(** * Updating the tables: [rtrlib/rtr/packets.c]

    From stored PDUs (buffers in host byte order) to records, and the update of the
    three tables with its undoing.  A table the socket does not use is [None], a null
    pointer. *)

From Stdlib Require Import String.
From S2P Require Import Prelude Ip PfxTable Spki Hashlin AspaArray Aspa AspaUpdate.
From S2P Require Import Pdu Transport Socket Packets.
Open Scope Z_scope.

(** The enumerations of return values as integers. *)
Definition pfx_rtval (v : rtr_pfx_rtvals) : Z :=
  match v with
  | RTR_PFX_SUCCESS => 0 | RTR_PFX_ERROR => -1 | RTR_PFX_DUPLICATE_RECORD => -2
  | RTR_PFX_RECORD_NOT_FOUND => -3 | RTR_PFX_NOT_INITIALIZED => -4
  end.
Definition spki_rtval (v : rtr_spki_rtvals) : Z :=
  match v with
  | RTR_SPKI_SUCCESS => 0 | RTR_SPKI_ERROR => -1 | RTR_SPKI_DUPLICATE_RECORD => -2
  | RTR_SPKI_RECORD_NOT_FOUND => -3
  end.

(** ** Records *)

Section Records.
Context `{Build} `{Host}.
Implicit Types (sock : socket_ptr) (pdu : buffer).

Definition rtr_key_pdu_2_spki_record sock pdu (type : pdu_type) : option rtr_spki_record :=
  assert_ (bool_decide (type = ROUTER_KEY));;
  a ← get32 pdu 28;
  key ← slice pdu 8 SKI_SIZE;
  info ← slice pdu 32 SPKI_SIZE;
  Some (SpkiRecord key a info sock).

(** The record has been set to zeros; another type is not converted. *)
Definition rtr_prefix_pdu_2_pfx_record sock pdu (type : pdu_type) : option rtr_pfx_record :=
  assert_ (bool_decide (type = IPV4_PREFIX) || bool_decide (type = IPV6_PREFIX));;
  match type with
  | IPV4_PREFIX =>
      p ← get32 pdu 12; a ← get32 pdu 16;
      prefix_len ← get8 pdu 9; max_prefix_len ← get8 pdu 10;
      Some (PfxRecord a (Addr4 {| addr := p |}) prefix_len max_prefix_len sock)
  | IPV6_PREFIX =>
      a ← get32 pdu 28;
      p0 ← get32 pdu 12; p1 ← get32 pdu 16; p2 ← get32 pdu 20; p3 ← get32 pdu 24;
      prefix_len ← get8 pdu 9; max_prefix_len ← get8 pdu 10;
      Some (PfxRecord a (Addr6 {| addr0 := p0; addr1 := p1; addr2 := p2; addr3 := p3 |})
              prefix_len max_prefix_len sock)
  | _ => Some (PfxRecord 0 (Addr4 {| addr := 0 |}) 0 0 0%nat)
  end.

(** [n] numbers from an offset on. *)
Fixpoint get32s pdu (off n : nat) : option (list Z) :=
  match n with
  | O => Some []
  | S n => x ← get32 pdu off; l ← get32s pdu (off + 4) n; Some (x :: l)
  end.

Definition rtr_aspa_pdu_2_aspa_operation pdu (i : nat) : option aspa_update_operation :=
  flags ← get8 pdu 2;
  customer ← get32 pdu 8;
  if Z.land flags 1 =? 1 then
    count ← rtr_aspa_provider_count pdu;
    providers ← get32s pdu 12 (Z.to_nat count);
    Some (AspaOp i RTR_ASPA_ADD (AspaRecord customer (Z.to_nat count) (Some providers)) false)
  else Some (AspaOp i RTR_ASPA_REMOVE (AspaRecord customer 0 None) false).

End Records.

(** ** Updating and undoing *)

(** The tables a socket points to. *)
Record tables (HT : Type) := Tables {
  pfx_table : option rtr_pfx_table;
  spki_table : option (rtr_spki_table HT);
  aspa_table : option rtr_aspa_table }.
Arguments Tables {HT} _ _ _.
Arguments pfx_table {HT} _.
Arguments spki_table {HT} _.
Arguments aspa_table {HT} _.

Section Update.
Context `{Build} `{Host} {E HT : Type} `{!HashTable E HT key_entry}.
Context `{!Event pfx_event E} `{!Event spki_event E} `{!Event aspa_event E}.
Context `{!Event tr_event E} `{!Event rtr_event E}.
Abbreviation spki_tab := (option (rtr_spki_table HT)) (only parsing).
Implicit Types (s : rtr_socket) (pdu : buffer) (pt : option rtr_pfx_table) (st : spki_tab).

(** Removing from a null pointer is undefined, adding to it is not. *)
Definition rtr_undo_update_pfx_table s pt pdu : M E (Z * option rtr_pfx_table) :=
  type ← of_option (rtr_get_pdu_type pdu);
  of_option (assert_ (bool_decide (type = IPV4_PREFIX) || bool_decide (type = IPV6_PREFIX)));;
  pfxr ← of_option (rtr_prefix_pdu_2_pfx_record (self s) pdu type);
  flags ← of_option (get8 pdu 8);
  if flags =? 1 then
    t ← of_option pt;
    '(rtval, t) ← rtr_pfx_table_remove t pfxr;
    mret (pfx_rtval rtval, Some t)
  else if flags =? 0 then
    '(rtval, pt) ← rtr_pfx_table_add pt (Some pfxr);
    mret (pfx_rtval rtval, pt)
  else mret (RTR_ERROR, pt).

(** The loops that undo updates; the records of the socket are removed if that fails. *)
Fixpoint undo_pdus {T R : Type} (undo : rtr_socket → T → buffer → M E (Z * T))
    (src_remove : T → socket_ptr → M E (R * T)) s (t : T) (pdus : list buffer) : M E (Z * T) :=
  match pdus with
  | [] => mret (RTR_SUCCESS, t)
  | pdu :: pdus =>
      '(res, t) ← undo s t pdu;
      if res =? RTR_ERROR then
        '(_, t) ← src_remove t (self s);
        mret (RTR_ERROR, t)
      else undo_pdus undo src_remove s t pdus
  end.

Definition undo_pfx_pdus s pt (pdus : list buffer) : M E (Z * option rtr_pfx_table) :=
  undo_pdus rtr_undo_update_pfx_table rtr_pfx_table_src_remove s pt pdus.

Definition rtr_undo_update_pfx_table_batch s pt (ipv4_pdus ipv6_pdus : list buffer)
  : M E (Z * option rtr_pfx_table) :=
  '(res, pt) ← undo_pfx_pdus s pt ipv4_pdus;
  if res =? RTR_ERROR then mret (RTR_ERROR, pt)
  else undo_pfx_pdus s pt ipv6_pdus.

Definition rtr_undo_update_spki_table s st pdu : M E (Z * spki_tab) :=
  type ← of_option (rtr_get_pdu_type pdu);
  of_option (assert_ (bool_decide (type = ROUTER_KEY)));;
  entry ← of_option (rtr_key_pdu_2_spki_record (self s) pdu type);
  flags ← of_option (get8 pdu 2);
  if flags =? 1 then
    t ← of_option st;
    '(rtval, t) ← spki_table_remove_entry t entry;
    mret (spki_rtval rtval, Some t)
  else if flags =? 0 then
    t ← of_option st;
    '(rtval, t) ← spki_table_add_entry t entry;
    mret (spki_rtval rtval, Some t)
  else mret (RTR_ERROR, st).

Definition rtr_undo_update_spki_table_batch s st (pdus : list buffer) : M E (Z * spki_tab) :=
  undo_pdus rtr_undo_update_spki_table spki_table_src_remove s st pdus.

(** Report an error to the cache; the connection is given up. *)
Definition report_fatal s pdu (len : Z) (error : pdu_error_type) (txt : list Z) : M E (Z * rtr_socket) :=
  rtr_send_error_pdu_from_host s pdu len error txt;;
  s ← rtr_change_socket_state s RTR_ERROR_FATAL;
  mret (RTR_ERROR, s).

Definition rtr_update_pfx_table s pt pdu : M E (Z * rtr_socket * option rtr_pfx_table) :=
  match pt with
  | None => mret (RTR_SUCCESS, s, None)
  | Some t =>
      type ← of_option (rtr_get_pdu_type pdu);
      of_option (assert_ (bool_decide (type = IPV4_PREFIX) || bool_decide (type = IPV6_PREFIX)));;
      let pdu_size := if decide (type = IPV4_PREFIX) then sizeof_ipv4 else sizeof_ipv6 in
      pfxr ← of_option (rtr_prefix_pdu_2_pfx_record (self s) pdu type);
      flags ← of_option (get8 pdu 8);
      if (flags =? 0) || (flags =? 1) then
        '(rtval, pt) ←
          (if flags =? 1 then rtr_pfx_table_add (Some t) (Some pfxr)
           else '(rtval, t) ← rtr_pfx_table_remove t pfxr; mret (rtval, Some t));
        '(res, s) ←
          match rtval with
          | RTR_PFX_DUPLICATE_RECORD => report_fatal s pdu pdu_size DUPLICATE_ANNOUNCEMENT []
          | RTR_PFX_RECORD_NOT_FOUND => report_fatal s pdu pdu_size WITHDRAWAL_OF_UNKNOWN_RECORD []
          | RTR_PFX_ERROR => report_fatal s [] 0 INTERNAL_ERROR (text "PFX_TABLE Error")
          | _ => mret (RTR_SUCCESS, s)
          end;
        mret (res, s, pt)
      else
        rtr_send_error_pdu_from_host s pdu pdu_size CORRUPT_DATA
          (text "Prefix PDU with invalid flags value received");;
        mret (RTR_ERROR, s, pt)
  end.

Definition rtr_update_spki_table s st pdu : M E (Z * rtr_socket * spki_tab) :=
  match st with
  | None => mret (RTR_SUCCESS, s, None)
  | Some t =>
      type ← of_option (rtr_get_pdu_type pdu);
      of_option (assert_ (bool_decide (type = ROUTER_KEY)));;
      let pdu_size := sizeof_router_key in
      entry ← of_option (rtr_key_pdu_2_spki_record (self s) pdu type);
      flags ← of_option (get8 pdu 2);
      if (flags =? 0) || (flags =? 1) then
        '(rtval, t) ←
          (if flags =? 1 then spki_table_add_entry t entry else spki_table_remove_entry t entry);
        '(res, s) ←
          match rtval with
          | RTR_SPKI_DUPLICATE_RECORD => report_fatal s pdu pdu_size DUPLICATE_ANNOUNCEMENT []
          | RTR_SPKI_RECORD_NOT_FOUND => report_fatal s pdu pdu_size WITHDRAWAL_OF_UNKNOWN_RECORD []
          | RTR_SPKI_ERROR => report_fatal s [] 0 INTERNAL_ERROR (text "spki_table Error")
          | RTR_SPKI_SUCCESS => mret (RTR_SUCCESS, s)
          end;
        mret (res, s, Some t)
      else
        rtr_send_error_pdu_from_host s pdu pdu_size CORRUPT_DATA
          (text "Router Key PDU with invalid flags value received");;
        mret (RTR_ERROR, s, st)
  end.

(** The operations of the PDUs from the [i]-th on; [None]: an announcement had no
    providers, and the connection is given up. *)
Fixpoint aspa_operations s (pdus : list buffer) (i : nat)
  : M E (option (list aspa_update_operation) * rtr_socket) :=
  match pdus with
  | [] => mret (Some [], s)
  | pdu :: pdus =>
      flags ← of_option (get8 pdu 2);
      count ← of_option (rtr_aspa_provider_count pdu);
      if (Z.land flags 1 =? 1) && (count =? 0) then
        len ← of_option (get32 pdu 4);
        '(_, s) ← report_fatal s pdu len INCORRECT_ASPA_PROVIDER_LIST [];
        mret (None, s)
      else
        op ← of_option (rtr_aspa_pdu_2_aspa_operation pdu i);
        '(ops, s) ← aspa_operations s pdus (S i);
        mret (match ops with Some ops => Some (op :: ops) | None => None end, s)
  end.

(** The operation that failed, if any: [failed_operation] of the update. *)
Definition failed_op (update : option aspa_update) : option aspa_update_operation :=
  u ← update; i ← failed_operation u; operations u !! i.

Definition rtr_compute_update_aspa_table s (at_ : option rtr_aspa_table) (aspa_pdus : list buffer)
    (update : option aspa_update)
  : M E (Z * rtr_socket * option rtr_aspa_table * option aspa_update) :=
  match at_ with
  | None => mret (RTR_SUCCESS, s, None, update)
  | Some t =>
      match aspa_pdus with
      | [] => mret (RTR_SUCCESS, s, Some t, update)
      | _ =>
          ok ← alloc;
          if negb ok then
            '(res, s) ← report_fatal s [] 0 INTERNAL_ERROR (text "Malloc failed");
            mret (res, s, Some t, update)
          else
            '(ops, s) ← aspa_operations s aspa_pdus 0;
            match ops with
            | None => mret (RTR_ERROR, s, Some t, update)
            | Some ops =>
                '(res, t, update) ← aspa_table_update_swap_in_compute t (self s) ops update;
                '(rtval, s) ←
                  match failed_op update with
                  | Some op =>
                      pdu ← of_option (aspa_pdus !! index op);
                      pdu_size ← of_option (get32 pdu 4);
                      match res with
                      | RTR_ASPA_DUPLICATE_RECORD => report_fatal s pdu pdu_size DUPLICATE_ANNOUNCEMENT []
                      | RTR_ASPA_RECORD_NOT_FOUND =>
                          report_fatal s pdu pdu_size WITHDRAWAL_OF_UNKNOWN_RECORD []
                      | _ => mret (RTR_SUCCESS, s)
                      end
                  | None =>
                      if decide (res = RTR_ASPA_SUCCESS) then mret (RTR_SUCCESS, s)
                      else report_fatal s [] 0 INTERNAL_ERROR (text "aspa_table Error")
                  end;
                mret (rtval, s, Some t, update)
            end
      end
  end.

(** The loops over the stored PDUs, from the [i]-th on; [Some i]: updating with the
    [i]-th failed. *)
Fixpoint update_pdus {T : Type} (update : rtr_socket → T → buffer → M E (Z * rtr_socket * T)) s (t : T)
    (pdus : list buffer) (i : nat) : M E (option nat * rtr_socket * T) :=
  match pdus with
  | [] => mret (None, s, t)
  | pdu :: pdus =>
      '(res, s, t) ← update s t pdu;
      if res =? RTR_ERROR then mret (Some i, s, t) else update_pdus update s t pdus (S i)
  end.

Definition update_pfx_pdus s pt (pdus : list buffer) : M E (option nat * rtr_socket * option rtr_pfx_table) :=
  update_pdus rtr_update_pfx_table s pt pdus 0.
Definition update_spki_pdus s st (pdus : list buffer) : M E (option nat * rtr_socket * spki_tab) :=
  update_pdus rtr_update_spki_table s st pdus 0.

(** Undoing what was done to the prefixes and the router keys: did it fail? *)
Definition undo_both s (t : tables HT) (ipv4_pdus ipv6_pdus router_key_pdus : list buffer)
  : M E (bool * tables HT) :=
  '(r1, st) ← rtr_undo_update_spki_table_batch s (spki_table t) router_key_pdus;
  '(r2, pt) ← rtr_undo_update_pfx_table_batch s (pfx_table t) ipv4_pdus ipv6_pdus;
  mret ((r1 =? RTR_ERROR) || (r2 =? RTR_ERROR), Tables pt st (aspa_table t)).

(** The blocks of [rtr_sync_update_tables] after [if (proceed)], each with what follows:
    the values of [proceed] and [undo_failed], and the update of the ASPA table. *)
Definition update_aspas s (t : tables HT) (ipv4_pdus ipv6_pdus router_key_pdus aspa_pdus : list buffer)
  : M E (bool * bool * rtr_socket * tables HT * option aspa_update) :=
  '(res, s, at_, update) ← rtr_compute_update_aspa_table s (aspa_table t) aspa_pdus None;
  let t := Tables (pfx_table t) (spki_table t) at_ in
  if res =? RTR_ERROR then
    '(undo_failed, t) ← undo_both s t ipv4_pdus ipv6_pdus router_key_pdus;
    mret (false, undo_failed, s, t, update)
  else mret (true, false, s, t, update).

Definition update_keys s (t : tables HT) (ipv4_pdus ipv6_pdus router_key_pdus aspa_pdus : list buffer)
  : M E (bool * bool * rtr_socket * tables HT * option aspa_update) :=
  '(failed, s, st) ← update_spki_pdus s (spki_table t) router_key_pdus;
  let t := Tables (pfx_table t) st (aspa_table t) in
  match failed with
  | Some i =>
      '(undo_failed, t) ← undo_both s t ipv4_pdus ipv6_pdus (take i router_key_pdus);
      mret (false, undo_failed, s, t, None)
  | None => update_aspas s t ipv4_pdus ipv6_pdus router_key_pdus aspa_pdus
  end.

Definition update_tables s (t : tables HT) (ipv4_pdus ipv6_pdus router_key_pdus aspa_pdus : list buffer)
  : M E (bool * bool * rtr_socket * tables HT * option aspa_update) :=
  '(failed, s, pt) ← update_pfx_pdus s (pfx_table t) ipv4_pdus;
  let t := Tables pt (spki_table t) (aspa_table t) in
  match failed with
  | Some i =>
      '(res, pt) ← rtr_undo_update_pfx_table_batch s (pfx_table t) (take i ipv4_pdus) [];
      mret (false, res =? RTR_ERROR, s, Tables pt (spki_table t) (aspa_table t), None)
  | None =>
      '(failed, s, pt) ← update_pfx_pdus s (pfx_table t) ipv6_pdus;
      let t := Tables pt (spki_table t) (aspa_table t) in
      match failed with
      | Some i =>
          '(res, pt) ← rtr_undo_update_pfx_table_batch s (pfx_table t) ipv4_pdus (take i ipv6_pdus);
          mret (false, res =? RTR_ERROR, s, Tables pt (spki_table t) (aspa_table t), None)
      | None => update_keys s t ipv4_pdus ipv6_pdus router_key_pdus aspa_pdus
      end
  end.

(** Without an ASPA table there is no update. *)
Definition consume_update (proceed : bool) (at_ : option rtr_aspa_table) (update : option aspa_update)
  : M E (option rtr_aspa_table) :=
  match at_ with
  | Some t =>
      '(t, _) ← (if proceed then aspa_table_update_swap_in_apply t update
                 else aspa_table_update_swap_in_discard t update);
      mret (Some t)
  | None => mret None
  end.

Definition rtr_sync_update_tables s (t : tables HT)
    (ipv4_pdus ipv6_pdus router_key_pdus aspa_pdus : list buffer) (eod_pdu : buffer)
  : M E (Z * rtr_socket * tables HT) :=
  '(proceed, undo_failed, s, t, update) ← update_tables s t ipv4_pdus ipv6_pdus router_key_pdus aspa_pdus;
  at_ ← consume_update proceed (aspa_table t) update;
  let t := Tables (pfx_table t) (spki_table t) at_ in
  if negb proceed then
    let s := if undo_failed : bool then set_request_session_id s true else s in
    s ← rtr_change_socket_state s RTR_ERROR_FATAL;
    mret (RTR_ERROR, s, t)
  else
    sn ← of_option (get32 eod_pdu 8);
    mret (RTR_SUCCESS, set_serial_number s sn, t).

End Update.
