(* ===== verification/Sync.v ===== *)
(** * Synchronisation with a cache: [rtrlib/rtr/packets.c]

    The PDUs of a response are stored until End of Data and then applied to the
    tables, or, when the cache starts over, to shadow tables that are swapped in.
    Cancellation points are not modelled. *)

From Stdlib Require Import String.
From S2P Require Import Prelude Ip PfxTable Spki Hashlin AspaArray Aspa AspaUpdate.
From S2P Require Import Pdu Transport Socket Packets Update.
Open Scope Z_scope.

Definition RTR_TR_CLOSED : Z := -4.
Definition TEMPORARY_PDU_STORE_INCREMENT_VALUE : Z := 100.

(** A growing array of PDUs: [size] elements fit, as far as the code knows; [room]
    is the number of bytes allocated. *)
Record pdu_array := PduArray { elems : list buffer; size : Z; room : Z }.
Definition no_pdus : pdu_array := PduArray [] 0 0.

(** The PDUs received so far. *)
Record pdu_store := PduStore {
  ipv4_pdus : pdu_array;
  ipv6_pdus : pdu_array;
  router_key_pdus : pdu_array;
  aspa_pdus : pdu_array }.
Definition empty_store : pdu_store := PduStore no_pdus no_pdus no_pdus no_pdus.

Section Sync.
Context `{Build} `{Host} {E HT : Type} `{!HashTable E HT key_entry}.
Context `{!Event pfx_event E} `{!Event spki_event E} `{!Event aspa_event E}.
Context `{!Event tr_event E} `{!Event rtr_event E}.
Implicit Types (s : rtr_socket) (pdu buf : buffer) (t : tables HT).

(** What the arrays on the stack contain before something is written to them. *)
Context (stack : buffer).

(** ** Storing PDUs *)

(** Make room for another element of [elem_size] bytes; the counters and the product
    are computed modulo [modulus] ([unsigned int] for the structures, [size_t] for the
    pointers to ASPA PDUs). *)
Definition grow (modulus : Z) (a : pdu_array) (elem_size : Z) : M E (bool * pdu_array) :=
  if size a <=? Z.of_nat (length (elems a)) then
    let size := (size a + TEMPORARY_PDU_STORE_INCREMENT_VALUE) mod modulus in
    ok ← alloc;
    if (ok : bool) then mret (true, PduArray (elems a) size ((size * elem_size) mod modulus))
    else mret (false, PduArray (elems a) size (room a))
  else mret (true, a).

(** [memcpy] to the first free element, undefined outside of the memory. *)
Definition append (a : pdu_array) (pdu : buffer) (elem_size : Z) : option pdu_array :=
  if (Z.of_nat (length (elems a)) + 1) * elem_size <=? room a
  then Some (PduArray (elems a ++ [pdu]) (size a) (room a)) else None.

Definition rtr_store_prefix_pdu s pdu (pdu_size : Z) (a : pdu_array) : M E (Z * rtr_socket * pdu_array) :=
  type ← of_option (rtr_get_pdu_type pdu);
  of_option (assert_ (bool_decide (type = IPV4_PREFIX) || bool_decide (type = IPV6_PREFIX)));;
  '(ok, a) ← grow (2 ^ 32) a pdu_size;
  if negb ok then
    '(res, s) ← report_fatal s [] 0 INTERNAL_ERROR (text "Realloc failed");
    mret (res, s, a)
  else
    copy ← of_option (slice pdu 0 (Z.to_nat pdu_size));
    a ← of_option (append a copy pdu_size);
    mret (RTR_SUCCESS, s, a).

Definition rtr_store_router_key_pdu s pdu (pdu_size : Z) (a : pdu_array)
  : M E (Z * rtr_socket * pdu_array) :=
  type ← of_option (rtr_get_pdu_type pdu);
  of_option (assert_ (bool_decide (type = ROUTER_KEY)));;
  '(ok, a) ← grow (2 ^ 32) a pdu_size;
  if negb ok then
    '(res, s) ← report_fatal s [] 0 INTERNAL_ERROR (text "Realloc failed");
    mret (res, s, a)
  else
    copy ← of_option (slice pdu 0 (Z.to_nat pdu_size));
    a ← of_option (append a copy pdu_size);
    mret (RTR_SUCCESS, s, a).

Definition sizeof_pointer : Z := 8.

Definition rtr_store_aspa_pdu s pdu (a : pdu_array) : M E (Z * rtr_socket * pdu_array) :=
  '(ok, a) ← grow (2 ^ 64) a sizeof_pointer;
  if negb ok then
    '(res, s) ← report_fatal s [] 0 INTERNAL_ERROR (text "Realloc failed");
    mret (res, s, a)
  else
    pdu_size ← of_option (get32 pdu 4);
    ok ← alloc;
    if negb ok then
      '(res, s) ← report_fatal s [] 0 INTERNAL_ERROR (text "Malloc failed");
      mret (res, s, a)
    else
      copy ← of_option (slice pdu 0 (Z.to_nat pdu_size));
      a ← of_option (append a copy sizeof_pointer);
      mret (RTR_SUCCESS, s, a).

(** ** A new start: shadow tables *)

(** The code at the label [cleanup]. *)
Definition free_shadow_tables (pfx : option rtr_pfx_table) (spki : field (rtr_spki_table HT))
    (aspa : field rtr_aspa_table) : M E unit :=
  match pfx with Some p => pfx_table_free_without_notify p;; mret tt | None => mret tt end;;
  spki ← of_option (read_field spki);
  match spki with Some k => spki_table_free_without_notify k | None => mret tt end;;
  aspa ← of_option (read_field aspa);
  match aspa with Some a => rtr_aspa_table_free (Some a) false;; mret tt | None => mret tt end.

(** The shadow tables are swapped in and the clients are told the difference. *)
Definition swap_in_shadow_tables s t (pfx : rtr_pfx_table) (spki : rtr_spki_table HT)
    (aspa : rtr_aspa_table)
  : M E (tables HT * rtr_pfx_table * rtr_spki_table HT * rtr_aspa_table) :=
  pt ← of_option (pfx_table t);
  st ← of_option (spki_table t);
  '(pt, pfx) ← pfx_table_swap pt pfx;
  '(st, spki) ← spki_table_swap st spki;
  at_ ← of_option (aspa_table t);
  '(_, at_, aspa) ← aspa_table_src_replace at_ aspa (self s)
    (bool_decide (is_Some (Aspa.update_fp at_))) false;
  pfx ← (if bool_decide (is_Some (PfxTable.update_fp pt))
         then pfx_table_notify_diff pt pfx (self s) else mret pfx);
  spki ← (if bool_decide (is_Some (Spki.update_fp st))
          then spki_table_notify_diff st spki (self s) else mret spki);
  mret (Tables (Some pt) (Some st) (Some at_), pfx, spki, aspa).

Definition sync_reset s t (p : pdu_store) (eod_pdu : buffer) : M E (Z * rtr_socket * tables HT) :=
  let finish s t pfx spki aspa retval :=
    free_shadow_tables pfx spki aspa;; mret (retval, set_is_resetting s false, t) in
  ok ← alloc;
  if negb ok then finish s t None Uninit Uninit RTR_ERROR
  else
    '(rtval, pfx) ← pfx_table_copy_except_socket (pfx_table t) (rtr_pfx_table_init None) (self s);
    if decide (rtval ≠ RTR_PFX_SUCCESS) then
      s ← rtr_change_socket_state s RTR_ERROR_FATAL;
      finish s t (Some pfx) Uninit Uninit RTR_ERROR
    else
      ok ← alloc;
      if negb ok then finish s t (Some pfx) Null Uninit RTR_ERROR
      else
        spki ← spki_table_init None;
        st ← of_option (spki_table t);
        '(rtval, st, spki) ← spki_table_copy_except_socket st spki (self s);
        let t := Tables (pfx_table t) (Some st) (aspa_table t) in
        if decide (rtval ≠ RTR_SPKI_SUCCESS) then
          s ← rtr_change_socket_state s RTR_ERROR_FATAL;
          finish s t (Some pfx) (Ptr spki) Uninit RTR_ERROR
        else
          ok ← alloc;
          if negb ok then finish s t (Some pfx) (Ptr spki) Null RTR_ERROR
          else
            '(retval, s, shadow) ← rtr_sync_update_tables s
              (Tables (Some pfx) (Some spki) (Some (rtr_aspa_table_init None)))
              (elems (ipv4_pdus p)) (elems (ipv6_pdus p)) (elems (router_key_pdus p))
              (elems (aspa_pdus p)) eod_pdu;
            pfx ← of_option (pfx_table shadow);
            spki ← of_option (spki_table shadow);
            aspa ← of_option (aspa_table shadow);
            '(t, pfx, spki, aspa) ←
              (if retval =? RTR_SUCCESS then swap_in_shadow_tables s t pfx spki aspa
               else mret (t, pfx, spki, aspa));
            finish s t (Some pfx) (Ptr spki) (Ptr aspa) retval.

(** ** Receiving until End of Data *)

Definition handle_eod s t (p : pdu_store) buf : M E (Z * rtr_socket * tables HT) :=
  '(retval, s) ← rtr_handle_eod_pdu s buf;
  if negb (retval =? RTR_SUCCESS) then mret (retval, s, t)
  else if is_resetting s then sync_reset s t p buf
  else
    rtr_sync_update_tables s t (elems (ipv4_pdus p)) (elems (ipv6_pdus p))
      (elems (router_key_pdus p)) (elems (aspa_pdus p)) buf.

(** [retval] and the socket after storing a PDU. *)
Definition stored (res : Z) s : M E (Z * rtr_socket) :=
  if res =? RTR_ERROR then s ← rtr_change_socket_state s RTR_ERROR_FATAL; mret (RTR_ERROR, s)
  else mret (RTR_SUCCESS, s).

(** The [switch] of the loop. *)
Definition handle_sync_pdu s t (p : pdu_store) buf (type : pdu_type)
  : M E (Z * rtr_socket * tables HT * pdu_store) :=
  match type with
  | SERIAL_NOTIFY => mret (RTR_SUCCESS, s, t, p)
  | IPV4_PREFIX =>
      '(res, s, a) ← rtr_store_prefix_pdu s buf sizeof_ipv4 (ipv4_pdus p);
      '(retval, s) ← stored res s;
      mret (retval, s, t, PduStore a (ipv6_pdus p) (router_key_pdus p) (aspa_pdus p))
  | IPV6_PREFIX =>
      '(res, s, a) ← rtr_store_prefix_pdu s buf sizeof_ipv6 (ipv6_pdus p);
      '(retval, s) ← stored res s;
      mret (retval, s, t, PduStore (ipv4_pdus p) a (router_key_pdus p) (aspa_pdus p))
  | ROUTER_KEY =>
      '(res, s, a) ← rtr_store_router_key_pdu s buf sizeof_router_key (router_key_pdus p);
      '(retval, s) ← stored res s;
      mret (retval, s, t, PduStore (ipv4_pdus p) (ipv6_pdus p) a (aspa_pdus p))
  | ASPA =>
      '(res, s, a) ← rtr_store_aspa_pdu s buf (aspa_pdus p);
      '(retval, s) ← stored res s;
      mret (retval, s, t, PduStore (ipv4_pdus p) (ipv6_pdus p) (router_key_pdus p) a)
  | ERROR => '(_, s) ← rtr_handle_error_pdu s buf; mret (RTR_ERROR, s, t, p)
  | EOD => '(retval, s, t) ← handle_eod s t p buf; mret (retval, s, t, p)
  | _ =>
      rtr_send_error_pdu_from_host s buf sizeof_header CORRUPT_DATA
        (text "Unexpected PDU received during data synchronisation");;
      mret (RTR_ERROR, s, t, p)
  end.

Fixpoint sync_receive_loop (fuel : nat) s t (p : pdu_store) buf : M E (Z * rtr_socket * tables HT) :=
  match fuel with
  | O => of_option None
  | S fuel =>
      '(retval, s, buf) ← rtr_receive_pdu s buf;
      if retval =? RTR_TR_WOULDBLOCK then
        s ← rtr_change_socket_state s RTR_ERROR_TRANSPORT; mret (RTR_ERROR, s, t)
      else if retval <? 0 then mret (RTR_ERROR, s, t)
      else
        type ← of_option (rtr_get_pdu_type buf);
        '(retval, s, t, p) ← handle_sync_pdu s t p buf type;
        if bool_decide (type ≠ EOD) && negb (retval =? RTR_ERROR)
        then sync_receive_loop fuel s t p buf
        else mret (retval, s, t)
  end.

(** Every PDU takes bytes from the stream. *)
Fixpoint supply (l : list incoming) : nat :=
  match l with
  | [] => 0
  | Segment b :: l => length b + supply l
  | RecvFails _ :: l => supply l
  end.

Definition rtr_sync_receive_and_store_pdus s t : M E (Z * rtr_socket * tables HT) := λ w,
  sync_receive_loop (S (supply (stream (net w)))) s t empty_store stack w.

(** ** A synchronisation *)

(** The loop of [rtr_sync]: the first PDU that is not a Serial Notify, or the value
    to return. *)
Fixpoint sync_first_pdu (fuel : nat) s buf : M E (Z * rtr_socket * buffer) :=
  match fuel with
  | O => of_option None
  | S fuel =>
      '(rtval, s, buf) ← rtr_receive_pdu s buf;
      if (rtval =? RTR_TR_CLOSED) && request_session_id s &&
         (RTR_PROTOCOL_MIN_SUPPORTED_VERSION <? version s)
      then
        s ← rtr_change_socket_state (set_version s (version s - 1)) RTR_FAST_RECONNECT;
        mret (RTR_ERROR, s, buf)
      else if rtval =? RTR_TR_WOULDBLOCK then
        s ← rtr_change_socket_state s RTR_ERROR_TRANSPORT; mret (RTR_ERROR, s, buf)
      else if rtval <? 0 then mret (RTR_ERROR, s, buf)
      else
        type ← of_option (rtr_get_pdu_type buf);
        if decide (type = SERIAL_NOTIFY) then sync_first_pdu fuel s buf
        else mret (RTR_SUCCESS, s, buf)
  end.

Definition rtr_sync s t : M E (Z * rtr_socket * tables HT) := λ w,
  ('(rtval, s, pdu) ← sync_first_pdu (S (supply (stream (net w)))) s stack;
   if rtval =? RTR_ERROR then mret (RTR_ERROR, s, t)
   else
     type ← of_option (rtr_get_pdu_type pdu);
     match type with
     | ERROR => '(_, s) ← rtr_handle_error_pdu s pdu; mret (RTR_ERROR, s, t)
     | CACHE_RESET =>
         s ← rtr_change_socket_state s RTR_ERROR_NO_INCR_UPDATE_AVAIL; mret (RTR_ERROR, s, t)
     | CACHE_RESPONSE =>
         '(_, s) ← rtr_handle_cache_response_pdu s pdu;
         '(rtval, s, t) ← rtr_sync_receive_and_store_pdus s t;
         if rtval =? RTR_ERROR then mret (RTR_ERROR, s, t)
         else
           '(rtval, s) ← rtr_set_last_update (set_request_session_id s false);
           if rtval =? RTR_ERROR then mret (RTR_ERROR, s, t) else mret (RTR_SUCCESS, s, t)
     | _ =>
         rtr_send_error_pdu_from_host s pdu sizeof_header CORRUPT_DATA
           (text "Unexpected PDU received in data synchronisation");;
         mret (RTR_ERROR, s, t)
     end) w.

(** The time to wait is only passed on to the transport. *)
Definition rtr_wait_for_sync s : M E (Z * rtr_socket) :=
  rtr_get_monotonic_time;;
  '(rtval, s, pdu) ← rtr_receive_pdu s stack;
  if 0 <=? rtval then
    type ← of_option (rtr_get_pdu_type pdu);
    if decide (type = SERIAL_NOTIFY) then mret (RTR_SUCCESS, s) else mret (RTR_ERROR, s)
  else if rtval =? RTR_TR_WOULDBLOCK then mret (RTR_SUCCESS, s)
  else mret (RTR_ERROR, s).

End Sync.
