(* ===== verification/PacketsProofs.v ===== *)
(** * Sending and receiving PDUs: proofs *)

From Stdlib Require Import String.
From S2P Require Import Prelude Pdu PduProofs PduTheorems Transport TransportProofs Socket Packets.
Open Scope Z_scope.

(** ** Structures as concatenations of members *)

Section Members.
Context `{Host}.
Implicit Types (a b l p q : list Z).

Lemma mirror_host_bytes n v : mirror (host_bytes n v) = be_bytes n v.
Proof. unfold mirror, host_bytes, be_bytes. by destruct big_endian. Qed.

Lemma flip_member n a l b off :
  length a = off → length l = n → flip n (a ++ l ++ b) off = a ++ mirror l ++ b.
Proof.
  intros <- <-. unfold flip. rewrite take_app_length, drop_app_length, take_app_length. do 2 f_equal.
  by rewrite drop_app_add, drop_app_length.
Qed.

Lemma flip_app n p q off : (off + n <= length p)%nat → flip n (p ++ q) off = flip n p off ++ q.
Proof.
  intros Hl. unfold flip. rewrite take_app_le by lia. rewrite drop_app_le by lia.
  rewrite take_app_le by (rewrite length_drop; lia). rewrite drop_app_le by lia. by rewrite <- !app_assoc.
Qed.

Lemma flips_app offs p q n :
  fits offs n → (n <= length p)%nat → flips offs (p ++ q) = flips offs p ++ q.
Proof.
  intros [_ Hf] Hn. revert p Hn. induction Hf as [|off offs Ho Hf IH]; intros p Hn; [done|]. simpl.
  rewrite flip_app by lia. apply IH. rewrite flip_length; lia.
Qed.

Lemma header_flip_app t p q : (8 <= length p)%nat → header_flip t (p ++ q) = header_flip t p ++ q.
Proof.
  intros Hl. unfold header_flip. case_match; rewrite !flip_app; rewrite ?flip_length; try lia; done.
Qed.

Lemma get32_member a l b off : length a = off → length l = 4%nat → get32 (a ++ l ++ b) off = Some (host_value l).
Proof.
  intros <- Hl. unfold get32. rewrite slice_some by (rewrite !length_app; lia).
  rewrite drop_app_length, <- Hl, take_app_length. done.
Qed.

Lemma bytes_host_bytes n v : bytes (host_bytes n v).
Proof.
  unfold host_bytes, be_bytes. destruct big_endian; [apply bytes_reverse|]; apply le_bytes_ok.
Qed.

Lemma u8_bound v : is_u8 (u8 v).
Proof. apply Z.mod_pos_bound. lia. Qed.

(** A header in host byte order becomes one in network byte order. *)
Lemma header_to_network p v t (x : list Z) m rest :
  is_u8 v → pdu_type_of t ≠ ROUTER_KEY → pdu_type_of t ≠ ASPA → is_u8 t → bytes x → bytes rest →
  length x = 2%nat →
  p = v :: t :: x ++ host_bytes 4 m ++ rest →
  rtr_get_pdu_type p = Some (pdu_type_of t) ∧
  rtr_pdu_header_to_network_byte_order p = Some (v :: t :: mirror x ++ be_bytes 4 m ++ rest).
Proof.
  intros Hv Hr Ha Ht Hx Hrest Hl ->.
  assert (rtr_get_pdu_type (v :: t :: x ++ host_bytes 4 m ++ rest) = Some (pdu_type_of t)) as Hty.
  { unfold rtr_get_pdu_type, get8. rewrite slice_some by (simpl; lia). simpl.
    unfold host_value, be_value. by destruct big_endian; simpl; rewrite Z.add_0_r. }
  split; [done|]. unfold rtr_pdu_header_to_network_byte_order.
  rewrite (convert_header_spec _ _ (pdu_type_of t)); [| |simpl; rewrite !length_app, host_bytes_length; lia|done].
  - unfold header_flip. rewrite !bool_decide_eq_true_2 by done. simpl. f_equal.
    change (v :: t :: x ++ host_bytes 4 m ++ rest) with ([v; t] ++ x ++ host_bytes 4 m ++ rest).
    rewrite flip_member by done.
    replace ([v; t] ++ mirror x ++ host_bytes 4 m ++ rest) with (([v; t] ++ mirror x) ++ host_bytes 4 m ++ rest)
      by by rewrite <- app_assoc.
    rewrite flip_member; [|rewrite length_app, mirror_length, Hl; done|apply host_bytes_length].
    by rewrite mirror_host_bytes, <- app_assoc.
  - do 2 (constructor; [done|]). apply Forall_app. split; [done|]. apply Forall_app. split; [apply bytes_host_bytes|done].
Qed.

(** ** A PDU at the front of a buffer *)

Lemma get_pdu_type_some (p : list Z) : (2 <= length p)%nat → ∃ t, rtr_get_pdu_type p = Some t.
Proof.
  intros Hl. unfold rtr_get_pdu_type, get8. rewrite slice_some by lia. by eexists.
Qed.

Lemma slice_app p q off n : (off + n <= length p)%nat → slice (p ++ q) off n = slice p off n.
Proof.
  intros Hl. rewrite !slice_some by (rewrite ?length_app; lia). rewrite drop_app_le by lia.
  by rewrite take_app_le by (rewrite length_drop; lia).
Qed.

Lemma type_app p q : (2 <= length p)%nat → rtr_get_pdu_type (p ++ q) = rtr_get_pdu_type p.
Proof. intros Hl. unfold rtr_get_pdu_type, get8. by rewrite slice_app by lia. Qed.

(** The size check reads only the PDU. *)
Lemma check_size_app p q len :
  bytes p → get32 p 4 = Some len → length p = Z.to_nat len → (8 <= length p)%nat →
  rtr_pdu_check_size (p ++ q) = rtr_pdu_check_size p.
Proof.
  intros Hb Hlen Hl H8. unfold rtr_pdu_check_size. rewrite type_app by lia.
  pose proof (get32_bound _ _ _ Hb Hlen). assert (get32 (p ++ q) 4 = Some len) as Hq by (unfold get32 in *; by rewrite slice_app by lia).
  destruct (rtr_get_pdu_type p) as [t|]; [|done]. rewrite Hlen, Hq. cbn [mbind option_bind].
  destruct t; try done; try (unfold get8; by rewrite slice_app by lia).
  unfold sizeof_error. destruct (Z.ltb_spec len (4 + 12)); [done|].
  assert (get32 (p ++ q) 8 = get32 p 8) as -> by (unfold get32; by rewrite slice_app by lia).
  destruct (get32 p 8) as [enc|] eqn:Henc; [|done]. cbn [mbind option_bind].
  assert (0 <= ntohl enc).
  { unfold get32 in Henc. destruct (slice p 8 4) as [l|] eqn:Hs; [|done]. injection Henc as <-.
    rewrite ntohl_value by (by eapply slice_bytes || by eapply slice_length). unfold be_value.
    pose proof (le_value_bound (reverse l) (bytes_reverse l (slice_bytes _ _ _ _ Hb Hs))). lia. }
  destruct (Z.ltb_spec len (4 + 12 + ntohl enc)); [done|]. unfold get32. rewrite slice_app; [done|lia].
Qed.

(** The size check never reads beyond the length of the PDU. *)
Lemma check_size_total p len :
  bytes p → get32 p 4 = Some len → length p = Z.to_nat len → (8 <= length p)%nat →
  ∃ ok, rtr_pdu_check_size p = Some ok.
Proof.
  intros Hb Hlen Hl H8. unfold rtr_pdu_check_size. destruct (get_pdu_type_some p) as [t ->]; [lia|].
  rewrite Hlen. cbn [mbind option_bind]. pose proof (get32_bound _ _ _ Hb Hlen).
  assert (∀ off, (off < 8)%nat → ∃ v, get8 p off = Some v) as H8'.
  { intros off Ho. unfold get8. rewrite slice_some by lia. by eexists. }
  destruct t; try by eexists.
  - destruct (H8' 0%nat) as [v ->]; [lia|]. by eexists.
  - unfold sizeof_error. destruct (Z.ltb_spec len (4 + 12)); [by eexists|].
    assert (∃ v, get32 p 8 = Some v) as [v ->] by (unfold get32; rewrite slice_some by lia; by eexists).
    cbn [mbind option_bind]. set (enc := ntohl _). destruct (Z.ltb_spec len (4 + 12 + enc)); [by eexists|].
    unfold get32. rewrite slice_some by lia. by eexists.
  - unfold sizeof_aspa. destruct (Z.ltb_spec len 12); [by eexists|]. destruct (H8' 2%nat) as [v ->]; [lia|]. by eexists.
Qed.

(** ** What is sent *)

(** An error report on the wire. *)
Definition wire_error (ver code : Z) (enc txt : list Z) : list Z :=
  ver :: 10 :: be_bytes 2 code ++ be_bytes 4 (16 + Z.of_nat (length enc) + Z.of_nat (length txt)) ++
  be_bytes 4 (Z.of_nat (length enc)) ++ enc ++ be_bytes 4 (Z.of_nat (length txt)) ++ txt.

Lemma error_pdu_to_network v m error enc txt :
  bytes enc → bytes txt → Z.of_nat (length enc) < 2 ^ 32 → m = 16 + Z.of_nat (length enc) + Z.of_nat (length txt) →
  rtr_pdu_to_network_byte_order (error_pdu v m error enc txt) =
    Some (wire_error (u8 v) (error_value error) enc txt).
Proof.
  intros He Ht Hl Hm. set (nenc := host_bytes 4 (Z.of_nat (length enc))).
  set (ntxt := host_bytes 4 (Z.of_nat (length txt))). set (m4 := host_bytes 4 m).
  set (c := host_bytes 2 (error_value error)).
  assert (length nenc = 4%nat ∧ length ntxt = 4%nat ∧ length m4 = 4%nat ∧ length c = 2%nat) as (L1 & L2 & L3 & L4)
    by (split_and!; apply host_bytes_length).
  assert (bytes nenc ∧ bytes ntxt ∧ bytes c ∧ bytes m4) as (B1 & B2 & B3 & B4) by (split_and!; apply bytes_host_bytes).
  set (p := error_pdu v m error enc txt).
  assert (p = (([u8 v; 10] ++ c ++ m4) ++ nenc ++ enc) ++ ntxt ++ txt) as Hp
    by (unfold p, error_pdu; fold nenc ntxt m4 c; by rewrite <- !app_assoc).
  assert (bytes p) as Hb.
  { rewrite Hp, !Forall_app. split_and!; try done. constructor; [apply u8_bound|constructor; [lia|constructor]]. }
  assert (length p = 16 + length enc + length txt)%nat as Hlp
    by (rewrite Hp, !length_app, L1, L2, L3, L4; simpl; lia).
  assert (rtr_get_pdu_type p = Some ERROR) as Hty.
  { apply (header_to_network p (u8 v) 10 c m (nenc ++ enc ++ ntxt ++ txt)); try done;
      [apply u8_bound|rewrite !Forall_app; by split_and!]. }
  assert (get32 p 8 = Some (Z.of_nat (length enc))) as Hget.
  { replace p with (([u8 v; 10] ++ c ++ m4) ++ nenc ++ enc ++ ntxt ++ txt) by (rewrite Hp, <- !app_assoc; done).
    rewrite get32_member; [|rewrite !length_app, L3, L4; done|done]. f_equal. apply host_value_bytes. simpl. lia. }
  unfold rtr_pdu_to_network_byte_order, rtr_pdu_footer_to_network_byte_order, rtr_pdu_convert_footer_byte_order.
  rewrite Hty. cbn [mbind option_bind]. rewrite Hget. cbn [mbind option_bind]. rewrite Nat2Z.id.
  rewrite convert32_spec by (done || lia). cbn [mbind option_bind].
  rewrite convert32_spec; [|by apply flip_bytes|rewrite flip_length; lia]. cbn [mbind option_bind].
  rewrite Hp, flip_member; [|rewrite !length_app, L1, L3, L4; simpl; lia|done].
  replace ((([u8 v; 10] ++ c ++ m4) ++ nenc ++ enc) ++ mirror ntxt ++ txt)
    with (([u8 v; 10] ++ c ++ m4) ++ nenc ++ enc ++ mirror ntxt ++ txt) by by rewrite <- !app_assoc.
  rewrite flip_member; [|rewrite !length_app, L3, L4; done|done].
  unfold nenc, ntxt. rewrite !mirror_host_bytes.
  set (rest := be_bytes 4 (Z.of_nat (length enc)) ++ enc ++ be_bytes 4 (Z.of_nat (length txt)) ++ txt).
  destruct (header_to_network (([u8 v; 10] ++ c ++ m4) ++ rest) (u8 v) 10 c m rest) as [_ ->]; try done.
  - apply u8_bound.
  - unfold rest. rewrite !Forall_app. split_and!; try done; apply bytes_reverse, le_bytes_ok.
  - by rewrite <- !app_assoc.
  - unfold wire_error, c, rest. by rewrite mirror_host_bytes, Hm.
Qed.

End Members.

Section PacketsProofs.
Context `{Build} `{Host} {E : Type} `{!Event tr_event E} `{!Event rtr_event E}.
Implicit Types (s : rtr_socket) (w : world E).

(** From [w] to [w'] the events [evs] happened; nothing was received or allocated. *)
Definition talks w (evs : list E) w' : Prop :=
  allocs w' = allocs w ∧ events w' = events w ++ evs ∧ stream (net w') = stream (net w) ∧
  clock (net w') `suffix_of` clock (net w).

Lemma talks_refl w : talks w [] w.
Proof. split_and!; try done. by rewrite app_nil_r. Qed.

Lemma talks_trans w evs w' evs' w'' : talks w evs w' → talks w' evs' w'' → talks w (evs ++ evs') w''.
Proof.
  intros (? & Hx & ? & ?) (? & Hy & ? & ?). split_and!; [congruence|by rewrite Hy, Hx, app_assoc|congruence|].
  by trans (clock (net w')).
Qed.

Lemma talks_quiet w w' evs w'' : talks w [] w' → talks w' evs w'' → talks w evs w''.
Proof. apply talks_trans. Qed.

Lemma emits_talks w e w' : allocs w' = allocs w → emits w e w' → talks w e w'.
Proof. intros Ha (He & _ & Hn). split_and!; try done; by rewrite Hn. Qed.

(** ** Changes of state *)

Definition changed s (st : rtr_socket_state) : rtr_socket :=
  if decide (state s = RTR_SHUTDOWN) then s else set_state s st.

Definition state_events s (st : rtr_socket_state) : list E :=
  if decide (state s = st ∨ state s = RTR_SHUTDOWN) then []
  else match connection_state_fp s with
       | Some fp => [event (StateChanged fp (self s) st)]
       | None => []
       end.

Lemma wp_change_state s st (Q : rtr_socket → world E → Prop) w :
  (∀ w', talks w (state_events s st) w' → Q (changed s st) w') → wp (rtr_change_socket_state s st) Q w.
Proof.
  intros HQ. unfold rtr_change_socket_state, changed, state_events in *.
  destruct (decide (state s = st)) as [<-|Hst].
  { wp_step. rewrite decide_True in HQ by by left. replace s with (if decide (state s = RTR_SHUTDOWN) then s else set_state s (state s)) at 1.
    - apply HQ, talks_refl.
    - case_decide; [done|]. by destruct s. }
  destruct (decide (state s = RTR_SHUTDOWN)) as [Hd|Hd].
  { wp_step. rewrite decide_True in HQ by by right. apply HQ, talks_refl. }
  rewrite decide_False in HQ by tauto. cbv zeta. simpl connection_state_fp.
  destruct (connection_state_fp s) as [fp|] eqn:Hfp.
  - wp_step. eexists _, _. split; [done|]. cbv beta. wp_step. apply HQ. by split_and!.
  - wp_step. apply HQ, talks_refl.
Qed.

(** ** Sending *)

(** The PDU [wire] was sent as a whole, or in part, or not at all. *)
Definition sends_wire s (wire : list Z) (rv : Z) (evs : list E) : Prop :=
  ∃ pieces rest, evs = sent pieces ∧ wire = concat pieces ++ rest ∧
    ((rv = RTR_SUCCESS ∧ rest = []) ∨ (rv = RTR_ERROR ∧ rest ≠ [])) ∧
    (state s = RTR_SHUTDOWN → pieces = [] ∧ rv = RTR_ERROR).

Lemma send_pdu_spec s pdu wire w :
  rtr_pdu_to_network_byte_order pdu = Some wire → wire ≠ [] →
  wp (rtr_send_pdu s pdu) (λ rv w', ∃ evs, talks w evs w' ∧ sends_wire s wire rv evs) w.
Proof.
  intros Hc Hne. unfold rtr_send_pdu. rewrite Hc. wp_step. wp_step. case_decide as Hd.
  { wp_step. exists []. split; [apply talks_refl|]. exists [], wire. by split_and!; try right. }
  wp_step. eapply wp_mono; [apply send_all_spec|]. intros res w' (ls & tail & (Ha & He & Hs & _ & Hc') & Hw & Hres).
  destruct res as [e|n].
  - wp_step. exists (sent ls). split; [done|]. exists ls, tail. split_and!; try done. by right.
  - destruct Hres as [-> ->]. destruct wire as [|b wire]; [done|]. simpl length. cbn [Nat.ltb Nat.leb]. wp_step.
    exists (sent ls). split; [done|]. exists ls, []. split_and!; try done. by left.
Qed.

(** The error report that is sent, if any. *)
Definition error_report s (erroneous : list Z) (len : Z) (error : pdu_error_type) (txt : list Z)
  : option (list Z) :=
  let n := Z.to_nat (Z.min len (RTR_MAX_PDU_LEN - 16 - Z.of_nat (length txt))) in
  if decide (2 <= n ∧ rtr_get_pdu_type erroneous = Some ERROR)%nat then None
  else Some (wire_error (u8 (version s)) (error_value error) (take n erroneous) txt).

Definition reports s (report : option (list Z)) (evs : list E) : Prop :=
  match report with
  | None => evs = []
  | Some wire => ∃ rv, sends_wire s wire rv evs
  end.

Lemma send_error_pdu_spec s erroneous len error txt w :
  bytes erroneous → bytes txt → 0 <= len <= RTR_MAX_PDU_LEN → (Z.to_nat len <= length erroneous)%nat →
  Z.of_nat (length txt) <= 65515 →
  wp (rtr_send_error_pdu s erroneous len error txt) (λ _ w', ∃ evs,
    talks w evs w' ∧ reports s (error_report s erroneous len error txt) evs) w.
Proof.
  intros He Ht Hlen Hl Htl. unfold rtr_send_error_pdu, RTR_MAX_PDU_LEN, sizeof_error, RTR_ERRONEOUS_PDU_MIN_LEN in *.
  discharge_assert. wp_step. wp_step.
  set (n := Z.min len (65535 - 16 - Z.of_nat (length txt))).
  set (m := 16 + n + Z.of_nat (length txt)).
  assert ((if 65535 <? u32 (12 + 4 + len + Z.of_nat (length txt)) then
     (u32 (len - (u32 (12 + 4 + len + Z.of_nat (length txt)) - 65535)),
      u32 (u32 (12 + 4 + len + Z.of_nat (length txt)) - (u32 (12 + 4 + len + Z.of_nat (length txt)) - 65535)))
     else (len, u32 (12 + 4 + len + Z.of_nat (length txt)))) = (n, m)) as ->.
  { rewrite (u32_small (12 + 4 + len + _)) by lia. destruct (Z.ltb_spec 65535 (12 + 4 + len + Z.of_nat (length txt))).
    - rewrite !u32_small by lia. unfold m, n. f_equal; lia.
    - unfold m, n. f_equal; lia. }
  assert (length (take (Z.to_nat n) erroneous) = Z.to_nat n) as Hn by (rewrite length_take; unfold n; lia).
  assert (error_report s erroneous len error txt =
    if decide (2 <= Z.to_nat n ∧ rtr_get_pdu_type erroneous = Some ERROR)%nat then None
    else Some (wire_error (u8 (version s)) (error_value error) (take (Z.to_nat n) erroneous) txt)) as -> by done.
  wp_step.
  cut (∀ b : bool, b = bool_decide (2 <= Z.to_nat n ∧ rtr_get_pdu_type erroneous = Some ERROR)%nat →
    wp (if b then mret RTR_SUCCESS else enc ← of_option (slice erroneous 0 (Z.to_nat n));
      rtr_send_pdu s (error_pdu (version s) m error enc txt)) (λ _ w', ∃ evs, talks w evs w' ∧
      reports s (if decide (2 <= Z.to_nat n ∧ rtr_get_pdu_type erroneous = Some ERROR)%nat then None
        else Some (wire_error (u8 (version s)) (error_value error) (take (Z.to_nat n) erroneous) txt)) evs) w).
  { intros Hcut. destruct (Z.leb_spec 2 n).
    - destruct (get_pdu_type_some erroneous) as [t Hty]; [unfold n in *; lia|]. wp_step.
      eapply wp_of_option; [exact Hty|]. wp_step. apply Hcut. rewrite Hty. apply bool_decide_ext. split; [intros ->; split; [lia|done]|intros [_ [= ->]]; done].
    - wp_step. apply (Hcut false). symmetry. apply bool_decide_eq_false. lia. }
  intros b ->. case_bool_decide as Hd.
  - wp_step. exists []. rewrite decide_True by done. split; [apply talks_refl|done].
  - rewrite decide_False by done. rewrite slice_some by (unfold n; lia). rewrite drop_0. wp_step. wp_step.
    eapply wp_mono; [eapply send_pdu_spec; [apply error_pdu_to_network|done]|].
    + by apply Forall_take.
    + done.
    + rewrite Hn. unfold n. lia.
    + rewrite Hn. unfold m. lia.
    + intros rv w' (evs & Htalk & Hs). exists evs. split; [done|]. by exists rv.
Qed.

End PacketsProofs.
