(* ===== verification/ReceiveProofs.v ===== *)
(** * Receiving PDUs: proofs *)

From Stdlib Require Import String.
From S2P Require Import Prelude Pdu PduProofs PduTheorems Transport TransportProofs Socket Packets PacketsProofs.
Open Scope Z_scope.

(** The bytes of a text that is sent, and their number. *)
Ltac texts := (vm_compute; repeat constructor; discriminate) || (apply Z.leb_le; vm_compute; reflexivity) || done.

(** ** Streams *)

Definition segment_ok (i : incoming) : Prop := match i with Segment l => bytes l | RecvFails _ => True end.
Definition stream_ok (l : list incoming) : Prop := Forall segment_ok l.

Lemma stream_ok_split l : stream_ok l ↔ bytes (bytes_of l) ∧ stream_ok (after_failure l).
Proof.
  unfold stream_ok. induction l as [|[b|e] l IH]; simpl.
  - split; [done|by intros [_ ?]].
  - rewrite Forall_cons, Forall_app, IH. simpl. tauto.
  - rewrite Forall_cons. simpl. split; [intros [_ ?]; by split|by intros [_ ?]].
Qed.

Lemma delivers_ok l b l' : delivers l b l' → stream_ok l → bytes b ∧ stream_ok l'.
Proof.
  intros (Hb & _ & Ha) [Hl Hf]%stream_ok_split. rewrite Hb in Hl. apply Forall_app in Hl as [? ?].
  split; [done|]. apply stream_ok_split. by rewrite Ha.
Qed.

(** ** The PDU in the buffer *)

Section Buffer.
Context `{Host}.
Implicit Types (b q : list Z) (t : pdu_type).

Lemma footer_offs_app p q t n :
  (t = ERROR → 12 <= length p)%nat → footer_offs (p ++ q) t n = footer_offs p t n.
Proof.
  intros Hl. destruct t; try done. simpl. rewrite drop_app_le by (by apply Hl || (specialize (Hl eq_refl); lia)).
  by rewrite take_app_le by (rewrite length_drop; specialize (Hl eq_refl); lia).
Qed.

(** The bytes [b] are a PDU of type [t] that the size check accepts. *)
Definition valid_pdu b t (len : Z) : Prop :=
  bytes b ∧ length b = Z.to_nat len ∧ 8 <= len <= RTR_MAX_PDU_LEN ∧ rtr_get_pdu_type b = Some t ∧
  get32 (header_flip t b) 4 = Some len ∧ rtr_pdu_check_size (header_flip t b) = Some true.

Lemma valid_pdu_error b len : valid_pdu b ERROR len → 16 <= len.
Proof.
  intros (Hb & Hl & Hlen & Ht & H4 & Hc). unfold rtr_pdu_check_size in Hc.
  rewrite header_flip_type, Ht, H4 in Hc by lia. cbn [mbind option_bind] in Hc. unfold sizeof_error in Hc.
  destruct (Z.ltb_spec len (4 + 12)); [done|]. lia.
Qed.

Lemma valid_pdu_footer b t len :
  valid_pdu b t len →
  footer (header_flip t b) (footer_offs (header_flip t b) t (Z.to_nat len)) (Z.to_nat len) ∧
  rtr_pdu_to_network_byte_order (host_order b t len) = Some b ∧
  length (host_order b t len) = length b ∧ bytes (host_order b t len).
Proof.
  intros (Hb & Hl & Hlen & Ht & H4 & Hc). assert (8 <= length b)%nat as H8 by lia.
  destruct (host_order_spec b (header_flip t b) len t) as (_ & ? & _ & ? & ? & _ & ?); try done; [|lia|lia].
  unfold rtr_pdu_header_to_host_byte_order. by apply convert_header_spec.
Qed.

Lemma host_order_app b q t len :
  valid_pdu b t len → host_order (b ++ q) t len = host_order b t len ++ q.
Proof.
  intros Hv. pose proof Hv as (Hb & Hl & Hlen & Ht & H4 & Hc).
  destruct (valid_pdu_footer b t len Hv) as ((Hf & _) & _). unfold host_order.
  rewrite header_flip_app by lia. rewrite footer_offs_app.
  - eapply flips_app; [done|]. rewrite header_flip_length; lia.
  - intros ->. pose proof (valid_pdu_error _ _ Hv). rewrite header_flip_length; lia.
Qed.

(** The conversion of a PDU at the front of a buffer. *)
Lemma convert_in_buffer b q t len :
  valid_pdu b t len → bytes q →
  rtr_pdu_footer_to_host_byte_order (header_flip t b ++ q) = Some (host_order b t len ++ q) ∧
  rtr_pdu_to_network_byte_order (host_order b t len ++ q) = Some (b ++ q).
Proof.
  intros Hv Hq. pose proof Hv as (Hb & Hl & Hlen & Ht & H4 & Hc).
  rewrite <- header_flip_app by lia.
  assert (rtr_get_pdu_type (b ++ q) = Some t) as Htq by by rewrite type_app by lia.
  assert (get32 (header_flip t (b ++ q)) 4 = Some len) as H4q.
  { rewrite header_flip_app by lia. unfold get32 in *. rewrite slice_app; [done|]. rewrite header_flip_length; lia. }
  destruct (host_order_spec (b ++ q) (header_flip t (b ++ q)) len t) as (_ & _ & Hhost & Hnet & _); try done.
  - by apply Forall_app.
  - rewrite length_app. lia.
  - unfold rtr_pdu_header_to_host_byte_order. apply convert_header_spec; [by apply Forall_app| |done].
    rewrite length_app. lia.
  - rewrite length_app. lia.
  - lia.
  - rewrite header_flip_app by lia. rewrite (check_size_app _ _ len); [done| |done|..].
    + by apply header_flip_bytes.
    + rewrite header_flip_length; lia.
    + rewrite header_flip_length; lia.
  - rewrite host_order_app in * by done. done.
Qed.

(** ** Members of a received PDU *)

(** The 32-bit number at an offset on the wire. *)
Definition be32 b (off : nat) : Z := be_value (take 4 (drop off b)).
Definition be16 b (off : nat) : Z := be_value (take 2 (drop off b)).
Definition byte_at b (off : nat) : Z := default 0 (b !! off).

Lemma get8_byte b off : (off < length b)%nat → get8 b off = Some (byte_at b off).
Proof.
  intros Hl. unfold get8, byte_at. rewrite slice_some by lia.
  destruct (b !! off) as [v|] eqn:Hv; [|apply lookup_ge_None in Hv; lia].
  apply drop_S in Hv as ->. simpl. unfold host_value, be_value. by destruct big_endian; simpl; rewrite Z.add_0_r.
Qed.

Lemma header_flip_out t b i :
  (8 <= length b)%nat → (i < 2)%nat ∨ (8 <= i)%nat ∨ ((i < 4)%nat ∧ (t = ROUTER_KEY ∨ t = ASPA)) →
  header_flip t b !! i = b !! i.
Proof.
  intros Hl Hi. unfold header_flip. destruct (decide (t = ROUTER_KEY ∨ t = ASPA)) as [Ht|Ht].
  - assert (bool_decide (t ≠ ROUTER_KEY) && bool_decide (t ≠ ASPA) = false) as ->.
    { apply andb_false_iff. rewrite !bool_decide_eq_false. destruct Ht; [left|right]; tauto. }
    rewrite flip_lookup by lia. rewrite source_out; [done|lia].
  - assert (bool_decide (t ≠ ROUTER_KEY) && bool_decide (t ≠ ASPA) = true) as ->.
    { rewrite andb_true_iff, !bool_decide_eq_true. tauto. }
    assert (i < 2 ∨ 8 <= i)%nat by tauto.
    rewrite !flip_lookup by (rewrite ?flip_length; lia). rewrite (source_out 4), (source_out 2); [done|..]; lia.
Qed.

(** A byte outside of the converted members. *)
Lemma host_order_byte b t len off :
  valid_pdu b t len → (off < length b)%nat →
  (off < 2)%nat ∨ ((8 <= off)%nat ∧ Forall (λ o, ¬ (o <= off < o + 4)%nat) (footer_offs (header_flip t b) t (Z.to_nat len)))
    ∨ ((off < 4)%nat ∧ (t = ROUTER_KEY ∨ t = ASPA)) →
  get8 (host_order b t len) off = Some (byte_at b off).
Proof.
  intros Hv Hl Hoff. destruct (valid_pdu_footer b t len Hv) as ((Hf & H8 & _) & _ & Hlen & _).
  destruct Hv as (_ & Hlb & Hlen8 & _). rewrite get8_byte by lia. unfold byte_at. do 2 f_equal. unfold host_order.
  rewrite (flips_out _ _ (Z.to_nat len)); [|done|rewrite header_flip_length; lia|].
  - apply header_flip_out; [lia|]. destruct Hoff as [?|[[? _]|?]]; tauto.
  - destruct Hoff as [?|[[_ ?]|?]]; [|done|]; (eapply Forall_impl; [exact H8|]; simpl; lia).
Qed.

(** A member of the footer. *)
Lemma host_order_get32 b t len off :
  valid_pdu b t len → off ∈ footer_offs (header_flip t b) t (Z.to_nat len) →
  get32 (host_order b t len) off = Some (be32 b off).
Proof.
  intros Hv Hin. destruct (valid_pdu_footer b t len Hv) as ((Hf & H8 & _) & _ & _ & _).
  destruct Hv as (_ & Hlb & Hlen8 & _). pose proof Hf as [_ Hoffs]. rewrite Forall_forall in Hoffs, H8.
  specialize (Hoffs off Hin). specialize (H8 off Hin). simpl in *.
  unfold get32, host_order. rewrite (flips_get32 _ _ (Z.to_nat len) off (take 4 (drop off b))); try done.
  - cbn [mbind option_bind]. by rewrite host_value_mirror.
  - rewrite header_flip_length; lia.
  - rewrite <- slice_some by lia. apply slice_same; [apply header_flip_length; lia|].
    intros i Hi. apply header_flip_out; lia.
Qed.

(** A range of bytes outside of the converted members. *)
Lemma host_order_slice b t len off n :
  valid_pdu b t len → (8 <= off)%nat → (off + n <= length b)%nat →
  Forall (λ o, (o + 4 <= off ∨ off + n <= o)%nat) (footer_offs (header_flip t b) t (Z.to_nat len)) →
  slice (host_order b t len) off n = Some (take n (drop off b)).
Proof.
  intros Hv H8 Hl Hoffs. destruct (valid_pdu_footer b t len Hv) as ((Hf & _) & _ & Hlen & _).
  destruct Hv as (_ & Hlb & Hlen8 & _). rewrite <- slice_some by lia. apply slice_same; [done|].
  intros i Hi. unfold host_order. rewrite (flips_out _ _ (Z.to_nat len)); [|done|rewrite header_flip_length; lia|].
  - apply header_flip_out; lia.
  - eapply Forall_impl; [exact Hoffs|]. simpl. intros. lia.
Qed.

(** The members of the header. *)
Lemma flip_slice n p off : (off + n <= length p)%nat → slice (flip n p off) off n = Some (mirror (take n (drop off p))).
Proof.
  intros Hl. rewrite slice_some by (rewrite flip_length; lia). unfold flip.
  rewrite drop_app_length' by (rewrite length_take; lia).
  rewrite take_app_length'; [done|]. rewrite mirror_length, length_take, length_drop. lia.
Qed.

Lemma flip_slice_other n p off m k :
  (off + n <= length p)%nat → (m + k <= off ∨ off + n <= m)%nat → slice (flip n p off) m k = slice p m k.
Proof.
  intros Hl Hd. apply slice_same; [by apply flip_length|]. intros i Hi. rewrite flip_lookup by done.
  rewrite source_out; [done|lia].
Qed.

Lemma header_flip_len t b : (8 <= length b)%nat → get32 (header_flip t b) 4 = Some (be32 b 4).
Proof.
  intros Hl. unfold header_flip, get32, be32. case_match.
  - rewrite flip_slice by (rewrite flip_length; lia). cbn [mbind option_bind]. rewrite host_value_mirror.
    do 2 f_equal. pose proof (flip_slice_other 2 b 2 4 4 ltac:(lia) ltac:(lia)) as Hs.
    rewrite !slice_some in Hs by (rewrite ?flip_length; lia). by injection Hs.
  - rewrite flip_slice by lia. cbn [mbind option_bind]. by rewrite host_value_mirror.
Qed.

Lemma header_flip_get16 t b :
  (8 <= length b)%nat → t ≠ ROUTER_KEY → t ≠ ASPA → get16 (header_flip t b) 2 = Some (be16 b 2).
Proof.
  intros Hl H1 H2. unfold header_flip. rewrite !bool_decide_eq_true_2 by done. simpl. unfold get16, be16.
  rewrite flip_slice_other by (rewrite ?flip_length; lia). rewrite flip_slice by lia. cbn [mbind option_bind].
  by rewrite host_value_mirror.
Qed.

Lemma host_order_get16 b t len :
  valid_pdu b t len → t ≠ ROUTER_KEY → t ≠ ASPA → get16 (host_order b t len) 2 = Some (be16 b 2).
Proof.
  intros Hv H1 H2. destruct (valid_pdu_footer b t len Hv) as ((Hf & H8 & _) & _).
  destruct Hv as (_ & Hlb & Hlen8 & _). rewrite <- (header_flip_get16 t) by (done || lia).
  unfold get16, host_order. rewrite (header_same _ _ (Z.to_nat len)); [done|done| |done|lia].
  rewrite header_flip_length; lia.
Qed.

Lemma host_order_len b t len : valid_pdu b t len → get32 (host_order b t len) 4 = Some len.
Proof.
  intros Hv. destruct (valid_pdu_footer b t len Hv) as ((Hf & H8 & _) & _).
  destruct Hv as (_ & Hlb & Hlen8 & _ & H4 & _). rewrite <- H4. unfold host_order.
  apply (len_same _ _ (Z.to_nat len)); [done| |done]. rewrite header_flip_length; lia.
Qed.

Lemma host_order_type b t len : valid_pdu b t len → rtr_get_pdu_type (host_order b t len) = Some t.
Proof.
  intros Hv. destruct (valid_pdu_footer b t len Hv) as ((Hf & H8 & _) & _).
  destruct Hv as (_ & Hlb & Hlen8 & Ht & _). rewrite <- Ht, <- (header_flip_type t b) by lia. unfold host_order.
  apply (type_same _ _ (Z.to_nat len)); [done| |done]. rewrite header_flip_length; lia.
Qed.

End Buffer.

(** ** Receiving *)

Section Receive.
Context `{Build} `{Host} {E : Type} `{!Event tr_event E} `{!Event rtr_event E}.
Implicit Types (s : rtr_socket) (w : world E).

(** What the received bytes amount to: a PDU; a failure of the transport before the PDU was
    complete; or an error that the code finds after [n] bytes, when the buffer begins with
    [front]. *)
Inductive verdict :=
| Arrived (b : list Z) (t : pdu_type) (len : Z)
| Broken (e : tr_error)
| Refused (error : pdu_error_type) (n : nat) (front : list Z).

(** Of a PDU that has arrived as a whole. *)
Definition check_verdict b t (len : Z) : verdict :=
  if decide (rtr_pdu_check_size (header_flip t b) = Some true) then
    if bool_decide (t = ASPA ∧ byte_at b 0 ≠ 2) then Refused UNSUPPORTED_PROTOCOL_VER (Z.to_nat len) (host_order b t len)
    else if bool_decide (t = ASPA ∧ len mod 4 ≠ 0) then Refused CORRUPT_DATA (Z.to_nat len) (host_order b t len)
    else Arrived b t len
  else Refused CORRUPT_DATA (Z.to_nat len) (header_flip t b).

(** Of the bytes that arrive before the transport fails with [e], and the socket after the
    version was settled. *)
Definition verdict_of s (received : list Z) (e : tr_error) : verdict * rtr_socket :=
  if decide (length received < 8)%nat then (Broken e, s)
  else
    let ver := byte_at received 0 in
    let t := pdu_type_of (byte_at received 1) in
    let len := be32 received 4 in
    if len <? 8 then (Refused CORRUPT_DATA 8 (take 8 received), s)
    else if RTR_MAX_PDU_LEN <? len then (Refused PDU_TOO_BIG 8 (take 8 received), s)
    else
      let s := downgrade s t ver in
      (if bool_decide (t ≠ ERROR ∧ ver ≠ version s) then Refused UNEXPECTED_PROTOCOL_VERSION 8 (take 8 received)
       else if decide (length received < Z.to_nat len)%nat then Broken e
       else check_verdict (take (Z.to_nat len) received) t len, s).

(** The end of the part that reads, on a stream from [l] to [l']. *)
Definition heard buf (l l' : list incoming) (v : verdict * rtr_socket) (r : received) s' buf' : Prop :=
  s' = v.2 ∧
  match v.1 with
  | Arrived b t len => r = Return RTR_SUCCESS ∧ delivers l b l' ∧ buf' = host_order b t len ++ drop (Z.to_nat len) buf
  | Broken e => r = TrFailed e ∧ l' = after_failure l
  | Refused error n front => r = PduFailed error ∧ delivers l (take n (bytes_of l)) l' ∧ buf' = front ++ drop n buf
  end.

Definition verdict_on s (l : list incoming) : verdict * rtr_socket := verdict_of s (bytes_of l) (failure_of l).

(** The state after a part of [receive_header], and its outcome. *)
Definition receive_post s buf w : received * rtr_socket * list Z → world E → Prop := λ '(r, s', buf') w',
  allocs w' = allocs w ∧ events w' = events w ∧ length buf' = length buf ∧ bytes buf' ∧
  if decide (state s = RTR_SHUTDOWN) then r = Return RTR_ERROR ∧ s' = s ∧ buf' = buf ∧ w' = w
  else heard buf (stream (net w)) (stream (net w')) (verdict_on s (stream (net w))) r s' buf'.

(** What [receive_check] says of a PDU of the right size. *)
Definition check_outcome b t (len : Z) : received :=
  if bool_decide (t = ASPA) then
    if negb (byte_at b 0 =? RTR_PROTOCOL_VERSION_2) then PduFailed UNSUPPORTED_PROTOCOL_VER
    else if negb (len mod 4 =? 0) then PduFailed CORRUPT_DATA
    else Return RTR_SUCCESS
  else Return RTR_SUCCESS.

Lemma write_header t b rest :
  (8 <= length b)%nat → write (b ++ rest) 0 (take 8 (header_flip t b)) = Some (header_flip t b ++ rest).
Proof.
  intros Hl. assert (length (header_flip t b) = length b) as Hfl by (apply header_flip_length; lia).
  unfold write. assert (length (take 8 (header_flip t b)) = 8%nat) as -> by (rewrite length_take; lia).
  rewrite decide_True by (rewrite length_app; lia). rewrite take_0, app_nil_l. f_equal. change (0 + 8)%nat with 8%nat.
  rewrite drop_app_le by lia. rewrite app_assoc. f_equal. rewrite <- (take_drop 8 (header_flip t b)) at 2. f_equal.
  apply list_eq. intros i. rewrite !lookup_drop. rewrite header_flip_out; [done|lia|lia].
Qed.

Lemma receive_check_valid s b t len rest w :
  valid_pdu b t len → bytes rest →
  wp (receive_check s (b ++ rest) (take 8 (header_flip t b)))
    (λ x w', w' = w ∧ x = (check_outcome b t len, s, host_order b t len ++ rest)) w.
Proof.
  intros Hv Hr. pose proof Hv as (Hb & Hl & Hlen & Ht & H4 & Hc). assert (8 <= length b)%nat as H8 by lia.
  unfold receive_check. rewrite write_header by done. wp_step. wp_step.
  assert (length (header_flip t b) = length b) as Hfl by (apply header_flip_length; lia).
  assert (bytes (header_flip t b)) as Hfb by by apply header_flip_bytes.
  rewrite (check_size_app _ _ len), Hc by (done || lia). wp_step. wp_step.
  simpl negb. cbv iota. destruct (convert_in_buffer b rest t len Hv Hr) as [-> _]. wp_step. wp_step.
  destruct (valid_pdu_footer b t len Hv) as (_ & _ & Hpl & Hpb).
  assert (rtr_get_pdu_type (take 8 (header_flip t b)) = Some t) as ->.
  { rewrite <- Ht, <- (header_flip_type t b) by lia. rewrite <- (take_drop 8 (header_flip t b)) at 2.
    symmetry. apply type_app. rewrite length_take. lia. }
  wp_step. wp_step.
  assert (get8 (host_order b t len ++ rest) 0 = Some (byte_at b 0)) as ->.
  { rewrite <- (host_order_byte b t len 0) by (done || lia). unfold get8. by rewrite slice_app by lia. }
  wp_step. wp_step.
  assert (get32 (host_order b t len ++ rest) 4 = Some len) as ->.
  { rewrite <- (host_order_len b t len) by done. unfold get32. by rewrite slice_app by lia. }
  wp_step. wp_step. unfold check_outcome. destruct (bool_decide (t = ASPA)); [|by wp_step].
  simpl. destruct (byte_at b 0 =? RTR_PROTOCOL_VERSION_2); [|simpl; by wp_step].
  simpl. destruct (len mod 4 =? 0); simpl; by wp_step.
Qed.

(** The end of a PDU that has arrived. *)
Lemma receive_check_spec s buf b t len w :
  bytes b → length b = Z.to_nat len → 8 <= len <= RTR_MAX_PDU_LEN → be32 b 4 = len → rtr_get_pdu_type b = Some t →
  bytes buf → RTR_MAX_PDU_LEN <= Z.of_nat (length buf) →
  wp (receive_check s (b ++ drop (Z.to_nat len) buf) (take 8 (header_flip t b))) (λ '(r, s', buf') w', w' = w ∧ s' = s ∧
    length buf' = length buf ∧ bytes buf' ∧ ∃ front, buf' = front ++ drop (Z.to_nat len) buf ∧
    (check_verdict b t len = Arrived b t len ∧ front = host_order b t len ∧ r = Return RTR_SUCCESS ∨
     ∃ error, check_verdict b t len = Refused error (Z.to_nat len) front ∧ r = PduFailed error)) w.
Proof.
  intros Hb Hl Hlen H4 Ht Hbuf Hlb.
  assert (length (header_flip t b) = length b) as Hfl by (apply header_flip_length; lia).
  assert (bytes (header_flip t b)) as Hfb by by apply header_flip_bytes.
  assert (get32 (header_flip t b) 4 = Some len) as Hf4 by (rewrite header_flip_len by lia; by rewrite H4).
  assert (bytes (drop (Z.to_nat len) buf)) as Hrb by by apply Forall_drop.
  destruct (check_size_total (header_flip t b) len) as [ok Hok]; [done|done|lia|lia|]. unfold check_verdict. rewrite Hok. destruct ok.
  - assert (valid_pdu b t len) as Hv by (unfold valid_pdu; tauto).
    eapply wp_mono; [by apply (receive_check_valid s b t len)|]. intros x w' [-> ->].
    destruct (valid_pdu_footer b t len Hv) as (_ & _ & Hpl & Hpb). do 2 (split; [done|]).
    split; [rewrite length_app, length_drop; unfold RTR_MAX_PDU_LEN in *; lia|]. split; [by apply Forall_app|].
    exists (host_order b t len). split; [done|]. rewrite decide_True by done. unfold check_outcome.
    destruct (decide (t = ASPA)) as [Ha|Ha]; [|rewrite !bool_decide_eq_false_2 by tauto; by left]. rewrite (bool_decide_eq_true_2 (t = ASPA)) by done.
    unfold RTR_PROTOCOL_VERSION_2. destruct (Z.eqb_spec (byte_at b 0) 2); simpl.
    + rewrite bool_decide_eq_false_2 by tauto. destruct (Z.eqb_spec (len mod 4) 0); simpl.
      * rewrite bool_decide_eq_false_2 by tauto. by left.
      * rewrite bool_decide_eq_true_2 by done. right. by eexists.
    + rewrite bool_decide_eq_true_2 by done. right. by eexists.
  - unfold receive_check. rewrite write_header by lia. wp_step. wp_step.
    rewrite (check_size_app _ _ len), Hok by (done || lia). wp_step. wp_step. simpl negb. cbv iota. wp_step.
    split_and!; try done; [rewrite length_app, length_drop; unfold RTR_MAX_PDU_LEN in *; lia|by apply Forall_app|].
    exists (header_flip t b). split; [done|]. rewrite decide_False by done. right. by eexists.
Qed.

(** A call of [tr_recv_all]. *)
Lemma wp_recv n (Q : tr_error + list Z → world E → Prop) w :
  ((length (bytes_of (stream (net w))) < n)%nat → ∀ w', allocs w' = allocs w → events w' = events w →
     stream (net w') = after_failure (stream (net w)) → Q (inl (failure_of (stream (net w)))) w') →
  ((n <= length (bytes_of (stream (net w))))%nat → ∀ w', allocs w' = allocs w → events w' = events w →
     delivers (stream (net w)) (take n (bytes_of (stream (net w)))) (stream (net w')) → Q (inr (take n (bytes_of (stream (net w))))) w') →
  wp (tr_recv_all n) Q w.
Proof.
  intros Hl Hr. eapply wp_mono; [apply recv_all_spec|]. intros res w' (str & (Ha & He & <- & _) & Hres).
  case_decide as Hd; destruct Hres as [-> Hdel]; [by apply Hr|apply Hl; by first [done|lia]].
Qed.

Lemma take_more k n (l : list Z) : (k <= n)%nat → take k l ++ take (n - k) (drop k l) = take n l.
Proof. intros Hk. rewrite take_take_drop. f_equal. lia. Qed.

Lemma receive_payload_spec s buf w w0 t (received := bytes_of (stream (net w0))) (hdr := take 8 received) :
  bytes received → (8 <= length received)%nat → rtr_get_pdu_type hdr = Some t → state s ≠ RTR_SHUTDOWN →
  bytes buf → RTR_MAX_PDU_LEN <= Z.of_nat (length buf) →
  allocs w = allocs w0 → events w = events w0 → delivers (stream (net w0)) hdr (stream (net w)) →
  wp (receive_payload s (hdr ++ drop 8 buf) (header_flip t hdr)) (receive_post s buf w0) w.
Proof.
  intros Hrec H8 Ht Hsd Hbuf Hlb Ha He Hdel. unfold receive_payload.
  assert (length hdr = 8%nat) as Hl by (unfold hdr; rewrite length_take; lia). assert (bytes hdr) as Hh by by apply Forall_take.
  assert (received = hdr ++ drop 8 received) as Hsplit by (unfold hdr; by rewrite take_drop).
  assert (byte_at received 0 = byte_at hdr 0) as Hr0 by (unfold byte_at; rewrite Hsplit at 1; by rewrite lookup_app_l by lia).
  assert (byte_at received 1 = byte_at hdr 1) as Hr1 by (unfold byte_at; rewrite Hsplit at 1; by rewrite lookup_app_l by lia).
  assert (be32 received 4 = be32 hdr 4) as Hr4.
  { unfold be32. rewrite Hsplit at 1. rewrite drop_app_le by lia. by rewrite take_app_le by (rewrite length_drop; lia). }
  assert (pdu_type_of (byte_at hdr 1) = t) as Ht1.
  { unfold rtr_get_pdu_type in Ht. rewrite get8_byte in Ht by lia. by injection Ht. }
  assert (bytes_of (stream (net w)) = drop 8 received) as Hw.
  { destruct Hdel as (Hd & _). fold received in Hd. rewrite Hd in Hsplit at 1. by apply app_inv_head in Hsplit. }
  eapply (wp_mono _ (λ '(r, s', buf') w', allocs w' = allocs w0 ∧ events w' = events w0 ∧ length buf' = length buf ∧ bytes buf' ∧
    heard buf (stream (net w0)) (stream (net w')) (verdict_on s (stream (net w0))) r s' buf')).
  2: { intros [[r s1] buf1] w1 Hpost. unfold receive_post. by rewrite decide_False. }
  unfold verdict_on, verdict_of. fold received.
  rewrite (decide_False (P := (length received < 8)%nat)) by lia. rewrite Hr0, Hr1, Hr4, Ht1. cbv zeta.
  set (len := be32 hdr 4). set (ver := byte_at hdr 0). set (s' := downgrade s t ver).
  assert (length (hdr ++ drop 8 buf) = length buf) as Hlen1 by (rewrite length_app, length_drop, Hl; unfold RTR_MAX_PDU_LEN in *; lia).
  assert (bytes (hdr ++ drop 8 buf)) as Hb1 by (apply Forall_app; split; [done|by apply Forall_drop]).
  rewrite header_flip_len by lia. fold len. wp_step. wp_step. wp_step. rewrite header_flip_type, Ht by lia. wp_step.
  wp_step. assert (get8 (header_flip t hdr) 0 = Some ver) as ->.
  { rewrite get8_byte by (rewrite header_flip_length; lia). unfold ver, byte_at. by rewrite header_flip_out by lia. }
  wp_step. unfold sizeof_header. destruct (Z.ltb_spec len 8); [wp_step; by split_and!|].
  destruct (Z.ltb_spec RTR_MAX_PDU_LEN len); [wp_step; by split_and!|]. fold s'.
  assert (negb (ver =? version s') && bool_decide (t ≠ ERROR) = bool_decide (t ≠ ERROR ∧ ver ≠ version s')) as ->.
  { destruct (Z.eqb_spec ver (version s')); repeat case_bool_decide; tauto. }
  case_bool_decide as Hver; [wp_step; by split_and!|].
  assert (state s' ≠ RTR_SHUTDOWN) as Hsd' by (unfold s', downgrade; repeat case_match; done).
  assert (∀ w1 b, b = take (Z.to_nat len) received → (Z.to_nat len <= length received)%nat → allocs w1 = allocs w0 → events w1 = events w0 →
    delivers (stream (net w0)) b (stream (net w1)) → wp (receive_check s' (b ++ drop (Z.to_nat len) buf) (header_flip t hdr)) (λ '(r, s'0, buf') w',
      allocs w' = allocs w0 ∧ events w' = events w0 ∧ length buf' = length buf ∧ bytes buf' ∧
      heard buf (stream (net w0)) (stream (net w')) (check_verdict b t len, s') r s'0 buf') w1) as Hcheck.
  { intros w1 b -> Hle Ha1 He1 Hd1. set (b := take (Z.to_nat len) received) in *.
    assert (length b = Z.to_nat len) as Hlb' by (unfold b; rewrite length_take; lia).
    assert (hdr = take 8 b) as Hhb by (unfold b, hdr; rewrite take_take; f_equal; lia).
    assert (b = hdr ++ drop 8 b) as Hbs by (rewrite Hhb; by rewrite take_drop).
    assert (header_flip t hdr = take 8 (header_flip t b)) as ->.
    { rewrite Hbs, header_flip_app by lia. rewrite take_app_length'; [done|]. rewrite header_flip_length; lia. }
    eapply wp_mono; [apply (receive_check_spec s' buf b t len); try done; [by apply Forall_take| |]|].
    - unfold len, be32. rewrite Hbs. rewrite drop_app_le by lia. by rewrite take_app_le by (rewrite length_drop; lia).
    - rewrite Hbs, type_app by lia. done.
    - intros [[r s1] buf1] w2 (-> & -> & Hl2 & Hb2 & front & -> & Hcase). split_and!; try done. unfold heard. cbn [fst snd]. split; [done|].
      destruct Hcase as [(-> & -> & ->)|(error & -> & ->)]; by split_and!. }
  destruct (Z.ltb_spec 0 (len - 8)).
  - rewrite decide_False by done. wp_step. apply wp_recv; rewrite Hw, length_drop.
    + intros Hshort w' Ha' He' Hst'. cbv beta iota. wp_step. rewrite decide_True by lia. split_and!; try done; try congruence.
      destruct Hdel as (_ & Hfl & Haf). unfold heard. cbn [fst snd]. split_and!; [done|by rewrite Hfl|congruence].
    + intros Hlong w' Ha' He' Hdel'. cbv beta iota. wp_step. rewrite (decide_False (P := (length received < _)%nat)) by lia.
      set (b := take (Z.to_nat len) received). assert (hdr ++ take (Z.to_nat (len - 8)) (drop 8 received) = b) as Hb.
      { unfold hdr, b. rewrite <- (take_more 8 (Z.to_nat len)) by lia. do 2 f_equal. lia. }
      assert (write (hdr ++ drop 8 buf) (Z.to_nat 8) (take (Z.to_nat (len - 8)) (drop 8 received)) = Some (b ++ drop (Z.to_nat len) buf)) as ->.
      { unfold write. assert (length (take (Z.to_nat (len - 8)) (drop 8 received)) = Z.to_nat (len - 8)) as Htl by (rewrite length_take, length_drop; lia).
        rewrite Htl, decide_True by (rewrite length_app, length_drop; unfold RTR_MAX_PDU_LEN in *; lia).
        f_equal. rewrite take_app_length' by lia. rewrite <- Hb, <- app_assoc. do 2 f_equal.
        rewrite drop_app_ge by lia. rewrite drop_drop. f_equal. lia. }
      wp_step. apply Hcheck; [done|lia|congruence|congruence|]. rewrite <- Hb. by eapply delivers_trans.
  - assert (len = 8) as Hlen by lia. rewrite (decide_False (P := (length received < _)%nat)) by lia.
    assert (take (Z.to_nat len) received = hdr) as Hth by (unfold hdr; f_equal; lia). specialize (Hcheck w hdr). rewrite Hth.
    replace (drop 8 buf) with (drop (Z.to_nat len) buf) by (f_equal; lia). apply Hcheck; try done. lia.
Qed.

Lemma receive_header_spec s buf w :
  bytes buf → RTR_MAX_PDU_LEN <= Z.of_nat (length buf) → stream_ok (stream (net w)) →
  wp (receive_header s buf) (receive_post s buf w) w.
Proof.
  intros Hb Hl Hst. pose proof (proj1 (proj1 (stream_ok_split _) Hst)) as Hrec. unfold receive_header. case_decide as Hd.
  { wp_step. unfold receive_post. rewrite decide_True by done. by split_and!. }
  wp_step. apply wp_recv; change (Z.to_nat sizeof_header) with 8%nat.
  - intros Hshort w' Ha He Hst'. cbv beta iota. wp_step. unfold receive_post. rewrite decide_False by done.
    split_and!; try done. unfold heard, verdict_on, verdict_of. rewrite decide_True by done. done.
  - intros Hlong w' Ha He Hdel. set (hdr := take 8 (bytes_of (stream (net w)))) in *. assert (length hdr = 8%nat) as Hlh by (unfold hdr; rewrite length_take; lia).
    assert (bytes hdr) as Hbh by by apply Forall_take. cbv beta iota. wp_step.
    assert (write buf 0 hdr = Some (hdr ++ drop 8 buf)) as ->.
    { unfold write. rewrite decide_True by (unfold RTR_MAX_PDU_LEN in *; lia). by rewrite Hlh, take_0. }
    wp_step. wp_step. destruct (get_pdu_type_some hdr) as [t Ht]; [lia|].
    unfold rtr_pdu_header_to_host_byte_order. rewrite (convert_header_spec _ _ t) by (done || lia). wp_step.
    by apply receive_payload_spec.
Qed.

(** Sending an error report about the header in the buffer, and what is left to do. *)
Lemma wp_report s buf error txt (Q : Z → world E → Prop) w :
  bytes buf → RTR_MAX_PDU_LEN <= Z.of_nat (length buf) → bytes txt → Z.of_nat (length txt) <= 65515 →
  (∀ rv w' evs, talks w evs w' → reports s (error_report s buf sizeof_header error txt) evs → Q rv w') →
  wp (rtr_send_error_pdu_from_network s buf sizeof_header error txt) Q w.
Proof.
  intros Hb Hl Ht Htl HQ. unfold rtr_send_error_pdu_from_network.
  eapply wp_mono; [apply send_error_pdu_spec; unfold RTR_MAX_PDU_LEN, sizeof_header in *; try done; lia|].
  intros rv w' (evs & Htalk & Hr). by eapply HQ.
Qed.

(** What is reported to the cache about a refused PDU. *)
Definition reported (error : pdu_error_type) : pdu_error_type := match error with PDU_TOO_BIG => CORRUPT_DATA | _ => error end.
Definition reported_text (error : pdu_error_type) : list Z :=
  match error with
  | CORRUPT_DATA => text "corrupt data received, length value in PDU is too small"
  | PDU_TOO_BIG => text "PDU too big, max. PDU size is: 65535 bytes"
  | _ => []
  end.

Definition about_version (error : pdu_error_type) : bool :=
  match error with UNEXPECTED_PROTOCOL_VERSION | UNSUPPORTED_PROTOCOL_VER => true | _ => false end.

(** The end with a failure: the result, the state of the socket and the events. *)
Definition failed_with s1 (e : tr_error) (rv : Z) s' (evs : list E) : Prop :=
  match e with
  | TR_ERROR => rv = RTR_ERROR ∧ s' = changed s1 RTR_ERROR_TRANSPORT ∧ evs = state_events s1 RTR_ERROR_TRANSPORT
  | TR_WOULDBLOCK => rv = RTR_TR_WOULDBLOCK ∧ s' = s1 ∧ evs = []
  | TR_INTR => rv = RTR_TR_INTR ∧ s' = s1 ∧ evs = []
  | TR_CLOSED => rv = RTR_ERROR ∧ s' = changed s1 RTR_ERROR_FATAL ∧ evs = state_events s1 RTR_ERROR_FATAL
  end.
Definition refused_with s1 (error : pdu_error_type) buf' (rv : Z) s' (evs : list E) : Prop :=
  rv = RTR_ERROR ∧ ∃ report, reports s1 (error_report s1 buf' sizeof_header (reported error) (reported_text error)) report ∧
  if about_version error then s' = s1 ∧ evs = report
  else s' = changed s1 RTR_ERROR_FATAL ∧ evs = report ++ state_events s1 RTR_ERROR_FATAL.

Definition receive_pdu_post s buf w : Z * rtr_socket * list Z → world E → Prop := λ '(rv, s', buf') w',
  allocs w' = allocs w ∧ length buf' = length buf ∧ bytes buf' ∧ ∃ evs, events w' = events w ++ evs ∧
  if decide (state s = RTR_SHUTDOWN) then rv = RTR_ERROR ∧ s' = s ∧ buf' = buf ∧ w' = w
  else let '(v, s1) := verdict_on s (stream (net w)) in
    match v with
    | Arrived b t len => rv = RTR_SUCCESS ∧ s' = s1 ∧ evs = [] ∧ delivers (stream (net w)) b (stream (net w')) ∧
        buf' = host_order b t len ++ drop (Z.to_nat len) buf
    | Broken e => stream (net w') = after_failure (stream (net w)) ∧ failed_with s1 e rv s' evs
    | Refused error n front => delivers (stream (net w)) (take n (bytes_of (stream (net w)))) (stream (net w')) ∧
        buf' = front ++ drop n buf ∧ refused_with s1 error buf' rv s' evs
    end.

(** The errors that occur. *)
Lemma verdict_error s l error n front s1 : verdict_on s l = (Refused error n front, s1) →
  error ∈ [CORRUPT_DATA; PDU_TOO_BIG; UNEXPECTED_PROTOCOL_VERSION; UNSUPPORTED_PROTOCOL_VER].
Proof.
  unfold verdict_on, verdict_of, check_verdict. intros Hv. repeat (case_match; simplify_eq/=; try done); set_solver.
Qed.

Lemma receive_pdu_spec s buf w :
  bytes buf → RTR_MAX_PDU_LEN <= Z.of_nat (length buf) → stream_ok (stream (net w)) →
  wp (rtr_receive_pdu s buf) (receive_pdu_post s buf w) w.
Proof.
  intros Hb Hl Hst. unfold rtr_receive_pdu. wp_step. rewrite assert_true by by apply Z.leb_le. wp_step. wp_step.
  eapply wp_mono; [by apply receive_header_spec|].
  intros [[r s1] buf1] w1 (Ha & He & Hl1 & Hb1 & Hf). rewrite <- Hl1 in Hl. cbv beta iota. wp_step. unfold receive_pdu_post.
  case_decide as Hsd.
  { destruct Hf as (-> & -> & -> & ->). simpl. wp_step. wp_step. split_and!; try done. exists []. by rewrite app_nil_r. }
  destruct (verdict_on s (stream (net w))) as [v s'] eqn:Hv. destruct Hf as [-> Hf]. cbn [fst snd] in *.
  assert (∀ w' evs, talks w1 evs w' → allocs w' = allocs w ∧ events w' = events w ++ evs ∧ stream (net w') = stream (net w1)) as Htalks
    by (intros w' evs (? & ? & ? & _); split_and!; congruence).
  unfold receive_error. destruct v as [b t len|e|error n front].
  - destruct Hf as (-> & Hd & ->). wp_step. wp_step. split_and!; try done. exists []. rewrite app_nil_r. by split_and!.
  - destruct Hf as (-> & Hs). destruct e; simpl failed_with; wp_step; try (apply wp_change_state; intros w2 Hw2; wp_step); wp_step;
      (split_and!; [try done; by apply (Htalks _ _ Hw2)|done|done|]).
    + destruct (Htalks _ _ Hw2) as (_ & Hev & Hstr). eexists. split; [exact Hev|]. split; [congruence|]. done.
    + exists []. rewrite app_nil_r. by split_and!.
    + exists []. rewrite app_nil_r. by split_and!.
    + destruct (Htalks _ _ Hw2) as (_ & Hev & Hstr). eexists. split; [exact Hev|]. split; [congruence|]. done.
  - destruct Hf as (-> & Hd & ->). apply verdict_error in Hv.
    assert (∀ (fatal : bool) m w2 evs, talks w1 evs w2 → reports s' (error_report s' (front ++ drop n buf) sizeof_header (reported error) (reported_text error)) evs →
      about_version error = negb fatal →
      m = (if fatal then s' ← rtr_change_socket_state s' RTR_ERROR_FATAL; mret (RTR_ERROR, s') else mret (RTR_ERROR, s')) →
      wp m (λ x w', wp (let '(rtval, s0) := x in mret (rtval, s0, front ++ drop n buf)) (λ '(rv, s'0, buf') w', allocs w' = allocs w ∧ length buf' = length buf ∧ bytes buf' ∧
        ∃ evs, events w' = events w ++ evs ∧ delivers (stream (net w)) (take n (bytes_of (stream (net w)))) (stream (net w')) ∧
          buf' = front ++ drop n buf ∧ refused_with s' error buf' rv s'0 evs) w') w2) as Hend.
    { intros fatal m w2 evs Htalk Hrep Hfat ->. destruct (Htalks _ _ Htalk) as (Ha2 & He2 & Hs2). destruct fatal.
      - wp_step. apply wp_change_state. intros w3 Hw3. wp_step. wp_step. pose proof (talks_trans _ _ _ _ _ Htalk Hw3) as Htalk'.
        destruct (Htalks _ _ Htalk') as (Ha3 & He3 & Hs3). split_and!; try done. eexists. split; [exact He3|]. rewrite Hs3. split; [done|]. split; [done|].
        split; [done|]. exists evs. by rewrite Hfat.
      - wp_step. wp_step. split_and!; try done. exists evs. rewrite Hs2. do 4 (split; [done|]). exists evs. by rewrite Hfat. }
    rewrite !elem_of_cons in Hv. destruct Hv as [-> |[-> |[-> |[-> |Hv%not_elem_of_nil]]]]; [| | | |done]; wp_step;
      (apply wp_report; [done|done|texts|texts|]); intros rv w2 evs Htalk Hrep.
    + by apply (Hend true _ _ evs).
    + by apply (Hend true _ _ evs).
    + by apply (Hend false _ _ evs).
    + by apply (Hend false _ _ evs).
Qed.

(** ** A PDU that has arrived *)

(** The bytes [b] were received, and nothing else happened but that time passed. *)
Definition arrives w b w' : Prop :=
  allocs w' = allocs w ∧ events w' = events w ∧ delivers (stream (net w)) b (stream (net w')) ∧
  clock (net w') `suffix_of` clock (net w).

Lemma arrives_nil w : arrives w [] w.
Proof. done. Qed.
Lemma arrives_trans w b w' b' w'' : arrives w b w' → arrives w' b' w'' → arrives w (b ++ b') w''.
Proof.
  intros (Ha & He & Hd & Hc) (Ha' & He' & Hd' & Hc').
  split_and!; [congruence|congruence|apply (delivers_trans _ _ _ _ _ Hd Hd')..|by trans (clock (net w'))].
Qed.

Lemma wp_recv_prefix l (Q : tr_error + list Z → world E → Prop) w :
  l `prefix_of` bytes_of (stream (net w)) →
  (∀ w', arrives w l w' → Q (inr l) w') → wp (tr_recv_all (length l)) Q w.
Proof.
  intros [rest Hl] HQ. eapply wp_mono; [apply recv_all_spec|]. intros res w' (str & (Ha & He & <- & _ & _ & Hc) & Hres).
  rewrite Hl, take_app_length, decide_True in Hres by (rewrite length_app; lia). destruct Hres as [-> Hdel]. by apply HQ.
Qed.

(** The header in host byte order. *)
Lemma flipped_header b t len :
  valid_pdu b t len → let hdr := take 8 (header_flip t b) in
  get32 hdr 4 = Some len ∧ rtr_get_pdu_type hdr = Some t ∧ get8 hdr 0 = Some (byte_at b 0).
Proof.
  intros (Hb & Hl & Hlen & Ht & H4 & Hc). cbv zeta.
  assert (length (header_flip t b) = length b) as Hfl by (apply header_flip_length; lia).
  assert (∀ o n, (o + n <= 8)%nat → slice (take 8 (header_flip t b)) o n = slice (header_flip t b) o n) as Hslice.
  { intros o n Ho. rewrite <- (take_drop 8 (header_flip t b)) at 2. symmetry. apply slice_app.
    rewrite length_take. lia. }
  split; [|split].
  - rewrite <- H4. unfold get32. by rewrite Hslice by lia.
  - rewrite <- Ht, <- (header_flip_type t b) by lia. unfold rtr_get_pdu_type, get8. by rewrite Hslice by lia.
  - unfold get8. rewrite Hslice by lia. fold (get8 (header_flip t b) 0). rewrite get8_byte by lia.
    unfold byte_at. by rewrite header_flip_out by lia.
Qed.

Lemma receive_payload_valid s b t len buf w :
  valid_pdu b t len → drop 8 b `prefix_of` bytes_of (stream (net w)) → state s ≠ RTR_SHUTDOWN →
  (t = ERROR ∨ byte_at b 0 = version (downgrade s t (byte_at b 0))) → bytes buf →
  RTR_MAX_PDU_LEN <= Z.of_nat (length buf) →
  wp (receive_payload s (take 8 b ++ drop 8 buf) (take 8 (header_flip t b))) (λ x w',
    x = (check_outcome b t len, downgrade s t (byte_at b 0), host_order b t len ++ drop (Z.to_nat len) buf) ∧
    arrives w (drop 8 b) w') w.
Proof.
  intros Hv Hpre Hsd Hver Hr Hlr. pose proof Hv as (Hb & Hl & Hlen & Ht & _).
  destruct (flipped_header b t len Hv) as (Hg4 & Hgt & Hg0). unfold receive_payload.
  rewrite Hg4, Hgt, Hg0. do 6 wp_step. unfold sizeof_header, RTR_MAX_PDU_LEN in *.
  rewrite (proj2 (Z.ltb_ge len 8)), (proj2 (Z.ltb_ge 65535 len)) by lia. cbv zeta.
  set (s' := downgrade s t (byte_at b 0)) in *.
  assert (negb (byte_at b 0 =? version s') && bool_decide (t ≠ ERROR) = false) as ->.
  { destruct Hver as [-> | ->]; [by rewrite andb_false_r|by rewrite Z.eqb_refl]. }
  assert (state s' = state s) as Hst by (unfold s', downgrade; repeat case_match; done).
  destruct (Z.ltb_spec 0 (len - 8)).
  - rewrite decide_False by congruence. wp_step.
    replace (Z.to_nat (len - 8)) with (length (drop 8 b)) by (rewrite length_drop; lia).
    apply wp_recv_prefix; [done|]. intros w1 Hw1. cbv beta iota. wp_step.
    assert (write (take 8 b ++ drop 8 buf) (Z.to_nat 8) (drop 8 b) = Some (b ++ drop (Z.to_nat len) buf)) as ->.
    { unfold write. assert (length (take 8 b) = 8%nat) as Hl8 by (rewrite length_take; lia).
      rewrite decide_True by (rewrite length_app, !length_drop; lia). f_equal. rewrite take_app_length' by lia.
      rewrite app_assoc, take_drop. f_equal.
      rewrite drop_app_ge by (rewrite Hl8; lia). rewrite Hl8, drop_drop. f_equal.
      rewrite length_drop. lia. }
    wp_step. eapply wp_mono; [apply (receive_check_valid _ b t len); [done|by apply Forall_drop]|].
    intros x w2 [-> ->]. done.
  - assert (length b = 8%nat) as Hl8 by lia. rewrite (take_ge b), (drop_ge b) by lia.
    assert (Z.to_nat len = 8%nat) as Hl8' by lia. rewrite Hl8'.
    eapply wp_mono; [apply (receive_check_valid _ b t len); [done|by apply Forall_drop]|].
    intros x w2 [-> ->]. done.
Qed.

(** A PDU that [rtr_receive_pdu] accepts. *)
Definition acceptable s b t (len : Z) : Prop :=
  valid_pdu b t len ∧ (t = ERROR ∨ byte_at b 0 = version (downgrade s t (byte_at b 0))) ∧
  (t = ASPA → byte_at b 0 = 2 ∧ len mod 4 = 0).

Lemma receive_pdu_complete s b t len buf w :
  acceptable s b t len → b `prefix_of` bytes_of (stream (net w)) → state s ≠ RTR_SHUTDOWN → bytes buf →
  RTR_MAX_PDU_LEN <= Z.of_nat (length buf) →
  wp (rtr_receive_pdu s buf) (λ x w',
    x = (RTR_SUCCESS, downgrade s t (byte_at b 0), host_order b t len ++ drop (Z.to_nat len) buf) ∧ arrives w b w') w.
Proof.
  intros (Hv & Hver & Haspa) [rest Hpre] Hsd Hbuf Hlen. pose proof Hv as (Hb & Hl & Hlen' & Ht & _).
  assert (length (take 8 b) = 8%nat) as Hl8 by (rewrite length_take; lia).
  unfold rtr_receive_pdu. wp_step. rewrite assert_true by by apply Z.leb_le. wp_step. wp_step.
  unfold receive_header. rewrite decide_False by done. wp_step.
  replace (Z.to_nat sizeof_header) with (length (take 8 b)) by done.
  apply wp_recv_prefix.
  { exists (drop 8 b ++ rest). by rewrite app_assoc, take_drop. }
  intros w1 Hw1. cbv beta iota. wp_step.
  assert (write buf 0 (take 8 b) = Some (take 8 b ++ drop 8 buf)) as ->.
  { unfold write. rewrite Hl8, decide_True by (unfold RTR_MAX_PDU_LEN in *; lia). by rewrite take_0. }
  wp_step. wp_step.
  assert (rtr_get_pdu_type (take 8 b) = Some t) as Ht8.
  { rewrite <- Ht. rewrite <- (take_drop 8 b) at 2. symmetry. apply type_app. lia. }
  unfold rtr_pdu_header_to_host_byte_order. assert (bytes (take 8 b)) by by apply Forall_take.
  rewrite (convert_header_spec _ _ t) by (done || lia). wp_step.
  assert (header_flip t (take 8 b) = take 8 (header_flip t b)) as ->.
  { rewrite <- (take_drop 8 b) at 2. rewrite header_flip_app by lia. rewrite take_app_length'; [done|].
    rewrite header_flip_length; lia. }
  pose proof Hw1 as (_ & _ & (Hb1 & _) & _). rewrite Hpre in Hb1. rewrite <- (take_drop 8 b) in Hb1 at 1.
  rewrite <- app_assoc in Hb1. apply app_inv_head in Hb1.
  eapply wp_mono; [apply (receive_payload_valid s b t len buf); try done; by exists rest|].
  intros x w2 (-> & Hw2). cbv beta iota.
  assert (check_outcome b t len = Return RTR_SUCCESS) as ->.
  { unfold check_outcome. case_bool_decide as Hta; [|done]. destruct (Haspa Hta) as [-> ->]. done. }
  wp_step. simpl receive_error. wp_step. wp_step. split; [done|]. rewrite <- (take_drop 8 b). by eapply arrives_trans.
Qed.

End Receive.
