(* ===== verification/UpdateProofs.v ===== *)
(** * Updating the tables: proofs

    What a stored PDU says, and what a table has to promise for the loops that update
    and undo: the prefix table and the table of router keys keep these promises. *)

From Stdlib Require Import String.
From S2P Require Import Prelude Ip PfxTable PfxTableProofs PfxTableBulk Hashlin Spki SpkiProofs SetOps.
From S2P Require Import AspaArray Aspa AspaUpdate.
From S2P Require Import Pdu PduProofs PduTheorems Transport TransportProofs Socket Packets PacketsProofs ReceiveProofs Update.
Open Scope Z_scope.

(** ** What a PDU says *)

Section Wire.
Context `{Build} `{Host}.
Implicit Types (b : list Z) (sock : socket_ptr).

Definition type_of b : pdu_type := pdu_type_of (byte_at b 1).
Definition len_of b : Z := Z.of_nat (length b).

(** The PDU as it is stored: in host byte order. *)
Definition hosted b : buffer := host_order b (type_of b) (len_of b).

Definition pdu_ok b : Prop := valid_pdu b (type_of b) (len_of b).

Lemma valid_type b t len : valid_pdu b t len → t = type_of b ∧ len = len_of b.
Proof.
  intros (_ & Hl & Hlen & Ht & _). unfold type_of, len_of. split; [|lia]. unfold rtr_get_pdu_type in Ht.
  rewrite get8_byte in Ht by lia. by injection Ht as <-.
Qed.

Definition wire_prefix sock b : rtr_pfx_record :=
  match type_of b with
  | IPV4_PREFIX => PfxRecord (be32 b 16) (Addr4 {| addr := be32 b 12 |}) (byte_at b 9) (byte_at b 10) sock
  | _ => PfxRecord (be32 b 28) (Addr6 {| addr0 := be32 b 12; addr1 := be32 b 16; addr2 := be32 b 20;
           addr3 := be32 b 24 |}) (byte_at b 9) (byte_at b 10) sock
  end.
Definition wire_key sock b : rtr_spki_record :=
  SpkiRecord (take SKI_SIZE (drop 8 b)) (be32 b 28) (take SPKI_SIZE (drop 32 b)) sock.

Definition flagged {A} (flags : Z) (x : A) : update A :=
  if flags =? 1 then Announce x else if flags =? 0 then Withdraw x else Invalid.
Definition prefix_update sock b : update rtr_pfx_record := flagged (byte_at b 8) (wire_prefix sock b).
Definition key_update sock b : update rtr_spki_record := flagged (byte_at b 2) (wire_key sock b).

(** A prefix PDU whose record the table can hold, and a router key PDU. *)
Definition prefix_pdu_ok b : Prop :=
  pdu_ok b ∧ (type_of b = IPV4_PREFIX ∨ type_of b = IPV6_PREFIX) ∧ record_ok (wire_prefix 0 b).
Definition key_pdu_ok b : Prop := pdu_ok b ∧ type_of b = ROUTER_KEY.

Lemma record_ok_sock sock sock' b : record_ok (wire_prefix sock b) → record_ok (wire_prefix sock' b).
Proof. unfold record_ok, record_key, wire_prefix. by destruct (type_of b). Qed.

Lemma pdu_length b :
  pdu_ok b →
  match type_of b with
  | IPV4_PREFIX => len_of b = 20
  | IPV6_PREFIX => len_of b = 32
  | ROUTER_KEY => len_of b = 123
  | ASPA => 12 <= len_of b
  | _ => True
  end.
Proof.
  intros (Hb & Hl & Hlen & Ht & H4 & Hc). unfold rtr_pdu_check_size in Hc.
  rewrite header_flip_type, Ht, H4 in Hc by lia. cbn [mbind option_bind] in Hc.
  destruct (type_of b); try done; try (apply (inj Some), Z.eqb_eq in Hc; done).
  unfold sizeof_aspa in Hc. destruct (Z.ltb_spec (len_of b) 12); [done|lia].
Qed.

Lemma hosted_type b : pdu_ok b → rtr_get_pdu_type (hosted b) = Some (type_of b).
Proof. apply host_order_type. Qed.

Lemma prefix_record_spec sock b :
  pdu_ok b → type_of b = IPV4_PREFIX ∨ type_of b = IPV6_PREFIX →
  rtr_prefix_pdu_2_pfx_record sock (hosted b) (type_of b) = Some (wire_prefix sock b).
Proof.
  intros Hp Ht. pose proof (pdu_length b Hp) as Hl. unfold rtr_prefix_pdu_2_pfx_record, wire_prefix.
  destruct Ht as [Ht|Ht]; rewrite Ht in *; rewrite assert_true by done; cbn [mbind option_bind];
    unfold hosted; repeat (rewrite host_order_get32; [|done|rewrite Ht, Hl; decided]; cbn [mbind option_bind]);
    rewrite !host_order_byte; [done|..]; try done; unfold len_of in Hl; try lia;
    right; left; rewrite Ht; (split; [lia|decided]).
Qed.

Lemma prefix_flags b :
  pdu_ok b → type_of b = IPV4_PREFIX ∨ type_of b = IPV6_PREFIX → get8 (hosted b) 8 = Some (byte_at b 8).
Proof.
  intros Hp Ht. pose proof (pdu_length b Hp) as Hl. unfold hosted.
  apply host_order_byte; [done| |].
  - unfold len_of in *. destruct Ht as [Ht|Ht]; rewrite Ht in Hl; lia.
  - right. left. split; [lia|]. destruct Ht as [Ht|Ht]; rewrite Ht; decided.
Qed.

Lemma key_record_spec sock b :
  pdu_ok b → type_of b = ROUTER_KEY →
  rtr_key_pdu_2_spki_record sock (hosted b) ROUTER_KEY = Some (wire_key sock b) ∧
  get8 (hosted b) 2 = Some (byte_at b 2).
Proof.
  intros Hp Ht. pose proof (pdu_length b Hp) as Hl. rewrite Ht in Hl. unfold rtr_key_pdu_2_spki_record, wire_key.
  rewrite assert_true by done. cbn [mbind option_bind]. unfold hosted.
  rewrite host_order_get32; [|done|rewrite Ht; decided]. cbn [mbind option_bind].
  unfold len_of in Hl. split.
  - rewrite (host_order_slice _ _ _ 8); [|done|lia|unfold SKI_SIZE; lia|rewrite Ht; decided]. cbn [mbind option_bind].
    by rewrite (host_order_slice _ _ _ 32); [|done|lia|unfold SPKI_SIZE; lia|rewrite Ht; decided].
  - apply host_order_byte; [done|lia|]. right. right. split; [lia|by left].
Qed.

End Wire.

(** ** What happens in the world *)

(** The events [evs] happened, memory did not run out if it was not going to, and
    nothing was received. *)
Definition runs {E} (w : world E) (evs : list E) (w' : world E) : Prop :=
  events w' = events w ++ evs ∧ (no_fail w → no_fail w') ∧ stream (net w') = stream (net w) ∧
  clock (net w') `suffix_of` clock (net w).

Section Runs.
Context {E : Type}.
Implicit Types (w : world E).

Lemma runs_refl w : runs w [] w.
Proof. split_and!; try done. by rewrite app_nil_r. Qed.
Lemma runs_trans w evs w' evs' w'' : runs w evs w' → runs w' evs' w'' → runs w (evs ++ evs') w''.
Proof.
  intros (He & Hn & Hs & Hc) (He' & Hn' & Hs' & Hc').
  split_and!; [by rewrite He', He, app_assoc|auto|congruence|by trans (clock (net w'))].
Qed.
Lemma runs_emits w evs w' : emits w evs w' → runs w evs w'.
Proof. intros (He & Hn & Hs). split_and!; try done; by rewrite Hs. Qed.
Lemma runs_talks w evs w' : talks w evs w' → runs w evs w'.
Proof. intros (Ha & He & Hs & Hc). split_and!; try done. unfold no_fail. by rewrite Ha. Qed.
Lemma runs_no_fail w evs w' : runs w evs w' → no_fail w → no_fail w'.
Proof. by intros (_ & ? & _). Qed.

End Runs.

#[export] Hint Resolve runs_refl runs_trans runs_emits runs_talks runs_no_fail : rtr.

(** ** Reporting *)

Section Report.
Context `{Build} `{Host} {E : Type} `{!Event tr_event E} `{!Event rtr_event E}.
Implicit Types (s : rtr_socket) (w : world E).

(** A stored PDU is reported as it came from the network. *)
Lemma wp_from_host s b error txt (Q : Z → world E → Prop) w :
  pdu_ok b → 8 < len_of b → bytes txt → Z.of_nat (length txt) <= 65515 →
  (∀ rv w' evs, talks w evs w' → reports s (error_report s b (len_of b) error txt) evs → Q rv w') →
  wp (rtr_send_error_pdu_from_host s (hosted b) (len_of b) error txt) Q w.
Proof.
  intros Hp H8 Ht Htl HQ. destruct (valid_pdu_footer _ _ _ Hp) as (_ & Hnet & Hlen & _).
  pose proof Hp as (Hb & Hl & Hmax & _). unfold rtr_send_error_pdu_from_host, hosted. wp_step.
  assert (slice (host_order b (type_of b) (len_of b)) 0 (Z.to_nat (len_of b)) =
    Some (host_order b (type_of b) (len_of b))) as ->.
  { rewrite slice_some by lia. by rewrite drop_0, <- Hl, <- Hlen, firstn_all. }
  wp_step. unfold sizeof_header. destruct (Z.eqb_spec (len_of b) 8); [lia|].
  destruct (Z.ltb_spec 8 (len_of b)); [|lia]. wp_step. rewrite Hnet. wp_step.
  eapply wp_mono; [apply send_error_pdu_spec; try done; lia|]. intros rv w' (evs & ? & ?). by eapply HQ.
Qed.

(** Without a PDU nothing is sent. *)
Lemma wp_from_host_null s error txt (Q : Z → world E → Prop) w :
  Q RTR_ERROR w → wp (rtr_send_error_pdu_from_host s [] 0 error txt) Q w.
Proof. intros HQ. unfold rtr_send_error_pdu_from_host. wp_step. eapply wp_of_option; [reflexivity|]. by apply wp_ret. Qed.

Lemma wp_report_fatal s b error txt (Q : Z * rtr_socket → world E → Prop) w :
  pdu_ok b → 8 < len_of b → bytes txt → Z.of_nat (length txt) <= 65515 →
  (∀ w' evs, talks w (evs ++ state_events s RTR_ERROR_FATAL) w' →
     reports s (error_report s b (len_of b) error txt) evs → Q (RTR_ERROR, changed s RTR_ERROR_FATAL) w') →
  wp (report_fatal s (hosted b) (len_of b) error txt) Q w.
Proof.
  intros Hp H8 Ht Htl HQ. unfold report_fatal. wp_step. apply wp_from_host; try done.
  intros rv w1 evs Hw1 Hr. cbv beta. wp_step. apply wp_change_state. intros w2 Hw2. wp_step.
  eapply HQ; [|done]. by eapply talks_trans.
Qed.

Lemma wp_report_null s error txt (Q : Z * rtr_socket → world E → Prop) w :
  (∀ w', talks w (state_events s RTR_ERROR_FATAL) w' → Q (RTR_ERROR, changed s RTR_ERROR_FATAL) w') →
  wp (report_fatal s [] 0 error txt) Q w.
Proof.
  intros HQ. unfold report_fatal. wp_step. apply wp_from_host_null. wp_step. apply wp_change_state.
  intros w2 Hw2. wp_step. by apply HQ.
Qed.

End Report.

(** ** The promises of a table *)

Section Interface.
Context `{Build} `{Host} {E : Type} `{!Event tr_event E} `{!Event rtr_event E}.

(** Why an update is refused. *)
Definition refusal {A} (u : update A) : pdu_error_type :=
  match u with
  | Announce _ => DUPLICATE_ANNOUNCEMENT
  | Withdraw _ => WITHDRAWAL_OF_UNKNOWN_RECORD
  | Invalid => CORRUPT_DATA
  end.

(** A PDU with invalid flags does not change the state of the socket by itself. *)
Definition after_refusal {A} (u : update A) (s : rtr_socket) : rtr_socket :=
  match u with Invalid => s | _ => changed s RTR_ERROR_FATAL end.
Definition refusal_events {A} (u : update A) (s : rtr_socket) : list E :=
  match u with Invalid => [] | _ => state_events s RTR_ERROR_FATAL end.

(** [T] is a pointer to a table with records of type [A], updated and undone with PDUs
    for which [up_pdu] holds; [up_fits t n]: there is room for [n] more records;
    [up_told]: what the client is told about an update. *)
Class Updatable (T A : Type) `{!EqDecision A} := {
  up_update : rtr_socket → T → buffer → M E (Z * rtr_socket * T);
  up_undo : rtr_socket → T → buffer → M E (Z * T);
  up_ok : T → Prop;
  up_records : T → list A;
  up_fits : T → nat → Prop;
  up_told : T → update A → list E;
  up_pdu : list Z → Prop;
  up_op : socket_ptr → list Z → update A;
  up_nodup t : up_ok t → NoDup (up_records t);
  up_fits_mono t m n : up_fits t (m + n)%nat → up_fits t n;
  up_update_spec s t b w : up_ok t → up_pdu b → up_fits t 1 → no_fail w →
    wp (up_update s t (hosted b)) (λ '(rv, s', t') w',
      up_ok t' ∧ (∀ n, up_fits t (S n) → up_fits t' n) ∧ (∀ u, up_told t' u = up_told t u) ∧
      let u := up_op (self s) b in
      match run1 u (up_records t) with
      | Some l => rv = RTR_SUCCESS ∧ s' = s ∧ up_records t' ≡ₚ l ∧ runs w (up_told t u) w'
      | None => rv = RTR_ERROR ∧ s' = after_refusal u s ∧ up_records t' ≡ₚ up_records t ∧
          ∃ evs txt, reports s (error_report s b (len_of b) (refusal u) txt) evs ∧
            runs w (evs ++ refusal_events u s) w'
      end) w;
  up_undo_spec s t b w : up_ok t → up_pdu b → up_fits t 1 → no_fail w → up_op (self s) b ≠ Invalid →
    wp (up_undo s t (hosted b)) (λ '(rv, t') w',
      rv ≠ RTR_ERROR ∧ up_ok t' ∧ (∀ n, up_fits t (S n) → up_fits t' n) ∧
      (∀ u, up_told t' u = up_told t u) ∧ up_records t' ≡ₚ undo1 (up_op (self s) b) (up_records t) ∧
      ∃ evs, runs w evs w') w }.

End Interface.

(** ** The loops *)

Section Loops.
Context `{Build} `{Host} {E : Type} `{!Event tr_event E} `{!Event rtr_event E}.
Context {T A : Type} `{!EqDecision A} `{U : !Updatable T A}.
Implicit Types (s : rtr_socket) (t : T) (w : world E) (bs : list (list Z)).

Definition ops_of s bs : list (update A) := up_op (self s) <$> bs.
Definition all_told t (us : list (update A)) : list E := us ≫= up_told t.

(** Nothing but the state has changed. *)
Definition state_only s s' : Prop := s' = s ∨ s' = changed s RTR_ERROR_FATAL.

Lemma state_only_refusal (u : update A) s : state_only s (after_refusal u s).
Proof. destruct u; [by right..|by left]. Qed.

Definition update_loop_post s t bs (i : nat) w : option nat * rtr_socket * T → world E → Prop :=
  λ '(failed, s', t') w',
  up_ok t' ∧ (∀ u, up_told t' u = up_told t u) ∧
  match run (ops_of s bs) (up_records t) with
  | inr l => failed = None ∧ s' = s ∧ up_records t' ≡ₚ l ∧ runs w (all_told t (ops_of s bs)) w' ∧
      (∀ n, up_fits t (length bs + n)%nat → up_fits t' n)
  | inl k => failed = Some (i + k)%nat ∧ state_only s s' ∧
      (∀ l, run (take k (ops_of s bs)) (up_records t) = inr l → up_records t' ≡ₚ l) ∧
      (∃ b, bs !! k = Some b ∧ s' = after_refusal (up_op (self s) b) s ∧
         ∃ evs txt, reports s (error_report s b (len_of b) (refusal (up_op (self s) b)) txt) evs ∧
         runs w (all_told t (take k (ops_of s bs)) ++ evs ++ refusal_events (up_op (self s) b) s) w') ∧
      (∀ n, up_fits t (length bs + n)%nat → up_fits t' (length bs - S k + n)%nat)
  end.

Lemma update_pdus_spec s t bs i w :
  up_ok t → Forall up_pdu bs → up_fits t (length bs) → no_fail w →
  wp (update_pdus up_update s t (hosted <$> bs) i) (update_loop_post s t bs i w) w.
Proof.
  intros Hok Hbs Hfits Hnf. revert t i w Hok Hfits Hnf.
  induction Hbs as [|b bs Hb Hbs IH]; intros t i w Hok Hfits Hnf; cbn [fmap list_fmap update_pdus].
  { wp_step. unfold update_loop_post. simpl. split_and!; try done. apply runs_refl. }
  wp_step. eapply wp_mono.
  { apply up_update_spec; try done. apply (up_fits_mono t (length bs) 1%nat). by rewrite Nat.add_comm. }
  intros [[rv s1] t1] w1 (Hok1 & Hf1 & Ht1 & Hres). cbv beta iota zeta in *.
  unfold update_loop_post, ops_of. cbn [fmap list_fmap run]. fold (ops_of s bs).
  set (u := up_op (self s) b) in *. destruct (run1 u (up_records t)) as [l1|] eqn:Hu.
  - destruct Hres as (-> & -> & Hp1 & Hw1). rewrite (proj2 (Z.eqb_neq RTR_SUCCESS RTR_ERROR)) by done.
    eapply wp_mono; [apply (IH t1 (S i) w1 Hok1)|].
    { apply Hf1. exact Hfits. }
    { by eapply runs_no_fail. }
    intros [[failed s2] t2] w2 (Hok2 & Ht2 & Hres). split; [done|]. split; [by intros v; rewrite Ht2|].
    assert (∀ us, all_told t1 us = all_told t us) as Hall.
    { intros us. by apply list_bind_ext. }
    pose proof (run_perm (ops_of s bs) _ _ Hp1) as Hrp.
    destruct (run (ops_of s bs) (up_records t1)) as [k|l2] eqn:Hr1, (run (ops_of s bs) l1) as [k'|l2'] eqn:Hr; try done.
    + subst k'. destruct Hres as (-> & Hso & Hl & (b' & Hb' & Hs' & evs & txt & Hrep & Hw2) & Hf2).
      split; [f_equal; lia|]. split; [done|]. split; [|split].
      * intros l. cbn [take run]. rewrite Hu. destruct (run (take k (ops_of s bs)) l1) as [k'|l'] eqn:Hk; [done|].
        intros [= <-]. pose proof (run_perm (take k (ops_of s bs)) _ _ Hp1) as Hrp'. rewrite Hk in Hrp'.
        destruct (run (take k (ops_of s bs)) (up_records t1)) as [|l''] eqn:Hk'; [done|]. by rewrite (Hl l'').
      * exists b'. split; [done|]. split; [done|]. exists evs, txt. split; [done|]. cbn [take].
        change (all_told t (u :: take k (ops_of s bs))) with (up_told t u ++ all_told t (take k (ops_of s bs))).
        rewrite <- app_assoc, <- Hall. by eapply runs_trans.
      * intros n Hn. simpl. apply Hf2, Hf1. exact Hn.
    + destruct Hres as (-> & -> & Hp2 & Hw2 & Hf2). split_and!; try done.
      * by rewrite Hp2.
      * change (all_told t (u :: ops_of s bs)) with (up_told t u ++ all_told t (ops_of s bs)). rewrite <- Hall.
        by eapply runs_trans.
      * intros n Hn. apply Hf2, Hf1. exact Hn.
  - destruct Hres as (-> & -> & Hp1 & evs & txt & Hrep & Hw1). rewrite Z.eqb_refl. wp_step.
    split; [done|]. split; [done|]. split; [f_equal; lia|]. split; [apply state_only_refusal|]. split; [|split].
    + by intros l [= <-].
    + exists b. split; [done|]. split; [done|]. by exists evs, txt.
    + intros n Hn. apply Hf1. simpl in *. by rewrite Nat.sub_0_r.
Qed.

(** The set after undoing; the undoing does not fail. *)
Lemma undo_pdus_spec {R} (src_remove : T → socket_ptr → M E (R * T)) s t bs w :
  up_ok t → Forall up_pdu bs → Forall (λ u, u ≠ Invalid) (ops_of s bs) → up_fits t (length bs) → no_fail w →
  wp (undo_pdus up_undo src_remove s t (hosted <$> bs)) (λ '(rv, t') w',
    rv = RTR_SUCCESS ∧ up_ok t' ∧ (∀ u, up_told t' u = up_told t u) ∧
    up_records t' ≡ₚ undo (ops_of s bs) (up_records t) ∧
    (∀ n, up_fits t (length bs + n)%nat → up_fits t' n) ∧ ∃ evs, runs w evs w') w.
Proof.
  intros Hok Hbs Hinv Hfits Hnf. revert t w Hok Hfits Hnf Hinv.
  induction Hbs as [|b bs Hb Hbs IH]; intros t w Hok Hfits Hnf Hinv; cbn [fmap list_fmap undo_pdus].
  { wp_step. split_and!; try done. eauto with rtr. }
  apply Forall_cons in Hinv as [Hi Hinv]. wp_step. eapply wp_mono.
  { apply up_undo_spec; try done. apply (up_fits_mono t (length bs) 1%nat). by rewrite Nat.add_comm. }
  intros [rv t1] w1 (Hrv & Hok1 & Hf1 & Ht1 & Hp1 & evs1 & Hw1). cbv beta iota.
  rewrite (proj2 (Z.eqb_neq rv RTR_ERROR)) by done.
  eapply wp_mono; [apply (IH t1 w1 Hok1); [by apply Hf1|by eapply runs_no_fail|done]|].
  intros [rv2 t2] w2 (-> & Hok2 & Ht2 & Hp2 & Hf2 & evs2 & Hw2). split_and!; try done.
  - intros u. by rewrite Ht2.
  - rewrite Hp2. change (undo (ops_of s (b :: bs)) (up_records t))
      with (undo (ops_of s bs) (undo1 (up_op (self s) b) (up_records t))). by apply undo_perm.
  - intros n Hn. by apply Hf2, Hf1.
  - eauto with rtr.
Qed.

End Loops.
