(* ===== verification/UpdateInstances.v ===== *)
(** * The prefix table and the table of router keys keep the promises of [Updatable] *)

From Stdlib Require Import String.
From S2P Require Import Prelude Ip PfxTable PfxTableProofs PfxTableBulk Hashlin Spki SpkiProofs SetOps.
From S2P Require Import Pdu PduProofs PduTheorems Transport TransportProofs Socket Packets PacketsProofs ReceiveProofs.
From S2P Require Import Update UpdateProofs.
Open Scope Z_scope.

Section Prefixes.
Context `{Build} `{Host} {E : Type} `{!Event pfx_event E} `{!Event tr_event E} `{!Event rtr_event E}.
Implicit Types (s : rtr_socket) (w : world E) (pt : option rtr_pfx_table) (b : list Z).

Definition pfx_ok pt : Prop := match pt with Some t => table_ok t | None => False end.
Definition pfx_records pt : list rtr_pfx_record := match pt with Some t => records t | None => [] end.
Definition pfx_told pt (u : update rtr_pfx_record) : list E :=
  match pt, u with
  | Some t, Announce r => notification t r RTR_PFX_ADD
  | Some t, Withdraw r => notification t r RTR_PFX_REMOVE
  | _, _ => []
  end.

(** The two operations as updates of the set of records. *)
Lemma pfx_add_run t r w :
  table_ok t → record_ok r → no_fail w →
  wp (rtr_pfx_table_add (Some t) (Some r)) (λ '(rv, pt') w', pfx_ok pt' ∧
    (∀ u, pfx_told pt' u = pfx_told (Some t) u) ∧
    match run1 (Announce r) (records t) with
    | Some l => rv = RTR_PFX_SUCCESS ∧ pfx_records pt' ≡ₚ l ∧ runs w (pfx_told (Some t) (Announce r)) w'
    | None => rv = RTR_PFX_DUPLICATE_RECORD ∧ pt' = Some t ∧ runs w [] w'
    end) w.
Proof.
  intros Hok Hr Hnf. unfold rtr_pfx_table_add. wp_step. eapply wp_mono; [by apply pfx_table_add_spec|].
  intros [rv t'] w' (Hok' & Hfp & Hres). wp_step. split; [done|]. split.
  { intros [x|x|]; simpl; unfold notification; by rewrite ?Hfp. }
  simpl. destruct rv; try done.
  - destruct Hres as (Hn & Hp & Hw). rewrite decide_False by done. split_and!; try done. by apply runs_emits.
  - by destruct Hres as (_ & _ & _ & []).
  - destruct Hres as (Hn & -> & Hw). rewrite decide_True by done. split_and!; try done. by apply runs_emits.
Qed.

Lemma pfx_remove_run t r w :
  table_ok t → record_ok r → no_fail w →
  wp (rtr_pfx_table_remove t r) (λ '(rv, t') w', pfx_ok (Some t') ∧
    (∀ u, pfx_told (Some t') u = pfx_told (Some t) u) ∧
    match run1 (Withdraw r) (records t) with
    | Some l => rv = RTR_PFX_SUCCESS ∧ records t' ≡ₚ l ∧ runs w (pfx_told (Some t) (Withdraw r)) w'
    | None => rv = RTR_PFX_RECORD_NOT_FOUND ∧ t' = t ∧ runs w [] w'
    end) w.
Proof.
  intros Hok Hr Hnf. eapply wp_mono; [by apply rtr_pfx_table_remove_spec|].
  intros [rv t'] w' (Hok' & Hfp & Hres). split; [done|]. split.
  { intros [x|x|]; simpl; unfold notification; by rewrite ?Hfp. }
  simpl. destruct rv; try done.
  - destruct Hres as (Hp & Hw). rewrite decide_True by (rewrite Hp; left). split_and!; try done; [|by apply runs_emits].
    symmetry. apply filter_out_perm; [by apply records_nodup|done].
  - by destruct Hres as (_ & _ & _ & []).
  - destruct Hres as (Hn & -> & Hw). rewrite decide_False by done. split_and!; try done. by apply runs_emits.
Qed.

Lemma pfx_update_spec s pt b w :
  pfx_ok pt → prefix_pdu_ok b → no_fail w →
  wp (rtr_update_pfx_table s pt (hosted b)) (λ '(rv, s', pt') w',
    pfx_ok pt' ∧ (∀ u, pfx_told pt' u = pfx_told pt u) ∧
    let u := prefix_update (self s) b in
    match run1 u (pfx_records pt) with
    | Some l => rv = RTR_SUCCESS ∧ s' = s ∧ pfx_records pt' ≡ₚ l ∧ runs w (pfx_told pt u) w'
    | None => rv = RTR_ERROR ∧ s' = after_refusal u s ∧ pfx_records pt' ≡ₚ pfx_records pt ∧
        ∃ evs txt, reports s (error_report s b (len_of b) (refusal u) txt) evs ∧
          runs w (evs ++ refusal_events u s) w'
    end) w.
Proof.
  intros Hok (Hp & Hty & Hrec) Hnf. destruct pt as [t|]; [|done]. apply (record_ok_sock 0 (self s)) in Hrec.
  unfold rtr_update_pfx_table. rewrite hosted_type by done. wp_step. wp_step. wp_step.
  rewrite assert_true by (apply orb_true_iff; rewrite !bool_decide_eq_true; done). wp_step. cbv zeta. wp_step.
  rewrite prefix_record_spec by done. wp_step. wp_step. rewrite prefix_flags by done. wp_step.
  assert ((if decide (type_of b = IPV4_PREFIX) then sizeof_ipv4 else sizeof_ipv6) = len_of b) as ->.
  { pose proof (pdu_length b Hp) as Hl. destruct Hty as [Hty|Hty]; rewrite Hty in Hl |- *; simpl; by rewrite Hl. }
  assert (8 < len_of b) as H8.
  { pose proof (pdu_length b Hp) as Hl. destruct Hty as [Hty|Hty]; rewrite Hty in Hl; lia. }
  unfold prefix_update, flagged. set (r := wire_prefix (self s) b) in *.
  destruct (Z.eqb_spec (byte_at b 8) 1) as [->|H1]; [|destruct (Z.eqb_spec (byte_at b 8) 0) as [H0'|H0']].
  - simpl orb. cbv iota. wp_step. eapply wp_mono; [by apply pfx_add_run|].
    intros [rv pt'] w1 (Hok1 & Ht1 & Hres). cbv beta iota. simpl pfx_records.
    destruct (run1 (Announce r) (records t)) as [l|].
    + destruct Hres as (-> & Hl & Hw1). wp_step. wp_step. wp_step. by split_and!.
    + destruct Hres as (-> & -> & Hw1). wp_step. apply wp_report_fatal; try done.
      intros w2 evs Hw2 Hrep. wp_step. split_and!; try done. exists evs, []. split; [done|].
      eapply (runs_trans _ []); [done|by apply runs_talks].
  - simpl orb. cbv iota. wp_step. wp_step. eapply wp_mono; [by apply pfx_remove_run|].
    intros [rv t'] w1 (Hok1 & Ht1 & Hres). wp_step. cbv beta iota. simpl pfx_records.
    destruct (run1 (Withdraw r) (records t)) as [l|].
    + destruct Hres as (-> & Hl & Hw1). wp_step. wp_step. wp_step. by split_and!.
    + destruct Hres as (-> & -> & Hw1). wp_step. apply wp_report_fatal; try done.
      intros w2 evs Hw2 Hrep. wp_step. split_and!; try done. exists evs, []. split; [done|].
      eapply (runs_trans _ []); [done|by apply runs_talks].
  - simpl orb. cbv iota. wp_step. apply wp_from_host; [done|done|texts|texts|].
    intros rv w1 evs Hw1 Hrep. wp_step. simpl. split_and!; try done. eexists evs, _. split; [done|].
    rewrite app_nil_r. by apply runs_talks.
Qed.

Lemma pfx_undo_spec s pt b w :
  pfx_ok pt → prefix_pdu_ok b → no_fail w → prefix_update (self s) b ≠ Invalid →
  wp (rtr_undo_update_pfx_table s pt (hosted b)) (λ '(rv, pt') w',
    rv ≠ RTR_ERROR ∧ pfx_ok pt' ∧ (∀ u, pfx_told pt' u = pfx_told pt u) ∧
    pfx_records pt' ≡ₚ undo1 (prefix_update (self s) b) (pfx_records pt) ∧ ∃ evs, runs w evs w') w.
Proof.
  intros Hok (Hp & Hty & Hrec) Hnf Hinv. destruct pt as [t|]; [|done]. apply (record_ok_sock 0 (self s)) in Hrec.
  unfold rtr_undo_update_pfx_table. rewrite hosted_type by done. wp_step. wp_step. wp_step.
  rewrite assert_true by (apply orb_true_iff; rewrite !bool_decide_eq_true; done). wp_step. wp_step.
  rewrite prefix_record_spec by done. wp_step. wp_step. rewrite prefix_flags by done. wp_step.
  unfold prefix_update, flagged, undo1 in *. set (r := wire_prefix (self s) b) in *.
  destruct (Z.eqb_spec (byte_at b 8) 1) as [H1|H1]; [|destruct (Z.eqb_spec (byte_at b 8) 0) as [H0'|H0']; [|done]].
  - wp_step. wp_step. wp_step. eapply wp_mono; [by apply pfx_remove_run|].
    intros [rv t'] w1 (Hok1 & Ht1 & Hres). wp_step. simpl pfx_records. simpl inverse.
    destruct (run1 (Withdraw r) (records t)) as [l|].
    + destruct Hres as (-> & Hl & Hw1). split_and!; try done. by eexists.
    + destruct Hres as (-> & -> & Hw1). split_and!; try done. by eexists.
  - wp_step. eapply wp_mono; [by apply pfx_add_run|].
    intros [rv pt'] w1 (Hok1 & Ht1 & Hres). wp_step. simpl pfx_records. simpl inverse.
    destruct (run1 (Announce r) (records t)) as [l|].
    + destruct Hres as (-> & Hl & Hw1). split_and!; try done. by eexists.
    + destruct Hres as (-> & -> & Hw1). split_and!; try done. by eexists.
Qed.

#[export, refine] Instance pfx_updatable : Updatable (E := E) (option rtr_pfx_table) rtr_pfx_record := {
  up_update := rtr_update_pfx_table;
  up_undo := rtr_undo_update_pfx_table;
  up_ok := pfx_ok;
  up_records := pfx_records;
  up_fits := λ _ _, True;
  up_told := pfx_told;
  up_pdu := prefix_pdu_ok;
  up_op := prefix_update }.
Proof.
  - intros [t|]; [apply records_nodup|done].
  - done.
  - intros s t b w Hok Hb _ Hnf. eapply wp_mono; [by apply pfx_update_spec|].
    intros [[rv s'] t'] w' (? & ? & ?). by split_and!.
  - intros s t b w Hok Hb _ Hnf Hi. eapply wp_mono; [by apply pfx_undo_spec|].
    intros [rv t'] w' (? & ? & ? & ? & ?). by split_and!.
Defined.

End Prefixes.

Section Keys.
Context `{Build} `{Host} {E HT : Type} `{!HashTable E HT key_entry} `{!HashTableSpec E HT key_entry}.
Context `{!Event spki_event E} `{!Event tr_event E} `{!Event rtr_event E}.
Abbreviation spki_tab := (option (rtr_spki_table HT)) (only parsing).
Implicit Types (s : rtr_socket) (w : world E) (st : spki_tab) (b : list Z).

Definition keys_ok st : Prop := match st with Some t => spki_table_ok t | None => False end.
Definition key_records st : list rtr_spki_record := match st with Some t => spki_records t | None => [] end.
Definition keys_fit st (n : nat) : Prop :=
  match st with Some t => Z.of_nat (length (klist t) + n) <= ht_max | None => False end.
Definition keys_told st (u : update rtr_spki_record) : list E :=
  match st, u with
  | Some t, Announce r => spki_notification t r RTR_SPKI_ADD
  | Some t, Withdraw r => spki_notification t r RTR_SPKI_REMOVE
  | _, _ => []
  end.

Lemma key_records_nodup t : spki_table_ok t → NoDup (spki_records t).
Proof.
  intros ((_ & _ & Hnd) & _). apply NoDup_fmap_2; [|done]. intros x y Hxy.
  by rewrite <- (record_of_entry x), <- (record_of_entry y), Hxy.
Qed.

Definition key_run_post t w (u : update rtr_spki_record) (bad : rtr_spki_rtvals)
  : rtr_spki_rtvals * rtr_spki_table HT → world E → Prop := λ '(rv, t') w',
  spki_table_ok t' ∧ (∀ n, keys_fit (Some t) (S n) → keys_fit (Some t') n) ∧
  (∀ u, keys_told (Some t') u = keys_told (Some t) u) ∧
  match run1 u (spki_records t) with
  | Some l => rv = RTR_SPKI_SUCCESS ∧ spki_records t' ≡ₚ l ∧ runs w (keys_told (Some t) u) w'
  | None => rv = bad ∧ t' = t ∧ runs w [] w'
  end.

Lemma key_add_run t r w :
  spki_table_ok t → keys_fit (Some t) 1 → no_fail w →
  wp (spki_table_add_entry t r) (key_run_post t w (Announce r) RTR_SPKI_DUPLICATE_RECORD) w.
Proof.
  intros Hok Hfit Hnf. eapply wp_mono; [apply add_entry_spec; try done; simpl in Hfit; lia|].
  intros [rv t'] w' (Hok' & Hfp & Hres). split; [done|].
  assert (∀ u, keys_told (Some t') u = keys_told (Some t) u) as Ht.
  { intros [x|x|]; simpl; unfold spki_notification; by rewrite ?Hfp. }
  simpl. destruct (decide (r ∈ spki_records t)) as [Hin|Hin].
  - destruct Hres as (-> & -> & Hw). split; [intros n; simpl; lia|]. split_and!; try done. by apply runs_emits.
  - destruct Hres as (-> & Hk & Hw). split; [intros n; rewrite Hk, length_app; simpl; lia|].
    split_and!; try done; [|by apply runs_emits]. unfold spki_records. rewrite Hk, fmap_app. simpl.
    rewrite entry_of_record. by rewrite <- Permutation_cons_append.
Qed.

Lemma key_remove_run t r w :
  spki_table_ok t → no_fail w →
  wp (spki_table_remove_entry t r) (key_run_post t w (Withdraw r) RTR_SPKI_RECORD_NOT_FOUND) w.
Proof.
  intros Hok Hnf. eapply wp_mono; [by apply remove_entry_spec|].
  intros [rv t'] w' (Hok' & Hfp & Hres). split; [done|].
  assert (∀ u, keys_told (Some t') u = keys_told (Some t) u) as Ht.
  { intros [x|x|]; simpl; unfold spki_notification; by rewrite ?Hfp. }
  simpl. destruct (decide (r ∈ spki_records t)) as [Hin|Hin].
  - destruct Hres as (-> & Hk & Hp & Hw). split; [intros n; rewrite Hp; simpl; lia|].
    split_and!; try done; [|by apply runs_emits]. symmetry. apply filter_out_perm; [by apply key_records_nodup|].
    unfold spki_records. rewrite Hp. simpl. by rewrite entry_of_record.
  - destruct Hres as (-> & -> & Hw). split; [intros n; simpl; lia|]. split_and!; try done. by apply runs_emits.
Qed.

Lemma key_update_spec s st b w :
  keys_ok st → key_pdu_ok b → keys_fit st 1 → no_fail w →
  wp (rtr_update_spki_table s st (hosted b)) (λ '(rv, s', st') w',
    keys_ok st' ∧ (∀ n, keys_fit st (S n) → keys_fit st' n) ∧ (∀ u, keys_told st' u = keys_told st u) ∧
    let u := key_update (self s) b in
    match run1 u (key_records st) with
    | Some l => rv = RTR_SUCCESS ∧ s' = s ∧ key_records st' ≡ₚ l ∧ runs w (keys_told st u) w'
    | None => rv = RTR_ERROR ∧ s' = after_refusal u s ∧ key_records st' ≡ₚ key_records st ∧
        ∃ evs txt, reports s (error_report s b (len_of b) (refusal u) txt) evs ∧
          runs w (evs ++ refusal_events u s) w'
    end) w.
Proof.
  intros Hok (Hp & Hty) Hfit Hnf. destruct st as [t|]; [|done]. pose proof (pdu_length b Hp) as Hl.
  rewrite Hty in Hl. unfold rtr_update_spki_table. rewrite hosted_type by done. rewrite Hty. wp_step. wp_step.
  wp_step. rewrite assert_true by done. wp_step. cbv zeta. wp_step.
  destruct (key_record_spec (self s) b Hp Hty) as [-> ->]. wp_step. wp_step. wp_step.
  change sizeof_router_key with 123. rewrite <- Hl. assert (8 < len_of b) as H8 by lia.
  unfold key_update, flagged. set (r := wire_key (self s) b) in *.
  assert (∀ u bad rv t' w1, (bad = RTR_SPKI_DUPLICATE_RECORD ∧ u = Announce r) ∨ (bad = RTR_SPKI_RECORD_NOT_FOUND ∧ u = Withdraw r) →
    key_run_post t w u bad (rv, t') w1 →
    wp ('(res, s1) ← match rv with
          | RTR_SPKI_DUPLICATE_RECORD => report_fatal s (hosted b) (len_of b) DUPLICATE_ANNOUNCEMENT []
          | RTR_SPKI_RECORD_NOT_FOUND => report_fatal s (hosted b) (len_of b) WITHDRAWAL_OF_UNKNOWN_RECORD []
          | RTR_SPKI_ERROR => report_fatal s [] 0 INTERNAL_ERROR (text "spki_table Error")
          | RTR_SPKI_SUCCESS => mret (RTR_SUCCESS, s)
          end; mret (res, s1, Some t')) (λ '(rv, s', st') w', keys_ok st' ∧
      (∀ n, keys_fit (Some t) (S n) → keys_fit st' n) ∧ (∀ u, keys_told st' u = keys_told (Some t) u) ∧
      match run1 u (spki_records t) with
      | Some l => rv = RTR_SUCCESS ∧ s' = s ∧ key_records st' ≡ₚ l ∧ runs w (keys_told (Some t) u) w'
      | None => rv = RTR_ERROR ∧ s' = after_refusal u s ∧ key_records st' ≡ₚ spki_records t ∧
          ∃ evs txt, reports s (error_report s b (len_of b) (refusal u) txt) evs ∧
            runs w (evs ++ refusal_events u s) w'
      end) w1) as Hfinish.
  { intros u bad rv t' w1 Hbad (Hok1 & Hf1 & Ht1 & Hres). destruct (run1 u (spki_records t)) as [l|].
    - destruct Hres as (-> & Hp1 & Hw1). wp_step. wp_step. wp_step. by split_and!.
    - destruct Hres as (-> & -> & Hw1).
      destruct Hbad as [[-> ->]|[-> ->]]; wp_step; (apply wp_report_fatal; try done);
        intros w2 evs Hw2 Hrep; wp_step; split_and!; try done; exists evs, []; (split; [done|]);
        (eapply (runs_trans _ []); [done|by apply runs_talks]). }
  destruct (Z.eqb_spec (byte_at b 2) 1) as [->|H1]; [|destruct (Z.eqb_spec (byte_at b 2) 0) as [H0'|H0']].
  - simpl orb. cbv iota. wp_step. eapply wp_mono; [by apply key_add_run|]. intros [rv t'] w1 Hres.
    eapply Hfinish; [by left|done].
  - simpl orb. cbv iota. wp_step. eapply wp_mono; [by apply key_remove_run|]. intros [rv t'] w1 Hres.
    eapply Hfinish; [by right|done].
  - simpl orb. cbv iota. wp_step. apply wp_from_host; [done|done|texts|texts|].
    intros rv w1 evs Hw1 Hrep. wp_step. simpl.
    split; [done|]. split; [lia|]. split_and!; try done. eexists evs, _. split; [done|].
    rewrite app_nil_r. by apply runs_talks.
Qed.

Lemma key_undo_spec s st b w :
  keys_ok st → key_pdu_ok b → keys_fit st 1 → no_fail w → key_update (self s) b ≠ Invalid →
  wp (rtr_undo_update_spki_table s st (hosted b)) (λ '(rv, st') w',
    rv ≠ RTR_ERROR ∧ keys_ok st' ∧ (∀ n, keys_fit st (S n) → keys_fit st' n) ∧
    (∀ u, keys_told st' u = keys_told st u) ∧
    key_records st' ≡ₚ undo1 (key_update (self s) b) (key_records st) ∧ ∃ evs, runs w evs w') w.
Proof.
  intros Hok (Hp & Hty) Hfit Hnf Hinv. destruct st as [t|]; [|done].
  unfold rtr_undo_update_spki_table. rewrite hosted_type by done. rewrite Hty. wp_step. wp_step.
  wp_step. rewrite assert_true by done. wp_step. wp_step.
  destruct (key_record_spec (self s) b Hp Hty) as [-> ->]. wp_step. wp_step. wp_step.
  unfold key_update, flagged, undo1 in *. set (r := wire_key (self s) b) in *.
  destruct (Z.eqb_spec (byte_at b 2) 1) as [H1|H1]; [|destruct (Z.eqb_spec (byte_at b 2) 0) as [H0'|H0']; [|done]].
  - wp_step. wp_step. wp_step. eapply wp_mono; [by apply key_remove_run|].
    intros [rv t'] w1 (Hok1 & Hf1 & Ht1 & Hres). wp_step. simpl key_records. simpl inverse.
    destruct (run1 (Withdraw r) (spki_records t)) as [l|].
    + destruct Hres as (-> & Hl & Hw1). split_and!; try done. by eexists.
    + destruct Hres as (-> & -> & Hw1). split_and!; try done. by eexists.
  - wp_step. wp_step. wp_step. eapply wp_mono; [by apply key_add_run|].
    intros [rv t'] w1 (Hok1 & Hf1 & Ht1 & Hres). wp_step. simpl key_records. simpl inverse.
    destruct (run1 (Announce r) (spki_records t)) as [l|].
    + destruct Hres as (-> & Hl & Hw1). split_and!; try done. by eexists.
    + destruct Hres as (-> & -> & Hw1). split_and!; try done. by eexists.
Qed.

#[export, refine] Instance keys_updatable : Updatable (E := E) spki_tab rtr_spki_record := {
  up_update := rtr_update_spki_table;
  up_undo := rtr_undo_update_spki_table;
  up_ok := keys_ok;
  up_records := key_records;
  up_fits := keys_fit;
  up_told := keys_told;
  up_pdu := key_pdu_ok;
  up_op := key_update }.
Proof.
  - intros [t|]; [apply key_records_nodup|done].
  - intros [t|] m n; simpl; lia.
  - exact key_update_spec.
  - exact key_undo_spec.
Defined.

End Keys.
