(* ===== verification/AspaPdus.v ===== *)
(** * ASPA PDUs: proofs

    The operations that ASPA PDUs stand for, and the computation of the update. *)

From Stdlib Require Import String.
From S2P Require Import Prelude AspaArray Aspa AspaUpdate AspaVerification AspaVerificationProofs.
From S2P Require Import AspaUpdateProofs AspaTheorems AspaSwapIn Hashlin Spki PfxTable.
From S2P Require Import Pdu PduProofs PduTheorems Transport TransportProofs Socket Packets PacketsProofs ReceiveProofs.
From S2P Require Import Update UpdateProofs.
Open Scope Z_scope.

(** ** The operations keep their indices *)

(** What holds of the result of a computation, if there is one. *)
Definition returns {E A} (m : M E A) (P : A → Prop) : Prop := ∀ w x w', m w = Some (x, w') → P x.

Section Indices.
Context `{Build} {E : Type} `{!Event aspa_event E}.
Implicit Types (ops : list aspa_update_operation).

Lemma returns_ret {A} (x : A) (P : A → Prop) : P x → returns (E := E) (mret x) P.
Proof. intros HP w y w'. by intros [= <- <-]. Qed.
Lemma returns_bind {A B} (m : M E A) (f : A → M E B) (Q : A → Prop) (P : B → Prop) :
  returns m Q → (∀ x, Q x → returns (f x) P) → returns (m ≫= f) P.
Proof.
  intros Hm Hf w y w'. rewrite M_bind_eval. destruct (m w) as [[x w1]|] eqn:Hx; [|done].
  intros Hy. eapply Hf; [by eapply Hm|done].
Qed.
Lemma returns_any {A} (m : M E A) : returns m (λ _, True).
Proof. done. Qed.

Lemma compute_add_index st existing current :
  returns (E := E) (aspa_compute_add st existing current) (λ '(_, op, _), index op = index current).
Proof.
  unfold aspa_compute_add. eapply returns_bind; [apply returns_any|]. intros [err a] _. cbv zeta.
  case_decide; [|by apply returns_ret]. eapply returns_bind; [apply returns_any|]. intros [err' st'] _.
  case_decide; [|by apply returns_ret]. eapply returns_bind; [apply returns_any|]. intros ? _.
  eapply returns_bind; [apply returns_any|]. intros ? _. by apply returns_ret.
Qed.

Lemma compute_loop_indices array ops pos st :
  returns (E := E) (aspa_compute_loop array ops pos st) (λ '(_, _, ops', _), index <$> ops' = index <$> ops).
Proof.
  remember (length ops) as n eqn:Hn. revert ops pos st Hn.
  induction (lt_wf n) as [n _ IH]. intros [|current rest] pos st ->; [by apply returns_ret|].
  cbn [aspa_compute_loop]. eapply returns_bind; [apply returns_any|]. intros ? _. cbv zeta.
  eapply returns_bind; [apply returns_any|]. intros [err st1] _. case_decide; [|by apply returns_ret].
  eapply returns_bind; [apply returns_any|]. intros existing _.
  assert (∀ op rest' (pos' : nat) st', index op = index current → length rest' = length rest → index <$> rest' = index <$> rest →
    returns (E := E) ('(err, failed, rest, st) ← aspa_compute_loop array rest' pos' st'; mret (err, failed, op :: rest, st))
      (λ '(_, _, ops', _), index <$> ops' = index <$> current :: rest)) as Hnext.
  { intros op rest' pos' st' Hop Hl Hr. eapply returns_bind; [apply (IH (length rest')); [simpl; lia|done]|].
    intros [[[err' failed] rest1] st2] Hi. apply returns_ret. cbn. rewrite Hop. f_equal. etrans; [exact Hi|exact Hr]. }
  destruct (type (set_record current (sort_providers (record current)))).
  - destruct existing as [e|]; [|by apply returns_ret]. case_match; [|by apply returns_ret].
    case_match; [by apply returns_ret|]. by apply Hnext.
  - assert (returns (E := E) ('(err, op, st) ← aspa_compute_add st1 existing (set_record current (sort_providers (record current)));
      if decide (err = RTR_ASPA_SUCCESS) then
        '(err, failed, rest, st) ← aspa_compute_loop array rest (S pos) st; mret (err, failed, op :: rest, st)
      else mret (RTR_ASPA_ERROR, Some pos, op :: rest, st)) (λ '(_, _, ops', _), index <$> ops' = index <$> current :: rest)) as Hadd.
    { eapply returns_bind; [apply compute_add_index|]. intros [[err' op] st2] Hop. case_decide.
      - by apply Hnext.
      - apply returns_ret. cbn. by rewrite Hop. }
    destruct rest as [|next rest']; [exact Hadd|]. case_match; [|exact Hadd].
    destruct (type next); [|by apply returns_ret].
    destruct existing as [e|]; [destruct (customer_asn e =? _)|]; cbv beta iota;
      (eapply returns_bind; [apply (IH (length rest')); [simpl; lia|done]|]);
      intros [[[err' failed] rest1] st2] Hi; apply returns_ret; cbn; by do 2 f_equal.
Qed.

Lemma swap_in_compute_indices t sock ops :
  returns (E := E) (aspa_table_update_swap_in_compute t sock ops None) (λ '(_, _, u),
    ∀ u', u = Some u' → index <$> operations u' = index <$> sort_operations ops).
Proof.
  unfold aspa_table_update_swap_in_compute. destruct ops as [|op ops]; [by apply returns_ret|].
  set (l := op :: ops). eapply returns_bind with (Q := λ u, True); [apply returns_any|]. intros [u|] _; [|by apply returns_ret].
  eapply returns_bind; [apply returns_any|]. intros t1 _. cbv zeta.
  eapply returns_bind; [apply returns_any|]. intros t2 _. eapply returns_bind; [apply returns_any|]. intros t3 _.
  eapply returns_bind; [apply returns_any|]. intros [found t4] _.
  assert (∀ t' : rtr_aspa_table, returns (E := E) (A := rtr_aspa_status * rtr_aspa_table * option aspa_update)
    (mret (RTR_ASPA_ERROR, t', Some (AspaUpdate (sort_operations l) None (node u) (Aspa.new_array u) Null)))
    (λ '(_, _, u0), ∀ u', u0 = Some u' → index <$> operations u' = index <$> sort_operations l)) as Hfail.
  { intros t0. apply returns_ret. by intros u' [= <-]. }
  destruct found as [pos|]; [|apply Hfail]. eapply returns_bind; [apply returns_any|]. intros [na|] _; [|apply Hfail].
  eapply returns_bind; [apply returns_any|]. intros [rp|] _; [|apply Hfail].
  eapply returns_bind; [apply returns_any|]. intros t5 _. eapply returns_bind; [apply returns_any|]. intros n _.
  eapply returns_bind with (Q := λ '(_, _, ops', _, _), index <$> ops' = index <$> sort_operations l).
  { unfold aspa_table_update_compute_internal. eapply returns_bind; [apply returns_any|]. intros ? _.
    eapply returns_bind; [apply returns_any|]. intros [? na1] _. eapply returns_bind; [apply compute_loop_indices|].
    intros [[[err failed] ops'] st] Hi. cbv zeta. case_decide; [|by apply returns_ret].
    do 3 (eapply returns_bind; [apply returns_any|]; intros ? _). by apply returns_ret. }
  intros [[[[res failed] ops'] na1] rp1] Hi. eapply returns_bind; [apply returns_any|]. intros t6 _.
  case_decide; apply returns_ret; by intros u' [= <-].
Qed.

End Indices.

(** ** The operation of a PDU *)

Section AspaPdu.
Context `{Host}.
Implicit Types (b : list Z).

Definition aspa_pdu_ok b : Prop := pdu_ok b ∧ type_of b = ASPA ∧ len_of b mod 4 = 0.
Definition aspa_announces b : bool := Z.land (byte_at b 2) 1 =? 1.
Definition aspa_count b : nat := Z.to_nat ((len_of b - 12) / 4).

Definition aspa_op (i : nat) b : aspa_update_operation :=
  if aspa_announces b
  then AspaOp i RTR_ASPA_ADD
         (AspaRecord (be32 b 8) (aspa_count b) (Some ((λ k, be32 b (12 + 4 * k)) <$> seq 0 (aspa_count b)))) false
  else AspaOp i RTR_ASPA_REMOVE (AspaRecord (be32 b 8) 0 None) false.

(** An announcement without providers. *)
Definition no_providers b : Prop := aspa_announces b = true ∧ aspa_count b = 0%nat.
#[global] Instance no_providers_dec b : Decision (no_providers b).
Proof. unfold no_providers. apply _. Defined.

Lemma get32s_spec p off n (f : nat → Z) :
  (∀ k, (k < n)%nat → get32 p (off + 4 * k) = Some (f k)) → get32s p off n = Some (f <$> seq 0 n).
Proof.
  revert off f. induction n as [|n IH]; intros off f Hf; [done|]. cbn [get32s seq fmap list_fmap].
  pose proof (Hf 0%nat ltac:(lia)) as H0. rewrite Nat.mul_0_r, Nat.add_0_r in H0. rewrite H0. cbn [mbind option_bind].
  rewrite (IH _ (λ k, f (S k))).
  - cbn [mbind option_bind]. do 2 f_equal. rewrite <- (fmap_S_seq 0 n), <- list_fmap_compose. done.
  - intros k Hk. rewrite <- Hf by lia. f_equal. lia.
Qed.

Lemma aspa_pdu_facts b :
  aspa_pdu_ok b →
  12 <= len_of b ∧ get8 (hosted b) 2 = Some (byte_at b 2) ∧ get32 (hosted b) 4 = Some (len_of b) ∧
  rtr_aspa_provider_count (hosted b) = Some (Z.of_nat (aspa_count b)) ∧
  ∀ i, rtr_aspa_pdu_2_aspa_operation (hosted b) i = Some (aspa_op i b).
Proof.
  intros (Hp & Ht & Hmod). pose proof (pdu_length b Hp) as Hl. rewrite Ht in Hl.
  pose proof Hp as (_ & _ & Hmax & _). unfold RTR_MAX_PDU_LEN in Hmax.
  assert (get8 (hosted b) 2 = Some (byte_at b 2)) as H2.
  { apply host_order_byte; [done|unfold len_of in *; lia|]. right. right. split; [lia|by right]. }
  assert (get32 (hosted b) 4 = Some (len_of b)) as H4 by by apply host_order_len.
  assert ((len_of b - 12) mod 2 ^ 64 / 4 = Z.of_nat (aspa_count b)) as Hc.
  { unfold aspa_count. rewrite Z.mod_small by lia. rewrite Z2Nat.id; [done|]. apply Z.div_pos; lia. }
  assert (rtr_aspa_provider_count (hosted b) = Some (Z.of_nat (aspa_count b))) as Hcount.
  { unfold rtr_aspa_provider_count. rewrite H4. cbn [mbind option_bind]. unfold sizeof_aspa. by rewrite Hc. }
  split_and!; try done. intros i. unfold rtr_aspa_pdu_2_aspa_operation, aspa_op, aspa_announces. rewrite H2. cbn [mbind option_bind].
  assert (get32 (hosted b) 8 = Some (be32 b 8)) as ->.
  { apply host_order_get32; [done|]. rewrite Ht. left. }
  cbn [mbind option_bind]. case_match; [|done]. rewrite Hcount. cbn [mbind option_bind]. rewrite Nat2Z.id.
  rewrite (get32s_spec _ _ _ (λ k, be32 b (12 + 4 * k))); [done|]. intros k Hk.
  apply host_order_get32; [done|]. rewrite Ht. right. apply list_elem_of_fmap. exists k. split; [done|].
  apply elem_of_seq. split; [lia|]. simpl. unfold aspa_count in Hk.
  rewrite Z2Nat.inj_div in Hk by lia. rewrite Z2Nat.inj_sub in Hk by lia. exact Hk.
Qed.

Lemma aspa_op_ok i b : op_ok (aspa_op i b).
Proof.
  unfold op_ok, aspa_op. destruct (aspa_announces b); simpl; [|by split_and!].
  split_and!; try done. unfold record_wf. simpl. rewrite length_fmap, length_seq. done.
Qed.

End AspaPdu.

(** ** Computing the update *)

(** The result of the operations on the map of a cache, or the PDU that is refused
    and why. *)
Definition aspa_ops (bs : list (list Z)) : list aspa_update_operation := imap aspa_op bs.

Definition aspa_result (m : gmap Z (list Z)) (bs : list (list Z)) : (pdu_error_type * list Z) + gmap Z (list Z) :=
  match list_find no_providers bs with
  | Some (_, b) => inl (INCORRECT_ASPA_PROVIDER_LIST, b)
  | None =>
      let ops := sort_operations (aspa_ops bs) in
      match ref_run m None 0 ops with
      | inr m' => inr m'
      | inl (e, p) =>
          inl (match e with RTR_ASPA_DUPLICATE_RECORD => DUPLICATE_ANNOUNCEMENT | _ => WITHDRAWAL_OF_UNKNOWN_RECORD end,
               default [] (op ← ops !! p; bs !! index op))
      end
  end.

Lemma ref_run_failure m prev pos ops e p :
  ref_run m prev pos ops = inl (e, p) →
  (pos <= p < pos + length ops)%nat ∧ (e = RTR_ASPA_DUPLICATE_RECORD ∨ e = RTR_ASPA_RECORD_NOT_FOUND).
Proof.
  revert m prev pos. induction ops as [|op ops IH]; intros m prev pos; simpl; [done|]. destruct (type op).
  - destruct (m !! _); [|intros [= <- <-]; split; [lia|by right]]. intros Hr%IH. destruct Hr. split; [lia|done].
  - case_decide; [intros [= <- <-]; split; [lia|by left]|]. intros Hr%IH. destruct Hr. split; [lia|done].
Qed.

Section Compute.
Context `{Build} `{Host} {E : Type} `{!Event aspa_event E} `{!Event tr_event E} `{!Event rtr_event E}.
Implicit Types (s : rtr_socket) (w : world E) (t : rtr_aspa_table) (bs : list (list Z)).

Lemma aspa_operations_spec s bs i w :
  Forall aspa_pdu_ok bs →
  wp (aspa_operations s (hosted <$> bs) i) (λ '(ops, s') w',
    match list_find no_providers bs with
    | None => ops = Some (imap (λ k, aspa_op (i + k)) bs) ∧ s' = s ∧ w' = w
    | Some (_, b) => ops = None ∧ s' = changed s RTR_ERROR_FATAL ∧
        ∃ evs, reports s (error_report s b (len_of b) INCORRECT_ASPA_PROVIDER_LIST []) evs ∧
          runs w (evs ++ state_events s RTR_ERROR_FATAL) w'
    end) w.
Proof.
  intros Hbs. revert i w. induction Hbs as [|b bs Hb Hbs IH]; intros i w; cbn [fmap list_fmap aspa_operations].
  { by wp_step. }
  destruct (aspa_pdu_facts b Hb) as (Hl & -> & H4 & -> & Hop). do 4 wp_step. cbn [list_find].
  destruct (decide (no_providers b)) as [[Ha Hc]|Hnp].
  - unfold aspa_announces in Ha. rewrite Ha, Hc. change (true && (Z.of_nat 0 =? 0)) with true. cbv iota. wp_step. rewrite H4. wp_step. wp_step.
    apply wp_report_fatal; try done; [apply Hb|lia|]. intros w' evs Hw Hrep. wp_step. split_and!; try done.
    exists evs. split; [done|]. by apply runs_talks.
  - assert ((Z.land (byte_at b 2) 1 =? 1) && (Z.of_nat (aspa_count b) =? 0) = false) as ->.
    { apply andb_false_iff. unfold no_providers, aspa_announces in Hnp. destruct (Z.land (byte_at b 2) 1 =? 1); [|by left].
      right. apply Z.eqb_neq. intros Hz. apply Hnp. split; [done|lia]. }
    wp_step. rewrite Hop. wp_step. wp_step. eapply wp_mono; [apply IH|]. intros [ops s'] w' Hres. wp_step.
    destruct (list_find no_providers bs) as [[k b']|]; simpl.
    + by destruct Hres as (-> & -> & ?).
    + destruct Hres as (-> & -> & ->). split_and!; try done. rewrite Nat.add_0_r. do 2 f_equal.
      apply imap_ext. intros k x _. simpl. f_equal. lia.
Qed.

(** The table has a node for the cache. *)
Definition has_node (at_ : option rtr_aspa_table) (sock : socket_ptr) : Prop :=
  match at_ with Some t => is_Some (aspa_store_get_node (store t) sock) | None => False end.

Definition discards t (at' : option rtr_aspa_table) (u : option aspa_update) : Prop :=
  ∀ w, wp (consume_update false at' u) (λ at2 w', ∃ t2, at2 = Some t2 ∧ aspa_table_ok t2 ∧
    (∀ c, cache_map t2 c = cache_map t c) ∧ runs w [] w') w.

Definition applies t (sock : socket_ptr) (m' : gmap Z (list Z)) (bs : list (list Z)) (at' : option rtr_aspa_table)
    (u : option aspa_update) : Prop :=
  ∀ w, no_fail w → wp (consume_update true at' u) (λ at2 w', ∃ t2, at2 = Some t2 ∧ aspa_table_ok t2 ∧
    (∀ c, cache_map t2 c = if decide (c = sock) then m' else cache_map t c) ∧
    (has_node (Some t2) sock ↔ has_node (Some t) sock ∨ bs ≠ []) ∧
    ∃ ops, replay (cache_map t sock) ops = Some m' ∧ runs w (op_notifications t sock ops) w') w.

Definition compute_post s t bs w
  : Z * rtr_socket * option rtr_aspa_table * option aspa_update → world E → Prop := λ '(rv, s', at', u) w',
  discards t at' u ∧
  match aspa_result (cache_map t (self s)) bs with
  | inr m' => rv = RTR_SUCCESS ∧ s' = s ∧ runs w [] w' ∧ applies t (self s) m' bs at' u
  | inl (error, b) => rv = RTR_ERROR ∧ s' = changed s RTR_ERROR_FATAL ∧
      ∃ evs, reports s (error_report s b (len_of b) error []) evs ∧
        runs w (evs ++ state_events s RTR_ERROR_FATAL) w'
  end.

Lemma no_update_spec t : aspa_table_ok t → discards t (Some t) None ∧ ∀ sock, applies t sock (cache_map t sock) [] (Some t) None.
Proof.
  intros Hok. split.
  - intros w. unfold consume_update, aspa_table_update_swap_in_discard, aspa_table_update_swap_in_consume.
    do 3 wp_step. exists t. split_and!; try done; try apply Hok. apply runs_refl.
  - intros sock w Hnf. unfold consume_update, aspa_table_update_swap_in_apply, aspa_table_update_swap_in_consume.
    do 3 wp_step. exists t. split; [done|]. split; [done|]. split.
    + intros c. by case_decide as Hc; [rewrite Hc|].
    + split; [tauto|]. exists []. split; [done|]. apply runs_refl.
Qed.

Lemma pdu_of_index bs op : op ∈ sort_operations (aspa_ops bs) → ∃ b, bs !! index op = Some b.
Proof.
  unfold sort_operations. rewrite merge_sort_Permutation. unfold aspa_ops. intros [k Hk]%list_elem_of_lookup.
  rewrite list_lookup_imap in Hk. destruct (bs !! k) as [b|] eqn:Hb; [|done]. injection Hk as <-.
  exists b. unfold aspa_op. by destruct (aspa_announces b).
Qed.

Lemma compute_update_aspa_spec s t bs w :
  aspa_table_ok t → Forall aspa_pdu_ok bs →
  no_early_replace (cache_map t (self s)) (sort_operations (aspa_ops bs)) → no_fail w →
  wp (rtr_compute_update_aspa_table s (Some t) (hosted <$> bs) None) (compute_post s t bs w) w.
Proof.
  intros Hok Hbs Hearly Hnf. unfold rtr_compute_update_aspa_table.
  destruct bs as [|b0 bs0]; cbn [fmap list_fmap].
  { wp_step. destruct (no_update_spec t Hok) as [Hd Ha]. split; [done|]. split_and!; try done; try apply Ha. apply runs_refl. }
  set (bs := b0 :: bs0) in *. change (hosted b0 :: (hosted <$> bs0)) with (hosted <$> bs).
  wp_step. wp_step. destruct b; [|no_alloc_failure]. simpl negb. cbv iota. wp_step.
  eapply wp_mono; [by apply aspa_operations_spec|]. intros [ops s1] w2 Hops. cbv beta iota.
  unfold compute_post, aspa_result. destruct (list_find no_providers bs) as [[k b]|].
  { destruct Hops as (-> & -> & evs & Hrep & Hw2). wp_step. split; [by apply no_update_spec|]. split_and!; try done.
    exists evs. split; [done|]. eapply (runs_trans _ []); [by apply runs_emits|done]. }
  destruct Hops as (-> & -> & ->). change (imap (λ k, aspa_op (0 + k)) bs) with (aspa_ops bs).
  assert (Forall op_ok (aspa_ops bs)) as Hopok.
  { apply Forall_lookup. intros k op Hk. unfold aspa_ops in Hk. rewrite list_lookup_imap in Hk.
    destruct (bs !! k); [|done]. injection Hk as <-. apply aspa_op_ok. }
  assert (no_fail w') as Hnf' by by eapply emits_no_fail.
  wp_step. destruct (swap_in_compute_spec t (self s) (aspa_ops bs) w') as ([[res t1] u] & w3 & Hrun & Hw3 & Hpend & u' & -> & Hcomp);
    try done.
  exists (res, t1, Some u'), w3. split; [done|]. cbv beta iota.
  pose proof (swap_in_compute_indices t (self s) (aspa_ops bs) _ _ _ Hrun u' eq_refl) as Hidx.
  unfold computed in Hcomp.
  assert (Aspa.new_array u' ≠ Uninit) as Hinit.
  { destruct (ref_run _ None 0 _) as [[e p]|m']; [destruct Hcomp as (_ & _ & _ & ->); done|].
    by destruct Hcomp as (_ & _ & _ & _ & a & -> & _). }
  assert (discards t (Some t1) (Some u')) as Hdis.
  { intros w4. unfold consume_update. wp_step. eapply wp_mono; [by eapply swap_in_discard_spec|].
    intros [t2 u2] w5 (-> & Hok2 & Hrec & Hw5). wp_step. exists t2. split_and!; try done; try apply Hok2; [|by apply runs_emits].
    intros c. unfold cache_map. by rewrite Hrec. }
  assert (runs w [] w3) as Hw.
  { eapply (runs_trans _ []); [by apply runs_emits|by apply runs_emits]. }
  destruct (ref_run (cache_map t (self s)) None 0 (sort_operations (aspa_ops bs))) as [[e p]|m'] eqn:Href.
  - destruct Hcomp as (-> & Hf & _). destruct (ref_run_failure _ _ _ _ _ _ Href) as [Hp He].
    destruct (lookup_lt_is_Some_2 (sort_operations (aspa_ops bs)) p ltac:(lia)) as [op Hop].
    assert (∃ op', operations u' !! p = Some op' ∧ index op' = index op) as (op' & Hop' & Hi).
    { assert ((index <$> operations u') !! p = Some (index op)) as Hl by (rewrite Hidx, list_lookup_fmap, Hop; done).
      rewrite list_lookup_fmap in Hl. destruct (operations u' !! p) as [op'|]; [|done]. injection Hl as Hl. by exists op'. }
    destruct (pdu_of_index bs op) as [b Hb]; [by eapply list_elem_of_lookup_2|].
    assert (failed_op (Some u') = Some op') as Hfo by (unfold failed_op; cbn; rewrite Hf; cbn; exact Hop').
    rewrite Hop. cbn [mbind option_bind default]. rewrite Hb. cbn [default from_option].
    assert (aspa_pdu_ok b) as Hbok by (eapply Forall_lookup_1; [exact Hbs|exact Hb]).
    destruct (aspa_pdu_facts b Hbok) as (Hl & _ & H4 & _). destruct He as [-> | ->]; rewrite Hfo.
    all: do 2 wp_step; rewrite list_lookup_fmap, Hi, Hb; cbn [fmap option_fmap option_map]; do 2 wp_step; rewrite H4; wp_step.
    all: apply wp_report_fatal; try done; [apply Hbok|lia|]; intros w4 evs Hw4 Hrep; wp_step; (split; [done|]);
      split_and!; try done; exists evs; (split; [done|]); eapply (runs_trans _ []); [done|by apply runs_talks].
  - destruct Hcomp as (-> & Hf & Hn & Hrep & a & Hna & Ha & Hm).
    assert (failed_op (Some u') = None) as -> by (unfold failed_op; cbn; by rewrite Hf).
    rewrite decide_True by done. do 3 wp_step. split; [done|]. split_and!; try done.
    intros w4 Hnf4. unfold consume_update. wp_step. eapply wp_mono; [by apply swap_in_apply_spec|].
    intros [t2 u2] w5 (-> & Hok2 & Hrec & Hnode & Hw5). wp_step. exists t2. split; [done|]. split; [done|]. split.
    + intros c. unfold cache_map. rewrite Hrec. by case_decide.
    + split; [split; [by right|done]|]. exists (operations u'). split; [done|]. by apply runs_emits.
Qed.

End Compute.
