(* ===== verification/SyncUpdate.v ===== *)
(** * Updating the tables: the whole update

    All or nothing: either every PDU is applied to its table, or the tables have the
    records they had. *)

From Stdlib Require Import String.
From S2P Require Import Prelude Ip PfxTable PfxTableProofs PfxTableBulk Hashlin Spki SpkiProofs SetOps.
From S2P Require Import AspaArray Aspa AspaUpdate AspaVerification AspaVerificationProofs.
From S2P Require Import AspaUpdateProofs AspaTheorems AspaSwapIn.
From S2P Require Import Pdu PduProofs PduTheorems Transport TransportProofs Socket Packets PacketsProofs ReceiveProofs.
From S2P Require Import Update UpdateProofs UpdateInstances AspaPdus.
Open Scope Z_scope.

Section SyncUpdate.
Context `{Build} `{Host} {E HT : Type} `{!HashTable E HT key_entry} `{!HashTableSpec E HT key_entry}.
Context `{!Event pfx_event E} `{!Event spki_event E} `{!Event aspa_event E}.
Context `{!Event tr_event E} `{!Event rtr_event E}.
Implicit Types (s : rtr_socket) (w : world E) (t : tables HT) (bs : list (list Z)).
Implicit Types (pt : option rtr_pfx_table) (st : option (rtr_spki_table HT)).

(** ** The prefix table *)

Definition prefix_ops s bs : list (update rtr_pfx_record) := prefix_update (self s) <$> bs.
Definition key_ops s bs : list (update rtr_spki_record) := key_update (self s) <$> bs.

Lemma undo_prefixes_spec s pt bs4 bs6 w :
  pfx_ok pt → Forall prefix_pdu_ok (bs4 ++ bs6) → Forall (λ u, u ≠ Invalid) (prefix_ops s (bs4 ++ bs6)) →
  no_fail w →
  wp (rtr_undo_update_pfx_table_batch s pt (hosted <$> bs4) (hosted <$> bs6)) (λ '(rv, pt') w',
    rv = RTR_SUCCESS ∧ pfx_ok pt' ∧ (∀ u, pfx_told (E := E) pt' u = pfx_told pt u) ∧
    pfx_records pt' ≡ₚ undo (prefix_ops s (bs4 ++ bs6)) (pfx_records pt) ∧ ∃ evs, runs w evs w') w.
Proof.
  intros Hok [Hb4 Hb6]%Forall_app Hinv Hnf. unfold prefix_ops in *. rewrite fmap_app in *.
  apply Forall_app in Hinv as [Hi4 Hi6]. unfold rtr_undo_update_pfx_table_batch, undo_pfx_pdus. wp_step.
  eapply wp_mono; [by apply (undo_pdus_spec (U := pfx_updatable))|].
  intros [rv pt1] w1 (-> & Hok1 & Ht1 & Hp1 & _ & evs1 & Hw1). cbv beta iota.
  rewrite (proj2 (Z.eqb_neq RTR_SUCCESS RTR_ERROR)) by done.
  eapply wp_mono; [apply (undo_pdus_spec (U := pfx_updatable)); try done|].
  { by eapply runs_no_fail. }
  intros [rv2 pt2] w2 (-> & Hok2 & Ht2 & Hp2 & _ & evs2 & Hw2). split_and!; try done.
  - intros u. etrans; [apply Ht2|apply Ht1].
  - rewrite undo_app. etrans; [exact Hp2|]. by apply undo_perm.
  - eexists. by eapply runs_trans.
Qed.

(** ** The reference *)

Definition aspa_ok (at_ : option rtr_aspa_table) : Prop :=
  match at_ with Some a => aspa_table_ok a | None => False end.
Definition aspa_map (at_ : option rtr_aspa_table) (c : socket_ptr) : gmap Z (list Z) :=
  match at_ with Some a => cache_map a c | None => ∅ end.

Definition tables_ok t : Prop :=
  pfx_ok (pfx_table t) ∧ keys_ok (E := E) (spki_table t) ∧ aspa_ok (aspa_table t).

(** The PDUs of a response: prefixes of both families, router keys, ASPAs. *)
Record response := Response {
  r_ipv4 : list (list Z);
  r_ipv6 : list (list Z);
  r_keys : list (list Z);
  r_aspas : list (list Z) }.

Definition pdus_ok (r : response) : Prop :=
  Forall prefix_pdu_ok (r_ipv4 r ++ r_ipv6 r) ∧ Forall key_pdu_ok (r_keys r) ∧ Forall aspa_pdu_ok (r_aspas r).

Definition response_ok s t (r : response) : Prop :=
  pdus_ok r ∧ keys_fit (E := E) (spki_table t) (length (r_keys r) + length (r_keys r)) ∧
  no_early_replace (aspa_map (aspa_table t) (self s)) (sort_operations (aspa_ops (r_aspas r))).

(** No record occurs twice in the PDUs. *)
Definition distinct s (r : response) : Prop :=
  NoDup (element <$> prefix_ops s (r_ipv4 r ++ r_ipv6 r)) ∧ NoDup (element <$> key_ops s (r_keys r)).

(** The prefixes, keys and ASPAs after a response to a cache that has the given ones,
    if all of it is accepted. *)
Definition outcome s (r : response) (ps : list rtr_pfx_record) (ks : list rtr_spki_record) (m : gmap Z (list Z))
  : option (list rtr_pfx_record * list rtr_spki_record * gmap Z (list Z)) :=
  match run (prefix_ops s (r_ipv4 r ++ r_ipv6 r)) ps, run (key_ops s (r_keys r)) ks, aspa_result m (r_aspas r) with
  | inr ps, inr ks, inr m => Some (ps, ks, m)
  | _, _, _ => None
  end.

(** The contents of the tables after a response. *)
Definition accepted s t (r : response) : option (list rtr_pfx_record * list rtr_spki_record * gmap Z (list Z)) :=
  outcome s r (pfx_records (pfx_table t)) (key_records (spki_table t)) (aspa_map (aspa_table t) (self s)).

Lemma outcome_perm s r ps ps' ks ks' m :
  ps ≡ₚ ps' → ks ≡ₚ ks' →
  match outcome s r ps ks m, outcome s r ps' ks' m with
  | Some (p, k, m1), Some (p', k', m2) => p ≡ₚ p' ∧ k ≡ₚ k' ∧ m1 = m2
  | None, None => True
  | _, _ => False
  end.
Proof.
  intros Hp Hk. unfold outcome. pose proof (run_perm (prefix_ops s (r_ipv4 r ++ r_ipv6 r)) _ _ Hp) as Hrp.
  pose proof (run_perm (key_ops s (r_keys r)) _ _ Hk) as Hrk.
  destruct (run _ ps), (run _ ps'); try done; destruct (run _ ks), (run _ ks'); try done.
  by destruct (aspa_result m _).
Qed.

(** The same records in all tables. *)
Definition same_records t t' : Prop :=
  pfx_records (pfx_table t') ≡ₚ pfx_records (pfx_table t) ∧
  key_records (spki_table t') ≡ₚ key_records (spki_table t) ∧
  ∀ c, aspa_map (aspa_table t') c = aspa_map (aspa_table t) c.

(** ** Updating *)

(** What [update_tables] leaves: the update of the ASPA table can still be applied or
    discarded. *)
Definition update_tables_post s t (r : response) w
  : bool * bool * rtr_socket * tables HT * option aspa_update → world E → Prop :=
  λ '(proceed, undo_failed, s', t', u) w',
  pfx_ok (pfx_table t') ∧ keys_ok (E := E) (spki_table t') ∧ (∃ a, aspa_table t = Some a ∧ discards a (aspa_table t') u) ∧
  match accepted s t r with
  | Some (ps, ks, m) =>
      proceed = true ∧ s' = s ∧ pfx_records (pfx_table t') ≡ₚ ps ∧ key_records (spki_table t') ≡ₚ ks ∧
      (∃ a, aspa_table t = Some a ∧ applies a (self s) m (r_aspas r) (aspa_table t') u) ∧
      runs w (all_told (pfx_table t) (prefix_ops s (r_ipv4 r ++ r_ipv6 r)) ++
              all_told (spki_table t) (key_ops s (r_keys r))) w'
  | None =>
      proceed = false ∧ undo_failed = false ∧ state_only s s' ∧
      (distinct s r → pfx_records (pfx_table t') ≡ₚ pfx_records (pfx_table t) ∧
                      key_records (spki_table t') ≡ₚ key_records (spki_table t)) ∧
      ∃ evs, runs w evs w'
  end.

Lemma all_told_app {T A} `{!EqDecision A} `{!Updatable (E := E) T A} (t : T) (us us' : list (update A)) :
  all_told (E := E) t (us ++ us') = all_told t us ++ all_told t us'.
Proof. apply bind_app. Qed.

Lemma all_told_same {T A} `{!EqDecision A} `{!Updatable (E := E) T A} (t t' : T) (us : list (update A)) :
  (∀ u, up_told t' u = up_told t u) → all_told (E := E) t' us = all_told t us.
Proof. intros Ht. by apply list_bind_ext. Qed.

Lemma undo_keys_spec s st bs w :
  keys_ok (E := E) st → Forall key_pdu_ok bs → Forall (λ u, u ≠ Invalid) (key_ops s bs) →
  keys_fit (E := E) st (length bs) → no_fail w →
  wp (rtr_undo_update_spki_table_batch s st (hosted <$> bs)) (λ '(rv, st') w',
    rv = RTR_SUCCESS ∧ keys_ok (E := E) st' ∧ key_records st' ≡ₚ undo (key_ops s bs) (key_records st) ∧ ∃ evs, runs w evs w') w.
Proof.
  intros Hok Hb Hi Hf Hnf.
  eapply wp_mono; [by apply (undo_pdus_spec (U := keys_updatable))|].
  intros [rv st'] w' (-> & Hok' & _ & Hp & _ & Hw). by split_and!.
Qed.

(** Undoing a part [us'] of the updates brings back what there was, if the elements of
    all of them are distinct. *)
Lemma undone {A} `{!EqDecision A} (us : list (update A)) n (l m l1 l' : list A) :
  NoDup l → run (take n us) l = inr m → l1 ≡ₚ m → l' ≡ₚ undo (take n us) l1 → NoDup (element <$> us) → l' ≡ₚ l.
Proof.
  intros Hl Hr Hm Hu Hnd. rewrite Hu, (undo_perm _ _ _ Hm). apply undo_run; try done.
  rewrite <- (take_drop n us), fmap_app in Hnd. by apply NoDup_app in Hnd as (? & _ & _).
Qed.

Lemma undo_prefixes_back s pt0 pt bs bs4 bs6 n m w :
  pfx_ok pt0 → pfx_ok pt → bs4 ++ bs6 = take n bs → Forall prefix_pdu_ok bs → no_fail w →
  run (prefix_ops s (take n bs)) (pfx_records pt0) = inr m → pfx_records pt ≡ₚ m →
  wp (rtr_undo_update_pfx_table_batch s pt (hosted <$> bs4) (hosted <$> bs6)) (λ '(rv, pt') w',
    rv = RTR_SUCCESS ∧ pfx_ok pt' ∧
    (NoDup (element <$> prefix_ops s bs) → pfx_records pt' ≡ₚ pfx_records pt0) ∧ ∃ evs, runs w evs w') w.
Proof.
  intros Hok0 Hok Hbs Hb Hnf Hrun Hm. eapply wp_mono.
  { apply undo_prefixes_spec; try done; rewrite Hbs; [by apply Forall_take|by eapply run_valid]. }
  intros [rv pt'] w' (-> & Hok' & _ & Hp & Hw). split_and!; try done. intros Hnd.
  unfold prefix_ops in *. rewrite Hbs, fmap_take in *. eapply undone; try done.
  destruct pt0; [by apply records_nodup|done].
Qed.

Lemma undo_both_spec s t0 t bs bs4 bs6 n m kbs k km w :
  pfx_ok (pfx_table t0) → keys_ok (E := E) (spki_table t0) → pfx_ok (pfx_table t) → keys_ok (E := E) (spki_table t) →
  bs4 ++ bs6 = take n bs → Forall prefix_pdu_ok bs → Forall key_pdu_ok kbs →
  keys_fit (E := E) (spki_table t) (length (take k kbs)) → no_fail w →
  run (prefix_ops s (take n bs)) (pfx_records (pfx_table t0)) = inr m → pfx_records (pfx_table t) ≡ₚ m →
  run (key_ops s (take k kbs)) (key_records (spki_table t0)) = inr km → key_records (spki_table t) ≡ₚ km →
  wp (undo_both s t (hosted <$> bs4) (hosted <$> bs6) (hosted <$> take k kbs)) (λ '(failed, t') w',
    failed = false ∧ pfx_ok (pfx_table t') ∧ keys_ok (E := E) (spki_table t') ∧ aspa_table t' = aspa_table t ∧
    (NoDup (element <$> prefix_ops s bs) → pfx_records (pfx_table t') ≡ₚ pfx_records (pfx_table t0)) ∧
    (NoDup (element <$> key_ops s kbs) → key_records (spki_table t') ≡ₚ key_records (spki_table t0)) ∧
    ∃ evs, runs w evs w') w.
Proof.
  intros Hp0 Hk0 Hp Hk Hbs Hb Hkb Hf Hnf Hrun Hm Hkrun Hkm. unfold undo_both. wp_step. eapply wp_mono.
  { apply undo_keys_spec; try done; [by apply Forall_take|by eapply run_valid]. }
  intros [r1 st'] w1 (-> & Hk' & Hkr & evs1 & Hw1). wp_step.
  eapply wp_mono; [eapply (undo_prefixes_back s (pfx_table t0)); try done; by eapply runs_no_fail|].
  intros [r2 pt'] w2 (-> & Hp' & Hpr & evs2 & Hw2). wp_step. split_and!; try done.
  - intros Hnd. simpl. unfold key_ops in *. rewrite fmap_take in *. eapply undone; try done.
    destruct (spki_table t0); [by apply key_records_nodup|done].
  - eexists. by eapply runs_trans.
Qed.

(** One of the loops over stored PDUs, in terms of a set [l] with the records of the
    table. *)
Lemma update_set_spec {T A} `{!EqDecision A} `{U : !Updatable (E := E) T A} s (t : T) bs (l : list A) w :
  up_ok t → Forall up_pdu bs → up_fits t (length bs + length bs)%nat → no_fail w → up_records t ≡ₚ l →
  wp (update_pdus up_update s t (hosted <$> bs) 0) (λ '(failed, s', t') w',
    up_ok t' ∧ (∀ u, up_told t' u = up_told t u) ∧
    match run (ops_of s bs) l with
    | inr l' => failed = None ∧ s' = s ∧ up_records t' ≡ₚ l' ∧ runs w (all_told t (ops_of s bs)) w' ∧
        up_fits t' (length bs)
    | inl k => failed = Some k ∧ state_only s s' ∧ (k < length bs)%nat ∧
        (∃ l', run (ops_of s (take k bs)) l = inr l' ∧ up_records t' ≡ₚ l') ∧
        (∃ evs, runs w evs w') ∧ up_fits t' (length (take k bs))
    end) w.
Proof.
  intros Hok Hb Hf Hnf Hl. eapply wp_mono; [apply update_pdus_spec; try done|].
  { by eapply (up_fits_mono t (length bs)). }
  intros [[failed s'] t'] w' (Hok' & Ht & Hres). split; [done|]. split; [done|].
  pose proof (run_perm (ops_of s bs) _ _ Hl) as Hrp.
  destruct (run (ops_of s bs) (up_records t)) as [k|m] eqn:Hr, (run (ops_of s bs) l) as [k'|m'] eqn:Hr'; try done.
  - subst k'. destruct Hres as (-> & Hs & Hk & (b & Hbk & _ & evs & _ & _ & Hw) & Hf').
    assert (k < length bs)%nat by by eapply lookup_lt_Some.
    split_and!; try done.
    + destruct (run_prefix _ _ _ Hr') as [_ [l' Hl']]. exists l'.
      unfold ops_of in *. rewrite fmap_take. split; [done|].
      pose proof (run_perm (take k (up_op (self s) <$> bs)) _ _ Hl) as Hrp'. rewrite Hl' in Hrp'.
      destruct (run (take k _) (up_records t)) as [|l''] eqn:Hl''; [done|]. rewrite (Hk l''); done.
    + by eexists.
    + apply Hf' in Hf. rewrite length_take.
      apply (up_fits_mono t' (length bs - S k + length bs - k `min` length bs)%nat).
      by replace (length bs - S k + length bs - k `min` length bs + k `min` length bs)%nat with (length bs - S k + length bs)%nat by lia.
  - destruct Hres as (-> & -> & Hm & Hw & Hf'). split_and!; try done.
    + by rewrite Hm.
    + by apply Hf'.
Qed.

Lemma accepted_none_prefix s t r k :
  run (prefix_ops s (r_ipv4 r ++ r_ipv6 r)) (pfx_records (pfx_table t)) = inl k → accepted s t r = None.
Proof. unfold accepted, outcome. by intros ->. Qed.

Lemma prefix_ops_state s s' bs : state_only s s' → prefix_ops s' bs = prefix_ops s bs.
Proof. intros [-> | ->]; [done|]. unfold changed. by case_decide. Qed.
Lemma key_ops_state s s' bs : state_only s s' → key_ops s' bs = key_ops s bs.
Proof. intros [-> | ->]; [done|]. unfold changed. by case_decide. Qed.

(** The prefixes, or the keys, of the response are applied: the tables were [t0]. *)
Definition prefixes_applied s t0 (r : response) t l w0 w : Prop :=
  run (prefix_ops s (r_ipv4 r ++ r_ipv6 r)) (pfx_records (pfx_table t0)) = inr l ∧
  pfx_ok (pfx_table t) ∧ pfx_records (pfx_table t) ≡ₚ l ∧ aspa_table t = aspa_table t0 ∧
  runs w0 (all_told (pfx_table t0) (prefix_ops s (r_ipv4 r ++ r_ipv6 r))) w.
Definition keys_applied s t0 (r : response) t l w0 w : Prop :=
  run (key_ops s (r_keys r)) (key_records (spki_table t0)) = inr l ∧
  keys_ok (E := E) (spki_table t) ∧ key_records (spki_table t) ≡ₚ l ∧
  keys_fit (E := E) (spki_table t) (length (r_keys r)) ∧
  runs w0 (all_told (spki_table t0) (key_ops s (r_keys r))) w.

(** Everything is undone after a failure. *)
Lemma refused_post s s1 t0 (r : response) t u l k km w0 evs w :
  tables_ok t0 → pdus_ok r → state_only s s1 → no_fail w → runs w0 evs w →
  accepted s t0 r = None → (∃ a, aspa_table t0 = Some a ∧ discards a (aspa_table t) u) →
  pfx_ok (pfx_table t) → keys_ok (E := E) (spki_table t) → keys_fit (E := E) (spki_table t) (length (take k (r_keys r))) →
  run (prefix_ops s (r_ipv4 r ++ r_ipv6 r)) (pfx_records (pfx_table t0)) = inr l → pfx_records (pfx_table t) ≡ₚ l →
  run (key_ops s (take k (r_keys r))) (key_records (spki_table t0)) = inr km → key_records (spki_table t) ≡ₚ km →
  wp ('(undo_failed, t) ← undo_both s1 t (hosted <$> r_ipv4 r) (hosted <$> r_ipv6 r) (hosted <$> take k (r_keys r));
      mret (false, undo_failed, s1, t, u)) (update_tables_post s t0 r w0) w.
Proof.
  intros (Hp0 & Hk0 & _) (Hbp & Hbk & _) Hs1 Hnf Hw Hacc Hdis Hp Hk Hfit Hrp Hl Hrk Hkl. wp_step.
  eapply wp_mono; [eapply (undo_both_spec s1 t0 t (r_ipv4 r ++ r_ipv6 r) (r_ipv4 r) (r_ipv6 r)
    (length (r_ipv4 r ++ r_ipv6 r)) l (r_keys r) k km); try done|].
  { by rewrite firstn_all. }
  { by rewrite firstn_all, (prefix_ops_state s). }
  { by rewrite (key_ops_state s). }
  intros [failed t'] w7 (-> & Hp' & Hk' & Ha' & Hback & Hkback & evs7 & Hw7). wp_step. unfold update_tables_post.
  rewrite Hacc. split_and!; try done; [by rewrite Ha'| |eexists; by eapply runs_trans].
  intros [Hd Hdk]. rewrite <- (prefix_ops_state s s1) in Hd by done. rewrite <- (key_ops_state s s1) in Hdk by done.
  split; [by apply Hback|by apply Hkback].
Qed.

Lemma update_aspas_spec s t0 t r l lk w0 w1 w :
  tables_ok t0 → response_ok s t0 r → no_fail w → prefixes_applied s t0 r t l w0 w1 →
  keys_applied s t0 r t lk w1 w →
  wp (update_aspas s t (hosted <$> r_ipv4 r) (hosted <$> r_ipv6 r) (hosted <$> r_keys r) (hosted <$> r_aspas r))
    (update_tables_post s t0 r w0) w.
Proof.
  intros Hok0 (Hpdus & Hfit0 & Hearly) Hnf (Hrp & Hp & Hl & Hat & Hw1) (Hrk & Hk & Hlk & Hfit & Hw2).
  pose proof Hok0 as (_ & _ & Ha). pose proof Hpdus as (_ & _ & Hba). unfold update_aspas. wp_step. rewrite Hat.
  destruct (aspa_table t0) as [a|] eqn:Hat0; [|done].
  eapply wp_mono; [by apply compute_update_aspa_spec|].
  intros [[[rv sa] at'] u] wa (Hdis & Hresa). cbv beta iota.
  destruct (aspa_result (cache_map a (self s)) (r_aspas r)) as [[error b]|m'] eqn:Hra.
  - destruct Hresa as (-> & -> & evsa & _ & Hwa). rewrite Z.eqb_refl. rewrite <- (firstn_all (r_keys r)) at 1.
    eapply (refused_post s _ t0 r _ u l (length (r_keys r)) lk); simpl; try done.
    + by right.
    + by eapply runs_no_fail.
    + eapply runs_trans; [exact Hw1|]. by eapply runs_trans.
    + unfold accepted, outcome. rewrite Hrp, Hrk, Hat0. simpl. by rewrite Hra.
    + rewrite Hat0. by exists a.
    + by rewrite firstn_all.
    + by rewrite firstn_all.
  - destruct Hresa as (-> & -> & Hwa & Happ). rewrite (proj2 (Z.eqb_neq RTR_SUCCESS RTR_ERROR)) by done. wp_step.
    unfold update_tables_post. simpl.
    assert (accepted s t0 r = Some (l, lk, m')) as ->.
    { unfold accepted, outcome. rewrite Hrp, Hrk, Hat0. simpl. by rewrite Hra. }
    rewrite Hat0. split_and!; try done; [by exists a|by exists a|].
    pose proof (runs_trans _ _ _ _ _ Hw1 (runs_trans _ _ _ _ _ Hw2 Hwa)) as Hw. by rewrite app_nil_r in Hw.
Qed.

Lemma no_update_discards t0 : aspa_ok (aspa_table t0) → ∃ a, aspa_table t0 = Some a ∧ discards a (aspa_table t0) None.
Proof.
  intros Ha. destruct (aspa_table t0) as [a|]; [|done]. exists a. split; [done|].
  by destruct (no_update_spec (E := E) a Ha) as [? _].
Qed.

Lemma update_keys_spec s t0 t r l w0 w :
  tables_ok t0 → response_ok s t0 r → no_fail w → spki_table t = spki_table t0 →
  prefixes_applied s t0 r t l w0 w →
  wp (update_keys s t (hosted <$> r_ipv4 r) (hosted <$> r_ipv6 r) (hosted <$> r_keys r) (hosted <$> r_aspas r))
    (update_tables_post s t0 r w0) w.
Proof.
  intros Hok0 Hr Hnf Hst Happ. pose proof Hok0 as (_ & Hk0 & Ha0). pose proof Hr as (Hpdus & Hfit & _).
  pose proof Hpdus as (_ & Hbk & _). pose proof Happ as (Hrp & Hp & Hl & Hat & Hw1).
  unfold update_keys, update_spki_pdus. wp_step. rewrite Hst.
  eapply wp_mono; [by apply (update_set_spec (U := keys_updatable) s _ (r_keys r) (key_records (spki_table t0)))|].
  intros [[fk sk] stk] wk (Hokk & Htk & Hresk). cbv beta iota. simpl in Hokk.
  change (ops_of s (r_keys r)) with (key_ops s (r_keys r)) in Hresk.
  destruct (run (key_ops s (r_keys r)) (key_records (spki_table t0))) as [k|lk] eqn:Hrk.
  - destruct Hresk as (-> & Hsk & Hkk & (l' & Hrun & Hl') & (evsk & Hwk) & Hfk). rewrite <- fmap_take.
    eapply (refused_post s sk t0 r _ None l k l'); simpl; try done.
    + by eapply runs_no_fail.
    + by eapply runs_trans.
    + unfold accepted, outcome. by rewrite Hrp, Hrk.
    + rewrite Hat. by apply no_update_discards.
  - destruct Hresk as (-> & -> & Hlk & Hwk & Hfk).
    eapply (update_aspas_spec s t0 _ r l lk w0 w); try done. by eapply runs_no_fail.
Qed.

Lemma refused_prefixes s s1 t0 (r : response) pt bs4 bs6 n m w0 evs w :
  tables_ok t0 → pdus_ok r → state_only s s1 → no_fail w → runs w0 evs w → accepted s t0 r = None →
  bs4 ++ bs6 = take n (r_ipv4 r ++ r_ipv6 r) → pfx_ok pt →
  run (prefix_ops s (take n (r_ipv4 r ++ r_ipv6 r))) (pfx_records (pfx_table t0)) = inr m → pfx_records pt ≡ₚ m →
  wp ('(res, pt) ← rtr_undo_update_pfx_table_batch s1 pt (hosted <$> bs4) (hosted <$> bs6);
      mret (false, res =? RTR_ERROR, s1, Tables pt (spki_table t0) (aspa_table t0), None))
    (update_tables_post s t0 r w0) w.
Proof.
  intros (Hp0 & Hk0 & Ha0) (Hbp & _) Hs1 Hnf Hw Hacc Hbs Hp Hrun Hm. wp_step.
  eapply wp_mono; [eapply (undo_prefixes_back s1 (pfx_table t0) pt (r_ipv4 r ++ r_ipv6 r)); try done|].
  { by rewrite (prefix_ops_state s). }
  intros [rv pt'] w5 (-> & Hok' & Hback & evs5 & Hw5). wp_step. unfold update_tables_post. simpl. rewrite Hacc.
  split_and!; try done; [by apply no_update_discards| |eexists; by eapply runs_trans].
  intros [Hd _]. split; [|done]. apply Hback. by rewrite (prefix_ops_state s).
Qed.

Lemma update_tables_spec s t r w :
  tables_ok t → response_ok s t r → no_fail w →
  wp (update_tables s t (hosted <$> r_ipv4 r) (hosted <$> r_ipv6 r) (hosted <$> r_keys r) (hosted <$> r_aspas r))
    (update_tables_post s t r w) w.
Proof.
  intros Hok Hr Hnf. pose proof Hok as (Hp & _ & _). pose proof Hr as (Hpdus & _ & _).
  pose proof Hpdus as ((Hb4 & Hb6)%Forall_app & _ & _). unfold update_tables, update_pfx_pdus. wp_step.
  eapply wp_mono; [by apply (update_set_spec (U := pfx_updatable) s _ (r_ipv4 r) (pfx_records (pfx_table t)))|].
  intros [[f4 s4] pt4] w4 (Hok4 & Ht4 & Hres4). cbv beta iota. simpl in Hok4.
  assert (∀ bs, run (prefix_ops s (r_ipv4 r ++ bs)) (pfx_records (pfx_table t)) =
    match run (prefix_ops s (r_ipv4 r)) (pfx_records (pfx_table t)) with
    | inl k => inl k
    | inr l4 => match run (prefix_ops s bs) l4 with inl k => inl (length (r_ipv4 r) + k)%nat | inr l => inr l end
    end) as Hr46.
  { intros bs. unfold prefix_ops. rewrite fmap_app, run_app. by rewrite length_fmap. }
  change (ops_of s (r_ipv4 r)) with (prefix_ops s (r_ipv4 r)) in Hres4.
  destruct (run (prefix_ops s (r_ipv4 r)) (pfx_records (pfx_table t))) as [k|l4] eqn:Hr4.
  { destruct Hres4 as (-> & Hs4 & Hk4 & (l' & Hrun & Hl') & (evs4 & Hw4) & _). rewrite <- fmap_take.
    eapply (refused_prefixes s s4 t r pt4 (take k (r_ipv4 r)) [] k l'); simpl; try done.
    - by eapply runs_no_fail.
    - by eapply accepted_none_prefix.
    - by rewrite app_nil_r, take_app_le by lia.
    - by rewrite take_app_le by lia. }
  destruct Hres4 as (-> & -> & Hl4 & Hw4 & _). wp_step.
  eapply wp_mono; [apply (update_set_spec (U := pfx_updatable) s pt4 (r_ipv6 r) l4); try done; by eapply runs_no_fail|].
  intros [[f6 s6] pt6] w6 (Hok6 & Ht6 & Hres6). cbv beta iota. simpl in Hok6.
  change (ops_of s (r_ipv6 r)) with (prefix_ops s (r_ipv6 r)) in Hres6. specialize (Hr46 (r_ipv6 r)) as Hrun46.
  destruct (run (prefix_ops s (r_ipv6 r)) l4) as [k|l6] eqn:Hr6.
  - destruct Hres6 as (-> & Hs6 & Hk6 & (l' & Hrun & Hl') & (evs6 & Hw6) & _). rewrite <- fmap_take.
    eapply (refused_prefixes s s6 t r pt6 (r_ipv4 r) (take k (r_ipv6 r)) (length (r_ipv4 r) + k) l'); simpl; try done.
    + eapply runs_no_fail; [exact Hw6|]. by eapply runs_no_fail.
    + by eapply runs_trans.
    + by eapply accepted_none_prefix.
    + by rewrite take_app_add.
    + rewrite take_app_add, Hr46. change (prefix_ops s (take k (r_ipv6 r))) with (ops_of (U := pfx_updatable) s (take k (r_ipv6 r))).
      by rewrite Hrun.
  - destruct Hres6 as (-> & -> & Hl6 & Hw6 & _).
    eapply (update_keys_spec s t _ r l6 w); try done.
    { eapply runs_no_fail; [exact Hw6|]. by eapply runs_no_fail. }
    split_and!; try done. pose proof (runs_trans _ _ _ _ _ Hw4 Hw6) as Hw. rewrite (all_told_same (pfx_table t) pt4) in Hw by done.
    unfold prefix_ops. rewrite fmap_app, all_told_app. exact Hw.
Qed.

Definition sync_update_post s t (r : response) (sn : Z) w
  : Z * rtr_socket * tables HT → world E → Prop := λ '(rv, s', t') w',
  tables_ok t' ∧
  match accepted s t r with
  | Some (ps, ks, m) =>
      rv = RTR_SUCCESS ∧ s' = set_serial_number s sn ∧
      pfx_records (pfx_table t') ≡ₚ ps ∧ key_records (spki_table t') ≡ₚ ks ∧
      (∀ c, aspa_map (aspa_table t') c = if decide (c = self s) then m else aspa_map (aspa_table t) c) ∧
      (has_node (aspa_table t') (self s) ↔ has_node (aspa_table t) (self s) ∨ r_aspas r ≠ []) ∧
      ∃ ops a, aspa_table t = Some a ∧ replay (aspa_map (aspa_table t) (self s)) ops = Some m ∧
        runs w (all_told (pfx_table t) (prefix_ops s (r_ipv4 r ++ r_ipv6 r)) ++
                all_told (spki_table t) (key_ops s (r_keys r)) ++ op_notifications a (self s) ops) w'
  | None =>
      rv = RTR_ERROR ∧ s' = changed s RTR_ERROR_FATAL ∧ (distinct s r → same_records t t') ∧
      ∃ evs, runs w evs w'
  end.

Lemma changed_twice (s : rtr_socket) (x : rtr_socket_state) : changed (changed s x) x = changed s x.
Proof.
  unfold changed. destruct (decide (state s = RTR_SHUTDOWN)) as [Hs|Hs]; [by rewrite decide_True|].
  by case_decide.
Qed.

Lemma sync_update_tables_spec s t r eod sn w :
  tables_ok t → response_ok s t r → no_fail w → get32 eod 8 = Some sn →
  wp (rtr_sync_update_tables s t (hosted <$> r_ipv4 r) (hosted <$> r_ipv6 r) (hosted <$> r_keys r)
        (hosted <$> r_aspas r) eod) (sync_update_post s t r sn w) w.
Proof.
  intros Hok Hr Hnf Hsn. unfold rtr_sync_update_tables. wp_step.
  eapply wp_mono; [by apply update_tables_spec|].
  intros [[[[proceed undo_failed] s1] t1] u] w1 (Hp1 & Hk1 & (a & Hta & Hdis) & Hres). cbv beta iota.
  unfold sync_update_post. destruct (accepted s t r) as [[[ps ks] m]|].
  - destruct Hres as (-> & -> & Hps & Hks & (a' & Hta' & Happ) & Hw1). rewrite Hta in Hta'. injection Hta' as <-.
    wp_step. eapply wp_mono; [apply Happ; by eapply runs_no_fail|].
    intros at2 w2 (a2 & -> & Hok2 & Hm & Hnode & ops & Hops & Hw2). cbv beta. simpl negb. cbv iota zeta.
    wp_step. rewrite Hsn. wp_step. wp_step.
    split; [done|]. do 4 (split; [done|]). rewrite Hta. do 2 (split; [done|]). exists ops, a. do 2 (split; [done|]).
    rewrite app_assoc. by eapply runs_trans.
  - destruct Hres as (-> & -> & Hs1 & Hback & evs & Hw1). wp_step. eapply wp_mono; [apply Hdis|].
    intros at2 w2 (a2 & -> & Hok2 & Hm & Hw2). cbv beta. simpl negb. cbv iota zeta. wp_step.
    apply wp_change_state. intros w3 Hw3. wp_step. split; [done|]. split; [done|]. split; [|split].
    + destruct Hs1 as [-> | ->]; [done|apply changed_twice].
    + intros Hd. destruct (Hback Hd) as [? ?]. split_and!; try done. rewrite Hta. done.
    + eexists. eapply runs_trans; [exact Hw1|]. eapply runs_trans; [exact Hw2|by apply runs_talks].
Qed.

End SyncUpdate.
