(* ===== verification/UpdateTheorems.v ===== *)
(** * Updating the tables: the theorems *)

From Stdlib Require Import String.
From S2P Require Import Prelude Ip PfxTable PfxTableProofs PfxTableBulk Hashlin HashlinProofs Spki SpkiProofs SetOps.
From S2P Require Import AspaArray Aspa AspaUpdate AspaVerification AspaVerificationProofs.
From S2P Require Import AspaUpdateProofs AspaTheorems AspaSwapIn.
From S2P Require Import Pdu PduProofs PduTheorems Transport TransportProofs Socket Packets PacketsProofs ReceiveProofs.
From S2P Require Import Update UpdateProofs UpdateInstances AspaPdus SyncUpdate.
Open Scope Z_scope.

Section UpdateTheorems.
Context `{Build} `{Host} {E HT : Type} `{!HashTable E HT key_entry} `{!HashTableSpec E HT key_entry}.
Context `{!Event pfx_event E} `{!Event spki_event E} `{!Event aspa_event E}.
Context `{!Event tr_event E} `{!Event rtr_event E}.

(** C8: The answer of a cache updates the three tables as a whole.  Assumptions: its PDUs
    are well-formed and their prefixes have no host bits, the router key table has room for
    the keys, no ASPA of the cache is replaced by an announcement that is followed, in the
    order of the customers, by one of another customer, and memory lasts.  If every PDU can
    be applied, in order, to the records there are, the tables hold the result, the socket
    has the serial number of the End of Data PDU, and the clients are told each change
    once.  If one cannot, the call fails, the socket is in the state of a fatal error with
    its serial number as it was and, when no prefix or key occurs twice in the answer, the
    tables have the records they had. *)
Theorem sync_update_correct (s : rtr_socket) (t : tables HT) (r : response) (eod : buffer) (sn : Z) (w : world E) :
  tables_ok (E := E) t → response_ok (E := E) s t r → no_fail w → get32 eod 8 = Some sn →
  wp (rtr_sync_update_tables s t (hosted <$> r_ipv4 r) (hosted <$> r_ipv6 r) (hosted <$> r_keys r)
        (hosted <$> r_aspas r) eod) (λ '(rv, s', t') w',
    tables_ok (E := E) t' ∧
    match accepted s t r with
    | Some (ps, ks, m) =>
        rv = RTR_SUCCESS ∧ s' = set_serial_number s sn ∧
        pfx_records (pfx_table t') ≡ₚ ps ∧ key_records (spki_table t') ≡ₚ ks ∧
        (∀ c, aspa_map (aspa_table t') c = if decide (c = self s) then m else aspa_map (aspa_table t) c) ∧
        ∃ ops a, aspa_table t = Some a ∧ replay (aspa_map (aspa_table t) (self s)) ops = Some m ∧
          runs w (all_told (pfx_table t) (prefix_ops s (r_ipv4 r ++ r_ipv6 r)) ++
                  all_told (spki_table t) (key_ops s (r_keys r)) ++ op_notifications a (self s) ops) w'
    | None =>
        rv = RTR_ERROR ∧ s' = changed s RTR_ERROR_FATAL ∧ (distinct s r → same_records t t') ∧
        ∃ evs, runs w evs w'
    end) w.
Proof.
  intros Hok Hr Hnf Hsn. eapply wp_mono; [by apply (sync_update_tables_spec s t r eod sn)|].
  intros [[rv s'] t'] w' [Ht' Hres]. split; [done|]. destruct (accepted s t r) as [[[ps ks] m]|]; [|done].
  by destruct Hres as (? & ? & ? & ? & ? & _ & ?).
Qed.

End UpdateTheorems.

(** ** Instances *)

#[local] Existing Instance debug_build.
#[local] Existing Instance little_endian_host.

(** Everything the outside sees. *)
Inductive rtr_log :=
| LogPfx (e : pfx_event)
| LogSpki (e : spki_event)
| LogAspa (e : aspa_event)
| LogTr (e : tr_event)
| LogRtr (e : rtr_event).

#[export] Instance log_pfx : Event pfx_event rtr_log := LogPfx.
#[export] Instance log_spki : Event spki_event rtr_log := LogSpki.
#[export] Instance log_aspa : Event aspa_event rtr_log := LogAspa.
#[export] Instance log_tr : Event tr_event rtr_log := LogTr.
#[export] Instance log_rtr : Event rtr_event rtr_log := LogRtr.

Definition log_world : world rtr_log := World [] [] idle.

Abbreviation key_table := (rtr_spki_table (tommy_hashlin key_entry)) (only parsing).

(** Empty tables of a client that wants to know everything. *)
Definition empty_tables (st : key_table) : tables (tommy_hashlin key_entry) :=
  Tables (Some (rtr_pfx_table_init (Some 1%nat))) (Some st) (Some (rtr_aspa_table_init (Some 3%nat))).

Lemma empty_tables_ok (w : world rtr_log) :
  no_fail w →
  ∃ st w', spki_table_init (Some 2%nat) w = Some (st, w') ∧ no_fail w' ∧ klist st = [] ∧
    tables_ok (E := rtr_log) (empty_tables st) ∧ net w' = net w.
Proof.
  intros Hnf. destruct (init_spec (A := key_entry) w Hnf) as (h & w' & Hi & Hw & Hok & Hc).
  exists (SpkiTable h [] (Some 2%nat) Unlocked), w'.
  split; [unfold spki_table_init; simpl; unfold mbind, M_bind; by rewrite Hi|].
  split; [by eapply emits_no_fail|]. split; [done|]. split; [|apply Hw]. split; [decided|]. split; [|decided].
  split; [split; [exact Hok|split]|split; [vm_compute; discriminate|done]]; simpl; [by rewrite Hc|constructor].
Qed.

Definition test_socket : rtr_socket :=
  RtrSocket 7 3600 0 7200 600 RTR_INTERVAL_MODE_IGNORE_ANY RTR_SYNC 42 false 5 1 (Some 4%nat) 2 true false.

Definition ipv4_pdu (flags : Z) (net : Z) : list Z :=
  [2; 4; 0; 0; 0; 0; 0; 20; flags; 16; 24; 0; 10; net; 0; 0; 0; 0; 251; 241].
(** AS 9 authorizes AS 5 and AS 6. *)
Definition aspa_pdu : list Z := [2; 11; 1; 0; 0; 0; 0; 20; 0; 0; 0; 9; 0; 0; 0; 5; 0; 0; 0; 6].
(** End of Data with the serial number 6, as it is stored on a little-endian host. *)
Definition eod_stored : list Z :=
  [2; 7; 42; 0; 24; 0; 0; 0; 6; 0; 0; 0; 16; 14; 0; 0; 88; 2; 0; 0; 32; 28; 0; 0].

Definition test_response : response := Response [ipv4_pdu 1 1; ipv4_pdu 1 2] [] [] [aspa_pdu].

Lemma sync_update_correct_witness :
  ∃ st w, spki_table_init (Some 2%nat) log_world = Some (st, w) ∧
    wp (rtr_sync_update_tables test_socket (empty_tables st)
          (hosted <$> [ipv4_pdu 1 1; ipv4_pdu 1 2]) [] []
          [hosted aspa_pdu] eod_stored) (λ '(rv, s', t') w',
      rv = RTR_SUCCESS ∧ serial_number s' = 6 ∧ length (pfx_records (pfx_table t')) = 2%nat ∧
      aspa_map (aspa_table t') 7 = {[9 := [5; 6]]}) (w : world rtr_log).
Proof.
  destruct (empty_tables_ok log_world) as (st & w & Hi & Hnf & Hk & Hok & _); [constructor|]. exists st, w. split; [done|].
  eapply wp_mono.
  { apply (@sync_update_correct debug_build little_endian_host rtr_log _ _ _ _ _ _ _ _
      test_socket (empty_tables st) test_response eod_stored 6 w); [done| |done|vm_compute; reflexivity].
    split; [decided|]. split.
    - simpl. rewrite Hk. vm_compute. discriminate.
    - vm_compute. intuition discriminate. }
  intros [[rv s'] t'] w' (_ & Hres).
  assert (∃ ps, accepted test_socket (empty_tables st) test_response = Some (ps, [], {[9 := [5; 6]]}) ∧ length ps = 2%nat)
    as (ps & Hacc & Hlen).
  { unfold accepted, key_records, spki_records. change (spki_table (empty_tables st)) with (Some st).
    cbv beta iota. rewrite Hk. eexists. split; vm_compute; reflexivity. }
  rewrite Hacc in Hres. destruct Hres as (-> & -> & Hps & _ & Hm & _). split; [done|]. split; [done|].
  split; [by rewrite Hps|by rewrite Hm].
Defined.

(** ** Limits *)

(** Two answers of a cache, one after the other: the prefixes after the first, the
    result of the second and the prefixes after it. *)
Definition two_answers (first second : list (list Z)) : M rtr_log (list rtr_pfx_record * Z * list rtr_pfx_record) :=
  st ← spki_table_init None;
  '(_, s, t) ← rtr_sync_update_tables test_socket (empty_tables st) (hosted <$> first) [] [] [] eod_stored;
  '(rv, s, t') ← rtr_sync_update_tables s t (hosted <$> second) [] [] [] eod_stored;
  mret (pfx_records (pfx_table t), rv, pfx_records (pfx_table t')).

(** The batches that undo an update start with its first PDU, not with its last.  If
    a refused answer withdraws a record and announces it again, the record is lost; if
    it announces a record and withdraws it, the record stays. *)
Theorem undo_order_changes_records :
  let r := wire_prefix 7 (ipv4_pdu 1 1) in
  (∃ w, two_answers [ipv4_pdu 1 1] [ipv4_pdu 0 1; ipv4_pdu 1 1; ipv4_pdu 0 2] log_world =
     Some (([r], RTR_ERROR, []), w)) ∧
  (∃ w, two_answers [] [ipv4_pdu 1 1; ipv4_pdu 0 1; ipv4_pdu 0 2] log_world = Some (([], RTR_ERROR, [r]), w)).
Proof. split; eexists; vm_compute; reflexivity. Qed.
