(* ===== verification/SyncProofs.v ===== *)
(** * Synchronisation: proofs

    The PDUs between Cache Response and End of Data are stored as they arrive. *)

From Stdlib Require Import String.
From S2P Require Import Prelude Ip PfxTable PfxTableProofs PfxTableBulk Hashlin Spki SpkiProofs SetOps.
From S2P Require Import AspaArray Aspa AspaUpdate AspaVerification AspaVerificationProofs.
From S2P Require Import AspaUpdateProofs AspaTheorems AspaSwapIn.
From S2P Require Import Pdu PduProofs PduTheorems Transport TransportProofs Socket Packets PacketsProofs ReceiveProofs.
From S2P Require Import Update UpdateProofs UpdateInstances AspaPdus SyncUpdate Sync.
Open Scope Z_scope.

(** So many PDUs of a kind are stored without an overflow of the size of their array. *)
Definition max_pdus : Z := 2 ^ 24.

(** The events [evs] happened, memory did not run out if it was not going to, and the
    bytes [b] were received. *)
Definition hears {E} (w : world E) (evs : list E) (b : list Z) (w' : world E) : Prop :=
  events w' = events w ++ evs ∧ (no_fail w → no_fail w') ∧ delivers (stream (net w)) b (stream (net w')) ∧
  clock (net w') `suffix_of` clock (net w).

Lemma hears_runs {E} (w : world E) evs w' : runs w evs w' → hears w evs [] w'.
Proof. intros (He & Hn & Hs & Hc). split_and!; try done; by rewrite Hs. Qed.
Lemma hears_trans {E} (w : world E) evs b w' evs' b' w'' :
  hears w evs b w' → hears w' evs' b' w'' → hears w (evs ++ evs') (b ++ b') w''.
Proof.
  intros (He & Hn & Hd & Hc) (He' & Hn' & Hd' & Hc'). split; [by rewrite He', He, app_assoc|]. split; [auto|].
  split; [by eapply delivers_trans|by trans (clock (net w'))].
Qed.
Lemma hears_no_fail {E} (w : world E) evs b w' : hears w evs b w' → no_fail w → no_fail w'.
Proof. by intros (_ & ? & _). Qed.
Lemma hears_then_runs {E} (w : world E) evs b w' evs' w'' :
  hears w evs b w' → runs w' evs' w'' → hears w (evs ++ evs') b w''.
Proof. intros Hh Hr%hears_runs. rewrite <- (app_nil_r b). by eapply hears_trans. Qed.
(** What is still to come. *)
Lemma hears_prefix {E} (w : world E) evs b l w' :
  hears w evs b w' → b ++ l `prefix_of` bytes_of (stream (net w)) → l `prefix_of` bytes_of (stream (net w')).
Proof.
  intros (_ & _ & (Hd & _) & _) [tl Hpre]. rewrite Hpre, <- app_assoc in Hd. apply app_inv_head in Hd. by exists tl.
Qed.

(** ** The arrays of PDUs *)

Definition pdu_array_ok (elem_size : Z) (a : pdu_array) : Prop :=
  Z.of_nat (length (elems a)) <= size a <= Z.of_nat (length (elems a)) + 100 ∧ room a = size a * elem_size.

Section Storing.
Context `{Build} `{Host} {E HT : Type} `{!HashTable E HT key_entry}.
Context `{!Event pfx_event E} `{!Event spki_event E} `{!Event aspa_event E}.
Context `{!Event tr_event E} `{!Event rtr_event E}.
Implicit Types (s : rtr_socket) (w : world E) (t : tables HT) (b rest : list Z) (a : pdu_array).

Lemma no_pdus_ok n : pdu_array_ok n no_pdus.
Proof. unfold pdu_array_ok. simpl. lia. Qed.

Lemma grow_spec modulus a n w :
  pdu_array_ok n a → Z.of_nat (length (elems a)) < max_pdus → 0 < n <= 123 → 2 ^ 32 <= modulus → no_fail w →
  wp (grow modulus a n) (λ '(ok, a') w', ok = true ∧ elems a' = elems a ∧ pdu_array_ok n a' ∧
    Z.of_nat (length (elems a)) < size a' ∧ emits w [] w') w.
Proof.
  intros (Hs & Hr) Hlen Hn Hm Hnf. unfold max_pdus in Hlen. unfold grow, TEMPORARY_PDU_STORE_INCREMENT_VALUE.
  destruct (Z.leb_spec (size a) (Z.of_nat (length (elems a)))).
  - cbv zeta. do 2 wp_step. destruct b; [|no_alloc_failure]. wp_step.
    rewrite (Z.mod_small (size a + 100)) by lia. rewrite Z.mod_small by nia. simpl.
    split; [done|]. split; [done|]. split; [unfold pdu_array_ok; simpl; lia|]. split; [lia|done].
  - wp_step. split_and!; try done; try lia. apply emits_refl.
Qed.

Lemma append_pdu_spec a p n :
  pdu_array_ok n a → Z.of_nat (length (elems a)) < size a → 0 < n →
  ∃ a', append a p n = Some a' ∧ elems a' = elems a ++ [p] ∧ pdu_array_ok n a'.
Proof.
  intros (Hs & Hr) Hlt Hn. unfold append. rewrite (proj2 (Z.leb_le _ _)) by nia. eexists. split; [done|].
  split; [done|]. unfold pdu_array_ok. simpl. rewrite length_app. simpl. lia.
Qed.

(** ** Storing a PDU *)

Definition stores (m : M E (Z * rtr_socket * pdu_array)) s (n : Z) a b w : Prop :=
  wp m (λ '(rv, s', a') w', rv = RTR_SUCCESS ∧ s' = s ∧ elems a' = elems a ++ [hosted b] ∧
    pdu_array_ok n a' ∧ emits w [] w') w.

Lemma hosted_length b : pdu_ok b → length (hosted b) = length b.
Proof. intros Hp. by destruct (valid_pdu_footer b _ _ Hp) as (_ & _ & ? & _). Qed.

Lemma stored_slice b rest : pdu_ok b → slice (hosted b ++ rest) 0 (Z.to_nat (len_of b)) = Some (hosted b).
Proof.
  intros Hp. unfold len_of. rewrite Nat2Z.id, <- (hosted_length b) by done. rewrite slice_app by lia.
  rewrite slice_some by lia. by rewrite drop_0, firstn_all.
Qed.

Lemma stored_type b rest : pdu_ok b → rtr_get_pdu_type (hosted b ++ rest) = Some (type_of b).
Proof.
  intros Hp. pose proof Hp as (_ & Hl & Hlen & _). rewrite type_app by (rewrite hosted_length by done; lia).
  by apply hosted_type.
Qed.

Lemma stored_len b rest : pdu_ok b → get32 (hosted b ++ rest) 4 = Some (len_of b).
Proof.
  intros Hp. pose proof Hp as (_ & Hl & Hlen & _). rewrite <- (host_order_len b _ _ Hp). unfold get32.
  rewrite slice_app; [done|]. fold (hosted b). rewrite hosted_length by done. lia.
Qed.

Lemma store_prefix_spec s a b rest w :
  pdu_ok b → type_of b = IPV4_PREFIX ∨ type_of b = IPV6_PREFIX → pdu_array_ok (len_of b) a →
  Z.of_nat (length (elems a)) < max_pdus → no_fail w →
  stores (rtr_store_prefix_pdu s (hosted b ++ rest) (len_of b) a) s (len_of b) a b w.
Proof.
  intros Hp Ht Ha Hlen Hnf. pose proof (pdu_length b Hp) as Hl. unfold stores, rtr_store_prefix_pdu.
  rewrite stored_type by done. wp_step. wp_step. wp_step.
  rewrite assert_true by (apply orb_true_iff; rewrite !bool_decide_eq_true; done). wp_step. wp_step.
  assert (0 < len_of b <= 123) as Hn by (destruct Ht as [Ht|Ht]; rewrite Ht in Hl; lia).
  eapply wp_mono; [by apply grow_spec|]. intros [ok a1] w1 (-> & He & Ha1 & Hlt & Hw). simpl negb. cbv iota.
  wp_step. rewrite stored_slice by done. wp_step. wp_step. rewrite <- He in Hlt.
  destruct (append_pdu_spec a1 (hosted b) (len_of b) Ha1 Hlt) as (a2 & -> & He2 & Ha2); [lia|]. wp_step. wp_step.
  split_and!; try done. by rewrite He2, He.
Qed.

Lemma store_router_key_spec s a b rest w :
  pdu_ok b → type_of b = ROUTER_KEY → pdu_array_ok (len_of b) a →
  Z.of_nat (length (elems a)) < max_pdus → no_fail w →
  stores (rtr_store_router_key_pdu s (hosted b ++ rest) (len_of b) a) s (len_of b) a b w.
Proof.
  intros Hp Ht Ha Hlen Hnf. pose proof (pdu_length b Hp) as Hl. rewrite Ht in Hl.
  unfold stores, rtr_store_router_key_pdu.
  rewrite stored_type, Ht by done. wp_step. wp_step. wp_step. rewrite assert_true by done. wp_step. wp_step.
  eapply wp_mono; [apply grow_spec; done || lia|]. intros [ok a1] w1 (-> & He & Ha1 & Hlt & Hw). simpl negb. cbv iota.
  wp_step. rewrite stored_slice by done. wp_step. wp_step. rewrite <- He in Hlt.
  destruct (append_pdu_spec a1 (hosted b) (len_of b) Ha1 Hlt) as (a2 & -> & He2 & Ha2); [lia|]. wp_step. wp_step.
  split_and!; try done. by rewrite He2, He.
Qed.

Lemma store_aspa_spec s a b rest w :
  pdu_ok b → pdu_array_ok 8 a → Z.of_nat (length (elems a)) < max_pdus → no_fail w →
  stores (rtr_store_aspa_pdu s (hosted b ++ rest) a) s 8 a b w.
Proof.
  intros Hp Ha Hlen Hnf. unfold stores, rtr_store_aspa_pdu, sizeof_pointer. wp_step.
  eapply wp_mono; [apply grow_spec; done || lia|]. intros [ok a1] w1 (-> & He & Ha1 & Hlt & Hw). simpl negb. cbv iota.
  wp_step. rewrite stored_len by done. wp_step. assert (no_fail w1) by by eapply emits_no_fail.
  do 2 wp_step. destruct b0; [|no_alloc_failure]. simpl negb. cbv iota.
  wp_step. rewrite stored_slice by done. wp_step. wp_step. rewrite <- He in Hlt.
  destruct (append_pdu_spec a1 (hosted b) 8 Ha1 Hlt) as (a2 & -> & He2 & Ha2); [lia|]. wp_step. wp_step.
  split_and!; try done; [by rewrite He2, He|by eapply emits_quiet].
Qed.

(** ** The PDUs of a response *)

Definition no_response : response := Response [] [] [] [].
Definition add_pdu (r : response) b : response :=
  match type_of b with
  | IPV4_PREFIX => Response (r_ipv4 r ++ [b]) (r_ipv6 r) (r_keys r) (r_aspas r)
  | IPV6_PREFIX => Response (r_ipv4 r) (r_ipv6 r ++ [b]) (r_keys r) (r_aspas r)
  | ROUTER_KEY => Response (r_ipv4 r) (r_ipv6 r) (r_keys r ++ [b]) (r_aspas r)
  | ASPA => Response (r_ipv4 r) (r_ipv6 r) (r_keys r) (r_aspas r ++ [b])
  | _ => r
  end.
Definition collect (r : response) (bs : list (list Z)) : response := foldl add_pdu r bs.

Definition response_size (r : response) : nat :=
  length (r_ipv4 r) + length (r_ipv6 r) + length (r_keys r) + length (r_aspas r).

Definition is_data b : Prop :=
  type_of b = SERIAL_NOTIFY ∨ type_of b = IPV4_PREFIX ∨ type_of b = IPV6_PREFIX ∨ type_of b = ROUTER_KEY ∨
  type_of b = ASPA.

(** The arrays hold the PDUs of [r]. *)
Definition holds (p : pdu_store) (r : response) : Prop :=
  (elems (ipv4_pdus p) = hosted <$> r_ipv4 r ∧ pdu_array_ok sizeof_ipv4 (ipv4_pdus p)) ∧
  (elems (ipv6_pdus p) = hosted <$> r_ipv6 r ∧ pdu_array_ok sizeof_ipv6 (ipv6_pdus p)) ∧
  (elems (router_key_pdus p) = hosted <$> r_keys r ∧ pdu_array_ok sizeof_router_key (router_key_pdus p)) ∧
  (elems (aspa_pdus p) = hosted <$> r_aspas r ∧ pdu_array_ok 8 (aspa_pdus p)).

Lemma empty_holds : holds empty_store no_response.
Proof. repeat split; simpl; lia. Qed.

(** The array after storing goes to its place [f]. *)
Lemma stored_spec m s t n a b (f : pdu_array → pdu_store) (r : response) w :
  stores m s n a b w → (∀ a', elems a' = elems a ++ [hosted b] → pdu_array_ok n a' → holds (f a') r) →
  wp ('(res, s, a) ← m; '(retval, s) ← Sync.stored res s; mret (retval, s, t, f a)) (λ '(rv, s', t', p') w',
    rv = RTR_SUCCESS ∧ s' = s ∧ t' = t ∧ holds p' r ∧ emits w [] w') w.
Proof.
  intros Hm Hf. wp_step. eapply wp_mono; [exact Hm|]. intros [[rv s'] a'] w' (-> & -> & He & Ha & Hw). cbv beta iota.
  unfold Sync.stored. rewrite (proj2 (Z.eqb_neq RTR_SUCCESS RTR_ERROR)) by done. do 3 wp_step.
  do 3 (split; [done|]). split; [by apply Hf|done].
Qed.

Lemma handle_data_spec s t p r b rest w :
  pdu_ok b → is_data b → holds p r → Z.of_nat (response_size r) < max_pdus → no_fail w →
  wp (handle_sync_pdu s t p (hosted b ++ rest) (type_of b)) (λ '(rv, s', t', p') w',
    rv = RTR_SUCCESS ∧ s' = s ∧ t' = t ∧ holds p' (add_pdu r b) ∧ emits w [] w') w.
Proof.
  intros Hp Hd (H4 & H6 & Hk & Ha) Hsize Hnf. pose proof (pdu_length b Hp) as Hl. unfold response_size in Hsize.
  assert (∀ (a : pdu_array) bs, elems a = hosted <$> bs → length (elems a) = length bs) as Hlen.
  { intros a bs ->. apply length_fmap. }
  assert (∀ (a : pdu_array) bs, elems a = (hosted <$> bs) ++ [hosted b] → elems a = hosted <$> bs ++ [b]) as Happ.
  { intros a bs ->. by rewrite fmap_app. }
  destruct Hd as [Ht|[Ht|[Ht|[Ht|Ht]]]]; unfold handle_sync_pdu, add_pdu; rewrite Ht in Hl |- *.
  - wp_step. do 3 (split; [done|]). split; [done|apply emits_refl].
  - destruct H4 as [He H4]. change sizeof_ipv4 with 20 in *. rewrite <- Hl in *.
    eapply stored_spec; [apply store_prefix_spec; try done; [by left|]; rewrite (Hlen _ _ He); lia|].
    intros a' He' Ha'. rewrite He in He'. apply Happ in He'. rewrite Hl in *. unfold holds. simpl. tauto.
  - destruct H6 as [He H6]. change sizeof_ipv6 with 32 in *. rewrite <- Hl in *.
    eapply stored_spec; [apply store_prefix_spec; try done; [by right|]; rewrite (Hlen _ _ He); lia|].
    intros a' He' Ha'. rewrite He in He'. apply Happ in He'. rewrite Hl in *. unfold holds. simpl. tauto.
  - destruct Hk as [He Hk]. change sizeof_router_key with 123 in *. rewrite <- Hl in *.
    eapply stored_spec; [apply store_router_key_spec; try done; rewrite (Hlen _ _ He); lia|].
    intros a' He' Ha'. rewrite He in He'. apply Happ in He'. rewrite Hl in *. unfold holds. simpl. tauto.
  - destruct Ha as [He Ha].
    eapply stored_spec; [apply store_aspa_spec; try done; rewrite (Hlen _ _ He); lia|].
    intros a' He' Ha'. rewrite He in He'. apply Happ in He'. unfold holds. simpl. tauto.
Qed.

(** ** The receive loop *)

(** A PDU that arrives on the socket is accepted. *)
Definition welcome s b : Prop := acceptable s b (type_of b) (len_of b).

Lemma add_pdu_size r b : (response_size (add_pdu r b) <= S (response_size r))%nat.
Proof. unfold add_pdu, response_size. destruct (type_of b); simpl; rewrite ?length_app; simpl; lia. Qed.

Lemma downgrade_received s ty v : has_received_pdus s = true → downgrade s ty v = s.
Proof. unfold downgrade. by intros ->. Qed.

Lemma wp_receive s b l buf (Q : Z * rtr_socket * buffer → world E → Prop) w :
  welcome s b → b ++ l `prefix_of` bytes_of (stream (net w)) → state s ≠ RTR_SHUTDOWN → bytes buf →
  RTR_MAX_PDU_LEN <= Z.of_nat (length buf) →
  (∀ w' rest, hears w [] b w' → bytes (hosted b ++ rest) → RTR_MAX_PDU_LEN <= Z.of_nat (length (hosted b ++ rest)) →
     Q (RTR_SUCCESS, downgrade s (type_of b) (byte_at b 0), hosted b ++ rest) w') →
  wp (rtr_receive_pdu s buf) Q w.
Proof.
  intros Hw [tl Hpre] Hs Hb Hl HQ. pose proof Hw as ((Hbb & Hlb & _) & _). eapply wp_mono.
  { apply (receive_pdu_complete s b _ _ buf w Hw); try done. exists (l ++ tl). by rewrite Hpre, app_assoc. }
  intros x w' (-> & Ha & He & Hd & Hc). destruct Hw as (Hv & _). destruct (valid_pdu_footer b _ _ Hv) as (_ & _ & Hhl & Hhb).
  apply HQ.
  - split; [by rewrite He, app_nil_r|]. split; [unfold no_fail; by rewrite Ha|by split].
  - apply Forall_app. split; [done|by apply Forall_drop].
  - rewrite length_app, length_drop. unfold hosted. rewrite Hhl, Hlb. lia.
Qed.

Lemma sync_loop_spec fuel s t p r bs eod buf (Q : Z * rtr_socket * tables HT → world E → Prop) w :
  (length bs < fuel)%nat → has_received_pdus s = true → state s ≠ RTR_SHUTDOWN →
  Forall (λ b, welcome s b ∧ is_data b) bs → welcome s eod → type_of eod = EOD → holds p r →
  Z.of_nat (response_size r + length bs) <= max_pdus → concat bs ++ eod `prefix_of` bytes_of (stream (net w)) →
  bytes buf → RTR_MAX_PDU_LEN <= Z.of_nat (length buf) → no_fail w →
  (∀ p' rest w', holds p' (collect r bs) → hears w [] (concat bs ++ eod) w' →
     bytes (hosted eod ++ rest) → RTR_MAX_PDU_LEN <= Z.of_nat (length (hosted eod ++ rest)) →
     wp (handle_eod s t p' (hosted eod ++ rest)) Q w') →
  wp (sync_receive_loop fuel s t p buf) Q w.
Proof.
  intros Hfuel Hrec Hsd Hbs Heod Hte. revert fuel p r buf w Hfuel.
  induction bs as [|b bs IH]; intros fuel p r buf w Hfuel Hp Hsize Hpre Hbuf Hlen Hnf HQ;
    (destruct fuel as [|fuel]; [simpl in Hfuel; lia|]); cbn [sync_receive_loop]; wp_step.
  - apply (wp_receive s eod []); try done; [by rewrite app_nil_r|]. intros w' rest Hw Hb' Hl'.
    rewrite downgrade_received by done. cbv beta iota. change (RTR_SUCCESS =? RTR_TR_WOULDBLOCK) with false.
    change (RTR_SUCCESS <? 0) with false. cbv iota. wp_step. rewrite stored_type by apply Heod. wp_step. wp_step.
    unfold handle_sync_pdu. rewrite Hte. wp_step. eapply wp_mono; [by apply HQ|]. intros [[rv s'] t'] w'' HQ'.
    wp_step. rewrite bool_decide_eq_false_2 by tauto. simpl andb. cbv iota. by wp_step.
  - apply Forall_cons in Hbs as [[Hwb Hdb] Hbs]. cbn [concat] in Hpre.
    apply (wp_receive s b (concat bs ++ eod)); try done; [by rewrite app_assoc|]. intros w' rest Hw Hb' Hl'.
    rewrite downgrade_received by done. cbv beta iota. change (RTR_SUCCESS =? RTR_TR_WOULDBLOCK) with false.
    change (RTR_SUCCESS <? 0) with false. cbv iota. wp_step. rewrite stored_type by apply Hwb. wp_step. wp_step.
    simpl in Hsize. eapply wp_mono.
    { apply (handle_data_spec s t p r b); try done; [apply Hwb|lia|by eapply hears_no_fail]. }
    intros [[[rv s'] t'] p'] w1 (-> & -> & -> & Hp' & Hw1). cbv beta iota.
    assert (hears w [] b w1) as Hw01.
    { apply (hears_then_runs w [] b w' [] w1); [done|by apply runs_emits]. }
    assert (type_of b ≠ EOD) as Hne by (destruct Hdb as [-> |[-> |[-> |[-> | ->]]]]; done).
    rewrite bool_decide_eq_true_2 by done. simpl andb. cbv iota.
    pose proof (add_pdu_size r b). apply (IH Hbs fuel p' (add_pdu r b)); try done.
    + simpl in Hfuel. lia.
    + lia.
    + eapply hears_prefix; [exact Hw01|]. by rewrite app_assoc.
    + by eapply hears_no_fail.
    + intros p2 rest2 w2 Hp2 Hw2 Hb2 Hl2. apply HQ; try done. cbn [concat]; rewrite <- app_assoc.
      by apply (hears_trans w [] b w1 [] _ w2).
Qed.

End Storing.
