(* ===== verification/SyncReset.v ===== *)
(** * Starting over: proofs

    A reset builds shadow tables and swaps them in: it is atomic. *)

From Stdlib Require Import String.
From S2P Require Import Prelude Ip PfxTable PfxTableProofs PfxTableBulk Hashlin Spki SpkiProofs SetOps.
From S2P Require Import AspaArray Aspa AspaUpdate AspaVerification AspaVerificationProofs.
From S2P Require Import AspaUpdateProofs AspaTheorems AspaSwapIn AspaReplace.
From S2P Require Import Pdu PduProofs PduTheorems Transport TransportProofs Socket Packets PacketsProofs ReceiveProofs.
From S2P Require Import Update UpdateProofs UpdateInstances AspaPdus SyncUpdate Sync SyncProofs.
Open Scope Z_scope.

(** The router keys of the other caches. *)
Definition keys_of_others (sock : socket_ptr) (ks : list rtr_spki_record) : list rtr_spki_record :=
  filter (λ k, Spki.socket k ≠ sock) ks.

Section Reset.
Context `{Build} `{Host} {E HT : Type} `{!HashTable E HT key_entry} `{!HashTableSpec E HT key_entry}.
Context `{!Event pfx_event E} `{!Event spki_event E} `{!Event aspa_event E}.
Context `{!Event tr_event E} `{!Event rtr_event E}.
Implicit Types (s : rtr_socket) (w : world E) (t : tables HT) (r : response).

(** ** Shadow tables are silent *)

Lemma bind_nil {A B} (f : A → list B) (l : list A) : (∀ x, f x = []) → l ≫= f = [].
Proof. intros Hf. induction l as [|x l IH]; [done|]. by rewrite bind_cons, Hf, IH. Qed.

Lemma bind_fmap {A B C} (f : A → B) (g : B → list C) (l : list A) : (f <$> l) ≫= g = l ≫= λ x, g (f x).
Proof. induction l as [|x l IH]; [done|]. by rewrite fmap_cons, !bind_cons, IH. Qed.

Lemma pfx_silent pt us : PfxTable.update_fp pt = None → all_told (E := E) (Some pt) us = [].
Proof. intros Hfp. apply bind_nil. intros [x|x|]; simpl; unfold notification; by rewrite ?Hfp. Qed.
Lemma keys_silent (st : rtr_spki_table HT) us : Spki.update_fp st = None → all_told (E := E) (Some st) us = [].
Proof. intros Hfp. apply bind_nil. intros [x|x|]; simpl; unfold spki_notification; by rewrite ?Hfp. Qed.
Lemma ops_silent a sock ops : Aspa.update_fp a = None → op_notifications (E := E) a sock ops = [].
Proof. intros Hfp. apply bind_nil. intros op. unfold aspa_notification. by rewrite Hfp. Qed.
Lemma aspas_silent a rs sock op : Aspa.update_fp a = None → aspa_notifications (E := E) a rs sock op = [].
Proof. intros Hfp. apply bind_nil. intros r. unfold aspa_notification. by rewrite Hfp. Qed.
Lemma additions_silent pt rs : PfxTable.update_fp pt = None → additions (E := E) pt rs = [].
Proof. intros Hfp. apply bind_nil. intros x. unfold notification. by rewrite Hfp. Qed.
Lemma removals_silent pt rs : PfxTable.update_fp pt = None → removals (E := E) pt rs = [].
Proof. intros Hfp. apply bind_nil. intros x. unfold notification. by rewrite Hfp. Qed.
Lemma spki_notifications_silent (st : rtr_spki_table HT) l op :
  Spki.update_fp st = None → spki_notifications (E := E) st l op = [].
Proof. intros Hfp. apply bind_nil. intros x. unfold spki_notification. by rewrite Hfp. Qed.

(** ** Freeing the shadow tables *)

Lemma wp_free_shadow pfx spki aspa (Q : unit → world E → Prop) w :
  table_ok pfx → spki_table_ok (E := E) spki → aspa_table_ok aspa → no_fail w →
  (∀ w', emits w [] w' → Q tt w') →
  wp (free_shadow_tables (HT := HT) (Some pfx) (Ptr spki) (Ptr aspa)) Q w.
Proof.
  intros Hp (Hk & Hm & Hl) Ha Hnf HQ. unfold free_shadow_tables. wp_step. unfold pfx_table_free_without_notify.
  wp_step. eapply wp_mono; [by apply rtr_pfx_table_free_spec|]. intros res w1 (gone & -> & _ & Hw1).
  rewrite removals_silent in Hw1 by done. wp_step. wp_step. simpl read_field. wp_step. wp_step.
  unfold spki_table_free_without_notify. wp_step. apply wp_spki_wrlock; [done|]. wp_step.
  apply wp_spki_unlock; [by left|]. wp_step. wp_step. wp_step. cbv beta iota. wp_step.
  eapply wp_mono; [by apply aspa_free_spec; [|eapply emits_no_fail]|]. intros at' w2 (_ & Hw2). wp_step.
  apply HQ. by eapply emits_quiet.
Qed.

(** ** Creating them *)

Lemma empty_keys_spec fp w :
  0 <= ht_max (E := E) (H := HT) (A := key_entry) → no_fail w →
  wp (spki_table_init (H := HT) fp) (λ st w', emits w [] w' ∧ spki_table_ok (E := E) st ∧ klist st = [] ∧
    Spki.update_fp st = fp) w.
Proof.
  intros Hmax Hnf. unfold spki_table_init. wp_step. eapply wp_mono; [by apply ht_init_spec|].
  intros h w1 (Hw1 & Hok & Hc). wp_step. split; [done|]. split; [|done]. split; [|split; [simpl; lia|done]].
  split; [done|]. simpl. rewrite Hc. split; [done|constructor].
Qed.

(** ** Swapping them in *)

(** The keys of a cache that only the first list has. *)
Definition new_keys (sock : socket_ptr) (ks ks' : list rtr_spki_record) : list rtr_spki_record :=
  filter (λ k, Spki.socket k = sock ∧ k ∉ ks') ks.

(** What the clients are told: the replacement of the ASPAs, if they are replaced, then
    the difference of the prefixes and that of the router keys. *)
Definition reset_told s t (replaced : bool) t' (evs : list E) : Prop := ∃ aev added removed,
  (if replaced then ∃ a rs, aspa_table t = Some a ∧ map_of rs = aspa_map (aspa_table t') (self s) ∧
     aev = aspa_notifications a (cache_records a (self s)) (self s) RTR_ASPA_REMOVE ++
           aspa_notifications a rs (self s) RTR_ASPA_ADD
   else aev = []) ∧
  added ≡ₚ new_of (self s) (pfx_records (pfx_table t')) (pfx_records (pfx_table t)) ∧
  removed ≡ₚ new_of (self s) (pfx_records (pfx_table t)) (pfx_records (pfx_table t')) ∧
  evs = aev ++ all_told (pfx_table t) ((Announce <$> added) ++ (Withdraw <$> removed)) ++
        all_told (spki_table t)
          ((Announce <$> new_keys (self s) (key_records (spki_table t')) (key_records (spki_table t))) ++
           (Withdraw <$> new_keys (self s) (key_records (spki_table t)) (key_records (spki_table t')))).

Lemma told_pfx pt pt' added removed :
  PfxTable.update_fp pt' = PfxTable.update_fp pt →
  all_told (E := E) (Some pt) ((Announce <$> added) ++ (Withdraw <$> removed)) = additions pt' added ++ removals pt' removed.
Proof.
  intros Hfp. unfold all_told, additions, removals. rewrite bind_app, !bind_fmap. simpl. unfold notification. by rewrite Hfp.
Qed.

Lemma new_keys_entries sock l l' :
  new_keys sock (key_entry_to_spki_record <$> l) (key_entry_to_spki_record <$> l') =
  key_entry_to_spki_record <$> only_in sock l l'.
Proof.
  unfold new_keys, only_in. symmetry. apply fmap_filter. intros e.
  assert (key_entry_to_spki_record e ∈ key_entry_to_spki_record <$> l' ↔ e ∈ l') as ->; [|by destruct e].
  rewrite list_elem_of_fmap. split; [|by eexists]. intros (e' & Heq & He').
  by rewrite <- (record_of_entry e), Heq, record_of_entry.
Qed.

Lemma told_keys (st st' : rtr_spki_table HT) sock l l' :
  Spki.update_fp st' = Spki.update_fp st →
  all_told (E := E) (Some st)
    ((Announce <$> new_keys sock (key_entry_to_spki_record <$> l) (key_entry_to_spki_record <$> l')) ++
     (Withdraw <$> new_keys sock (key_entry_to_spki_record <$> l') (key_entry_to_spki_record <$> l))) =
  spki_notifications st' (only_in sock l l') RTR_SPKI_ADD ++ spki_notifications st' (only_in sock l' l) RTR_SPKI_REMOVE.
Proof.
  intros Hfp. unfold all_told, spki_notifications. rewrite !new_keys_entries, bind_app, !bind_fmap. simpl.
  unfold spki_notification. by rewrite Hfp.
Qed.

(** The difference is computed only if there is a client. *)
Lemma diff_prefixes_spec pt pfx sock w :
  table_ok pt → table_ok pfx → no_fail w →
  wp (if bool_decide (is_Some (PfxTable.update_fp pt)) then pfx_table_notify_diff pt pfx sock else mret pfx)
    (λ pfx' w', table_ok pfx' ∧ ∃ added removed,
       added ≡ₚ new_of sock (records pt) (records pfx) ∧ removed ≡ₚ new_of sock (records pfx) (records pt) ∧
       emits w (additions pt added ++ removals pt removed) w') w.
Proof.
  intros Hp Hs Hnf. case_bool_decide as Hfp.
  - eapply wp_mono; [by apply pfx_table_notify_diff_spec|]. intros pfx' w' (? & _ & ?). done.
  - wp_step. split; [done|]. eexists _, _. split; [done|]. split; [done|]. apply eq_None_not_Some in Hfp.
    rewrite additions_silent, removals_silent by done. apply emits_refl.
Qed.

Lemma diff_keys_spec (st spki : rtr_spki_table HT) sock w :
  spki_table_ok (E := E) st → spki_table_ok (E := E) spki →
  wp (if bool_decide (is_Some (Spki.update_fp st)) then spki_table_notify_diff st spki sock else mret spki)
    (λ spki' w', spki_table_ok (E := E) spki' ∧
       emits w (spki_notifications st (only_in sock (klist st) (klist spki)) RTR_SPKI_ADD ++
                spki_notifications st (only_in sock (klist spki) (klist st)) RTR_SPKI_REMOVE) w') w.
Proof.
  intros Hp Hs. case_bool_decide as Hfp.
  - eapply wp_mono; [by apply notify_diff_spec|]. intros spki' w' (? & _ & ?). done.
  - wp_step. split; [done|]. apply eq_None_not_Some in Hfp. rewrite !spki_notifications_silent by done. apply emits_refl.
Qed.

#[local] Instance has_node_dec at_ sock : Decision (has_node at_ sock).
Proof. destruct at_; apply _. Defined.

(** Replacing the ASPAs; those of the cache are kept if the shadow table has no node. *)
Lemma replace_aspas_spec a aspa sock w :
  aspa_table_ok a → aspa_table_ok aspa → no_fail w →
  wp (aspa_table_src_replace a aspa sock (bool_decide (is_Some (Aspa.update_fp a))) false) (λ '(_, a', aspa') w',
    aspa_table_ok a' ∧ aspa_table_ok aspa' ∧
    ∃ aev, emits w aev w' ∧
    (has_node (Some aspa) sock →
     (∀ c, cache_map a' c = if decide (c = sock) then cache_map aspa sock else cache_map a c) ∧
     ∃ rs, map_of rs = cache_map a' sock ∧
       aev = aspa_notifications a (cache_records a sock) sock RTR_ASPA_REMOVE ++
             aspa_notifications a rs sock RTR_ASPA_ADD) ∧
    (¬ has_node (Some aspa) sock → (∀ c, cache_map a' c = cache_map a c) ∧ aev = [])) w.
Proof.
  intros Ha Hs Hnf. eapply wp_mono; [by apply src_replace_spec|].
  intros [[res a'] aspa'] w' (Ha' & Hs' & _ & Hres). split; [done|]. split; [done|]. unfold cache_map, has_node.
  destruct (aspa_store_get_node (store aspa) sock) as [pos|] eqn:Hg.
  - destruct Hres as (_ & Hrec & _ & Hw). eexists. split; [exact Hw|]. split; [|intros []; by eexists]. intros _.
    split; [intros c; rewrite Hrec; by case_decide|]. exists (cache_records aspa sock). split; [by rewrite Hrec, decide_True|].
    case_bool_decide as Hfp; [done|]. apply eq_None_not_Some in Hfp. by rewrite !aspas_silent.
  - destruct Hres as (_ & -> & -> & Hw). exists []. split; [done|]. split; [by intros [? ?]|done].
Qed.

Lemma swap_in_spec s t pfx spki aspa w :
  tables_ok (E := E) t → table_ok pfx → spki_table_ok (E := E) spki → aspa_table_ok aspa → no_fail w →
  wp (swap_in_shadow_tables s t pfx spki aspa) (λ '(t', pfx', spki', aspa') w',
    tables_ok (E := E) t' ∧ table_ok pfx' ∧ spki_table_ok (E := E) spki' ∧ aspa_table_ok aspa' ∧
    pfx_records (pfx_table t') = records pfx ∧ key_records (spki_table t') = spki_records spki ∧
    (∀ c, aspa_map (aspa_table t') c =
       if decide (c = self s ∧ has_node (Some aspa) (self s)) then cache_map aspa (self s) else aspa_map (aspa_table t) c) ∧
    ∃ evs, reset_told s t (bool_decide (has_node (Some aspa) (self s))) t' evs ∧ emits w evs w') w.
Proof.
  destruct t as [[pt|] [st|] [at_|]]; intros (Hp & Hk & Ha) Hpfx Hspki Haspa Hnf; try done. simpl in Hp, Hk, Ha.
  unfold swap_in_shadow_tables. simpl. wp_step. wp_step. wp_step. wp_step. wp_step.
  destruct Hp as (H4 & H6 & Hl), Hpfx as (Hs4 & Hs6 & Hsl). unfold wp at 1. rewrite pfx_table_swap_spec by done.
  eexists _, _. split; [done|]. cbv beta iota. wp_step.
  eapply wp_mono; [by apply swap_spec|].
  intros [st' spki'] w1 (Hk' & Hs' & Hkl & Hsl' & Hfp' & _ & Hw1). cbv beta iota. wp_step. wp_step. wp_step.
  eapply wp_mono; [apply replace_aspas_spec; try done; by eapply emits_no_fail|].
  intros [[res a'] aspa'] w2 (Ha' & Haspa' & aev & Hw2 & Hrep & Hkept). cbv beta iota. wp_step.
  assert (no_fail w2) as Hnf2 by (eapply emits_no_fail; [exact Hw2|]; by eapply emits_no_fail).
  eapply wp_mono; [by apply diff_prefixes_spec|].
  intros pfx2 w3 (Hpfx2 & added & removed & Hadd & Hrem & Hw3). cbv beta. wp_step.
  eapply wp_mono; [by apply diff_keys_spec|]. intros spki2 w4 (Hspki2 & Hw4). cbv beta. wp_step.
  split; [by split_and!|]. split; [done|]. split; [done|]. split; [done|]. split; [done|].
  split; [unfold key_records, spki_records; simpl; by rewrite Hkl|]. split.
  { intros c. simpl. destruct (decide (has_node (Some aspa) (self s))) as [Hn|Hn].
    - rewrite (proj1 (Hrep Hn)). apply decide_ext. tauto.
    - rewrite decide_False by tauto. apply (Hkept Hn). }
  eexists. split.
  - exists aev, added, removed. split; [|split; [done|split; [done|reflexivity]]].
    case_bool_decide as Hn; [|apply (Hkept Hn)]. destruct (Hrep Hn) as (_ & rs & ? & ?). by exists at_, rs.
  - simpl. unfold key_records, spki_records. rewrite Hkl.
    rewrite (told_pfx _ (PfxTable (ipv4 pfx) (ipv6 pfx) (PfxTable.update_fp pt) Unlocked)) by done.
    rewrite (told_keys st st') by done. rewrite Hkl, Hsl' in Hw4.
    eapply emits_quiet; [exact Hw1|]. eapply emits_trans; [exact Hw2|]. by eapply emits_trans.
Qed.

(** ** The whole reset *)

(** What the answer to a reset query makes of the records of the other caches. *)
Definition reset_outcome s t r :=
  outcome s r (of_others (self s) (pfx_records (pfx_table t))) (keys_of_others (self s) (key_records (spki_table t))) ∅.

Definition reset_ok t r : Prop :=
  pdus_ok r ∧ keys_fit (E := E) (spki_table t) (length (r_keys r) + length (r_keys r)) ∧
  no_early_replace ∅ (sort_operations (aspa_ops (r_aspas r))).

Definition reset_post s t r (sn : Z) w : Z * rtr_socket * tables HT → world E → Prop := λ '(rv, s', t') w',
  match reset_outcome s t r with
  | Some (ps, ks, m) =>
      rv = RTR_SUCCESS ∧ s' = set_is_resetting (set_serial_number s sn) false ∧ tables_ok (E := E) t' ∧
      pfx_records (pfx_table t') ≡ₚ ps ∧ key_records (spki_table t') ≡ₚ ks ∧
      (∀ c, aspa_map (aspa_table t') c =
         if decide (c = self s ∧ r_aspas r ≠ []) then m else aspa_map (aspa_table t) c) ∧
      ∃ evs, reset_told s t (bool_decide (r_aspas r ≠ [])) t' evs ∧ runs w evs w'
  | None =>
      rv = RTR_ERROR ∧ s' = set_is_resetting (changed s RTR_ERROR_FATAL) false ∧ t' = t ∧ ∃ evs, runs w evs w'
  end.

(** The shadow tables before the update. *)
Definition shadow_of s t (pfx : rtr_pfx_table) (spki : rtr_spki_table HT) : Prop :=
  table_ok pfx ∧ PfxTable.update_fp pfx = None ∧ records pfx ≡ₚ of_others (self s) (pfx_records (pfx_table t)) ∧
  spki_table_ok (E := E) spki ∧ Spki.update_fp spki = None ∧
  spki_records spki = keys_of_others (self s) (key_records (spki_table t)) ∧
  ∀ n, keys_fit (E := E) (spki_table t) n → keys_fit (E := E) (Some spki) n.

(** Updating the shadow tables. *)
Lemma update_shadow_spec s t r pfx spki eod sn w :
  shadow_of s t pfx spki → reset_ok t r → no_fail w → get32 eod 8 = Some sn →
  wp (rtr_sync_update_tables s (Tables (Some pfx) (Some spki) (Some (rtr_aspa_table_init None)))
        (hosted <$> r_ipv4 r) (hosted <$> r_ipv6 r) (hosted <$> r_keys r) (hosted <$> r_aspas r) eod)
    (λ '(rv, s', t') w', ∃ pfx' spki' aspa', t' = Tables (Some pfx') (Some spki') (Some aspa') ∧
       table_ok pfx' ∧ spki_table_ok (E := E) spki' ∧ aspa_table_ok aspa' ∧
       match reset_outcome s t r with
       | Some (ps, ks, m) => rv = RTR_SUCCESS ∧ s' = set_serial_number s sn ∧ records pfx' ≡ₚ ps ∧
           spki_records spki' ≡ₚ ks ∧ cache_map aspa' (self s) = m ∧
           (has_node (Some aspa') (self s) ↔ r_aspas r ≠ []) ∧ runs w [] w'
       | None => rv = RTR_ERROR ∧ s' = changed s RTR_ERROR_FATAL ∧ ∃ evs, runs w evs w'
       end) w.
Proof.
  intros (Hp & Hpf & Hpr & Hk & Hkf & Hkr & Hfit) (Hpdus & Hf & Hearly) Hnf Hsn.
  set (shadow := Tables _ _ _). eapply wp_mono.
  { apply (sync_update_tables_spec s shadow r eod sn w); [|split_and!; try done; by apply Hfit|done|done].
    split_and!; [done|done|decided]. }
  intros [[rv s'] t'] w' ((Hp' & Hk' & Ha') & Hres).
  destruct t' as [[pfx'|] [spki'|] [aspa'|]]; try done. exists pfx', spki', aspa'. do 4 (split; [done|]).
  assert (spki_records spki ≡ₚ keys_of_others (self s) (key_records (spki_table t))) as Hkr' by by rewrite Hkr.
  pose proof (outcome_perm s r _ _ _ _ ∅ Hpr Hkr') as Hperm. fold (reset_outcome s t r) in Hperm.
  change (outcome s r (records pfx) (spki_records spki) ∅) with (accepted s shadow r) in Hperm.
  destruct (accepted s shadow r) as [[[ps ks] m]|], (reset_outcome s t r) as [[[ps' ks'] m']|]; try done.
  - destruct Hperm as (Hps & Hks & ->). destruct Hres as (-> & -> & Hrp & Hrk & Hm & Hnode & ops & a & Ha & _ & Hw).
    simpl in Hrp, Hrk, Hm. simpl in Ha. injection Ha as <-.
    unfold shadow in Hw. cbn [pfx_table spki_table] in Hw. rewrite pfx_silent, keys_silent, ops_silent in Hw by done.
    split_and!; try done; [by rewrite Hrp|by rewrite Hrk| |].
    + specialize (Hm (self s)). by rewrite decide_True in Hm.
    + simpl in Hnode |- *. rewrite Hnode. split; [by intros [[? ?]|?]|by right].
  - destruct Hres as (-> & -> & _ & Hw). done.
Qed.

Lemma create_shadows_spec s t (Q : Z * rtr_socket * tables HT → world E → Prop) p eod w :
  tables_ok (E := E) t → no_fail w →
  (∀ pfx spki w', shadow_of s t pfx spki → runs w [] w' →
     wp ('(retval, s, shadow) ← rtr_sync_update_tables s (Tables (Some pfx) (Some spki) (Some (rtr_aspa_table_init None)))
           (elems (ipv4_pdus p)) (elems (ipv6_pdus p)) (elems (router_key_pdus p)) (elems (aspa_pdus p)) eod;
         pfx ← of_option (pfx_table shadow);
         spki ← of_option (spki_table shadow);
         aspa ← of_option (aspa_table shadow);
         '(t, pfx, spki, aspa) ←
           (if retval =? RTR_SUCCESS then swap_in_shadow_tables s t pfx spki aspa
            else mret (t, pfx, spki, aspa));
         free_shadow_tables (Some pfx) (Ptr spki) (Ptr aspa);;
         mret (retval, set_is_resetting s false, t)) Q w') →
  wp (sync_reset s t p eod) Q w.
Proof.
  destruct t as [[pt|] [st|] [at_|]]; intros (Hp & Hk & Ha) Hnf HQ; try done. simpl in Hp, Hk, Ha.
  unfold sync_reset. cbv zeta. do 2 wp_step. destruct b; [|no_alloc_failure]. simpl negb. cbv iota. wp_step.
  assert (no_fail w') as Hnf1 by by eapply emits_no_fail.
  eapply wp_mono; [apply pfx_table_copy_except_socket_spec; try done|].
  { decided. }
  { intros r _. apply not_elem_of_nil. }
  intros [rtval pfx] w1 (copied & Hpfx & Hfp & Hrec & Hw1 & Hres).
  assert (rtval = RTR_PFX_SUCCESS) as -> by (destruct rtval; try done; by destruct (Hres Hnf1)).
  cbv beta iota. rewrite decide_False by tauto. rewrite additions_silent in Hw1 by done.
  assert (no_fail w1) as Hnf2 by by eapply emits_no_fail.
  do 2 wp_step. destruct b; [|no_alloc_failure]. simpl negb. cbv iota. wp_step.
  eapply wp_mono; [apply empty_keys_spec; [destruct Hk as (_ & Hmax & _); lia|by eapply emits_no_fail]|].
  intros spki w3 (Hw3 & Hspki & Hnil & Hsf). cbv beta. simpl spki_table. wp_step. wp_step. wp_step.
  assert (emits w [] w3) as Hw03 by (do 3 (eapply emits_quiet; [done|]); done).
  eapply wp_mono; [apply copy_except_socket_spec; try done; by eapply emits_no_fail|].
  intros [[rtval st'] spki'] w4 (-> & -> & Hspki' & Hsf' & Hw4 & Hkl). cbv beta iota.
  assert (no_fail w4) as Hnf4 by (eapply emits_no_fail; [exact Hw4|]; by eapply emits_no_fail).
  rewrite decide_False by tauto. do 2 wp_step. destruct b; [|no_alloc_failure]. simpl negb. cbv iota.
  apply HQ; [|apply runs_emits; eapply emits_quiet; [exact Hw03|]; by eapply emits_quiet].
  split_and!; try done.
  - by rewrite Hrec, app_nil_r.
  - simpl. unfold spki_records, keys_of_others. rewrite Hkl. by apply fmap_filter.
  - intros n. simpl. rewrite Hkl. pose proof (length_filter (λ e, e_socket e ≠ self s) (klist st)). lia.
Qed.

Lemma sync_reset_spec s t p r eod sn w :
  tables_ok (E := E) t → reset_ok t r → holds p r → no_fail w → get32 eod 8 = Some sn →
  wp (sync_reset s t p eod) (reset_post s t r sn w) w.
Proof.
  intros Hok Hr Hh Hnf Hsn.
  apply create_shadows_spec; [done..|]. intros pfx spki w1 Hsh Hw1.
  destruct Hh as ((H4 & _) & (H6 & _) & (Hk & _) & (Ha & _)). rewrite H4, H6, Hk, Ha. wp_step.
  assert (no_fail w1) as Hnf1 by by eapply runs_no_fail.
  eapply wp_mono; [by apply (update_shadow_spec s t r)|].
  intros [[rv s'] t'] w2 (pfx' & spki' & aspa' & -> & Hpfx & Hspki & Haspa & Hres). cbv beta iota.
  simpl. do 6 wp_step. unfold reset_post. destruct (reset_outcome s t r) as [[[ps ks] m]|].
  - destruct Hres as (-> & -> & Hps & Hks & Hm & Hnode & Hw2). rewrite Z.eqb_refl. wp_step.
    assert (no_fail w2) as Hnf2 by by eapply runs_no_fail.
    eapply wp_mono; [by apply swap_in_spec|].
    intros [[[t2 pfx2] spki2] aspa2] w3 (Ht2 & Hpfx2 & Hspki2 & Haspa2 & Hrp & Hrk & Hmap & evs & Htold & Hw3). cbv beta iota.
    wp_step. apply wp_free_shadow; try done; [by eapply emits_no_fail|]. intros w4 Hw4. wp_step.
    change (self (set_serial_number s sn)) with (self s) in *. rewrite Hm in Hmap.
    rewrite (bool_decide_ext _ _ Hnode) in Htold.
    split_and!; try done; try apply Ht2; [by rewrite Hrp|by rewrite Hrk| |].
    { intros c. rewrite Hmap. apply decide_ext. by rewrite Hnode. }
    exists evs. split; [done|].
    rewrite <- (app_nil_l evs). eapply runs_trans; [exact Hw1|]. rewrite <- (app_nil_l evs).
    eapply runs_trans; [exact Hw2|]. rewrite <- (app_nil_r evs). eapply runs_trans; by apply runs_emits.
  - destruct Hres as (-> & -> & evs & Hw2). rewrite (proj2 (Z.eqb_neq RTR_ERROR RTR_SUCCESS)) by done. wp_step. wp_step.
    cbv beta iota. wp_step.
    assert (no_fail w2) as Hnf2 by by eapply runs_no_fail.
    apply wp_free_shadow; try done. intros w3 Hw3. wp_step. split_and!; try done. exists evs.
    rewrite <- (app_nil_l evs). eapply runs_trans; [exact Hw1|]. rewrite <- (app_nil_r evs).
    eapply runs_trans; [exact Hw2|by apply runs_emits].
Qed.

End Reset.
