(* ===== verification/SyncTheorems.v ===== *)
(** * A synchronisation from the wire to the tables: the theorems *)

From Stdlib Require Import String.
From S2P Require Import Prelude Ip PfxTable PfxTableProofs PfxTableBulk Hashlin Spki SpkiProofs SetOps.
From S2P Require Import AspaArray Aspa AspaUpdate AspaVerification AspaVerificationProofs.
From S2P Require Import AspaUpdateProofs AspaTheorems AspaSwapIn AspaReplace.
From S2P Require Import Pdu PduProofs PduTheorems Transport TransportProofs Socket Packets PacketsProofs ReceiveProofs.
From S2P Require Import Update UpdateProofs UpdateInstances AspaPdus SyncUpdate UpdateTheorems Sync SyncProofs SyncReset.
Open Scope Z_scope.

(** ** End of Data *)

(** The socket after an interval of the cache. *)
Definition with_interval (s : rtr_socket) (v : Z) (ty : rtr_interval_type) : rtr_socket :=
  (rtr_check_interval_option s (iv_mode s) v ty).2.

(** The socket with the intervals of an End of Data PDU. *)
Definition with_intervals (s : rtr_socket) (eod : list Z) : rtr_socket :=
  if ((byte_at eod 0 =? 1) || (byte_at eod 0 =? 2)) && bool_decide (iv_mode s ≠ RTR_INTERVAL_MODE_IGNORE_ANY)
  then with_interval (with_interval (with_interval s (be32 eod 20) RTR_INTERVAL_TYPE_EXPIRATION)
         (be32 eod 12) RTR_INTERVAL_TYPE_REFRESH) (be32 eod 16) RTR_INTERVAL_TYPE_RETRY
  else s.

Section Sync.
Context `{Build} `{Host} {E HT : Type} `{!HashTable E HT key_entry} `{!HashTableSpec E HT key_entry}.
Context `{!Event pfx_event E} `{!Event spki_event E} `{!Event aspa_event E}.
Context `{!Event tr_event E} `{!Event rtr_event E}.
Implicit Types (s : rtr_socket) (w : world E) (t : tables HT) (b eod rest : list Z).

Lemma eod_facts eod rest :
  pdu_ok eod → type_of eod = EOD → let buf := hosted eod ++ rest in
  get16 buf 2 = Some (be16 eod 2) ∧ get8 buf 0 = Some (byte_at eod 0) ∧ get32 buf 8 = Some (be32 eod 8) ∧
  (byte_at eod 0 = 1 ∨ byte_at eod 0 = 2 →
   get32 buf 12 = Some (be32 eod 12) ∧ get32 buf 16 = Some (be32 eod 16) ∧ get32 buf 20 = Some (be32 eod 20)).
Proof.
  intros Hp Ht. cbv zeta. assert (valid_pdu eod EOD (len_of eod)) as Hv by (rewrite <- Ht; exact Hp). pose proof Hp as (Hb & Hl & Hlen & Hty & H4 & Hc). rewrite Ht in *.
  unfold rtr_pdu_check_size in Hc. rewrite header_flip_type, Hty, H4 in Hc by lia. cbn [mbind option_bind] in Hc.
  rewrite get8_byte in Hc by (rewrite header_flip_length; lia). cbn [mbind option_bind] in Hc.
  unfold byte_at in Hc. rewrite header_flip_out in Hc by lia. fold (byte_at eod 0) in Hc. apply (inj Some) in Hc.
  unfold sizeof_eod_v0, sizeof_eod_v1_v2 in Hc.
  assert (length (hosted eod) = length eod) as Hhl by by apply hosted_length.
  assert (len_of eod = 12 ∨ len_of eod = 24) as Hlens.
  { apply orb_true_iff in Hc as [[_ ?%Z.eqb_eq]%andb_true_iff|[_ ?%Z.eqb_eq]%andb_true_iff]; lia. }
  assert (∀ off, off ∈ footer_offs (header_flip EOD eod) EOD (Z.to_nat (len_of eod)) → (off + 4 <= length eod)%nat →
    get32 (hosted eod ++ rest) off = Some (be32 eod off)) as Hget.
  { intros off Hin Hoff. rewrite <- (host_order_get32 eod EOD (len_of eod) off); [|done|done].
    unfold hosted. rewrite Ht. unfold get32. rewrite slice_app; [done|]. unfold hosted in Hhl. rewrite Ht in Hhl. lia. }
  unfold len_of in *. split; [|split; [|split]].
  - rewrite <- (host_order_get16 eod EOD (len_of eod)) by done. unfold hosted, get16. rewrite Ht.
    rewrite slice_app; [done|]. unfold hosted in Hhl. rewrite Ht in Hhl. lia.
  - rewrite <- (host_order_byte eod EOD (len_of eod) 0) by (done || lia). unfold hosted, get8. rewrite Ht.
    rewrite slice_app; [done|]. unfold hosted in Hhl. rewrite Ht in Hhl. lia.
  - apply Hget; [|lia]. simpl. case_decide; decided.
  - intros Hver. assert (Z.of_nat (length eod) = 24) as H24.
    { apply orb_true_iff in Hc as [[?%Z.eqb_eq _]%andb_true_iff|[_ ?%Z.eqb_eq]%andb_true_iff]; lia. }
    assert (Z.to_nat (Z.of_nat (length eod)) = 24%nat) as Hn by lia. rewrite Hn in Hget.
    split_and!; (apply Hget; [decided|lia]).
Qed.

Lemma handle_eod_pdu_spec s eod rest (Q : Z * rtr_socket → world E → Prop) w :
  pdu_ok eod → type_of eod = EOD → be16 eod 2 = session_id s → Q (RTR_SUCCESS, with_intervals s eod) w →
  wp (rtr_handle_eod_pdu s (hosted eod ++ rest)) Q w.
Proof.
  intros Hp Ht Hid HQ. unfold rtr_handle_eod_pdu. destruct (eod_facts eod rest Hp Ht) as (-> & -> & _ & Hiv).
  do 4 wp_step. rewrite Hid, Z.eqb_refl. simpl negb. cbv iota. unfold with_intervals in HQ.
  change RTR_PROTOCOL_VERSION_1 with 1. change RTR_PROTOCOL_VERSION_2 with 2.
  destruct (((byte_at eod 0 =? 1) || (byte_at eod 0 =? 2)) && _) eqn:Hc; [|by wp_step].
  apply andb_true_iff in Hc as [Hv _]. apply orb_true_iff in Hv.
  unfold eod_intervals. destruct Hiv as (-> & -> & ->); [destruct Hv as [?%Z.eqb_eq|?%Z.eqb_eq]; tauto|].
  do 6 wp_step. unfold with_interval in HQ.
  change (RTR_SUCCESS =? RTR_ERROR) with false in *. simpl in HQ |- *. by wp_step.
Qed.

(** ** The answer of a cache *)

(** Cache Response, data and Serial Notify PDUs, End of Data: as bytes on the wire. *)
Record answer := Answer {
  cache_response : list Z;
  data_pdus : list (list Z);
  end_of_data : list Z }.

Definition answer_bytes (a : answer) : list Z := cache_response a ++ concat (data_pdus a) ++ end_of_data a.
Definition content (a : answer) : response := collect no_response (data_pdus a).

(** The socket after the Cache Response PDU. *)
Definition in_session s (a : answer) : rtr_socket :=
  let s := downgrade s CACHE_RESPONSE (byte_at (cache_response a) 0) in
  if request_session_id s
  then set_session_id (if last_update s =? 0 then s else set_is_resetting (Socket.set_last_update s 0) true)
         (be16 (cache_response a) 2)
  else s.

(** Every PDU is well-formed and of the version of the socket, and the session is the
    one of the socket, if it has one. *)
Definition answer_ok s (a : answer) : Prop :=
  welcome s (cache_response a) ∧ type_of (cache_response a) = CACHE_RESPONSE ∧
  Forall (λ b, welcome (in_session s a) b ∧ is_data b) (data_pdus a) ∧ Z.of_nat (length (data_pdus a)) <= max_pdus ∧
  welcome (in_session s a) (end_of_data a) ∧ type_of (end_of_data a) = EOD ∧
  be16 (cache_response a) 2 = session_id (in_session s a) ∧ be16 (end_of_data a) 2 = session_id (in_session s a).

(** What the answer makes of the records: a session that starts over replaces those of
    the cache. *)
Definition answer_outcome s t (a : answer) :=
  if is_resetting (in_session s a) then reset_outcome s t (content a) else accepted s t (content a).
Definition content_ok s t (a : answer) : Prop :=
  if is_resetting (in_session s a) then reset_ok (E := E) t (content a) else response_ok (E := E) s t (content a).

Definition answered s (a : answer) : rtr_socket :=
  set_is_resetting (set_serial_number (with_intervals (in_session s a) (end_of_data a)) (be32 (end_of_data a) 8)) false.

Lemma handle_cache_response_spec s b rest (Q : Z * rtr_socket → world E → Prop) w :
  pdu_ok b → type_of b = CACHE_RESPONSE → request_session_id s = true ∨ session_id s = be16 b 2 →
  Q (RTR_SUCCESS,
     if request_session_id s
     then set_session_id (if last_update s =? 0 then s else set_is_resetting (Socket.set_last_update s 0) true) (be16 b 2)
     else s) w →
  wp (rtr_handle_cache_response_pdu s (hosted b ++ rest)) Q w.
Proof.
  intros Hp Ht Hid HQ. unfold rtr_handle_cache_response_pdu. wp_step.
  assert (get16 (hosted b ++ rest) 2 = Some (be16 b 2)) as ->.
  { pose proof (hosted_length b Hp) as Hl. pose proof Hp as (_ & Hlb & Hlen & _).
    rewrite <- (host_order_get16 b (type_of b) (len_of b)) by (exact Hp || (rewrite Ht; done)). unfold get16.
    rewrite slice_app; [done|]. fold (hosted b). lia. }
  wp_step. destruct (request_session_id s).
  - wp_step. by destruct (last_update s =? 0).
  - destruct Hid as [?| ->]; [done|]. rewrite Z.eqb_refl. simpl negb. cbv iota. by wp_step.
Qed.

(** ** From End of Data to the tables *)

(** What the clients are told of an answer. *)
Definition answer_told s t (a : answer) t' (evs : list E) : Prop :=
  if is_resetting (in_session s a) then reset_told s t (bool_decide (r_aspas (content a) ≠ [])) t' evs
  else ∃ ops at_, aspa_table t = Some at_ ∧
    replay (aspa_map (aspa_table t) (self s)) ops = Some (aspa_map (aspa_table t') (self s)) ∧
    evs = all_told (pfx_table t) (prefix_ops s (r_ipv4 (content a) ++ r_ipv6 (content a))) ++
          all_told (spki_table t) (key_ops s (r_keys (content a))) ++ op_notifications at_ (self s) ops.

(** The tables after an accepted answer.  A reset whose answer has no ASPA PDU leaves the
    ASPAs of the cache as they are. *)
Definition answer_applied s t (a : answer) t' (ps : list rtr_pfx_record) (ks : list rtr_spki_record)
    (m : gmap Z (list Z)) : Prop :=
  pfx_records (pfx_table t') ≡ₚ ps ∧ key_records (spki_table t') ≡ₚ ks ∧
  (∀ c, aspa_map (aspa_table t') c =
     if decide (c = self s ∧ (is_resetting (in_session s a) = false ∨ r_aspas (content a) ≠ [])) then m
     else aspa_map (aspa_table t) c).

Definition eod_post s t (a : answer) w : Z * rtr_socket * tables HT → world E → Prop := λ '(rv, s', t') w',
  tables_ok (E := E) t' ∧
  match answer_outcome s t a with
  | Some (ps, ks, m) =>
      rv = RTR_SUCCESS ∧ s' = answered s a ∧ answer_applied s t a t' ps ks m ∧
      ∃ evs, answer_told s t a t' evs ∧ runs w evs w'
  | None =>
      rv = RTR_ERROR ∧
      s' = set_is_resetting (changed (with_intervals (in_session s a) (end_of_data a)) RTR_ERROR_FATAL) false ∧
      (is_resetting (in_session s a) = true ∨ distinct s (content a) → same_records t t') ∧ ∃ evs, runs w evs w'
  end.

(** The intervals change nothing but the intervals. *)
Lemma with_intervals_only s eod : ∃ x y z, with_intervals s eod = set_intervals s x y z.
Proof.
  assert (∀ s, set_intervals s (refresh_interval s) (expire_interval s) (retry_interval s) = s) as Hsame by by intros [].
  assert (∀ s v ty, ∃ x y z, with_interval s v ty = set_intervals s x y z) as Hone.
  { intros s0 v ty. unfold with_interval, rtr_check_interval_option.
    destruct ty; simpl; repeat case_match; by (eexists _, _, _) || (eexists _, _, _; by rewrite Hsame). }
  unfold with_intervals. case_match; [|eexists _, _, _; by rewrite Hsame].
  destruct (Hone s (be32 eod 20) RTR_INTERVAL_TYPE_EXPIRATION) as (x & y & z & ->).
  destruct (Hone (set_intervals s x y z) (be32 eod 12) RTR_INTERVAL_TYPE_REFRESH) as (x1 & y1 & z1 & ->).
  destruct (Hone (set_intervals (set_intervals s x y z) x1 y1 z1) (be32 eod 16) RTR_INTERVAL_TYPE_RETRY) as (x2 & y2 & z2 & ->).
  by exists x2, y2, z2.
Qed.

Lemma in_session_self s a : self (in_session s a) = self s ∧ state (in_session s a) = state s.
Proof. unfold in_session, downgrade. by repeat case_match. Qed.

Lemma same_self_ops s s' bs : self s' = self s → prefix_ops s' bs = prefix_ops s bs ∧ key_ops s' bs = key_ops s bs.
Proof. intros Hs. unfold prefix_ops, key_ops. by rewrite Hs. Qed.

Lemma same_self_outcome s s' t r :
  self s' = self s → accepted s' t r = accepted s t r ∧ reset_outcome s' t r = reset_outcome s t r.
Proof.
  intros Hs. unfold accepted, reset_outcome, outcome. rewrite Hs.
  by rewrite !(proj1 (same_self_ops s s' _ Hs)), !(proj2 (same_self_ops s s' _ Hs)).
Qed.

Lemma handle_eod_spec s t a p rest w :
  answer_ok s a → tables_ok (E := E) t → content_ok s t a → holds p (content a) → no_fail w →
  wp (handle_eod (in_session s a) t p (hosted (end_of_data a) ++ rest)) (eod_post s t a w) w.
Proof.
  intros (_ & _ & _ & _ & Heod & Hte & _ & Hid) Ht Hc Hp Hnf. unfold handle_eod. wp_step.
  destruct Heod as [Hpe _]. change (pdu_ok (end_of_data a)) in Hpe. apply handle_eod_pdu_spec; [done..|]. cbv beta iota.
  simpl negb. cbv iota. destruct (eod_facts (end_of_data a) rest Hpe Hte) as (_ & _ & Hsn & _).
  destruct (with_intervals_only (in_session s a) (end_of_data a)) as (x & y & z & Hwi).
  unfold eod_post, answered. rewrite Hwi. set (s3 := set_intervals (in_session s a) x y z).
  assert (self s3 = self s) as Hself by apply (in_session_self s a).
  destruct (same_self_outcome s s3 t (content a) Hself) as [Hacc Hrst].
  change (is_resetting s3) with (is_resetting (in_session s a)).
  unfold answer_outcome, content_ok, answer_applied, answer_told in *. destruct (is_resetting (in_session s a)) eqn:Hir.
  - eapply wp_mono; [by apply (sync_reset_spec s3 t p (content a) _ (be32 (end_of_data a) 8))|].
    intros [[rv s'] t'] w'. unfold reset_post. rewrite Hrst.
    destruct (reset_outcome s t (content a)) as [[[ps ks] m]|].
    + rewrite Hself. intros (-> & -> & Hok & Hps & Hks & Hm & evs & Htold & Hw). split; [done|]. do 2 (split; [done|]).
      split; [split_and!; try done; intros c; rewrite Hm; apply decide_ext; naive_solver|]. exists evs. split; [|done].
      unfold reset_told in *. by rewrite Hself in Htold.
    + intros (-> & -> & -> & Hw). split; [done|]. do 2 (split; [done|]). split; [|done]. intros _. by split_and!.
  - destruct Hp as ((-> & _) & (-> & _) & (-> & _) & (-> & _)).
    assert (response_ok (E := E) s3 t (content a)) as Hc3 by (unfold response_ok in *; by rewrite Hself).
    eapply wp_mono; [by apply (sync_update_tables_spec s3 t (content a) _ (be32 (end_of_data a) 8))|].
    intros [[rv s'] t'] w' [Hok Hres]. split; [done|]. rewrite Hacc in Hres.
    assert (∀ s0, is_resetting s0 = false → set_is_resetting s0 false = s0) as Hset by by intros [] Hf; simpl in Hf; subst.
    destruct (accepted s t (content a)) as [[[ps ks] m]|].
    + rewrite Hself in Hres. destruct Hres as (-> & -> & Hps & Hks & Hm & _ & ops & at_ & Hat & Hrep & Hw).
      split; [done|]. split; [by rewrite Hset|]. split; [split_and!; try done; intros c; rewrite Hm; apply decide_ext; naive_solver|].
      eexists. split; [|exact Hw]. exists ops, at_. split; [done|]. rewrite Hm, decide_True by done. split; [done|].
      by rewrite (proj1 (same_self_ops s s3 _ Hself)), (proj2 (same_self_ops s s3 _ Hself)).
    + destruct Hres as (-> & -> & Hd & Hw). split; [done|]. split.
      { symmetry. apply Hset. unfold changed. by case_decide. }
      split; [|done]. intros [?|Hdist]; [done|]. apply Hd. unfold distinct in *.
      by rewrite (proj1 (same_self_ops s s3 _ Hself)), (proj2 (same_self_ops s s3 _ Hself)).
Qed.

(** ** The whole synchronisation *)

(** A computation that depends on the world it starts in. *)
Lemma wp_here {A} (f : world E → M E A) (Q : A → world E → Prop) w : wp (f w) Q w → wp (λ w, f w w) Q w.
Proof. done. Qed.

Lemma supply_enough l : (length (bytes_of l) <= supply l)%nat.
Proof. induction l as [|[b|e] l IH]; simpl; [done| |lia]. rewrite length_app. lia. Qed.

(** A socket that has received a PDU judges the others by its version alone. *)
Lemma downgraded_received s ty v : has_received_pdus (downgrade s ty v) = true.
Proof. unfold downgrade. destruct (has_received_pdus s) eqn:Hh; [done|]. by case_match. Qed.

Lemma in_session_received s a : has_received_pdus (in_session s a) = true.
Proof.
  unfold in_session. pose proof (downgraded_received s CACHE_RESPONSE (byte_at (cache_response a) 0)).
  by repeat case_match.
Qed.

Lemma data_length s bs : Forall (λ b, welcome s b ∧ is_data b) bs → (length bs <= length (concat bs))%nat.
Proof.
  induction 1 as [|b bs [((_ & Hl & Hlen & _) & _) _] _ IH]; simpl; [done|]. rewrite length_app. lia.
Qed.

Lemma sync_first_spec fuel s b l buf (Q : Z * rtr_socket * buffer → world E → Prop) w :
  (0 < fuel)%nat → welcome s b → type_of b ≠ SERIAL_NOTIFY → b ++ l `prefix_of` bytes_of (stream (net w)) →
  state s ≠ RTR_SHUTDOWN → bytes buf → RTR_MAX_PDU_LEN <= Z.of_nat (length buf) →
  (∀ w' rest, hears w [] b w' →
     Q (RTR_SUCCESS, downgrade s (type_of b) (byte_at b 0), hosted b ++ rest) w') →
  wp (sync_first_pdu fuel s buf) Q w.
Proof.
  intros Hf Hb Ht Hpre Hs Hbuf Hl HQ. destruct fuel as [|fuel]; [lia|]. cbn [sync_first_pdu]. wp_step.
  apply (wp_receive s b l); try done. intros w' rest Hw _ _. cbv beta iota.
  change (RTR_SUCCESS =? RTR_TR_CLOSED) with false. change (RTR_SUCCESS =? RTR_TR_WOULDBLOCK) with false.
  change (RTR_SUCCESS <? 0) with false. simpl andb. cbv iota. wp_step. rewrite stored_type by apply Hb. wp_step.
  rewrite decide_False by done. wp_step. by apply HQ.
Qed.

Definition sync_post s t (a : answer) w : Z * rtr_socket * tables HT → world E → Prop := λ '(rv, s', t') w',
  tables_ok (E := E) t' ∧
  match answer_outcome s t a with
  | Some (ps, ks, m) =>
      rv = RTR_SUCCESS ∧ (∃ now, s' = Socket.set_last_update (set_request_session_id (answered s a) false) now) ∧
      answer_applied s t a t' ps ks m ∧
      ∃ evs, answer_told s t a t' evs ∧ hears w evs (answer_bytes a) w'
  | None =>
      rv = RTR_ERROR ∧
      s' = set_is_resetting (changed (with_intervals (in_session s a) (end_of_data a)) RTR_ERROR_FATAL) false ∧
      (is_resetting (in_session s a) = true ∨ distinct s (content a) → same_records t t') ∧
      ∃ evs, hears w evs (answer_bytes a) w'
  end.

Lemma rtr_sync_spec stack s t a w :
  bytes stack → RTR_MAX_PDU_LEN <= Z.of_nat (length stack) → state s ≠ RTR_SHUTDOWN →
  answer_ok s a → tables_ok (E := E) t → content_ok s t a → answer_bytes a `prefix_of` bytes_of (stream (net w)) →
  no_fail w → clock_works w → wp (rtr_sync stack s t) (sync_post s t a w) w.
Proof.
  intros Hstack Hlen Hsd Ha Ht Hc Hpre Hnf Hclock. pose proof Ha as (Hcr & Htcr & Hdata & Hn & Heod & Hteod & Hid & _).
  unfold rtr_sync. apply (wp_here (λ w0, sync_first_pdu (S (supply (stream (net w0)))) s stack ≫= _)). wp_step. eapply (sync_first_spec _ s _ _ _ _ w); [lia|exact Hcr|by rewrite Htcr|exact Hpre|done..|].
  intros w1 rest Hw1. cbv beta iota. change (RTR_SUCCESS =? RTR_ERROR) with false. cbv iota. wp_step.
  rewrite stored_type, Htcr by apply Hcr. wp_step. cbv beta iota. wp_step.
  apply handle_cache_response_spec; [apply Hcr|done| |].
  { revert Hid. unfold in_session. destruct (request_session_id _); [by left|by right]. }
  cbv beta iota. fold (in_session s a). wp_step. pose proof (hears_prefix _ _ _ _ _ Hw1 Hpre) as Hpre1.
  unfold rtr_sync_receive_and_store_pdus. apply (wp_here (λ w0, sync_receive_loop (S (supply (stream (net w0)))) _ _ _ _)).
  eapply (sync_loop_spec _ _ _ _ no_response (data_pdus a) (end_of_data a) _ _ w1); try done.
  - destruct Hpre1 as [tl Hpre1]. pose proof (supply_enough (stream (net w1))) as Hs. rewrite Hpre1, !length_app in Hs.
    pose proof (data_length _ _ Hdata). lia.
  - apply in_session_received.
  - by rewrite (proj2 (in_session_self s a)).
  - by eapply hears_no_fail.
  - intros p rest' w2 Hp Hw2 _ _. pose proof (hears_trans _ _ _ _ _ _ _ Hw1 Hw2) as Hw02.
    eapply wp_mono; [apply handle_eod_spec; try done; by eapply hears_no_fail|].
    intros [[rv s'] t'] w3 [Hok Hres]. cbv beta iota. unfold sync_post.
    destruct (answer_outcome s t a) as [[[ps ks] m]|].
    + destruct Hres as (-> & -> & Happ & evs & Htold & Hw3). change (RTR_SUCCESS =? RTR_ERROR) with false. cbv iota.
      pose proof (hears_then_runs _ _ _ _ _ _ Hw02 Hw3) as Hw03. wp_step. unfold rtr_set_last_update. wp_step.
      apply wp_time_works. intros now w4 (Ha4 & He4 & Hs4 & _ & _ & Hc4) Hnow.
      destruct Hnow as [now' ->]; [by eapply clock_works_later; [apply Hw03|]|]. cbv beta iota. wp_step.
      change (RTR_SUCCESS =? RTR_ERROR) with false. cbv iota. wp_step. split; [done|]. split; [done|]. split; [by exists now'|].
      split; [done|]. exists evs. split; [done|]. destruct Hw03 as (He & Hf & Hd & Hck).
      split; [by rewrite He4, He|]. split; [unfold no_fail in *; by rewrite Ha4|]. split; [by rewrite Hs4|by trans (clock (net w3))].
    + destruct Hres as (-> & -> & Hsame & evs & Hw3). rewrite Z.eqb_refl. wp_step. split; [done|].
      do 2 (split; [done|]). split; [done|]. exists evs. by apply (hears_then_runs _ [] _ w2).
Qed.

(** C3: A synchronisation, from the bytes on the wire to the tables.  Assumptions: the
    socket is not shut down, all PDUs of the answer are well-formed, of the version of the
    socket and of its session, their prefixes have no host bits, the router key table has
    room for the keys, and no ASPA of the cache is replaced by an announcement that is
    followed, in the order of the customers, by one of another customer; memory lasts and
    the clock works.  If the answer of the cache arrives - Cache Response, data and Serial
    Notify PDUs, End of Data, however the network cuts it - [rtr_sync] reads exactly its
    bytes.  If every PDU can be applied it succeeds: the tables have the records that
    result, those of the other caches are untouched, a session that starts over has replaced
    the records of the cache (but for its ASPAs, if the answer has no ASPA PDU: they stay),
    the clients are told the changes, and the socket has the session, the serial number and
    the intervals of the answer.  If a PDU cannot be applied it fails in the state of a
    fatal error; the records are those from before if the session starts over, and otherwise
    if no prefix or key occurs twice in the answer. *)
Theorem rtr_sync_correct stack s t a w :
  bytes stack → RTR_MAX_PDU_LEN <= Z.of_nat (length stack) → state s ≠ RTR_SHUTDOWN →
  answer_ok s a → tables_ok (E := E) t → content_ok s t a → answer_bytes a `prefix_of` bytes_of (stream (net w)) →
  no_fail w → clock_works w →
  wp (rtr_sync stack s t) (λ '(rv, s', t') w', tables_ok (E := E) t' ∧
    match answer_outcome s t a with
    | Some (ps, ks, m) =>
        rv = RTR_SUCCESS ∧ (∃ now, s' = Socket.set_last_update (set_request_session_id (answered s a) false) now) ∧
        answer_applied s t a t' ps ks m ∧
        ∃ evs, answer_told s t a t' evs ∧ hears w evs (answer_bytes a) w'
    | None =>
        rv = RTR_ERROR ∧
        s' = set_is_resetting (changed (with_intervals (in_session s a) (end_of_data a)) RTR_ERROR_FATAL) false ∧
        (is_resetting (in_session s a) = true ∨ distinct s (content a) → same_records t t') ∧
        ∃ evs, hears w evs (answer_bytes a) w'
    end) w.
Proof. apply rtr_sync_spec. Qed.

End Sync.

(** ** Instances *)

#[local] Existing Instance debug_build.
#[local] Existing Instance little_endian_host.

Definition stack0 : list Z := replicate (Z.to_nat RTR_MAX_PDU_LEN) 0.

Lemma stack0_ok : bytes stack0 ∧ RTR_MAX_PDU_LEN <= Z.of_nat (length stack0).
Proof.
  unfold stack0. split; [apply Forall_replicate; decided|]. rewrite length_replicate. unfold RTR_MAX_PDU_LEN. lia.
Qed.

(** A socket before its first synchronisation. *)
Definition new_socket : rtr_socket :=
  RtrSocket 7 3600 0 7200 600 RTR_INTERVAL_MODE_DEFAULT_MIN_MAX RTR_SYNC 0 true 0 1 None 2 false false.

(** Two prefixes and an ASPA record, with a Serial Notify PDU in between; session 42,
    serial number 6, a refresh interval of 3 days (more than the maximum). *)
Definition test_answer : answer :=
  Answer [2; 3; 0; 42; 0; 0; 0; 8]
    [ipv4_pdu 1 1; [2; 0; 0; 42; 0; 0; 0; 12; 0; 0; 0; 7]; ipv4_pdu 1 2; aspa_pdu]
    [2; 7; 0; 42; 0; 0; 0; 24; 0; 0; 0; 6; 0; 3; 244; 128; 0; 0; 2; 88; 0; 0; 28; 32].

Definition test_net : network :=
  Network [Segment (take 5 (answer_bytes test_answer)); Segment (drop 5 (answer_bytes test_answer)); RecvFails TR_CLOSED]
    [] [] [].

Lemma rtr_sync_correct_witness :
  ∃ st w, spki_table_init (Some 2%nat) (World [] [] test_net) = Some (st, w) ∧
    wp (rtr_sync stack0 new_socket (empty_tables st)) (λ '(rv, s', t') w',
      rv = RTR_SUCCESS ∧ session_id s' = 42 ∧ serial_number s' = 6 ∧ refresh_interval s' = 86400 ∧
      length (pfx_records (pfx_table t')) = 2%nat ∧ aspa_map (aspa_table t') 7 = {[9 := [5; 6]]} ∧
      bytes_of (stream (net w')) = []) (w : world rtr_log).
Proof.
  destruct (empty_tables_ok (World [] [] test_net)) as (st & w & Hi & Hnf & Hk & Hok & Hnet); [constructor|].
  exists st, w. split; [done|]. destruct stack0_ok as [Hb Hl]. eapply wp_mono.
  { apply (@rtr_sync_correct debug_build little_endian_host rtr_log _ _ _ _ _ _ _ _
      stack0 new_socket (empty_tables st) test_answer w);
      [exact Hb|exact Hl|discriminate| |exact Hok| | |exact Hnf|].
    - decided.
    - split; [decided|]. split; [simpl; rewrite Hk; vm_compute; discriminate|vm_compute; intuition discriminate].
    - rewrite Hnet. by exists [].
    - unfold clock_works. rewrite Hnet. constructor. }
  intros [[rv s'] t'] w' (_ & Hres).
  assert (∃ ps, answer_outcome new_socket (empty_tables st) test_answer = Some (ps, [], {[9 := [5; 6]]}) ∧ length ps = 2%nat)
    as (ps & Hacc & Hlen).
  { change (answer_outcome new_socket (empty_tables st) test_answer)
      with (accepted new_socket (empty_tables st) (content test_answer)).
    unfold accepted, key_records, spki_records. change (spki_table (empty_tables st)) with (Some st).
    cbv beta iota. rewrite Hk. eexists. split; vm_compute; reflexivity. }
  rewrite Hacc in Hres. destruct Hres as (-> & [now ->] & (Hps & _ & Hm) & evs & _ & _ & _ & (Hd & _) & _).
  do 4 (split; [done|]). split; [by rewrite Hps|]. split; [rewrite Hm by (by left); done|].
  rewrite Hnet in Hd. vm_compute in Hd. by repeat (injection Hd as Hd).
Defined.

(** ** Limits *)

(** A synchronisation and then, as after a Cache Reset PDU, one that starts over. *)
Definition sync_and_reset (net : network)
  : option (Z * gmap Z (list Z) * Z * list rtr_pfx_record * gmap Z (list Z)) :=
  fst <$> (st ← spki_table_init (Some 2%nat);
   '(rv, s, t) ← rtr_sync stack0 new_socket (empty_tables st);
   '(rv', s', t') ← rtr_sync stack0 (set_request_session_id s true) t;
   mret (rv, aspa_map (aspa_table t) 7, rv', pfx_records (pfx_table t'), aspa_map (aspa_table t') 7))
    (World [] ([] : list rtr_log) net).

(** The cache starts over with a single prefix. *)
Definition reset_answer : answer :=
  Answer (cache_response test_answer) [ipv4_pdu 1 1] (end_of_data test_answer).

(** A reset whose answer has no ASPA PDU removes the prefixes that the cache does not
    announce any more, but leaves the ASPA records of the cache in the table. *)
Theorem reset_keeps_aspas :
  sync_and_reset (Network [Segment (answer_bytes test_answer); Segment (answer_bytes reset_answer)] [] []
    (replicate 40 (Some (100, 0)))) =
  Some (RTR_SUCCESS, {[9 := [5; 6]]}, RTR_SUCCESS, [wire_prefix 7 (ipv4_pdu 1 1)], {[9 := [5; 6]]}).
Proof. vm_compute. reflexivity. Qed.
