(* ===== verification/ReceiveTheorems.v ===== *)
(** * Receiving PDUs: the theorems *)

From Stdlib Require Import String.
From S2P Require Import Prelude Ip PfxTable Spki Hashlin AspaArray Aspa AspaUpdate Pdu PduProofs PduTheorems.
From S2P Require Import Transport TransportProofs Socket Packets PacketsProofs ReceiveProofs UpdateProofs SyncProofs.
From S2P Require Import Update UpdateTheorems Sync SyncTheorems.
Open Scope Z_scope.

(** ** Conversion of a received PDU *)

(** The offsets of the 32-bit members of a PDU: the length, a serial number, prefixes and AS
    numbers, the intervals, the customer and the providers, and the lengths of the PDU and the
    text in an error report. *)
Definition members32 (b : list Z) (t : pdu_type) (len : Z) : list nat :=
  (4 :: match t with
        | SERIAL_NOTIFY | SERIAL_QUERY => [8]
        | IPV4_PREFIX => [12; 16]
        | IPV6_PREFIX => [12; 16; 20; 24; 28]
        | EOD => if decide (len = 24%Z) then [8; 12; 16; 20] else [8]
        | ROUTER_KEY => [28]
        | ERROR => [8; 12 + Z.to_nat (be32 b 8)]
        | ASPA => 8 :: ((λ k, 12 + 4 * k) <$> seq 0 (Z.to_nat ((len - 12) / 4)%Z))
        | RESET_QUERY | CACHE_RESPONSE | CACHE_RESET | RESERVED | UNKNOWN_TYPE => []
        end)%nat.

(** The session identifier or the error code is a 16-bit member at offset 2. *)
Definition has_member16 (t : pdu_type) : bool := match t with ROUTER_KEY | ASPA => false | _ => true end.

Section Conversion.
Context `{Host}.

Lemma members32_footer b t len : valid_pdu b t len → ∀ off,
  off ∈ members32 b t len ↔ off = 4%nat ∨ off ∈ footer_offs (header_flip t b) t (Z.to_nat len).
Proof.
  intros Hv off. unfold members32. rewrite elem_of_cons. apply or_iff_compat_l. pose proof Hv as (Hb & Hl & Hlen & _).
  destruct t; simpl; try done.
  - destruct (decide (len = 24)) as [->|Hne]; [|rewrite (decide_False (P := Z.to_nat len = 24%nat)) by lia; done].
    rewrite decide_True by done. rewrite !elem_of_cons. tauto.
  - assert (take 4 (drop 8 (header_flip ERROR b)) = take 4 (drop 8 b)) as ->; [|done]. f_equal. apply list_eq. intros i. rewrite !lookup_drop.
    apply header_flip_out; lia.
  - replace (Z.to_nat ((len - 12) / 4)) with ((Z.to_nat len - 12) / 4)%nat; [done|]. destruct (decide (12 <= len)).
    + rewrite Z2Nat.inj_div by lia. f_equal. lia.
    + rewrite (Nat.div_small) by lia. assert ((len - 12) / 4 < 0) by (apply Z.div_lt_upper_bound; lia). lia.
Qed.

Lemma valid_of_header b h t len :
  bytes b → rtr_get_pdu_type b = Some t → (8 <= length b)%nat → rtr_pdu_header_to_host_byte_order b = Some h →
  get32 h 4 = Some len → (Z.to_nat len <= length b)%nat → len <= RTR_MAX_PDU_LEN → rtr_pdu_check_size h = Some true →
  valid_pdu (take (Z.to_nat len) b) t len.
Proof.
  intros Hb Ht Hl Hh Hlen Hll Hmax Hc. unfold rtr_pdu_header_to_host_byte_order in Hh. rewrite (convert_header_spec _ _ t) in Hh by done. injection Hh as <-.
  pose proof (check_size_header _ _ Hc Hlen) as H8. set (b0 := take (Z.to_nat len) b).
  assert (length b0 = Z.to_nat len) as Hl0 by (unfold b0; rewrite length_take; lia). assert (bytes b0) as Hb0 by by apply Forall_take.
  assert (b = b0 ++ drop (Z.to_nat len) b) as Hs by (unfold b0; by rewrite take_drop).
  assert (header_flip t b = header_flip t b0 ++ drop (Z.to_nat len) b) as Hf by (rewrite Hs at 1; rewrite header_flip_app by lia; done).
  assert (length (header_flip t b0) = length b0) as Hfl by (apply header_flip_length; lia).
  assert (get32 (header_flip t b0) 4 = Some len) as H4 by (rewrite Hf in Hlen; unfold get32 in *; by rewrite slice_app in Hlen by lia).
  rewrite Hf, (check_size_app _ _ len) in Hc; [|by apply header_flip_bytes|done|lia|lia].
  split_and!; try done; [lia|]. rewrite Hs, type_app in Ht by lia. done.
Qed.

(** C18: The conversion of a received PDU, on hosts of both byte orders.  Once the header of a
    PDU that passes the size check is in host byte order and its bytes are there, the
    conversion of the footer succeeds.  Then every numeric member, read as the host does, has
    the value that was sent in network byte order, all other bytes are those that were
    received, also behind the PDU, and the conversion for sending gives the received bytes. *)
Theorem pdu_roundtrip b h t len :
  bytes b → rtr_get_pdu_type b = Some t → (8 <= length b)%nat → rtr_pdu_header_to_host_byte_order b = Some h →
  get32 h 4 = Some len → (Z.to_nat len <= length b)%nat → len <= RTR_MAX_PDU_LEN → rtr_pdu_check_size h = Some true →
  ∃ p, rtr_pdu_footer_to_host_byte_order h = Some p ∧ length p = length b ∧
    (∀ off, off ∈ members32 b t len → get32 p off = Some (be32 b off)) ∧
    (has_member16 t = true → get16 p 2 = Some (be16 b 2)) ∧
    (∀ i, (∀ off, off ∈ members32 b t len → ¬ (off <= i < off + 4)%nat) → (has_member16 t = true → ¬ (2 <= i < 4)%nat) → p !! i = b !! i) ∧
    rtr_pdu_to_network_byte_order p = Some b.
Proof.
  intros Hb Ht Hl Hh Hlen Hll Hmax Hc. pose proof (valid_of_header _ _ _ _ Hb Ht Hl Hh Hlen Hll Hmax Hc) as Hv.
  set (b0 := take (Z.to_nat len) b) in *. set (rest := drop (Z.to_nat len) b).
  assert (b = b0 ++ rest) as Hs by (unfold b0, rest; by rewrite take_drop).
  destruct (host_order_spec b h len t) as (_ & _ & Hhost & Hnet & Hpl & _); try done. exists (host_order b t len). split; [done|]. split; [done|].
  rewrite Hs, host_order_app in * by done. clearbody b0 rest. clear Hs. pose proof Hv as (Hb0 & Hl0 & Hlen0 & Ht0 & H4 & _).
  destruct (valid_pdu_footer b0 t len Hv) as ((Hfit & H8 & _) & _ & Hpl0 & _). pose proof Hfit as [_ Hfits]. rewrite Forall_forall in Hfits.
  assert (∀ off n, (off + n <= length b0)%nat → take n (drop off (b0 ++ rest)) = take n (drop off b0)) as Hpre
    by (intros off n Ho; rewrite drop_app_le by lia; by rewrite take_app_le by (rewrite length_drop; lia)).
  assert (∀ off, off ∈ members32 (b0 ++ rest) t len ↔ off = 4%nat ∨ off ∈ footer_offs (header_flip t b0) t (Z.to_nat len)) as Hmem.
  { intros off. rewrite <- (members32_footer b0 t len Hv off). destruct t; try done. unfold members32, be32. rewrite Hpre; [done|].
    pose proof (valid_pdu_error _ _ Hv). lia. }
  split; [|split; [|split; [|done]]].
  - intros off Hoff. apply Hmem in Hoff. assert (off + 4 <= length b0)%nat as Ho by (destruct Hoff as [->|Hoff%Hfits]; lia).
    unfold get32, be32. rewrite slice_app, Hpre by lia. destruct Hoff as [->|Hoff]; [|by apply host_order_get32].
    fold (get32 (host_order b0 t len) 4). rewrite (host_order_len _ _ _ Hv). rewrite header_flip_len in H4 by lia. by injection H4 as <-.
  - intros H16. unfold get16, be16. rewrite slice_app, Hpre by lia. by apply host_order_get16; [done|by destruct t..].
  - intros i Hout H16. destruct (decide (i < length b0)%nat) as [Hi|Hi]; [|rewrite !lookup_app_r by lia; by rewrite Hpl0].
    rewrite !lookup_app_l by lia. unfold host_order. rewrite (flips_out _ _ (Z.to_nat len)); [|done|rewrite header_flip_length; lia|].
    + apply header_flip_out; [lia|]. destruct (has_member16 t) eqn:H16t.
      * specialize (H16 eq_refl). specialize (Hout 4%nat (proj2 (Hmem _) (or_introl eq_refl))). lia.
      * specialize (Hout 4%nat (proj2 (Hmem _) (or_introl eq_refl))). destruct t; try done; [destruct (decide (i < 4)%nat)..]; [right; right; split; [done|by left]|lia|right; right; split; [done|by right]|lia].
    + apply Forall_forall. intros off Hoff. apply Hout, Hmem. by right.
Qed.
End Conversion.

(** ** Receiving *)

Section ReceiveTheorems.
Context `{Build} `{Host} {E : Type} `{!Event tr_event E} `{!Event rtr_event E}.
Implicit Types (s : rtr_socket) (w : world E) (b : list Z).


End ReceiveTheorems.

(** ** Instances *)

#[local] Existing Instance debug_build.
#[local] Existing Instance little_endian_host.

(** 10.1.0.0/16-24, AS 64497, announced in version 2. *)
Definition ipv4_bytes : list Z := [2; 4; 0; 0; 0; 0; 0; 20; 1; 16; 24; 0; 10; 1; 0; 0; 0; 0; 251; 241].

Lemma pdu_roundtrip_witness :
  ∃ p, rtr_pdu_footer_to_host_byte_order (header_flip IPV4_PREFIX ipv4_bytes) = Some p ∧
    rtr_pdu_to_network_byte_order p = Some ipv4_bytes ∧ get32 p 12 = Some 167837696 ∧ p !! 9%nat = Some 16.
Proof.
  destruct (pdu_roundtrip ipv4_bytes (header_flip IPV4_PREFIX ipv4_bytes) IPV4_PREFIX 20) as (p & Hp & _ & H32 & _ & Hout & Hn);
    [decided|by vm_compute|decided|by vm_compute|by vm_compute|decided|decided|by vm_compute|].
  exists p. split; [exact Hp|]. split; [exact Hn|]. split; [rewrite H32 by decided; by vm_compute|].
  rewrite Hout; [done| |lia]. apply Forall_forall. decided.
Defined.

Definition notify_bytes : list Z := [2; 0; 0; 42; 0; 0; 0; 12; 0; 0; 0; 7].


(** ** Limits *)

(** When the refresh interval ends in the middle of a header, the bytes that had
    arrived are dropped although waiting is reported to be successful, and the rest of
    the PDU is taken for the start of the next one.  The synchronisation that follows
    sees a PDU of another version and fails, with the state of the socket unchanged. *)
Theorem partial_header_lost :
  let net := Network [Segment (take 5 notify_bytes); RecvFails TR_WOULDBLOCK;
                      Segment (drop 5 notify_bytes ++ answer_bytes test_answer)] [] [] [] in
  ∃ w, rtr_wait_for_sync stack0 test_socket (World [] ([] : list rtr_log) net) = Some ((RTR_SUCCESS, test_socket), w) ∧
    bytes_of (stream (Prelude.net w)) = drop 5 notify_bytes ++ answer_bytes test_answer ∧
    ∃ st w1 s' t' w2, spki_table_init None w = Some (st, w1) ∧
      rtr_sync stack0 test_socket (empty_tables st) w1 = Some ((RTR_ERROR, s', t'), w2) ∧ state s' = RTR_SYNC.
Proof.
  eexists. split; [vm_compute; reflexivity|]. split; [reflexivity|].
  eexists _, _, _, _, _. split; [vm_compute; reflexivity|]. split; [vm_compute; reflexivity|]. reflexivity.
Qed.
