(* ===== verification/Rtr.v ===== *)
(** * The state machine of a socket: [rtrlib/rtr/rtr.c]

    The thread of a socket repeats [fsm_iteration] until the state is [RTR_SHUTDOWN];
    another thread may ask for that between any two iterations.  Cancellation, which
    only happens where the code waits, is not modelled.  Closing a transport leaves the
    stream of the model alone: what a new connection delivers is the rest of it. *)

From stdpp Require Import strings.
From S2P Require Import Prelude Ip PfxTable Spki Hashlin AspaArray Aspa AspaUpdate.
From S2P Require Import Pdu Transport Socket Packets Update Sync.
Open Scope Z_scope.

(** What the thread of a socket works on. *)
Record machine (HT : Type) := Machine { m_socket : rtr_socket; m_tables : tables HT }.
Arguments Machine {HT} _ _.
Arguments m_socket {HT} _.
Arguments m_tables {HT} _.

Section Rtr.
Context `{Build} `{Host} {E HT : Type} `{!HashTable E HT key_entry}.
Context `{!Event pfx_event E} `{!Event spki_event E} `{!Event aspa_event E}.
Context `{!Event tr_event E} `{!Event rtr_event E}.
Implicit Types (s : rtr_socket) (t : tables HT) (m : machine HT).

(** ** Outdated records *)

(** The three calls that remove the records of the socket; their results are ignored. *)
Definition remove_records s t : M E (tables HT) :=
  '(_, pt) ← rtr_pfx_table_src_remove (pfx_table t) (self s);
  '(_, st) ← spki_table_src_remove (spki_table t) (self s);
  '(_, at_) ← rtr_aspa_table_src_remove (aspa_table t) (self s) true;
  mret (Tables pt st at_).

(** [request_session_id = true], [serial_number = 0] and [last_update = 0]. *)
Definition forget_session s : rtr_socket :=
  Socket.set_last_update (set_serial_number (set_request_session_id s true) 0) 0.

Definition rtr_purge_outdated_records m : M E (machine HT) :=
  let s := m_socket m in
  if last_update s =? 0 then mret m
  else
    cur_time ← rtr_get_monotonic_time;
    let expired := match cur_time with
                   | None => true
                   | Some cur_time => last_update s + expire_interval s <? cur_time
                   end in
    if expired then
      t ← remove_records s (m_tables m);
      mret (Machine (set_is_resetting (forget_session s) true) t)
    else mret m.

(** ** Starting and stopping *)

Definition sleep (n : Z) : M E unit := emit (event (Slept n)).

(** [once_ok]: the result of [pthread_once]; [thread]: the identifier of the new
    thread, if there is one. *)
Definition rtr_start s (once_ok : bool) (thread : option Z) : M E (Z * rtr_socket) :=
  if negb (thread_id s =? 0) then mret (RTR_ERROR, s)
  else if negb once_ok then mret (RTR_ERROR, s)
  else
    ok ← alloc;
    if negb ok then mret (RTR_ERROR, s)
    else
      match thread with
      | Some id => mret (RTR_SUCCESS, set_thread_id s id)
      | None => mret (RTR_ERROR, s)
      end.

(** The start of [rtr_fsm_start]: the socket the loop starts with, unless the thread
    ends at once; [callback] is the result of the callback, if there is one. *)
Definition fsm_begin s (setspecific_ok : bool) (callback : option Z) : option rtr_socket :=
  if negb setspecific_ok then None
  else if decide (state s = RTR_SHUTDOWN) then None
  else
    match callback with
    | Some res => if negb (res =? RTR_SUCCESS) then None else Some (set_state s RTR_CONNECTING)
    | None => Some (set_state s RTR_CONNECTING)
    end.

(** After the change of state: the thread, if there is one, is waited for. *)
Definition finish_stop m : M E (machine HT) :=
  let s := m_socket m in
  if negb (thread_id s =? 0) then
    tr_close;;
    t ← remove_records s (m_tables m);
    mret (Machine (set_state (set_thread_id (forget_session s) 0) RTR_CLOSED) t)
  else mret m.

(** The thread does not change the socket while it is waited for: it ends. *)
Definition rtr_stop m : M E (machine HT) :=
  s ← rtr_change_socket_state (m_socket m) RTR_SHUTDOWN;
  finish_stop (Machine s (m_tables m)).

(** ** The state machine *)

(** What the buffers on the stack contain before something is written to them. *)
Context (stack : buffer).

Definition set_socket m s : machine HT := Machine s (m_tables m).

(** [rtr_change_socket_state] on the socket of the machine. *)
Definition change_state m (st : rtr_socket_state) : M E (machine HT) :=
  s ← rtr_change_socket_state (m_socket m) st; mret (set_socket m s).

Definition fsm_connecting m : M E (machine HT) :=
  let m := set_socket m (set_has_received_pdus (m_socket m) false) in
  m ← rtr_purge_outdated_records m;
  ok ← tr_open;
  if negb ok then change_state m RTR_ERROR_TRANSPORT
  else if request_session_id (m_socket m) then change_state m RTR_RESET
  else
    '(rtval, s) ← rtr_send_serial_query (m_socket m);
    let m := set_socket m s in
    if rtval =? RTR_SUCCESS then change_state m RTR_SYNC else change_state m RTR_ERROR_FATAL.

Definition fsm_reset m : M E (machine HT) :=
  '(rtval, s) ← rtr_send_reset_query (m_socket m);
  let m := set_socket m s in
  if rtval =? RTR_SUCCESS then change_state m RTR_SYNC else mret m.

Definition fsm_sync m : M E (machine HT) :=
  '(rtval, s, t) ← rtr_sync stack (m_socket m) (m_tables m);
  let m := Machine s t in
  if rtval =? RTR_SUCCESS then change_state m RTR_ESTABLISHED else mret m.

Definition fsm_established m : M E (machine HT) :=
  '(ret, s) ← rtr_wait_for_sync stack (m_socket m);
  let m := set_socket m s in
  if ret =? RTR_SUCCESS then
    '(rtval, s) ← rtr_send_serial_query (m_socket m);
    let m := set_socket m s in
    if rtval =? RTR_SUCCESS then change_state m RTR_SYNC else mret m
  else mret m.

(** [RTR_ERROR_TRANSPORT] and [RTR_ERROR_FATAL]. *)
Definition fsm_reconnect m : M E (machine HT) :=
  tr_close;;
  m ← change_state m RTR_CONNECTING;
  sleep (retry_interval (m_socket m));;
  mret m.

(** [RTR_ERROR_NO_DATA_AVAIL] and, without waiting, [RTR_ERROR_NO_INCR_UPDATE_AVAIL]. *)
Definition fsm_start_over m (wait : bool) : M E (machine HT) :=
  let m := set_socket m (set_serial_number (set_request_session_id (m_socket m) true) 0) in
  m ← change_state m RTR_RESET;
  (if wait then sleep (retry_interval (m_socket m)) else mret tt);;
  rtr_purge_outdated_records m.

(** An iteration of the loop; in [RTR_SHUTDOWN] the thread ends. *)
Definition fsm_iteration m : M E (machine HT) :=
  match state (m_socket m) with
  | RTR_CONNECTING => fsm_connecting m
  | RTR_RESET => fsm_reset m
  | RTR_SYNC => fsm_sync m
  | RTR_ESTABLISHED => fsm_established m
  | RTR_FAST_RECONNECT => tr_close;; change_state m RTR_CONNECTING
  | RTR_ERROR_NO_DATA_AVAIL => fsm_start_over m true
  | RTR_ERROR_NO_INCR_UPDATE_AVAIL => fsm_start_over m false
  | RTR_ERROR_TRANSPORT | RTR_ERROR_FATAL => fsm_reconnect m
  | RTR_SHUTDOWN | RTR_CLOSED => mret m
  end.

(** The steps of a socket: an iteration of its thread, or the request to shut down that
    [rtr_stop] makes from another thread. *)
Inductive fsm_step : machine HT * world E → machine HT * world E → Prop :=
| fsm_iterate m w m' w' :
    state (m_socket m) ≠ RTR_SHUTDOWN → fsm_iteration m w = Some (m', w') → fsm_step (m, w) (m', w')
| fsm_shutdown m w m' w' :
    change_state m RTR_SHUTDOWN w = Some (m', w') → fsm_step (m, w) (m', w').

(** [n] iterations. *)
Fixpoint fsm_run (n : nat) m : M E (machine HT) :=
  match n with
  | O => mret m
  | S n => if decide (state (m_socket m) = RTR_SHUTDOWN) then mret m else m ← fsm_iteration m; fsm_run n m
  end.

End Rtr.

(** ** Names of states *)

Definition socket_str_states : list string :=
  ["RTR_CONNECTING"; "RTR_ESTABLISHED"; "RTR_RESET"; "RTR_SYNC"; "RTR_FAST_RECONNECT"; "RTR_ERROR_NO_DATA_AVAIL";
   "RTR_ERROR_NO_INCR_UPDATE_AVAIL"; "RTR_ERROR_FATAL"; "RTR_ERROR_TRANSPORT"; "RTR_SHUTDOWN"].

(** The values of the enumeration. *)
Definition state_value (st : rtr_socket_state) : nat :=
  match st with
  | RTR_CONNECTING => 0
  | RTR_ESTABLISHED => 1
  | RTR_RESET => 2
  | RTR_SYNC => 3
  | RTR_FAST_RECONNECT => 4
  | RTR_ERROR_NO_DATA_AVAIL => 5
  | RTR_ERROR_NO_INCR_UPDATE_AVAIL => 6
  | RTR_ERROR_FATAL => 7
  | RTR_ERROR_TRANSPORT => 8
  | RTR_SHUTDOWN => 9
  | RTR_CLOSED => 10
  end.

(** [None]: an access beyond the end of the array. *)
Definition rtr_state_to_str (st : rtr_socket_state) : option string := socket_str_states !! state_value st.

(** The name of the state of a socket that was not started is looked up beyond the end of
    the array of names, and only that. *)
Lemma state_name_undefined st : rtr_state_to_str st = None ↔ st = RTR_CLOSED.
Proof. by destruct st. Qed.
