(* ===== verification/RtrProofs.v ===== *)
(** * The state machine: proofs

    Removing the records of a socket, and what an iteration does to the socket whatever
    the cache sends. *)

From Stdlib Require Import String.
From S2P Require Import Prelude Ip PfxTable PfxTableProofs PfxTableBulk Hashlin Spki SpkiProofs SetOps.
From S2P Require Import AspaArray Aspa AspaUpdate AspaVerification AspaVerificationProofs.
From S2P Require Import AspaUpdateProofs AspaTheorems AspaSwapIn AspaReplace.
From S2P Require Import Pdu PduProofs PduTheorems Transport TransportProofs Socket Packets PacketsProofs ReceiveProofs.
From S2P Require Import Update UpdateProofs UpdateInstances AspaPdus SyncUpdate Sync SyncProofs SyncReset Rtr.
Open Scope Z_scope.

Section Removal.
Context `{Build} `{Host} {E HT : Type} `{!HashTable E HT key_entry} `{!HashTableSpec E HT key_entry}.
Context `{!Event pfx_event E} `{!Event spki_event E} `{!Event aspa_event E}.
Context `{!Event tr_event E} `{!Event rtr_event E}.
Implicit Types (s : rtr_socket) (w : world E) (t : tables HT) (m : machine HT).

(** The tables without the records of a cache. *)
Definition without (sock : socket_ptr) t t' : Prop :=
  pfx_records (pfx_table t') ≡ₚ of_others sock (pfx_records (pfx_table t)) ∧
  key_records (spki_table t') = keys_of_others sock (key_records (spki_table t)) ∧
  ∀ c, aspa_map (aspa_table t') c = if decide (c = sock) then ∅ else aspa_map (aspa_table t) c.

(** The clients of the prefix and the ASPA table are told, those of the router keys are
    not. *)
Definition removal_told (sock : socket_ptr) t (evs : list E) : Prop := ∃ a gone,
  aspa_table t = Some a ∧ gone ≡ₚ of_socket sock (pfx_records (pfx_table t)) ∧
  evs = all_told (pfx_table t) (Withdraw <$> gone) ++
        aspa_notifications a (cache_records a sock) sock RTR_ASPA_REMOVE.

Lemma remove_records_spec s t w :
  tables_ok (E := E) t → no_fail w →
  wp (remove_records s t) (λ t' w', tables_ok (E := E) t' ∧ without (self s) t t' ∧
    ∃ evs, removal_told (self s) t evs ∧ emits w evs w') w.
Proof.
  destruct t as [[pt|] [st|] [a|]]; intros (Hp & Hk & Ha) Hnf; try done. simpl in Hp, Hk, Ha.
  unfold remove_records. simpl. wp_step. eapply wp_mono; [by apply rtr_pfx_table_src_remove_spec|].
  intros [rv pt'] w1 (pt2 & -> & gone & Hp2 & Hfp & Hperm & Hg & Hw1 & Hres). cbv beta iota. wp_step.
  assert (no_fail w1) as Hnf1 by by eapply emits_no_fail.
  eapply wp_mono; [by apply src_remove_spec|].
  intros [rvk st'] w2 (_ & Hw2 & st2 & -> & Hk2 & Hfp2 & Hkl). cbv beta iota. wp_step.
  assert (no_fail w2) as Hnf2 by by eapply emits_no_fail.
  eapply wp_mono; [by apply aspa_src_remove_spec|].
  intros [rva at'] w3 (_ & a2 & -> & Ha2 & _ & Hrec & Hw3). cbv beta iota. wp_step.
  assert (rv = RTR_PFX_SUCCESS) as -> by (destruct rv; try done; by destruct Hres).
  rewrite Forall_forall in Hg, Hres.
  assert (records pt2 ≡ₚ of_others (self s) (records pt) ∧ gone ≡ₚ of_socket (self s) (records pt)) as [Hoth Hgone].
  { unfold of_others, of_socket. rewrite Hperm, !filter_app.
    rewrite (filter_all (λ r, PfxTable.socket r = self s) gone), (filter_none (λ r, PfxTable.socket r = self s) (records pt2)),
      (filter_none (λ r, PfxTable.socket r ≠ self s) gone), (filter_all (λ r, PfxTable.socket r ≠ self s) (records pt2));
      auto. by rewrite app_nil_r. }
  split; [by split_and!|]. split.
  - split; [done|]. split.
    + simpl. unfold spki_records, keys_of_others. rewrite Hkl. by apply fmap_filter.
    + intros c. simpl. unfold cache_map. rewrite Hrec. by case_decide.
  - eexists. split; [exists a, gone; split; [done|split; [done|reflexivity]]|]. simpl.
    assert (all_told (E := E) (Some pt) (Withdraw <$> gone) = removals pt gone) as ->.
    { apply (told_pfx pt pt []). done. }
    eapply emits_trans; [exact Hw1|]. by eapply emits_quiet.
Qed.

(** ** Outdated records *)

Definition outdated s (now : option Z) : Prop :=
  last_update s ≠ 0 ∧ match now with Some now => last_update s + expire_interval s < now | None => True end.

#[global] Instance outdated_dec s now : Decision (outdated s now).
Proof. unfold outdated. destruct now; apply _. Defined.

Definition purged m w : Prop := outdated (m_socket m) (reading w).

#[global] Instance purged_dec m w : Decision (purged m w).
Proof. apply outdated_dec. Defined.

Lemma purge_spec m w :
  tables_ok (E := E) (m_tables m) → no_fail w →
  wp (rtr_purge_outdated_records m) (λ m' w', tables_ok (E := E) (m_tables m') ∧
    if decide (purged m w)
    then m_socket m' = set_is_resetting (forget_session (m_socket m)) true ∧
         without (self (m_socket m)) (m_tables m) (m_tables m') ∧
         ∃ evs, removal_told (self (m_socket m)) (m_tables m) evs ∧ runs w evs w'
    else m' = m ∧ ticks w w') w.
Proof.
  intros Hok Hnf. unfold rtr_purge_outdated_records, purged. destruct (Z.eqb_spec (last_update (m_socket m)) 0) as [Hlu|Hlu].
  { wp_step. split; [done|]. rewrite decide_False by (unfold outdated; tauto). by split. }
  wp_step. apply wp_time_reading. intros w1 Ht. pose proof Ht as (Ha1 & He1 & Hs1 & _ & _ & Hc1). cbv beta zeta.
  assert (runs w [] w1) as Hw1.
  { split_and!; try done; [by rewrite He1, app_nil_r|unfold no_fail; by rewrite Ha1]. }
  destruct (decide (outdated (m_socket m) (reading w))) as [Hout|Hout].
  - assert (match reading w with None => true | Some n => last_update (m_socket m) + expire_interval (m_socket m) <? n end = true) as ->.
    { destruct (reading w) as [n|]; [|done]. apply Z.ltb_lt. apply Hout. }
    wp_step. eapply wp_mono; [by apply remove_records_spec; [|eapply runs_no_fail]|].
    intros t' w2 (Hok' & Hwo & evs & Htold & Hw2). wp_step. split; [done|]. split; [done|]. split; [done|].
    exists evs. split; [done|]. eapply (runs_trans _ []); [done|by apply runs_emits].
  - assert (match reading w with None => true | Some n => last_update (m_socket m) + expire_interval (m_socket m) <? n end = false) as ->.
    { destruct (reading w) as [n|]; [apply Z.ltb_ge|]; unfold outdated in Hout; [lia|tauto]. }
    wp_step. by split.
Qed.

(** ** Stopping *)

(** The socket once its thread has ended. *)
Definition stopped s : rtr_socket := set_state (set_thread_id (forget_session s) 0) RTR_CLOSED.

Lemma finish_stop_spec m w :
  tables_ok (E := E) (m_tables m) → no_fail w → thread_id (m_socket m) ≠ 0 →
  wp (finish_stop m) (λ m' w', tables_ok (E := E) (m_tables m') ∧ m_socket m' = stopped (m_socket m) ∧
    without (self (m_socket m)) (m_tables m) (m_tables m') ∧ ∃ evs, removal_told (self (m_socket m)) (m_tables m) evs ∧
    emits w ([event Closed] ++ evs) w') w.
Proof.
  intros Hok Hnf Hth. unfold finish_stop. cbv zeta. destruct (Z.eqb_spec (thread_id (m_socket m)) 0) as [|_]; [done|].
  simpl negb. cbv iota. wp_step. unfold tr_close. wp_step. rename w' into w2, H1 into Hw2. wp_step.
  eapply wp_mono; [apply remove_records_spec; [done|by eapply emits_no_fail]|].
  intros t' w3 (Hok' & Hwo & evs & Htold & Hw3). wp_step. split; [done|]. split; [done|]. split; [done|].
  exists evs. split; [done|]. by eapply emits_trans.
Qed.

Lemma changed_members s st : ∃ st', changed s st = set_state s st'.
Proof. unfold changed. case_decide; [exists (state s); by destruct s|by eexists]. Qed.

Lemma stop_spec m w :
  tables_ok (E := E) (m_tables m) → no_fail w → thread_id (m_socket m) ≠ 0 →
  wp (rtr_stop m) (λ m' w', tables_ok (E := E) (m_tables m') ∧ m_socket m' = stopped (m_socket m) ∧
    without (self (m_socket m)) (m_tables m) (m_tables m') ∧ ∃ evs, removal_told (self (m_socket m)) (m_tables m) evs ∧
    runs w (state_events (m_socket m) RTR_SHUTDOWN ++ [event Closed] ++ evs) w') w.
Proof.
  intros Hok Hnf Hth. unfold rtr_stop. wp_step. apply wp_change_state. intros w1 Hw1%runs_talks.
  destruct (changed_members (m_socket m) RTR_SHUTDOWN) as [st ->]. eapply wp_mono.
  { apply finish_stop_spec; [done|by eapply runs_no_fail|done]. }
  intros m' w' (Hok' & Hs & Hwo & evs & Htold & Hw'). split; [done|]. split; [rewrite Hs; by destruct (m_socket m)|].
  split; [done|]. exists evs. split; [done|]. eapply runs_trans; [exact Hw1|by apply runs_emits].
Qed.

End Removal.
