(* ===== verification/FsmProofs.v ===== *)
(** * The state machine: what every step keeps

    How a socket can change while its thread runs, whatever the cache sends, the network
    delivers and the allocator refuses. *)

From S2P Require Import Prelude Ip PfxTable Spki Hashlin AspaArray Aspa AspaUpdate AspaPdus.
From S2P Require Import Pdu Transport Socket Packets PacketsProofs Update Sync Rtr.
Open Scope Z_scope.

(** ** How a socket changes *)

Definition in_range (v minimum maximum : Z) : Prop := minimum <= v <= maximum.

(** The records of the cache are only going to be replaced if all of them are asked for. *)
Definition session_ok (s : rtr_socket) : Prop := implb (is_resetting s) (request_session_id s) = true.

(** A supported version and, unless the client accepts anything, intervals within the
    limits of RFC 8210. *)
Definition socket_ok (s : rtr_socket) : Prop :=
  session_ok s ∧ in_range (version s) RTR_PROTOCOL_MIN_SUPPORTED_VERSION RTR_PROTOCOL_MAX_SUPPORTED_VERSION ∧
  (iv_mode s ≠ RTR_INTERVAL_MODE_ACCEPT_ANY →
   in_range (refresh_interval s) RTR_REFRESH_MIN RTR_REFRESH_MAX ∧
   in_range (expire_interval s) RTR_EXPIRATION_MIN RTR_EXPIRATION_MAX ∧
   in_range (retry_interval s) RTR_RETRY_MIN RTR_RETRY_MAX).

(** The members the protocol does not change. *)
Definition identity (s : rtr_socket) := (self s, iv_mode s, thread_id s, connection_state_fp s).
(** The members that describe the session. *)
Definition session (s : rtr_socket) :=
  (session_id s, serial_number s, request_session_id s, is_resetting s, last_update s).

Definition is_failure (st : rtr_socket_state) : Prop :=
  st ∈ [RTR_FAST_RECONNECT; RTR_ERROR_NO_DATA_AVAIL; RTR_ERROR_NO_INCR_UPDATE_AVAIL; RTR_ERROR_FATAL;
        RTR_ERROR_TRANSPORT].
Definition is_disconnect (st : rtr_socket_state) : Prop := st ∈ [RTR_ERROR_FATAL; RTR_ERROR_TRANSPORT].

#[global] Instance socket_ok_dec s : Decision (socket_ok s).
Proof. unfold socket_ok, session_ok, in_range. apply _. Defined.

(** The state stays or becomes one of the given ones; nothing leaves [RTR_SHUTDOWN]. *)
Definition moves (P : rtr_socket_state → Prop) (s s' : rtr_socket) : Prop :=
  state s' = state s ∨ state s ≠ RTR_SHUTDOWN ∧ P (state s').

Definition settles (s s' : rtr_socket) : Prop :=
  identity s' = identity s ∧ version s' <= version s ∧ (socket_ok s → socket_ok s').

(** Handling what the cache sends. *)
Definition evolves (s s' : rtr_socket) : Prop := settles s s' ∧ moves is_failure s s'.
(** Sending and receiving. *)
Definition chats (s s' : rtr_socket) : Prop := settles s s' ∧ session s' = session s ∧ moves is_disconnect s s'.

#[global] Instance moves_preorder P : PreOrder (moves P).
Proof.
  split; [by left|]. intros s s' s'' [Hs|[Hs Hp]] [Hs'|[Hs' Hp']].
  - left. congruence.
  - right. by rewrite <- Hs.
  - right. by rewrite Hs'.
  - by right.
Qed.
#[global] Instance settles_preorder : PreOrder settles.
Proof.
  split; [by intros s|]. intros s s' s'' (Hi & Hv & Ho) (Hi' & Hv' & Ho'). split; [congruence|]. split; [lia|tauto].
Qed.
#[global] Instance evolves_preorder : PreOrder evolves.
Proof.
  split; [by intros s|]. intros s s' s'' [? ?] [? ?]. by split; etrans.
Qed.
#[global] Instance chats_preorder : PreOrder chats.
Proof.
  split; [by intros s|]. intros s s' s'' (? & ? & ?) (? & ? & ?). split; [by etrans|]. split; [congruence|by etrans].
Qed.

Lemma disconnect_failure st : is_disconnect st → is_failure st.
Proof. unfold is_disconnect, is_failure. rewrite !elem_of_cons. tauto. Qed.

Lemma chats_evolves s s' : chats s s' → evolves s s'.
Proof.
  intros (Hs & _ & Hm). split; [done|]. destruct Hm as [?|[? ?]]; [by left|]. right. split; [done|].
  by apply disconnect_failure.
Qed.

(** A change of members that are not constrained. *)
Lemma settles_members s s' :
  identity s' = identity s → version s' = version s → refresh_interval s' = refresh_interval s →
  expire_interval s' = expire_interval s → retry_interval s' = retry_interval s → (session_ok s → session_ok s') →
  settles s s'.
Proof.
  intros Hi Hv H1 H2 H3 Hs. split; [done|]. split; [lia|]. unfold socket_ok. rewrite Hv, H1, H2, H3.
  replace (iv_mode s') with (iv_mode s) by (unfold identity in Hi; congruence). tauto.
Qed.

Lemma evolves_members s s' :
  identity s' = identity s → version s' = version s → refresh_interval s' = refresh_interval s →
  expire_interval s' = expire_interval s → retry_interval s' = retry_interval s → (session_ok s → session_ok s') →
  state s' = state s → evolves s s'.
Proof. intros. split; [by apply settles_members|by left]. Qed.

(** A version that is supported and not greater. *)
Lemma settles_version s v :
  in_range v RTR_PROTOCOL_MIN_SUPPORTED_VERSION RTR_PROTOCOL_MAX_SUPPORTED_VERSION → v <= version s →
  settles s (set_version s v).
Proof. intros Hv Hle. split; [done|]. split; [done|]. by intros (Hs & _ & Ho). Qed.

(** ** Computations *)

Lemma returns_world {E A} (f : world E → M E A) (P : A → Prop) :
  (∀ w, returns (f w) P) → returns (λ w, f w w) P.
Proof. intros Hf w. apply Hf. Qed.

Lemma returns_mono {E A} (m : M E A) (Q P : A → Prop) : returns m Q → (∀ x, Q x → P x) → returns m P.
Proof. intros Hm HQ w x w' Hx. by eapply HQ, Hm. Qed.

Create HintDb fsm.

(** Go through a computation; what is known of its parts is in the database. *)
Ltac returns_step :=
  lazymatch goal with
  | |- returns (mret _) _ => apply returns_ret
  | |- returns (of_option None) _ => by intros ? ? ?
  | |- returns (of_option _ ≫= _) _ => eapply returns_bind; [apply returns_any|]; intros ? _
  | |- returns (_ ≫= _) _ => eapply returns_bind; [solve [eauto with fsm]|]; intros ?
  | |- returns (if ?b then _ else _) _ => destruct b eqn:?
  | |- returns (match ?x with _ => _ end) _ => destruct x eqn:?
  | |- returns _ _ => eapply returns_mono; [solve [eauto with fsm]|]
  end; try done.
Ltac returns_any := eapply returns_bind; [apply returns_any|]; intros ? _.
Tactic Notation "returns_any" "as" simple_intropattern(p) := eapply returns_bind; [apply returns_any|]; intros p _.

Section Fsm.
Context `{Build} `{Host} {E HT : Type} `{!HashTable E HT key_entry}.
Context `{!Event pfx_event E} `{!Event spki_event E} `{!Event aspa_event E}.
Context `{!Event tr_event E} `{!Event rtr_event E}.
Implicit Types (s : rtr_socket) (pdu buf : buffer) (t : tables HT).

(** ** Changes of state *)

Lemma change_state_returns s st :
  returns (E := E) (rtr_change_socket_state s st)
    (λ s', s' = changed s st).
Proof.
  unfold rtr_change_socket_state, changed. case_decide as Hst.
  - apply returns_ret. case_decide; [done|]. subst st. by destruct s.
  - case_decide; [by apply returns_ret|]. cbv zeta. destruct (connection_state_fp (set_state s st)).
    + returns_any. by apply returns_ret.
    + by apply returns_ret.
Qed.

Lemma moved_settles s st : settles s (changed s st).
Proof. unfold changed. case_decide; [done|]. by apply settles_members. Qed.
Lemma moved_moves s st (P : rtr_socket_state → Prop) :
  P st → moves P s (changed s st).
Proof. unfold changed. case_decide; [by left|]. intros HP. by right. Qed.

Lemma change_evolves s st : is_failure st → returns (E := E) (rtr_change_socket_state s st) (evolves s).
Proof.
  intros Hf. eapply returns_mono; [apply change_state_returns|]. intros s' ->.
  split; [apply moved_settles|by apply moved_moves].
Qed.
Lemma change_chats s st : is_disconnect st → returns (E := E) (rtr_change_socket_state s st) (chats s).
Proof.
  intros Hf. eapply returns_mono; [apply change_state_returns|]. intros s' ->.
  split; [apply moved_settles|]. split; [unfold changed; by case_decide|by apply moved_moves].
Qed.

Lemma failure_fatal : is_failure RTR_ERROR_FATAL. Proof. decided. Qed.
Lemma failure_transport : is_failure RTR_ERROR_TRANSPORT. Proof. decided. Qed.
Lemma failure_no_data : is_failure RTR_ERROR_NO_DATA_AVAIL. Proof. decided. Qed.
Lemma failure_no_incr : is_failure RTR_ERROR_NO_INCR_UPDATE_AVAIL. Proof. decided. Qed.
Lemma failure_reconnect : is_failure RTR_FAST_RECONNECT. Proof. decided. Qed.
Lemma disconnect_fatal : is_disconnect RTR_ERROR_FATAL. Proof. decided. Qed.
Lemma disconnect_transport : is_disconnect RTR_ERROR_TRANSPORT. Proof. decided. Qed.

(** Giving up the connection. *)
Lemma fatal_chats s (rv : Z) :
  returns (E := E) (s ← rtr_change_socket_state s RTR_ERROR_FATAL; mret (rv, s)) (λ '(_, s'), chats s s').
Proof.
  eapply returns_bind; [apply change_chats, disconnect_fatal|]. intros s' Hs. by apply returns_ret.
Qed.
Lemma transport_chats s (rv : Z) :
  returns (E := E) (s ← rtr_change_socket_state s RTR_ERROR_TRANSPORT; mret (rv, s)) (λ '(_, s'), chats s s').
Proof.
  eapply returns_bind; [apply change_chats, disconnect_transport|]. intros s' Hs. by apply returns_ret.
Qed.

(** ** Sending and receiving *)

(** A query that could not be sent. *)
Definition queried (s : rtr_socket) (rv : Z) : rtr_socket :=
  if rv =? RTR_SUCCESS then s else changed s RTR_ERROR_TRANSPORT.

Lemma serial_query_returns s : returns (E := E) (rtr_send_serial_query s) (λ '(rv, s'), s' = queried s rv).
Proof.
  unfold rtr_send_serial_query. returns_any. case_match; [by apply returns_ret|].
  eapply returns_bind; [apply change_state_returns|]. intros s' ->. by apply returns_ret.
Qed.
Lemma reset_query_returns s : returns (E := E) (rtr_send_reset_query s) (λ '(rv, s'), s' = queried s rv).
Proof.
  unfold rtr_send_reset_query. returns_any. case_match; [by apply returns_ret|].
  eapply returns_bind; [apply change_state_returns|]. intros s' ->. by apply returns_ret.
Qed.

Lemma version_supported v :
  rtr_version_supported v = true →
  in_range v RTR_PROTOCOL_MIN_SUPPORTED_VERSION RTR_PROTOCOL_MAX_SUPPORTED_VERSION.
Proof. unfold rtr_version_supported, in_range. intros [? ?]%andb_true_iff. lia. Qed.

Lemma downgrade_chats s type ver : chats s (downgrade s type ver).
Proof.
  unfold downgrade. destruct (has_received_pdus s); [done|]. cbv zeta.
  trans (if bool_decide (type ≠ ERROR) && (ver <? version s) && rtr_version_supported ver then set_version s ver else s).
  - destruct (_ && _ && _) eqn:Hc; [|done]. apply andb_true_iff in Hc as [[_ Hlt]%andb_true_iff Hv%version_supported].
    split; [apply settles_version; [done|lia]|]. split; [done|by left].
  - split; [by apply settles_members|]. split; [done|by left].
Qed.

Lemma receive_check_same s buf header : returns (E := E) (receive_check s buf header) (λ '(_, s', _), s' = s).
Proof. unfold receive_check. repeat returns_step. Qed.

Lemma receive_payload_chats s buf header :
  returns (E := E) (receive_payload s buf header) (λ '(_, s', _), chats s s').
Proof.
  unfold receive_payload. returns_any as len. returns_any as type. returns_any as ver. do 2 (returns_step; [by apply returns_ret|]). cbv zeta.
  pose proof (downgrade_chats s type ver) as Hd. set (s1 := downgrade s type ver) in *.
  assert (∀ buf', returns (E := E) (receive_check s1 buf' header) (λ '(_, s', _), chats s s')) as Hcheck.
  { intros buf'. eapply returns_mono; [apply receive_check_same|]. by intros [[? ?] ?] ->. }
  returns_step; [by apply returns_ret|]. returns_step.
  returns_step; [by apply returns_ret|]. returns_any. returns_step; [by apply returns_ret|].
  returns_step.
Qed.

Lemma receive_header_chats s buf : returns (E := E) (receive_header s buf) (λ '(_, s', _), chats s s').
Proof.
  unfold receive_header. returns_step; [by apply returns_ret|]. returns_any. returns_step; [by apply returns_ret|].
  do 2 returns_step. apply receive_payload_chats.
Qed.

Lemma receive_error_chats s buf r : returns (E := E) (receive_error s buf r) (λ '(_, s'), chats s s').
Proof.
  unfold receive_error. cbv zeta. destruct r as [|[]|[]];
    first [apply fatal_chats | apply transport_chats | by apply returns_ret
          | returns_any; first [apply fatal_chats | by apply returns_ret]].
Qed.

Lemma receive_chats s buf : returns (E := E) (rtr_receive_pdu s buf) (λ '(_, s', _), chats s s').
Proof.
  unfold rtr_receive_pdu. returns_step. eapply returns_bind; [apply receive_header_chats|].
  intros [[r s1] buf1] H1. eapply returns_bind; [apply receive_error_chats|]. intros [rv s2] H2.
  apply returns_ret. by etrans.
Qed.

(** ** Handling PDUs *)

Lemma handle_error_evolves s buf : returns (E := E) (rtr_handle_error_pdu s buf) (λ '(_, s'), evolves s s').
Proof.
  unfold rtr_handle_error_pdu. returns_any as code. returns_any as ver. eapply returns_bind with (Q := evolves s).
  - assert (returns (E := E) (rtr_change_socket_state s RTR_ERROR_FATAL) (evolves s)) as Hf
      by apply change_evolves, failure_fatal.
    assert (returns (E := E) (rtr_change_socket_state s RTR_ERROR_NO_DATA_AVAIL) (evolves s)) as Hn
      by apply change_evolves, failure_no_data.
    repeat case_match; try done.
    eapply returns_mono; [apply change_evolves, failure_reconnect|]. intros s' Hs. etrans; [|exact Hs].
    split; [|by left]. apply settles_version; unfold in_range in *; lia.
  - intros s' Hs. do 2 returns_step. by apply returns_ret.
Qed.

Lemma cache_response_evolves s pdu :
  returns (E := E) (rtr_handle_cache_response_pdu s pdu) (λ '(_, s'), evolves s s').
Proof.
  unfold rtr_handle_cache_response_pdu. returns_any as id. returns_step; [|returns_step].
  - apply returns_ret. case_match; by apply evolves_members.
  - returns_any. eapply returns_mono; [apply fatal_chats|]. intros [rv s'] Hs. by apply chats_evolves.
  - by apply returns_ret.
Qed.

Lemma interval_settles s v type : settles s (rtr_check_interval_option s (iv_mode s) v type).2.
Proof.
  unfold rtr_check_interval_option. destruct type; cbv zeta beta iota; cbn [snd];
    unfold rtr_check_interval_range; repeat case_bool_decide; simpl;
    repeat (split; [done || lia|]); unfold socket_ok, in_range; simpl; intros (? & ? & Hi); (split; [done|]); (split; [done|]); intros Hm;
    specialize (Hi Hm); repeat case_match; simplify_eq/=; unfold RTR_EXPIRATION_MIN, RTR_EXPIRATION_MAX,
    RTR_REFRESH_MIN, RTR_REFRESH_MAX, RTR_RETRY_MIN, RTR_RETRY_MAX in *; try lia; done.
Qed.

Definition is_result (rv : Z) : Prop := rv = RTR_SUCCESS ∨ rv = RTR_ERROR.
Lemma result_success : is_result RTR_SUCCESS. Proof. by left. Qed.
Lemma result_error : is_result RTR_ERROR. Proof. by right. Qed.
#[local] Hint Resolve result_success result_error : core.

Lemma eod_intervals_evolves s pdu :
  returns (E := E) (eod_intervals s pdu) (λ '(rv, s'), is_result rv ∧ evolves s s').
Proof.
  unfold eod_intervals. returns_any as expire. returns_any as refresh. returns_any as retry.
  assert (∀ s v type, moves is_failure s (rtr_check_interval_option s (iv_mode s) v type).2) as Hm.
  { intros s0 v type. left. unfold rtr_check_interval_option. destruct type; cbn; by repeat case_match. }
  assert (∀ s v type, evolves s (rtr_check_interval_option s (iv_mode s) v type).2) as He.
  { intros s0 v type. split; [apply interval_settles|apply Hm]. }
  pose proof (He s expire RTR_INTERVAL_TYPE_EXPIRATION) as Hs1.
  destruct (rtr_check_interval_option s _ _ _) as [r1 s1]. simpl in Hs1.
  returns_step. { returns_any. by apply returns_ret. }
  pose proof (He s1 refresh RTR_INTERVAL_TYPE_REFRESH) as Hs2.
  destruct (rtr_check_interval_option s1 _ _ _) as [r2 s2]. simpl in Hs2.
  assert (evolves s s2) by by etrans.
  returns_step. { returns_any. by apply returns_ret. }
  pose proof (He s2 retry RTR_INTERVAL_TYPE_RETRY) as Hs3.
  destruct (rtr_check_interval_option s2 _ _ _) as [r3 s3]. simpl in Hs3.
  assert (evolves s s3) by by etrans.
  returns_step. { returns_any. by apply returns_ret. } by apply returns_ret.
Qed.

Lemma eod_pdu_evolves s pdu :
  returns (E := E) (rtr_handle_eod_pdu s pdu) (λ '(rv, s'), is_result rv ∧ evolves s s').
Proof.
  unfold rtr_handle_eod_pdu. returns_any as id. returns_any as ver. returns_step.
  - returns_any. eapply returns_bind; [apply change_evolves, failure_fatal|]. intros s' Hs. by apply returns_ret.
  - returns_step; [apply eod_intervals_evolves|by apply returns_ret].
Qed.

(** ** Updating the tables *)

Lemma report_fatal_chats s pdu len error txt :
  returns (E := E) (report_fatal s pdu len error txt) (λ '(rv, s'), rv = RTR_ERROR ∧ chats s s').
Proof.
  unfold report_fatal. returns_any. eapply returns_bind; [apply change_chats, disconnect_fatal|].
  intros s' Hs. by apply returns_ret.
Qed.

Lemma update_pfx_chats s pt pdu : returns (E := E) (rtr_update_pfx_table s pt pdu) (λ '(_, s', _), chats s s').
Proof.
  unfold rtr_update_pfx_table. destruct pt as [t|]; [|by apply returns_ret].
  returns_any as type. returns_any. cbv zeta. returns_any as r. returns_any as flags. returns_step.
  - returns_any as [rv pt']. eapply returns_bind with (Q := λ '(_, s'), chats s s').
    + destruct rv; try (by apply returns_ret); eapply returns_mono; try apply report_fatal_chats; by intros [? ?] [_ ?].
    + intros [res s'] Hs. by apply returns_ret.
  - returns_any. by apply returns_ret.
Qed.

Lemma update_spki_chats s st pdu :
  returns (E := E) (rtr_update_spki_table (HT := HT) s st pdu) (λ '(_, s', _), chats s s').
Proof.
  unfold rtr_update_spki_table. destruct st as [t|]; [|by apply returns_ret].
  returns_any as type. returns_any. cbv zeta. returns_any as r. returns_any as flags. returns_step.
  - returns_any as [rv st']. eapply returns_bind with (Q := λ '(_, s'), chats s s').
    + destruct rv; try (by apply returns_ret); eapply returns_mono; try apply report_fatal_chats; by intros [? ?] [_ ?].
    + intros [res s'] Hs. by apply returns_ret.
  - returns_any. by apply returns_ret.
Qed.

Lemma update_pdus_chats {T} (update : rtr_socket → T → buffer → M E (Z * rtr_socket * T)) s (x : T) pdus i :
  (∀ s x pdu, returns (update s x pdu) (λ '(_, s', _), chats s s')) →
  returns (update_pdus update s x pdus i) (λ '(_, s', _), chats s s').
Proof.
  intros Hu. revert s x i. induction pdus as [|pdu pdus IH]; intros s x i; [by apply returns_ret|]. cbn [update_pdus].
  eapply returns_bind; [apply Hu|]. intros [[res s1] t1] H1. returns_step; [by apply returns_ret|].
  eapply returns_mono; [apply IH|]. intros [[? s2] ?] H2. by etrans.
Qed.

Lemma aspa_operations_chats s pdus i : returns (E := E) (aspa_operations s pdus i) (λ '(_, s'), chats s s').
Proof.
  revert s i. induction pdus as [|pdu pdus IH]; intros s i; [by apply returns_ret|]. cbn [aspa_operations].
  returns_any as flags. returns_any as count. returns_step.
  - returns_any as len. eapply returns_bind; [apply report_fatal_chats|]. intros [rv s'] [_ Hs]. by apply returns_ret.
  - returns_any as op. eapply returns_bind; [apply IH|]. intros [ops s'] Hs. by apply returns_ret.
Qed.

Lemma compute_aspa_chats s at_ pdus u :
  returns (E := E) (rtr_compute_update_aspa_table s at_ pdus u) (λ '(_, s', _, _), chats s s').
Proof.
  unfold rtr_compute_update_aspa_table. destruct at_ as [t|]; [|by apply returns_ret].
  destruct pdus as [|pdu pdus]; [by apply returns_ret|]. set (l := pdu :: pdus). returns_any as ok. returns_step.
  { eapply returns_bind; [apply report_fatal_chats|]. intros [res s'] [_ Hs]. by apply returns_ret. }
  eapply returns_bind; [apply aspa_operations_chats|]. intros [[ops|] s1] Hs1; [|by apply returns_ret].
  returns_any as [[res t'] u']. eapply returns_bind with (Q := λ '(_, s'), chats s s').
  - assert (∀ pdu len error txt, returns (E := E) (report_fatal s1 pdu len error txt) (λ '(_, s'), chats s s')) as Hf.
    { intros. eapply returns_mono; [apply report_fatal_chats|]. intros [? s2] [_ ?]. by etrans. }
    destruct (failed_op u') as [op|].
    + do 2 returns_any. destruct res; first [apply Hf | by apply returns_ret].
    + case_decide; [by apply returns_ret|apply Hf].
  - intros [rv s2] Hs2. by apply returns_ret.
Qed.

Lemma update_aspas_chats s t p4 p6 pk pa :
  returns (E := E) (update_aspas s t p4 p6 pk pa) (λ '(_, _, s', _, _), chats s s').
Proof.
  unfold update_aspas. eapply returns_bind; [apply compute_aspa_chats|]. intros [[[res s1] at_] u] Hs. cbv zeta.
  returns_step; [|by apply returns_ret]. returns_any as [? ?]. by apply returns_ret.
Qed.

Lemma update_keys_chats s t p4 p6 pk pa :
  returns (E := E) (update_keys s t p4 p6 pk pa) (λ '(_, _, s', _, _), chats s s').
Proof.
  unfold update_keys. eapply returns_bind; [apply update_pdus_chats, update_spki_chats|].
  intros [[[i|] s1] st] Hs; cbv zeta.
  - returns_any as [? ?]. by apply returns_ret.
  - eapply returns_mono; [apply update_aspas_chats|]. intros [[[[? ?] s2] ?] ?] Hs2. by etrans.
Qed.

Lemma update_tables_chats s t p4 p6 pk pa :
  returns (E := E) (update_tables s t p4 p6 pk pa) (λ '(_, _, s', _, _), chats s s').
Proof.
  unfold update_tables. eapply returns_bind; [apply update_pdus_chats, update_pfx_chats|].
  intros [[[i|] s1] pt] Hs; cbv zeta; [returns_any as [? ?]; by apply returns_ret|].
  eapply returns_bind; [apply update_pdus_chats, update_pfx_chats|].
  intros [[[i|] s2] pt'] Hs2; cbv zeta; [returns_any as [? ?]; apply returns_ret; by etrans|].
  eapply returns_mono; [apply update_keys_chats|]. intros [[[[? ?] s3] ?] ?] Hs3. etrans; [exact Hs|]. by etrans.
Qed.

Lemma sync_update_evolves s t p4 p6 pk pa eod :
  returns (E := E) (rtr_sync_update_tables s t p4 p6 pk pa eod)
    (λ '(rv, s', _), is_result rv ∧ evolves s s' ∧ is_resetting s' = is_resetting s).
Proof.
  unfold rtr_sync_update_tables. eapply returns_bind; [apply update_tables_chats|].
  intros [[[[proceed undo_failed] s1] t1] u] Hs. returns_any as at_. cbv zeta.
  assert (is_resetting s1 = is_resetting s) as Hr by (destruct Hs as (_ & [=] & _); done).
  apply chats_evolves in Hs. returns_step.
  - set (s2 := if undo_failed : bool then set_request_session_id s1 true else s1).
    assert (evolves s s2) as He.
    { etrans; [exact Hs|]. subst s2. destruct undo_failed; [|done].
      apply evolves_members; try done. intros _. unfold session_ok. simpl. by destruct (is_resetting s1). }
    assert (is_resetting s2 = is_resetting s) as Hr2 by by subst s2; destruct undo_failed.
    eapply returns_bind; [apply change_state_returns|]. intros s3 Hs3. apply returns_ret. split; [done|].
    split; [|by rewrite Hs3; unfold changed; case_decide]. etrans; [exact He|]. rewrite Hs3.
    split; [apply moved_settles|apply moved_moves, failure_fatal].
  - returns_any as sn. apply returns_ret. split; [done|]. split; [|done]. etrans; [exact Hs|]. by apply evolves_members.
Qed.

Lemma sync_reset_evolves s t p eod :
  returns (E := E) (sync_reset s t p eod) (λ '(rv, s', _), is_result rv ∧ evolves s s' ∧ is_resetting s' = false).
Proof.
  unfold sync_reset. cbv zeta.
  assert (∀ s1 t1 pfx spki aspa rv, is_result rv → evolves s s1 →
    returns (E := E) (free_shadow_tables (HT := HT) pfx spki aspa;; mret (rv, set_is_resetting s1 false, t1))
      (λ '(rv, s', _), is_result rv ∧ evolves s s' ∧ is_resetting s' = false)) as Hend.
  { intros s1 t1 pfx spki aspa rv Hrv Hs. returns_any. apply returns_ret. split; [done|]. split; [|done].
    etrans; [exact Hs|]. by apply evolves_members. }
  returns_any as ok. destruct ok; [|by apply Hend]. simpl negb. cbv iota.
  returns_any as [rv pfx]. case_decide.
  { eapply returns_bind; [apply change_evolves, failure_fatal|]. intros s1 Hs. by apply Hend. }
  returns_any as ok. destruct ok; [|by apply Hend]. simpl negb. cbv iota.
  returns_any as spki. returns_any as st. returns_any as [[rv' st'] spki']. case_decide.
  { eapply returns_bind; [apply change_evolves, failure_fatal|]. intros s1 Hs. by apply Hend. }
  returns_any as ok. destruct ok; [|by apply Hend]. simpl negb. cbv iota.
  eapply returns_bind; [apply sync_update_evolves|]. intros [[rv2 s2] shadow] (Hrv & Hs & _).
  do 3 returns_any. returns_any as [[[? ?] ?] ?]. by apply Hend.
Qed.

(** ** Synchronisation *)

Lemma handle_eod_evolves s t p buf :
  returns (E := E) (handle_eod s t p buf)
    (λ '(rv, s', _), is_result rv ∧ evolves s s' ∧ (rv = RTR_SUCCESS → is_resetting s' = false)).
Proof.
  unfold handle_eod. eapply returns_bind; [apply eod_pdu_evolves|]. intros [rv s1] [Hrv Hs]. returns_step.
  { apply returns_ret. split; [done|]. split; [done|]. intros ->. discriminate. }
  returns_step.
  - eapply returns_mono; [apply sync_reset_evolves|]. intros [[rv2 s2] t2] (? & ? & ?).
    split; [done|]. split; [by etrans|done].
  - eapply returns_mono; [apply sync_update_evolves|]. intros [[rv2 s2] t2] (? & ? & Hr).
    split; [done|]. split; [by etrans|]. intros _. by rewrite Hr.
Qed.

Lemma store_prefix_chats s pdu size a :
  returns (E := E) (rtr_store_prefix_pdu s pdu size a) (λ '(_, s', _), chats s s').
Proof.
  unfold rtr_store_prefix_pdu. do 2 returns_any. returns_any as [ok a']. returns_step.
  - eapply returns_bind; [apply report_fatal_chats|]. intros [res s'] [_ Hs]. by apply returns_ret.
  - do 2 returns_any. by apply returns_ret.
Qed.
Lemma store_key_chats s pdu size a :
  returns (E := E) (rtr_store_router_key_pdu s pdu size a) (λ '(_, s', _), chats s s').
Proof.
  unfold rtr_store_router_key_pdu. do 2 returns_any. returns_any as [ok a']. returns_step.
  - eapply returns_bind; [apply report_fatal_chats|]. intros [res s'] [_ Hs]. by apply returns_ret.
  - do 2 returns_any. by apply returns_ret.
Qed.
Lemma store_aspa_chats s pdu a : returns (E := E) (rtr_store_aspa_pdu s pdu a) (λ '(_, s', _), chats s s').
Proof.
  unfold rtr_store_aspa_pdu. returns_any as [ok a']. returns_step.
  - eapply returns_bind; [apply report_fatal_chats|]. intros [res s'] [_ Hs]. by apply returns_ret.
  - returns_any as len. returns_any as ok2. returns_step.
    + eapply returns_bind; [apply report_fatal_chats|]. intros [res s'] [_ Hs]. by apply returns_ret.
    + do 2 returns_any. by apply returns_ret.
Qed.

(** A PDU that is stored. *)
Lemma stored_evolves s (store : M E (Z * rtr_socket * pdu_array)) (k : pdu_array → pdu_store) t :
  returns store (λ '(_, s', _), chats s s') →
  returns (E := E) ('(res, s, a) ← store; '(retval, s) ← stored res s; mret (retval, s, t, k a))
    (λ '(_, s', _, _), evolves s s').
Proof.
  intros Hst. eapply returns_bind; [exact Hst|]. intros [[res s1] a] Hs%chats_evolves.
  eapply returns_bind with (Q := λ '(_, s'), evolves s s').
  - unfold stored. returns_step; [|by apply returns_ret]. eapply returns_mono; [apply fatal_chats|].
    intros [rv s2] Hs2%chats_evolves. by etrans.
  - intros [rv s2] Hs2. by apply returns_ret.
Qed.

Lemma handle_sync_evolves s t p buf type :
  returns (E := E) (handle_sync_pdu s t p buf type) (λ '(rv, s', _, _), evolves s s' ∧
    (type = EOD → rv ≠ RTR_ERROR → rv = RTR_SUCCESS ∧ is_resetting s' = false)).
Proof.
  assert (∀ m, type ≠ EOD → returns (E := E) (A := Z * rtr_socket * tables HT * pdu_store) m (λ '(_, s', _, _), evolves s s') →
    returns (E := E) m (λ '(rv, s', _, _), evolves s s' ∧
    (type = EOD → rv ≠ RTR_ERROR → rv = RTR_SUCCESS ∧ is_resetting s' = false))) as Hother.
  { intros m Hne Hm. eapply returns_mono; [exact Hm|]. by intros [[[? ?] ?] ?]. }
  destruct type; cbn [handle_sync_pdu]; first
    [ apply Hother; [done|]; first [by apply returns_ret | returns_any; by apply returns_ret] |
      apply Hother; [done|]; apply stored_evolves;
        first [apply store_prefix_chats | apply store_key_chats | apply store_aspa_chats] | idtac].
  - eapply returns_bind; [apply handle_eod_evolves|]. intros [[rv s1] t1] (Hrv & Hs & Hr). apply returns_ret.
    split; [done|]. intros _ Hne. destruct Hrv as [->| ->]; [by split; [|apply Hr]|done].
  - apply Hother; [done|]. eapply returns_bind; [apply handle_error_evolves|]. intros [rv s1] Hs. by apply returns_ret.
Qed.

Lemma sync_loop_evolves fuel s t p buf :
  returns (E := E) (sync_receive_loop fuel s t p buf) (λ '(rv, s', _), evolves s s' ∧
    (rv ≠ RTR_ERROR → is_resetting s' = false)).
Proof.
  revert s t p buf. induction fuel as [|fuel IH]; intros s t p buf; cbn [sync_receive_loop]; [done|].
  eapply returns_bind; [apply receive_chats|]. intros [[rv s1] buf1] Hs%chats_evolves. returns_step.
  { eapply returns_bind; [apply change_evolves, failure_transport|]. intros s2 Hs2. apply returns_ret.
    split; [by etrans|done]. }
  returns_step; [by apply returns_ret|]. returns_any as type.
  eapply returns_bind; [apply handle_sync_evolves|]. intros [[[rv2 s2] t2] p2] [Hs2 Hr].
  assert (evolves s s2) as Hs12 by by etrans. returns_step.
  - eapply returns_mono; [apply IH|]. intros [[rv3 s3] t3] [Hs3 Hr3]. split; [by etrans|done].
  - apply returns_ret. split; [done|]. intros Hne. apply Hr; [|done].
    apply dec_stable. intros Hty. rewrite bool_decide_true in * by done. by destruct (Z.eqb_spec rv2 RTR_ERROR).
Qed.

Lemma first_pdu_evolves fuel s buf :
  returns (E := E) (sync_first_pdu fuel s buf) (λ '(_, s', _), evolves s s').
Proof.
  revert s buf. induction fuel as [|fuel IH]; intros s buf; cbn [sync_first_pdu]; [done|].
  eapply returns_bind; [apply receive_chats|]. intros [[rv s1] buf1] Hs. 
  apply chats_evolves in Hs. destruct (_ && _ && _) eqn:Hc.
  - apply andb_true_iff in Hc as [_ Hv]. eapply returns_bind; [apply change_evolves, failure_reconnect|].
    intros s2 Hs2. apply returns_ret. etrans; [exact Hs|]. etrans; [|exact Hs2]. split; [|by left].
    split; [done|]. split; [simpl; lia|]. unfold socket_ok, in_range, session_ok. simpl. intros (? & ? & ?).
    split; [done|]. split; [lia|done].
  - returns_step.
    + eapply returns_bind; [apply change_evolves, failure_transport|]. intros s2 Hs2. apply returns_ret. by etrans.
    + returns_step; [by apply returns_ret|]. returns_any as type. case_decide; [|by apply returns_ret].
      eapply returns_mono; [apply IH|]. intros [[? s2] ?] Hs2. by etrans.
Qed.

Lemma set_last_update_evolves s :
  returns (E := E) (rtr_set_last_update s) (λ '(rv, s'), is_result rv ∧ evolves s s' ∧
    request_session_id s' = request_session_id s ∧ is_resetting s' = is_resetting s).
Proof.
  unfold rtr_set_last_update. returns_any as [now|].
  - apply returns_ret. split; [done|]. split; [by apply evolves_members|done].
  - eapply returns_bind; [apply change_chats, disconnect_fatal|]. intros s' Hs. apply returns_ret. split; [done|].
    split; [by apply chats_evolves|]. destruct Hs as (_ & [=] & _). done.
Qed.

Context (stack : buffer).

Lemma rtr_sync_evolves s t :
  returns (E := E) (rtr_sync stack s t) (λ '(rv, s', _), is_result rv ∧ evolves s s' ∧
    (rv = RTR_SUCCESS → request_session_id s' = false ∧ is_resetting s' = false)).
Proof.
  unfold rtr_sync. apply (returns_world (λ w0, sync_first_pdu (S (supply (stream (net w0)))) s stack ≫= _)).
  intros w. eapply returns_bind; [apply first_pdu_evolves|].
  intros [[rv s1] buf] Hs. returns_step; [by apply returns_ret|]. returns_any as type.
  assert (∀ t', returns (E := E) (mret (RTR_ERROR, s1, t')) (λ '(rv, s', _), is_result rv ∧ evolves s s' ∧
    (rv = RTR_SUCCESS → request_session_id s' = false ∧ is_resetting s' = false))) as Herr.
  { intros t'. by apply returns_ret. }
  destruct type; first [returns_any; apply Herr | idtac].
  - eapply returns_bind; [apply cache_response_evolves|]. intros [rv1 s2] Hs2.
    eapply returns_bind; [apply (returns_world (λ w0, sync_receive_loop (S (supply (stream (net w0)))) _ _ _ _)); intros w1; apply sync_loop_evolves|].
    intros [[rv3 s3] t3] [Hs3 Hr3]. assert (evolves s s3) as Hs03 by (etrans; [exact Hs|]; by etrans).
    destruct (Z.eqb_spec rv3 RTR_ERROR) as [->|Hne]; [by apply returns_ret|]. specialize (Hr3 Hne).
    assert (evolves s3 (set_request_session_id s3 false)) as Hs4.
    { apply evolves_members; try done. intros _. unfold session_ok. simpl. by rewrite Hr3. }
    eapply returns_bind; [apply set_last_update_evolves|]. intros [rv5 s5] (Hrv5 & Hs5 & Hq & Hr5).
    assert (evolves s s5) as Hs05 by (etrans; [exact Hs03|]; by etrans).
    destruct (Z.eqb_spec rv5 RTR_ERROR) as [->|]; apply returns_ret; [done|].
    split; [done|]. split; [done|]. intros _. split; [by rewrite Hq|by rewrite Hr5].
  - eapply returns_bind; [apply change_evolves, failure_no_incr|]. intros s2 Hs2. apply returns_ret.
    split; [done|]. split; [by etrans|done].
  - eapply returns_bind; [apply handle_error_evolves|]. intros [rv1 s2] Hs2. apply returns_ret.
    split; [done|]. split; [by etrans|done].
Qed.

Lemma wait_chats s : returns (E := E) (rtr_wait_for_sync stack s) (λ '(_, s'), chats s s').
Proof.
  unfold rtr_wait_for_sync. returns_any. eapply returns_bind; [apply receive_chats|]. intros [[rv s1] buf] Hs.
  returns_step; [returns_any; case_decide; by apply returns_ret|]. returns_step; by apply returns_ret.
Qed.

(** ** Iterations *)

Implicit Types m : machine HT.

Lemma purge_returns m :
  returns (E := E) (rtr_purge_outdated_records m) (λ m',
    m_socket m' = m_socket m ∨ m_socket m' = set_is_resetting (forget_session (m_socket m)) true).
Proof.
  unfold rtr_purge_outdated_records. cbv zeta. returns_step; [by apply returns_ret; left|]. returns_any as now.
  returns_step; [|by apply returns_ret; left]. returns_any as t. by apply returns_ret; right.
Qed.

Lemma change_returns m st :
  returns (E := E) (change_state m st) (λ m', m' = set_socket m (changed (m_socket m) st)).
Proof.
  unfold change_state. eapply returns_bind; [apply change_state_returns|]. intros s' ->. by apply returns_ret.
Qed.

(** What can follow a state. *)
Definition successors (st : rtr_socket_state) : list rtr_socket_state :=
  match st with
  | RTR_CONNECTING => [RTR_RESET; RTR_SYNC; RTR_ERROR_FATAL; RTR_ERROR_TRANSPORT]
  | RTR_RESET => [RTR_SYNC; RTR_ERROR_TRANSPORT]
  | RTR_SYNC => [RTR_SYNC; RTR_ESTABLISHED; RTR_FAST_RECONNECT; RTR_ERROR_NO_DATA_AVAIL;
                 RTR_ERROR_NO_INCR_UPDATE_AVAIL; RTR_ERROR_FATAL; RTR_ERROR_TRANSPORT]
  | RTR_ESTABLISHED => [RTR_ESTABLISHED; RTR_SYNC; RTR_ERROR_FATAL; RTR_ERROR_TRANSPORT]
  | RTR_FAST_RECONNECT | RTR_ERROR_FATAL | RTR_ERROR_TRANSPORT => [RTR_CONNECTING]
  | RTR_ERROR_NO_DATA_AVAIL | RTR_ERROR_NO_INCR_UPDATE_AVAIL => [RTR_RESET]
  | RTR_SHUTDOWN => [RTR_SHUTDOWN]
  | RTR_CLOSED => [RTR_CLOSED]
  end.

(** A socket only asks for all records when it has no session, and is only established
    when it has one. *)
Definition phase_ok (s : rtr_socket) : Prop :=
  match state s with
  | RTR_RESET => request_session_id s = true
  | RTR_ESTABLISHED => request_session_id s = false
  | _ => True
  end.

Definition proceeds (m m' : machine HT) : Prop :=
  settles (m_socket m) (m_socket m') ∧ state (m_socket m') ∈ successors (state (m_socket m)) ∧
  (phase_ok (m_socket m) → phase_ok (m_socket m')).

Lemma connecting_proceeds m :
  state (m_socket m) = RTR_CONNECTING → returns (E := E) (fsm_connecting m) (proceeds m).
Proof.
  intros Hst. unfold fsm_connecting. cbv zeta. eapply returns_bind; [apply purge_returns|]. intros m1 Hm1.
  assert (settles (m_socket m) (m_socket m1) ∧ state (m_socket m1) = RTR_CONNECTING) as [Hs1 Hst1].
  { destruct Hm1 as [->| ->]; by split; [apply settles_members|]. }
  clear Hm1. assert (∀ st m2, m2 = set_socket m1 (changed (m_socket m1) st) → st ∈ successors RTR_CONNECTING →
    (st = RTR_RESET → request_session_id (m_socket m1) = true) → proceeds m m2) as Hgo.
  { intros st m2 -> Hin Hreq. unfold proceeds, changed. simpl. rewrite Hst1, Hst. simpl. split; [|split; [done|]].
    - etrans; [exact Hs1|]. by apply settles_members.
    - intros _. unfold phase_ok. simpl. destruct st; try done; [|by apply Hreq]. exfalso. revert Hin. decided. }
  returns_any as ok. destruct ok; simpl negb; cbv iota.
  - destruct (request_session_id (m_socket m1)) eqn:Hreq.
    + eapply returns_mono; [apply change_returns|]. intros m2 Hm2. apply (Hgo RTR_RESET); [exact Hm2|decided|done].
    + eapply returns_bind; [apply serial_query_returns|]. intros [rv s2] ->. unfold queried. returns_step.
      * eapply returns_mono; [apply change_returns|]. intros m2 ->. apply (Hgo RTR_SYNC); [by destruct m1|decided|done].
      * eapply returns_mono; [apply change_returns|]. intros m2 ->. apply (Hgo RTR_ERROR_FATAL); [|decided|done].
        unfold changed. simpl. by rewrite Hst1.
  - eapply returns_mono; [apply change_returns|]. intros m2 Hm2. apply (Hgo RTR_ERROR_TRANSPORT); [exact Hm2|decided|done].
Qed.

Lemma reset_proceeds m : state (m_socket m) = RTR_RESET → returns (E := E) (fsm_reset m) (proceeds m).
Proof.
  intros Hst. unfold fsm_reset. eapply returns_bind; [apply reset_query_returns|]. intros [rv s1] ->. cbv zeta.
  unfold queried. returns_step.
  - eapply returns_mono; [apply change_returns|]. intros m2 ->. unfold proceeds, changed, phase_ok. simpl.
    rewrite Hst. simpl. split; [by apply settles_members|]. split; [left|done].
  - apply returns_ret. unfold proceeds, changed, phase_ok. simpl. rewrite Hst. simpl.
    split; [by apply settles_members|]. split; [right; left|done].
Qed.

Lemma sync_proceeds m : state (m_socket m) = RTR_SYNC → returns (E := E) (fsm_sync stack m) (proceeds m).
Proof.
  intros Hst. unfold fsm_sync. eapply returns_bind; [apply rtr_sync_evolves|].
  intros [[rv s1] t1] (_ & [Hs Hmv] & Hok). cbv zeta. destruct (Z.eqb_spec rv RTR_SUCCESS) as [->|Hne].
  - destruct (Hok eq_refl) as [Hreq Hre]. eapply returns_mono; [apply change_returns|]. intros m2 ->.
    assert (state s1 ≠ RTR_SHUTDOWN) as Hns.
    { destruct Hmv as [->|[_ Hf]]; [by rewrite Hst|]. intros He. rewrite He in Hf. revert Hf. decided. }
    unfold proceeds, changed, phase_ok. simpl. rewrite decide_False by done. rewrite Hst. simpl.
    split; [etrans; [exact Hs|by apply settles_members]|]. split; [decided|done].
  - apply returns_ret. unfold proceeds, phase_ok. simpl. rewrite Hst. split; [done|].
    destruct Hmv as [->|[_ Hf]]; [rewrite Hst; split; [decided|done]|].
    unfold is_failure in Hf. split; [|by destruct (state s1); try done; revert Hf; decided].
    destruct (state s1); try decided; exfalso; revert Hf; decided.
Qed.

Lemma established_proceeds m :
  state (m_socket m) = RTR_ESTABLISHED → returns (E := E) (fsm_established stack m) (proceeds m).
Proof.
  intros Hst. unfold fsm_established. eapply returns_bind; [apply wait_chats|]. intros [rv s1] (Hs & Hse & Hmv). cbv zeta.
  assert (proceeds m (set_socket m s1)) as Hend.
  { unfold proceeds, phase_ok. simpl. rewrite Hst. split; [done|].
    destruct Hmv as [Heq|[_ Hf]]; [rewrite Heq, Hst; split; [decided|]; by injection Hse as _ _ -> _ _|].
    split; [|by destruct (state s1); try done; revert Hf; decided].
    destruct (state s1); try decided; exfalso; revert Hf; decided. }
  assert (state s1 ≠ RTR_SHUTDOWN) as Hns.
  { destruct Hend as (_ & He & _). simpl in He. rewrite Hst in He. intros Hsh. rewrite Hsh in He. revert He. decided. }
  returns_step; [|by apply returns_ret].
  eapply returns_bind; [apply serial_query_returns|]. intros [rv2 s2] ->. unfold queried. returns_step.
  - eapply returns_mono; [apply change_returns|]. intros m2 ->. unfold proceeds, changed, phase_ok. simpl.
    rewrite decide_False by done. rewrite Hst. simpl. split; [etrans; [exact Hs|by apply settles_members]|].
    split; [decided|done].
  - apply returns_ret. unfold proceeds, changed, phase_ok. simpl. rewrite decide_False by done. rewrite Hst. simpl.
    split; [etrans; [exact Hs|by apply settles_members]|]. split; [decided|done].
Qed.

Lemma reconnect_proceeds m :
  successors (state (m_socket m)) = [RTR_CONNECTING] →
  returns (E := E) (change_state m RTR_CONNECTING) (proceeds m).
Proof.
  intros Hst. eapply returns_mono; [apply change_returns|]. intros m2 ->. unfold proceeds, changed, phase_ok. simpl.
  rewrite Hst, decide_False by (intros Hsh; by rewrite Hsh in Hst). simpl.
  split; [by apply settles_members|]. split; [left|done].
Qed.

Lemma start_over_proceeds m wait :
  successors (state (m_socket m)) = [RTR_RESET] → returns (E := E) (fsm_start_over m wait) (proceeds m).
Proof.
  intros Hst. unfold fsm_start_over. cbv zeta. eapply returns_bind; [apply change_returns|]. intros m1 ->.
  returns_any. eapply returns_mono; [apply purge_returns|]. intros m2 Hm2.
  unfold changed in Hm2. simpl in Hm2. rewrite decide_False in Hm2 by (intros Hsh; by rewrite Hsh in Hst).
  unfold proceeds, phase_ok. rewrite Hst.
  assert (settles (m_socket m) (set_serial_number (set_request_session_id (m_socket m) true) 0)) as Hs.
  { apply settles_members; try done. intros _. unfold session_ok. simpl. by destruct (is_resetting _). }
  destruct Hm2 as [->| ->]; (split; [etrans; [exact Hs|]; by apply settles_members|]); split; (left || done).
Qed.

Lemma iteration_proceeds m : returns (E := E) (fsm_iteration stack m) (proceeds m).
Proof.
  unfold fsm_iteration. destruct (state (m_socket m)) eqn:Hst; first
    [ by apply connecting_proceeds | by apply reset_proceeds | by apply sync_proceeds
    | by apply established_proceeds | apply start_over_proceeds; by rewrite Hst
    | returns_any; apply reconnect_proceeds; by rewrite Hst
    | apply returns_ret; unfold proceeds; rewrite Hst; split; [done|]; split; [left|done]
    | unfold fsm_reconnect; returns_any; eapply returns_bind; [apply reconnect_proceeds; by rewrite Hst|];
      intros m' Hm; returns_any; by apply returns_ret ].
Qed.

(** ** Steps *)

Definition machine_ok m : Prop := socket_ok (m_socket m) ∧ phase_ok (m_socket m).

Lemma step_ok m w m' w' :
  fsm_step stack (m, w) (m', w') → machine_ok m →
  machine_ok m' ∧ identity (m_socket m') = identity (m_socket m) ∧ version (m_socket m') <= version (m_socket m).
Proof.
  inversion 1 as [? ? ? ? Hns Hit|? ? ? ? Hsd]; subst; intros [Hso Hph].
  - destruct (iteration_proceeds _ _ _ _ Hit) as ((Hi & Hv & Ho) & _ & Hp). split; [|done]. split; auto.
  - rewrite (change_returns _ _ _ _ _ Hsd). simpl. unfold changed. case_decide as Hd; (split; [|done]); (split; [done|]); done.
Qed.

Lemma steps_ok c c' :
  rtc (fsm_step stack) c c' → machine_ok c.1 →
  machine_ok c'.1 ∧ identity (m_socket c'.1) = identity (m_socket c.1) ∧
  version (m_socket c'.1) <= version (m_socket c.1).
Proof.
  induction 1 as [c|[m w] [m1 w1] c' Hstep _ IH]; intros Hok; [by split; [|split]|].
  destruct (step_ok _ _ _ _ Hstep Hok) as (Hok1 & Hi1 & Hv1). destruct (IH Hok1) as (Hok2 & Hi2 & Hv2). simpl in *.
  split; [done|]. split; [congruence|lia].
Qed.

Lemma shutdown_final c c' :
  rtc (fsm_step stack) c c' → state (m_socket c.1) = RTR_SHUTDOWN → c' = c.
Proof.
  induction 1 as [c|[m w] [m1 w1] c' Hstep _ IH]; intros Hst; [done|]. simpl in Hst.
  assert ((m1, w1) = (m, w)) as Heq; [|rewrite Heq in IH; by apply IH].
  inversion Hstep as [? ? ? ? Hns Hit|? ? ? ? Hsd]; subst; [done|]. unfold change_state, rtr_change_socket_state in Hsd.
  rewrite Hst in Hsd. simpl in Hsd. unfold mbind, M_bind, mret, M_ret in Hsd. injection Hsd as <- <-. by destruct m.
Qed.

(** ** The start *)

Lemma init_ok s refresh expire retry mode fp s' :
  rtr_init s refresh expire retry mode fp = (RTR_SUCCESS, s') → socket_ok s' ∧ phase_ok s'.
Proof.
  unfold rtr_init. destruct (_ || _) eqn:Hc; [done|]. intros [= <-].
  apply orb_false_iff in Hc as [[H1%bool_decide_eq_false H2%bool_decide_eq_false]%orb_false_iff H3%bool_decide_eq_false].
  unfold rtr_check_interval_range in *. split; [|done]. split; [done|]. split; [done|]. intros _. unfold in_range. simpl.
  repeat case_match; try (by destruct H1); try (by destruct H2); try (by destruct H3); lia.
Qed.

Lemma init_mode s refresh expire retry mode fp s' :
  rtr_init s refresh expire retry mode fp = (RTR_SUCCESS, s') → iv_mode s' = mode.
Proof. unfold rtr_init. destruct (_ || _); [done|]. by intros [= <-]. Qed.

Lemma begin_ok s ok callback s' :
  fsm_begin s ok callback = Some s' → socket_ok s → socket_ok s' ∧ phase_ok s' ∧ identity s' = identity s.
Proof. unfold fsm_begin. intros Hb Hs. repeat case_match; by simplify_eq. Qed.

End Fsm.
