(* ===== verification/FsmLiveness.v ===== *)
(** * The state machine: reaching a session

    What the queries look like on the wire, and how the iterations of the thread lead
    from a new connection to an established session with a cache that answers. *)

From Stdlib Require Import String.
From S2P Require Import Prelude Ip PfxTable PfxTableProofs PfxTableBulk Hashlin Spki SpkiProofs SetOps.
From S2P Require Import AspaArray Aspa AspaUpdate AspaVerification AspaVerificationProofs.
From S2P Require Import AspaUpdateProofs AspaTheorems AspaSwapIn AspaReplace.
From S2P Require Import Pdu PduProofs PduTheorems Transport TransportProofs Socket Packets PacketsProofs ReceiveProofs.
From S2P Require Import Update UpdateProofs UpdateInstances AspaPdus SyncUpdate Sync SyncProofs SyncReset SyncTheorems.
From S2P Require Import Rtr RtrProofs.
Open Scope Z_scope.

(** ** The queries *)

Section Queries.
Context `{Build} `{Host}.
Implicit Types s : rtr_socket.

Definition wire_reset_query s : list Z := u8 (version s) :: 2 :: be_bytes 2 0 ++ be_bytes 4 8.
Definition wire_serial_query s : list Z :=
  u8 (version s) :: 1 :: be_bytes 2 (session_id s) ++ be_bytes 4 12 ++ be_bytes 4 (serial_number s).

Lemma reset_query_to_network s :
  rtr_pdu_to_network_byte_order (reset_query_pdu s) = Some (wire_reset_query s).
Proof.
  set (p := reset_query_pdu s). assert (bytes (host_bytes 2 0)) as Hx by apply bytes_host_bytes.
  destruct (header_to_network p (u8 (version s)) 2 (host_bytes 2 0) 8 []) as [Ht Hn]; try done;
    [apply u8_bound|apply host_bytes_length| |].
  { unfold p, reset_query_pdu. by rewrite app_nil_r. }
  unfold rtr_pdu_to_network_byte_order, rtr_pdu_footer_to_network_byte_order, rtr_pdu_convert_footer_byte_order.
  rewrite Ht. change (pdu_type_of 2) with RESET_QUERY. cbn [mbind option_bind]. rewrite Hn, mirror_host_bytes, app_nil_r. done.
Qed.

Lemma serial_query_to_network s :
  rtr_pdu_to_network_byte_order (serial_query_pdu s) = Some (wire_serial_query s).
Proof.
  set (p := serial_query_pdu s). set (x := host_bytes 2 (session_id s)). set (n := host_bytes 4 (serial_number s)).
  assert (bytes x ∧ bytes n ∧ bytes (host_bytes 4 sizeof_serial)) as (Bx & Bn & Bl) by (split_and!; apply bytes_host_bytes).
  assert (length x = 2%nat ∧ length n = 4%nat ∧ length (host_bytes 4 sizeof_serial) = 4%nat) as (Lx & Ln & Ll)
    by (split_and!; apply host_bytes_length).
  assert (p = ([u8 (version s); 1] ++ x ++ host_bytes 4 sizeof_serial) ++ n ++ []) as Hp
    by (unfold p, serial_query_pdu; fold x n; by rewrite app_nil_r, <- !app_assoc).
  destruct (header_to_network p (u8 (version s)) 1 x sizeof_serial n) as [Ht _]; try done; [apply u8_bound|].
  unfold rtr_pdu_to_network_byte_order, rtr_pdu_footer_to_network_byte_order, rtr_pdu_convert_footer_byte_order.
  rewrite Ht. change (pdu_type_of 1) with SERIAL_QUERY. cbn [mbind option_bind].
  rewrite convert32_spec; [| |rewrite Hp, !length_app, Lx, Ln, Ll; simpl; lia].
  - cbn [mbind option_bind]. rewrite Hp, flip_member; [|rewrite !length_app, Lx, Ll; done|done].
    unfold n. rewrite mirror_host_bytes, app_nil_r.
    destruct (header_to_network (([u8 (version s); 1] ++ x ++ host_bytes 4 sizeof_serial) ++ be_bytes 4 (serial_number s))
      (u8 (version s)) 1 x sizeof_serial (be_bytes 4 (serial_number s))) as [_ ->]; try done;
      [apply u8_bound|apply bytes_reverse, le_bytes_ok|by rewrite <- !app_assoc|].
    unfold x. by rewrite mirror_host_bytes.
  - rewrite Hp, !Forall_app. split_and!; try done. constructor; [apply u8_bound|constructor; [lia|constructor]].
Qed.

End Queries.

(** ** A network that works *)

Lemma wp_and {E A} (m : M E A) (Q R : A → world E → Prop) w :
  wp m Q w → wp m R w → wp m (λ x w', Q x w' ∧ R x w') w.
Proof. intros (x & w' & Hm & HQ) (x2 & w2 & Hm2 & HR). exists x, w'. split; [done|]. split; [done|]. congruence. Qed.

Section Network.
Context {E : Type} `{!Event tr_event E}.
Implicit Types w : world E.

Definition is_accepted (a : send_answer) : Prop := match a with Accepts _ => True | SendFails _ => False end.

(** Connections can be opened, what is sent is accepted, in however many pieces, and
    the clock does not fail. *)
Definition network_works w : Prop :=
  Forall is_accepted (send_answers (net w)) ∧ Forall (eq true) (open_answers (net w)) ∧ clock_works w.

Lemma send_loop_works fuel rest total w :
  Forall is_accepted (send_answers (net w)) → (length (send_answers (net w)) < fuel)%nat →
  wp (net_send_loop fuel rest total) (λ res _, ∃ n, res = inr n) w.
Proof.
  revert rest total w. induction fuel as [|fuel IH]; intros [|b rest] total w Hacc Hf;
    [apply wp_ret; by eexists|lia|apply wp_ret; by eexists|].
  cbn [send_loop]. wp_step. apply wp_time. intros t w1 (_ & _ & _ & Hs & _). cbv beta. wp_step.
  unfold tr_send. rewrite <- Hs in Hacc, Hf. unfold wp at 1.
  destruct (send_answers (net w1)) as [|[n|e] answers] eqn:Hans; simpl in Hf.
  - eexists _, _. split; [done|]. cbv beta iota. rewrite drop_ge by done.
    destruct fuel; apply wp_ret; by eexists.
  - apply Forall_cons in Hacc as [_ Hacc]. eexists _, _. split; [done|]. cbv beta iota. apply IH; simpl; [done|lia].
  - by apply Forall_cons in Hacc as [[] _].
Qed.

Lemma send_all_works pdu w :
  Forall is_accepted (send_answers (net w)) → wp (tr_send_all pdu) (λ res _, ∃ n, res = inr n) w.
Proof.
  intros Hacc. unfold tr_send_all.
  cut (wp (rtr_get_monotonic_time;; net_send_loop (S (length (send_answers (net w)))) pdu 0) (λ res _, ∃ n, res = inr n) w);
    [done|]. wp_step. apply wp_time. intros t w1 (_ & _ & _ & Hs & _). cbv beta.
  apply send_loop_works; rewrite Hs; [done|lia].
Qed.

End Network.

(** ** From a connection to a session *)

Section Liveness.
Context `{Build} `{Host} {E HT : Type} `{!HashTable E HT key_entry} `{!HashTableSpec E HT key_entry}.
Context `{!Event pfx_event E} `{!Event spki_event E} `{!Event aspa_event E}.
Context `{!Event tr_event E} `{!Event rtr_event E}.
Implicit Types (s : rtr_socket) (w : world E) (t : tables HT) (m : machine HT).

(** What the client is told of a change of state. *)
Definition told_state s (st : rtr_socket_state) : list E :=
  match connection_state_fp s with Some fp => [event (StateChanged fp (self s) st)] | None => [] end.

Lemma told_state_events s st : state s ≠ st → state s ≠ RTR_SHUTDOWN → state_events (E := E) s st = told_state s st.
Proof. intros Hst Hsd. unfold state_events. rewrite decide_False by tauto. done. Qed.

Lemma wp_change m st (Q : machine HT → world E → Prop) w :
  state (m_socket m) ≠ st → state (m_socket m) ≠ RTR_SHUTDOWN →
  (∀ w', talks w (told_state (m_socket m) st) w' → net w' = net w → Q (set_socket m (set_state (m_socket m) st)) w') →
  wp (change_state m st) Q w.
Proof.
  intros Hst Hsd HQ. unfold change_state. wp_step. unfold rtr_change_socket_state. rewrite !decide_False by done.
  cbv zeta. simpl connection_state_fp. unfold told_state in HQ. destruct (connection_state_fp (m_socket m)).
  - wp_step. eexists _, _. split; [done|]. cbv beta. wp_step. wp_step. apply HQ; [by split_and!|done].
  - wp_step. wp_step. apply HQ; [apply talks_refl|done].
Qed.

Lemma send_works s pdu wire (Q : Z → world E → Prop) w :
  rtr_pdu_to_network_byte_order pdu = Some wire → wire ≠ [] → state s ≠ RTR_SHUTDOWN →
  Forall is_accepted (send_answers (net w)) →
  (∀ pieces w', concat pieces = wire → talks w (sent pieces) w' → Q RTR_SUCCESS w') →
  wp (rtr_send_pdu s pdu) Q w.
Proof.
  intros Hc Hne Hsd Hacc HQ. unfold rtr_send_pdu. rewrite Hc. wp_step. wp_step. rewrite decide_False by done. wp_step.
  eapply wp_mono; [apply wp_and; [apply send_all_spec|by apply send_all_works]|].
  intros res w' [(ls & tail & (Ha & He & Hs & _ & Hck) & Hw & Hres) [n ->]]. destruct Hres as [-> ->].
  rewrite app_nil_r in Hw. destruct wire as [|b wire]; [done|]. simpl length. cbn [Nat.ltb Nat.leb]. wp_step.
  by apply (HQ ls).
Qed.

(** The socket once its query is on the way. *)
Definition asking m : rtr_socket := set_state (set_has_received_pdus (m_socket m) false) RTR_SYNC.
Definition query s : list Z := if request_session_id s then wire_reset_query s else wire_serial_query s.

Lemma wp_open (Q : bool → world E → Prop) w :
  Forall (eq true) (open_answers (net w)) →
  (∀ w', talks w [event (Opened true)] w' → send_answers (net w') = send_answers (net w) → Q true w') → wp tr_open Q w.
Proof.
  intros Hop HQ. unfold wp, tr_open. destruct (open_answers (net w)) as [|b bs] eqn:Ho.
  - eexists _, _. split; [done|]. apply HQ; [by split_and!|done].
  - apply Forall_cons in Hop as [<- _]. eexists _, _. split; [done|]. apply HQ; [by split_and!|done].
Qed.

Lemma ticks_talks w w' : ticks w w' → talks (E := E) w [] w'.
Proof. intros (Ha & He & Hs & _ & _ & Hc). split_and!; try done. by rewrite He, app_nil_r. Qed.

Context (stack : buffer).

Lemma wp_run n m (Q : machine HT → world E → Prop) w :
  state (m_socket m) ≠ RTR_SHUTDOWN →
  wp (fsm_iteration stack m) (λ m' w', wp (fsm_run stack n m') Q w') w → wp (fsm_run stack (S n) m) Q w.
Proof. intros Hsd Hit. cbn [fsm_run]. rewrite decide_False by done. by wp_step. Qed.

(** Connecting and sending the query. *)
Lemma asking_spec n m (Q : machine HT → world E → Prop) w :
  state (m_socket m) = RTR_CONNECTING → ¬ purged m w → tables_ok (E := E) (m_tables m) → no_fail w → network_works w →
  (∀ pieces w', concat pieces = query (asking m) →
     talks w (event (Opened true) ::
       (if request_session_id (m_socket m) then told_state (m_socket m) RTR_RESET else []) ++
       sent pieces ++ told_state (m_socket m) RTR_SYNC) w' →
     wp (fsm_run stack n (set_socket m (asking m))) Q w') →
  wp (fsm_run stack ((if request_session_id (m_socket m) then 2 else 1) + n) m) Q w.
Proof.
  intros Hst Hnp Hok Hnf (Hacc & Hop & _) HQ. set (m0 := set_socket m (set_has_received_pdus (m_socket m) false)).
  assert (∀ k (R : machine HT → world E → Prop), (∀ w1, talks w [event (Opened true)] w1 → send_answers (net w1) = send_answers (net w) →
    wp (if request_session_id (m_socket m) then change_state m0 RTR_RESET
        else '(rtval, s) ← rtr_send_serial_query (m_socket m0); let m := set_socket m0 s in
             if rtval =? RTR_SUCCESS then change_state m RTR_SYNC else change_state m RTR_ERROR_FATAL)
       (λ m' w', wp (fsm_run stack k m') R w') w1) → wp (fsm_run stack (S k) m) R w) as Hopen.
  { intros k R HR. apply wp_run; [by rewrite Hst|]. unfold fsm_iteration. rewrite Hst. unfold fsm_connecting.
    cbv zeta. fold m0. wp_step. eapply wp_mono; [by apply (purge_spec m0)|]. intros m' w1 [_ Hm'].
    rewrite decide_False in Hm' by done. destruct Hm' as [-> Ht]. pose proof Ht as (_ & _ & _ & Hsa & Hoa & _). wp_step.
    apply wp_open; [by rewrite Hoa|]. intros w2 Hw2 Hs2. simpl negb. cbv iota. apply HR.
    - apply (talks_trans _ [] w1); [by apply ticks_talks|done].
    - congruence. }
  destruct (request_session_id (m_socket m)) eqn:Hreq.
  - apply (Hopen (S n)). intros w1 Hw1 Hs1. apply wp_change; [by simpl; rewrite Hst..|]. intros w2 Hw2 Hn2.
    apply wp_run; [done|]. unfold fsm_iteration. simpl. unfold fsm_reset. wp_step. unfold rtr_send_reset_query. wp_step.
    eapply send_works; [apply reset_query_to_network|done|done|by rewrite Hn2, Hs1|]. intros pieces w3 Hp Hw3.
    simpl. wp_step. apply wp_change; [done..|]. intros w4 Hw4 _. apply (HQ pieces).
    + by rewrite Hp; unfold query; simpl; rewrite Hreq.
    + apply (talks_trans w [event (Opened true)] w1); [done|]. eapply talks_trans; [exact Hw2|].
      eapply talks_trans; [exact Hw3|exact Hw4].
  - apply (Hopen n). intros w1 Hw1 Hs1. wp_step. unfold rtr_send_serial_query. wp_step.
    eapply send_works; [apply serial_query_to_network|done|by simpl; rewrite Hst|by rewrite Hs1|].
    intros pieces w3 Hp Hw3. simpl. wp_step. apply wp_change; [by simpl; rewrite Hst..|]. intros w4 Hw4 _. apply (HQ pieces).
    + by rewrite Hp; unfold query; simpl; rewrite Hreq.
    + apply (talks_trans w [event (Opened true)] w1); [done|]. eapply talks_trans; [exact Hw3|exact Hw4].
Qed.

Lemma answered_members s a :
  state (answered s a) = state s ∧ self (answered s a) = self s ∧ connection_state_fp (answered s a) = connection_state_fp s.
Proof.
  unfold answered. assert (∀ s' b, state (with_intervals s' b) = state s' ∧ self (with_intervals s' b) = self s' ∧
    connection_state_fp (with_intervals s' b) = connection_state_fp s') as Hiv.
  { intros s' b. unfold with_intervals, with_interval, rtr_check_interval_option. by repeat case_match. }
  simpl. destruct (Hiv (in_session s a) (end_of_data a)) as (-> & -> & ->).
  unfold in_session, downgrade. by repeat case_match.
Qed.

(** The whole way: the answer is applied, and the session is established. *)
Lemma establish_spec m a ps ks ms w :
  bytes stack → RTR_MAX_PDU_LEN <= Z.of_nat (length stack) →
  state (m_socket m) = RTR_CONNECTING → ¬ purged m w → tables_ok (E := E) (m_tables m) → no_fail w → network_works w →
  answer_ok (asking m) a → content_ok (E := E) (asking m) (m_tables m) a →
  answer_outcome (asking m) (m_tables m) a = Some (ps, ks, ms) → answer_bytes a `prefix_of` bytes_of (stream (net w)) →
  wp (fsm_run stack (if request_session_id (m_socket m) then 3 else 2) m) (λ m' w',
    state (m_socket m') = RTR_ESTABLISHED ∧
    (∃ now, m_socket m' = set_state (Socket.set_last_update (set_request_session_id (answered (asking m) a) false) now)
                            RTR_ESTABLISHED) ∧
    tables_ok (E := E) (m_tables m') ∧ answer_applied (asking m) (m_tables m) a (m_tables m') ps ks ms ∧
    ∃ pieces evs, concat pieces = query (asking m) ∧ answer_told (asking m) (m_tables m) a (m_tables m') evs ∧
      hears w (event (Opened true) ::
        (if request_session_id (m_socket m) then told_state (m_socket m) RTR_RESET else []) ++
        sent pieces ++ told_state (m_socket m) RTR_SYNC ++ evs ++ told_state (m_socket m) RTR_ESTABLISHED)
        (answer_bytes a) w') w.
Proof.
  intros Hb Hl Hst Hnp Hok Hnf Hnw Ha Hc Hout Hpre.
  replace (if request_session_id (m_socket m) then 3 else 2)%nat
    with ((if request_session_id (m_socket m) then 2 else 1) + 1)%nat by by destruct (request_session_id _).
  apply asking_spec; try done. intros pieces w1 Hp Hw1. pose proof Hw1 as (Hal & _ & Hs1 & Hc1).
  apply wp_run; [done|]. unfold fsm_iteration. simpl state. cbv iota. unfold fsm_sync. wp_step. simpl m_socket. simpl m_tables.
  eapply wp_mono.
  { apply (rtr_sync_spec stack (asking m) (m_tables m) a); try done; [by rewrite Hs1|unfold no_fail; by rewrite Hal|].
    eapply clock_works_later; [exact Hc1|]. apply Hnw. }
  intros [[rv s2] t2] w2 (Hok2 & Hpost). rewrite Hout in Hpost. destruct Hpost as (-> & [now ->] & Happ & evs & Htold & Hw2).
  simpl Z.eqb. cbv iota zeta.
  set (s2 := Socket.set_last_update _ now). destruct (answered_members (asking m) a) as (Hs2 & Hself & Hfp).
  assert (state s2 = RTR_SYNC ∧ self s2 = self (m_socket m) ∧ connection_state_fp s2 = connection_state_fp (m_socket m))
    as (Hst2 & Hself2 & Hfp2) by done.
  apply wp_change; [by simpl m_socket; rewrite Hst2..|]. intros w3 Hw3 _. apply wp_ret. split; [done|]. split; [by exists now|].
  split; [done|]. split; [done|]. exists pieces, evs. split; [done|]. split; [done|].
  assert (told_state s2 RTR_ESTABLISHED = told_state (m_socket m) RTR_ESTABLISHED) as Hts
    by (unfold told_state; by rewrite Hself2, Hfp2).
  simpl m_socket in Hw3. rewrite Hts in Hw3.
  pose proof (hears_then_runs _ _ _ _ _ _ Hw2 (runs_talks _ _ _ Hw3)) as Hh.
  pose proof (hears_trans _ _ _ _ _ _ _ (hears_runs _ _ _ (runs_talks _ _ _ Hw1)) Hh) as Hall.
  rewrite app_nil_l in Hall. simpl in Hall. by rewrite <- !app_assoc in Hall.
Qed.

(** ** A cache that is gone *)

Lemma wp_open_fails (Q : bool → world E → Prop) bs w :
  open_answers (net w) = false :: bs → (∀ w', open_answers (net w') = bs → Q false w') → wp tr_open Q w.
Proof. intros Ho HQ. unfold wp, tr_open. rewrite Ho. eexists _, _. split; [done|]. by apply HQ. Qed.

(** Without the time of the last update, the records of a cache that is gone stay. *)
Lemma gone_spec n k m w :
  state (m_socket m) = RTR_CONNECTING ∨ state (m_socket m) = RTR_ERROR_TRANSPORT →
  last_update (m_socket m) = 0 → open_answers (net w) = replicate k false → (n <= k)%nat →
  wp (fsm_run stack n m) (λ m' _, m_tables m' = m_tables m) w.
Proof.
  revert k m w. induction n as [|n IH]; intros [|k] m w Hst Hlu Hop Hk; try lia; try by apply wp_ret.
  apply wp_run; [by destruct Hst as [-> | ->]|]. unfold fsm_iteration. destruct Hst as [Hst|Hst]; rewrite Hst.
  - unfold fsm_connecting, rtr_purge_outdated_records. cbv zeta. simpl last_update. rewrite Hlu. simpl Z.eqb. cbv iota.
    wp_step. wp_step. wp_step. eapply wp_open_fails; [exact Hop|]. intros w1 Hop1. simpl negb. cbv iota.
    apply wp_change; [by simpl; rewrite Hst..|]. intros w2 _ Hn2.
    eapply wp_mono; [apply (IH k); [by right|done|by rewrite Hn2|lia]|]. done.
  - unfold fsm_reconnect, tr_close, sleep. wp_step. wp_step. destruct H1 as (_ & _ & Hn1). cbv beta. wp_step.
    apply wp_change; [by simpl; rewrite Hst..|]. intros w2 _ Hn2. wp_step. wp_step. destruct H1 as (_ & _ & Hn3).
    wp_step. eapply wp_mono; [apply (IH (S k)); [by left|done|by rewrite Hn3, Hn2, Hn1|lia]|]. done.
Qed.

End Liveness.
