(* ===== verification/FsmTheorems.v ===== *)
(** * The state machine: the theorems *)

From Stdlib Require Import String.
From S2P Require Import Prelude Ip PfxTable PfxTableProofs PfxTableBulk PfxTheorems Hashlin Spki SpkiProofs SetOps.
From S2P Require Import AspaArray Aspa AspaUpdate AspaVerification AspaVerificationProofs.
From S2P Require Import AspaUpdateProofs AspaTheorems AspaSwapIn AspaReplace.
From S2P Require Import Pdu PduProofs PduTheorems Transport TransportProofs Socket Packets PacketsProofs ReceiveProofs.
From S2P Require Import Update UpdateProofs UpdateInstances AspaPdus SyncUpdate UpdateTheorems Sync SyncProofs SyncReset.
From S2P Require Import SyncTheorems Rtr RtrProofs FsmProofs FsmLiveness.
Open Scope Z_scope.

Section Fsm.
Context `{Build} `{Host} {E HT : Type} `{!HashTable E HT key_entry} `{!HashTableSpec E HT key_entry}.
Context `{!Event pfx_event E} `{!Event spki_event E} `{!Event aspa_event E}.
Context `{!Event tr_event E} `{!Event rtr_event E}.
Implicit Types (s : rtr_socket) (w : world E) (t : tables HT) (m : machine HT).

(** C4: A socket in the state CONNECTING whose data are not outdated, and whose cache gives
    an answer that can be applied, is established after three iterations of its thread (two
    if it has a session): the query on the wire is the one for all records or, with a
    session, for the changes since the serial number; the tables then hold what the answer
    makes of them, as in the theorem on [rtr_sync] and under its assumptions (a reset
    without ASPA PDUs leaves the ASPAs of the cache), the socket has the session, serial
    number and intervals of the answer, and the clients are told of the states and the
    changes in this order.  Connections can be opened, what is sent is accepted, memory
    lasts and the clock works. *)
Theorem fsm_establishes stack m a ps ks ms w :
  bytes stack → RTR_MAX_PDU_LEN <= Z.of_nat (length stack) →
  state (m_socket m) = RTR_CONNECTING → ¬ purged m w → tables_ok (E := E) (m_tables m) → no_fail w → network_works w →
  answer_ok (asking m) a → content_ok (E := E) (asking m) (m_tables m) a →
  answer_outcome (asking m) (m_tables m) a = Some (ps, ks, ms) → answer_bytes a `prefix_of` bytes_of (stream (net w)) →
  wp (fsm_run stack (if request_session_id (m_socket m) then 3 else 2) m) (λ m' w',
    state (m_socket m') = RTR_ESTABLISHED ∧
    (∃ now, m_socket m' = set_state (Socket.set_last_update (set_request_session_id (answered (asking m) a) false) now)
                            RTR_ESTABLISHED) ∧
    tables_ok (E := E) (m_tables m') ∧ answer_applied (asking m) (m_tables m) a (m_tables m') ps ks ms ∧
    ∃ pieces evs, concat pieces = query (asking m) ∧ answer_told (asking m) (m_tables m) a (m_tables m') evs ∧
      hears w (event (Opened true) ::
        (if request_session_id (m_socket m) then told_state (m_socket m) RTR_RESET else []) ++
        sent pieces ++ told_state (m_socket m) RTR_SYNC ++ evs ++ told_state (m_socket m) RTR_ESTABLISHED)
        (answer_bytes a) w') w.
Proof. apply establish_spec. Qed.

(** C9: In every configuration that a socket which [rtr_init] accepted reaches by iterations
    of its thread, whatever the cache sends, the network does and the allocator refuses,
    and by requests of another thread to shut down between two iterations: its version is
    supported, and no later configuration has a greater one; the intervals are within
    their limits unless the client accepts any; its identity and callbacks are those from
    the start; it is in the state RESET only without, and in ESTABLISHED only with, a
    session; a replacement of the records of the cache is under way only while no session
    is there; and after a shutdown no step changes anything. *)
Theorem fsm_safe stack s0 refresh expire retry mode fp s1 s2 ok callback t w m w' :
  rtr_init s0 refresh expire retry mode fp = (RTR_SUCCESS, s1) → fsm_begin s1 ok callback = Some s2 →
  rtc (fsm_step stack) (Machine s2 t, w) (m, w') →
  0 <= version (m_socket m) <= version s2 ∧ version s2 <= 2 ∧ identity (m_socket m) = identity s2 ∧
  (mode ≠ RTR_INTERVAL_MODE_ACCEPT_ANY → 1 <= refresh_interval (m_socket m) <= 86400 ∧
     600 <= expire_interval (m_socket m) <= 172800 ∧ 1 <= retry_interval (m_socket m) <= 7200) ∧
  (state (m_socket m) = RTR_RESET → request_session_id (m_socket m) = true) ∧
  (state (m_socket m) = RTR_ESTABLISHED → request_session_id (m_socket m) = false) ∧
  (is_resetting (m_socket m) = true → request_session_id (m_socket m) = true) ∧
  (∀ c, rtc (fsm_step stack) (m, w') c → version (m_socket c.1) <= version (m_socket m)) ∧
  (state (m_socket m) = RTR_SHUTDOWN → ∀ c, rtc (fsm_step stack) (m, w') c → c = (m, w')).
Proof.
  intros Hinit Hbegin Hsteps. pose proof (init_mode _ _ _ _ _ _ _ Hinit) as Hmode.
  destruct (init_ok _ _ _ _ _ _ _ Hinit) as [Hok1 _].
  destruct (begin_ok _ _ _ _ Hbegin Hok1) as (Hok2 & Hph2 & Hid).
  destruct (steps_ok _ _ _ Hsteps (conj Hok2 Hph2)) as (((Hses & Hv & Hiv) & Hph) & Hi & Hle). simpl in *.
  assert (∀ c, rtc (fsm_step stack) (m, w') c → version (m_socket c.1) <= version (m_socket m)) as Hmono
    by (intros c Hc; by destruct (steps_ok _ _ _ Hc (conj (conj Hses (conj Hv Hiv)) Hph)) as (_ & _ & ?)).
  unfold in_range in *. destruct Hok2 as (_ & Hv2 & _). unfold in_range in Hv2.
  assert (iv_mode (m_socket m) = mode) as Hm by (unfold identity in Hi, Hid; congruence).
  unfold RTR_PROTOCOL_MIN_SUPPORTED_VERSION, RTR_PROTOCOL_MAX_SUPPORTED_VERSION, phase_ok, session_ok in *.
  split; [lia|]. split; [lia|]. split; [done|]. split; [intros Hne; apply Hiv; congruence|].
  split; [intros Hst; by rewrite Hst in Hph|]. split; [intros Hst; by rewrite Hst in Hph|].
  split; [intros Hr; by rewrite Hr in Hses|]. split; [exact Hmono|]. intros Hst c Hc. by apply (shutdown_final _ _ _ Hc).
Qed.

(** C14: An iteration leads to one of the states that can follow; an established session is
    only reached from the synchronisation, which then has a session; a state in which
    all records are asked for only without one. *)
Theorem fsm_transitions stack m w m' w' :
  fsm_iteration stack m w = Some (m', w') → phase_ok (m_socket m) →
  state (m_socket m') ∈ successors (state (m_socket m)) ∧
  (state (m_socket m') = RTR_ESTABLISHED → state (m_socket m) = RTR_SYNC ∨ state (m_socket m) = RTR_ESTABLISHED) ∧
  phase_ok (m_socket m').
Proof.
  intros Hit Hph. destruct (iteration_proceeds stack m _ _ _ Hit) as (_ & Hs & Hp). split; [done|]. split; [|auto].
  intros He. rewrite He in Hs. destruct (state (m_socket m)); auto; exfalso; revert Hs; decided.
Qed.

(** C34: Purging outdated records, if memory does not run out.  If the time of the last update
    is set, and the clock cannot be read or shows that the expire interval is over, exactly
    the records of the cache are removed from the three tables, the clients of the prefix and
    the ASPA table are told of each one (those of the router keys are not told), and the
    session is forgotten, so that all records are asked for and a reset is under way.  In all
    other cases, and so always when the time of the last update is 0, nothing changes. *)
Theorem purge_correct m w :
  tables_ok (E := E) (m_tables m) → no_fail w →
  wp (rtr_purge_outdated_records m) (λ m' w', tables_ok (E := E) (m_tables m') ∧
    if decide (purged m w)
    then m_socket m' = set_is_resetting (forget_session (m_socket m)) true ∧
         without (self (m_socket m)) (m_tables m) (m_tables m') ∧
         ∃ evs, removal_told (self (m_socket m)) (m_tables m) evs ∧ runs w evs w'
    else m' = m ∧ ticks w w') w.
Proof. apply purge_spec. Qed.

(** C35: Stopping a socket, if memory does not run out.  With a thread, which is waited for, it
    removes exactly the records of the cache from the three tables, tells the clients of the
    prefix and the ASPA table of each one (those of the router keys are not told), closes the
    connection and leaves the socket closed, without a session and a thread.  Without a
    thread it only changes the state, to that of a shutdown: the tables are as before. *)
Theorem stop_correct m w :
  tables_ok (E := E) (m_tables m) → no_fail w →
  wp (rtr_stop m) (λ m' w', tables_ok (E := E) (m_tables m') ∧
    if decide (thread_id (m_socket m) = 0)
    then m' = Machine (changed (m_socket m) RTR_SHUTDOWN) (m_tables m) ∧ runs w (state_events (m_socket m) RTR_SHUTDOWN) w'
    else m_socket m' = stopped (m_socket m) ∧
      without (self (m_socket m)) (m_tables m) (m_tables m') ∧ ∃ evs, removal_told (self (m_socket m)) (m_tables m) evs ∧
      runs w (state_events (m_socket m) RTR_SHUTDOWN ++ [event Closed] ++ evs) w') w.
Proof.
  intros Hok Hnf. destruct (decide (thread_id (m_socket m) = 0)) as [Hth|Hth]; [|by apply stop_spec].
  unfold rtr_stop. wp_step. apply wp_change_state. intros w1 Hw1%runs_talks. unfold finish_stop. cbn [m_socket].
  assert (thread_id (changed (m_socket m) RTR_SHUTDOWN) = 0) as ->; [destruct (changed_members (m_socket m) RTR_SHUTDOWN) as [st ->]; done|].
  simpl negb. cbv iota. wp_step. by split_and!.
Qed.

End Fsm.

(** ** Instances *)

#[local] Existing Instance debug_build.
#[local] Existing Instance little_endian_host.

Abbreviation key_hash := (tommy_hashlin key_entry) (only parsing).

Definition connecting (st : rtr_spki_table key_hash) : machine key_hash :=
  Machine (set_state new_socket RTR_CONNECTING) (empty_tables st).

Lemma fsm_establishes_witness :
  ∃ st w, spki_table_init (Some 2%nat) (World [] [] test_net) = Some (st, w) ∧
    wp (fsm_run stack0 3 (connecting st)) (λ m' w',
      state (m_socket m') = RTR_ESTABLISHED ∧ session_id (m_socket m') = 42 ∧
      length (pfx_records (pfx_table (m_tables m'))) = 2%nat ∧ aspa_map (aspa_table (m_tables m')) 7 = {[9 := [5; 6]]})
      (w : world rtr_log).
Proof.
  destruct (empty_tables_ok (World [] [] test_net)) as (st & w & Hi & Hnf & Hk & Hok & Hnet); [constructor|].
  exists st, w. split; [done|]. destruct stack0_ok as [Hb Hl].
  assert (∃ ps, answer_outcome (asking (connecting st)) (empty_tables st) test_answer = Some (ps, [], {[9 := [5; 6]]}) ∧
    length ps = 2%nat) as (ps & Hacc & Hlen).
  { change (answer_outcome (asking (connecting st)) (empty_tables st) test_answer)
      with (accepted new_socket (empty_tables st) (content test_answer)).
    unfold accepted, key_records, spki_records. change (spki_table (empty_tables st)) with (Some st).
    cbv beta iota. rewrite Hk. eexists. split; vm_compute; reflexivity. }
  eapply wp_mono.
  { apply (@fsm_establishes debug_build little_endian_host rtr_log _ _ _ _ _ _ _ _
      stack0 (connecting st) test_answer ps [] {[9 := [5; 6]]} w);
      [exact Hb|exact Hl|reflexivity| |exact Hok|exact Hnf| | | |exact Hacc|].
    - by intros [Hlu _].
    - unfold network_works, clock_works. rewrite Hnet. done.
    - change (asking (connecting st)) with new_socket. decided.
    - split; [decided|]. split; [simpl; rewrite Hk; vm_compute; discriminate|vm_compute; intuition discriminate].
    - rewrite Hnet. by exists []. }
  intros m' w' (Hst & [now Hs] & _ & (Hps & _ & Hm) & _). split; [done|]. split; [by rewrite Hs|].
  split; [by rewrite Hps|]. rewrite Hm by (by left). done.
Defined.

(** A cache that hangs up at once. *)
Definition closing_net : network := Network [RecvFails TR_CLOSED] [] [true] [].
Definition no_tables : tables key_hash := Tables None None None.
(** After [rtr_init], and when the thread starts. *)
Definition initialized : rtr_socket :=
  RtrSocket 7 3600 0 7200 600 RTR_INTERVAL_MODE_DEFAULT_MIN_MAX RTR_CLOSED 0 true 0 0 (Some 4%nat) 2 false false.
Definition started : rtr_socket := set_state initialized RTR_CONNECTING.

Lemma fsm_safe_witness :
  ∃ m w', rtc (fsm_step stack0) (Machine started no_tables, World [] ([] : list rtr_log) closing_net) (m, w') ∧
    state (m_socket m) = RTR_RESET ∧ request_session_id (m_socket m) = true ∧ 0 <= version (m_socket m) <= 2.
Proof.
  assert (∃ m w', fsm_iteration stack0 (Machine started no_tables) (World [] ([] : list rtr_log) closing_net) = Some (m, w') ∧
    state (m_socket m) = RTR_RESET) as (m & w' & Hit & Hst) by (eexists _, _; split; vm_compute; reflexivity).
  assert (rtc (fsm_step stack0) (Machine started no_tables, World [] ([] : list rtr_log) closing_net) (m, w')) as Hs
    by (by apply rtc_once, fsm_iterate).
  exists m, w'. split; [exact Hs|]. split; [exact Hst|].
  destruct (@fsm_safe debug_build little_endian_host rtr_log _ _ _ _ _ _ _ stack0 new_socket 3600 7200 600
    RTR_INTERVAL_MODE_DEFAULT_MIN_MAX (Some 4%nat) initialized started true None no_tables _ m w' eq_refl eq_refl Hs)
    as (Hv & Hv2 & _ & _ & Hr & _).
  split; [by apply Hr|lia].
Defined.

Lemma fsm_transitions_witness :
  ∃ m' w', fsm_iteration stack0 (Machine started no_tables) (World [] ([] : list rtr_log) closing_net) = Some (m', w') ∧
    state (m_socket m') = RTR_RESET ∧ state (m_socket m') ∈ successors RTR_CONNECTING.
Proof.
  assert (∃ m w', fsm_iteration stack0 (Machine started no_tables) (World [] ([] : list rtr_log) closing_net) = Some (m, w') ∧
    state (m_socket m) = RTR_RESET) as (m & w' & Hit & Hst) by (eexists _, _; split; vm_compute; reflexivity).
  exists m, w'. split; [exact Hit|]. split; [exact Hst|].
  apply (@fsm_transitions debug_build little_endian_host rtr_log _ _ _ _ _ _ _ stack0
    (Machine started no_tables) _ _ _ Hit). done.
Defined.

(** Records of the caches 1 and 2, the last of which came more than two hours ago. *)
Definition filled_tables (st : rtr_spki_table key_hash) : tables key_hash :=
  Tables (Some sample_table) (Some st) (Some sample_aspa_table).
Definition outdated_socket : rtr_socket :=
  RtrSocket 1 3600 1000 7200 600 RTR_INTERVAL_MODE_IGNORE_ANY RTR_CONNECTING 42 false 5 1 (Some 4%nat) 2 true false.
Definition late_net : network := Network [] [] [] [Some (9000, 0)].

Lemma filled_tables_ok (n : network) :
  ∃ st w, spki_table_init (Some 2%nat) (World [] [] n) = Some (st, w) ∧ no_fail (w : world rtr_log) ∧
    tables_ok (E := rtr_log) (filled_tables st) ∧ net w = n.
Proof.
  destruct (empty_tables_ok (World [] [] n)) as (st & w & Hi & Hnf & _ & (_ & Hk & _) & Hnet); [constructor|].
  exists st, w. split; [done|]. split; [done|]. split; [|done]. split; [decided|]. split; [exact Hk|decided].
Qed.

Lemma purge_correct_witness :
  ∃ st w, spki_table_init (Some 2%nat) (World [] [] late_net) = Some (st, w) ∧
    wp (rtr_purge_outdated_records (Machine outdated_socket (filled_tables st))) (λ m' _,
      is_resetting (m_socket m') = true ∧ pfx_records (pfx_table (m_tables m')) ≡ₚ of_others 1 (records sample_table) ∧
      aspa_map (aspa_table (m_tables m')) 1 = ∅) (w : world rtr_log).
Proof.
  destruct (filled_tables_ok late_net) as (st & w & Hi & Hnf & Hok & Hnet). exists st, w. split; [done|].
  eapply wp_mono.
  { apply (@purge_correct debug_build little_endian_host rtr_log _ _ _ _ _ _ _ (Machine outdated_socket (filled_tables st)) w); done. }
  intros m' w' (_ & Hres). rewrite decide_True in Hres.
  - destruct Hres as (-> & (Hp & _ & Ha) & _). split; [done|]. split; [done|]. by rewrite Ha.
  - unfold purged, outdated, reading, rtr_get_monotonic_time, mbind, M_bind, clock_gettime. rewrite Hnet. done.
Defined.

Lemma stop_correct_witness :
  ∃ st w, spki_table_init (Some 2%nat) (World [] [] late_net) = Some (st, w) ∧
    wp (rtr_stop (Machine outdated_socket (filled_tables st))) (λ m' _,
      state (m_socket m') = RTR_CLOSED ∧ thread_id (m_socket m') = 0 ∧
      pfx_records (pfx_table (m_tables m')) ≡ₚ of_others 1 (records sample_table)) (w : world rtr_log).
Proof.
  destruct (filled_tables_ok late_net) as (st & w & Hi & Hnf & Hok & Hnet). exists st, w. split; [done|].
  eapply wp_mono.
  { apply (@stop_correct debug_build little_endian_host rtr_log _ _ _ _ _ _ _ (Machine outdated_socket (filled_tables st)) w); done. }
  intros m' w' [_ Hs]. rewrite decide_False in Hs by done. destruct Hs as (-> & (Hp & _) & _). by split; [|split].
Defined.

(** ** Limits *)

(** What can be observed of a machine: state, [last_update], number of prefixes. *)
Definition observed (m : machine key_hash) : rtr_socket_state * Z * nat :=
  (state (m_socket m), last_update (m_socket m), length (pfx_records (pfx_table (m_tables m)))).

(** The machines a run goes through. *)
Fixpoint fsm_trace (n : nat) (m : machine key_hash) : M rtr_log (list (rtr_socket_state * Z * nat)) :=
  match n with
  | O => mret [observed m]
  | S n => m' ← fsm_iteration stack0 m; l ← fsm_trace n m'; mret (observed m :: l)
  end.

Definition fsm_session (n : nat) (net : network) : option (list (rtr_socket_state * Z * nat)) :=
  fst <$> (st ← spki_table_init (Some 2%nat); fsm_trace n (connecting st)) (World [] [] net).

Definition cache_reset : list Z := [2; 8; 0; 0; 0; 0; 0; 8].

(** C40: A cache that resets the session, sends a Cache Response PDU and is then gone
    leaves its records in the tables for as long as it is gone: the time of the last
    update is cleared with the Cache Response, before any of the new data arrived, and
    without it the records do not expire, whatever the clock says. *)
Theorem interrupted_reset_never_expires :
  fsm_session 8 (Network
    [Segment (answer_bytes test_answer); RecvFails TR_WOULDBLOCK; Segment cache_reset;
     Segment (cache_response test_answer); RecvFails TR_ERROR] [] [] (replicate 40 (Some (100, 0)))) =
  Some [(RTR_CONNECTING, 0, 0%nat); (RTR_RESET, 0, 0%nat); (RTR_SYNC, 0, 0%nat);
        (RTR_ESTABLISHED, 100, 2%nat); (RTR_SYNC, 100, 2%nat); (RTR_ERROR_NO_INCR_UPDATE_AVAIL, 100, 2%nat);
        (RTR_RESET, 100, 2%nat); (RTR_SYNC, 100, 2%nat); (RTR_ERROR_TRANSPORT, 0, 2%nat)] ∧
  ∀ n (m : machine key_hash) (w : world rtr_log), state (m_socket m) = RTR_ERROR_TRANSPORT → last_update (m_socket m) = 0 →
    open_answers (net w) = replicate n false → wp (fsm_run stack0 n m) (λ m' _, m_tables m' = m_tables m) w.
Proof.
  split; [vm_compute; reflexivity|]. intros n m w Hst Hlu Hop. apply (gone_spec stack0 n n); try done. by right.
Qed.

(** The first prefix twice. *)
Definition faulty_answer : answer :=
  Answer (cache_response test_answer) [ipv4_pdu 1 1; ipv4_pdu 1 1] (end_of_data test_answer).

(** After a reset whose answer was refused, the correct answers of the cache are
    refused as well, since they are added to the records that are still there: the socket
    does not get another session. *)
Theorem refused_reset_locks_out :
  fsm_session 17 (Network
    [Segment (answer_bytes test_answer); RecvFails TR_WOULDBLOCK; Segment cache_reset;
     Segment (answer_bytes faulty_answer); Segment (answer_bytes test_answer); Segment (answer_bytes test_answer)]
    [] [] (replicate 100 (Some (100, 0)))) =
  Some [(RTR_CONNECTING, 0, 0%nat); (RTR_RESET, 0, 0%nat); (RTR_SYNC, 0, 0%nat);
        (RTR_ESTABLISHED, 100, 2%nat); (RTR_SYNC, 100, 2%nat); (RTR_ERROR_NO_INCR_UPDATE_AVAIL, 100, 2%nat);
        (RTR_RESET, 100, 2%nat); (RTR_SYNC, 100, 2%nat);
        (RTR_ERROR_FATAL, 0, 2%nat); (RTR_CONNECTING, 0, 2%nat); (RTR_RESET, 0, 2%nat); (RTR_SYNC, 0, 2%nat);
        (RTR_ERROR_FATAL, 0, 2%nat); (RTR_CONNECTING, 0, 2%nat); (RTR_RESET, 0, 2%nat); (RTR_SYNC, 0, 2%nat);
        (RTR_ERROR_FATAL, 0, 2%nat); (RTR_CONNECTING, 0, 2%nat)].
Proof. vm_compute. reflexivity. Qed.
