(* ===== verification/TommyList.v ===== *)
(** * Sorting of lists: [third-party/tommyds/tommychain.h], [tommylist.c]

    A chain is the list of the data of its nodes, from the head to the tail; it has at
    least one.  What an operation on an empty chain would do is undefined. *)

From S2P Require Import Prelude.
Open Scope Z_scope.

Definition TOMMY_CHAIN_BIT_MAX : nat := 32.

(** The number of zero bits below the lowest one bit of a 32-bit number; undefined for 0. *)
Fixpoint ctz (fuel : nat) (n : Z) : option nat :=
  match fuel with
  | O => None
  | S fuel => if Z.odd n then Some 0%nat else i ← ctz fuel (Z.shiftr n 1); Some (S i)
  end.
Definition tommy_ctz_u32 (n : Z) : option nat := ctz 32 n.

Section Chains.
Context {A : Type} (cmp : A → A → Z).

(** From [first_i] and [second_i] on. *)
Fixpoint tommy_chain_merge (first : list A) : list A → option (list A) :=
  fix merge_second second :=
    match first, second with
    | x :: first', y :: second' =>
        if 0 <? cmp x y then
          match second' with
          | [] => Some (y :: first)
          | _ => l ← merge_second second'; Some (y :: l)
          end
        else
          match first' with
          | [] => Some (x :: second)
          | _ => l ← tommy_chain_merge first' second; Some (x :: l)
          end
    | _, _ => None
    end.

Definition tommy_chain_merge_degenerated (first second : list A) : option (list A) :=
  first_tail ← last first;
  second_head ← head second;
  if cmp first_tail second_head <=? 0 then Some (first ++ second)
  else
    second_tail ← last second;
    first_head ← head first;
    if cmp second_tail first_head <? 0 then Some (second ++ first)
    else tommy_chain_merge first second.

(** The buckets; a bucket that was not written to is indeterminate. *)
Abbreviation buckets := (list (option (list A))) (only parsing).

Definition get_bucket (bit : buckets) (i : nat) : option (list A) := mjoin (bit !! i).
Definition set_bucket (bit : buckets) (i : nat) (c : list A) : option buckets :=
  if Nat.ltb i (length bit) then Some (<[i := Some c]> bit) else None.

(** Add the bit, propagating the carry; [mask] has at most 32 bits. *)
Fixpoint add_carry (fuel : nat) (bit : buckets) (last : list A) (i : nat) (mask : Z) : option buckets :=
  if Z.odd mask then
    match fuel with
    | O => None
    | S fuel =>
        b ← get_bucket bit i;
        last ← tommy_chain_merge_degenerated b last;
        bit ← set_bucket bit i last;
        add_carry fuel bit last (S i) (Z.shiftr mask 1)
    end
  else set_bucket bit i last.

(** The nodes of the chain, one by one. *)
Fixpoint add_nodes (bit : buckets) (counter : Z) (nodes : list A) : option (buckets * Z) :=
  match nodes with
  | [] => Some (bit, counter)
  | node :: nodes =>
      bit ← add_carry TOMMY_CHAIN_BIT_MAX bit [node] 0 counter;
      add_nodes bit (u32 (counter + 1)) nodes
  end.

(** Merge the buckets. *)
Fixpoint merge_buckets (fuel : nat) (bit : buckets) (i : nat) (mask : Z) : option (list A) :=
  if mask =? 1 then get_bucket bit i
  else
    match fuel with
    | O => None
    | S fuel =>
        let mask := Z.shiftr mask 1 in
        c ← get_bucket bit i;
        bit ← (if Z.odd mask
               then b ← get_bucket bit (S i); m ← tommy_chain_merge_degenerated b c; set_bucket bit (S i) m
               else set_bucket bit (S i) c);
        merge_buckets fuel bit (S i) mask
    end.

Definition tommy_chain_mergesort (chain : list A) : option (list A) :=
  '(bit, counter) ← add_nodes (replicate (TOMMY_CHAIN_BIT_MAX + 1) None) 0 chain;
  i ← tommy_ctz_u32 counter;
  merge_buckets TOMMY_CHAIN_BIT_MAX bit i (Z.shiftr counter (Z.of_nat i)).

Definition tommy_list_sort (l : list A) : option (list A) :=
  match l with [] => Some [] | _ => tommy_chain_mergesort l end.

End Chains.
