(* ===== verification/TommyListProofs.v ===== *)
(** * Sorting of lists: proofs

    The merge sort of tommyds, for up to 2^32 - 1 nodes and any total preorder, returns
    the nodes in ascending order, and equal ones in the order of the list. *)

From S2P Require Import Prelude TommyList.
Open Scope Z_scope.

Section Proofs.
Context {A : Type} (cmp : A → A → Z).

(** [cmp] compares: it is antisymmetric and transitive. *)
Class Compares : Prop := {
  cmp_flip : ∀ x y, 0 < cmp x y ↔ cmp y x < 0;
  cmp_trans : ∀ x y z, cmp x y <= 0 → cmp y z <= 0 → cmp x z <= 0 }.

Context `{!Compares}.

Definition le (x y : A) : Prop := cmp x y <= 0.
Definition ascending (l : list A) : Prop := StronglySorted le l.

(** The same elements, and equal ones in the same order. *)
Definition rearranges (l l' : list A) : Prop :=
  l ≡ₚ l' ∧ ∀ x, filter (λ y, cmp x y = 0) l = filter (λ y, cmp x y = 0) l'.

#[global] Instance rearranges_equiv : Equivalence rearranges.
Proof.
  split; [done| |]; [intros l l' [Hp Hf]; by split|].
  intros l l' l'' [Hp Hf] [Hp' Hf']. split; [by etrans|]. intros x. by rewrite Hf.
Qed.

#[global] Instance rearranges_app : Proper (rearranges ==> rearranges ==> rearranges) (++).
Proof.
  intros l1 l1' [Hp1 Hf1] l2 l2' [Hp2 Hf2]. split; [by rewrite Hp1, Hp2|]. intros x.
  by rewrite !filter_app, Hf1, Hf2.
Qed.

#[global] Instance rearranges_cons x : Proper (rearranges ==> rearranges) (cons x).
Proof. intros l l' Hl. apply (rearranges_app [x] [x]); [done|exact Hl]. Qed.

(** A list may go before one whose elements are all greater. *)
Lemma rearranges_swap l l' : (∀ x y, x ∈ l → y ∈ l' → 0 < cmp x y) → rearranges (l ++ l') (l' ++ l).
Proof.
  intros Hl. split; [by rewrite (comm (++))|]. intros z. rewrite !filter_app.
  destruct (filter (λ x, cmp z x = 0) l') as [|y ys] eqn:Hys; [by rewrite app_nil_r|].
  assert (cmp z y = 0 ∧ y ∈ l') as [Hzy Hy] by (apply (list_elem_of_filter (λ x, cmp z x = 0)); rewrite Hys; left).
  assert (filter (λ x, cmp z x = 0) l = []) as ->; [|by rewrite app_nil_r].
  apply filter_none. intros x Hx Hzx. specialize (Hl x y Hx Hy). pose proof (cmp_flip z x). pose proof (cmp_flip x z).
  pose proof (cmp_trans x z y). lia.
Qed.

Lemma le_refl x : le x x.
Proof. unfold le. pose proof (cmp_flip x x). lia. Qed.

Lemma ascending_app l l' : ascending l → ascending l' → (∀ x y, x ∈ l → y ∈ l' → le x y) → ascending (l ++ l').
Proof.
  intros Hl Hl' Hle. induction Hl as [|x l Hl IH Hx]; [done|]. simpl. constructor.
  - apply IH. intros a b Ha. apply Hle. by right.
  - apply Forall_app. split; [done|]. apply Forall_forall. intros y Hy. apply Hle; [left|done].
Qed.

Lemma ascending_last l t : ascending l → last l = Some t → ∀ x, x ∈ l → le x t.
Proof.
  intros Hl. induction Hl as [|x l Hl IH Hx]; [done|]. destruct l as [|y l].
  - intros [= ->] z [->|[]%not_elem_of_nil]%elem_of_cons. apply le_refl.
  - intros Ht z [->|Hz]%elem_of_cons; [|by apply IH]. rewrite Forall_forall in Hx. apply Hx.
    change (last (y :: l) = Some t) in Ht. apply last_Some in Ht as [l' ->]. apply elem_of_app. right. left.
Qed.

Lemma ascending_head l h : ascending l → head l = Some h → ∀ x, x ∈ l → le h x.
Proof.
  intros Hl. destruct Hl as [|x l Hl Hx]; [done|]. intros [= ->] z [->|Hz]%elem_of_cons; [apply le_refl|].
  rewrite Forall_forall in Hx. by apply Hx.
Qed.

Lemma ascending_all x l : ascending (x :: l) → Forall (le x) l.
Proof. by inversion 1. Qed.

(** ** Merging *)

Lemma merge_cons x first y second :
  tommy_chain_merge cmp (x :: first) (y :: second) =
  if 0 <? cmp x y then
    match second with
    | [] => Some (y :: x :: first)
    | _ => l ← tommy_chain_merge cmp (x :: first) second; Some (y :: l)
    end
  else
    match first with
    | [] => Some (x :: y :: second)
    | _ => l ← tommy_chain_merge cmp first (y :: second); Some (x :: l)
    end.
Proof. done. Qed.

Lemma merge_spec first second :
  first ≠ [] → second ≠ [] → ascending first → ascending second →
  ∃ l, tommy_chain_merge cmp first second = Some l ∧ ascending l ∧ rearranges l (first ++ second).
Proof.
  revert second. induction first as [|x first IH1]; [done|]. intros second _. induction second as [|y second IH2]; [done|].
  intros _ Hs1 Hs2. rewrite merge_cons. destruct (Z.ltb_spec 0 (cmp x y)) as [Hgt|Hle].
  - assert (Forall (λ z, 0 < cmp z y) (x :: first)) as Hall.
    { constructor; [done|]. eapply Forall_impl; [apply ascending_all, Hs1|]. intros z Hz. unfold le in Hz. cbv beta.
      pose proof (cmp_flip x y). pose proof (cmp_flip z y). pose proof (cmp_flip y x). pose proof (cmp_flip y z).
      pose proof (cmp_trans x z y). lia. }
    assert (Forall (le y) (x :: first)) as Hley.
    { eapply Forall_impl; [exact Hall|]. intros z Hz. unfold le. cbv beta in Hz. pose proof (cmp_flip z y). lia. }
    destruct second as [|y2 second].
    + eexists. split; [done|]. split; [by constructor|]. symmetry.
      apply (rearranges_swap (x :: first) [y]). rewrite Forall_forall in Hall. intros a b Ha ->%list_elem_of_singleton. by apply Hall.
    + destruct IH2 as (l & -> & Hl & Hr); [done|done|by inversion Hs2|]. eexists. split; [done|]. split.
      * constructor; [done|]. destruct Hr as [-> _]. apply Forall_app. split; [done|by apply ascending_all].
      * rewrite Hr. change (y :: (x :: first) ++ y2 :: second) with ((y :: (x :: first)) ++ y2 :: second).
        rewrite <- (rearranges_swap (x :: first) [y]); [by rewrite <- app_assoc|].
        rewrite Forall_forall in Hall. intros a b Ha ->%list_elem_of_singleton. by apply Hall.
  - destruct first as [|x2 first].
    + eexists. split; [done|]. split; [|done]. constructor; [done|]. constructor; [done|].
      eapply Forall_impl; [by apply ascending_all|]. intros z. by apply cmp_trans.
    + destruct (IH1 (y :: second)) as (l & -> & Hl & Hr); [done|done|by inversion Hs1|done|].
      eexists. split; [done|]. split; [|by rewrite Hr]. constructor; [done|]. destruct Hr as [-> _]. apply Forall_app.
      split; [by apply ascending_all|]. constructor; [done|]. eapply Forall_impl; [by apply ascending_all|].
      intros z. by apply cmp_trans.
Qed.

Lemma merge_degenerated_spec first second :
  first ≠ [] → second ≠ [] → ascending first → ascending second →
  ∃ l, tommy_chain_merge_degenerated cmp first second = Some l ∧ ascending l ∧ rearranges l (first ++ second).
Proof.
  intros H1 H2 Hs1 Hs2. unfold tommy_chain_merge_degenerated.
  destruct (last first) as [t1|] eqn:Ht1; [|by apply last_None in Ht1]. destruct (last second) as [t2|] eqn:Ht2; [|by apply last_None in Ht2].
  destruct (head second) as [h2|] eqn:Hh2; [|by destruct second]. destruct (head first) as [h1|] eqn:Hh1; [|by destruct first].
  simpl. pose proof (ascending_last _ _ Hs1 Ht1) as L1. pose proof (ascending_last _ _ Hs2 Ht2) as L2.
  pose proof (ascending_head _ _ Hs1 Hh1) as F1. pose proof (ascending_head _ _ Hs2 Hh2) as F2. unfold le in *.
  destruct (Z.leb_spec (cmp t1 h2) 0) as [Hle|Hgt].
  { eexists. split; [done|]. split; [|done]. apply ascending_app; try done. intros x y Hx Hy. unfold le.
    apply (cmp_trans _ t1); [auto|]. apply (cmp_trans _ h2); [done|auto]. }
  destruct (Z.ltb_spec (cmp t2 h1) 0) as [Hlt|Hge]; [|by apply merge_spec].
  assert (∀ x y, x ∈ first → y ∈ second → 0 < cmp x y) as Hall.
  { intros x y Hx Hy. specialize (F1 x Hx). specialize (L2 y Hy). pose proof (cmp_flip x y). pose proof (cmp_flip y x).
    pose proof (cmp_flip h1 t2). pose proof (cmp_trans h1 x t2). pose proof (cmp_trans x y t2). lia. }
  eexists. split; [done|]. split; [|symmetry; by apply rearranges_swap].
  apply ascending_app; try done. intros x y Hx Hy. unfold le. specialize (Hall y x Hy Hx). pose proof (cmp_flip y x). lia.
Qed.

(** ** Buckets *)

(** The buckets that are in use, from the lowest bit on. *)
Implicit Types (bs : list (option (list A))) (c : list A).

Fixpoint bval bs : Z :=
  match bs with [] => 0 | o :: bs => (match o with Some _ => 1 | None => 0 end) + 2 * bval bs end.
(** What they hold; lower buckets hold later nodes. *)
Fixpoint gather bs : list A :=
  match bs with [] => [] | o :: bs => gather bs ++ default [] o end.

Definition full c : Prop := c ≠ [] ∧ ascending c.
Definition in_use bs : Prop := ∀ j c, bs !! j = Some (Some c) → full c.
Definition held (bit : list (option (list A))) (i : nat) bs : Prop :=
  ∀ j c, bs !! j = Some (Some c) → bit !! (i + j)%nat = Some (Some c).

Lemma bval_nonneg bs : 0 <= bval bs.
Proof. induction bs as [|[]]; simpl; lia. Qed.
Lemma bval_zero bs : bval bs = 0 → gather bs = [].
Proof.
  induction bs as [|o bs IH]; [done|]. simpl. pose proof (bval_nonneg bs). destruct o; [lia|]. intros Hv. by rewrite IH by lia.
Qed.
Lemma odd_bval (b v : Z) : Z.odd (b + 2 * v) = Z.odd b.
Proof. by rewrite Z.odd_add_mul_2. Qed.
Lemma shift_bval (b v : Z) : b = 0 ∨ b = 1 → Z.shiftr (b + 2 * v) 1 = v.
Proof. intros Hb. rewrite Z.shiftr_div_pow2 by done. change (2 ^ 1) with 2. rewrite Z.mul_comm, Z.div_add by done. destruct Hb as [-> | ->]; done. Qed.

Lemma in_use_tail o bs : in_use (o :: bs) → in_use bs.
Proof. intros Hu j c Hj. by apply (Hu (S j)). Qed.
Lemma in_use_cons o bs : (∀ c, o = Some c → full c) → in_use bs → in_use (o :: bs).
Proof. intros Ho Hu [|j] c Hj; [simplify_eq/=; by apply Ho|by apply (Hu j)]. Qed.
Lemma held_tail bit i o bs : held bit i (o :: bs) → held bit (S i) bs.
Proof. intros Hh j c Hj. replace (S i + j)%nat with (i + S j)%nat by lia. by apply Hh. Qed.
Lemma held_cons bit i o bs : (∀ c, o = Some c → bit !! i = Some (Some c)) → held bit (S i) bs → held bit i (o :: bs).
Proof.
  intros Ho Hh [|j] c Hj; [simplify_eq/=; rewrite Nat.add_0_r; by apply Ho|].
  replace (i + S j)%nat with (S i + j)%nat by lia. by apply Hh.
Qed.
Lemma held_same bit bit' i bs : (∀ k, (i <= k)%nat → bit' !! k = bit !! k) → held bit i bs → held bit' i bs.
Proof. intros Hs Hh j c Hj. rewrite Hs by lia. by apply Hh. Qed.

Lemma set_bucket_spec bit i c :
  (i < length bit)%nat → set_bucket bit i c = Some (<[i := Some c]> bit).
Proof. intros Hi. unfold set_bucket. by rewrite (proj2 (Nat.ltb_lt _ _) Hi). Qed.

Lemma add_carry_spec fuel bit last i bs :
  full last → in_use bs → held bit i bs → bval bs + 1 < 2 ^ Z.of_nat (length bs) →
  (i + length bs <= length bit)%nat → (length bs <= fuel)%nat →
  ∃ bit' bs', add_carry cmp fuel bit last i (bval bs) = Some bit' ∧ length bit' = length bit ∧
    (∀ k, (k < i)%nat → bit' !! k = bit !! k) ∧ held bit' i bs' ∧ in_use bs' ∧ length bs' = length bs ∧
    bval bs' = bval bs + 1 ∧ rearranges (gather bs') (gather bs ++ last).
Proof.
  revert fuel bit last i. induction bs as [|o bs IH]; intros fuel bit last i Hf Hu Hh Hv Hi Hfuel; [simpl in Hv; lia|].
  cbn [length] in *. destruct o as [b|].
  - destruct fuel as [|fuel]; [lia|]. cbn [add_carry bval]. rewrite odd_bval, (shift_bval 1) by by right. simpl Z.odd. cbv iota.
    unfold get_bucket. rewrite <- (Nat.add_0_r i), (Hh 0%nat b) by done. rewrite Nat.add_0_r. simpl.
    destruct (Hu 0%nat b eq_refl) as [Hb1 Hb2], Hf as [Hl1 Hl2].
    destruct (merge_degenerated_spec b last) as (m & -> & Hm & Hr); [done..|]. simpl.
    assert (full m) as Hfm.
    { split; [|done]. intros ->. destruct Hr as [Hp _]. symmetry in Hp. by apply Permutation_nil_r, app_eq_nil in Hp as [? _]. }
    rewrite set_bucket_spec by lia. simpl.
    destruct (IH fuel (<[i := Some m]> bit) m (S i)) as (bit' & bs' & -> & Hlen & Hk & Hh' & Hu' & Hlb & Hvb & Hg).
    + done.
    + by eapply in_use_tail.
    + eapply held_same; [|by eapply held_tail]. intros k Hk. apply list_lookup_insert_ne. lia.
    + cbn [bval] in Hv. rewrite Nat2Z.inj_succ, Z.pow_succ_r in Hv by lia. lia.
    + rewrite length_insert. lia.
    + lia.
    + exists bit', (None :: bs'). rewrite length_insert in Hlen. split; [done|]. split; [done|].
      split; [intros k Hk'; rewrite Hk by lia; apply list_lookup_insert_ne; lia|].
      split; [by apply held_cons|]. split; [by apply in_use_cons|]. split; [simpl; lia|]. split; [cbn [bval]; lia|].
      simpl. rewrite app_nil_r, Hg, Hr. by rewrite app_assoc.
  - assert (add_carry cmp fuel bit last i (bval (None :: bs)) = set_bucket bit i last) as ->.
    { destruct fuel; cbn [add_carry bval]; by rewrite odd_bval. }
    rewrite set_bucket_spec by lia. eexists _, (Some last :: bs). split; [done|]. split; [apply length_insert|].
    split; [intros k Hk; apply list_lookup_insert_ne; lia|]. split.
    { apply held_cons; [intros ? [= <-]; apply list_lookup_insert_eq; lia|].
      eapply held_same; [|by eapply held_tail]. intros k Hk. apply list_lookup_insert_ne. lia. }
    split; [apply in_use_cons; [by intros ? [= <-]|by eapply in_use_tail]|]. split; [done|]. split; [cbn [bval]; lia|].
    simpl. by rewrite app_nil_r.
Qed.

Lemma add_nodes_spec nodes bit bs pre :
  in_use bs → held bit 0 bs → length bs = 32%nat → (32 <= length bit)%nat → bval bs = Z.of_nat (length pre) →
  rearranges (gather bs) pre → Z.of_nat (length pre + length nodes) < 2 ^ 32 →
  ∃ bit' bs', add_nodes cmp bit (bval bs) nodes = Some (bit', bval bs') ∧ in_use bs' ∧ held bit' 0 bs' ∧
    length bs' = 32%nat ∧ length bit' = length bit ∧ bval bs' = Z.of_nat (length pre + length nodes) ∧
    rearranges (gather bs') (pre ++ nodes).
Proof.
  revert bit bs pre. induction nodes as [|n nodes IH]; intros bit bs pre Hu Hh Hl Hbit Hv Hg Hlen.
  { exists bit, bs. simpl. rewrite app_nil_r, Nat.add_0_r. by split_and!. }
  cbn [add_nodes length] in *. change TOMMY_CHAIN_BIT_MAX with 32%nat.
  destruct (add_carry_spec 32 bit [n] 0 bs) as (bit' & bs' & -> & Hlb & _ & Hh' & Hu' & Hl' & Hv' & Hg'); try done.
  - split; [done|]. constructor; constructor.
  - rewrite Hl, Hv. lia.
  - lia.
  - lia.
  - simpl. assert (u32 (bval bs + 1) = bval bs') as -> by (unfold u32; rewrite Hv', Z.mod_small; lia).
    destruct (IH bit' bs' (pre ++ [n])) as (bit2 & bs2 & -> & Hu2 & Hh2 & Hl2 & Hlb2 & Hv2 & Hg2); try done.
    + lia.
    + lia.
    + rewrite Hv', Hv, length_app. simpl. lia.
    + by rewrite Hg', Hg.
    + rewrite length_app. simpl. lia.
    + exists bit2, bs2. split; [done|]. split; [done|]. split; [done|]. split; [done|]. split; [lia|].
      split; [rewrite Hv2, length_app; simpl; lia|]. rewrite Hg2, <- app_assoc. done.
Qed.

Lemma ctz_spec fuel bs :
  1 <= bval bs → (length bs <= fuel)%nat →
  ∃ i c rest, bs = replicate i None ++ Some c :: rest ∧ ctz fuel (bval bs) = Some i ∧
    Z.shiftr (bval bs) (Z.of_nat i) = 1 + 2 * bval rest.
Proof.
  revert fuel. induction bs as [|o bs IH]; intros fuel Hv Hf; [simpl in Hv; lia|].
  simpl in Hf. destruct fuel as [|fuel]; [lia|]. destruct o as [c|].
  - exists 0%nat, c, bs. split; [done|]. cbn [ctz bval]. by rewrite odd_bval.
  - cbn [bval] in Hv. destruct (IH fuel) as (i & c & rest & -> & Hc & Hs); [lia|lia|].
    exists (S i), c, rest. split; [done|]. cbn [ctz]. cbn [bval]. rewrite odd_bval, (shift_bval 0) by by left.
    simpl Z.odd. cbv iota. rewrite Hc. split; [done|]. rewrite Nat2Z.inj_succ.
    replace (Z.succ (Z.of_nat i)) with (1 + Z.of_nat i) by lia. rewrite <- Z.shiftr_shiftr by lia.
    by rewrite (shift_bval 0) by by left.
Qed.

Lemma merge_buckets_spec fuel bit i c b rest :
  full c → bit !! i = Some (Some c) → in_use rest → held bit (S i) rest → b = 0 ∨ b = 1 → 1 <= b + 2 * bval rest →
  (length rest <= fuel)%nat → (i + length rest < length bit)%nat →
  ∃ l, merge_buckets cmp fuel bit i (b + 2 * bval rest) = Some l ∧ ascending l ∧ rearranges l (gather rest ++ c).
Proof.
  revert fuel bit i c b. induction rest as [|o rest IH]; intros fuel bit i c b Hc Hi Hu Hh Hb Hm Hf Hl.
  { simpl in Hm |- *. assert (b = 1) as -> by lia. exists c. destruct fuel; cbn [merge_buckets]; simpl;
      unfold get_bucket; rewrite Hi; by destruct Hc. }
  simpl in Hf, Hl. destruct fuel as [|fuel]; [lia|]. cbn [merge_buckets].
  destruct (Z.eqb_spec (b + 2 * bval (o :: rest)) 1) as [H1|H1].
  { exists c. unfold get_bucket. rewrite Hi. split; [done|]. split; [apply Hc|].
    rewrite bval_zero; [done|]. pose proof (bval_nonneg (o :: rest)). lia. }
  rewrite shift_bval by done. cbv zeta. assert (get_bucket bit i = Some c) as -> by (unfold get_bucket; by rewrite Hi). cbn [mbind option_bind].
  assert (∃ m, (if Z.odd (bval (o :: rest))
      then b ← get_bucket bit (S i); m ← tommy_chain_merge_degenerated cmp b c; set_bucket bit (S i) m
      else set_bucket bit (S i) c) = Some (<[S i := Some m]> bit) ∧ full m ∧ rearranges m (default [] o ++ c)) as (m & -> & Hfm & Hr).
  { cbn [bval]. rewrite odd_bval. destruct o as [b'|].
    - unfold get_bucket. rewrite <- (Nat.add_0_r (S i)), (Hh 0%nat b') by done. rewrite Nat.add_0_r. simpl.
      destruct (Hu 0%nat b' eq_refl) as [Hb1 Hb2], Hc as [Hc1 Hc2].
      destruct (merge_degenerated_spec b' c) as (m & -> & Hm' & Hr); [done..|]. simpl. rewrite set_bucket_spec by lia.
      exists m. split; [done|]. split; [|done]. split; [|done]. intros ->. destruct Hr as [Hp _]. symmetry in Hp.
      by apply Permutation_nil_r, app_eq_nil in Hp as [? _].
    - simpl. rewrite set_bucket_spec by lia. by exists c. }
  cbn [mbind option_bind bval].
  destruct (IH fuel (<[S i := Some m]> bit) (S i) m (match o with Some _ => 1 | None => 0 end)) as (l & -> & Hl' & Hr').
  - done.
  - apply list_lookup_insert_eq. lia.
  - by eapply in_use_tail.
  - eapply held_same; [|by eapply held_tail]. intros k Hk. apply list_lookup_insert_ne. lia.
  - destruct o; [by right|by left].
  - change (1 <= bval (o :: rest)). pose proof (bval_nonneg (o :: rest)). lia.
  - lia.
  - rewrite length_insert. lia.
  - exists l. split; [done|]. split; [done|]. rewrite Hr', Hr. simpl. by rewrite app_assoc.
Qed.

Lemma list_sort_spec l :
  Z.of_nat (length l) < 2 ^ 32 →
  ∃ l', tommy_list_sort cmp l = Some l' ∧ ascending l' ∧ rearranges l' l.
Proof.
  intros Hlen. destruct l as [|n l]; [exists []; split; [done|split; [constructor|done]]|]. set (nodes := n :: l) in *.
  change (tommy_list_sort cmp nodes) with (tommy_chain_mergesort cmp nodes). unfold tommy_chain_mergesort.
  set (bs0 := replicate 32 (None : option (list A))).
  destruct (add_nodes_spec nodes (replicate 33 None) bs0 []) as (bit & bs & Hadd & Hu & Hh & Hl & Hlb & Hv & Hg); try done.
  - intros j c. by intros [? _]%lookup_replicate.
  - intros j c. by intros [? _]%lookup_replicate.
  - simpl. lia.
  - change (bval bs0) with 0 in Hadd. change (TOMMY_CHAIN_BIT_MAX + 1)%nat with 33%nat. rewrite Hadd.
    cbn [mbind option_bind]. destruct (ctz_spec 32 bs) as (i & c & rest & Hbs & Hctz & Hsh); [rewrite Hv; unfold nodes; simpl; lia|lia|].
    unfold tommy_ctz_u32. rewrite Hctz. cbn [mbind option_bind]. rewrite Hsh.
    assert (length bs = i + S (length rest))%nat as Hli by (rewrite Hbs, length_app, length_replicate; done).
    assert (bs !! i = Some (Some c) ∧ ∀ j, bs !! (S i + j)%nat = rest !! j) as [Hi Hj].
    { rewrite Hbs. split; [rewrite lookup_app_r, length_replicate, Nat.sub_diag; [done|by rewrite length_replicate]|].
      intros j. rewrite lookup_app_r, length_replicate by (rewrite length_replicate; lia).
      by replace (S i + j - i)%nat with (S j) by lia. }
    destruct (merge_buckets_spec 32 bit i c 1 rest) as (l' & Hm & Hasc & Hr).
    + by apply (Hu i).
    + by apply (Hh i).
    + intros j c' Hj'. apply (Hu (S i + j)%nat). by rewrite Hj.
    + intros j c' Hj'. apply (Hh (S i + j)%nat). by rewrite Hj.
    + by right.
    + pose proof (bval_nonneg rest). lia.
    + lia.
    + rewrite Hlb. simpl. lia.
    + exists l'. split; [done|]. split; [done|]. rewrite Hr. rewrite Hbs in Hg. clear -Hg. revert Hg.
      assert (∀ i, gather (replicate i None ++ Some c :: rest) = gather rest ++ c) as ->; [|done].
      intros k. induction k as [|k IH]; [done|]. simpl. by rewrite app_nil_r.
Qed.

End Proofs.

(** ** The theorem *)

Section Sorting.
Context {A : Type} (cmp : A → A → Z) `{!Compares cmp}.

(** C31: Sorting a list of fewer than 2^32 nodes returns, for every comparison that is
    antisymmetric and transitive, the nodes in ascending order; no node is lost or
    doubled, and nodes that compare equal keep their order. *)
Theorem tommy_list_sort_correct l :
  Z.of_nat (length l) < 2 ^ 32 →
  ∃ l', tommy_list_sort cmp l = Some l' ∧ StronglySorted (λ x y, cmp x y <= 0) l' ∧ l' ≡ₚ l ∧
    ∀ x, filter (λ y, cmp x y = 0) l' = filter (λ y, cmp x y = 0) l.
Proof. intros Hl. destruct (list_sort_spec cmp l Hl) as (l' & ? & ? & ? & ?). by exists l'. Qed.

End Sorting.

(** Pairs, compared by their first component. *)
Definition cmp_fst (x y : Z * Z) : Z := x.1 - y.1.

#[global] Instance cmp_fst_compares : Compares cmp_fst.
Proof. split; unfold cmp_fst; intros; lia. Qed.

Lemma tommy_list_sort_correct_witness :
  tommy_list_sort cmp_fst [(3, 0); (1, 1); (3, 2); (2, 3); (1, 4)] = Some [(1, 1); (1, 4); (2, 3); (3, 0); (3, 2)] ∧
  ∃ l', tommy_list_sort cmp_fst [(3, 0); (1, 1); (3, 2); (2, 3); (1, 4)] = Some l' ∧
    l' ≡ₚ [(3, 0); (1, 1); (3, 2); (2, 3); (1, 4)].
Proof.
  split; [vm_compute; reflexivity|].
  destruct (tommy_list_sort_correct cmp_fst [(3, 0); (1, 1); (3, 2); (2, 3); (1, 4)]) as (l' & Hl & _ & Hp & _); [done|].
  by exists l'.
Defined.
