(* ===== verification/RtrMgr.v ===== *)
(** * The manager of groups of caches: [rtrlib/rtr_mgr.c]

    The manager owns groups of sockets, ordered by preference, and reacts to the changes
    of state of the sockets.  Groups and sockets are objects that are shared through
    pointers; [group_at] and [socket_at] are the memory they are in, and a group that was
    freed is not there any more.  The callbacks of the sockets' threads run one after the
    other.  The pointers to the tables, which the sockets copy when they are initialised,
    are read from the configuration. *)

From stdpp Require Import strings.
From S2P Require Import Prelude Ip PfxTable Spki Hashlin AspaArray Aspa AspaUpdate AspaVerification.
From S2P Require Import Pdu Transport Socket Packets Update Sync Rtr TommyList.
Open Scope Z_scope.

Inductive rtr_mgr_status := RTR_MGR_CLOSED | RTR_MGR_CONNECTING | RTR_MGR_ESTABLISHED | RTR_MGR_ERROR.

#[global] Instance rtr_mgr_status_eq_dec : EqDecision rtr_mgr_status.
Proof. solve_decision. Defined.

Abbreviation group_ptr := nat (only parsing).

Record rtr_mgr_group := MgrGroup { sockets : list socket_ptr; preference : Z; status : rtr_mgr_status }.

Definition rtr_mgr_config_cmp (a b : rtr_mgr_group) : Z :=
  if preference b <? preference a then 1 else if preference a <? preference b then -1 else 0.

Definition group_le (a b : rtr_mgr_group) : Prop := rtr_mgr_config_cmp a b <= 0.
#[global] Instance group_le_dec a b : Decision (group_le a b).
Proof. unfold group_le. apply _. Defined.

(** [qsort] by preference; the result is only used when no two are equal. *)
Definition sort_groups (gs : list rtr_mgr_group) : list rtr_mgr_group := merge_sort group_le gs.

(** The configuration, with the memory of the groups and the sockets.  Members that
    [rtr_mgr_init] does not write to are indeterminate until they are set. *)
Record rtr_mgr_config (HT : Type) := MgrConfig {
  groups : field (list group_ptr);
  len : Z;
  mutex : rwlock;
  status_fp : option fn_ptr;
  cfg_pfx_table : field rtr_pfx_table;
  cfg_spki_table : field (rtr_spki_table HT);
  cfg_aspa_table : field rtr_aspa_table;
  group_at : gmap group_ptr rtr_mgr_group;
  next_group : group_ptr;
  socket_at : gmap socket_ptr rtr_socket;
  group_of : gmap socket_ptr group_ptr }.
Arguments MgrConfig {HT} _ _ _ _ _ _ _ _ _ _ _.
Arguments groups {HT} _.
Arguments len {HT} _.
Arguments mutex {HT} _.
Arguments status_fp {HT} _.
Arguments cfg_pfx_table {HT} _.
Arguments cfg_spki_table {HT} _.
Arguments cfg_aspa_table {HT} _.
Arguments group_at {HT} _.
Arguments next_group {HT} _.
Arguments socket_at {HT} _.
Arguments group_of {HT} _.

(** A call of the client's callback, and the release of a transport. *)
Inductive mgr_event :=
| StatusChanged (fp : fn_ptr) (g : group_ptr) (st : rtr_mgr_status) (sock : option socket_ptr)
| TransportFreed (sock : socket_ptr)
| GroupVisited (fp : fn_ptr) (g : group_ptr).

(** ** Assignments *)

Section Setters.
Context {HT : Type}.
Implicit Types c : rtr_mgr_config HT.

Definition set_groups c (gs : field (list group_ptr)) (n : Z) : rtr_mgr_config HT :=
  MgrConfig gs n (mutex c) (status_fp c) (cfg_pfx_table c) (cfg_spki_table c) (cfg_aspa_table c) (group_at c)
    (next_group c) (socket_at c) (group_of c).
Definition set_mutex c (l : rwlock) : rtr_mgr_config HT :=
  MgrConfig (groups c) (len c) l (status_fp c) (cfg_pfx_table c) (cfg_spki_table c) (cfg_aspa_table c) (group_at c)
    (next_group c) (socket_at c) (group_of c).
Definition set_tables c pt st at_ : rtr_mgr_config HT :=
  MgrConfig (groups c) (len c) (mutex c) (status_fp c) pt st at_ (group_at c) (next_group c) (socket_at c) (group_of c).
Definition set_group_at c (m : gmap group_ptr rtr_mgr_group) (next : group_ptr) : rtr_mgr_config HT :=
  MgrConfig (groups c) (len c) (mutex c) (status_fp c) (cfg_pfx_table c) (cfg_spki_table c) (cfg_aspa_table c) m
    next (socket_at c) (group_of c).
Definition set_socket_at c (m : gmap socket_ptr rtr_socket) (o : gmap socket_ptr group_ptr) : rtr_mgr_config HT :=
  MgrConfig (groups c) (len c) (mutex c) (status_fp c) (cfg_pfx_table c) (cfg_spki_table c) (cfg_aspa_table c)
    (group_at c) (next_group c) m o.

Definition put_group c (g : group_ptr) (gr : rtr_mgr_group) : rtr_mgr_config HT :=
  set_group_at c (<[g := gr]> (group_at c)) (next_group c).
Definition put_socket c (p : socket_ptr) (s : rtr_socket) : rtr_mgr_config HT :=
  set_socket_at c (<[p := s]> (socket_at c)) (group_of c).
Definition with_status (gr : rtr_mgr_group) (st : rtr_mgr_status) : rtr_mgr_group :=
  MgrGroup (sockets gr) (preference gr) st.

(** The tables, as the sockets see them. *)
Definition mgr_tables c : option (tables HT) :=
  pt ← read_field (cfg_pfx_table c); st ← read_field (cfg_spki_table c); at_ ← read_field (cfg_aspa_table c);
  Some (Tables pt st at_).
Definition of_pointer {A} (p : option A) : field A := match p with Some x => Ptr x | None => Null end.
Definition put_tables c (t : tables HT) : rtr_mgr_config HT :=
  set_tables c (of_pointer (pfx_table t)) (of_pointer (spki_table t)) (of_pointer (aspa_table t)).

(** The linked list of groups, which must have been set up. *)
Definition group_list c : option (list group_ptr) := mjoin (read_field (groups c)).

End Setters.

Section RtrMgr.
Context `{Build} `{Host} {E HT : Type} `{!HashTable E HT key_entry}.
Context `{!Event pfx_event E} `{!Event spki_event E} `{!Event aspa_event E}.
Context `{!Event tr_event E} `{!Event rtr_event E} `{!Event mgr_event E}.
Implicit Types (c : rtr_mgr_config HT) (g : group_ptr) (p : socket_ptr).

(** The results of [pthread_once] and [pthread_create] for a socket, and the address of
    [rtr_mgr_cb]. *)
Context (once_ok : bool) (new_thread : socket_ptr → option Z) (rtr_mgr_cb_fp : fn_ptr).

Definition rdlock_config c : M E (rtr_mgr_config HT) :=
  l ← of_option (rdlock (mutex c)); mret (set_mutex c l).
Definition wrlock_config c : M E (rtr_mgr_config HT) :=
  l ← of_option (wrlock (mutex c)); mret (set_mutex c l).
Definition unlock_config c : M E (rtr_mgr_config HT) :=
  l ← of_option (unlock (mutex c)); mret (set_mutex c l).

Definition set_status c g (mgr_status : rtr_mgr_status) (rtr_sock : option socket_ptr)
  : M E (rtr_mgr_config HT) :=
  gr ← of_option (group_at c !! g);
  let c := put_group c g (with_status gr mgr_status) in
  match status_fp c with
  | Some fp => emit (event (StatusChanged fp g mgr_status rtr_sock));; mret c
  | None => mret c
  end.

(** ** Starting and stopping sockets *)

(** The loop of [rtr_mgr_start_sockets]: did every socket start? *)
Fixpoint start_sockets c (socks : list socket_ptr) : M E (bool * rtr_mgr_config HT) :=
  match socks with
  | [] => mret (true, c)
  | p :: socks =>
      s ← of_option (socket_at c !! p);
      '(rtval, s) ← rtr_start s once_ok (new_thread p);
      let c := put_socket c p s in
      if negb (rtval =? 0) then mret (false, c) else start_sockets c socks
  end.

Definition rtr_mgr_start_sockets c g : M E (Z * rtr_mgr_config HT) :=
  gr ← of_option (group_at c !! g);
  '(ok, c) ← start_sockets c (sockets gr);
  if (ok : bool) then
    gr ← of_option (group_at c !! g);
    mret (RTR_SUCCESS, put_group c g (with_status gr RTR_MGR_CONNECTING))
  else mret (RTR_ERROR, c).

Fixpoint init_sockets c g (socks : list socket_ptr) (refresh expire retry : Z) (iv_mode : rtr_interval_mode)
  : M E (Z * rtr_mgr_config HT) :=
  match socks with
  | [] => mret (RTR_SUCCESS, c)
  | p :: socks =>
      s ← of_option (socket_at c !! p);
      of_option (mgr_tables c);;
      let '(err_code, s) := rtr_init s refresh expire retry iv_mode (Some rtr_mgr_cb_fp) in
      if negb (err_code =? RTR_SUCCESS) then mret (err_code, c)
      else init_sockets (set_socket_at c (<[p := s]> (socket_at c)) (<[p := g]> (group_of c)))
             g socks refresh expire retry iv_mode
  end.

Definition rtr_mgr_init_sockets c g (refresh expire retry : Z) (iv_mode : rtr_interval_mode)
  : M E (Z * rtr_mgr_config HT) :=
  gr ← of_option (group_at c !! g);
  init_sockets c g (sockets gr) refresh expire retry iv_mode.

(** Do all sockets of the group satisfy [f]? *)
Fixpoint all_sockets c (f : rtr_socket → bool) (socks : list socket_ptr) : option bool :=
  match socks with
  | [] => Some true
  | p :: socks => s ← socket_at c !! p; if f s then all_sockets c f socks else Some false
  end.

Definition rtr_mgr_config_status_is_synced c g : option bool :=
  gr ← group_at c !! g;
  all_sockets c (λ s, negb (last_update s =? 0) &&
    bool_decide (state s ∈ [RTR_ESTABLISHED; RTR_RESET; RTR_SYNC])) (sockets gr).

Definition rtr_mgr_cb_state_shutdown c g p : M E (rtr_mgr_config HT) :=
  gr ← of_option (group_at c !! g);
  all_down ← of_option (all_sockets c (λ s, bool_decide (state s = RTR_SHUTDOWN)) (sockets gr));
  if (all_down : bool) then set_status c g RTR_MGR_CLOSED (Some p)
  else set_status c g (status gr) (Some p).

(** [rtr_stop] on a socket of the manager: the callback of the change of state is
    [rtr_mgr_cb]. *)
Definition stop_socket c p : M E (rtr_mgr_config HT) :=
  s ← of_option (socket_at c !! p);
  t ← of_option (mgr_tables c);
  let called := bool_decide (state s ≠ RTR_SHUTDOWN) && bool_decide (is_Some (connection_state_fp s)) in
  s ← rtr_change_socket_state s RTR_SHUTDOWN;
  let c := put_socket c p s in
  c ← match group_of c !! p with
      | Some g => if called then rtr_mgr_cb_state_shutdown c g p else mret c
      | None => mret c
      end;
  m ← finish_stop (Machine s t);
  mret (put_tables (put_socket c p (m_socket m)) (m_tables m)).

Fixpoint stop_sockets c (socks : list socket_ptr) : M E (rtr_mgr_config HT) :=
  match socks with
  | [] => mret c
  | p :: socks => c ← stop_socket c p; stop_sockets c socks
  end.

(** ** Reactions to changes of state *)

Fixpoint close_groups c (gs : list group_ptr) g (bound : Z) p : M E (rtr_mgr_config HT) :=
  match gs with
  | [] => mret c
  | current :: gs =>
      gr ← of_option (group_at c !! current);
      c ← (if bool_decide (status gr ≠ RTR_MGR_CLOSED) && bool_decide (current ≠ g) && (bound <? preference gr)
           then c ← stop_sockets c (sockets gr); set_status c current RTR_MGR_CLOSED (Some p)
           else mret c);
      close_groups c gs g bound p
  end.

Definition rtr_mgr_close_less_preferable_groups c g p : M E (rtr_mgr_config HT) :=
  c ← rdlock_config c;
  gs ← of_option (group_list c);
  gr ← of_option (group_at c !! g);
  c ← close_groups c gs g (preference gr) p;
  unlock_config c.

(** The first group of a list that satisfies [f]. *)
Fixpoint find_group c (f : group_ptr → rtr_mgr_group → bool) (gs : list group_ptr) : option (option group_ptr) :=
  match gs with
  | [] => Some None
  | g :: gs => gr ← group_at c !! g; if f g gr then Some (Some g) else find_group c f gs
  end.

Definition get_best_inactive_rtr_mgr_group c g : M E (option group_ptr * rtr_mgr_config HT) :=
  c ← rdlock_config c;
  gs ← of_option (group_list c);
  found ← of_option (find_group c (λ g' gr, bool_decide (g' ≠ g) && bool_decide (status gr = RTR_MGR_CLOSED)) gs);
  c ← unlock_config c;
  mret (found, c).

Definition is_some_rtr_mgr_group_established c : M E (bool * rtr_mgr_config HT) :=
  c ← rdlock_config c;
  gs ← of_option (group_list c);
  found ← of_option (find_group c (λ _ gr, bool_decide (status gr = RTR_MGR_ESTABLISHED)) gs);
  c ← unlock_config c;
  mret (bool_decide (is_Some found), c).

(** Are all groups that are preferred to [g] in an error or closed? *)
Definition all_error c g : M E (bool * rtr_mgr_config HT) :=
  c ← rdlock_config c;
  gs ← of_option (group_list c);
  own ← of_option (group_at c !! g);
  found ← of_option (find_group c (λ g' gr, bool_decide (g' ≠ g) && bool_decide (status gr ≠ RTR_MGR_ERROR) &&
    bool_decide (status gr ≠ RTR_MGR_CLOSED) && (preference gr <? preference own)) gs);
  c ← unlock_config c;
  mret (negb (bool_decide (is_Some found)), c).

Definition rtr_mgr_cb_state_established c g p : M E (rtr_mgr_config HT) :=
  gr ← of_option (group_at c !! g);
  match status gr with
  | RTR_MGR_CONNECTING =>
      synced ← of_option (rtr_mgr_config_status_is_synced c g);
      if (synced : bool) then
        c ← set_status c g RTR_MGR_ESTABLISHED (Some p);
        rtr_mgr_close_less_preferable_groups c g p
      else set_status c g RTR_MGR_CONNECTING (Some p)
  | RTR_MGR_ERROR =>
      '(all_error, c) ← all_error c g;
      synced ← (if (all_error : bool) then of_option (rtr_mgr_config_status_is_synced c g) else mret false);
      if (synced : bool) then
        c ← set_status c g RTR_MGR_ESTABLISHED (Some p);
        rtr_mgr_close_less_preferable_groups c g p
      else set_status c g RTR_MGR_ERROR (Some p)
  | _ => mret c
  end.

Definition rtr_mgr_cb_state_connecting c g p : M E (rtr_mgr_config HT) :=
  gr ← of_option (group_at c !! g);
  if decide (status gr = RTR_MGR_ERROR) then set_status c g RTR_MGR_ERROR (Some p)
  else set_status c g RTR_MGR_CONNECTING (Some p).

Definition rtr_mgr_cb_state_error c g p : M E (rtr_mgr_config HT) :=
  c ← set_status c g RTR_MGR_ERROR (Some p);
  '(established, c) ← is_some_rtr_mgr_group_established c;
  if (established : bool) then mret c
  else
    '(next_group, c) ← get_best_inactive_rtr_mgr_group c g;
    match next_group with
    | Some g' => '(_, c) ← rtr_mgr_start_sockets c g'; mret c
    | None => mret c
    end.

(** The callback of the sockets: [p] changed its state to [st]; without a group nothing
    happens. *)
Definition rtr_mgr_cb c p (st : rtr_socket_state) : M E (rtr_mgr_config HT) :=
  match group_of c !! p with
  | None => mret c
  | Some g =>
      match st with
      | RTR_SHUTDOWN => rtr_mgr_cb_state_shutdown c g p
      | RTR_ESTABLISHED => rtr_mgr_cb_state_established c g p
      | RTR_CONNECTING => rtr_mgr_cb_state_connecting c g p
      | RTR_ERROR_FATAL | RTR_ERROR_TRANSPORT | RTR_ERROR_NO_DATA_AVAIL => rtr_mgr_cb_state_error c g p
      | _ => gr ← of_option (group_at c !! g); set_status c g (status gr) (Some p)
      end
  end.

(** ** Setting up *)

(** Unique preferences, and at least one socket. *)
Fixpoint check_groups (last_preference : option Z) (gs : list rtr_mgr_group) : bool :=
  match gs with
  | [] => true
  | gr :: gs =>
      negb (bool_decide (last_preference = Some (preference gr))) && negb (bool_decide (sockets gr = [])) &&
      check_groups (Some (preference gr)) gs
  end.

(** The memory of the client, with its sockets; [mutex_ok] is the result of
    [pthread_rwlock_init].  On an error [config->groups], which has not been written to,
    is freed.  The array of the client is sorted. *)
Definition rtr_mgr_init (socks : gmap socket_ptr rtr_socket) (gs : list rtr_mgr_group) (status_fp : option fn_ptr)
    (mutex_ok : bool) : M E (Z * list rtr_mgr_group * option (rtr_mgr_config HT)) :=
  if bool_decide (gs = []) then mret (RTR_ERROR, gs, None)
  else
    ok ← alloc;
    if negb ok then mret (RTR_ERROR, gs, None)
    else
      let err gs := of_option (read_field (Uninit : field (list group_ptr)));; mret (RTR_ERROR, gs, None) in
      if negb mutex_ok then err gs
      else
        let gs := sort_groups gs in
        if negb (check_groups None gs) then err gs
        else
          mret (RTR_SUCCESS, gs,
            Some (MgrConfig Uninit (Z.of_nat (length gs)) Unlocked status_fp Uninit Uninit Uninit ∅ 0%nat socks ∅)).

(** The pointers to groups, sorted by what they point to. *)
Definition sort_list c (gs : list group_ptr) : option (list group_ptr) :=
  l ← mapM (λ g, gr ← group_at c !! g; Some (g, gr)) gs;
  l ← tommy_list_sort (λ a b, rtr_mgr_config_cmp a.2 b.2) l;
  Some l.*1.

Definition free_group c g : rtr_mgr_config HT := set_group_at c (delete g (group_at c)) (next_group c).

(** A copy of a group in memory of its own, closed. *)
Definition new_group c (gr : rtr_mgr_group) : group_ptr * rtr_mgr_config HT :=
  let g := next_group c in
  (g, set_group_at c (<[g := with_status gr RTR_MGR_CLOSED]> (group_at c)) (S g)).

(** [tommy_list_insert_tail]. *)
Definition insert_tail c g (n : Z) : M E (rtr_mgr_config HT) :=
  gs ← of_option (group_list c); mret (set_groups c (Ptr (gs ++ [g])) n).

Fixpoint setup_groups c (gs : list rtr_mgr_group) (refresh expire retry : Z) : M E (Z * rtr_mgr_config HT) :=
  match gs with
  | [] => mret (RTR_SUCCESS, c)
  | gr :: gs =>
      ok ← alloc;
      if negb ok then mret (RTR_ERROR, c)
      else
        let '(g, c) := new_group c gr in
        '(err, c) ← rtr_mgr_init_sockets c g refresh expire retry RTR_INTERVAL_MODE_DEFAULT_MIN_MAX;
        if negb (err =? RTR_SUCCESS) then mret (RTR_ERROR, free_group c g)
        else
          ok ← alloc;
          if negb ok then mret (RTR_ERROR, free_group c g)
          else
            c ← insert_tail c g (len c);
            setup_groups c gs refresh expire retry
  end.

Definition rtr_mgr_setup_sockets c (gs : list rtr_mgr_group) (refresh expire retry : Z)
  : M E (Z * rtr_mgr_config HT) :=
  let c := set_groups c (groups c) (Z.of_nat (length gs)) in
  ok ← alloc;
  if negb ok then mret (RTR_ERROR, set_groups c Null (len c))
  else
    '(rtval, c) ← setup_groups (set_groups c (Ptr []) (len c)) gs refresh expire retry;
    if negb (rtval =? RTR_SUCCESS) then mret (rtval, c)
    else
      l ← of_option (group_list c);
      l ← of_option (sort_list c l);
      mret (RTR_SUCCESS, set_groups c (Ptr l) (len c)).

(** Support for the three kinds of records; [None] is a null pointer. *)
Definition rtr_mgr_add_roa_support (config : option (rtr_mgr_config HT)) (fp : option fn_ptr)
  : M E (Z * option (rtr_mgr_config HT)) :=
  match config with
  | None => mret (RTR_ERROR, None)
  | Some c =>
      ok ← alloc;
      if negb ok then mret (RTR_ERROR, Some c)
      else mret (RTR_SUCCESS, Some (set_tables c (Ptr (rtr_pfx_table_init fp)) (cfg_spki_table c) (cfg_aspa_table c)))
  end.

Definition rtr_mgr_add_aspa_support (config : option (rtr_mgr_config HT)) (fp : option fn_ptr)
  : M E (Z * option (rtr_mgr_config HT)) :=
  match config with
  | None => mret (RTR_ERROR, None)
  | Some c =>
      ok ← alloc;
      if negb ok then mret (RTR_ERROR, Some c)
      else mret (RTR_SUCCESS, Some (set_tables c (cfg_pfx_table c) (cfg_spki_table c) (Ptr (rtr_aspa_table_init fp))))
  end.

(** [RTR_ASPA_ERROR] and [RTR_ASPA_SUCCESS] have the values of [RTR_ERROR] and
    [RTR_SUCCESS]. *)
Definition rtr_mgr_add_spki_support (config : option (rtr_mgr_config HT)) (fp : option fn_ptr)
  : M E (Z * option (rtr_mgr_config HT)) :=
  match config with
  | None => mret (RTR_ERROR, None)
  | Some c =>
      ok ← alloc;
      if negb ok then mret (RTR_ERROR, Some c)
      else
        st ← spki_table_init fp;
        mret (RTR_SUCCESS, Some (set_tables c (cfg_pfx_table c) (Ptr st) (cfg_aspa_table c)))
  end.

(** ** Starting and stopping *)

Definition rtr_mgr_get_first_group c : option group_ptr := gs ← group_list c; head gs.

Definition rtr_mgr_start c : M E (Z * rtr_mgr_config HT) :=
  best_group ← of_option (rtr_mgr_get_first_group c);
  rtr_mgr_start_sockets c best_group.

(** The loops of [rtr_mgr_stop]. *)
Fixpoint stop_groups c (gs : list group_ptr) : M E (rtr_mgr_config HT) :=
  match gs with
  | [] => mret c
  | g :: gs => gr ← of_option (group_at c !! g); c ← stop_sockets c (sockets gr); stop_groups c gs
  end.

Definition rtr_mgr_stop c : M E (rtr_mgr_config HT) :=
  c ← rdlock_config c;
  gs ← of_option (group_list c);
  c ← stop_groups c gs;
  unlock_config c.

(** Is there a group all sockets of which have data? *)
Fixpoint some_group_in_sync c (gs : list group_ptr) : option bool :=
  match gs with
  | [] => Some false
  | g :: gs =>
      gr ← group_at c !! g;
      all_sync ← all_sockets c (λ s, negb (last_update s =? 0)) (sockets gr);
      if (all_sync : bool) then Some true else some_group_in_sync c gs
  end.

Definition rtr_mgr_conf_in_sync c : M E (bool * rtr_mgr_config HT) :=
  c ← rdlock_config c;
  gs ← of_option (group_list c);
  found ← of_option (some_group_in_sync c gs);
  c ← unlock_config c;
  mret (found, c).

(** The configuration is freed with its tables and groups; the sockets are the client's. *)
Fixpoint free_transports (socks : list socket_ptr) : M E unit :=
  match socks with
  | [] => mret tt
  | p :: socks => emit (event (TransportFreed p));; free_transports socks
  end.

Fixpoint free_groups c (gs : list group_ptr) : M E (rtr_mgr_config HT) :=
  match gs with
  | [] => mret c
  | g :: gs =>
      gr ← of_option (group_at c !! g);
      free_transports (sockets gr);;
      free_groups (free_group c g) gs
  end.

(** The memory that is left. *)
Definition rtr_mgr_free c : M E (gmap socket_ptr rtr_socket) :=
  c ← wrlock_config c;
  pt ← of_option (read_field (cfg_pfx_table c));
  rtr_pfx_table_free pt;;
  st ← of_option (read_field (cfg_spki_table c));
  spki_table_free st;;
  at_ ← of_option (read_field (cfg_aspa_table c));
  rtr_aspa_table_free at_ true;;
  gs ← of_option (group_list c);
  c ← free_groups (set_tables c Null Null Null) gs;
  c ← unlock_config c;
  mret (socket_at c).

(** ** Adding and removing groups *)

(** The loop of [rtr_mgr_add_group]: the intervals to use, unless the preference is
    taken. *)
Fixpoint other_intervals c (gs : list group_ptr) (new_preference refresh_iv retry_iv expire_iv : Z)
  : option (option (Z * Z * Z)) :=
  match gs with
  | [] => Some (Some (refresh_iv, retry_iv, expire_iv))
  | g :: gs =>
      gr ← group_at c !! g;
      if preference gr =? new_preference then Some None
      else
        p ← head (sockets gr);
        s ← socket_at c !! p;
        other_intervals c gs new_preference
          (if refresh_interval s =? 0 then refresh_iv else refresh_interval s)
          (if retry_interval s =? 0 then retry_iv else retry_interval s)
          (if expire_interval s =? 0 then expire_iv else expire_interval s)
  end.

(** The best group is started if it is closed. *)
Definition start_best_group c : M E (rtr_mgr_config HT) :=
  best_group ← of_option (rtr_mgr_get_first_group c);
  gr ← of_option (group_at c !! best_group);
  if decide (status gr = RTR_MGR_CLOSED) then '(_, c) ← rtr_mgr_start_sockets c best_group; mret c
  else mret c.

Definition rtr_mgr_add_group c (group : rtr_mgr_group) : M E (Z * rtr_mgr_config HT) :=
  c ← wrlock_config c;
  gs ← of_option (group_list c);
  ivs ← of_option (other_intervals c gs (preference group) 3600 600 7200);
  match ivs with
  | None => c ← unlock_config c; mret (RTR_INVALID_PARAM, c)
  | Some (refresh_iv, retry_iv, expire_iv) =>
      ok ← alloc;
      if negb ok then c ← unlock_config c; mret (RTR_ERROR, c)
      else
        let '(g, c) := new_group c group in
        '(err_code, c) ← rtr_mgr_init_sockets c g refresh_iv expire_iv retry_iv RTR_INTERVAL_MODE_DEFAULT_MIN_MAX;
        if negb (err_code =? RTR_SUCCESS) then c ← unlock_config c; mret (err_code, free_group c g)
        else
          ok ← alloc;
          if negb ok then c ← unlock_config c; mret (RTR_SUCCESS, free_group c g)
          else
            c ← insert_tail c g (len c + 1);
            l ← of_option (group_list c);
            l ← of_option (sort_list c l);
            c ← start_best_group (set_groups c (Ptr l) (len c));
            c ← unlock_config c;
            mret (RTR_SUCCESS, c)
  end.

(** The sockets of a group that is removed. *)
Fixpoint remove_sockets c (socks : list socket_ptr) : M E (rtr_mgr_config HT) :=
  match socks with
  | [] => mret c
  | p :: socks => c ← stop_socket c p; emit (event (TransportFreed p));; remove_sockets c socks
  end.

Definition rtr_mgr_remove_group c (preference : Z) : M E (Z * rtr_mgr_config HT) :=
  c ← wrlock_config c;
  if len c =? 1 then c ← unlock_config c; mret (RTR_ERROR, c)
  else
    gs ← of_option (group_list c);
    found ← of_option (find_group c (λ _ gr, RtrMgr.preference gr =? preference) gs);
    match found with
    | None => c ← unlock_config c; mret (RTR_ERROR, c)
    | Some g =>
        let c := set_groups c (Ptr (filter (λ g', g' ≠ g) gs)) (len c - 1) in
        c ← unlock_config c;
        gr ← of_option (group_at c !! g);
        c ← (if decide (status gr ≠ RTR_MGR_CLOSED)
             then c ← remove_sockets c (sockets gr); set_status c g RTR_MGR_CLOSED None
             else mret c);
        c ← start_best_group c;
        mret (RTR_SUCCESS, free_group c g)
    end.

Fixpoint for_each_group c (gs : list group_ptr) (fp : fn_ptr) : M E unit :=
  match gs with
  | [] => mret tt
  | g :: gs => emit (event (GroupVisited fp g));; for_each_group c gs fp
  end.
Definition rtr_mgr_for_each_group c (fp : fn_ptr) : M E Z :=
  gs ← of_option (group_list c); for_each_group c gs fp;; mret RTR_SUCCESS.

(** ** Queries *)

Definition rtr_mgr_roa_validate c (a : Z) (prefix : rtr_ip_addr) (mask_len : Z)
  : M E (rtr_pfx_rtvals * option rtr_pfxv_state * rtr_mgr_config HT) :=
  pt ← of_option (read_field (cfg_pfx_table c));
  match pt with
  | None => mret (RTR_PFX_NOT_INITIALIZED, None, c)
  | Some t =>
      '(rtval, result, t) ← rtr_pfx_table_validate t a prefix mask_len;
      mret (rtval, result, set_tables c (Ptr t) (cfg_spki_table c) (cfg_aspa_table c))
  end.

Definition rtr_mgr_aspa_validate c (as_path : list Z) (direction : rtr_aspa_direction)
  : option (rtr_aspa_status * option rtr_aspa_verification_result * rtr_mgr_config HT) :=
  at_ ← read_field (cfg_aspa_table c);
  match at_ with
  | None => Some (RTR_ASPA_NOT_INITIALIZED, None, c)
  | Some t =>
      '(result, t) ← rtr_aspa_verify_as_path (Some t) as_path direction;
      Some (RTR_ASPA_SUCCESS, Some result, set_tables c (cfg_pfx_table c) (cfg_spki_table c) (of_pointer t))
  end.

(** Without a table the pointer is dereferenced. *)
Definition rtr_mgr_bgpsec_get_spki c (a : Z) (ski : list Z)
  : M E (rtr_spki_rtvals * option (list rtr_spki_record) * rtr_mgr_config HT) :=
  st ← of_option (mjoin (read_field (cfg_spki_table c)));
  '(rtval, result, st) ← spki_table_get_all st a ski;
  mret (rtval, result, set_tables c (cfg_pfx_table c) (Ptr st) (cfg_aspa_table c)).

(** The callback [fp] of the client works on a state [A] of its own. *)
Definition rtr_mgr_roa_for_each_ipv4_record {A} c (fp : rtr_pfx_record → A → M E A) (data : A) :=
  pt ← of_option (read_field (cfg_pfx_table c)); rtr_pfx_table_for_each_ipv4_record fp pt data.
Definition rtr_mgr_roa_for_each_ipv6_record {A} c (fp : rtr_pfx_record → A → M E A) (data : A) :=
  pt ← of_option (read_field (cfg_pfx_table c)); rtr_pfx_table_for_each_ipv6_record fp pt data.

End RtrMgr.

Definition rtr_mgr_status_to_str (st : rtr_mgr_status) : string :=
  match st with
  | RTR_MGR_CLOSED => "RTR_MGR_CLOSED"
  | RTR_MGR_CONNECTING => "RTR_MGR_CONNECTING"
  | RTR_MGR_ESTABLISHED => "RTR_MGR_ESTABLISHED"
  | RTR_MGR_ERROR => "RTR_MGR_ERROR"
  end.

