(* ===== verification/RtrMgrProofs.v ===== *)
(** * The manager of groups of caches: proofs *)

From Stdlib Require Import String.
From S2P Require Import Prelude Ip PfxTable PfxTableProofs PfxTableBulk Hashlin Spki SpkiProofs SetOps.
From S2P Require Import AspaArray Aspa AspaUpdate AspaVerification AspaVerificationProofs.
From S2P Require Import AspaUpdateProofs AspaTheorems AspaSwapIn AspaReplace.
From S2P Require Import Pdu PduProofs PduTheorems Transport TransportProofs Socket Packets PacketsProofs ReceiveProofs.
From S2P Require Import Update UpdateProofs UpdateInstances AspaPdus SyncUpdate Sync SyncProofs SyncReset.
From S2P Require Import Rtr RtrProofs TommyList TommyListProofs RtrMgr.
Open Scope Z_scope.

Lemma filter_bool_ext {A} (f f' : A → bool) (l : list A) :
  (∀ x, x ∈ l → f x = f' x) → filter (λ x, f x) l = filter (λ x, f' x) l.
Proof.
  induction l as [|x l IH]; intros Hf; [done|]. rewrite !filter_cons, (Hf x) by left.
  rewrite IH by (intros y Hy; apply Hf; by right). done.
Qed.

Lemma sorted_impl {A} (R R' : A → A → Prop) (l : list A) :
  (∀ x y, R x y → R' x y) → StronglySorted R l → StronglySorted R' l.
Proof.
  intros HR. induction 1 as [|x l Hl IH Hx]; [constructor|]. constructor; [done|]. eapply Forall_impl; [exact Hx|]. apply HR.
Qed.

(** ** The records of several caches *)

Section Removal.
Context {HT : Type}.
Implicit Types t : tables HT.

(** The tables without the records of some caches. *)
Definition without_all (ps : list socket_ptr) t t' : Prop :=
  pfx_records (pfx_table t') ≡ₚ filter (λ r, PfxTable.socket r ∉ ps) (pfx_records (pfx_table t)) ∧
  key_records (spki_table t') = filter (λ r, Spki.socket r ∉ ps) (key_records (spki_table t)) ∧
  ∀ c, aspa_map (aspa_table t') c = if decide (c ∈ ps) then ∅ else aspa_map (aspa_table t) c.

Lemma without_none t : without_all [] t t.
Proof.
  split; [|split].
  - rewrite filter_all; [done|]. intros r _. apply not_elem_of_nil.
  - rewrite filter_all; [done|]. intros r _. apply not_elem_of_nil.
  - intros c. rewrite decide_False; [done|]. apply not_elem_of_nil.
Qed.

Lemma without_single p t t' : without p t t' → without_all [p] t t'.
Proof.
  intros (Hp & Hk & Ha). split; [|split].
  - etrans; [exact Hp|]. apply reflexive_eq, list_filter_iff. intros r. by rewrite list_elem_of_singleton.
  - rewrite Hk. apply list_filter_iff. intros r. by rewrite list_elem_of_singleton.
  - intros c. rewrite Ha. repeat case_decide; rewrite list_elem_of_singleton in *; tauto.
Qed.

Lemma without_app ps qs t t' t'' : without_all ps t t' → without_all qs t' t'' → without_all (ps ++ qs) t t''.
Proof.
  intros (Hp & Hk & Ha) (Hp' & Hk' & Ha'). split; [|split].
  - etrans; [exact Hp'|]. etrans; [eapply filter_Permutation; exact Hp|].
    rewrite list_filter_filter. apply reflexive_eq, list_filter_iff. intros r. rewrite not_elem_of_app. tauto.
  - rewrite Hk', Hk, list_filter_filter. apply list_filter_iff. intros r. rewrite not_elem_of_app. tauto.
  - intros c. rewrite Ha', Ha. repeat case_decide; rewrite elem_of_app in *; tauto.
Qed.

End Removal.

(** ** Stopping sockets *)

Definition is_running (s : rtr_socket) : bool := negb (thread_id s =? 0).
(** A socket after [rtr_stop]. *)
Definition stop_result (s : rtr_socket) : rtr_socket :=
  if is_running s then stopped s else changed s RTR_SHUTDOWN.

Section Mgr.
Context `{Build} `{Host} {E HT : Type} `{!HashTable E HT key_entry} `{!HashTableSpec E HT key_entry}.
Context `{!Event pfx_event E} `{!Event spki_event E} `{!Event aspa_event E}.
Context `{!Event tr_event E} `{!Event rtr_event E} `{!Event mgr_event E}.
Implicit Types (c : rtr_mgr_config HT) (g : group_ptr) (p : socket_ptr) (w : world E) (gr : rtr_mgr_group).

Lemma mgr_tables_put c t : mgr_tables (put_tables c t) = Some t.
Proof. destruct t as [[] [] []]; done. Qed.

(** The members that no callback changes. *)
Definition same_config c c' : Prop :=
  groups c' = groups c ∧ len c' = len c ∧ mutex c' = mutex c ∧ status_fp c' = status_fp c ∧
  next_group c' = next_group c ∧ group_of c' = group_of c.

#[global] Instance same_config_preorder : PreOrder same_config.
Proof. split; [by intros c|]. intros c c' c'' (?&?&?&?&?&?) (?&?&?&?&?&?). split_and!; congruence. Qed.

Definition running c (ps : list socket_ptr) : list socket_ptr :=
  filter (λ p, is_running <$> socket_at c !! p = Some true) ps.

(** The sockets [ps] of the group [g] were stopped. *)
Definition stops c g (ps : list socket_ptr) c' : Prop :=
  same_config c c' ∧
  (∃ gr st, group_at c !! g = Some gr ∧ (st = status gr ∨ st = RTR_MGR_CLOSED) ∧
     group_at c' = <[g := with_status gr st]> (group_at c)) ∧
  (∀ p, socket_at c' !! p = (if decide (p ∈ ps) then stop_result else id) <$> socket_at c !! p) ∧
  ∃ t t', mgr_tables c = Some t ∧ mgr_tables c' = Some t' ∧ tables_ok (E := E) t' ∧ without_all (running c ps) t t'.

Definition status_told c g (st : rtr_mgr_status) (sock : option socket_ptr) : list E :=
  match status_fp c with Some fp => [event (StatusChanged fp g st sock)] | None => [] end.

Lemma set_status_spec c g gr st sock (Q : rtr_mgr_config HT → world E → Prop) w :
  group_at c !! g = Some gr →
  (∀ w', talks w (status_told c g st sock) w' → Q (put_group c g (with_status gr st)) w') →
  wp (set_status c g st sock) Q w.
Proof.
  intros Hg HQ. unfold set_status. rewrite Hg. wp_step. wp_step. cbv zeta. unfold status_told in HQ. simpl status_fp.
  destruct (status_fp c) as [fp|].
  - wp_step. eexists _, _. split; [done|]. cbv beta. wp_step. apply HQ. by split_and!.
  - wp_step. apply HQ, talks_refl.
Qed.

Lemma all_sockets_some c f ps : (∀ p, p ∈ ps → is_Some (socket_at c !! p)) → is_Some (all_sockets c f ps).
Proof.
  induction ps as [|p ps IH]; intros Hps; [by eexists|]. simpl. destruct (Hps p) as [s ->]; [left|]. simpl.
  destruct (f s); [|by eexists]. apply IH. intros q Hq. apply Hps. by right.
Qed.

Lemma with_status_same gr : with_status gr (status gr) = gr.
Proof. by destruct gr. Qed.

Lemma cb_shutdown_spec c g gr p (Q : rtr_mgr_config HT → world E → Prop) w :
  group_at c !! g = Some gr → (∀ q, q ∈ sockets gr → is_Some (socket_at c !! q)) →
  (∀ st evs w', st = status gr ∨ st = RTR_MGR_CLOSED → talks w evs w' → Q (put_group c g (with_status gr st)) w') →
  wp (rtr_mgr_cb_state_shutdown c g p) Q w.
Proof.
  intros Hg Hs HQ. unfold rtr_mgr_cb_state_shutdown. rewrite Hg. wp_step. wp_step.
  destruct (all_sockets_some c (λ s, bool_decide (state s = RTR_SHUTDOWN)) (sockets gr) Hs) as [b ->].
  wp_step. wp_step. destruct b; (eapply set_status_spec; [done|]); intros w' Hw; eapply HQ; try done; tauto.
Qed.

Lemma finish_stop_idle (m : machine HT) (Q : machine HT → world E → Prop) w :
  thread_id (m_socket m) = 0 → Q m w → wp (finish_stop m) Q w.
Proof. intros Ht HQ. unfold finish_stop. rewrite Ht. simpl. by wp_step. Qed.

Lemma stop_socket_spec c g gr p s t w :
  socket_at c !! p = Some s → self s = p → group_of c !! p = Some g → group_at c !! g = Some gr →
  (∀ q, q ∈ sockets gr → is_Some (socket_at c !! q)) → mgr_tables c = Some t → tables_ok (E := E) t → no_fail w →
  wp (stop_socket c p) (λ c' w', stops c g [p] c' ∧ ∃ evs, runs w evs w') w.
Proof.
  intros Hp Hself Hof Hg Hs Ht Hok Hnf. unfold stop_socket. rewrite Hp, Ht. wp_step. wp_step. wp_step. wp_step. cbv zeta.
  wp_step. apply wp_change_state. intros w1 Hw1%runs_talks. wp_step. simpl group_of. rewrite Hof.
  set (s1 := changed s RTR_SHUTDOWN). set (c1 := put_socket c p s1).
  assert (∀ st evs w2, st = status gr ∨ st = RTR_MGR_CLOSED → runs w evs w2 →
    wp (m ← finish_stop (Machine s1 t);
        mret (put_tables (put_socket (put_group c1 g (with_status gr st)) p (m_socket m)) (m_tables m)))
      (λ c' w', stops c g [p] c' ∧ ∃ evs, runs w evs w') w2) as Hend.
  { intros st evs w2 Hst Hw2.
    assert (∀ (m : machine HT) evs' w', m_socket m = stop_result s → tables_ok (E := E) (m_tables m) →
      without_all (running c [p]) t (m_tables m) → runs w evs' w' →
      stops c g [p] (put_tables (put_socket (put_group c1 g (with_status gr st)) p (m_socket m)) (m_tables m)) ∧
      ∃ evs, runs w evs w') as Hfin.
    { intros m evs' w' Hm Hok' Hwo Hw'. split; [|by eexists]. split; [done|]. split; [by exists gr, st|]. split.
      - intros q. simpl. rewrite Hm. destruct (decide (q = p)) as [->|Hne].
        + rewrite lookup_insert_eq, decide_True by left. by rewrite Hp.
        + rewrite !lookup_insert_ne, decide_False by (done || by rewrite list_elem_of_singleton). by rewrite option_fmap_id.
      - exists t, (m_tables m). split; [done|]. split; [apply mgr_tables_put|done]. }
    destruct (changed_members s RTR_SHUTDOWN) as [st' Hst']. fold s1 in Hst'.
    wp_step. unfold running in Hfin. rewrite filter_cons, filter_nil, Hp in Hfin. unfold is_running in Hfin.
    cbn [fmap option_fmap option_map] in Hfin. destruct (decide (thread_id s = 0)) as [Hth|Hth].
    - apply finish_stop_idle; [by rewrite Hst'|]. wp_step. apply (Hfin (Machine s1 t) evs).
      + unfold stop_result, is_running. by rewrite Hth.
      + done.
      + rewrite Hth. simpl. apply without_none.
      + done.
    - eapply wp_mono; [apply finish_stop_spec; [done|by eapply runs_no_fail|by rewrite Hst']|].
      intros m w3 (Hok3 & Hm3 & Hwo3 & evs3 & _ & Hw3). wp_step. apply (Hfin m (evs ++ [event Closed] ++ evs3)).
      + rewrite Hm3. unfold stop_result, is_running. destruct (Z.eqb_spec (thread_id s) 0); [done|]. simpl.
        rewrite Hst'. by destruct s.
      + done.
      + destruct (Z.eqb_spec (thread_id s) 0); [done|]. simpl.
        apply without_single. replace p with (self s1); [done|]. by rewrite Hst'.
      + eapply runs_trans; [done|by apply runs_emits]. }
  destruct (_ && _) eqn:Hcalled.
  - eapply (cb_shutdown_spec c1 g gr p).
    + done.
    + intros q Hq. simpl. destruct (decide (q = p)) as [->|Hne]; [rewrite lookup_insert_eq; by eexists|].
      rewrite lookup_insert_ne by done. by apply Hs.
    + intros st evs w2 Hst Hw2. eapply Hend; [done|]. eapply runs_trans; [done|by apply runs_talks].
  - wp_step. specialize (Hend (status gr) _ w1 (or_introl eq_refl) Hw1).
    assert (put_group c1 g (with_status gr (status gr)) = c1) as Heq; [|by rewrite Heq in Hend].
    rewrite with_status_same. unfold c1, put_group. simpl. rewrite insert_id by done. by destruct c.
Qed.

(** A group whose sockets are its own. *)
Definition owned c g gr : Prop :=
  group_at c !! g = Some gr ∧ NoDup (sockets gr) ∧
  ∀ p, p ∈ sockets gr → ∃ s, socket_at c !! p = Some s ∧ self s = p ∧ group_of c !! p = Some g.

Lemma self_stop_result s : self (stop_result s) = self s.
Proof.
  unfold stop_result. destruct (is_running s); [done|]. destruct (changed_members s RTR_SHUTDOWN) as [st ->]. done.
Qed.

Lemma stops_owned c g gr ps c' g' :
  stops c g ps c' → owned c g' gr → ∃ st, owned c' g' (with_status gr st) ∧ (g' ≠ g → st = status gr).
Proof.
  intros ((_ & _ & _ & _ & _ & Hof) & (gr0 & st & Hg0 & _ & Hga) & Hs & _) (Hg & Hnd & Hps).
  assert (∀ p, p ∈ sockets gr → ∃ s, socket_at c' !! p = Some s ∧ self s = p ∧ group_of c' !! p = Some g') as Hps'.
  { intros p Hp. destruct (Hps p Hp) as (s & Hsp & Hself & Hofp). rewrite Hs, Hsp, Hof. simpl. eexists. split; [done|].
    split; [|done]. case_decide; [by rewrite self_stop_result|done]. }
  destruct (decide (g' = g)) as [->|Hne].
  - exists st. simplify_eq. split; [|done]. split; [by rewrite Hga, lookup_insert_eq|done].
  - exists (status gr). rewrite with_status_same. split; [|done]. split; [by rewrite Hga, lookup_insert_ne|done].
Qed.

Lemma running_same c c' ps :
  (∀ p, p ∈ ps → socket_at c' !! p = socket_at c !! p) → running c' ps = running c ps.
Proof.
  intros Hs. unfold running. induction ps as [|p ps IH]; [done|]. rewrite !filter_cons, Hs by left.
  rewrite IH by (intros q Hq; apply Hs; by right). done.
Qed.

Lemma stops_app c g ps c1 qs c2 :
  stops c g ps c1 → stops c1 g qs c2 → (∀ p, p ∈ ps → p ∉ qs) → stops c g (ps ++ qs) c2.
Proof.
  intros (Hc & (gr & st & Hg & Hst & Hga) & Hs & t & t1 & Ht & Ht1 & Hok1 & Hwo)
    (Hc' & (gr' & st' & Hg' & Hst' & Hga') & Hs' & t1' & t2 & Ht1' & Ht2 & Hok2 & Hwo') Hdisj.
  split; [by etrans|]. split.
  { rewrite Hga, lookup_insert_eq in Hg'. simplify_eq/=. exists gr, st'. split; [done|]. split; [intuition congruence|].
    by rewrite Hga', Hga, insert_insert_eq. }
  split.
  - intros p. rewrite Hs', Hs. destruct (socket_at c !! p) as [s|]; [|done]. simpl. f_equal.
    repeat case_decide; rewrite elem_of_app in *; try tauto; [|done..]. exfalso. by apply (Hdisj p).
  - exists t, t2. simplify_eq. split; [done|]. split; [done|]. split; [done|].
    unfold running. rewrite filter_app. eapply without_app; [exact Hwo|]. fold (running c qs).
    rewrite <- (running_same c c1); [done|]. intros p Hp. rewrite Hs, decide_False; [by rewrite option_fmap_id|].
    intros Hp'. by apply (Hdisj p).
Qed.

Lemma stops_nil c g gr t :
  group_at c !! g = Some gr → mgr_tables c = Some t → tables_ok (E := E) t → stops c g [] c.
Proof.
  intros Hg Ht Hok. split; [done|]. split.
  { exists gr, (status gr). split; [done|]. split; [by left|]. by rewrite with_status_same, insert_id. }
  split; [intros p; by rewrite option_fmap_id|]. exists t, t. split; [done|]. split; [done|]. split; [done|]. apply without_none.
Qed.

Lemma stop_sockets_spec ps c g gr t w :
  owned c g gr → NoDup ps → (∀ p, p ∈ ps → p ∈ sockets gr) → mgr_tables c = Some t → tables_ok (E := E) t → no_fail w →
  wp (stop_sockets c ps) (λ c' w', stops c g ps c' ∧ ∃ evs, runs w evs w') w.
Proof.
  revert c gr t w. induction ps as [|p ps IH]; intros c gr t w Hown Hnd Hsub Ht Hok Hnf; cbn [stop_sockets].
  { wp_step. split; [eapply stops_nil; [apply Hown|done|done]|]. eexists. apply runs_refl. }
  pose proof Hown as (Hg & _ & Hps). destruct (Hps p) as (s & Hs & Hself & Hof); [apply Hsub; left|].
  apply NoDup_cons in Hnd as [Hnp Hnd]. wp_step. eapply wp_mono.
  { eapply stop_socket_spec; try done. intros q Hq. destruct (Hps q Hq) as (s' & -> & _). by eexists. }
  intros c1 w1 (Hst & evs & Hw1). destruct (stops_owned _ _ _ _ _ g Hst Hown) as (st & Hown1 & _).
  pose proof Hst as (_ & _ & _ & t0 & t1 & _ & Ht1 & Hok1 & _).
  eapply wp_mono; [eapply (IH c1 (with_status gr st) t1 w1); try done|].
  - intros q Hq. apply Hsub. by right.
  - by eapply runs_no_fail.
  - intros c2 w2 (Hst2 & evs2 & Hw2). split; [|eexists; by eapply runs_trans].
    apply (stops_app c g [p] c1 ps c2); try done. by intros q ->%list_elem_of_singleton.
Qed.

(** ** Closing groups *)

Definition members c (gs : list group_ptr) : list socket_ptr :=
  gs ≫= λ g, match group_at c !! g with Some gr => sockets gr | None => [] end.

(** The groups [gs] were closed and their sockets stopped; nothing else changed. *)
Definition closes c (gs : list group_ptr) c' : Prop :=
  same_config c c' ∧
  (∀ g, group_at c' !! g = (if decide (g ∈ gs) then λ gr, with_status gr RTR_MGR_CLOSED else id) <$> group_at c !! g) ∧
  (∀ p, socket_at c' !! p = (if decide (p ∈ members c gs) then stop_result else id) <$> socket_at c !! p) ∧
  ∃ t t', mgr_tables c = Some t ∧ mgr_tables c' = Some t' ∧ tables_ok (E := E) t' ∧
    without_all (running c (members c gs)) t t'.

Lemma closes_nil c t : mgr_tables c = Some t → tables_ok (E := E) t → closes c [] c.
Proof.
  intros Ht Hok. split; [done|]. split; [intros g; by rewrite option_fmap_id|].
  split; [intros p; by rewrite option_fmap_id|]. exists t, t. split_and!; try done. apply without_none.
Qed.

Lemma closes_one c g gr c1 :
  owned c g gr → stops c g (sockets gr) c1 →
  ∃ gr1, group_at c1 !! g = Some gr1 ∧ closes c [g] (put_group c1 g (with_status gr1 RTR_MGR_CLOSED)).
Proof.
  intros (Hg & _) (Hc & (gr0 & st & Hg0 & _ & Hga) & Hs & t & t' & Ht & Ht' & Hok & Hwo). simplify_eq.
  assert (members c [g] = sockets gr) as Hm by (unfold members; simpl; by rewrite Hg, app_nil_r).
  exists (with_status gr st). split; [by rewrite Hga, lookup_insert_eq|]. split; [done|]. split; [|split].
  - intros g'. simpl. rewrite Hga, insert_insert_eq. destruct (decide (g' = g)) as [->|Hne].
    + rewrite lookup_insert_eq, decide_True, Hg by left. done.
    + rewrite lookup_insert_ne, decide_False by (done || by rewrite list_elem_of_singleton). by rewrite option_fmap_id.
  - intros p. cbn [socket_at put_group set_group_at]. by rewrite Hm, Hs.
  - exists t, t'. rewrite Hm. done.
Qed.

Lemma closes_owned c gs c' g gr :
  closes c gs c' → owned c g gr → ∃ st, owned c' g (with_status gr st) ∧ (g ∉ gs → st = status gr).
Proof.
  intros ((_ & _ & _ & _ & _ & Hof) & Hga & Hs & _) (Hg & Hnd & Hps).
  exists (if decide (g ∈ gs) then RTR_MGR_CLOSED else status gr). split; [|by intros ?; case_decide].
  split; [|split; [done|]].
  - rewrite Hga, Hg. simpl. case_decide; [done|]. by rewrite with_status_same.
  - intros p Hp. destruct (Hps p Hp) as (s & Hsp & Hself & Hofp). rewrite Hs, Hsp, Hof. eexists. split; [done|].
    split; [|done]. destruct (decide (p ∈ members c gs)); [by rewrite self_stop_result|done].
Qed.

Lemma members_cons c g gs :
  members c (g :: gs) = match group_at c !! g with Some gr => sockets gr | None => [] end ++ members c gs.
Proof. done. Qed.

Lemma members_closes c gs c' gs' : closes c gs c' → members c' gs' = members c gs'.
Proof.
  intros (_ & Hga & _). induction gs' as [|g gs' IH]; [done|]. rewrite !members_cons, IH, Hga.
  destruct (group_at c !! g); [|done]. simpl. by case_decide.
Qed.

Lemma closes_app c gs c1 gs' c2 :
  closes c gs c1 → closes c1 gs' c2 → (∀ p, p ∈ members c gs → p ∉ members c gs') → closes c (gs ++ gs') c2.
Proof.
  intros Hcl1 Hcl2 Hdisj. pose proof (members_closes _ _ _ gs' Hcl1) as Hm.
  destruct Hcl1 as (Hc & Hga & Hs & t & t1 & Ht & Ht1 & Hok1 & Hwo).
  destruct Hcl2 as (Hc' & Hga' & Hs' & t1' & t2 & Ht1' & Ht2 & Hok2 & Hwo'). rewrite Hm in *.
  assert (members c (gs ++ gs') = members c gs ++ members c gs') as Happ by apply bind_app.
  split; [by etrans|]. split; [|split].
  - intros g. rewrite Hga', Hga. destruct (group_at c !! g) as [gr|]; [|done]. simpl. f_equal.
    repeat case_decide; rewrite elem_of_app in *; tauto || done.
  - intros p. rewrite Hs', Hs, Happ. destruct (socket_at c !! p) as [s|]; [|done]. simpl. f_equal.
    repeat case_decide; rewrite elem_of_app in *; try tauto; [|done..]. exfalso. by apply (Hdisj p).
  - exists t, t2. simplify_eq. split; [done|]. split; [done|]. split; [done|]. rewrite Happ.
    unfold running. rewrite filter_app. eapply without_app; [exact Hwo|]. fold (running c (members c gs')).
    rewrite <- (running_same c c1); [done|]. intros p Hp. rewrite Hs, decide_False; [by rewrite option_fmap_id|].
    intros Hp'. by apply (Hdisj p).
Qed.

(** The groups that [rtr_mgr_close_less_preferable_groups] closes. *)
Definition is_victim c g (bound : Z) (g' : group_ptr) : bool :=
  match group_at c !! g' with
  | Some gr => bool_decide (status gr ≠ RTR_MGR_CLOSED) && bool_decide (g' ≠ g) && (bound <? preference gr)
  | None => false
  end.
Definition victims c g (bound : Z) (gs : list group_ptr) : list group_ptr := filter (is_victim c g bound) gs.

Lemma member_of_owned c gs p :
  (∀ g, g ∈ gs → ∃ gr, owned c g gr) → p ∈ members c gs → ∃ g, g ∈ gs ∧ group_of c !! p = Some g.
Proof.
  intros Hown Hp. unfold members in Hp. apply list_elem_of_bind in Hp as (g & Hp & Hg). exists g. split; [done|].
  destruct (Hown g Hg) as (gr & Hgr & _ & Hps). rewrite Hgr in Hp. destruct (Hps p Hp) as (s & _ & _ & ?). done.
Qed.

Lemma close_groups_spec gs c g bound p t w :
  (∀ g', g' ∈ gs → ∃ gr, owned c g' gr) → NoDup gs → mgr_tables c = Some t → tables_ok (E := E) t → no_fail w →
  wp (close_groups c gs g bound p) (λ c' w', closes c (victims c g bound gs) c' ∧ ∃ evs, runs w evs w') w.
Proof.
  revert c t w. induction gs as [|g1 gs IH]; intros c t w Hown Hnd Ht Hok Hnf; cbn [close_groups].
  { wp_step. split; [by eapply closes_nil|]. eexists. apply runs_refl. }
  apply NoDup_cons in Hnd as [Hn1 Hnd]. destruct (Hown g1) as [gr Hgr]; [left|]. pose proof Hgr as (Hg1 & Hnds & _).
  rewrite Hg1. wp_step. wp_step. unfold victims. rewrite filter_cons. fold (victims c g bound gs).
  assert (is_victim c g bound g1 = bool_decide (status gr ≠ RTR_MGR_CLOSED) && bool_decide (g1 ≠ g) && (bound <? preference gr))
    as -> by (unfold is_victim; by rewrite Hg1).
  wp_step. destruct (_ && _ && _).
  - wp_step. eapply wp_mono; [by eapply (stop_sockets_spec (sockets gr) c g1 gr t w)|].
    intros c1 w1 (Hst & evs & Hw1). destruct (closes_one c g1 gr c1 Hgr Hst) as (gr1 & Hg1' & Hcl).
    eapply set_status_spec; [done|]. intros w2 Hw2. set (c2 := put_group c1 g1 _) in *.
    pose proof Hcl as (_ & Hga2 & _ & _ & t2 & _ & Ht2 & Hok2 & _).
    assert (runs w (evs ++ status_told c1 g1 RTR_MGR_CLOSED (Some p)) w2) as Hw02
      by (eapply runs_trans; [done|by apply runs_talks]).
    eapply wp_mono; [eapply (IH c2 t2 w2); try done|].
    + intros g' Hg'. destruct (Hown g') as [gr' Hgr']; [by right|].
      destruct (closes_owned _ _ _ _ _ Hcl Hgr') as (st & ? & _). by eexists.
    + by eapply runs_no_fail.
    + intros c3 w3 (Hcl3 & evs3 & Hw3). split; [|eexists; by eapply runs_trans].
      assert (victims c2 g bound gs = victims c g bound gs) as Hv.
      { unfold victims. apply filter_bool_ext. intros g' Hg'. unfold is_victim. rewrite Hga2.
        rewrite decide_False; [by rewrite option_fmap_id|]. by intros ->%list_elem_of_singleton. }
      rewrite Hv in Hcl3. simpl. apply (closes_app c [g1] c2); try done. intros q Hq Hq'.
      apply member_of_owned in Hq as (a & ->%list_elem_of_singleton & Ha); [|by intros ? ->%list_elem_of_singleton; eexists].
      apply member_of_owned in Hq' as (b & [_ Hb]%list_elem_of_filter & Hb'); [simplify_eq; done|].
      intros b' [_ Hb2]%list_elem_of_filter. apply Hown. by right.
  - wp_step. apply (IH c t w); try done. intros g' Hg'. apply Hown. by right.
Qed.

(** ** The invariant of the manager *)

Definition preference_of c g : Z := match group_at c !! g with Some gr => preference gr | None => 0 end.

(** The groups are listed by preference, no two have the same, every group has sockets of
    its own, the lock is free and the tables are in order. *)
Definition mgr_ok c (gs : list group_ptr) (t : tables HT) : Prop :=
  groups c = Ptr gs ∧ len c = Z.of_nat (length gs) ∧ mutex c = Unlocked ∧
  StronglySorted (λ g g', preference_of c g < preference_of c g') gs ∧
  (∀ g, g ∈ gs → ∃ gr, owned c g gr ∧ sockets gr ≠ []) ∧
  (∀ g, g ∈ dom (group_at c) → (g < next_group c)%nat) ∧
  mgr_tables c = Some t ∧ tables_ok (E := E) t.

Lemma sorted_nodup c gs : StronglySorted (λ g g', preference_of c g < preference_of c g') gs → NoDup gs.
Proof.
  induction 1 as [|g gs _ IH Hg]; [constructor|]. constructor; [|done]. intros Hin.
  rewrite Forall_forall in Hg. specialize (Hg g Hin). lia.
Qed.

(** Only states of groups and sockets and the contents of the tables changed. *)
Lemma mgr_ok_frame c c' gs t t' :
  mgr_ok c gs t → groups c' = groups c → len c' = len c → mutex c' = Unlocked → next_group c' = next_group c →
  (∀ g, ∃ f : rtr_mgr_group → rtr_mgr_status,
     group_at c' !! g = (λ gr, with_status gr (f gr)) <$> group_at c !! g) →
  (∀ g gr, g ∈ gs → owned c g gr → ∃ st, owned c' g (with_status gr st)) →
  mgr_tables c' = Some t' → tables_ok (E := E) t' → mgr_ok c' gs t'.
Proof.
  intros (Hgs & Hlen & Hmu & Hso & Hown & Hnext & _ & _) Hg' Hl' Hm' Hn' Hga Hown' Ht' Hok'.
  assert (∀ g, preference_of c' g = preference_of c g) as Hpref.
  { intros g. unfold preference_of. destruct (Hga g) as [f ->]. by destruct (group_at c !! g). }
  split; [congruence|]. split; [congruence|]. split; [done|]. split.
  { eapply sorted_impl; [|exact Hso]. intros g g' Hlt. by rewrite !Hpref. }
  split; [|split; [|done]].
  - intros g Hg. destruct (Hown g Hg) as (gr & Ho & Hne). destruct (Hown' g gr Hg Ho) as [st Ho']. by exists (with_status gr st).
  - intros g. rewrite elem_of_dom. destruct (Hga g) as [f ->]. intros [gr Hgr]. rewrite Hn'. apply Hnext, elem_of_dom.
    destruct (group_at c !! g); [by eexists|done].
Qed.

Lemma mgr_ok_closes c gs t vs c' :
  mgr_ok c gs t → closes c vs c' → ∃ t', mgr_ok c' gs t' ∧ without_all (running c (members c vs)) t t'.
Proof.
  intros Hok Hcl. pose proof Hcl as ((Hg & Hl & Hmu & _ & Hn & _) & Hga & _ & t0 & t' & Ht & Ht' & Hok' & Hwo).
  exists t'. pose proof Hok as (_ & _ & Hmu' & _ & _ & _ & Ht0 & _). simplify_eq. split; [|done].
  eapply mgr_ok_frame; try done; [congruence| |].
  - intros g. rewrite Hga. case_decide; [by exists (λ _, RTR_MGR_CLOSED)|]. exists status.
    destruct (group_at c !! g) as [gr|]; [|done]. simpl. by rewrite with_status_same.
  - intros g gr _ Ho. destruct (closes_owned _ _ _ _ _ Hcl Ho) as (st & ? & _). by exists st.
Qed.

Lemma owned_put c g gr g' gr' st :
  owned c g gr → owned c g' gr' → owned (put_group c g (with_status gr st)) g' (with_status gr' (if decide (g' = g) then st else status gr')).
Proof.
  intros (Hg & _) (Hg' & Hnd & Hps). split; [|split; [done|done]]. simpl. case_decide as Heq.
  - subst g'. simplify_eq. by rewrite lookup_insert_eq.
  - by rewrite lookup_insert_ne, with_status_same.
Qed.

Lemma mgr_ok_put c gs t g gr st : mgr_ok c gs t → owned c g gr → mgr_ok (put_group c g (with_status gr st)) gs t.
Proof.
  intros Hok Ho. pose proof Hok as (_ & _ & Hmu & _ & _ & _ & Ht & Htok). eapply mgr_ok_frame; try done.
  - intros g'. simpl. destruct (decide (g' = g)) as [->|Hne].
    + exists (λ _, st). rewrite lookup_insert_eq. by rewrite (proj1 Ho).
    + exists status. rewrite lookup_insert_ne by done. destruct (group_at c !! g') as [gr'|]; [|done]. simpl.
      by rewrite with_status_same.
  - intros g' gr' _ Ho'. eexists. by eapply owned_put.
Qed.

(** ** A session is established *)

Definition synced c gr : Prop :=
  Forall (λ p, match socket_at c !! p with
               | Some s => last_update s ≠ 0 ∧ state s ∈ [RTR_ESTABLISHED; RTR_RESET; RTR_SYNC]
               | None => False
               end) (sockets gr).

(** No group that is preferred is alive. *)
Definition preferred_down c (gs : list group_ptr) g gr : Prop :=
  Forall (λ g', match group_at c !! g' with
                | Some gr' => g' = g ∨ preference gr <= preference gr' ∨ status gr' = RTR_MGR_ERROR ∨ status gr' = RTR_MGR_CLOSED
                | None => False
                end) gs.

Definition promoted c (gs : list group_ptr) g gr : Prop :=
  synced c gr ∧ (status gr = RTR_MGR_CONNECTING ∨ status gr = RTR_MGR_ERROR ∧ preferred_down c gs g gr).

#[global] Instance synced_dec c gr : Decision (synced c gr).
Proof. apply Forall_dec. intros p. destruct (socket_at c !! p); apply _. Defined.
#[global] Instance promoted_dec c gs g gr : Decision (promoted c gs g gr).
Proof.
  unfold promoted. apply and_dec; [apply _|]. apply or_dec; [apply _|]. apply and_dec; [apply _|].
  apply Forall_dec. intros g'. destruct (group_at c !! g'); apply _.
Defined.

Lemma all_sockets_spec c f ps :
  (∀ p, p ∈ ps → is_Some (socket_at c !! p)) →
  ∃ b, all_sockets c f ps = Some b ∧
    (b = true ↔ Forall (λ p, match socket_at c !! p with Some s => f s = true | None => False end) ps).
Proof.
  induction ps as [|p ps IH]; intros Hps; [by exists true|]. destruct (Hps p) as [s Hs]; [left|]. simpl. rewrite Hs. simpl.
  destruct IH as (b & Hb & Hiff); [intros q Hq; apply Hps; by right|]. setoid_rewrite Forall_cons. rewrite Hs.
  destruct (f s) eqn:Hf; [exists b; tauto|]. exists false. split; [done|]. split; [done|]. by intros [? _].
Qed.

Lemma owned_sockets c g gr : owned c g gr → ∀ p, p ∈ sockets gr → is_Some (socket_at c !! p).
Proof. intros (_ & _ & Hps) p Hp. destruct (Hps p Hp) as (s & -> & _). by eexists. Qed.

Lemma is_synced_spec c g gr :
  owned c g gr → ∃ b, rtr_mgr_config_status_is_synced c g = Some b ∧ (b = true ↔ synced c gr).
Proof.
  intros Ho. unfold rtr_mgr_config_status_is_synced. rewrite (proj1 Ho). simpl.
  destruct (all_sockets_spec c (λ s, negb (last_update s =? 0) && bool_decide (state s ∈ [RTR_ESTABLISHED; RTR_RESET; RTR_SYNC]))
    (sockets gr) (owned_sockets _ _ _ Ho)) as (b & -> & Hb). exists b. split; [done|]. rewrite Hb. unfold synced.
  apply Forall_proper; [|done]. intros p. destruct (socket_at c !! p) as [s|]; [|done].
  rewrite andb_true_iff, negb_true_iff, bool_decide_eq_true, Z.eqb_neq. done.
Qed.

Lemma find_group_spec c f gs :
  (∀ g, g ∈ gs → is_Some (group_at c !! g)) →
  ∃ r, find_group c f gs = Some r ∧
    match r with
    | Some g => ∃ pre post gr, gs = pre ++ g :: post ∧ group_at c !! g = Some gr ∧ f g gr = true ∧
        ∀ g' gr', g' ∈ pre → group_at c !! g' = Some gr' → f g' gr' = false
    | None => ∀ g' gr', g' ∈ gs → group_at c !! g' = Some gr' → f g' gr' = false
    end.
Proof.
  induction gs as [|g gs IH]; intros Hgs; [exists None; split; [done|]; intros ? ? []%not_elem_of_nil|].
  destruct (Hgs g) as [gr Hg]; [left|]. simpl. rewrite Hg. simpl. destruct (f g gr) eqn:Hf.
  - exists (Some g). split; [done|]. exists [], gs, gr. split; [done|]. split; [done|]. split; [done|]. intros ? ? []%not_elem_of_nil.
  - destruct IH as (r & -> & Hr); [intros g' Hg'; apply Hgs; by right|]. exists r. split; [done|]. destruct r as [g1|].
    + destruct Hr as (pre & post & gr1 & -> & Hg1 & Hf1 & Hpre). exists (g :: pre), post, gr1. split; [done|]. split; [done|].
      split; [done|]. intros g' gr' [->|Hin]%elem_of_cons Hgr'; [congruence|by apply (Hpre g')].
    + intros g' gr' [->|Hin]%elem_of_cons Hgr'; [congruence|by apply (Hr g')].
Qed.

Lemma wp_mgr_rdlock c (Q : rtr_mgr_config HT → world E → Prop) w :
  mutex c = Unlocked → Q (set_mutex c (ReadLocked 0)) w → wp (rdlock_config c) Q w.
Proof. intros Hm HQ. unfold rdlock_config. wp_step. eapply wp_of_option; [by rewrite Hm|]. by wp_step. Qed.
Lemma wp_mgr_unlock c l (Q : rtr_mgr_config HT → world E → Prop) w :
  unlock (mutex c) = Some l → Q (set_mutex c l) w → wp (unlock_config c) Q w.
Proof. intros Hm HQ. unfold unlock_config. wp_step. eapply wp_of_option; [exact Hm|]. by wp_step. Qed.

Lemma set_mutex_twice c l l' : mutex c = l' → set_mutex (set_mutex c l) l' = c.
Proof. intros <-. by destruct c. Qed.

Lemma group_list_ok c gs t : mgr_ok c gs t → group_list c = Some gs.
Proof. intros (Hg & _). unfold group_list. by rewrite Hg. Qed.

Lemma mgr_ok_groups c gs t g : mgr_ok c gs t → g ∈ gs → is_Some (group_at c !! g).
Proof. intros (_ & _ & _ & _ & Ho & _) Hg. destruct (Ho g Hg) as (gr & (Hgr & _) & _). by eexists. Qed.

Lemma all_error_spec c gs t g gr w (Q : bool * rtr_mgr_config HT → world E → Prop) :
  mgr_ok c gs t → owned c g gr →
  (∀ b, (b = true ↔ preferred_down c gs g gr) → Q (b, c) w) → wp (all_error c g) Q w.
Proof.
  intros Hok Ho HQ. pose proof Hok as (_ & _ & Hmu & _). unfold all_error. wp_step. apply wp_mgr_rdlock; [done|]. wp_step.
  change (group_list (set_mutex c _)) with (group_list c). rewrite (group_list_ok _ _ _ Hok). wp_step. wp_step.
  cbn [group_at set_mutex]. rewrite (proj1 Ho). wp_step. wp_step.
  destruct (find_group_spec (set_mutex c (ReadLocked 0)) (λ g' gr', bool_decide (g' ≠ g) && bool_decide (status gr' ≠ RTR_MGR_ERROR) &&
    bool_decide (status gr' ≠ RTR_MGR_CLOSED) && (preference gr' <? preference gr)) gs) as (r & -> & Hr).
  { intros g' Hg'. by apply (mgr_ok_groups c gs t). }
  wp_step. wp_step. eapply wp_mgr_unlock; [done|]. wp_step. rewrite set_mutex_twice by done. apply HQ. cbn [group_at set_mutex] in Hr.
  unfold preferred_down. rewrite negb_true_iff, bool_decide_eq_false, Forall_forall. destruct r as [g1|].
  - split; [intros Hn; by destruct Hn; eexists|]. intros Hall. destruct Hr as (pre & post & gr1 & -> & Hg1 & Hf & _).
    specialize (Hall g1). rewrite Hg1 in Hall. rewrite !andb_true_iff, !bool_decide_eq_true, Z.ltb_lt in Hf.
    exfalso. destruct Hall as [?|[?|[?|?]]]; [apply elem_of_app; right; left|tauto|lia|tauto|tauto].
  - split; [|by intros _ [? ?]]. intros _ g' Hg'. destruct (mgr_ok_groups _ _ _ _ Hok Hg') as [gr' Hgr']. rewrite Hgr'.
    specialize (Hr g' gr' Hg' Hgr'). rewrite !andb_false_iff, !bool_decide_eq_false, Z.ltb_ge in Hr.
    destruct (decide (g' = g)), (decide (status gr' = RTR_MGR_ERROR)), (decide (status gr' = RTR_MGR_CLOSED)); tauto || auto.
Qed.

Lemma close_less_spec c gs t g gr p (Q : rtr_mgr_config HT → world E → Prop) w :
  mgr_ok c gs t → owned c g gr → no_fail w →
  (∀ c' evs w', closes c (victims c g (preference gr) gs) c' → runs w evs w' → Q c' w') →
  wp (rtr_mgr_close_less_preferable_groups c g p) Q w.
Proof.
  intros Hok Ho Hnf HQ. pose proof Hok as (_ & _ & Hmu & Hso & Hown & _ & Ht & Htok).
  unfold rtr_mgr_close_less_preferable_groups. wp_step. apply wp_mgr_rdlock; [done|]. wp_step.
  change (group_list (set_mutex c _)) with (group_list c). rewrite (group_list_ok _ _ _ Hok). wp_step. wp_step.
  cbn [group_at set_mutex]. rewrite (proj1 Ho). wp_step. wp_step. set (c1 := set_mutex c (ReadLocked 0)).
  eapply wp_mono; [apply (close_groups_spec gs c1 g (preference gr) p t)|]; try done.
  - intros g' Hg'. destruct (Hown g' Hg') as (gr' & Hgr' & _). by exists gr'.
  - by eapply sorted_nodup.
  - intros c2 w2 (Hcl & evs & Hw2). pose proof Hcl as ((Hg2 & Hl2 & Hmu2 & Hf2 & Hn2 & Hof2) & Hga2 & Hs2 & Ht2).
    eapply wp_mgr_unlock; [by rewrite Hmu2|]. apply (HQ _ evs); [|done]. by split.
Qed.

Context (once_ok : bool) (new_thread : socket_ptr → option Z) (cb : fn_ptr).

(** A socket of the group [g] has established its session. *)
Lemma established_spec c gs t g gr p w :
  mgr_ok c gs t → owned c g gr → p ∈ sockets gr → no_fail w →
  wp (rtr_mgr_cb once_ok new_thread c p RTR_ESTABLISHED) (λ c' w', (∃ evs, runs w evs w') ∧
    if decide (promoted c gs g gr)
    then closes (put_group c g (with_status gr RTR_MGR_ESTABLISHED)) (victims c g (preference gr) gs) c'
    else c' = c) w.
Proof.
  intros Hok Ho Hp Hnf. pose proof Ho as (Hg & _ & Hps). destruct (Hps p Hp) as (s & _ & _ & Hof).
  unfold rtr_mgr_cb. rewrite Hof. unfold rtr_mgr_cb_state_established. rewrite Hg. wp_step. wp_step.
  destruct (is_synced_spec c g gr Ho) as (b & Hb & Hsy).
  set (c1 := put_group c g (with_status gr RTR_MGR_ESTABLISHED)).
  assert (put_group c g (with_status gr (status gr)) = c) as Hsame.
  { rewrite with_status_same. unfold put_group. rewrite insert_id by done. by destruct c. }
  assert (promoted c gs g gr → wp (c ← set_status c g RTR_MGR_ESTABLISHED (Some p); rtr_mgr_close_less_preferable_groups c g p)
    (λ c' w', (∃ evs, runs w evs w') ∧ if decide (promoted c gs g gr)
      then closes c1 (victims c g (preference gr) gs) c' else c' = c) w) as Hyes.
  { intros Hpr. wp_step. eapply set_status_spec; [done|]. intros w1 Hw1%runs_talks. fold c1.
    assert (owned c1 g (with_status gr RTR_MGR_ESTABLISHED)) as Ho1.
    { pose proof (owned_put c g gr g gr RTR_MGR_ESTABLISHED Ho Ho) as Ho1. by rewrite decide_True in Ho1. }
    apply (close_less_spec c1 gs t g (with_status gr RTR_MGR_ESTABLISHED) p); [by apply mgr_ok_put|done|by eapply runs_no_fail|].
    intros c' evs w' Hcl Hw'. split; [eexists; by eapply runs_trans|]. rewrite decide_True by done.
    assert (victims c1 g (preference gr) gs = victims c g (preference gr) gs) as <-; [|done].
    apply filter_bool_ext. intros g' _. unfold is_victim, c1. simpl. destruct (decide (g' = g)) as [->|Hne].
    - rewrite lookup_insert_eq, Hg. rewrite !(bool_decide_false (g ≠ g)) by (intros Hn; by apply Hn).
      by rewrite !andb_false_r.
    - by rewrite lookup_insert_ne. }
  assert (∀ st, status gr = st → ¬ promoted c gs g gr → wp (set_status c g st (Some p)) (λ c' w', (∃ evs, runs w evs w') ∧
      if decide (promoted c gs g gr) then closes c1 (victims c g (preference gr) gs) c' else c' = c) w) as Hno.
  { intros st <- Hpr. eapply set_status_spec; [done|]. intros w1 Hw1%runs_talks. split; [by eexists|].
    by rewrite decide_False. }
  destruct (status gr) eqn:Hst.
  - wp_step. split; [eexists; apply runs_refl|]. rewrite decide_False; [done|]. unfold promoted. intuition congruence.
  - rewrite Hb. wp_step. wp_step. destruct b; [apply Hyes|apply Hno; [done|]]; unfold promoted; intuition congruence.
  - wp_step. split; [eexists; apply runs_refl|]. rewrite decide_False; [done|]. unfold promoted. intuition congruence.
  - wp_step. eapply all_error_spec; [done|done|]. intros b2 Hb2. destruct b2.
    + wp_step. rewrite Hb. wp_step. destruct b; [apply Hyes|apply Hno; [done|]]; unfold promoted; intuition congruence.
    + wp_step. wp_step. apply Hno; [done|]. unfold promoted. intuition congruence.
Qed.

(** ** Starting a group *)

(** Every socket of the group can get a thread. *)
Definition can_start c gr : Prop :=
  once_ok = true ∧ Forall (λ p, match socket_at c !! p with Some s => thread_id s = 0 | None => False end ∧
    is_Some (new_thread p)) (sockets gr).

Definition launched (p : socket_ptr) (s : rtr_socket) : rtr_socket := set_thread_id s (default 0 (new_thread p)).

(** The sockets [ps] have got threads. *)
Definition starts c (ps : list socket_ptr) c' : Prop :=
  same_config c c' ∧ group_at c' = group_at c ∧ mgr_tables c' = mgr_tables c ∧
  ∀ p, socket_at c' !! p = (if decide (p ∈ ps) then launched p else id) <$> socket_at c !! p.

Lemma starts_same c : starts c [] c.
Proof. split; [done|]. split; [done|]. split; [done|]. intros p. by rewrite option_fmap_id. Qed.

Lemma starts_cons c p s qs c2 :
  socket_at c !! p = Some s → p ∉ qs → starts (put_socket c p (launched p s)) qs c2 → starts c (p :: qs) c2.
Proof.
  intros Hs Hp (Hc & Hga & Ht & Hsock). split; [done|]. split; [done|]. split; [done|]. intros q. rewrite Hsock. simpl.
  destruct (decide (q = p)) as [->|Hne].
  - rewrite lookup_insert_eq, Hs, decide_False, decide_True by (done || left). done.
  - rewrite lookup_insert_ne by done. destruct (socket_at c !! q); [|done]. simpl. f_equal.
    repeat case_decide; rewrite elem_of_cons in *; tauto || done.
Qed.

Lemma put_socket_id c p s : socket_at c !! p = Some s → put_socket c p s = c.
Proof. intros Hs. unfold put_socket. rewrite insert_id by done. by destruct c. Qed.

(** The sockets up to the first one that runs already are started. *)
Lemma start_sockets_any ps c w :
  once_ok = true → no_fail w → NoDup ps → (∀ p, p ∈ ps → is_Some (socket_at c !! p) ∧ is_Some (new_thread p)) →
  wp (start_sockets once_ok new_thread c ps) (λ '(ok, c') w', emits w [] w' ∧
    ∃ qs, qs ⊆ ps ∧ starts c qs c' ∧ (ok = true → qs = ps) ∧
      (ok = false → Exists (λ p, is_running <$> socket_at c !! p = Some true) ps)) w.
Proof.
  intros Honce. revert c w. induction ps as [|p ps IH]; intros c w Hnf Hnd Hps; cbn [start_sockets].
  { wp_step. split; [apply emits_refl|]. exists []. split; [done|]. split; [apply starts_same|done]. }
  apply NoDup_cons in Hnd as [Hnp Hnd]. destruct (Hps p) as [[s Hs] [id Hid]]; [left|]. rewrite Hs, Hid. wp_step. wp_step. wp_step.
  unfold rtr_start. assert (negb once_ok = false) as -> by by rewrite Honce. destruct (Z.eqb_spec (thread_id s) 0) as [Hth|Hth].
  2:{ simpl negb. cbv iota. wp_step. rewrite put_socket_id by done. simpl. wp_step. split; [apply emits_refl|]. exists [].
      split; [apply list_subseteq_nil|]. split; [apply starts_same|]. split; [done|].
      intros _. left. rewrite Hs. unfold is_running. simpl. destruct (Z.eqb_spec (thread_id s) 0); done. }
  simpl negb. cbv iota. wp_step. apply wp_alloc. intros ok w1 Hw1 Hal. destruct ok; [|by destruct (Hal eq_refl)].
  simpl negb. cbv iota. wp_step. cbv zeta. simpl Z.eqb. simpl negb. cbv iota.
  assert (set_thread_id s id = launched p s) as -> by (unfold launched; by rewrite Hid).
  assert (∀ q, q ∈ ps → socket_at (put_socket c p (launched p s)) !! q = socket_at c !! q) as Hsame.
  { intros q Hq. simpl. rewrite lookup_insert_ne; [done|]. by intros ->. }
  eapply wp_mono; [apply (IH (put_socket c p (launched p s)) w1); [by eapply emits_no_fail|done|]|].
  - intros q Hq. rewrite Hsame by done. apply Hps. by right.
  - intros [ok c2] w2 (Hw2 & qs & Hqs & Hst & Hyes & Hno). split; [by eapply emits_quiet|]. exists (p :: qs).
    split; [set_solver|]. split; [eapply starts_cons; [done|set_solver|done]|]. split; [intros Hok; by rewrite Hyes|].
    intros Hok. right. specialize (Hno Hok). rewrite Exists_exists in *. destruct Hno as (q & Hq & Hr). exists q. by rewrite <- Hsame.
Qed.

Lemma start_sockets_spec ps c w :
  once_ok = true → no_fail w → NoDup ps →
  (∀ p, p ∈ ps → (∃ s, socket_at c !! p = Some s ∧ thread_id s = 0) ∧ is_Some (new_thread p)) →
  wp (start_sockets once_ok new_thread c ps) (λ '(ok, c') w', ok = true ∧ starts c ps c' ∧ emits w [] w') w.
Proof.
  intros Honce Hnf Hnd Hps. eapply wp_mono; [apply start_sockets_any; try done|].
  - intros p Hp. destruct (Hps p Hp) as [(s & Hs & _) ?]. split; [by eexists|done].
  - intros [ok c'] w' (Hw & qs & _ & Hst & Hyes & Hno). destruct ok; [by rewrite <- Hyes|].
    exfalso. apply Exists_exists in Hno as (p & Hp & Hr); [|done]. destruct (Hps p Hp) as [(s & Hs & Hth) _].
    rewrite Hs in Hr. unfold is_running in Hr. simpl in Hr. by rewrite Hth in Hr.
Qed.

(** The group [g] was started. *)
Definition launches c g gr c' : Prop :=
  same_config c c' ∧ group_at c' = <[g := with_status gr RTR_MGR_CONNECTING]> (group_at c) ∧
  mgr_tables c' = mgr_tables c ∧
  ∀ p, socket_at c' !! p = (if decide (p ∈ sockets gr) then launched p else id) <$> socket_at c !! p.

Lemma start_group_spec c g gr w :
  owned c g gr → can_start c gr → no_fail w →
  wp (rtr_mgr_start_sockets once_ok new_thread c g) (λ '(rv, c') w', rv = RTR_SUCCESS ∧ launches c g gr c' ∧ emits w [] w') w.
Proof.
  intros (Hg & Hnd & Hps) [Honce Hcan] Hnf. unfold rtr_mgr_start_sockets. rewrite Hg. wp_step. wp_step. wp_step.
  rewrite Forall_forall in Hcan. eapply wp_mono; [apply start_sockets_spec; try done|].
  - intros p Hp. destruct (Hcan p Hp) as [Hs Hid]. split; [|done]. destruct (socket_at c !! p); [by eexists|done].
  - intros [ok c1] w1 (-> & (Hc1 & Hga1 & Ht1 & Hs1) & Hw1). cbv beta iota. rewrite Hga1, Hg. wp_step. wp_step. wp_step.
    split; [done|]. split; [|done]. split; [done|]. split; [by simpl; rewrite Hga1|done].
Qed.

Lemma owned_launches c g gr c' g' gr' :
  launches c g gr c' → owned c g gr → owned c g' gr' → ∃ st, owned c' g' (with_status gr' st).
Proof.
  intros ((_ & _ & _ & _ & _ & Hof) & Hga & _ & Hs) (Hg & _) (Hg' & Hnd & Hps).
  assert (∀ p, p ∈ sockets gr' → ∃ s, socket_at c' !! p = Some s ∧ self s = p ∧ group_of c' !! p = Some g') as Hps'.
  { intros p Hp. destruct (Hps p Hp) as (s & Hsp & Hself & Hofp). rewrite Hs, Hsp, Hof. eexists. split; [done|].
    split; [|done]. by destruct (decide (p ∈ sockets gr)). }
  destruct (decide (g' = g)) as [->|Hne].
  - simplify_eq. exists RTR_MGR_CONNECTING. split; [by rewrite Hga, lookup_insert_eq|done].
  - exists (status gr'). rewrite with_status_same. split; [by rewrite Hga, lookup_insert_ne|done].
Qed.

Lemma mgr_ok_launches c gs t g gr c' : mgr_ok c gs t → owned c g gr → launches c g gr c' → mgr_ok c' gs t.
Proof.
  intros Hok Ho Hl. pose proof Hl as ((Hg & Hlen & Hmu & _ & Hn & _) & Hga & Ht & _).
  pose proof Hok as (_ & _ & Hmu0 & _ & _ & _ & Ht0 & Htok). eapply mgr_ok_frame; try done; try congruence.
  - intros g'. rewrite Hga. destruct (decide (g' = g)) as [->|Hne].
    + exists (λ _, RTR_MGR_CONNECTING). rewrite lookup_insert_eq. by rewrite (proj1 Ho).
    + exists status. rewrite lookup_insert_ne by done. destruct (group_at c !! g') as [gr'|]; [|done]. simpl.
      by rewrite with_status_same.
  - intros g' gr' _ Ho'. by eapply owned_launches.
Qed.

(** ** A socket fails *)

Definition status_of c g : option rtr_mgr_status := status <$> group_at c !! g.

(** The group to start when a socket of [g] failed: none if a group is established, and
    else the most preferable one that is closed. *)
Definition failover c (gs : list group_ptr) g : option group_ptr :=
  if decide (Exists (λ g', status_of c g' = Some RTR_MGR_ESTABLISHED) gs) then None
  else head (filter (λ g', g' ≠ g ∧ status_of c g' = Some RTR_MGR_CLOSED) gs).

Lemma some_established_spec c gs t (Q : bool * rtr_mgr_config HT → world E → Prop) w :
  mgr_ok c gs t →
  Q (bool_decide (Exists (λ g', status_of c g' = Some RTR_MGR_ESTABLISHED) gs), c) w →
  wp (is_some_rtr_mgr_group_established c) Q w.
Proof.
  intros Hok HQ. pose proof Hok as (_ & _ & Hmu & _). unfold is_some_rtr_mgr_group_established. wp_step.
  apply wp_mgr_rdlock; [done|]. wp_step. change (group_list (set_mutex c _)) with (group_list c).
  rewrite (group_list_ok _ _ _ Hok). wp_step. wp_step.
  destruct (find_group_spec (set_mutex c (ReadLocked 0)) (λ _ gr, bool_decide (status gr = RTR_MGR_ESTABLISHED)) gs)
    as (r & -> & Hr); [intros g' Hg'; by apply (mgr_ok_groups c gs t)|]. cbn [group_at set_mutex] in Hr.
  wp_step. wp_step. eapply wp_mgr_unlock; [done|]. wp_step. rewrite set_mutex_twice by done.
  replace (bool_decide (is_Some r)) with (bool_decide (Exists (λ g', status_of c g' = Some RTR_MGR_ESTABLISHED) gs)); [done|].
  apply bool_decide_ext. rewrite Exists_exists. unfold status_of. destruct r as [g1|].
  - split; [by eexists|]. intros _. destruct Hr as (pre & post & gr & -> & Hg & Hf%bool_decide_eq_true & _).
    exists g1. rewrite Hg. simpl. rewrite Hf. split; [apply elem_of_app; right; left|done].
  - split; [|by intros [? ?]]. intros (g1 & Hin & Hst). destruct (group_at c !! g1) as [gr|] eqn:Hg; [|done].
    specialize (Hr g1 gr Hin Hg). rewrite bool_decide_eq_false in Hr. simpl in Hst. congruence.
Qed.

Lemma best_inactive_spec c gs t g (Q : option group_ptr * rtr_mgr_config HT → world E → Prop) w :
  mgr_ok c gs t →
  Q (head (filter (λ g', g' ≠ g ∧ status_of c g' = Some RTR_MGR_CLOSED) gs), c) w →
  wp (get_best_inactive_rtr_mgr_group c g) Q w.
Proof.
  intros Hok HQ. pose proof Hok as (_ & _ & Hmu & _). unfold get_best_inactive_rtr_mgr_group. wp_step.
  apply wp_mgr_rdlock; [done|]. wp_step. change (group_list (set_mutex c _)) with (group_list c).
  rewrite (group_list_ok _ _ _ Hok). wp_step. wp_step.
  destruct (find_group_spec (set_mutex c (ReadLocked 0))
    (λ g' gr, bool_decide (g' ≠ g) && bool_decide (status gr = RTR_MGR_CLOSED)) gs)
    as (r & -> & Hr); [intros g' Hg'; by apply (mgr_ok_groups c gs t)|]. cbn [group_at set_mutex] in Hr.
  wp_step. wp_step. eapply wp_mgr_unlock; [done|]. wp_step. rewrite set_mutex_twice by done.
  assert (∀ g' gr', group_at c !! g' = Some gr' → bool_decide (g' ≠ g) && bool_decide (status gr' = RTR_MGR_CLOSED) = false →
    ¬ (g' ≠ g ∧ status_of c g' = Some RTR_MGR_CLOSED)) as Hnot.
  { intros g' gr' Hg'. unfold status_of. rewrite Hg'. simpl. rewrite andb_false_iff, !bool_decide_eq_false. intuition congruence. }
  assert (∀ l, (∀ g', g' ∈ l → g' ∈ gs) → (∀ g' gr', g' ∈ l → group_at c !! g' = Some gr' →
    bool_decide (g' ≠ g) && bool_decide (status gr' = RTR_MGR_CLOSED) = false) →
    filter (λ g', g' ≠ g ∧ status_of c g' = Some RTR_MGR_CLOSED) l = []) as Hnone.
  { intros l Hl Hf. apply filter_none. intros g' Hg'. destruct (mgr_ok_groups _ _ _ g' Hok (Hl _ Hg')) as [gr' Hgr'].
    by eapply Hnot, Hf. }
  destruct r as [g1|].
  - destruct Hr as (pre & post & gr1 & Hgs & Hg1 & Hf & Hpre). rewrite Hgs, filter_app, Hnone in HQ; [|rewrite Hgs; set_solver|done].
    simpl app in HQ. rewrite filter_cons_True in HQ; [done|]. apply andb_true_iff in Hf as [Hne%bool_decide_eq_true Hst%bool_decide_eq_true].
    split; [done|]. unfold status_of. rewrite Hg1. simpl. by rewrite Hst.
  - rewrite Hnone in HQ; done.
Qed.

(** The states that mean an error. *)
Definition is_mgr_error (st : rtr_socket_state) : Prop :=
  st = RTR_ERROR_FATAL ∨ st = RTR_ERROR_TRANSPORT ∨ st = RTR_ERROR_NO_DATA_AVAIL.

Lemma error_spec c gs t g gr p st w :
  mgr_ok c gs t → owned c g gr → p ∈ sockets gr → is_mgr_error st → no_fail w →
  let c1 := put_group c g (with_status gr RTR_MGR_ERROR) in
  (∀ g' gr', failover c1 gs g = Some g' → group_at c !! g' = Some gr' → can_start c gr') →
  wp (rtr_mgr_cb once_ok new_thread c p st) (λ c' w', runs w (status_told c g RTR_MGR_ERROR (Some p)) w' ∧ mgr_ok c' gs t ∧
    match failover c1 gs g with
    | Some g' => ∃ gr', group_at c !! g' = Some gr' ∧ launches c1 g' gr' c'
    | None => c' = c1
    end) w.
Proof.
  intros Hok Ho Hp Hst Hnf c1 Hcan. pose proof Ho as (Hg & _ & Hps). destruct (Hps p Hp) as (s & _ & _ & Hof).
  assert (mgr_ok c1 gs t) as Hok1 by by apply mgr_ok_put.
  unfold rtr_mgr_cb. rewrite Hof.
  cut (wp (rtr_mgr_cb_state_error once_ok new_thread c g p) (λ c' w', runs w (status_told c g RTR_MGR_ERROR (Some p)) w' ∧ mgr_ok c' gs t ∧
    match failover c1 gs g with
    | Some g' => ∃ gr', group_at c !! g' = Some gr' ∧ launches c1 g' gr' c'
    | None => c' = c1
    end) w); [by destruct Hst as [-> |[-> | ->]]|].
  unfold rtr_mgr_cb_state_error. wp_step. eapply set_status_spec; [done|]. intros w1 Hw1%runs_talks. fold c1. wp_step.
  eapply some_established_spec; [done|]. cbv beta iota. unfold failover in *.
  destruct (decide (Exists _ gs)) as [He|Hne].
  { rewrite bool_decide_true by done. wp_step. done. }
  rewrite bool_decide_false by done. wp_step. eapply best_inactive_spec; [done|]. cbv beta iota.
  destruct (head (filter _ gs)) as [g'|] eqn:Hh; [|by wp_step].
  assert (g' ≠ g ∧ g' ∈ gs) as [Hne' Hin].
  { apply head_Some in Hh as [l' Hl']. assert (g' ∈ filter (λ g', g' ≠ g ∧ status_of c1 g' = Some RTR_MGR_CLOSED) gs) as Hf
      by (rewrite Hl'; left). apply list_elem_of_filter in Hf. tauto. }
  pose proof Hok as (_ & _ & _ & _ & Hown & _). destruct (Hown g' Hin) as (gr' & Ho' & _).
  assert (owned c1 g' gr') as Ho1.
  { pose proof (owned_put c g gr g' gr' RTR_MGR_ERROR Ho Ho') as Ho1. by rewrite decide_False, with_status_same in Ho1. }
  wp_step. eapply wp_mono; [apply start_group_spec; [exact Ho1| |by eapply runs_no_fail]|].
  { apply (Hcan g' gr'); [done|apply Ho']. }
  intros [rv c2] w2 (_ & Hl & Hw2). cbv beta iota. wp_step.
  split; [rewrite <- (app_nil_r (status_told _ _ _ _)); eapply runs_trans; [done|by apply runs_emits]|].
  split; [by eapply mgr_ok_launches|]. exists gr'. split; [apply Ho'|done].
Qed.

End Mgr.
