(* ===== verification/RtrMgrGroups.v ===== *)
(** * The manager of groups of caches: adding and removing groups *)

From Stdlib Require Import String.
From S2P Require Import Prelude Ip PfxTable PfxTableProofs PfxTableBulk Hashlin Spki SpkiProofs SetOps.
From S2P Require Import AspaArray Aspa AspaUpdate AspaVerification AspaVerificationProofs.
From S2P Require Import AspaUpdateProofs AspaTheorems AspaSwapIn AspaReplace.
From S2P Require Import Pdu PduProofs PduTheorems Transport TransportProofs Socket Packets PacketsProofs ReceiveProofs.
From S2P Require Import Update UpdateProofs UpdateInstances AspaPdus SyncUpdate Sync SyncProofs SyncReset.
From S2P Require Import Rtr RtrProofs FsmProofs TommyList TommyListProofs RtrMgr RtrMgrProofs.
Open Scope Z_scope.

(** ** Sorting *)

Definition cmp_groups (a b : nat * rtr_mgr_group) : Z := rtr_mgr_config_cmp a.2 b.2.

#[global] Instance cmp_groups_compares : Compares cmp_groups.
Proof.
  split; unfold cmp_groups, rtr_mgr_config_cmp; intros; repeat case_match; lia.
Qed.

Section Groups.
Context `{Build} `{Host} {E HT : Type} `{!HashTable E HT key_entry} `{!HashTableSpec E HT key_entry}.
Context `{!Event pfx_event E} `{!Event spki_event E} `{!Event aspa_event E}.
Context `{!Event tr_event E} `{!Event rtr_event E} `{!Event mgr_event E}.
Implicit Types (c : rtr_mgr_config HT) (g : group_ptr) (gs : list group_ptr) (p : socket_ptr) (w : world E) (gr : rtr_mgr_group).

Lemma sort_list_spec c gs :
  (∀ g, g ∈ gs → is_Some (group_at c !! g)) → NoDup (preference_of c <$> gs) → Z.of_nat (length gs) < 2 ^ 32 →
  ∃ gs', sort_list c gs = Some gs' ∧ gs' ≡ₚ gs ∧ StronglySorted (λ g g', preference_of c g < preference_of c g') gs'.
Proof.
  intros Hgs Hnd Hlen. unfold sort_list.
  assert (∃ l, mapM (λ g, gr ← group_at c !! g; Some (g, gr)) gs = Some l ∧ l.*1 = gs ∧
    Forall (λ x, preference x.2 = preference_of c x.1) l) as (l & -> & Hl & Hpref).
  { clear Hnd Hlen. induction gs as [|g gs IH]; [by exists []|]. destruct (Hgs g) as [gr Hg]; [left|].
    destruct IH as (l & Hl & Hl1 & Hl2); [intros g' Hg'; apply Hgs; by right|]. simpl. rewrite Hg. simpl. rewrite Hl.
    exists ((g, gr) :: l). split; [done|]. split; [by rewrite fmap_cons, Hl1|]. constructor; [|done]. simpl. unfold preference_of. by rewrite Hg. }
  destruct (list_sort_spec cmp_groups l) as (l' & Hs & Hasc & Hp & _).
  { by rewrite <- (length_fmap fst), Hl. }
  cbn [mbind option_bind]. change (λ a b : nat * rtr_mgr_group, rtr_mgr_config_cmp a.2 b.2) with cmp_groups. rewrite Hs.
  exists l'.*1. split; [done|]. split; [by rewrite Hp, Hl|].
  assert (NoDup (preference_of c <$> l'.*1)) as Hnd' by by rewrite Hp, Hl.
  rewrite <- Hp in Hpref. clear -Hasc Hpref Hnd'. induction Hasc as [|x l Hl IH Hx]; [constructor|].
  rewrite Forall_cons in Hpref. destruct Hpref as [Hpx Hpl]. simpl in Hnd'. apply NoDup_cons in Hnd' as [Hnx Hnd'].
  simpl. constructor; [by apply IH|]. apply Forall_forall. intros g (y & -> & Hy)%list_elem_of_fmap.
  rewrite Forall_forall in Hx, Hpl. specialize (Hx y Hy). specialize (Hpl y Hy). unfold le, cmp_groups, rtr_mgr_config_cmp in Hx.
  assert (preference_of c x.1 ≠ preference_of c y.1) as Hne.
  { intros Heq. apply Hnx. rewrite Heq. apply list_elem_of_fmap. exists y.1. split; [done|]. by apply list_elem_of_fmap_2. }
  repeat case_match; lia.
Qed.

(** ** Initialising sockets *)

Context (cb : fn_ptr).

Definition intervals_valid (refresh expire retry : Z) : Prop :=
  in_range refresh RTR_REFRESH_MIN RTR_REFRESH_MAX ∧ in_range expire RTR_EXPIRATION_MIN RTR_EXPIRATION_MAX ∧
  in_range retry RTR_RETRY_MIN RTR_RETRY_MAX.

Definition initialised (refresh expire retry : Z) (mode : rtr_interval_mode) (s : rtr_socket) : rtr_socket :=
  (rtr_init s refresh expire retry mode (Some cb)).2.

Lemma init_success s refresh expire retry mode :
  intervals_valid refresh expire retry →
  rtr_init s refresh expire retry mode (Some cb) = (RTR_SUCCESS, initialised refresh expire retry mode s) ∧
  self (initialised refresh expire retry mode s) = self s ∧ thread_id (initialised refresh expire retry mode s) = 0 ∧
  refresh_interval (initialised refresh expire retry mode s) = refresh ∧
  expire_interval (initialised refresh expire retry mode s) = expire ∧
  retry_interval (initialised refresh expire retry mode s) = retry.
Proof.
  intros (H1 & H2 & H3). unfold initialised, rtr_init. unfold in_range in *.
  assert (∀ v a b, a <= v <= b → rtr_check_interval_range v a b = RTR_INSIDE_INTERVAL_RANGE) as Hin.
  { intros v a b Hv. unfold rtr_check_interval_range. repeat case_match; lia || done. }
  rewrite !Hin by done. done.
Qed.

(** The sockets [ps] now belong to the group [g]. *)
Definition inits c g (ps : list socket_ptr) (f : rtr_socket → rtr_socket) c' : Prop :=
  groups c' = groups c ∧ len c' = len c ∧ mutex c' = mutex c ∧ status_fp c' = status_fp c ∧ next_group c' = next_group c ∧
  group_at c' = group_at c ∧ mgr_tables c' = mgr_tables c ∧
  (∀ p, socket_at c' !! p = (if decide (p ∈ ps) then f else id) <$> socket_at c !! p) ∧
  (∀ p, group_of c' !! p = if decide (p ∈ ps) then Some g else group_of c !! p).

Lemma init_sockets_spec ps c g t refresh expire retry mode w :
  NoDup ps → (∀ p, p ∈ ps → is_Some (socket_at c !! p)) → mgr_tables c = Some t → intervals_valid refresh expire retry →
  wp (init_sockets cb c g ps refresh expire retry mode) (λ '(rv, c') w', rv = RTR_SUCCESS ∧
    inits c g ps (initialised refresh expire retry mode) c' ∧ w' = w) w.
Proof.
  intros Hnd Hps Ht Hiv. revert c Hps Ht. induction ps as [|p ps IH]; intros c Hps Ht; cbn [init_sockets].
  { wp_step. split; [done|]. split; [|done]. split_and!; try done. intros p. by rewrite option_fmap_id. }
  apply NoDup_cons in Hnd as [Hnp Hnd]. destruct (Hps p) as [s Hs]; [left|]. rewrite Hs, Ht. wp_step. wp_step. wp_step. wp_step.
  destruct (init_success s refresh expire retry mode Hiv) as (-> & _). simpl Z.eqb. simpl negb. cbv iota.
  set (s1 := initialised _ _ _ _ s). set (c1 := set_socket_at c _ _).
  eapply wp_mono; [apply (IH Hnd c1)|].
  - intros q Hq. simpl. destruct (decide (q = p)) as [->|Hne]; [rewrite lookup_insert_eq; by eexists|].
    rewrite lookup_insert_ne by done. apply Hps. by right.
  - done.
  - intros [rv c2] w2 (-> & (Hi1 & Hi2 & Hi3 & Hi4 & Hi5 & Hi6 & Hi7 & Hsock & Hgof) & ->). split; [done|]. split; [|done].
    split_and!; try done.
    + intros q. rewrite Hsock. simpl. destruct (decide (q = p)) as [->|Hne].
      * rewrite lookup_insert_eq, Hs, decide_False, decide_True by (done || left). done.
      * rewrite lookup_insert_ne by done. destruct (socket_at c !! q); [|done]. simpl. f_equal.
        repeat case_decide; rewrite elem_of_cons in *; tauto || done.
    + intros q. rewrite Hgof. simpl. destruct (decide (q = p)) as [->|Hne].
      * rewrite lookup_insert_eq, decide_False, decide_True by (done || left). done.
      * rewrite lookup_insert_ne by done. repeat case_decide; rewrite elem_of_cons in *; tauto || done.
Qed.

(** ** Adding a group *)

(** The sockets of the groups [gs] have valid intervals, and those of closed groups no
    thread. *)
Definition sockets_settled c (gs : list group_ptr) : Prop :=
  ∀ g gr p s, g ∈ gs → group_at c !! g = Some gr → p ∈ sockets gr → socket_at c !! p = Some s →
    intervals_valid (refresh_interval s) (expire_interval s) (retry_interval s) ∧
    (status gr = RTR_MGR_CLOSED → thread_id s = 0).

Definition first_socket c (g : group_ptr) : option rtr_socket :=
  gr ← group_at c !! g; p ← head (sockets gr); socket_at c !! p.

(** The intervals of the first socket of the last group, in the order in which
    [rtr_mgr_add_group] keeps them. *)
Definition latest_intervals c (gs : list group_ptr) (preset : Z * Z * Z) : Z * Z * Z :=
  match g ← last gs; first_socket c g with
  | Some s => (refresh_interval s, retry_interval s, expire_interval s)
  | None => preset
  end.

Lemma other_intervals_spec c gs pref refresh retry expire :
  (∀ g, g ∈ gs → ∃ gr, owned c g gr ∧ sockets gr ≠ []) → sockets_settled c gs → intervals_valid refresh expire retry →
  if decide (pref ∈ preference_of c <$> gs) then other_intervals c gs pref refresh retry expire = Some None
  else ∃ r y e, other_intervals c gs pref refresh retry expire = Some (Some (r, y, e)) ∧ intervals_valid r e y ∧
    (r, y, e) = latest_intervals c gs (refresh, retry, expire).
Proof.
  revert refresh retry expire. induction gs as [|g gs IH]; intros refresh retry expire Hown Hset Hiv.
  { rewrite decide_False by apply not_elem_of_nil. by eexists _, _, _. }
  destruct (Hown g) as (gr & Ho & Hne); [left|]. pose proof Ho as (Hg & _ & Hps). cbn [other_intervals]. rewrite Hg. simpl.
  assert (preference_of c g = preference gr) as Hpg by (unfold preference_of; by rewrite Hg).
  destruct (Z.eqb_spec (preference gr) pref) as [Heq|Hneq].
  { rewrite decide_True; [done|]. apply elem_of_cons. left. by rewrite Hpg. }
  destruct (sockets gr) as [|p ps] eqn:Hsock; [done|]. destruct (Hps p) as (s & Hs & _); [left|]. simpl. rewrite Hs. simpl.
  destruct (Hset g gr p s) as [Hsv _]; [left|done|rewrite Hsock; left|done|].
  assert (∀ g', g' ∈ gs → ∃ gr, owned c g' gr ∧ sockets gr ≠ []) as Hown' by (intros g' Hg'; apply Hown; by right).
  assert (sockets_settled c gs) as Hset' by (intros g' gr' p' s' Hg'; apply Hset; by right).
  assert (intervals_valid (if refresh_interval s =? 0 then refresh else refresh_interval s)
    (if expire_interval s =? 0 then expire else expire_interval s)
    (if retry_interval s =? 0 then retry else retry_interval s)) as Hiv'.
  { destruct Hsv as (H1 & H2 & H3), Hiv as (H4 & H5 & H6). unfold intervals_valid. repeat case_match; done. }
  specialize (IH _ _ _ Hown' Hset' Hiv').
  destruct (decide (pref ∈ preference_of c <$> gs)) as [Hin|Hnin].
  - rewrite decide_True; [done|]. by right.
  - rewrite decide_False; [|intros [->|?]%elem_of_cons; [congruence|done]].
    destruct IH as (r & y & e & Ho' & Hv & Hl). exists r, y, e. split; [done|]. split; [done|]. rewrite Hl. clear -Hg Hsock Hs Hsv Hown'.
    unfold latest_intervals. destruct gs as [|g1 gs].
    + simpl. unfold first_socket. rewrite Hg. simpl. rewrite Hsock. simpl. rewrite Hs. destruct Hsv as (H1 & H2 & H3). unfold in_range in *.
      by rewrite !(proj2 (Z.eqb_neq _ 0)) by (unfold RTR_REFRESH_MIN, RTR_EXPIRATION_MIN, RTR_RETRY_MIN in *; lia).
    + change (last (g :: g1 :: gs)) with (last (g1 :: gs)). destruct (last (g1 :: gs)) as [g2|] eqn:Hlast; [|by apply last_None in Hlast].
      destruct (Hown' g2) as (gr2 & (Hg2 & _ & Hps2) & Hne2); [by apply last_Some_elem_of|]. simpl. unfold first_socket. rewrite Hg2. simpl.
      destruct (sockets gr2) as [|p2 ps2]; [done|]. simpl. by destruct (Hps2 p2) as (s2 & -> & _); [left|].
Qed.

(** A group a client may add: its sockets are in no other group. *)
Definition addable c (gs : list group_ptr) (ng : rtr_mgr_group) : Prop :=
  sockets ng ≠ [] ∧ NoDup (sockets ng) ∧
  ∀ p, p ∈ sockets ng → (∃ s, socket_at c !! p = Some s ∧ self s = p) ∧ p ∉ members c gs.

(** The configuration with a copy of the group, closed, in memory. *)
Definition with_group c (ng : rtr_mgr_group) : rtr_mgr_config HT :=
  set_group_at c (<[next_group c := with_status ng RTR_MGR_CLOSED]> (group_at c)) (S (next_group c)).

(** All groups that are in memory have been handed out. *)
Definition fresh_groups c : Prop := ∀ g, g ∈ dom (group_at c) → (g < next_group c)%nat.

Lemma owned_not_next c gs g : fresh_groups c → (∀ g, g ∈ gs → ∃ gr, owned c g gr) → g ∈ gs → g ≠ next_group c.
Proof.
  intros Hnext Hown Hg ->. destruct (Hown _ Hg) as (gr & Hgr & _).
  assert (next_group c < next_group c)%nat; [|lia]. apply Hnext, elem_of_dom. by eexists.
Qed.

(** The new group owns its sockets, and the others are as they were. *)
Lemma added_owned c gs ng c2 f :
  (∀ g, g ∈ gs → ∃ gr, owned c g gr) → fresh_groups c → addable c gs ng → (∀ s, self (f s) = self s) →
  inits (with_group c ng) (next_group c) (sockets ng) f c2 →
  fresh_groups c2 ∧ owned c2 (next_group c) (with_status ng RTR_MGR_CLOSED) ∧ (∀ g, g ∈ gs → group_at c2 !! g = group_at c !! g) ∧
  (∀ g gr, g ∈ gs → owned c g gr → owned c2 g gr ∧ ∀ p, p ∈ sockets gr → socket_at c2 !! p = socket_at c !! p).
Proof.
  intros Hown Hnext (Hne & Hnd & Hps) Hf (_ & _ & _ & _ & Hi5 & Hi6 & _ & Hsock & Hgof). simpl in *.
  assert (∀ g, g ∈ gs → group_at c2 !! g = group_at c !! g) as Hga.
  { intros g Hg. rewrite Hi6. apply lookup_insert_ne. intros Heq. by apply (owned_not_next c gs g). }
  split; [|split; [|split; [done|]]].
  - intros g. rewrite Hi5, Hi6, dom_insert, elem_of_union, elem_of_singleton. intros [->|Hg]; [lia|]. specialize (Hnext g Hg). lia.
  - split; [by rewrite Hi6, lookup_insert_eq|]. split; [done|]. intros p Hp. destruct (Hps p Hp) as ((s & Hs & Hself) & _).
    exists (f s). simpl in Hp. rewrite Hsock, Hgof, !decide_True, Hs by done. split; [done|]. by rewrite Hf.
  - intros g gr Hg (Hgr & Hnd' & Hps').
    assert (∀ p, p ∈ sockets gr → p ∉ sockets ng) as Hdis.
    { intros p Hp Hp'. destruct (Hps p Hp') as [_ Hn]. apply Hn. apply list_elem_of_bind. exists g. by rewrite Hgr. }
    assert (∀ p, p ∈ sockets gr → socket_at c2 !! p = socket_at c !! p) as Hsame.
    { intros p Hp. rewrite Hsock, decide_False by by apply Hdis. by rewrite option_fmap_id. }
    split; [|done]. split; [by rewrite Hga|]. split; [done|]. intros p Hp.
    destruct (Hps' p Hp) as (s & Hs & Hself & Hof). exists s. rewrite Hsame, Hgof, decide_False by (done || by apply Hdis). done.
Qed.

Lemma mgr_ok_owned c gs t : mgr_ok (E := E) c gs t → ∀ g, g ∈ gs → ∃ gr, owned c g gr.
Proof. intros (_ & _ & _ & _ & Hown & _) g Hg. destruct (Hown g Hg) as (gr & ? & _). by exists gr. Qed.

(** The configuration with the group in the list, before the lock is released. *)
Lemma added_ok c gs t ng c2 f gs' :
  mgr_ok (E := E) c gs t → addable c gs ng → (∀ s, self (f s) = self s) →
  inits (with_group c ng) (next_group c) (sockets ng) f c2 → gs' ≡ₚ next_group c :: gs →
  StronglySorted (λ g g', preference_of c2 g < preference_of c2 g') gs' →
  mgr_ok (E := E) (set_groups c2 (Ptr gs') (len c + 1)) gs' t ∧
  owned c2 (next_group c) (with_status ng RTR_MGR_CLOSED) ∧ (∀ g, g ∈ gs → group_at c2 !! g = group_at c !! g) ∧
  (∀ g gr, g ∈ gs → owned c g gr → owned c2 g gr ∧ ∀ p, p ∈ sockets gr → socket_at c2 !! p = socket_at c !! p).
Proof.
  intros Hok Hadd Hf Hi Hperm Hso. pose proof Hok as (Hgs & Hlen & Hmu & _ & Hown & Hnext & Ht & Htok).
  destruct (added_owned c gs ng c2 f (mgr_ok_owned _ _ _ Hok) Hnext Hadd Hf Hi) as (Hfresh & Hon & Hga & Ho2).
  pose proof Hi as (_ & _ & Hi3 & _ & _ & _ & Hi7 & _). simpl in Hi3.
  split; [|done]. split; [done|]. split; [simpl; rewrite Hlen, Hperm; simpl; lia|]. split; [simpl; congruence|].
  split; [done|]. split; [|split; [done|]].
  - intros g. rewrite Hperm. intros [->|Hg]%elem_of_cons; [exists (with_status ng RTR_MGR_CLOSED); split; [done|apply Hadd]|].
    destruct (Hown g Hg) as (gr & Ho & Hne'). exists gr. split; [by apply Ho2|done].
  - split; [|done]. change (mgr_tables c2 = Some t). rewrite Hi7. exact Ht.
Qed.

Context (once_ok : bool) (new_thread : socket_ptr → option Z).

Lemma wp_mgr_wrlock c (Q : rtr_mgr_config HT → world E → Prop) w :
  mutex c = Unlocked → Q (set_mutex c WriteLocked) w → wp (wrlock_config c) Q w.
Proof. intros Hm HQ. unfold wrlock_config. wp_step. eapply wp_of_option; [by rewrite Hm|]. by wp_step. Qed.

Lemma launches_mutex c l g gr c' :
  launches new_thread c g gr c' → launches new_thread (set_mutex c l) g gr (set_mutex c' l).
Proof. intros ((?&?&?&?&?&?) & ? & ? & ?). split; [by split_and!|]. by split. Qed.

(** The best group runs; the other groups are as they were. *)
Definition best_started c (gs : list group_ptr) c' : Prop :=
  ∃ g gr, head gs = Some g ∧ group_at c !! g = Some gr ∧
    if decide (status gr = RTR_MGR_CLOSED) then launches new_thread c g gr c' else c' = c.

Lemma start_best_spec c gs g gr w :
  group_list c = Some gs → head gs = Some g → owned c g gr →
  (status gr = RTR_MGR_CLOSED → can_start once_ok new_thread c gr) → no_fail w →
  wp (start_best_group once_ok new_thread c) (λ c' w', best_started c gs c' ∧ emits w [] w') w.
Proof.
  intros Hgl Hh Ho Hcan Hnf. unfold start_best_group, rtr_mgr_get_first_group. rewrite Hgl. cbn [mbind option_bind]. rewrite Hh.
  wp_step. wp_step. rewrite (proj1 Ho). wp_step. wp_step. unfold best_started. destruct (decide (status gr = RTR_MGR_CLOSED)) as [Hst|Hst].
  - wp_step. eapply wp_mono; [apply start_group_spec; [done|by apply Hcan|done]|]. intros [rv c'] w' (_ & Hl & Hw'). wp_step.
    split; [|done]. exists g, gr. rewrite decide_True by done. split; [done|]. split; [apply Ho|done].
  - wp_step. split; [|apply emits_refl]. exists g, gr. rewrite decide_False by done. split; [done|]. split; [apply Ho|done].
Qed.

Lemma best_started_mutex c gs c' l : best_started c gs c' → best_started (set_mutex c l) gs (set_mutex c' l).
Proof.
  intros (g & gr & Hh & Hg & Hc). exists g, gr. split; [done|]. split; [done|]. case_decide; [by apply launches_mutex|by subst].
Qed.

Lemma best_started_ok c gs t c' : mgr_ok (E := E) c gs t → best_started c gs c' → mgr_ok (E := E) c' gs t.
Proof.
  intros Hok (g & gr & Hh & Hg & Hc). case_decide; [|by subst]. pose proof Hok as (_ & _ & _ & _ & Hown & _).
  destruct (Hown g) as (gr' & Ho & _); [by apply head_Some_elem_of|].
  assert (gr' = gr) as -> by (pose proof (proj1 Ho); congruence). by eapply mgr_ok_launches.
Qed.

Lemma best_started_lock c gs c' : best_started c gs c' → mutex c' = mutex c.
Proof. intros (g & gr & _ & _ & Hc). case_decide; [|by subst]. by destruct Hc as ((_ & _ & ? & _) & _). Qed.

Lemma sort_added c gs t ng f c2 :
  mgr_ok (E := E) c gs t → inits (with_group c ng) (next_group c) (sockets ng) f c2 →
  preference ng ∉ preference_of c <$> gs → Z.of_nat (length gs) + 1 < 2 ^ 32 →
  ∃ gs', sort_list c2 (gs ++ [next_group c]) = Some gs' ∧ gs' ≡ₚ next_group c :: gs ∧
    StronglySorted (λ g g', preference_of c2 g < preference_of c2 g') gs'.
Proof.
  intros Hok (_ & _ & _ & _ & _ & Hi6 & _) Hnin Hlen. pose proof Hok as (_ & _ & _ & Hso & Hown & Hnext & _).
  set (n := next_group c) in *. simpl in Hi6.
  assert (∀ g, preference_of c2 g = if decide (g = n) then preference ng else preference_of c g) as Hpref.
  { intros g. unfold preference_of. rewrite Hi6. case_decide as Heq; [subst; by rewrite lookup_insert_eq|by rewrite lookup_insert_ne]. }
  assert (n ∉ gs) as Hngs by (intros Hg; by apply (owned_not_next c gs n Hnext (mgr_ok_owned _ _ _ Hok))).
  destruct (sort_list_spec c2 (gs ++ [n])) as (gs' & Hsort & Hperm & Hsorted).
  - intros g. rewrite elem_of_app, list_elem_of_singleton, Hi6. intros [Hg| ->]; [|rewrite lookup_insert_eq; by eexists].
    destruct (decide (g = n)) as [->|Hne']; [done|]. rewrite lookup_insert_ne by done. by apply (mgr_ok_groups c gs t).
  - assert (preference_of c2 <$> gs = preference_of c <$> gs) as Hpgs.
    { apply list_fmap_ext. intros i g Hg. rewrite Hpref, decide_False; [done|]. intros ->. apply Hngs. by eapply list_elem_of_lookup_2. }
    rewrite fmap_app, Hpgs. simpl. rewrite (Hpref n), decide_True by done. apply NoDup_app. split; [|split].
    + clear -Hso. induction Hso as [|g gs _ IH Hg]; [constructor|]. simpl. constructor; [|done].
      intros (g' & Heq & Hg')%list_elem_of_fmap. rewrite Forall_forall in Hg. specialize (Hg g' Hg'). lia.
    + intros x Hx ->%list_elem_of_singleton. done.
    + apply NoDup_singleton.
  - rewrite length_app. simpl. lia.
  - exists gs'. split; [done|]. split; [|done]. rewrite Hperm. by rewrite (comm (++)).
Qed.

(** Closed groups have sockets without threads, which can be started. *)
Lemma added_can_start c gs t ng f c2 g gr :
  mgr_ok (E := E) c gs t → sockets_settled c gs → addable c gs ng → (∀ s, thread_id (f s) = 0) →
  inits (with_group c ng) (next_group c) (sockets ng) f c2 → once_ok = true → (∀ p, is_Some (new_thread p)) →
  g ∈ next_group c :: gs → (∀ g' gr', g' ∈ gs → owned c g' gr' → owned c2 g' gr' ∧ ∀ p, p ∈ sockets gr' → socket_at c2 !! p = socket_at c !! p) →
  owned c2 g gr → status gr = RTR_MGR_CLOSED → can_start once_ok new_thread c2 gr.
Proof.
  intros Hok Hset (_ & _ & Hps) Hf (_ & _ & _ & _ & _ & Hi6 & _ & Hsock & _) Honce Hthr Hin Ho2 Ho Hst.
  pose proof Hok as (_ & _ & _ & _ & Hown & _). split; [done|]. apply Forall_forall. intros p Hp. split; [|done].
  apply elem_of_cons in Hin as [->|Hin].
  - pose proof (proj1 Ho) as Hg. rewrite Hi6 in Hg. simpl in Hg. rewrite lookup_insert_eq in Hg. simplify_eq/=.
    rewrite Hsock, decide_True by done. destruct (Hps p Hp) as ((s & -> & _) & _). apply Hf.
  - destruct (Hown g Hin) as (gr' & Ho' & _). destruct (Ho2 g gr' Hin Ho') as [Ho2' Hsame].
    assert (gr' = gr) as -> by (pose proof (proj1 Ho); pose proof (proj1 Ho2'); congruence). rewrite Hsame by done.
    destruct Ho' as (Hg & _ & Hps'). destruct (Hps' p Hp) as (s & Hs & _). rewrite Hs. by apply (Hset g gr p s).
Qed.

(** The sockets are settled with the new group, too. *)
Lemma settled_added c gs ng f c2 gs' n :
  (∀ g, g ∈ gs → ∃ gr, owned c g gr) → sockets_settled c gs → addable c gs ng → inits (with_group c ng) (next_group c) (sockets ng) f c2 →
  (∀ s, thread_id (f s) = 0 ∧ intervals_valid (refresh_interval (f s)) (expire_interval (f s)) (retry_interval (f s))) →
  owned c2 (next_group c) (with_status ng RTR_MGR_CLOSED) →
  (∀ g gr, g ∈ gs → owned c g gr → owned c2 g gr ∧ ∀ p, p ∈ sockets gr → socket_at c2 !! p = socket_at c !! p) →
  gs' ≡ₚ next_group c :: gs → sockets_settled (set_groups c2 (Ptr gs') n) gs'.
Proof.
  intros Hown Hset (_ & _ & Hps) (_ & _ & _ & _ & _ & _ & _ & Hsock & _) Hf Hon Ho2 Hperm g gr p s Hg Hgr Hp Hs. simpl in Hgr, Hs.
  rewrite Hperm in Hg. apply elem_of_cons in Hg as [->|Hg].
  - rewrite (proj1 Hon) in Hgr. simplify_eq/=. rewrite Hsock, decide_True in Hs by done. destruct (Hps p Hp) as ((s0 & Hs0 & _) & _).
    simpl in Hs. rewrite Hs0 in Hs. simplify_eq/=. destruct (Hf s0). done.
  - destruct (Hown g Hg) as (gr1 & Ho1). destruct (Ho2 g gr1 Hg Ho1) as [Ho1' Hsame]. pose proof (proj1 Ho1'). simplify_eq.
    rewrite Hsame in Hs by done. apply (Hset g gr p s); try done. apply Ho1.
Qed.

(** The sockets of the new group are initialised with the intervals of the last group and
    belong to the new group; all others are as they were. *)
Definition new_sockets c (gs : list group_ptr) (ng : rtr_mgr_group) c1 : Prop :=
  ∃ r y e, latest_intervals c gs (3600, 600, 7200) = (r, y, e) ∧ intervals_valid r e y ∧
    (∀ p, socket_at c1 !! p =
      (if decide (p ∈ sockets ng) then initialised r e y RTR_INTERVAL_MODE_DEFAULT_MIN_MAX else id) <$> socket_at c !! p) ∧
    (∀ p, group_of c1 !! p = if decide (p ∈ sockets ng) then Some (next_group c) else group_of c !! p).

Lemma add_group_spec c gs t ng w :
  mgr_ok (E := E) c gs t → sockets_settled c gs → addable c gs ng → Z.of_nat (length gs) + 1 < 2 ^ 32 →
  once_ok = true → (∀ p, is_Some (new_thread p)) → no_fail w →
  wp (rtr_mgr_add_group once_ok new_thread cb c ng) (λ '(rv, c') w', emits w [] w' ∧
    if decide (preference ng ∈ preference_of c <$> gs) then rv = RTR_INVALID_PARAM ∧ c' = c
    else rv = RTR_SUCCESS ∧ ∃ gs' c1, gs' ≡ₚ next_group c :: gs ∧ mgr_ok (E := E) c' gs' t ∧ mgr_ok (E := E) c1 gs' t ∧
      best_started c1 gs' c' ∧ owned c1 (next_group c) (with_status ng RTR_MGR_CLOSED) ∧ sockets_settled c1 gs' ∧
      (∀ g, g ∈ gs → group_at c1 !! g = group_at c !! g) ∧ new_sockets c gs ng c1) w.
Proof.
  intros Hok Hset Hadd Hlen Honce Hthr Hnf. pose proof Hok as (Hgs & Hlc & Hmu & Hso & Hown & Hnext & Ht & Htok).
  unfold rtr_mgr_add_group. wp_step. apply wp_mgr_wrlock; [done|]. wp_step.
  change (group_list (set_mutex c _)) with (group_list c). rewrite (group_list_ok _ _ _ Hok). wp_step. wp_step.
  pose proof (other_intervals_spec (set_mutex c WriteLocked) gs (preference ng) 3600 600 7200 Hown Hset) as Hiv.
  change (preference_of (set_mutex c WriteLocked)) with (preference_of c) in Hiv.
  destruct (decide (preference ng ∈ preference_of c <$> gs)) as [Hin|Hnin].
  { rewrite Hiv by (unfold intervals_valid, in_range; done). wp_step. cbv beta iota. wp_step. eapply wp_mgr_unlock; [done|]. wp_step.
    split; [apply emits_refl|]. split; [done|]. by apply set_mutex_twice. }
  destruct Hiv as (r & y & e & -> & Hiv & Hlatest); [unfold intervals_valid, in_range; done|]. wp_step. cbv beta iota. wp_step. apply wp_alloc.
  intros ok w1 Hw1 Hal. destruct ok; [|by destruct (Hal eq_refl)]. simpl negb. cbv iota. unfold new_group.
  change (next_group (set_mutex c WriteLocked)) with (next_group c). change (group_at (set_mutex c WriteLocked)) with (group_at c).
  set (n := next_group c). change (set_group_at (set_mutex c WriteLocked) _ _) with (set_mutex (with_group c ng) WriteLocked).
  wp_step. unfold rtr_mgr_init_sockets. change (group_at (set_mutex _ _)) with (group_at (with_group c ng)).
  cbn [group_at with_group set_group_at]. fold n. rewrite lookup_insert_eq. wp_step. wp_step.
  pose proof Hadd as (Hne & Hnd & Hps). eapply wp_mono.
  { apply (init_sockets_spec (sockets ng) (set_mutex (with_group c ng) WriteLocked) n t r e y); try done.
    intros p Hp. destruct (Hps p Hp) as ((s & Hs & _) & _). simpl. rewrite Hs. by eexists. }
  intros [rv c2'] w1' (-> & Hinit & ->). cbv beta iota. simpl Z.eqb. simpl negb. cbv iota. wp_step. apply wp_alloc.
  intros ok w2 Hw2 Hal2. destruct ok; [|destruct (Hal2 eq_refl); by eapply emits_no_fail]. simpl negb. cbv iota. wp_step.
  set (f := initialised r e y RTR_INTERVAL_MODE_DEFAULT_MIN_MAX) in *. set (c2 := set_mutex c2' Unlocked).
  assert (inits (with_group c ng) n (sockets ng) f c2) as Hinit2.
  { destruct Hinit as (?&?&?&?&?&?&?&?&?). unfold c2. split_and!; try done. }
  assert (∀ s, self (f s) = self s ∧ thread_id (f s) = 0) as Hf.
  { intros s. by destruct (init_success s r e y RTR_INTERVAL_MODE_DEFAULT_MIN_MAX Hiv) as (_ & ? & ? & _). }
  assert (∀ s, thread_id (f s) = 0 ∧ intervals_valid (refresh_interval (f s)) (expire_interval (f s)) (retry_interval (f s))) as Hfv.
  { intros s. split; [apply Hf|]. unfold f. by destruct (init_success s r e y RTR_INTERVAL_MODE_DEFAULT_MIN_MAX Hiv) as (_ & _ & _ & -> & -> & ->). }
  pose proof Hinit as (Hi1 & Hi2 & Hi3 & _). simpl in Hi1, Hi2, Hi3.
  unfold insert_tail, group_list. rewrite Hi1, Hgs. simpl mjoin. wp_step. wp_step. wp_step.
  unfold group_list. cbn [groups set_groups read_field mjoin option_join]. wp_step. wp_step. wp_step.
  destruct (sort_added c gs t ng f c2) as (gs' & Hsort & Hperm & Hsorted); [done..|].
  fold n in Hsort. change (sort_list (set_groups c2' _ _)) with (sort_list c2). rewrite Hsort. wp_step. wp_step.
  destruct (added_ok c gs t ng c2 f gs' Hok Hadd (λ s, proj1 (Hf s)) Hinit2 Hperm Hsorted) as (Hok3 & Hon & Hga3 & Ho3).
  set (c3 := set_groups c2 (Ptr gs') (len c + 1)) in *. set (c3' := set_groups _ (Ptr gs') _).
  assert (c3 = set_mutex c3' Unlocked) as Hc3 by (unfold c3, c3', c2; simpl; by rewrite Hi2).
  destruct gs' as [|g gs']; [by apply Permutation_nil_l in Hperm|].
  pose proof Hok3 as (_ & _ & _ & _ & Hown3 & _). destruct (Hown3 g) as (gr & Hogr & _); [left|].
  eapply wp_mono; [apply (start_best_spec c3' (g :: gs') g gr); try done|].
  - intros Hst. apply (added_can_start c gs t ng f c2 g gr); try done; [intros s; apply Hf|]. rewrite <- Hperm. left.
  - eapply emits_no_fail; [exact Hw2|]. by eapply emits_no_fail.
  - intros c4 w4 [Hbest Hw4]. wp_step. apply (wp_mgr_unlock _ Unlocked).
    { rewrite (best_started_lock _ _ _ Hbest). simpl. by rewrite Hi3. }
    wp_step. split; [by eapply emits_quiet; [|eapply emits_quiet]|]. split; [done|]. exists (g :: gs'), c3.
    apply (best_started_mutex _ _ _ Unlocked) in Hbest. rewrite <- Hc3 in Hbest.
    split; [done|]. split; [by eapply best_started_ok|]. split_and!; try done.
    + eapply settled_added; try done. by eapply mgr_ok_owned.
    + exists r, y, e. split; [by rewrite Hlatest|]. split; [done|]. by destruct Hinit2 as (_ & _ & _ & _ & _ & _ & _ & Hsock & Hgof).
Qed.

End Groups.
