(* ===== verification/RtrMgrLife.v ===== *)
(** * The manager of groups of caches: setting up, starting, stopping, removing groups *)

From Stdlib Require Import String.
From S2P Require Import Prelude Ip PfxTable PfxTableProofs PfxTableBulk Hashlin Spki SpkiProofs SetOps.
From S2P Require Import AspaArray Aspa AspaUpdate AspaVerification AspaVerificationProofs.
From S2P Require Import AspaUpdateProofs AspaTheorems AspaSwapIn AspaReplace.
From S2P Require Import Pdu PduProofs PduTheorems Transport TransportProofs Socket Packets PacketsProofs ReceiveProofs.
From S2P Require Import Update UpdateProofs UpdateInstances AspaPdus SyncUpdate Sync SyncProofs SyncReset.
From S2P Require Import Rtr RtrProofs FsmProofs TommyList TommyListProofs RtrMgr RtrMgrProofs RtrMgrGroups.
Open Scope Z_scope.

Section Life.
Context `{Build} `{Host} {E HT : Type} `{!HashTable E HT key_entry} `{!HashTableSpec E HT key_entry}.
Context `{!Event pfx_event E} `{!Event spki_event E} `{!Event aspa_event E}.
Context `{!Event tr_event E} `{!Event rtr_event E} `{!Event mgr_event E}.
Implicit Types (c : rtr_mgr_config HT) (g : group_ptr) (gs : list group_ptr) (p : socket_ptr) (w : world E) (gr : rtr_mgr_group).

(** ** Stopping *)

(** The sockets of the groups [gs] were stopped; the groups keep their status or are
    closed. *)
Definition halts c gs c' : Prop :=
  same_config c c' ∧
  (∀ g, ∃ f : rtr_mgr_group → rtr_mgr_status, group_at c' !! g = (λ gr, with_status gr (f gr)) <$> group_at c !! g ∧
    ∀ gr, f gr = status gr ∨ f gr = RTR_MGR_CLOSED ∧ g ∈ gs) ∧
  (∀ p, socket_at c' !! p = (if decide (p ∈ members c gs) then stop_result else id) <$> socket_at c !! p) ∧
  ∃ t t', mgr_tables c = Some t ∧ mgr_tables c' = Some t' ∧ tables_ok (E := E) t' ∧
    without_all (running c (members c gs)) t t'.

Lemma with_status_fmap (o : option rtr_mgr_group) : (λ gr, with_status gr (status gr)) <$> o = o.
Proof. destruct o; simpl; [by rewrite with_status_same|done]. Qed.

Lemma halts_nil c t : mgr_tables c = Some t → tables_ok (E := E) t → halts c [] c.
Proof.
  intros Ht Hok. split; [done|]. split; [intros g; exists status; rewrite with_status_fmap; auto|].
  split; [intros p; by rewrite option_fmap_id|]. exists t, t. split_and!; try done. apply without_none.
Qed.

Lemma halts_one c g gr c1 : owned c g gr → stops (E := E) c g (sockets gr) c1 → halts c [g] c1.
Proof.
  intros (Hg & _) (Hc & (gr0 & st & Hg0 & Hst & Hga) & Hs & Ht). simplify_eq.
  assert (members c [g] = sockets gr) as Hm by (unfold members; simpl; by rewrite Hg, app_nil_r).
  split; [done|]. rewrite Hm. split; [|done]. intros g'. rewrite Hga. destruct (decide (g' = g)) as [->|Hne].
  - rewrite lookup_insert_eq, Hg. destruct Hst as [-> | ->].
    + exists status. auto.
    + exists (λ _, RTR_MGR_CLOSED). split; [done|]. intros ?. right. split; [done|left].
  - exists status. rewrite lookup_insert_ne, with_status_fmap by done. auto.
Qed.

Lemma halts_owned c gs c' g gr : halts c gs c' → owned c g gr → ∃ st, owned c' g (with_status gr st).
Proof.
  intros ((_ & _ & _ & _ & _ & Hof) & Hga & Hs & _) (Hg & Hnd & Hps). destruct (Hga g) as (f & Hf & _).
  exists (f gr). split; [by rewrite Hf, Hg|]. split; [done|]. intros p Hp. destruct (Hps p Hp) as (s & Hsp & Hself & Hofp).
  rewrite Hs, Hsp, Hof. eexists. split; [done|]. split; [|done]. case_decide; [by rewrite self_stop_result|done].
Qed.

Lemma members_halts c gs c' gs' : halts c gs c' → members c' gs' = members c gs'.
Proof.
  intros (_ & Hga & _). unfold members. induction gs' as [|g gs' IH]; [done|]. rewrite !bind_cons, IH. f_equal.
  destruct (Hga g) as (f & -> & _). by destruct (group_at c !! g).
Qed.

Lemma halts_app c gs c1 gs' c2 :
  halts c gs c1 → halts c1 gs' c2 → (∀ p, p ∈ members c gs → p ∉ members c gs') → halts c (gs ++ gs') c2.
Proof.
  intros Hh1 Hh2 Hdisj. pose proof (members_halts _ _ _ gs' Hh1) as Hm.
  destruct Hh1 as (Hc & Hga & Hs & t & t1 & Ht & Ht1 & Hok1 & Hwo).
  destruct Hh2 as (Hc' & Hga' & Hs' & t1' & t2 & Ht1' & Ht2 & Hok2 & Hwo'). rewrite Hm in Hs', Hwo'.
  assert (members c (gs ++ gs') = members c gs ++ members c gs') as Happ by (unfold members; apply bind_app).
  split; [by etrans|]. split.
  { intros g. destruct (Hga g) as (f & Hf & Hf'), (Hga' g) as (k & Hk & Hk').
    exists (λ gr, k (with_status gr (f gr))). rewrite Hk, Hf. split; [by destruct (group_at c !! g)|].
    intros gr. rewrite elem_of_app. destruct (Hk' (with_status gr (f gr))) as [->|[-> ?]]; [|tauto].
    destruct (Hf' gr) as [Heq|[Heq ?]]; simpl; rewrite Heq; tauto. }
  split.
  - intros p. rewrite Hs', Hs, Happ. destruct (socket_at c !! p) as [s|]; [|done]. simpl. f_equal.
    repeat case_decide; rewrite elem_of_app in *; try tauto; [|done..]. exfalso. by apply (Hdisj p).
  - exists t, t2. simplify_eq. split_and!; try done. rewrite Happ.
    unfold running. rewrite filter_app. eapply without_app; [exact Hwo|]. fold (running c (members c gs')).
    rewrite <- (running_same c c1); [done|]. intros p Hp. rewrite Hs, decide_False; [by rewrite option_fmap_id|].
    intros Hp'. by apply (Hdisj p).
Qed.

Lemma stop_groups_spec gs c t w :
  (∀ g, g ∈ gs → ∃ gr, owned c g gr) → NoDup gs → mgr_tables c = Some t → tables_ok (E := E) t → no_fail w →
  wp (stop_groups c gs) (λ c' w', halts c gs c' ∧ ∃ evs, runs w evs w') w.
Proof.
  revert c t w. induction gs as [|g gs IH]; intros c t w Hown Hnd Ht Hok Hnf; cbn [stop_groups].
  { wp_step. split; [by eapply halts_nil|]. eexists. apply runs_refl. }
  destruct (Hown g) as (gr & Ho); [left|]. pose proof Ho as (Hg & Hnds & _). rewrite Hg. wp_step. wp_step. wp_step.
  apply NoDup_cons in Hnd as [Hng Hnd]. eapply wp_mono; [by eapply stop_sockets_spec|].
  intros c1 w1 (Hst & evs & Hw1). pose proof (halts_one _ _ _ _ Ho Hst) as Hh.
  pose proof Hh as (_ & _ & _ & t0 & t1 & _ & Ht1 & Hok1 & _).
  eapply wp_mono; [apply (IH c1 t1 w1); try done|].
  - intros g' Hg'. destruct (Hown g') as (gr' & Ho'); [by right|]. destruct (halts_owned _ _ _ _ _ Hh Ho') as (st & ?). by eexists.
  - by eapply runs_no_fail.
  - intros c2 w2 (Hh2 & evs2 & Hw2). split; [|eexists; by eapply runs_trans].
    apply (halts_app c [g] c1 gs c2); try done. intros p Hp Hp'.
    apply member_of_owned in Hp as (a & ->%list_elem_of_singleton & Ha); [|by intros ? ->%list_elem_of_singleton; eexists].
    apply member_of_owned in Hp' as (b & Hb & Hb'); [by simplify_eq|]. intros b' Hb2. apply Hown. by right.
Qed.

Lemma mgr_ok_halts c gs t c' :
  mgr_ok (E := E) c gs t → halts c gs c' → ∃ t', mgr_ok (E := E) c' gs t' ∧ without_all (running c (members c gs)) t t'.
Proof.
  intros Hok Hh. pose proof Hh as ((Hg & Hl & Hmu & _ & Hn & _) & Hga & _ & t0 & t' & Ht & Ht' & Hok' & Hwo).
  exists t'. pose proof Hok as (_ & _ & Hmu' & _ & _ & _ & Ht0 & _). simplify_eq. split; [|done].
  eapply mgr_ok_frame; try done; [congruence| |].
  - intros g. destruct (Hga g) as (f & ? & _). by exists f.
  - intros g gr _ Ho. by eapply halts_owned.
Qed.

Lemma mgr_stop_spec c gs t w :
  mgr_ok (E := E) c gs t → no_fail w →
  wp (rtr_mgr_stop c) (λ c' w', halts c gs c' ∧ ∃ evs, runs w evs w') w.
Proof.
  intros Hok Hnf. pose proof Hok as (_ & _ & Hmu & Hso & _ & _ & Ht & Htok). unfold rtr_mgr_stop. wp_step.
  apply wp_mgr_rdlock; [done|]. wp_step. change (group_list (set_mutex c _)) with (group_list c).
  rewrite (group_list_ok _ _ _ Hok). wp_step. wp_step.
  eapply wp_mono; [apply (stop_groups_spec gs (set_mutex c (ReadLocked 0)) t); try done|].
  - intros g Hg. by apply (mgr_ok_owned c gs t Hok).
  - by eapply sorted_nodup.
  - intros c2 w2 (Hh & evs & Hw2). pose proof Hh as ((Hg2 & Hl2 & Hmu2 & Hf2 & Hn2 & Hof2) & Hrest).
    eapply wp_mgr_unlock; [by rewrite Hmu2|]. split; [by split|by eexists].
Qed.

(** ** Removing a group *)

Context (once_ok : bool) (new_thread : socket_ptr → option Z).

Lemma remove_sockets_spec ps c g gr t w :
  owned c g gr → NoDup ps → (∀ p, p ∈ ps → p ∈ sockets gr) → mgr_tables c = Some t → tables_ok (E := E) t → no_fail w →
  wp (remove_sockets c ps) (λ c' w', stops (E := E) c g ps c' ∧ ∃ evs, runs w evs w') w.
Proof.
  revert c gr t w. induction ps as [|p ps IH]; intros c gr t w Hown Hnd Hsub Ht Hok Hnf; cbn [remove_sockets].
  { wp_step. split; [eapply stops_nil; [apply Hown|done|done]|]. eexists. apply runs_refl. }
  pose proof Hown as (Hg & _ & Hps). destruct (Hps p) as (s & Hs & Hself & Hof); [apply Hsub; left|].
  apply NoDup_cons in Hnd as [Hnp Hnd]. wp_step. eapply wp_mono.
  { eapply stop_socket_spec; try done. intros q Hq. destruct (Hps q Hq) as (s' & -> & _). by eexists. }
  intros c1 w1 (Hst & evs & Hw1). destruct (stops_owned _ _ _ _ _ g Hst Hown) as (st & Hown1 & _).
  pose proof Hst as (_ & _ & _ & t0 & t1 & _ & Ht1 & Hok1 & _).
  wp_step. eexists _, _. split; [done|]. cbv beta.
  assert (runs w1 [event (TransportFreed p)] (World (allocs w1) (events w1 ++ [event (TransportFreed p)]) (net w1))) as Hw1'.
  { apply runs_talks. by split_and!. }
  eapply wp_mono; [eapply (IH c1 (with_status gr st) t1); try done|].
  - intros q Hq. apply Hsub. by right.
  - eapply runs_no_fail; [exact Hw1'|]. by eapply runs_no_fail.
  - intros c2 w2 (Hst2 & evs2 & Hw2). split; [|eexists; eapply runs_trans; [done|by eapply runs_trans]].
    apply (stops_app c g [p] c1 ps c2); try done. by intros q ->%list_elem_of_singleton.
Qed.

(** The group [g] is gone, and its sockets were stopped if it was open. *)
Definition removes c gs g gr c' : Prop :=
  groups c' = Ptr (filter (λ g', g' ≠ g) gs) ∧ len c' = len c - 1 ∧ mutex c' = mutex c ∧ status_fp c' = status_fp c ∧
  next_group c' = next_group c ∧ group_of c' = group_of c ∧ group_at c' = delete g (group_at c) ∧
  (∀ p, socket_at c' !! p = (if decide (status gr ≠ RTR_MGR_CLOSED ∧ p ∈ sockets gr) then stop_result else id) <$> socket_at c !! p) ∧
  ∃ t t', mgr_tables c = Some t ∧ mgr_tables c' = Some t' ∧ tables_ok (E := E) t' ∧ without_all (running c (sockets gr)) t t'.

Lemma sockets_disjoint c g gr g' gr' p : owned c g gr → owned c g' gr' → p ∈ sockets gr → p ∈ sockets gr' → g = g'.
Proof.
  intros (_ & _ & Hps) (_ & _ & Hps') Hp Hp'. destruct (Hps p Hp) as (? & _ & _ & Hg), (Hps' p Hp') as (? & _ & _ & Hg'). congruence.
Qed.

Lemma removes_owned c gs g gr c' g' gr' :
  removes c gs g gr c' → owned c g gr → g' ≠ g → owned c g' gr' →
  owned c' g' gr' ∧ ∀ p, p ∈ sockets gr' → socket_at c' !! p = socket_at c !! p.
Proof.
  intros (_ & _ & _ & _ & _ & Hof & Hga & Hs & _) Ho Hne Ho'.
  assert (∀ p, p ∈ sockets gr' → socket_at c' !! p = socket_at c !! p) as Hsame.
  { intros p Hp. rewrite Hs, decide_False; [by rewrite option_fmap_id|]. intros [_ Hp']. apply Hne. by eapply sockets_disjoint. }
  split; [|done]. pose proof Ho' as (Hg' & Hnd & Hps). split; [by rewrite Hga, lookup_delete_ne|]. split; [done|].
  intros p Hp. rewrite Hsame, Hof by done. by apply Hps.
Qed.

Lemma sorted_filter {A} (R : A → A → Prop) (P : A → Prop) `{∀ x, Decision (P x)} (l : list A) :
  StronglySorted R l → StronglySorted R (filter P l).
Proof.
  induction 1 as [|x l _ IH Hx]; [constructor|]. rewrite filter_cons. case_decide; [|done]. constructor; [done|].
  apply Forall_forall. intros y [_ Hy]%list_elem_of_filter. rewrite Forall_forall in Hx. by apply Hx.
Qed.

Lemma sorted_agree {A} (R R' : A → A → Prop) (l : list A) :
  (∀ x y, x ∈ l → y ∈ l → R x y → R' x y) → StronglySorted R l → StronglySorted R' l.
Proof.
  intros HR. induction 1 as [|x l _ IH Hx]; [constructor|]. constructor.
  - apply IH. intros a b Ha Hb. apply HR; by right.
  - rewrite Forall_forall in *. intros y Hy. apply HR; [left|by right|by apply Hx].
Qed.

Lemma length_filter_other gs g : NoDup gs → g ∈ gs → length gs = S (length (filter (λ g', g' ≠ g) gs)).
Proof.
  intros Hnd Hg. apply list_elem_of_split in Hg as (l1 & l2 & ->).
  apply NoDup_app in Hnd as (_ & Hd & Hnd2). apply NoDup_cons in Hnd2 as [Hng _].
  rewrite filter_app, filter_cons_False by (intros Hn; by apply Hn).
  rewrite !filter_all; [rewrite !length_app; simpl; lia| |].
  - intros x Hx ->. done.
  - intros x Hx ->. apply (Hd g Hx). left.
Qed.

Lemma mgr_ok_removes c gs t g gr c' :
  mgr_ok (E := E) c gs t → g ∈ gs → owned c g gr → removes c gs g gr c' →
  ∃ t', mgr_ok (E := E) c' (filter (λ g', g' ≠ g) gs) t' ∧ without_all (running c (sockets gr)) t t'.
Proof.
  intros Hok Hg Ho Hrm. pose proof Hok as (_ & Hlen & Hmu & Hso & Hown & Hnext & Ht & _).
  pose proof Hrm as (Hg' & Hl' & Hmu' & _ & Hn' & _ & Hga & _ & t0 & t' & Ht0 & Ht' & Htok' & Hwo). simplify_eq.
  exists t'. split; [|done]. split; [done|]. split.
  { rewrite Hl', Hlen, (length_filter_other gs g); [lia|by eapply sorted_nodup|done]. }
  split; [congruence|]. split.
  { eapply sorted_agree; [|by apply sorted_filter]. intros a b [Ha _]%list_elem_of_filter [Hb _]%list_elem_of_filter.
    unfold preference_of. by rewrite Hga, !lookup_delete_ne. }
  split; [|split; [|done]].
  - intros g' [Hne Hin]%list_elem_of_filter. destruct (Hown g' Hin) as (gr' & Ho' & ?). exists gr'. split; [|done].
    by eapply removes_owned.
  - intros g'. rewrite Hga, dom_delete, Hn'. intros [? _]%elem_of_difference. by apply Hnext.
Qed.

Lemma best_started_free c gs c' g :
  g ∉ gs → best_started new_thread c gs c' → best_started new_thread (free_group c g) gs (free_group c' g).
Proof.
  intros Hng (b & gr & Hh & Hb & Hc). assert (b ≠ g) as Hne by (intros ->; by apply Hng, head_Some_elem_of).
  exists b, gr. split; [done|]. simpl. split; [by rewrite lookup_delete_ne|]. case_decide; [|by subst].
  destruct Hc as ((?&?&?&?&?&?) & Hga & ? & ?). split; [by split_and!|]. split; [|done]. simpl. by rewrite Hga, delete_insert_ne.
Qed.

(** Closing the group that is removed. *)
Lemma close_removed_spec c gs t g gr w :
  let c1 := set_groups c (Ptr (filter (λ g', g' ≠ g) gs)) (len c - 1) in
  owned c g gr → sockets_settled c gs → g ∈ gs → mgr_tables c = Some t → tables_ok (E := E) t → no_fail w →
  wp (if decide (status gr ≠ RTR_MGR_CLOSED)
      then c ← remove_sockets c1 (sockets gr); set_status c g RTR_MGR_CLOSED None
      else mret c1)
    (λ c2 w', removes c gs g gr (free_group c2 g) ∧ ∃ evs, runs w evs w') w.
Proof.
  intros c1 Ho Hset Hin Ht Htok Hnf. pose proof Ho as (Hg & Hnd & Hps). case_decide as Hst.
  - wp_step. eapply wp_mono; [apply (remove_sockets_spec (sockets gr) c1 g gr t); try done|].
    intros c2 w2 (((Hc1 & Hc2 & Hc3 & Hc4 & Hc5 & Hc6) & (gr0 & st & Hg0 & _ & Hga) & Hs & Htt) & evs & Hw2).
    eapply set_status_spec; [by rewrite Hga, lookup_insert_eq|]. intros w3 Hw3%runs_talks.
    split; [|eexists; by eapply runs_trans]. split_and!; try done.
    + simpl. by rewrite Hga, insert_insert_eq, delete_insert_eq.
    + intros p. simpl. rewrite Hs. simpl. destruct (socket_at c !! p); [|done]. simpl. f_equal.
      repeat case_decide; tauto || done.
  - wp_step. split; [|eexists; apply runs_refl]. split_and!; try done.
    + intros p. simpl. rewrite decide_False by tauto. by rewrite option_fmap_id.
    + exists t, t. split_and!; try done. unfold running. rewrite filter_none; [apply without_none|].
      intros p Hp. destruct (Hps p Hp) as (s & Hs & _). rewrite Hs. unfold is_running. simpl.
      destruct (Hset g gr p s Hin Hg Hp Hs) as [_ Hth]. by rewrite Hth.
Qed.

Lemma remove_group_spec c gs t pref w :
  mgr_ok (E := E) c gs t → sockets_settled c gs → once_ok = true → (∀ p, is_Some (new_thread p)) → no_fail w →
  wp (rtr_mgr_remove_group once_ok new_thread c pref) (λ '(rv, c') w', (∃ evs, runs w evs w') ∧
    if decide (length gs = 1%nat ∨ pref ∉ preference_of c <$> gs) then rv = RTR_ERROR ∧ c' = c
    else rv = RTR_SUCCESS ∧ ∃ g gr c1, g ∈ gs ∧ group_at c !! g = Some gr ∧ preference gr = pref ∧ removes c gs g gr c1 ∧
      best_started new_thread c1 (filter (λ g', g' ≠ g) gs) c') w.
Proof.
  intros Hok Hset Honce Hthr Hnf. pose proof Hok as (_ & Hlen & Hmu & Hso & Hown & _ & Ht & Htok).
  unfold rtr_mgr_remove_group. wp_step. apply wp_mgr_wrlock; [done|]. cbv zeta. cbn [len set_mutex].
  destruct (Z.eqb_spec (len c) 1) as [H1|H1].
  { wp_step. eapply wp_mgr_unlock; [done|]. wp_step. rewrite set_mutex_twice, decide_True by (done || left; lia).
    split; [eexists; apply runs_refl|done]. }
  wp_step. change (group_list (set_mutex c _)) with (group_list c). rewrite (group_list_ok _ _ _ Hok). wp_step. wp_step.
  destruct (find_group_spec (set_mutex c WriteLocked) (λ _ gr, preference gr =? pref) gs) as (r & -> & Hr);
    [intros g' Hg'; by apply (mgr_ok_groups c gs t)|]. cbn [group_at set_mutex] in Hr. wp_step.
  destruct r as [g|].
  2:{ wp_step. eapply wp_mgr_unlock; [done|]. wp_step. rewrite set_mutex_twice, decide_True; [split; [eexists; apply runs_refl|done]| |done].
      right. intros (g & -> & Hg)%list_elem_of_fmap. destruct (mgr_ok_groups _ _ _ g Hok Hg) as [gr Hgr].
      specialize (Hr g gr Hg Hgr). unfold preference_of in Hr. rewrite Hgr in Hr. simpl in Hr. lia. }
  destruct Hr as (pre & post & gr & Hgs & Hg & Hpref%Z.eqb_eq & _).
  assert (g ∈ gs) as Hin by (rewrite Hgs; apply elem_of_app; right; left).
  destruct (Hown g Hin) as (gr' & Ho & _). assert (gr' = gr) as -> by (pose proof (proj1 Ho); congruence).
  assert (¬ (length gs = 1%nat ∨ pref ∉ preference_of c <$> gs)) as Hnot.
  { intros [?|Hn]; [lia|]. apply Hn. apply list_elem_of_fmap. exists g. unfold preference_of. by rewrite Hg. }
  wp_step. eapply wp_mgr_unlock; [done|]. wp_step. cbn [group_at set_mutex set_groups]. rewrite Hg. wp_step. wp_step.
  change (set_mutex (set_groups (set_mutex c WriteLocked) ?a ?b) Unlocked) with (set_groups (set_mutex c Unlocked) a b).
  rewrite <- Hmu. change (set_mutex c (mutex c)) with (set_mutex (set_mutex c WriteLocked) (mutex c)). rewrite set_mutex_twice by done.
  eapply wp_mono; [by eapply close_removed_spec|]. intros c2 w2 (Hrm & evs & Hw2). cbv beta.
  destruct (mgr_ok_removes _ _ _ _ _ _ Hok Hin Ho Hrm) as (t' & Hok' & _).
  assert (filter (λ g', g' ≠ g) gs ≠ []) as Hne. { intros Hn. pose proof (length_filter_other gs g) as Hl. rewrite Hn in Hl. simpl in Hl.
    assert (length gs = 1%nat) by (apply Hl; [by eapply sorted_nodup|done]). lia. }
  destruct (head (filter (λ g', g' ≠ g) gs)) as [b|] eqn:Hb; [|by destruct (filter _ gs)].
  pose proof Hb as [Hbg Hbin]%head_Some_elem_of%list_elem_of_filter. destruct (Hown b Hbin) as (br & Hob & _).
  destruct (removes_owned _ _ _ _ _ _ _ Hrm Ho Hbg Hob) as [Hob2 Hsame].
  assert (owned c2 b br) as Hob3.
  { destruct Hob2 as (Hg2 & ? & ?). split; [|done]. simpl in Hg2. by rewrite lookup_delete_ne in Hg2. }
  wp_step. eapply wp_mono; [apply (start_best_spec once_ok new_thread c2 (filter (λ g', g' ≠ g) gs) b br); try done|].
  - unfold group_list. destruct Hrm as (Hgr & _). simpl in Hgr. by rewrite Hgr.
  - intros Hst. split; [done|]. apply Forall_forall. intros p Hp. split; [|done]. change (socket_at c2) with (socket_at (free_group c2 g)).
    rewrite Hsame by done. pose proof Hob as (Hgb & _ & Hps). destruct (Hps p Hp) as (s & Hs & _). rewrite Hs. by apply (Hset b br p s).
  - by eapply runs_no_fail.
  - intros c3 w3 [Hbest Hw3]. wp_step. split; [eexists; eapply runs_trans; [done|by apply runs_emits]|].
    rewrite decide_False by done. split; [done|]. exists g, gr, (free_group c2 g). split_and!; try done.
    apply best_started_free; [|done]. intros [Hn _]%list_elem_of_filter. by apply Hn.
Qed.

(** ** Starting *)

(** The best group was started; if one of its sockets ran already, only some of its
    sockets were, and the status is as before. *)
Definition best_launched c gs c' (rv : Z) : Prop :=
  ∃ g gr, head gs = Some g ∧ group_at c !! g = Some gr ∧
    (rv = RTR_SUCCESS ∧ launches new_thread c g gr c' ∨
     rv = RTR_ERROR ∧ Exists (λ p, is_running <$> socket_at c !! p = Some true) (sockets gr) ∧
       ∃ qs, qs ⊆ sockets gr ∧ starts new_thread c qs c').

Lemma mgr_start_spec c gs t w :
  mgr_ok (E := E) c gs t → gs ≠ [] → once_ok = true → (∀ p, is_Some (new_thread p)) → no_fail w →
  wp (rtr_mgr_start once_ok new_thread c) (λ '(rv, c') w', emits w [] w' ∧ best_launched c gs c' rv) w.
Proof.
  intros Hok Hne Honce Hthr Hnf. unfold rtr_mgr_start, rtr_mgr_get_first_group. rewrite (group_list_ok _ _ _ Hok).
  destruct gs as [|g gs]; [done|]. cbn [mbind option_bind head]. wp_step. wp_step. destruct (mgr_ok_owned _ _ _ Hok g) as [gr Ho]; [left|].
  pose proof Ho as (Hg & Hnd & Hps). unfold rtr_mgr_start_sockets. rewrite Hg. wp_step. wp_step. wp_step.
  eapply wp_mono; [apply start_sockets_any; try done|].
  - intros p Hp. destruct (Hps p Hp) as (s & Hs & _). split; [by eexists|done].
  - intros [ok c1] w1 (Hw1 & qs & Hqs & Hst & Hyes & Hno). cbv beta iota. pose proof Hst as (Hc & Hga & Ht' & Hsock). destruct ok.
    + rewrite Hga, Hg. wp_step. wp_step. wp_step. split; [done|]. exists g, gr. split; [done|]. split; [done|]. left. split; [done|].
      specialize (Hyes eq_refl). subst qs. split; [done|]. split; [by simpl; rewrite Hga|]. done.
    + wp_step. split; [done|]. exists g, gr. split; [done|]. split; [done|]. right. split; [done|]. split; [by apply Hno|]. by exists qs.
Qed.

Lemma mgr_ok_starts c gs t qs c' : mgr_ok (E := E) c gs t → starts new_thread c qs c' → mgr_ok (E := E) c' gs t.
Proof.
  intros Hok ((Hg & Hl & Hmu & _ & Hn & Hof) & Hga & Ht & Hs). pose proof Hok as (_ & _ & Hmu0 & _ & _ & _ & Ht0 & Htok).
  eapply mgr_ok_frame; try done; try congruence.
  - intros g. exists status. by rewrite Hga, with_status_fmap.
  - intros g gr _ (Hgr & Hnd & Hps). exists (status gr). rewrite with_status_same. split; [by rewrite Hga|]. split; [done|].
    intros p Hp. destruct (Hps p Hp) as (s & Hsp & Hself & Hofp). rewrite Hs, Hsp, Hof. eexists. split; [done|]. split; [|done].
    by case_decide.
Qed.

(** ** Setting up *)

Context (cb : fn_ptr).

Definition closed (gr : rtr_mgr_group) : rtr_mgr_group := with_status gr RTR_MGR_CLOSED.

(** A socket that was just initialised. *)
Definition fresh_socket (s : rtr_socket) : Prop :=
  thread_id s = 0 ∧ intervals_valid (refresh_interval s) (expire_interval s) (retry_interval s).

(** The loop of [rtr_mgr_setup_sockets] has copied the groups [grs] to [gs]. *)
Definition copied c (grs : list rtr_mgr_group) gs : Prop :=
  groups c = Ptr gs ∧ fresh_groups c ∧ (∀ g, g ∈ gs → ∃ gr, owned c g gr) ∧
  (λ g, group_at c !! g) <$> gs = (λ gr, Some (closed gr)) <$> grs ∧
  ∀ p, p ∈ members c gs → ∃ s, socket_at c !! p = Some s ∧ fresh_socket s.

Lemma copied_members c grs gs : copied c grs gs → members c gs = grs ≫= sockets.
Proof.
  intros (_ & _ & _ & Hg & _). unfold members. revert grs Hg. induction gs as [|g gs IH]; intros [|gr grs] Hg; try done.
  rewrite !fmap_cons in Hg. injection Hg as Hg Hgs. rewrite !bind_cons, Hg, (IH grs) by done. done.
Qed.

Lemma copied_preferences c grs gs : copied c grs gs → preference_of c <$> gs = preference <$> grs.
Proof.
  intros (_ & _ & _ & Hg & _). revert grs Hg. induction gs as [|g gs IH]; intros [|gr grs] Hg; try done.
  rewrite !fmap_cons in Hg. injection Hg as Hg Hgs. rewrite !fmap_cons, (IH grs) by done. unfold preference_of. by rewrite Hg.
Qed.

(** The client's sockets, in no two groups. *)
Definition groups_ready (socks : gmap socket_ptr rtr_socket) (grs : list rtr_mgr_group) : Prop :=
  Forall (λ gr, sockets gr ≠ []) grs ∧ NoDup (grs ≫= sockets) ∧
  ∀ p, p ∈ grs ≫= sockets → ∃ s, socks !! p = Some s ∧ self s = p.

Lemma copied_step c grs gs gr c2 refresh expire retry mode :
  let f := initialised cb refresh expire retry mode in
  copied c grs gs → addable c gs gr → intervals_valid refresh expire retry →
  inits (with_group c gr) (next_group c) (sockets gr) f c2 → ∀ n,
  copied (set_groups c2 (Ptr (gs ++ [next_group c])) n) (grs ++ [gr]) (gs ++ [next_group c]).
Proof.
  intros f (Hgs & Hfr & Hown & Hlist & Hsock) Hadd Hiv Hi n.
  assert (∀ s, self (f s) = self s ∧ thread_id (f s) = 0) as Hf.
  { intros s. destruct (init_success cb s refresh expire retry mode Hiv) as (_ & ? & ? & _). done. }
  destruct (added_owned c gs gr c2 f Hown Hfr Hadd (λ s, proj1 (Hf s)) Hi) as (Hfr2 & Hon & Hga & Ho2).
  split; [done|]. split; [done|]. split; [|split].
  - intros g. rewrite elem_of_app, list_elem_of_singleton. intros [Hg| ->]; [|by eexists]. destruct (Hown g Hg) as [gr' Ho'].
    exists gr'. by apply (Ho2 g gr').
  - rewrite !fmap_app. simpl. rewrite (proj1 Hon). f_equal. rewrite <- Hlist. apply list_fmap_ext. intros i g Hg.
    apply Hga. by eapply list_elem_of_lookup_2.
  - intros p. unfold members. rewrite bind_app, elem_of_app, bind_singleton. simpl. rewrite (proj1 Hon).
    destruct Hi as (_ & _ & _ & _ & _ & _ & _ & Hs & _). intros [(g & Hp & Hg)%list_elem_of_bind|Hp].
    + destruct (Hown g Hg) as [gr' Ho']. destruct (Ho2 g gr' Hg Ho') as [Ho2' Hsame]. rewrite (proj1 Ho2') in Hp.
      rewrite Hsame by done. apply Hsock. unfold members. apply list_elem_of_bind. exists g. by rewrite (proj1 Ho').
    + rewrite Hs, decide_True by done. destruct Hadd as (_ & _ & Hps). destruct (Hps p Hp) as ((s & Hsp & _) & _).
      simpl. rewrite Hsp. exists (f s). split; [done|]. split; [apply Hf|].
      unfold f. destruct (init_success cb s refresh expire retry mode Hiv) as (_ & _ & _ & -> & -> & ->). done.
Qed.

Lemma setup_groups_spec rest c grs gs t refresh expire retry w :
  copied c grs gs → mgr_tables c = Some t → Forall (λ gr, sockets gr ≠ []) rest → NoDup ((grs ++ rest) ≫= sockets) →
  (∀ p, p ∈ rest ≫= sockets → ∃ s, socket_at c !! p = Some s ∧ self s = p) → intervals_valid refresh expire retry → no_fail w →
  wp (setup_groups cb c rest refresh expire retry) (λ '(rv, c') w', rv = RTR_SUCCESS ∧ emits w [] w' ∧
    len c' = len c ∧ mutex c' = mutex c ∧ status_fp c' = status_fp c ∧ mgr_tables c' = Some t ∧
    ∃ gs', copied c' (grs ++ rest) gs') w.
Proof.
  intros Hcop Ht Hne Hnd Hps Hiv. revert c grs gs w Hcop Ht Hnd Hps Hne.
  induction rest as [|gr rest IH]; intros c grs gs w Hcop Ht Hnd Hps Hne Hnf; cbn [setup_groups].
  { wp_step. rewrite app_nil_r. split_and!; try done; [apply emits_refl|by exists gs]. }
  apply Forall_cons in Hne as [Hne1 Hne].
  assert (addable c gs gr) as Hadd.
  { rewrite bind_app, bind_cons in Hnd. apply NoDup_app in Hnd as (_ & Hd & [Hnd1 _]%NoDup_app). split; [done|]. split; [done|].
    intros p Hp. split; [apply Hps; rewrite bind_cons; apply elem_of_app; by left|].
    rewrite (copied_members _ _ _ Hcop). intros Hp'. apply (Hd p Hp'), elem_of_app. by left. }
  wp_step. apply wp_alloc. intros ok w1 Hw1 Hal. destruct ok; [|by destruct (Hal eq_refl)]. simpl negb. cbv iota. unfold new_group.
  cbv beta iota zeta. fold (closed gr). change (set_group_at c _ _) with (with_group c gr). wp_step. unfold rtr_mgr_init_sockets.
  assert (group_at (with_group c gr) !! next_group c = Some (closed gr)) as -> by apply lookup_insert_eq. wp_step. wp_step.
  eapply wp_mono.
  { apply (init_sockets_spec cb (sockets gr) (with_group c gr) (next_group c) t refresh expire retry); try done; [apply Hadd|].
    intros p Hp. destruct Hadd as (_ & _ & Ha). destruct (Ha p Hp) as ((s & Hs & _) & _). by exists s. }
  intros [rv c2] w1' (-> & Hi & ->). cbv beta iota. simpl Z.eqb. simpl negb. cbv iota. wp_step. apply wp_alloc.
  intros ok w2 Hw2 Hal2. destruct ok; [|destruct (Hal2 eq_refl); by eapply emits_no_fail]. simpl negb. cbv iota. wp_step.
  pose proof Hi as (Hi1 & Hi2 & Hi3 & Hi4 & _ & _ & Hi7 & Hs & _). simpl in Hi1, Hi2, Hi3, Hi4.
  pose proof Hcop as (Hgs & _). unfold insert_tail, group_list. rewrite Hi1, Hgs. cbn [read_field mjoin option_join]. wp_step. wp_step. wp_step.
  pose proof (copied_step _ _ _ _ _ _ _ _ _ Hcop Hadd Hiv Hi (len c2)) as Hcop2.
  eapply wp_mono; [apply (IH _ (grs ++ [gr]) (gs ++ [next_group c])); try done|].
  - change (mgr_tables c2 = Some t). by rewrite Hi7.
  - by rewrite <- (assoc (++)).
  - intros p Hp. simpl. rewrite Hs, decide_False.
    + rewrite option_fmap_id. apply Hps. rewrite bind_cons. apply elem_of_app. by right.
    + intros Hp'. rewrite bind_app, bind_cons in Hnd. apply NoDup_app in Hnd as (_ & _ & (_ & Hd & _)%NoDup_app). by apply (Hd p).
  - eapply emits_no_fail; [exact Hw2|]. by eapply emits_no_fail.
  - intros [rv c3] w3 (-> & Hw3 & Hl3 & Hm3 & Hf3 & Ht3 & gs3 & Hc3). simpl in Hl3, Hm3, Hf3.
    split; [done|]. split; [by eapply emits_quiet; [|eapply emits_quiet]|]. split_and!; try congruence.
    exists gs3. by rewrite <- (assoc (++)) in Hc3.
Qed.

Lemma setup_sockets_spec c grs t refresh expire retry w :
  mutex c = Unlocked → group_at c = ∅ → mgr_tables c = Some t → tables_ok (E := E) t → groups_ready (socket_at c) grs →
  NoDup (preference <$> grs) → Z.of_nat (length grs) < 2 ^ 32 → intervals_valid refresh expire retry → no_fail w →
  wp (rtr_mgr_setup_sockets cb c grs refresh expire retry) (λ '(rv, c') w', rv = RTR_SUCCESS ∧ emits w [] w' ∧
    ∃ gs, mgr_ok (E := E) c' gs t ∧ sockets_settled c' gs ∧
      (λ g, group_at c' !! g) <$> gs ≡ₚ (λ gr, Some (closed gr)) <$> grs) w.
Proof.
  intros Hmu Hga Ht Htok (Hne & Hnd & Hps) Hpref Hlen Hiv Hnf. unfold rtr_mgr_setup_sockets. wp_step. apply wp_alloc.
  intros ok w1 Hw1 Hal. destruct ok; [|by destruct (Hal eq_refl)]. simpl negb. cbv iota. wp_step.
  set (c1 := set_groups (set_groups c (groups c) _) (Ptr []) _).
  eapply wp_mono; [apply (setup_groups_spec grs c1 [] [] t); try done|].
  - split; [done|]. split; [|split; [by intros ? ?%elem_of_nil|split; [done|by intros ? ?%elem_of_nil]]].
    intros g. simpl. rewrite Hga. by rewrite dom_empty.
  - by eapply emits_no_fail.
  - intros [rv c2] w2 (-> & Hw2 & Hl2 & Hm2 & Hf2 & Ht2 & gs2 & Hc2). simpl in Hl2, Hm2. cbv beta iota. simpl Z.eqb. simpl negb. cbv iota.
    change ([] ++ grs) with grs in Hc2. pose proof Hc2 as (Hgs2 & Hfr2 & Hown2 & Hlist2 & Hsock2).
    assert (length gs2 = length grs) as Hlen2 by (rewrite <- (length_fmap (λ g, group_at c2 !! g)), Hlist2; apply length_fmap).
    wp_step. unfold group_list. rewrite Hgs2. cbn [read_field mjoin option_join]. wp_step. wp_step.
    destruct (sort_list_spec c2 gs2) as (gs' & -> & Hperm & Hsorted).
    { intros g Hg. destruct (Hown2 g Hg) as [gr Ho]. exists gr. apply Ho. }
    { by rewrite (copied_preferences _ _ _ Hc2). }
    { by rewrite Hlen2. }
    wp_step. wp_step. split; [done|]. split; [by eapply emits_quiet|]. exists gs'. split; [|split].
    + split; [done|]. split; [simpl; by rewrite Hl2, <- Hlen2, Hperm|]. split; [simpl; congruence|]. split; [done|].
      split; [|split; [done|by split]]. intros g. rewrite Hperm. intros Hg. destruct (Hown2 g Hg) as [gr Ho]. exists gr. split; [done|].
      assert (Some gr ∈ (λ gr, Some (closed gr)) <$> grs) as (gr' & Heq & Hgr')%list_elem_of_fmap.
      { rewrite <- Hlist2, <- (proj1 Ho). by apply (list_elem_of_fmap_2 (λ g, group_at c2 !! g)). }
      rewrite Forall_forall in Hne. simplify_eq. by apply (Hne gr').
    + intros g gr p s Hg Hgr Hp Hs. rewrite Hperm in Hg. destruct (Hsock2 p) as (s' & Hs' & Hth & Hiv').
      { unfold members. apply list_elem_of_bind. exists g. simpl in Hgr. by rewrite Hgr. }
      simpl in Hs. simplify_eq. done.
    + rewrite Hperm. simpl. by rewrite Hlist2.
Qed.

End Life.
