(* ===== verification/RtrMgrInvariant.v ===== *)
(** * The manager of groups of caches: the invariant of its life *)

From Stdlib Require Import String.
From S2P Require Import Prelude Ip PfxTable PfxTableProofs PfxTableBulk Hashlin Spki SpkiProofs SetOps.
From S2P Require Import AspaArray Aspa AspaUpdate AspaVerification AspaVerificationProofs.
From S2P Require Import AspaUpdateProofs AspaTheorems AspaSwapIn AspaReplace.
From S2P Require Import Pdu PduProofs PduTheorems Transport TransportProofs Socket Packets PacketsProofs ReceiveProofs.
From S2P Require Import Update UpdateProofs UpdateInstances AspaPdus SyncUpdate Sync SyncProofs SyncReset.
From S2P Require Import Rtr RtrProofs FsmProofs TommyList TommyListProofs RtrMgr RtrMgrProofs RtrMgrGroups RtrMgrLife.
Open Scope Z_scope.

(** The socket has the intervals it had, and no thread that it did not have. *)
Definition keeps_settled (s s' : rtr_socket) : Prop :=
  refresh_interval s' = refresh_interval s ∧ expire_interval s' = expire_interval s ∧ retry_interval s' = retry_interval s.

Lemma stop_result_settled s : keeps_settled s (stop_result s) ∧ thread_id (stop_result s) = 0.
Proof.
  unfold stop_result, is_running. destruct (Z.eqb_spec (thread_id s) 0) as [Hth|Hth]; simpl; [|done].
  destruct (changed_members s RTR_SHUTDOWN) as [st ->]. done.
Qed.

Lemma launched_settled new_thread p s : keeps_settled s (launched new_thread p s).
Proof. done. Qed.

Section Invariant.
Context `{Build} `{Host} {E HT : Type} `{!HashTable E HT key_entry} `{!HashTableSpec E HT key_entry}.
Context `{!Event pfx_event E} `{!Event spki_event E} `{!Event aspa_event E}.
Context `{!Event tr_event E} `{!Event rtr_event E} `{!Event mgr_event E}.
Implicit Types (c : rtr_mgr_config HT) (g : group_ptr) (gs : list group_ptr) (p : socket_ptr) (w : world E) (gr : rtr_mgr_group).

(** Groups that are less preferable than an established one are closed. *)
Definition dominated c gs : Prop :=
  ∀ a b, a ∈ gs → b ∈ gs → status_of c a = Some RTR_MGR_ESTABLISHED → preference_of c a < preference_of c b →
    status_of c b = Some RTR_MGR_CLOSED.

(** The invariant of the manager between any two of its operations. *)
Definition mgr_inv c gs : Prop :=
  (∃ t, mgr_ok (E := E) c gs t) ∧ gs ≠ [] ∧ sockets_settled c gs ∧ dominated c gs.

(** ** Settled sockets *)

(** The sockets of the groups [gs'] come from settled ones. *)
Lemma settled_frame c gs c' gs' :
  sockets_settled c gs →
  (∀ g gr' p s', g ∈ gs' → group_at c' !! g = Some gr' → p ∈ sockets gr' → socket_at c' !! p = Some s' →
     ∃ gr s, g ∈ gs ∧ group_at c !! g = Some gr ∧ p ∈ sockets gr ∧ socket_at c !! p = Some s ∧ keeps_settled s s' ∧
       (status gr' = RTR_MGR_CLOSED → status gr = RTR_MGR_CLOSED ∧ thread_id s' = thread_id s ∨ thread_id s' = 0)) →
  sockets_settled c' gs'.
Proof.
  intros Hset Hfr g gr' p s' Hg Hgr' Hp Hs'. destruct (Hfr g gr' p s' Hg Hgr' Hp Hs') as (gr & s & Hg0 & Hgr & Hp0 & Hs & (Hr & He & Hy) & Hth).
  destruct (Hset g gr p s Hg0 Hgr Hp0 Hs) as [Hiv Hz]. rewrite Hr, He, Hy. split; [done|]. intros Hc.
  destruct (Hth Hc) as [[Hc' ->]|?]; [by apply Hz|done].
Qed.

Lemma settled_put c gs g gr st :
  sockets_settled c gs → group_at c !! g = Some gr → (st = RTR_MGR_CLOSED → status gr = RTR_MGR_CLOSED) →
  sockets_settled (put_group c g (with_status gr st)) gs.
Proof.
  intros Hset Hg Hst. eapply settled_frame; [done|]. intros g' gr' p s Hg' Hgr' Hp Hs. simpl in *.
  destruct (decide (g' = g)) as [->|Hne].
  - rewrite lookup_insert_eq in Hgr'. simplify_eq/=. exists gr, s. split_and!; try done. auto.
  - rewrite lookup_insert_ne in Hgr' by done. exists gr', s. split_and!; try done. auto.
Qed.

Lemma settled_stopping c gs c' (ps : list socket_ptr) (f : group_ptr → rtr_mgr_group → rtr_mgr_status) :
  sockets_settled c gs →
  (∀ g, g ∈ gs → group_at c' !! g = (λ gr, with_status gr (f g gr)) <$> group_at c !! g) →
  (∀ p, socket_at c' !! p = (if decide (p ∈ ps) then stop_result else id) <$> socket_at c !! p) →
  (∀ g gr p, g ∈ gs → group_at c !! g = Some gr → p ∈ sockets gr → f g gr = RTR_MGR_CLOSED → status gr = RTR_MGR_CLOSED ∨ p ∈ ps) →
  sockets_settled c' gs.
Proof.
  intros Hset Hga Hs Hf. eapply settled_frame; [done|]. intros g gr' p s' Hg Hgr' Hp Hs'.
  rewrite Hga in Hgr' by done. destruct (group_at c !! g) as [gr|] eqn:Hgr; [|done]. simpl in Hgr'. simplify_eq.
  rewrite Hs in Hs'. destruct (socket_at c !! p) as [s|] eqn:Hsp; [|done]. simpl in *. simplify_eq. exists gr, s.
  split; [done|]. split; [done|]. split; [done|]. split; [done|]. destruct (stop_result_settled s) as [Hk Hz].
  specialize (Hf g gr p Hg Hgr Hp). case_decide; [by auto|]. split; [done|]. intros Hc. left. split; [|done]. tauto.
Qed.

Lemma settled_closes c gs vs c' :
  sockets_settled c gs → closes (E := E) c vs c' → (∀ g, g ∈ vs → g ∈ gs) → sockets_settled c' gs.
Proof.
  intros Hset (_ & Hga & Hs & _) Hvs.
  eapply (settled_stopping _ _ _ (members c vs) (λ g gr, if decide (g ∈ vs) then RTR_MGR_CLOSED else status gr)); try done.
  - intros g Hg. rewrite Hga. destruct (group_at c !! g) as [gr|]; [|done]. simpl. case_decide; [done|]. by rewrite with_status_same.
  - intros g gr p Hg Hgr Hp Hc. case_decide as Hv; [|by left]. right. unfold members. apply list_elem_of_bind. exists g. by rewrite Hgr.
Qed.

Lemma settled_halts c gs c' : sockets_settled c gs → halts (E := E) c gs c' → sockets_settled c' gs.
Proof.
  intros Hset (_ & Hga & Hs & _). eapply settled_frame; [done|]. intros g gr' p s' Hg Hgr' Hp Hs'.
  destruct (Hga g) as (f & Hf & _). rewrite Hf in Hgr'. destruct (group_at c !! g) as [gr|] eqn:Hgr; [|done]. simpl in Hgr'. simplify_eq.
  rewrite Hs in Hs'. destruct (socket_at c !! p) as [s|] eqn:Hsp; [|done]. simpl in *.
  rewrite decide_True in Hs' by (unfold members; apply list_elem_of_bind; exists g; by rewrite Hgr). simplify_eq.
  exists gr, s. destruct (stop_result_settled s) as [Hk Hz]. split_and!; try done. by right.
Qed.

Lemma settled_removes c gs g gr c' :
  (∀ g', g' ∈ gs → ∃ gr', owned c g' gr') → owned c g gr → sockets_settled c gs → removes (E := E) c gs g gr c' →
  sockets_settled c' (filter (λ g', g' ≠ g) gs).
Proof.
  intros Hown Ho Hset Hrm. eapply settled_frame; [done|]. intros g' gr' p s' [Hne Hg']%list_elem_of_filter Hgr' Hp Hs'.
  destruct (Hown g' Hg') as (gr1 & Ho1). destruct (removes_owned _ _ _ _ _ _ _ Hrm Ho Hne Ho1) as [Ho2 Hsame].
  pose proof (proj1 Ho2). simplify_eq. rewrite Hsame in Hs' by done. exists gr', s'. split_and!; try done; [apply Ho1|]. auto.
Qed.

(** ** Domination *)

Lemma dominated_frame c gs c' gs' :
  dominated c gs →
  (∀ g, g ∈ gs' → status_of c' g = Some RTR_MGR_ESTABLISHED → g ∈ gs ∧ status_of c g = Some RTR_MGR_ESTABLISHED) →
  (∀ g, g ∈ gs' → g ∈ gs → status_of c g = Some RTR_MGR_CLOSED → status_of c' g = Some RTR_MGR_CLOSED) →
  (∀ g, g ∈ gs' → g ∉ gs → status_of c' g = Some RTR_MGR_CLOSED) →
  (∀ g, g ∈ gs' → g ∈ gs → preference_of c' g = preference_of c g) → dominated c' gs'.
Proof.
  intros Hd He Hc Hn Hp a b Ha Hb Hea Hlt. destruct (He a Ha Hea) as [Ha' Hea']. destruct (decide (b ∈ gs)) as [Hb'|Hb']; [|by apply Hn].
  apply Hc; try done. apply (Hd a b); try done. by rewrite <- !Hp.
Qed.

Lemma status_put c g gr st g' : status_of (put_group c g (with_status gr st)) g' = if decide (g' = g) then Some st else status_of c g'.
Proof. unfold status_of. simpl. case_decide; [subst; by rewrite lookup_insert_eq|by rewrite lookup_insert_ne]. Qed.

Lemma preference_put c g gr st g' :
  group_at c !! g = Some gr → preference_of (put_group c g (with_status gr st)) g' = preference_of c g'.
Proof.
  intros Hg. unfold preference_of. simpl. destruct (decide (g' = g)) as [->|]; [by rewrite lookup_insert_eq, Hg|by rewrite lookup_insert_ne].
Qed.

(** A group that is not closed gets another status, not established. *)
Lemma dominated_put c gs g gr st :
  dominated c gs → g ∈ gs → group_at c !! g = Some gr → status gr ≠ RTR_MGR_CLOSED → st ≠ RTR_MGR_ESTABLISHED →
  dominated (put_group c g (with_status gr st)) gs.
Proof.
  intros Hd Hin Hg Hst Hst'. eapply dominated_frame; [done|..]; try done; intros g' Hg'; rewrite ?status_put.
  - case_decide; [congruence|done].
  - intros _ Hc. case_decide; [subst|done]. unfold status_of in Hc. rewrite Hg in Hc. simpl in Hc. congruence.
  - intros _. by apply preference_put.
Qed.

(** The best group gets another status, not established. *)
Lemma dominated_best c gs g gr st :
  dominated c gs → StronglySorted (λ g g', preference_of c g < preference_of c g') gs → head gs = Some g → group_at c !! g = Some gr →
  st ≠ RTR_MGR_ESTABLISHED → dominated (put_group c g (with_status gr st)) gs.
Proof.
  intros Hd Hso Hh Hg Hst a b Ha Hb. rewrite !status_put, !preference_put by done. case_decide; [congruence|]. case_decide; [|by apply Hd].
  subst b. intros _ Hlt. destruct gs as [|g0 gs]; [done|]. simpl in Hh. simplify_eq.
  apply elem_of_cons in Ha as [->|Ha]; [lia|]. inversion_clear Hso as [|? ? _ Hall]. rewrite Forall_forall in Hall. specialize (Hall a Ha). lia.
Qed.

Lemma status_same c c' g : group_at c' = group_at c → status_of c' g = status_of c g.
Proof. intros Hg. unfold status_of. by rewrite Hg. Qed.
Lemma preference_same c c' g : group_at c' = group_at c → preference_of c' g = preference_of c g.
Proof. intros Hg. unfold preference_of. by rewrite Hg. Qed.
Lemma dominated_same c c' gs : group_at c' = group_at c → dominated c gs → dominated c' gs.
Proof.
  intros Hg Hd a b. rewrite !(status_same c c'), !(preference_same c c') by done. apply Hd.
Qed.

Lemma dominated_halts c gs c' : dominated c gs → halts (E := E) c gs c' → dominated c' gs.
Proof.
  intros Hd (_ & Hga & _). unfold status_of, preference_of in *.
  eapply dominated_frame; [done|..]; try done; unfold status_of, preference_of; intros g Hg; destruct (Hga g) as (f & -> & Hf);
    destruct (group_at c !! g) as [gr|]; try done; simpl.
  - destruct (Hf gr) as [->|[-> _]]; [done|congruence].
  - intros _ [= Hc]. destruct (Hf gr) as [->|[-> _]]; [by rewrite Hc|done].
Qed.

(** What becomes of the groups when [g] is established. *)
Lemma established_groups c gs g gr c' x xr :
  group_at c !! g = Some gr → closes (E := E) (put_group c g (with_status gr RTR_MGR_ESTABLISHED)) (victims c g (preference gr) gs) c' →
  x ∈ gs → group_at c !! x = Some xr →
  group_at c' !! x = Some (with_status xr (if decide (x = g) then RTR_MGR_ESTABLISHED
    else if decide (preference gr < preference xr) then RTR_MGR_CLOSED else status xr)).
Proof.
  intros Hg (_ & Hga & _) Hx Hxr. rewrite Hga. simpl. destruct (decide (x = g)) as [->|Hne].
  - rewrite lookup_insert_eq, decide_False; [simpl; congruence|]. intros [Hv _]%list_elem_of_filter.
    unfold is_victim in Hv. rewrite Hg, (bool_decide_false (g ≠ g)) in Hv by (intros Hn; by apply Hn). by rewrite andb_false_r in Hv.
  - rewrite lookup_insert_ne, Hxr by done. simpl. f_equal.
    assert (x ∈ victims c g (preference gr) gs ↔ status xr ≠ RTR_MGR_CLOSED ∧ preference gr < preference xr) as Hv.
    { unfold victims. rewrite list_elem_of_filter. unfold is_victim. rewrite Hxr, (bool_decide_true (x ≠ g)), andb_true_r by done.
      rewrite andb_True, bool_decide_spec, Is_true_true, Z.ltb_lt. tauto. }
    destruct (decide (x ∈ victims c g (preference gr) gs)) as [Hin|Hnin].
    + apply Hv in Hin as [_ Hlt]. by rewrite decide_True.
    + unfold id. case_decide as Hlt; [|by rewrite with_status_same]. destruct (decide (status xr = RTR_MGR_CLOSED)) as [<-|Hc]; [by rewrite with_status_same|].
      exfalso. apply Hnin, Hv. done.
Qed.

Lemma dominated_established c gs g gr c' :
  dominated c gs → (∀ x, x ∈ gs → is_Some (group_at c !! x)) → g ∈ gs → group_at c !! g = Some gr → status gr ≠ RTR_MGR_CLOSED →
  closes (E := E) (put_group c g (with_status gr RTR_MGR_ESTABLISHED)) (victims c g (preference gr) gs) c' → dominated c' gs.
Proof.
  intros Hd Hall Hin Hg Hst Hcl a b Ha Hb. unfold dominated, status_of, preference_of in *.
  destruct (Hall a Ha) as [ar Har], (Hall b Hb) as [br Hbr]. specialize (Hd a b Ha Hb).
  rewrite (established_groups c gs g gr c' a ar), (established_groups c gs g gr c' b br) by done. rewrite Har, Hbr in Hd. simpl in *.
  destruct (decide (a = g)) as [->|Hna].
  - intros _ Hlt. simplify_eq. rewrite decide_False by (intros ->; simplify_eq; lia). by rewrite decide_True.
  - intros [= Hea] Hlt. case_decide; [done|]. rewrite Hea in Hd. specialize (Hd eq_refl Hlt). destruct (decide (b = g)); [by simplify_eq|]. simplify_eq. case_decide; [done|]. by rewrite Hd.
Qed.

(** ** Starting *)

Context (once_ok : bool) (new_thread : socket_ptr → option Z) (cb : fn_ptr).

(** Starting sockets of a group that is not closed afterwards. *)
Lemma settled_launching c gs c' g gr (qs : list socket_ptr) st :
  sockets_settled c gs → (∀ g', g' ∈ gs → ∃ gr', owned c g' gr') → g ∈ gs → group_at c !! g = Some gr → qs ⊆ sockets gr →
  (qs ≠ [] → st ≠ RTR_MGR_CLOSED) → (st = RTR_MGR_CLOSED → status gr = RTR_MGR_CLOSED) →
  group_at c' = <[g := with_status gr st]> (group_at c) →
  (∀ p, socket_at c' !! p = (if decide (p ∈ qs) then launched new_thread p else id) <$> socket_at c !! p) →
  sockets_settled c' gs.
Proof.
  intros Hset Hown Hin Hg Hqs Hst Hst' Hga Hs. eapply settled_frame; [done|]. intros g' gr' p s' Hg' Hgr' Hp Hs'.
  rewrite Hs in Hs'. destruct (socket_at c !! p) as [s|] eqn:Hsp; [|done]. simpl in Hs'. rewrite Hga in Hgr'.
  assert (keeps_settled s s') as Hk by (case_decide; simplify_eq; done).
  destruct (decide (g' = g)) as [->|Hne].
  - rewrite lookup_insert_eq in Hgr'. simplify_eq/=. exists gr, s. split_and!; try done. intros ->.
    destruct qs as [|q qs]; [|by destruct Hst]. left. auto.
  - rewrite lookup_insert_ne in Hgr' by done. exists gr', s. split_and!; try done. intros Hc.
    rewrite decide_False in Hs'; [simplify_eq; by left|]. intros Hq. apply Hqs in Hq.
    destruct (Hown g) as (gr1 & Ho1); [done|]. destruct (Hown g') as (gr2 & Ho2); [done|].
    pose proof (proj1 Ho1). pose proof (proj1 Ho2). simplify_eq. apply Hne. by eapply sockets_disjoint.
Qed.

Lemma settled_launches c gs c' g gr :
  sockets_settled c gs → (∀ g', g' ∈ gs → ∃ gr', owned c g' gr') → g ∈ gs → group_at c !! g = Some gr →
  launches new_thread c g gr c' → sockets_settled c' gs.
Proof. intros Hset Hown Hin Hg (_ & Hga & _ & Hs). by eapply (settled_launching c gs c' g gr (sockets gr) RTR_MGR_CONNECTING); try done; apply reflexivity. Qed.

Lemma settled_best c gs t c' :
  mgr_ok (E := E) c gs t → sockets_settled c gs → best_started new_thread c gs c' → sockets_settled c' gs.
Proof.
  intros Hok Hset (g & gr & Hh & Hg & Hc). case_decide; [|by subst].
  eapply settled_launches; [done|by eapply mgr_ok_owned|by apply head_Some_elem_of|done|done].
Qed.

Lemma dominated_launches c gs c' g gr :
  launches new_thread c g gr c' → dominated (put_group c g (with_status gr RTR_MGR_CONNECTING)) gs → dominated c' gs.
Proof. intros (_ & Hga & _). by apply dominated_same. Qed.

Lemma dominated_best_started c gs t c' :
  mgr_ok (E := E) c gs t → dominated c gs → best_started new_thread c gs c' → dominated c' gs.
Proof.
  intros (_ & _ & _ & Hso & _) Hd (g & gr & Hh & Hg & Hc). case_decide; [|by subst].
  eapply dominated_launches; [done|]. by eapply dominated_best.
Qed.

(** ** The operations *)

(** What can happen to the manager, one after the other: the thread of a socket changes
    the socket, or the tables, or reports its state; the client adds or removes a group,
    starts or stops the manager. *)
Inductive mgr_op :=
| OpSocket (p : socket_ptr) (s : rtr_socket)
| OpTables (t : tables HT)
| OpCallback (p : socket_ptr)
| OpAdd (ng : rtr_mgr_group)
| OpRemove (pref : Z)
| OpStart
| OpStop.

Definition mgr_exec (op : mgr_op) c : M E (rtr_mgr_config HT) :=
  match op with
  | OpSocket p s => mret (put_socket c p s)
  | OpTables t => mret (put_tables c t)
  | OpCallback p => s ← of_option (socket_at c !! p); rtr_mgr_cb once_ok new_thread c p (state s)
  | OpAdd ng => '(_, c) ← rtr_mgr_add_group once_ok new_thread cb c ng; mret c
  | OpRemove pref => '(_, c) ← rtr_mgr_remove_group once_ok new_thread c pref; mret c
  | OpStart => '(_, c) ← rtr_mgr_start once_ok new_thread c; mret c
  | OpStop => rtr_mgr_stop c
  end.

(** Only sockets with a thread change and report states, and they keep to their intervals;
    the state of a shutdown is never reported by the thread itself.  The sockets of a new
    group are in no other. *)
Definition mgr_allowed c gs (op : mgr_op) : Prop :=
  match op with
  | OpSocket p s => ∃ s0, p ∈ members c gs ∧ socket_at c !! p = Some s0 ∧ thread_id s0 ≠ 0 ∧ self s = p ∧
      thread_id s = thread_id s0 ∧ intervals_valid (refresh_interval s) (expire_interval s) (retry_interval s)
  | OpTables t => tables_ok (E := E) t
  | OpCallback p => ∃ s, p ∈ members c gs ∧ socket_at c !! p = Some s ∧ thread_id s ≠ 0 ∧ state s ≠ RTR_SHUTDOWN
  | OpAdd ng => addable c gs ng ∧ Z.of_nat (length gs) + 1 < 2 ^ 32
  | OpRemove _ | OpStart | OpStop => True
  end.

Definition inv_kept (c' : rtr_mgr_config HT) w : Prop := (∃ gs, mgr_inv c' gs) ∧ no_fail w.

Lemma member_owner c gs t p :
  mgr_ok (E := E) c gs t → p ∈ members c gs → ∃ g gr, g ∈ gs ∧ owned c g gr ∧ p ∈ sockets gr.
Proof.
  intros Hok Hp. unfold members in Hp. apply list_elem_of_bind in Hp as (g & Hp & Hg).
  destruct (mgr_ok_owned _ _ _ Hok g Hg) as [gr Ho]. exists g, gr. rewrite (proj1 Ho) in Hp. done.
Qed.

Lemma inv_socket c gs p s w :
  mgr_inv c gs → mgr_allowed c gs (OpSocket p s) → no_fail w → inv_kept (put_socket c p s) w.
Proof.
  intros ((t & Hok) & Hne & Hset & Hd) (s0 & Hp & Hs0 & Hth & Hself & Hth' & Hiv) Hnf. split; [|done]. exists gs.
  split; [|split; [done|split; [|done]]].
  - exists t. pose proof Hok as (_ & _ & Hmu & _ & _ & _ & Ht & Htok). eapply mgr_ok_frame; try done.
    + intros g. exists status. by rewrite with_status_fmap.
    + intros g gr _ (Hg & Hnd & Hps). exists (status gr). rewrite with_status_same. split; [done|]. split; [done|].
      intros q Hq. simpl. destruct (Hps q Hq) as (sq & Hsq & Hselfq & Hof). destruct (decide (q = p)) as [->|Hnp].
      * exists s. by rewrite lookup_insert_eq.
      * exists sq. by rewrite lookup_insert_ne.
  - intros g gr q sq Hg Hgr Hq Hsq. simpl in Hsq, Hgr. destruct (decide (q = p)) as [->|Hnp].
    + rewrite lookup_insert_eq in Hsq. injection Hsq as <-. split; [done|]. intros Hc. exfalso. apply Hth. by apply (Hset g gr p s0).
    + rewrite lookup_insert_ne in Hsq by done. by apply (Hset g gr q sq).
Qed.

Lemma inv_tables c gs t w : mgr_inv c gs → tables_ok (E := E) t → no_fail w → inv_kept (put_tables c t) w.
Proof.
  intros ((t0 & Hok) & Hne & Hset & Hd) Ht Hnf. split; [|done]. exists gs. split; [|done]. exists t.
  pose proof Hok as (? & ? & ? & ? & ? & ? & _). split_and!; try done. apply mgr_tables_put.
Qed.

(** A report of a state that is not an error. *)
Lemma status_unchanged c g gr : group_at c !! g = Some gr → put_group c g (with_status gr (status gr)) = c.
Proof. intros Hg. rewrite with_status_same. unfold put_group. rewrite insert_id by done. by destruct c. Qed.

Lemma inv_put c gs g gr st w :
  mgr_inv c gs → g ∈ gs → owned c g gr → status gr ≠ RTR_MGR_CLOSED → st ≠ RTR_MGR_CLOSED → st ≠ RTR_MGR_ESTABLISHED → no_fail w →
  inv_kept (put_group c g (with_status gr st)) w.
Proof.
  intros ((t & Hok) & Hne & Hset & Hd) Hg Ho Hst Hst' Hst'' Hnf. split; [|done]. exists gs. split; [|split; [done|split]].
  - exists t. by apply mgr_ok_put.
  - eapply settled_put; [done|apply Ho|]. by intros ->.
  - by eapply dominated_put; [..|apply Ho| |].
Qed.

Lemma inv_established c gs g gr p w :
  mgr_inv c gs → g ∈ gs → owned c g gr → p ∈ sockets gr → status gr ≠ RTR_MGR_CLOSED → no_fail w →
  wp (rtr_mgr_cb once_ok new_thread c p RTR_ESTABLISHED) inv_kept w.
Proof.
  intros Hinv Hg Ho Hp Hst Hnf. pose proof Hinv as ((t & Hok) & Hne & Hset & Hd).
  eapply wp_mono; [by eapply established_spec|]. intros c' w' ((evs & Hw) & Hc). pose proof (runs_no_fail _ _ _ Hw Hnf) as Hnf'.
  case_decide as Hpr; [|subst; split; [by exists gs|done]].
  split; [|done]. exists gs. destruct (mgr_ok_closes _ _ _ _ _ (mgr_ok_put _ _ _ _ _ RTR_MGR_ESTABLISHED Hok Ho) Hc) as (t' & Hok' & _).
  split; [by exists t'|]. split; [done|]. split.
  - eapply settled_closes; [|exact Hc|by intros x [_ ?]%list_elem_of_filter]. eapply settled_put; [done|apply Ho|done].
  - eapply dominated_established; [done|intros x Hx; by eapply mgr_ok_groups|exact Hg|apply Ho|done|exact Hc].
Qed.

Lemma inv_error c gs g gr p st w :
  mgr_inv c gs → g ∈ gs → owned c g gr → p ∈ sockets gr → status gr ≠ RTR_MGR_CLOSED → is_mgr_error st →
  once_ok = true → (∀ p, is_Some (new_thread p)) → no_fail w →
  wp (rtr_mgr_cb once_ok new_thread c p st) inv_kept w.
Proof.
  intros Hinv Hg Ho Hp Hst Herr Honce Hthr Hnf. pose proof Hinv as ((t & Hok) & Hne & Hset & Hd).
  set (c1 := put_group c g (with_status gr RTR_MGR_ERROR)).
  assert (∀ g', failover c1 gs g = Some g' → g' ≠ g ∧ g' ∈ gs ∧ status_of c g' = Some RTR_MGR_CLOSED ∧
    ¬ Exists (λ g', status_of c1 g' = Some RTR_MGR_ESTABLISHED) gs) as Hfo.
  { intros g' Hf. unfold failover in Hf. case_decide; [done|]. apply head_Some_elem_of, list_elem_of_filter in Hf as [[Hn Hc] Hin].
    split_and!; try done. unfold c1 in Hc. by rewrite status_put, decide_False in Hc. }
  assert (inv_kept c1 w) as ((gs0 & (t1 & Hok1) & _ & Hset1 & Hd1) & _) by (by eapply inv_put).
  assert (gs0 = gs) as -> by (pose proof (proj1 Hok1) as Hg1; pose proof (proj1 Hok) as Hg2; unfold c1 in Hg1; simpl in Hg1; congruence).
  eapply wp_mono; [eapply error_spec; try done|].
  - intros g' gr' Hf Hgr'. destruct (Hfo g' Hf) as (_ & Hin & Hc & _). destruct (mgr_ok_owned _ _ _ Hok g' Hin) as (gr1 & Ho1).
    pose proof Ho1 as (Hg1 & _ & Hps1). simplify_eq. split; [done|]. apply Forall_forall. intros q Hq. split; [|done].
    destruct (Hps1 q Hq) as (sq & Hsq & _). rewrite Hsq. apply (Hset g' gr' q sq); try done.
    unfold status_of in Hc. rewrite Hgr' in Hc. by injection Hc.
  - fold c1. intros c' w' (Hw & Hok' & Hc). split; [|by eapply runs_no_fail]. exists gs. split; [by exists t|]. split; [done|].
    destruct (failover c1 gs g) as [g'|] eqn:Hf; [|by subst c']. destruct (Hfo g' eq_refl) as (Hn & Hin & _ & Hnone).
    destruct Hc as (gr' & Hgr' & Hl).
    assert (group_at c1 !! g' = Some gr') as Hgr1 by (unfold c1; simpl; by rewrite lookup_insert_ne).
    split; [eapply settled_launches; [exact Hset1|by eapply mgr_ok_owned|exact Hin|exact Hgr1|exact Hl]|].
    eapply dominated_launches; [exact Hl|]. intros a b Ha _. rewrite status_put. case_decide; [done|]. intros He. exfalso.
    apply Hnone, Exists_exists. by exists a.
Qed.

Lemma inv_callback c gs p w :
  mgr_inv c gs → mgr_allowed c gs (OpCallback p) → once_ok = true → (∀ p, is_Some (new_thread p)) → no_fail w →
  wp (mgr_exec (OpCallback p) c) inv_kept w.
Proof.
  intros Hinv (s & Hp & Hs & Hth & Hsh) Honce Hthr Hnf. pose proof Hinv as ((t & Hok) & Hne & Hset & Hd).
  destruct (member_owner _ _ _ _ Hok Hp) as (g & gr & Hg & Ho & Hpg). pose proof Ho as (Hgr & _ & Hps).
  assert (status gr ≠ RTR_MGR_CLOSED) as Hst by (intros Hc; apply Hth; by apply (Hset g gr p s)).
  destruct (Hps p Hpg) as (_ & _ & _ & Hof).
  assert (∀ st, st = status gr ∨ st ≠ RTR_MGR_CLOSED ∧ st ≠ RTR_MGR_ESTABLISHED → wp (set_status c g st (Some p)) inv_kept w) as Hset'.
  { intros st Hst'. eapply set_status_spec; [done|]. intros w' Hw%runs_talks. pose proof (runs_no_fail _ _ _ Hw Hnf).
    destruct Hst' as [->|[Hst' Hst'']]; [rewrite status_unchanged by done; split; [by exists gs|done]|by eapply inv_put]. }
  unfold mgr_exec. rewrite Hs. wp_step. wp_step.
  destruct (state s) eqn:Hss; try done;
    first [by eapply inv_established | by eapply inv_error; unfold is_mgr_error; auto |
           unfold rtr_mgr_cb; rewrite Hof; unfold rtr_mgr_cb_state_connecting; rewrite Hgr; wp_step; wp_step].
  - case_decide; apply Hset'; by right.
  - apply Hset'. by left.
  - apply Hset'. by left.
  - apply Hset'. by left.
  - apply Hset'. by left.
  - apply Hset'. by left.
Qed.

Lemma inv_best c gs t c' w :
  mgr_ok (E := E) c gs t → gs ≠ [] → sockets_settled c gs → dominated c gs → best_started new_thread c gs c' → no_fail w → inv_kept c' w.
Proof.
  intros Hok Hne Hset Hd Hb Hnf. split; [|done]. exists gs. split; [exists t; by eapply best_started_ok|]. split; [done|].
  split; [by eapply settled_best|by eapply dominated_best_started].
Qed.

Lemma inv_add c gs ng w :
  mgr_inv c gs → mgr_allowed c gs (OpAdd ng) → once_ok = true → (∀ p, is_Some (new_thread p)) → no_fail w →
  wp (mgr_exec (OpAdd ng) c) inv_kept w.
Proof.
  intros Hinv [Hadd Hlen] Honce Hthr Hnf. pose proof Hinv as ((t & Hok) & Hne & Hset & Hd). unfold mgr_exec. wp_step.
  eapply wp_mono; [by eapply add_group_spec|]. intros [rv c'] w' (Hw & Hc). pose proof (emits_no_fail _ _ _ Hw Hnf) as Hnf'.
  cbv beta iota. wp_step. case_decide as Hpref; [destruct Hc as [_ ->]; split; [by exists gs|done]|].
  destruct Hc as (_ & gs' & c1 & Hperm & _ & Hok1 & Hb & Hon & Hset1 & Hga & _).
  eapply inv_best; [exact Hok1| |done| |done|done]; [intros ->; by apply Permutation_nil_l in Hperm|].
  assert (∀ g, g ∈ gs' → g ∉ gs → g = next_group c) as Hnew by (intros g; rewrite Hperm, elem_of_cons; tauto).
  eapply dominated_frame; [exact Hd|..]; unfold status_of, preference_of; intros g Hg.
  - intros He. assert (g ∈ gs) as Hin; [|by rewrite <- Hga]. apply dec_stable. intros Hn. rewrite (Hnew g Hg Hn), (proj1 Hon) in He. done.
  - intros Hin. by rewrite Hga.
  - intros Hn. by rewrite (Hnew g Hg Hn), (proj1 Hon).
  - intros Hin. by rewrite Hga.
Qed.

Lemma inv_remove c gs pref w :
  mgr_inv c gs → once_ok = true → (∀ p, is_Some (new_thread p)) → no_fail w → wp (mgr_exec (OpRemove pref) c) inv_kept w.
Proof.
  intros Hinv Honce Hthr Hnf. pose proof Hinv as ((t & Hok) & Hne & Hset & Hd). unfold mgr_exec. wp_step.
  eapply wp_mono; [by eapply remove_group_spec|]. intros [rv c'] w' ((evs & Hw) & Hc). pose proof (runs_no_fail _ _ _ Hw Hnf) as Hnf'.
  cbv beta iota. wp_step. case_decide as Hpref; [destruct Hc as [_ ->]; split; [by exists gs|done]|].
  destruct Hc as (_ & g & gr & c1 & Hg & Hgr & _ & Hrm & Hb). destruct (mgr_ok_owned _ _ _ Hok g Hg) as [gr1 Ho].
  pose proof (proj1 Ho). simplify_eq. destruct (mgr_ok_removes _ _ _ _ _ _ Hok Hg Ho Hrm) as (t' & Hok1 & _).
  eapply inv_best; [exact Hok1| |by eapply settled_removes; [eapply mgr_ok_owned|..]| |done|done].
  - destruct Hb as (b & _ & Hh & _). by destruct (filter _ gs).
  - destruct Hrm as (_ & _ & _ & _ & _ & _ & Hga & _).
    eapply dominated_frame; [exact Hd|..]; unfold status_of, preference_of; intros x [Hn Hx]%list_elem_of_filter; rewrite Hga, lookup_delete_ne; done.
Qed.

Lemma inv_start c gs w :
  mgr_inv c gs → once_ok = true → (∀ p, is_Some (new_thread p)) → no_fail w → wp (mgr_exec OpStart c) inv_kept w.
Proof.
  intros Hinv Honce Hthr Hnf. pose proof Hinv as ((t & Hok) & Hne & Hset & Hd). unfold mgr_exec. wp_step.
  eapply wp_mono; [by eapply mgr_start_spec|]. intros [rv c'] w' (Hw & g & gr & Hh & Hg & Hc). pose proof (emits_no_fail _ _ _ Hw Hnf) as Hnf'.
  cbv beta iota. wp_step. split; [|done]. exists gs. pose proof (head_Some_elem_of _ _ Hh) as Hin.
  destruct (mgr_ok_owned _ _ _ Hok g Hin) as [gr1 Ho]. pose proof (proj1 Ho). simplify_eq. pose proof Hok as (_ & _ & _ & Hso & _).
  destruct Hc as [[_ Hl]|(_ & Hrun & qs & Hqs & Hst)].
  - split; [exists t; by eapply mgr_ok_launches|]. split; [done|]. split; [eapply settled_launches; [done|by eapply mgr_ok_owned|done|done|done]|].
    eapply dominated_launches; [done|]. by eapply dominated_best.
  - pose proof Hst as (_ & Hga & _ & Hs).
    assert (status gr ≠ RTR_MGR_CLOSED) as Hnc.
    { intros Hc. apply Exists_exists in Hrun as (p & Hp & Hr). destruct Ho as (_ & _ & Hps). destruct (Hps p Hp) as (s & Hsp & _).
      rewrite Hsp in Hr. unfold is_running in Hr. simpl in Hr. destruct (Hset g gr p s Hin Hg Hp Hsp) as [_ Hz]. by rewrite Hz in Hr. }
    split; [exists t; by eapply mgr_ok_starts|]. split; [done|]. split; [|by eapply dominated_same].
    eapply (settled_launching c gs c' g gr qs (status gr)); try done; [by eapply mgr_ok_owned|]. by rewrite with_status_same, insert_id.
Qed.

(** Every operation that is allowed returns and keeps the invariant. *)
Lemma mgr_op_inv c gs op w :
  mgr_inv c gs → mgr_allowed c gs op → once_ok = true → (∀ p, is_Some (new_thread p)) → no_fail w → wp (mgr_exec op c) inv_kept w.
Proof.
  intros Hinv Hal Honce Hthr Hnf. pose proof Hinv as ((t & Hok) & Hne & Hset & Hd). destruct op.
  - simpl. wp_step. by eapply inv_socket.
  - simpl. wp_step. by eapply inv_tables.
  - by eapply inv_callback.
  - by eapply inv_add.
  - by eapply inv_remove.
  - by eapply inv_start.
  - simpl. eapply wp_mono; [by eapply mgr_stop_spec|]. intros c' w' (Hh & evs & Hw). split; [|by eapply runs_no_fail]. exists gs.
    destruct (mgr_ok_halts _ _ _ _ Hok Hh) as (t' & Hok' & _). split; [by exists t'|]. split; [done|].
    split; [by eapply settled_halts|by eapply dominated_halts].
Qed.

(** ** Histories of a manager *)

(** Setting up a manager with tables for the three kinds of records. *)
Definition mgr_setup (socks : gmap socket_ptr rtr_socket) (grs : list rtr_mgr_group) (status_fp pfx_fp spki_fp aspa_fp : option fn_ptr)
    (mutex_ok : bool) (refresh expire retry : Z) : M E (Z * option (rtr_mgr_config HT)) :=
  '(rv, grs, c) ← rtr_mgr_init socks grs status_fp mutex_ok;
  if negb (rv =? RTR_SUCCESS) then mret (rv, c)
  else
    '(rv1, c) ← rtr_mgr_add_roa_support c pfx_fp;
    '(rv2, c) ← rtr_mgr_add_spki_support c spki_fp;
    '(rv3, c) ← rtr_mgr_add_aspa_support c aspa_fp;
    if negb ((rv1 =? RTR_SUCCESS) && (rv2 =? RTR_SUCCESS) && (rv3 =? RTR_SUCCESS)) then mret (RTR_ERROR, c)
    else
      c ← of_option c;
      '(rv, c) ← rtr_mgr_setup_sockets cb c grs refresh expire retry;
      mret (rv, Some c).

Lemma check_groups_ok last (grs : list rtr_mgr_group) :
  NoDup (preference <$> grs) → Forall (λ gr, sockets gr ≠ []) grs → (∀ gr, head grs = Some gr → last ≠ Some (preference gr)) →
  check_groups last grs = true.
Proof.
  revert last. induction grs as [|gr grs IH]; intros last Hnd Hne Hh; [done|]. rewrite fmap_cons in Hnd.
  apply NoDup_cons in Hnd as [Hng Hnd]. apply Forall_cons in Hne as [Hne1 Hne]. simpl.
  rewrite (bool_decide_false (last = _)) by by apply Hh. rewrite bool_decide_false by done. simpl. apply IH; [done|done|].
  intros gr' Hgr' [= Heq]. apply Hng. rewrite Heq. apply list_elem_of_fmap_2. by apply head_Some_elem_of.
Qed.

Lemma groups_ready_perm socks (grs grs' : list rtr_mgr_group) : grs ≡ₚ grs' → groups_ready socks grs → groups_ready socks grs'.
Proof. intros Hp (Hne & Hnd & Hps). split; [by rewrite <- Hp|]. split; [by rewrite <- Hp|]. intros p. rewrite <- Hp. apply Hps. Qed.

Lemma mgr_setup_spec socks (grs : list rtr_mgr_group) status_fp pfx_fp spki_fp aspa_fp refresh expire retry w :
  grs ≠ [] → groups_ready socks grs → NoDup (preference <$> grs) → Z.of_nat (length grs) < 2 ^ 32 →
  intervals_valid refresh expire retry → 0 <= ht_max (E := E) (H := HT) (A := key_entry) → no_fail w →
  wp (mgr_setup socks grs status_fp pfx_fp spki_fp aspa_fp true refresh expire retry)
    (λ '(rv, oc) w', rv = RTR_SUCCESS ∧ ∃ c, oc = Some c ∧ inv_kept c w') w.
Proof.
  intros Hne Hready Hpref Hlen Hiv Hmax Hnf. unfold mgr_setup, rtr_mgr_init. rewrite bool_decide_false by done. wp_step. wp_step.
  apply wp_alloc. intros ok w1 Hw1 Hal. destruct ok; [|by destruct (Hal eq_refl)]. simpl negb. cbv iota zeta.
  assert (sort_groups grs ≡ₚ grs) as Hperm by apply merge_sort_Permutation. symmetry in Hperm.
  pose proof (groups_ready_perm _ _ _ Hperm Hready) as Hready'. rewrite Hperm in Hpref, Hlen.
  rewrite check_groups_ok; [|done|apply Hready'|done]. simpl negb. cbv iota. wp_step.
  change (negb (RTR_SUCCESS =? RTR_SUCCESS)) with false. cbv iota. unfold rtr_mgr_add_roa_support. wp_step. wp_step.
  apply wp_alloc. intros ok w2 Hw2 Hal2. destruct ok; [|destruct (Hal2 eq_refl); by eapply emits_no_fail]. simpl negb. cbv iota. wp_step.
  unfold rtr_mgr_add_spki_support. wp_step. wp_step. pose proof (emits_quiet _ _ _ _ Hw1 Hw2) as Hw2'.
  apply wp_alloc. intros ok w3 Hw3 Hal3. destruct ok; [|destruct (Hal3 eq_refl); by eapply emits_no_fail]. simpl negb. cbv iota. wp_step.
  pose proof (emits_quiet _ _ _ _ Hw2' Hw3) as Hw3'.
  eapply wp_mono; [apply empty_keys_spec; [done|by eapply emits_no_fail]|]. intros st w4 (Hw4 & Hst & _). wp_step.
  unfold rtr_mgr_add_aspa_support. wp_step. wp_step. pose proof (emits_quiet _ _ _ _ Hw3' Hw4) as Hw4'.
  apply wp_alloc. intros ok w5 Hw5 Hal5. destruct ok; [|destruct (Hal5 eq_refl); by eapply emits_no_fail]. simpl negb. cbv iota. wp_step.
  pose proof (emits_quiet _ _ _ _ Hw4' Hw5) as Hw5'. simpl. wp_step. wp_step. wp_step.
  eapply wp_mono; [eapply setup_sockets_spec; try done|].
  - split; [simpl; decided|]. split; [done|]. simpl. decided.
  - by eapply emits_no_fail.
  - intros [rv c] w6 (-> & Hw6 & gs & Hok & Hset & Hgs). wp_step. split; [done|]. exists c. split; [done|].
    split; [|eapply emits_no_fail; [exact Hw6|by eapply emits_no_fail]]. exists gs. split; [by eexists|]. split; [|split; [done|]].
    + intros ->. simpl in Hgs. apply Permutation_nil_l in Hgs. symmetry in Hgs. apply fmap_nil_inv in Hgs. rewrite Hgs in Hperm. by apply Permutation_nil_r in Hperm.
    + intros a b Ha _ He. exfalso. assert (group_at c !! a ∈ (λ g, group_at c !! g) <$> gs) as Hin by by apply (list_elem_of_fmap_2 (λ g, group_at c !! g)).
      rewrite Hgs in Hin. apply list_elem_of_fmap in Hin as (gr & Heq & _). unfold status_of in He. by rewrite Heq in He.
Qed.

(** The configurations of a manager that was set up with groups of distinct preferences
    and then went through any operations, as long as memory and threads do not run out. *)
Inductive mgr_reachable : rtr_mgr_config HT → Prop :=
| reach_setup socks grs status_fp pfx_fp spki_fp aspa_fp refresh expire retry w c w' :
    grs ≠ [] → groups_ready socks grs → NoDup (preference <$> grs) → Z.of_nat (length grs) < 2 ^ 32 →
    intervals_valid refresh expire retry → no_fail w →
    mgr_setup socks grs status_fp pfx_fp spki_fp aspa_fp true refresh expire retry w = Some ((RTR_SUCCESS, Some c), w') →
    mgr_reachable c
| reach_op c gs op w c' w' :
    mgr_reachable c → groups c = Ptr gs → mgr_allowed c gs op → no_fail w → mgr_exec op c w = Some (c', w') → mgr_reachable c'.

Lemma mgr_reachable_inv c :
  once_ok = true → (∀ p, is_Some (new_thread p)) → 0 <= ht_max (E := E) (H := HT) (A := key_entry) →
  mgr_reachable c → ∃ gs, mgr_inv c gs.
Proof.
  intros Honce Hthr Hmax. induction 1 as [socks grs sf pf kf af refresh expire retry w c w' Hne Hready Hpref Hlen Hiv Hnf Hrun|
    c gs op w c' w' _ IH Hgs Hal Hnf Hrun].
  - destruct (mgr_setup_spec socks grs sf pf kf af refresh expire retry w) as ([rv oc] & w1 & Hrun' & _ & c1 & -> & Hk & _); [done..|].
    rewrite Hrun in Hrun'. by simplify_eq.
  - destruct IH as [gs' Hinv]. assert (gs' = gs) as ->.
    { destruct Hinv as ((t & Hg & _) & _). rewrite Hgs in Hg. by simplify_eq. }
    destruct (mgr_op_inv c gs op w Hinv Hal Honce Hthr Hnf) as (c1 & w1 & Hrun' & Hk & _). rewrite Hrun in Hrun'. by simplify_eq.
Qed.

(** At most one group is established. *)
Lemma one_established c gs t a b :
  mgr_ok (E := E) c gs t → dominated c gs → a ∈ gs → b ∈ gs → status_of c a = Some RTR_MGR_ESTABLISHED →
  status_of c b = Some RTR_MGR_ESTABLISHED → a = b.
Proof.
  intros (_ & _ & _ & Hso & _) Hd Ha Hb Hea Heb.
  apply list_elem_of_lookup_1 in Ha as Hi, Hb as Hj. destruct Hi as [i Hi], Hj as [j Hj].
  assert (∀ i j x y, (i < j)%nat → gs !! i = Some x → gs !! j = Some y → preference_of c x < preference_of c y) as Hlt.
  { clear -Hso. induction Hso as [|g gs _ IH Hg]; intros [|i] [|j] x y Hlt Hi Hj; try done; try lia.
    - simpl in *. simplify_eq. rewrite Forall_forall in Hg. apply Hg. by eapply list_elem_of_lookup_2.
    - simpl in *. apply (IH i j); [lia|done|done]. }
  destruct (Nat.lt_trichotomy i j) as [Hij|[->|Hij]]; [|by simplify_eq|]; exfalso.
  - specialize (Hd a b Ha Hb Hea (Hlt _ _ _ _ Hij Hi Hj)). congruence.
  - specialize (Hd b a Hb Ha Heb (Hlt _ _ _ _ Hij Hj Hi)). congruence.
Qed.

End Invariant.
