(* ===== verification/RtrMgrTheorems.v ===== *)
(** * The manager of groups of caches: the theorems *)

From Stdlib Require Import String.
From S2P Require Import Prelude Ip PfxTable PfxTableProofs PfxTableBulk Hashlin HashlinProofs Spki SpkiProofs SpkiTheorems SetOps.
From S2P Require Import AspaArray Aspa AspaUpdate AspaVerification AspaVerificationProofs.
From S2P Require Import AspaUpdateProofs AspaTheorems AspaSwapIn AspaReplace.
From S2P Require Import Pdu PduProofs PduTheorems Transport TransportProofs Socket Packets PacketsProofs ReceiveProofs.
From S2P Require Import Update UpdateProofs UpdateInstances AspaPdus SyncUpdate UpdateTheorems Sync SyncProofs SyncReset.
From S2P Require Import Rtr RtrProofs FsmProofs TommyList TommyListProofs RtrMgr RtrMgrProofs RtrMgrGroups RtrMgrLife RtrMgrInvariant.
Open Scope Z_scope.

Section Theorems.
Context `{Build} `{Host} {E HT : Type} `{!HashTable E HT key_entry} `{!HashTableSpec E HT key_entry}.
Context `{!Event pfx_event E} `{!Event spki_event E} `{!Event aspa_event E}.
Context `{!Event tr_event E} `{!Event rtr_event E} `{!Event mgr_event E}.
Implicit Types (c : rtr_mgr_config HT) (g : group_ptr) (gs : list group_ptr) (p : socket_ptr) (w : world E) (gr : rtr_mgr_group).
Context (once_ok : bool) (new_thread : socket_ptr → option Z) (cb : fn_ptr).

(** C10: A manager that was set up with all three kinds of records, with groups of distinct
    preferences that have sockets of their own, and valid intervals.  Whatever its sockets
    with a thread report and the client does (add groups with sockets of their own, remove,
    start, stop), in any order but one after the other, while memory and threads last, the
    groups are sorted by preference, at most one group is established, all groups that are
    less preferable than an established one are closed, sockets of closed groups have no
    thread, and every operation returns. *)
Theorem mgr_reachable_safe c :
  once_ok = true → (∀ p, is_Some (new_thread p)) → 0 <= ht_max (E := E) (H := HT) (A := key_entry) →
  mgr_reachable (E := E) once_ok new_thread cb c →
  ∃ gs t, mgr_ok (E := E) c gs t ∧ gs ≠ [] ∧
    (∀ a b, a ∈ gs → b ∈ gs → status_of c a = Some RTR_MGR_ESTABLISHED → status_of c b = Some RTR_MGR_ESTABLISHED → a = b) ∧
    (∀ a b, a ∈ gs → b ∈ gs → status_of c a = Some RTR_MGR_ESTABLISHED → preference_of c a < preference_of c b →
       status_of c b = Some RTR_MGR_CLOSED) ∧
    (∀ g gr p s, g ∈ gs → group_at c !! g = Some gr → p ∈ sockets gr → socket_at c !! p = Some s →
       status gr = RTR_MGR_CLOSED → thread_id s = 0) ∧
    ∀ op w, mgr_allowed (E := E) c gs op → no_fail w → is_Some (mgr_exec once_ok new_thread cb op c w).
Proof.
  intros Honce Hthr Hmax Hr. destruct (mgr_reachable_inv _ _ _ _ Honce Hthr Hmax Hr) as (gs & Hinv).
  pose proof Hinv as ((t & Hok) & Hne & Hset & Hd). exists gs, t. split_and!; try done.
  - intros a b. by eapply one_established.
  - intros g gr p s Hg Hgr Hp Hs. by apply (Hset g gr p s).
  - intros op w Hal Hnf. destruct (mgr_op_inv once_ok new_thread cb c gs op w) as (c' & w' & -> & _); done.
Qed.


(** C16: When a socket reports an error, its group is in the state of an error, the client
    is told, and, if no group is established, the most preferable of the closed groups is
    started; nothing else changes.  (Callbacks run one after the other, and memory and
    threads last.) *)
Theorem mgr_failover_correct c gs t g gr p st w :
  mgr_ok (E := E) c gs t → sockets_settled c gs → owned c g gr → p ∈ sockets gr → is_mgr_error st →
  once_ok = true → (∀ p, is_Some (new_thread p)) → no_fail w →
  let c1 := put_group c g (with_status gr RTR_MGR_ERROR) in
  wp (rtr_mgr_cb once_ok new_thread c p st) (λ c' w', runs w (status_told c g RTR_MGR_ERROR (Some p)) w' ∧ mgr_ok (E := E) c' gs t ∧
    match failover c1 gs g with
    | Some g' => ∃ gr', group_at c !! g' = Some gr' ∧ launches new_thread c1 g' gr' c'
    | None => c' = c1
    end) w.
Proof.
  intros Hok Hset Ho Hp Herr Honce Hthr Hnf c1. eapply error_spec; try done. intros g' gr' Hf Hgr'.
  unfold failover in Hf. case_decide; [done|]. apply head_Some_elem_of, list_elem_of_filter in Hf as [[Hn Hc] Hin].
  unfold c1 in Hc. rewrite status_put, decide_False in Hc by done. unfold status_of in Hc. rewrite Hgr' in Hc. injection Hc as Hc.
  destruct (mgr_ok_owned _ _ _ Hok g' Hin) as (gr1 & Hg1 & _ & Hps1). simplify_eq. split; [done|]. apply Forall_forall.
  intros q Hq. split; [|done]. destruct (Hps1 q Hq) as (sq & Hsq & _). rewrite Hsq. by apply (Hset g' gr' q sq).
Qed.

(** C32: While memory and threads last, adding a group whose preference is taken is refused
    and changes nothing.  Any other group, with sockets that are in no other group, is
    copied into the list of groups, at the place of its preference, and is closed.  Its
    sockets are initialised by [rtr_init], with the intervals of the first socket of the
    last group, and belong to it; all other sockets and groups are as before.  Then the
    best group is started if it is closed.  The tables are kept. *)
Theorem mgr_add_group_correct c gs t ng w :
  mgr_ok (E := E) c gs t → sockets_settled c gs → addable c gs ng → Z.of_nat (length gs) + 1 < 2 ^ 32 →
  once_ok = true → (∀ p, is_Some (new_thread p)) → no_fail w →
  wp (rtr_mgr_add_group once_ok new_thread cb c ng) (λ '(rv, c') w', emits w [] w' ∧
    if decide (preference ng ∈ preference_of c <$> gs) then rv = RTR_INVALID_PARAM ∧ c' = c
    else rv = RTR_SUCCESS ∧ ∃ gs' c1, gs' ≡ₚ next_group c :: gs ∧ mgr_ok (E := E) c' gs' t ∧ best_started new_thread c1 gs' c' ∧
      group_at c1 !! next_group c = Some (with_status ng RTR_MGR_CLOSED) ∧ (∀ g, g ∈ gs → group_at c1 !! g = group_at c !! g) ∧
      new_sockets cb c gs ng c1) w.
Proof.
  intros Hok Hset Hadd Hlen Honce Hthr Hnf. eapply wp_mono; [by eapply add_group_spec|]. intros [rv c'] w' (Hw & Hc).
  split; [done|]. case_decide; [done|]. destruct Hc as (-> & gs' & c1 & Hp & Hok' & _ & Hb & Hon & _ & Hga & Hns).
  split; [done|]. exists gs', c1. split_and!; try done. apply Hon.
Qed.

(** C33: While memory and threads last: the last group cannot be removed, nor one that is
    not there.  Removing another group takes it from the list, stops its sockets if it was
    not closed, so that the tables lose exactly the records of the caches that were stopped,
    frees it, and starts the best of the remaining groups if it is closed. *)
Theorem mgr_remove_group_correct c gs t pref w :
  mgr_ok (E := E) c gs t → sockets_settled c gs → once_ok = true → (∀ p, is_Some (new_thread p)) → no_fail w →
  wp (rtr_mgr_remove_group once_ok new_thread c pref) (λ '(rv, c') w',
    if decide (length gs = 1%nat ∨ pref ∉ preference_of c <$> gs) then rv = RTR_ERROR ∧ c' = c
    else rv = RTR_SUCCESS ∧ ∃ g gr c1 t', g ∈ gs ∧ group_at c !! g = Some gr ∧ preference gr = pref ∧
      group_at c1 = delete g (group_at c) ∧
      (∀ p, socket_at c1 !! p = (if decide (status gr ≠ RTR_MGR_CLOSED ∧ p ∈ sockets gr) then stop_result else id) <$> socket_at c !! p) ∧
      without_all (running c (sockets gr)) t t' ∧
      best_started new_thread c1 (filter (λ g', g' ≠ g) gs) c' ∧ mgr_ok (E := E) c' (filter (λ g', g' ≠ g) gs) t') w.
Proof.
  intros Hok Hset Honce Hthr Hnf. eapply wp_mono; [by eapply remove_group_spec|]. intros [rv c'] w' (_ & Hc).
  case_decide; [done|]. destruct Hc as (-> & g & gr & c1 & Hg & Hgr & Hpref & Hrm & Hb). split; [done|].
  destruct (mgr_ok_owned _ _ _ Hok g Hg) as [gr1 Ho]. pose proof (proj1 Ho). simplify_eq.
  destruct (mgr_ok_removes _ _ _ _ _ _ Hok Hg Ho Hrm) as (t' & Hok1 & Hwo). pose proof Hrm as (_ & _ & _ & _ & _ & _ & Hga & Hs & _).
  exists g, gr, c1, t'. split_and!; try done. by eapply best_started_ok.
Qed.

End Theorems.

(** ** Instances *)

#[local] Existing Instance debug_build.
#[local] Existing Instance little_endian_host.

(** Everything the outside sees of a manager. *)
Inductive mgr_log := LogTable (e : rtr_log) | LogMgr (e : mgr_event).

#[export] Instance mgr_log_pfx : Event pfx_event mgr_log := λ e, LogTable (LogPfx e).
#[export] Instance mgr_log_spki : Event spki_event mgr_log := λ e, LogTable (LogSpki e).
#[export] Instance mgr_log_aspa : Event aspa_event mgr_log := λ e, LogTable (LogAspa e).
#[export] Instance mgr_log_tr : Event tr_event mgr_log := λ e, LogTable (LogTr e).
#[export] Instance mgr_log_rtr : Event rtr_event mgr_log := λ e, LogTable (LogRtr e).
#[export] Instance mgr_log_mgr : Event mgr_event mgr_log := LogMgr.

Definition mgr_world : world mgr_log := World [] [] idle.

Definition test_threads (p : socket_ptr) : option Z := Some (100 + Z.of_nat p).

Abbreviation config := (rtr_mgr_config (tommy_hashlin key_entry)) (only parsing).

Definition client_socket (p : socket_ptr) : rtr_socket :=
  RtrSocket p 0 0 0 0 RTR_INTERVAL_MODE_IGNORE_ANY RTR_CLOSED 0 false 0 0 None 0 false false.

Definition client_sockets : gmap socket_ptr rtr_socket :=
  <[7%nat := client_socket 7]> (<[8%nat := client_socket 8]> ∅).
Definition client_groups : list rtr_mgr_group :=
  [MgrGroup [8%nat] 2 RTR_MGR_ERROR; MgrGroup [7%nat] 1 RTR_MGR_CLOSED].

Lemma client_groups_ready : groups_ready client_sockets client_groups.
Proof.
  split; [decided|]. split; [decided|]. intros p. simpl. rewrite !elem_of_cons.
  intros [->|[->|[]%elem_of_nil]]; eexists; split; reflexivity.
Qed.

Lemma mgr_reachable_safe_witness :
  ∃ (c : config) gs t, mgr_ok (E := mgr_log) c gs t ∧ gs ≠ [] ∧
    ∀ a b, a ∈ gs → b ∈ gs → status_of c a = Some RTR_MGR_ESTABLISHED → status_of c b = Some RTR_MGR_ESTABLISHED → a = b.
Proof.
  destruct (mgr_setup_spec (E := mgr_log) (HT := tommy_hashlin key_entry) 1 client_sockets client_groups None None None None
    3600 7200 600 mgr_world) as ([rv oc] & w' & Hrun & -> & c & -> & _); try (done || decided); [apply client_groups_ready|].
  destruct (mgr_reachable_safe (E := mgr_log) (HT := tommy_hashlin key_entry) true test_threads 1 c)
    as (gs & t & Hok & Hne & Hone & _); [done|by eexists|done| |].
  - eapply (reach_setup true test_threads 1 client_sockets client_groups None None None None 3600 7200 600 mgr_world c w');
      [done|apply client_groups_ready|decided|done|decided|constructor|exact Hrun].
  - exists c, gs, t. done.
Defined.

Definition live_socket (p : socket_ptr) (thread : Z) : rtr_socket :=
  RtrSocket p 3600 9 7200 600 RTR_INTERVAL_MODE_DEFAULT_MIN_MAX RTR_ESTABLISHED 42 false 5 thread (Some 1%nat) 2 true false.

(** Two groups with a socket each; the tables are those of [empty_tables]. *)
Definition two_groups (st : key_table) (st0 st1 : rtr_mgr_status) (thread1 : Z) : config :=
  MgrConfig (Ptr [0%nat; 1%nat]) 2 Unlocked (Some 5%nat) (Ptr (rtr_pfx_table_init (Some 1%nat))) (Ptr st) (Ptr (rtr_aspa_table_init (Some 3%nat)))
    (<[0%nat := MgrGroup [7%nat] 1 st0]> (<[1%nat := MgrGroup [8%nat] 2 st1]> ∅)) 2
    (<[7%nat := live_socket 7 50]> (<[8%nat := live_socket 8 thread1]> ∅)) (<[7%nat := 0%nat]> (<[8%nat := 1%nat]> ∅)).

Lemma two_groups_owned st st0 st1 thread1 :
  owned (two_groups st st0 st1 thread1) 0 (MgrGroup [7%nat] 1 st0) ∧ owned (two_groups st st0 st1 thread1) 1 (MgrGroup [8%nat] 2 st1).
Proof.
  split; (split; [reflexivity|]; split; [decided|]; intros p ->%list_elem_of_singleton; eexists; split; [reflexivity|]; split; reflexivity).
Qed.

Lemma two_groups_ok st st0 st1 thread1 :
  tables_ok (E := mgr_log) (empty_tables st) → mgr_ok (E := mgr_log) (two_groups st st0 st1 thread1) [0%nat; 1%nat] (empty_tables st).
Proof.
  intros Hok. destruct (two_groups_owned st st0 st1 thread1) as [Ho0 Ho1]. split; [done|]. split; [done|]. split; [done|]. split.
  { repeat constructor. }
  split; [|split; [|done]].
  - intros g. rewrite !elem_of_cons. intros [->|[->|[]%elem_of_nil]]; eexists; split; done.
  - intros g. unfold two_groups. cbn [group_at next_group]. rewrite !dom_insert, dom_empty. set_unfold. intros [->|[->|[]]]; lia.
Qed.

Lemma mgr_tables_empty (w : world mgr_log) :
  no_fail w → ∃ st w', spki_table_init (Some 2%nat) w = Some (st, w') ∧ no_fail w' ∧ tables_ok (E := mgr_log) (empty_tables st).
Proof.
  intros Hnf. destruct (empty_keys_spec (E := mgr_log) (HT := tommy_hashlin key_entry) (Some 2%nat) w) as (st & w' & Hi & Hw & Hst & _); [done|done|].
  exists st, w'. split; [done|]. split; [by eapply emits_no_fail|]. split; [decided|]. split; [done|decided].
Qed.


Lemma two_groups_settled st st0 st1 thread1 :
  st0 ≠ RTR_MGR_CLOSED → (st1 = RTR_MGR_CLOSED → thread1 = 0) → sockets_settled (two_groups st st0 st1 thread1) [0%nat; 1%nat].
Proof.
  intros Hst0 Hst1 g gr p s. rewrite !elem_of_cons. intros [->|[->|[]%elem_of_nil]] Hgr Hp Hs; vm_compute in Hgr; simplify_eq;
    apply list_elem_of_singleton in Hp as ->; vm_compute in Hs; simplify_eq; split; (decided || done).
Qed.

Lemma mgr_failover_correct_witness :
  ∃ (st : key_table) w, wp (rtr_mgr_cb true test_threads (two_groups st RTR_MGR_ESTABLISHED RTR_MGR_CLOSED 0) 7 RTR_ERROR_TRANSPORT)
    (λ c' w', status_of c' 0 = Some RTR_MGR_ERROR ∧ status_of c' 1 = Some RTR_MGR_CONNECTING ∧
      thread_id <$> socket_at c' !! 8%nat = Some 108) (w : world mgr_log).
Proof.
  destruct (mgr_tables_empty mgr_world) as (st & w & _ & Hnf & Hok); [constructor|]. exists st, w.
  destruct (two_groups_owned st RTR_MGR_ESTABLISHED RTR_MGR_CLOSED 0) as [Ho0 _]. eapply wp_mono.
  { eapply (mgr_failover_correct true test_threads (two_groups st RTR_MGR_ESTABLISHED RTR_MGR_CLOSED 0) [0%nat; 1%nat]
      (empty_tables st) 0 _ 7 RTR_ERROR_TRANSPORT w); [by apply two_groups_ok|by apply two_groups_settled|exact Ho0|left|by right; left|done|by eexists|done]. }
  intros c' w' (_ & _ & Hc). vm_compute failover in Hc. destruct Hc as (gr' & Hgr' & _ & Hga & _ & Hs).
  vm_compute in Hgr'. simplify_eq. unfold status_of. rewrite Hga, Hs. split_and!; reflexivity.
Defined.

Lemma mgr_remove_group_correct_witness :
  ∃ (st : key_table) w, wp (rtr_mgr_remove_group true test_threads (two_groups st RTR_MGR_ESTABLISHED RTR_MGR_CLOSED 0) 1)
    (λ '(rv, c') w', rv = RTR_SUCCESS ∧ status_of c' 0 = None ∧ status_of c' 1 = Some RTR_MGR_CONNECTING) (w : world mgr_log).
Proof.
  destruct (mgr_tables_empty mgr_world) as (st & w & _ & Hnf & Hok); [constructor|]. exists st, w. eapply wp_mono.
  { eapply (mgr_remove_group_correct true test_threads (two_groups st RTR_MGR_ESTABLISHED RTR_MGR_CLOSED 0) [0%nat; 1%nat]
      (empty_tables st) 1 w); [by apply two_groups_ok|by apply two_groups_settled|done|by eexists|done]. }
  intros [rv c'] w' Hc. cbv beta iota in Hc. rewrite decide_False in Hc.
  2:{ intros [?|Hn]; [done|]. apply Hn. left. }
  destruct Hc as (-> & g & gr & c1 & t' & Hg & Hgr & Hpref & Hga & _ & _ & (b & br & Hh & Hb & Hl) & _). split; [done|].
  rewrite !elem_of_cons in Hg. destruct Hg as [->|[->|[]%elem_of_nil]]; vm_compute in Hgr; simplify_eq.
  vm_compute in Hh. simplify_eq. rewrite Hga in Hb. vm_compute in Hb. simplify_eq. destruct Hl as (_ & Hga' & _).
  unfold status_of. rewrite Hga', Hga. split; reflexivity.
Defined.

Lemma mgr_add_group_correct_witness :
  ∃ (st : key_table) w, wp (rtr_mgr_add_group true test_threads 1
      (set_socket_at (two_groups st RTR_MGR_ESTABLISHED RTR_MGR_CLOSED 0)
         (<[9%nat := client_socket 9]> (socket_at (two_groups st RTR_MGR_ESTABLISHED RTR_MGR_CLOSED 0))) (<[7%nat := 0%nat]> (<[8%nat := 1%nat]> ∅)))
      (MgrGroup [9%nat] 0 RTR_MGR_ERROR))
    (λ '(rv, c') w', rv = RTR_SUCCESS ∧ ∃ gs' t', mgr_ok (E := mgr_log) c' gs' t' ∧ gs' ≡ₚ [2%nat; 0%nat; 1%nat]) (w : world mgr_log).
Proof.
  destruct (mgr_tables_empty mgr_world) as (st & w & _ & Hnf & Hok); [constructor|]. exists st, w.
  set (c := two_groups st RTR_MGR_ESTABLISHED RTR_MGR_CLOSED 0). set (c1 := set_socket_at c _ _).
  assert (mgr_ok (E := mgr_log) c [0%nat; 1%nat] (empty_tables st)) as Hc by by apply two_groups_ok.
  assert (mgr_ok (E := mgr_log) c1 [0%nat; 1%nat] (empty_tables st)) as Hc1.
  { eapply (mgr_ok_frame c); try done.
    - intros g. exists status. by rewrite with_status_fmap.
    - intros g gr Hg (Hgr & Hnd & Hps). exists (status gr). rewrite with_status_same. split; [done|]. split; [done|].
      intros p Hp. destruct (Hps p Hp) as (s & Hs & Hself & Hof). exists s. split_and!; try done. simpl. rewrite lookup_insert_ne; [done|].
      intros <-. vm_compute in Hs. done. }
  eapply wp_mono.
  { eapply (mgr_add_group_correct true test_threads 1 c1 [0%nat; 1%nat] (empty_tables st) (MgrGroup [9%nat] 0 RTR_MGR_ERROR) w);
      [done| | |done|done|by eexists|done].
    - intros g gr p s. rewrite !elem_of_cons. intros [->|[->|[]%elem_of_nil]] Hgr Hp Hs; vm_compute in Hgr; simplify_eq;
        apply list_elem_of_singleton in Hp as ->; vm_compute in Hs; simplify_eq; split; (decided || done).
    - split; [done|]. split; [decided|]. intros p ->%list_elem_of_singleton. split; [eexists; split; reflexivity|].
      vm_compute. intros Hn. set_solver. }
  intros [rv c'] w' (_ & Hc'). cbv beta iota in Hc'. rewrite decide_False in Hc'; [|vm_compute; set_solver].
  destruct Hc' as (-> & gs' & c2 & Hp & Hok' & _). split; [done|]. by exists gs', (empty_tables st).
Defined.

(** ** Limits *)

(** Two groups with the same preference are not refused with an error as documented:
    the error path of [rtr_mgr_init] frees the pointer to the groups, which has not been
    written to.  The same holds for a group without sockets. *)
Theorem mgr_init_refusal_undefined :
  rtr_mgr_init (E := mgr_log) (HT := tommy_hashlin key_entry) client_sockets
    [MgrGroup [7%nat] 1 RTR_MGR_CLOSED; MgrGroup [8%nat] 1 RTR_MGR_CLOSED] None true mgr_world = None ∧
  rtr_mgr_init (E := mgr_log) (HT := tommy_hashlin key_entry) client_sockets [MgrGroup [] 1 RTR_MGR_CLOSED] None true mgr_world = None.
Proof. split; vm_compute; reflexivity. Qed.

(** A manager for route origins only: no support for ASPAs and router keys is asked for. *)
Definition roa_manager : M mgr_log (Z * config) :=
  '(_, grs, c) ← rtr_mgr_init client_sockets client_groups None true;
  '(_, c) ← rtr_mgr_add_roa_support c None;
  c ← of_option c;
  rtr_mgr_setup_sockets 1 c grs 3600 7200 600.

(** Without support for all three kinds of records the sockets get pointers to tables that
    have not been written to. *)
Theorem partial_support_undefined : roa_manager mgr_world = None.
Proof. vm_compute. reflexivity. Qed.

(** A manager with an established group and one that was never started is stopped and
    started again; then the established group has an error. *)
Definition stop_and_fail : M mgr_log config :=
  st ← spki_table_init (Some 2%nat);
  c ← rtr_mgr_stop (two_groups st RTR_MGR_ESTABLISHED RTR_MGR_CLOSED 0);
  '(_, c) ← rtr_mgr_start true test_threads c;
  rtr_mgr_cb true test_threads c 7 RTR_ERROR_TRANSPORT.

(** Stopping the manager leaves a socket that was not running in the state of a
    shutdown.  When its group is started later, as the failover after an error, its thread
    ends at once: the group is being connected for ever. *)
Theorem mgr_stop_disables_idle_groups :
  (λ '(c, _), (status_of c 0, status_of c 1, (λ s, (thread_id s, fsm_begin s true None)) <$> socket_at c !! 8%nat)) <$>
    stop_and_fail mgr_world = Some (Some RTR_MGR_ERROR, Some RTR_MGR_CONNECTING, Some (108, None)).
Proof. vm_compute. reflexivity. Qed.

(** A third group is added, but the memory for its list node is refused. *)
Definition add_without_memory : M mgr_log (Z * config) :=
  st ← spki_table_init (Some 2%nat);
  let c := two_groups st RTR_MGR_ESTABLISHED RTR_MGR_CLOSED 0 in
  let c := set_socket_at c (<[9%nat := client_socket 9]> (socket_at c)) (group_of c) in
  rtr_mgr_add_group true test_threads 1 c (MgrGroup [9%nat] 3 RTR_MGR_CLOSED).

(** When the second allocation of [rtr_mgr_add_group] fails, the group is not added, but
    the call returns success. *)
Theorem add_group_hides_failure :
  (λ '(rv, c, w), (rv, groups c, allocs w)) <$> add_without_memory (World [true; true; false] [] idle) =
    Some (RTR_SUCCESS, Ptr [0%nat; 1%nat], []).
Proof. vm_compute. reflexivity. Qed.
