(* ===== verification/Bgpsec.v ===== *)
(** * BGPsec: [rtrlib/bgpsec/bgpsec.c], [bgpsec_utils.c]

    Segments are linked through their member [next]: a chain is a list, and a pointer to
    a segment is the chain that begins with it, empty for the null pointer.  What OpenSSL
    computes is a parameter, the class [OpenSSL].  When memory is freed is not modelled,
    except that the pointer to a freed signature dangles; log messages are not modelled. *)

From S2P Require Import Prelude Hashlin Spki AspaArray Aspa Pdu.
Open Scope Z_scope.

(** The functions of OpenSSL; a key is loaded from bytes or not ([None]), the result of
    signing is empty when it fails. *)
Class OpenSSL := {
  EC_KEY : Type;
  d2i_EC_PUBKEY : list Z → option EC_KEY;
  d2i_ECPrivateKey : list Z → option EC_KEY;
  EC_KEY_check_key : EC_KEY → Z;
  SHA256 : list Z → list Z;
  ECDSA_verify : list Z → list Z → EC_KEY → Z;
  ECDSA_size : EC_KEY → Z;
  ECDSA_sign : list Z → EC_KEY → list Z }.

(** ** Data *)

Definition BGPSEC_IPV4 : Z := 1.
Definition BGPSEC_IPV6 : Z := 2.
Definition RTR_BGPSEC_ALGORITHM_SUITE_1 : Z := 1.

Definition RTR_BGPSEC_NOT_VALID : Z := 2.
Definition RTR_BGPSEC_VALID : Z := 1.
Definition RTR_BGPSEC_SUCCESS : Z := 0.
Definition RTR_BGPSEC_ERROR : Z := -1.
Definition RTR_BGPSEC_LOAD_PUB_KEY_ERROR : Z := -2.
Definition RTR_BGPSEC_LOAD_PRIV_KEY_ERROR : Z := -3.
Definition RTR_BGPSEC_ROUTER_KEY_NOT_FOUND : Z := -4.
Definition RTR_BGPSEC_SIGNING_ERROR : Z := -5.
Definition RTR_BGPSEC_UNSUPPORTED_ALGORITHM_SUITE : Z := -6.
Definition RTR_BGPSEC_UNSUPPORTED_AFI : Z := -7.
Definition RTR_BGPSEC_WRONG_SEGMENT_COUNT : Z := -8.
Definition RTR_BGPSEC_INVALID_ARGUMENTS : Z := -9.
Definition RTR_BGPSEC_NOT_INITIALIZED : Z := -10.

Definition SKI_SIZE : nat := 20.
Definition SPKI_SIZE : nat := 91.
Definition SECURE_PATH_SEG_SIZE : Z := 6.
Definition PRIVATE_KEY_LENGTH : nat := 121.
Definition sizeof_sig_len : Z := 2.
Definition BGPSEC_VERSION : Z := 0.

Record rtr_secure_path_seg := SecurePathSeg { pcount : Z; flags : Z; seg_asn : Z }.

(** The signature is a pointer to memory of at least [sig_len] bytes, or null. *)
Record rtr_signature_seg := SignatureSeg { sig_ski : list Z; sig_len : Z; signature : option (list Z) }.

Record rtr_bgpsec_nlri := Nlri { nlri_afi : Z; nlri_safi : Z; nlri_len : Z; nlri_bytes : list Z }.

Record rtr_bgpsec := BgpSec {
  alg : Z;
  safi : Z;
  afi : Z;
  my_as : Z;
  target_as : Z;
  sigs_len : Z;
  path_len : Z;
  nlri : option rtr_bgpsec_nlri;
  sigs : list rtr_signature_seg;
  path : list rtr_secure_path_seg }.

Definition set_sigs (d : rtr_bgpsec) (l : list rtr_signature_seg) (n : Z) : rtr_bgpsec :=
  BgpSec (alg d) (safi d) (afi d) (my_as d) (target_as d) n (path_len d) (nlri d) l (path d).
Definition set_path (d : rtr_bgpsec) (l : list rtr_secure_path_seg) (n : Z) : rtr_bgpsec :=
  BgpSec (alg d) (safi d) (afi d) (my_as d) (target_as d) (sigs_len d) n (nlri d) (sigs d) l.

(** ** Streams *)

(** The memory the stream points to has [str_size] bytes. *)
Record stream := Stream { str_size : Z; str_bytes : list Z; w_head : Z; r_head : Z }.

Inductive align_type := VALIDATION | SIGNING.

Section Bgpsec.
Context `{Build} `{Host} {E HT : Type} `{!HashTable E HT key_entry} `{!Event spki_event E} `{!OpenSSL}.
Implicit Types (s : stream) (d : rtr_bgpsec) (t : rtr_spki_table HT).

Definition init_stream (size : Z) : M E (option stream) :=
  let size := u16 size in
  ok ← alloc;
  if negb ok then mret None
  else
    ok ← alloc;
    if negb ok then mret None
    else mret (Some (Stream size (repeat 0 (Z.to_nat size)) 0 0)).

Definition copy_stream s : M E (option stream) :=
  cpy ← init_stream (str_size s);
  match cpy with
  | None => mret None
  | Some cpy =>
      data ← of_option (slice (str_bytes s) 0 (Z.to_nat (str_size s)));
      b ← of_option (write (str_bytes cpy) 0 data);
      mret (Some (Stream (str_size cpy) b (w_head s) (r_head s)))
  end.

(** The first [len] bytes at [data] are copied to the stream. *)
Definition write_stream s (data : list Z) (len : Z) : option stream :=
  let len := u16 len in
  l ← slice data 0 (Z.to_nat len);
  b ← write (str_bytes s) (Z.to_nat (w_head s)) l;
  Some (Stream (str_size s) b (u16 (w_head s + len)) (r_head s)).

Definition read_stream s : option (Z * stream) :=
  c ← str_bytes s !! Z.to_nat (r_head s);
  Some (c, Stream (str_size s) (str_bytes s) (w_head s) (u16 (r_head s + 1))).

(** The size is of type [size_t]. *)
Definition read_n_bytes_stream (buff : list Z) s (len : Z) : option (list Z * stream) :=
  let len := u16 len in
  let len := if str_size s <=? r_head s + len then u16 (str_size s - r_head s - 1) else len in
  l ← slice (str_bytes s) (Z.to_nat (r_head s)) (Z.to_nat len);
  buff ← write buff 0 l;
  Some (buff, Stream (str_size s) (str_bytes s) (w_head s) (u16 (r_head s + len))).

Definition read_stream_at (buff : list Z) s (start len : Z) : option (list Z) :=
  let start := u16 start in
  let len := u16 len in
  let len := if str_size s <? start + len then u16 (str_size s - start) else len in
  l ← slice (str_bytes s) (Z.to_nat start) (Z.to_nat len);
  write buff 0 l.

Definition get_stream_start s : list Z := str_bytes s.
Definition get_stream_size s : Z := str_size s.

(** ** Sizes *)

Fixpoint sig_segs_size (l : list rtr_signature_seg) (size : Z) : Z :=
  match l with
  | [] => size
  | curr :: l => sig_segs_size l (u32 (size + sig_len curr + sizeof_sig_len + Z.of_nat SKI_SIZE))
  end.

Definition get_sig_seg_size (sig_segs : list rtr_signature_seg) (type : align_type) : Z :=
  match sig_segs with
  | [] => 0
  | _ :: next => sig_segs_size (match type with VALIDATION => next | SIGNING => sig_segs end) 0
  end.

Definition req_stream_size d (type : align_type) : option Z :=
  n ← nlri d;
  let sig_segs_size := get_sig_seg_size (sigs d) type in
  let nlri_len_b := u8 ((nlri_len n + 7) / 8) in
  Some (u32 (9 + nlri_len_b + sig_segs_size + SECURE_PATH_SEG_SIZE * path_len d)).

(** ** The octets to hash *)

(** A 16-bit or 32-bit variable in the byte order of the network. *)
Definition write_stream16 s (v : Z) : option stream := write_stream s (host_bytes 2 (htons v)) 2.
Definition write_stream32 s (v : Z) : option stream := write_stream s (host_bytes 4 (htonl v)) 4.

Definition align_signature s (tmp_sig : rtr_signature_seg) : option stream :=
  s ← write_stream s (sig_ski tmp_sig) (Z.of_nat SKI_SIZE);
  s ← write_stream16 s (sig_len tmp_sig);
  data ← signature tmp_sig;
  write_stream s data (sig_len tmp_sig).

Fixpoint align_segments s (tmp_sec : list rtr_secure_path_seg) (tmp_sig : list rtr_signature_seg) : option stream :=
  match tmp_sec with
  | [] => Some s
  | sec :: tmp_sec =>
      '(s, tmp_sig) ←
        match tmp_sig with
        | [] => Some (s, [])
        | sg :: tmp_sig => s ← align_signature s sg; Some (s, tmp_sig)
        end;
      s ← write_stream s [pcount sec] 1;
      s ← write_stream s [flags sec] 1;
      s ← write_stream32 s (seg_asn sec);
      align_segments s tmp_sec tmp_sig
  end.

Definition align_byte_sequence d s (type : align_type) : option (Z * stream) :=
  s ← write_stream32 s (target_as d);
  tmp_sig ← match type with
            | VALIDATION => match sigs d with [] => None | _ :: next => Some next end
            | SIGNING => Some (sigs d)
            end;
  s ← align_segments s (path d) tmp_sig;
  s ← write_stream s [alg d] 1;
  s ← write_stream16 s (afi d);
  s ← write_stream s [safi d] 1;
  n ← nlri d;
  s ← write_stream s [nlri_len n] 1;
  s ← write_stream s (nlri_bytes n) ((nlri_len n + 7) / 8);
  Some (RTR_BGPSEC_SUCCESS, s).

(** ** Keys, hashes and signatures *)

(** Is there a router key for every signature? *)
Fixpoint check_router_keys (sig_segs : list rtr_signature_seg) t : M E (Z * rtr_spki_table HT) :=
  match sig_segs with
  | [] => mret (RTR_BGPSEC_SUCCESS, t)
  | curr :: next =>
      '(spki_retval, tmp_key, t) ← spki_table_search_by_ski t (sig_ski curr);
      if decide (spki_retval = RTR_SPKI_ERROR) then mret (RTR_BGPSEC_ERROR, t)
      else
        keys ← of_option tmp_key;
        if bool_decide (keys = []) then mret (RTR_BGPSEC_ROUTER_KEY_NOT_FOUND, t)
        else check_router_keys next t
  end.

Definition load_public_key (spki : list Z) : Z * option EC_KEY :=
  match d2i_EC_PUBKEY (take SPKI_SIZE spki) with
  | None => (RTR_BGPSEC_LOAD_PUB_KEY_ERROR, None)
  | Some pub_key =>
      if EC_KEY_check_key pub_key =? 0 then (RTR_BGPSEC_LOAD_PUB_KEY_ERROR, None)
      else (RTR_BGPSEC_SUCCESS, Some pub_key)
  end.

Definition load_private_key (bytes_key : list Z) : Z * option EC_KEY :=
  match d2i_ECPrivateKey (take PRIVATE_KEY_LENGTH bytes_key) with
  | None => (RTR_BGPSEC_LOAD_PRIV_KEY_ERROR, None)
  | Some priv_key =>
      if EC_KEY_check_key priv_key =? 0 then (RTR_BGPSEC_LOAD_PRIV_KEY_ERROR, None)
      else (RTR_BGPSEC_SUCCESS, Some priv_key)
  end.

(** [None]: the signature is not there or too short. *)
Definition validate_signature (hash : list Z) (sg : rtr_signature_seg) (record : rtr_spki_record) : option Z :=
  match load_public_key (spki record) with
  | (_, None) => Some RTR_BGPSEC_ERROR
  | (retval, Some pub_key) =>
      data ← signature sg;
      data ← slice data 0 (Z.to_nat (sig_len sg));
      let status := ECDSA_verify hash data pub_key in
      Some (if status =? -1 then RTR_BGPSEC_ERROR
            else if status =? 0 then RTR_BGPSEC_NOT_VALID
            else if status =? 1 then RTR_BGPSEC_VALID
            else retval)
  end.

Definition hash_byte_sequence (bytes : list Z) (alg_suite_id : Z) : M E (Z * option (list Z)) :=
  if alg_suite_id =? RTR_BGPSEC_ALGORITHM_SUITE_1 then
    ok ← alloc;
    if negb ok then mret (RTR_BGPSEC_ERROR, None)
    else mret (RTR_BGPSEC_SUCCESS, Some (SHA256 bytes))
  else mret (RTR_BGPSEC_UNSUPPORTED_ALGORITHM_SUITE, None).

(** The signature is written to memory that has been allocated for it. *)
Definition sign_byte_sequence (hash_result : list Z) (priv_key : EC_KEY) (alg : Z) (new_signature : rtr_signature_seg)
  : option (Z * rtr_signature_seg) :=
  if alg =? RTR_BGPSEC_ALGORITHM_SUITE_1 then
    let sig_res := ECDSA_sign hash_result priv_key in
    data ← signature new_signature;
    data ← write data 0 sig_res;
    if Z.of_nat (length sig_res) <? 1
    then Some (RTR_BGPSEC_SIGNING_ERROR, SignatureSeg (sig_ski new_signature) (sig_len new_signature) (Some data))
    else Some (RTR_BGPSEC_SUCCESS,
               SignatureSeg (sig_ski new_signature) (u16 (Z.of_nat (length sig_res))) (Some data))
  else Some (RTR_BGPSEC_UNSUPPORTED_ALGORITHM_SUITE, new_signature).

Definition ski_is_empty (ski : list Z) : bool := forallb (λ b, b =? 0) (take SKI_SIZE ski).

(** ** Versions and algorithm suites *)

Definition algorithm_suites : list Z := [RTR_BGPSEC_ALGORITHM_SUITE_1].

Definition rtr_bgpsec_get_version : Z := BGPSEC_VERSION.

Definition rtr_bgpsec_has_algorithm_suite (alg_suite : Z) : Z :=
  if existsb (λ a, alg_suite =? a) algorithm_suites then RTR_BGPSEC_SUCCESS else RTR_BGPSEC_ERROR.

Definition rtr_bgpsec_get_algorithm_suites : Z * list Z := (Z.of_nat (length algorithm_suites), algorithm_suites).

(** ** Validation *)

(** The loop over the router keys of a signature; [retval] is the result so far. *)
Fixpoint validate_with_keys (alg : Z) (hash_result : list Z) (tmp_sig : rtr_signature_seg) (keys : list rtr_spki_record)
    (retval : Z) : option Z :=
  match keys with
  | [] => Some retval
  | key :: keys =>
      if alg =? RTR_BGPSEC_ALGORITHM_SUITE_1 then
        retval ← validate_signature hash_result tmp_sig key;
        if retval =? RTR_BGPSEC_VALID then Some retval else validate_with_keys alg hash_result tmp_sig keys retval
      else Some RTR_BGPSEC_UNSUPPORTED_ALGORITHM_SUITE
  end.

(** The loop over the signatures; with every iteration there is one less.  [tmp_sig] is
    dereferenced without a check. *)
Fixpoint validate_sigs (alg : Z) s (tmp_sig : list rtr_signature_seg) (offset retval : Z) t : M E (Z * rtr_spki_table HT) :=
  if (offset <=? get_stream_size s) && (retval =? RTR_BGPSEC_VALID) then
    match tmp_sig with
    | [] => of_option None
    | sg :: next =>
        let tmp_sig_len := match next with sg' :: _ => sig_len sg' | [] => sig_len sg end in
        let next_offset := u32 (tmp_sig_len + Z.of_nat SKI_SIZE + sizeof_sig_len + SECURE_PATH_SEG_SIZE) in
        let len := get_stream_size s - offset in
        ok ← alloc;
        if negb ok then mret (RTR_BGPSEC_ERROR, t)
        else
          curr ← of_option (read_stream_at (repeat 0 (Z.to_nat len)) s offset len);
          '(retval, hash_result) ← hash_byte_sequence curr alg;
          if negb (retval =? RTR_BGPSEC_SUCCESS) then mret (retval, t)
          else
            hash_result ← of_option hash_result;
            '(spki_retval, tmp_key, t) ← spki_table_search_by_ski t (sig_ski sg);
            if decide (spki_retval = RTR_SPKI_ERROR) then mret (RTR_BGPSEC_ERROR, t)
            else
              keys ← of_option tmp_key;
              retval ← of_option (validate_with_keys alg hash_result sg keys retval);
              validate_sigs alg s next (u32 (offset + next_offset)) retval t
    end
  else mret (retval, t).

(** The pointers [data] and [table] may be null. *)
Definition rtr_bgpsec_validate_as_path (data : option rtr_bgpsec) (table : option (rtr_spki_table HT))
  : M E (Z * option (rtr_spki_table HT)) :=
  of_option (assert_ (bool_decide (is_Some table)));;
  match data, table with
  | Some d, Some t =>
      if bool_decide (path d = []) || bool_decide (sigs d = []) then mret (RTR_BGPSEC_INVALID_ARGUMENTS, table)
      else if negb (path_len d =? sigs_len d) then mret (RTR_BGPSEC_WRONG_SEGMENT_COUNT, table)
      else if rtr_bgpsec_has_algorithm_suite (alg d) =? RTR_BGPSEC_ERROR
      then mret (RTR_BGPSEC_UNSUPPORTED_ALGORITHM_SUITE, table)
      else
        n ← of_option (nlri d);
        if negb (nlri_afi n =? BGPSEC_IPV4) && negb (nlri_afi n =? BGPSEC_IPV6)
        then mret (RTR_BGPSEC_UNSUPPORTED_AFI, table)
        else
          '(retval, t) ← check_router_keys (sigs d) t;
          if negb (retval =? RTR_BGPSEC_SUCCESS) then mret (retval, Some t)
          else
            stream_size ← of_option (req_stream_size d VALIDATION);
            s ← init_stream stream_size;
            match s with
            | None => mret (RTR_BGPSEC_ERROR, Some t)
            | Some s =>
                '(retval, s) ← of_option (align_byte_sequence d s VALIDATION);
                if negb (retval =? RTR_BGPSEC_SUCCESS) then mret (retval, Some t)
                else '(retval, t) ← validate_sigs (alg d) s (sigs d) 0 RTR_BGPSEC_VALID t; mret (retval, Some t)
            end
  | _, _ => mret (RTR_BGPSEC_INVALID_ARGUMENTS, table)
  end.

(** ** Segments *)

Definition rtr_bgpsec_new_signature_seg (ski : option (list Z)) (sig_len : Z) (signature : option (list Z))
  : M E (option rtr_signature_seg) :=
  let sig_len := u16 sig_len in
  ok ← alloc;
  if negb ok then mret None
  else
    ok ← alloc;
    if negb ok then mret None
    else
      ski ← of_option (match ski with Some ski => slice ski 0 SKI_SIZE | None => Some (repeat 0 SKI_SIZE) end);
      data ← of_option (match signature with
                        | Some l => slice l 0 (Z.to_nat sig_len)
                        | None => Some (repeat 0 (Z.to_nat sig_len))
                        end);
      mret (Some (SignatureSeg ski sig_len (Some data))).

Definition rtr_bgpsec_new_secure_path_seg (pcount flags asn : Z) : M E (option rtr_secure_path_seg) :=
  ok ← alloc;
  if negb ok then mret None else mret (Some (SecurePathSeg (u8 pcount) (u8 flags) (u32 asn))).

(** The segment is refused. *)
Definition bad_signature_seg (new_seg : list rtr_signature_seg) : bool :=
  match new_seg with
  | [] => true
  | sg :: _ => bool_decide (signature sg = None) || (sig_len sg =? 0) || ski_is_empty (sig_ski sg)
  end.

(** [next] of the new segment is only written to if there are segments. *)
Definition prepend {A} (new_seg l : list A) : option (list A) :=
  match l, new_seg with
  | [], _ => Some new_seg
  | _, sg :: _ => Some (sg :: l)
  | _, [] => None
  end.

Definition rtr_bgpsec_prepend_sig_seg d (new_seg : list rtr_signature_seg) : option (Z * rtr_bgpsec) :=
  if bad_signature_seg new_seg then Some (RTR_BGPSEC_ERROR, d)
  else l ← prepend new_seg (sigs d); Some (RTR_BGPSEC_SUCCESS, set_sigs d l (u16 (sigs_len d + 1))).

(** The segment that is taken away, if there is one. *)
Definition rtr_bgpsec_pop_signature_seg d : option rtr_signature_seg * rtr_bgpsec :=
  match sigs d with
  | [] => (None, d)
  | tmp :: next => (Some tmp, set_sigs d next (u16 (sigs_len d - 1)))
  end.

Definition rtr_bgpsec_append_sig_seg d (new_seg : list rtr_signature_seg) : Z * rtr_bgpsec :=
  if bad_signature_seg new_seg then (RTR_BGPSEC_ERROR, d)
  else (RTR_BGPSEC_SUCCESS, set_sigs d (sigs d ++ new_seg) (u16 (sigs_len d + 1))).

Definition rtr_bgpsec_prepend_sec_path_seg d (new_seg : list rtr_secure_path_seg) : option rtr_bgpsec :=
  l ← prepend new_seg (path d); Some (set_path d l (u8 (path_len d + 1))).

Definition rtr_bgpsec_append_sec_path_seg d (new_seg : list rtr_secure_path_seg) : rtr_bgpsec :=
  set_path d (path d ++ new_seg) (u8 (path_len d + 1)).

Definition rtr_bgpsec_pop_secure_path_seg d : option rtr_secure_path_seg * rtr_bgpsec :=
  match path d with
  | [] => (None, d)
  | tmp :: next => (Some tmp, set_path d next (u8 (path_len d - 1)))
  end.

Definition rtr_bgpsec_new (alg safi afi my_as target_as : Z) (nlri : option rtr_bgpsec_nlri) : M E (option rtr_bgpsec) :=
  ok ← alloc;
  if negb ok then mret None
  else mret (Some (BgpSec (u8 alg) (u8 safi) (u16 afi) (u32 my_as) (u32 target_as) 0 0 nlri [] [])).

(** [junk] is what the memory holds. *)
Definition rtr_bgpsec_nlri_new (junk : rtr_bgpsec_nlri) (len : Z) : M E (option rtr_bgpsec_nlri) :=
  ok ← alloc;
  if negb ok then mret None
  else
    ok ← alloc;
    if negb ok then mret None
    else mret (Some (Nlri (nlri_afi junk) (nlri_safi junk) (nlri_len junk)
      (take (Z.to_nat len) (nlri_bytes junk ++ repeat 0 (Z.to_nat len))))).

Definition rtr_bgpsec_add_spki_record t (record : rtr_spki_record) : M E (rtr_spki_table HT) :=
  '(_, t) ← spki_table_add_entry t record; mret t.

(** ** Signing *)

(** The part of [rtr_bgpsec_generate_signature] after the check of its arguments. *)
Definition new_signature_for d (private_key : list Z) : M E (Z * field rtr_signature_seg) :=
  if rtr_bgpsec_has_algorithm_suite (alg d) =? RTR_BGPSEC_ERROR
  then mret (RTR_BGPSEC_UNSUPPORTED_ALGORITHM_SUITE, Null)
  else
    n ← of_option (nlri d);
    if negb (nlri_afi n =? BGPSEC_IPV4) && negb (nlri_afi n =? BGPSEC_IPV6) then mret (RTR_BGPSEC_UNSUPPORTED_AFI, Null)
    else if negb (path_len d =? sigs_len d + 1) then mret (RTR_BGPSEC_WRONG_SEGMENT_COUNT, Null)
    else
      match load_private_key private_key with
      | (_, None) => mret (RTR_BGPSEC_LOAD_PRIV_KEY_ERROR, Null)
      | (_, Some priv_key) =>
          let req_sig_size := ECDSA_size priv_key in
          if req_sig_size =? 0 then mret (RTR_BGPSEC_LOAD_PRIV_KEY_ERROR, Null)
          else
            sg ← rtr_bgpsec_new_signature_seg None req_sig_size None;
            match sg with
            | None => mret (RTR_BGPSEC_ERROR, Null)
            | Some sg =>
                let sg := SignatureSeg (sig_ski sg) 0 (signature sg) in
                stream_size ← of_option (req_stream_size d SIGNING);
                s ← init_stream stream_size;
                match s with
                | None => mret (RTR_BGPSEC_ERROR, Ptr sg)
                | Some s =>
                    '(retval, s) ← of_option (align_byte_sequence d s SIGNING);
                    if negb (retval =? RTR_BGPSEC_SUCCESS) then mret (retval, Ptr sg)
                    else
                      bytes ← of_option (slice (get_stream_start s) 0 (Z.to_nat (get_stream_size s)));
                      '(retval, hash_result) ← hash_byte_sequence bytes (alg d);
                      if negb (retval =? RTR_BGPSEC_SUCCESS) then mret (retval, Ptr sg)
                      else
                        hash_result ← of_option hash_result;
                        '(retval, sg) ← of_option (sign_byte_sequence hash_result priv_key (alg d) sg);
                        mret (retval, if retval =? RTR_BGPSEC_SIGNING_ERROR then Uninit else Ptr sg)
                end
            end
      end.

(** [*new_signature] is null, a segment, or dangles after an error ([Uninit]). *)
Definition rtr_bgpsec_generate_signature (data : option rtr_bgpsec) (private_key : option (list Z))
    (new_signature : field rtr_signature_seg) : M E (Z * field rtr_signature_seg) :=
  match data with
  | None => mret (RTR_BGPSEC_INVALID_ARGUMENTS, new_signature)
  | Some d =>
      if bool_decide (path d = []) then mret (RTR_BGPSEC_INVALID_ARGUMENTS, new_signature)
      else
        match private_key with
        | None => mret (RTR_BGPSEC_INVALID_ARGUMENTS, new_signature)
        | Some private_key =>
            old ← of_option (read_field new_signature);
            if bool_decide (is_Some old) then mret (RTR_BGPSEC_INVALID_ARGUMENTS, new_signature)
            else new_signature_for d private_key
        end
  end.

End Bgpsec.
