(* ===== verification/BgpsecProofs.v ===== *)
(** * BGPsec: the octets that are hashed, and the verdict on a path *)

From S2P Require Import Prelude Hashlin Spki SpkiProofs AspaArray Aspa Pdu PduProofs Bgpsec.
Open Scope Z_scope.

(** ** The reference: RFC 8205, section 4.2 *)

Definition sig_octets (sg : rtr_signature_seg) : list Z :=
  sig_ski sg ++ be_bytes 2 (sig_len sg) ++ take (Z.to_nat (sig_len sg)) (default [] (signature sg)).
Definition path_octets (p : rtr_secure_path_seg) : list Z := [pcount p; flags p] ++ be_bytes 4 (seg_asn p).
Definition nlri_size (n : rtr_bgpsec_nlri) : Z := (nlri_len n + 7) / 8.
Definition update_octets (d : rtr_bgpsec) (n : rtr_bgpsec_nlri) : list Z :=
  [alg d] ++ be_bytes 2 (afi d) ++ [safi d; nlri_len n] ++ take (Z.to_nat (nlri_size n)) (nlri_bytes n).

(** Signature segments and secure path segments, alternating, from the latest to the
    first, which has no signature before it. *)
Fixpoint segment_octets (ss : list rtr_signature_seg) (ps : list rtr_secure_path_seg) : list Z :=
  match ps with
  | [] => []
  | p :: ps => match ss with sg :: _ => sig_octets sg | [] => [] end ++ path_octets p ++ segment_octets (tail ss) ps
  end.

Definition octets (d : rtr_bgpsec) (n : rtr_bgpsec_nlri) (target : Z) (ss : list rtr_signature_seg) (ps : list rtr_secure_path_seg) : list Z :=
  be_bytes 4 target ++ segment_octets ss ps ++ update_octets d n.

(** The AS the update was sent to by the signer of signature [k]: the one that signed
    next, or the target of the update. *)
Definition target_of (d : rtr_bgpsec) (k : nat) : Z :=
  match k with O => target_as d | S k => match path d !! k with Some p => seg_asn p | None => 0 end end.

(** The octets that signature [k] signs; signature 0 is the latest. *)
Definition signed_octets (d : rtr_bgpsec) (n : rtr_bgpsec_nlri) (k : nat) : list Z :=
  octets d n (target_of d k) (drop (S k) (sigs d)) (drop k (path d)).

(** ** Well-formed updates *)

(** A signature segment as the code builds them. *)
Definition sig_ok (sg : rtr_signature_seg) : Prop :=
  length (sig_ski sg) = SKI_SIZE ∧ 0 <= sig_len sg < 65536 ∧
  ∃ data, signature sg = Some data ∧ sig_len sg <= Z.of_nat (length data).

Definition nlri_ok (n : rtr_bgpsec_nlri) : Prop :=
  is_u8 (nlri_len n) ∧ nlri_size n <= Z.of_nat (length (nlri_bytes n)).

Lemma nlri_size_bound n : nlri_ok n → 0 <= nlri_size n <= 32.
Proof. intros [Hn _]. unfold nlri_size in *. split; [apply Z.div_pos; lia|]. apply Z.lt_succ_r, Z.div_lt_upper_bound; lia. Qed.

Lemma sig_octets_length sg : sig_ok sg → Z.of_nat (length (sig_octets sg)) = 22 + sig_len sg.
Proof.
  intros (Hs & Hl & data & Hd & Hb). unfold sig_octets, be_bytes. rewrite !length_app, Hs, length_reverse, le_bytes_length, Hd.
  simpl default. rewrite length_take. unfold SKI_SIZE. lia.
Qed.

Lemma path_octets_length p : length (path_octets p) = 6%nat.
Proof. unfold path_octets, be_bytes. rewrite length_app, length_reverse, le_bytes_length. done. Qed.

Lemma update_octets_length d n : nlri_ok n → Z.of_nat (length (update_octets d n)) = 5 + nlri_size n.
Proof.
  intros Hn. pose proof (nlri_size_bound n Hn). destruct Hn as [_ Hb]. unfold update_octets, be_bytes.
  rewrite !length_app, length_reverse, le_bytes_length, length_take. simpl. lia.
Qed.

(** The total length of signature segments. *)
Definition sigs_size (ss : list rtr_signature_seg) : Z := foldr (λ sg n, 22 + sig_len sg + n) 0 ss.

Lemma sigs_size_nonneg ss : Forall sig_ok ss → 0 <= sigs_size ss.
Proof. induction 1 as [|sg ss (_ & Hl & _) _ IH]; simpl; lia. Qed.

Lemma segment_octets_length ss ps :
  Forall sig_ok ss → (length ss <= length ps)%nat →
  Z.of_nat (length (segment_octets ss ps)) = sigs_size ss + 6 * Z.of_nat (length ps).
Proof.
  intros Hss. revert ss Hss. induction ps as [|p ps IH]; intros [|sg ss] Hss Hl; simpl in Hl; try lia; [done|..]; cbn [segment_octets tail].
  - rewrite !length_app, path_octets_length, !Nat2Z.inj_add, (IH []) by (done || simpl; lia). simpl length. unfold sigs_size. simpl. lia.
  - apply Forall_cons in Hss as [Hsg Hss]. rewrite !length_app, path_octets_length, !Nat2Z.inj_add, sig_octets_length, IH by (done || lia).
    simpl. lia.
Qed.

Lemma octets_length d n target ss ps :
  Forall sig_ok ss → (length ss <= length ps)%nat → nlri_ok n →
  Z.of_nat (length (octets d n target ss ps)) = 9 + nlri_size n + sigs_size ss + 6 * Z.of_nat (length ps).
Proof.
  intros Hss Hl Hn. unfold octets, be_bytes. rewrite !length_app, length_reverse, le_bytes_length, !Nat2Z.inj_add,
    segment_octets_length, update_octets_length by done. lia.
Qed.

(** The octets of a signature are a suffix of those of the signature after it. *)
Lemma octets_next d n target sg ss p ps :
  sig_ok sg → drop (Z.to_nat (sig_len sg + 28)) (octets d n target (sg :: ss) (p :: ps)) = octets d n (seg_asn p) ss ps.
Proof.
  intros Hsg. pose proof (sig_octets_length sg Hsg) as Hl. unfold octets. cbn [segment_octets tail]. unfold path_octets.
  rewrite !(assoc_L (++)). rewrite <- !(assoc_L (++)).
  rewrite (app_assoc (be_bytes 4 target)), (app_assoc (_ ++ sig_octets sg)). rewrite drop_app_length'; [done|].
  rewrite !length_app. unfold be_bytes. rewrite length_reverse, le_bytes_length. simpl length. lia.
Qed.

(** ** Writing to a stream *)

Section Streams.
Context `{Host}.
Implicit Types (s : stream) (d : rtr_bgpsec).

(** The stream has room for [size] bytes and begins with [l]. *)
Definition holds s (size : Z) (l : list Z) : Prop :=
  str_size s = size ∧ Z.of_nat (length (str_bytes s)) = size ∧ size < 65536 ∧ w_head s = Z.of_nat (length l) ∧
  take (length l) (str_bytes s) = l.

Lemma holds_full s size l : holds s size l → Z.of_nat (length l) = size → str_bytes s = l.
Proof. intros (_ & Hl & _ & _ & Ht) Hs. rewrite <- Ht, take_ge; [done|lia]. Qed.

Lemma write_stream_spec s size l data len :
  holds s size l → 0 <= len <= Z.of_nat (length data) → Z.of_nat (length l) + len <= size →
  ∃ s', write_stream s data len = Some s' ∧ holds s' size (l ++ take (Z.to_nat len) data).
Proof.
  intros (Hs & Hl & Hmax & Hw & Ht) Hlen Hroom. unfold write_stream.
  assert (u16 len = len) as -> by (unfold u16; apply Z.mod_small; lia).
  unfold slice. rewrite decide_True by (rewrite Nat.add_0_l; lia). rewrite drop_0. simpl. unfold write.
  rewrite Hw, Nat2Z.id, length_take, decide_True by lia. simpl. eexists. split; [done|].
  split; [done|]. cbn [str_bytes str_size w_head].
  split; [rewrite !length_app, length_take, length_take, length_drop; lia|]. split; [done|]. split.
  - rewrite length_app, length_take. unfold u16. rewrite Z.mod_small by lia. lia.
  - rewrite Ht, (assoc_L (++)), take_app_length. done.
Qed.

Lemma network_bytes n v : host_bytes n (swap_bytes n v) = be_bytes n v.
Proof.
  unfold host_bytes, swap_bytes, be_bytes, be_value. destruct big_endian.
  - f_equal. rewrite <- (le_bytes_length n v) at 1. apply le_bytes_value, le_bytes_ok.
  - rewrite <- (le_bytes_length n v) at 1. rewrite <- length_reverse. apply le_bytes_value, bytes_reverse, le_bytes_ok.
Qed.

Lemma be_bytes_length n v : length (be_bytes n v) = n.
Proof. unfold be_bytes. by rewrite length_reverse, le_bytes_length. Qed.

Lemma write_stream16_spec s size l v :
  holds s size l → Z.of_nat (length l) + 2 <= size → ∃ s', write_stream16 s v = Some s' ∧ holds s' size (l ++ be_bytes 2 v).
Proof.
  intros Hs Hroom. unfold write_stream16. unfold htons. rewrite network_bytes.
  destruct (write_stream_spec s size l (be_bytes 2 v) 2) as (s' & Hw & Hh); [done|rewrite be_bytes_length; lia|lia|].
  exists s'. split; [done|]. rewrite take_ge in Hh; [done|]. rewrite be_bytes_length. done.
Qed.

Lemma write_stream32_spec s size l v :
  holds s size l → Z.of_nat (length l) + 4 <= size → ∃ s', write_stream32 s v = Some s' ∧ holds s' size (l ++ be_bytes 4 v).
Proof.
  intros Hs Hroom. unfold write_stream32. unfold htonl. rewrite network_bytes.
  destruct (write_stream_spec s size l (be_bytes 4 v) 4) as (s' & Hw & Hh); [done|rewrite be_bytes_length; lia|lia|].
  exists s'. split; [done|]. rewrite take_ge in Hh; [done|]. rewrite be_bytes_length. done.
Qed.

Lemma write_byte_spec s size l b :
  holds s size l → Z.of_nat (length l) + 1 <= size → ∃ s', write_stream s [b] 1 = Some s' ∧ holds s' size (l ++ [b]).
Proof. intros Hs Hroom. apply (write_stream_spec s size l [b] 1); simpl; [done|lia|lia]. Qed.

Lemma align_signature_spec s size l sg :
  holds s size l → sig_ok sg → Z.of_nat (length l) + 22 + sig_len sg <= size →
  ∃ s', align_signature s sg = Some s' ∧ holds s' size (l ++ sig_octets sg).
Proof.
  intros Hs (Hski & Hlen & data & Hd & Hb) Hroom. unfold align_signature, SKI_SIZE in *. change (Z.of_nat 20) with 20.
  destruct (write_stream_spec s size l (sig_ski sg) 20) as (s1 & -> & H1); [done|rewrite Hski; lia|lia|].
  rewrite take_ge in H1 by (rewrite Hski; done). cbn [mbind option_bind].
  destruct (write_stream16_spec s1 size (l ++ sig_ski sg) (sig_len sg)) as (s2 & -> & H2); [done|rewrite length_app, Hski; lia|].
  cbn [mbind option_bind]. rewrite Hd. cbn [mbind option_bind].
  destruct (write_stream_spec s2 size ((l ++ sig_ski sg) ++ be_bytes 2 (sig_len sg)) data (sig_len sg)) as (s3 & -> & H3);
    [done|lia|rewrite !length_app, Hski, be_bytes_length; lia|].
  exists s3. split; [done|]. unfold sig_octets. rewrite Hd. by rewrite !(assoc_L (++)).
Qed.

Lemma align_segments_spec ps s size l ss :
  holds s size l → Forall sig_ok ss → (length ss <= length ps)%nat →
  Z.of_nat (length l) + sigs_size ss + 6 * Z.of_nat (length ps) <= size →
  ∃ s', align_segments s ps ss = Some s' ∧ holds s' size (l ++ segment_octets ss ps).
Proof.
  revert s l ss. induction ps as [|p ps IH]; intros s l ss Hs Hss Hl Hroom; cbn [align_segments segment_octets].
  { exists s. by rewrite app_nil_r. }
  assert (∃ s1, match ss with [] => Some (s, []) | sg :: ss => s ← align_signature s sg; Some (s, ss) end = Some (s1, tail ss) ∧
    holds s1 size (l ++ match ss with sg :: _ => sig_octets sg | [] => [] end)) as (s1 & -> & H1).
  { destruct ss as [|sg ss]; [exists s; by rewrite app_nil_r|]. apply Forall_cons in Hss as [Hsg Hss].
    pose proof (sigs_size_nonneg ss Hss). simpl in Hroom.
    destruct (align_signature_spec s size l sg) as (s1 & -> & H1); [done|done|lia|]. by exists s1. }
  cbn [mbind option_bind]. set (l1 := l ++ _) in *.
  assert (Z.of_nat (length l1) + sigs_size (tail ss) + 6 * Z.of_nat (length (p :: ps)) <= size) as Hroom1.
  { unfold l1. rewrite length_app. destruct ss as [|sg ss]; [simpl in *; lia|]. apply Forall_cons in Hss as [Hsg _].
    pose proof (sig_octets_length sg Hsg). simpl in *. lia. }
  assert (0 <= sigs_size (tail ss)) as Hnn by (destruct ss; [done|apply sigs_size_nonneg; by apply Forall_cons in Hss as [_ ?]]).
  cbn [length] in Hroom1.
  destruct (write_byte_spec s1 size l1 (pcount p)) as (s2 & -> & H2); [done|lia|]. cbn [mbind option_bind].
  destruct (write_byte_spec s2 size (l1 ++ [pcount p]) (flags p)) as (s3 & -> & H3); [done|rewrite length_app; simpl; lia|]. cbn [mbind option_bind].
  destruct (write_stream32_spec s3 size ((l1 ++ [pcount p]) ++ [flags p]) (seg_asn p)) as (s4 & -> & H4);
    [done|rewrite !length_app; simpl; lia|]. cbn [mbind option_bind].
  destruct (IH s4 (((l1 ++ [pcount p]) ++ [flags p]) ++ be_bytes 4 (seg_asn p)) (tail ss)) as (s5 & -> & H5);
    [done|destruct ss; [done|by apply Forall_cons in Hss as [_ ?]]|destruct ss; simpl in *; lia| |].
  { rewrite !length_app, be_bytes_length. simpl. lia. }
  exists s5. split; [done|]. unfold l1, path_octets in *. by rewrite <- !(assoc_L (++)) in *.
Qed.

(** The whole sequence, in a stream of exactly its size. *)
Lemma align_spec d n s type ss :
  match type with VALIDATION => ∃ sg, sigs d = sg :: ss | SIGNING => sigs d = ss end →
  nlri d = Some n → nlri_ok n → Forall sig_ok ss → (length ss <= length (path d))%nat →
  holds s (Z.of_nat (length (octets d n (target_as d) ss (path d)))) [] →
  ∃ s', align_byte_sequence d s type = Some (RTR_BGPSEC_SUCCESS, s') ∧
    holds s' (Z.of_nat (length (octets d n (target_as d) ss (path d)))) (octets d n (target_as d) ss (path d)).
Proof.
  intros Htype Hn Hnok Hss Hl Hs. pose proof (octets_length d n (target_as d) ss (path d) Hss Hl Hnok) as Hlen.
  pose proof (nlri_size_bound n Hnok) as Hns. pose proof (sigs_size_nonneg ss Hss) as Hnn.
  pose proof (segment_octets_length ss (path d) Hss Hl) as Hseg. destruct Hnok as [_ Hnb].
  set (size := Z.of_nat (length (octets d n (target_as d) ss (path d)))) in *. unfold align_byte_sequence.
  destruct (write_stream32_spec s size [] (target_as d)) as (s1 & -> & H1); [done|simpl; lia|]. cbn [mbind option_bind].
  assert (match type with VALIDATION => match sigs d with [] => None | _ :: next => Some next end | SIGNING => Some (sigs d) end = Some ss) as ->.
  { destruct type; [by destruct Htype as [sg ->]|by rewrite Htype]. }
  cbn [mbind option_bind].
  destruct (align_segments_spec (path d) s1 size ([] ++ be_bytes 4 (target_as d)) ss) as (s2 & -> & H2);
    [done..|rewrite length_app, be_bytes_length; simpl; lia|]. cbn [mbind option_bind]. simpl app in H2.
  set (l2 := be_bytes 4 (target_as d) ++ segment_octets ss (path d)) in *.
  assert (Z.of_nat (length l2) = 4 + sigs_size ss + 6 * Z.of_nat (length (path d))) as Hl2
    by (unfold l2; rewrite length_app, be_bytes_length; lia).
  destruct (write_byte_spec s2 size l2 (alg d)) as (s3 & -> & H3); [done|lia|]. cbn [mbind option_bind].
  destruct (write_stream16_spec s3 size (l2 ++ [alg d]) (afi d)) as (s4 & -> & H4); [done|rewrite length_app; simpl; lia|]. cbn [mbind option_bind].
  destruct (write_byte_spec s4 size ((l2 ++ [alg d]) ++ be_bytes 2 (afi d)) (safi d)) as (s5 & -> & H5);
    [done|rewrite !length_app, be_bytes_length; simpl; lia|]. cbn [mbind option_bind]. rewrite Hn. cbn [mbind option_bind].
  destruct (write_byte_spec s5 size (((l2 ++ [alg d]) ++ be_bytes 2 (afi d)) ++ [safi d]) (nlri_len n)) as (s6 & -> & H6);
    [done|rewrite !length_app, be_bytes_length; simpl; lia|]. cbn [mbind option_bind]. fold (nlri_size n).
  destruct (write_stream_spec s6 size ((((l2 ++ [alg d]) ++ be_bytes 2 (afi d)) ++ [safi d]) ++ [nlri_len n]) (nlri_bytes n) (nlri_size n))
    as (s7 & -> & H7); [done|lia|rewrite !length_app, be_bytes_length; simpl; lia|]. cbn [mbind option_bind].
  exists s7. split; [done|]. unfold octets, update_octets. unfold l2 in H7. by rewrite <- !(assoc_L (++)) in H7.
Qed.

End Streams.

(** ** Sizes *)

Lemma sig_segs_size_spec ss size :
  Forall sig_ok ss → 0 <= size → size + sigs_size ss < 4294967296 → sig_segs_size ss size = size + sigs_size ss.
Proof.
  intros Hss. revert size. induction Hss as [|sg ss (_ & Hl & _) Hss IH]; intros size H0 Hmax; cbn [sig_segs_size sigs_size foldr]; [lia|].
  fold (sigs_size ss). simpl in Hmax. fold (sigs_size ss) in Hmax. pose proof (sigs_size_nonneg ss Hss).
  unfold sizeof_sig_len, SKI_SIZE. change (Z.of_nat 20) with 20. unfold u32. rewrite Z.mod_small by lia. rewrite IH by lia. lia.
Qed.

Lemma req_stream_size_spec d n type ss :
  match type with VALIDATION => ∃ sg, sigs d = sg :: ss | SIGNING => sigs d = ss end →
  nlri d = Some n → nlri_ok n → Forall sig_ok ss → (length ss <= length (path d))%nat → path_len d = Z.of_nat (length (path d)) →
  Z.of_nat (length (octets d n (target_as d) ss (path d))) < 65536 →
  req_stream_size d type = Some (Z.of_nat (length (octets d n (target_as d) ss (path d)))).
Proof.
  intros Htype Hn Hnok Hss Hl Hpl Hmax. unfold req_stream_size. rewrite Hn. cbn [mbind option_bind].
  rewrite octets_length in * by done. pose proof (nlri_size_bound n Hnok) as Hns. pose proof (sigs_size_nonneg ss Hss) as Hnn.
  fold (nlri_size n). rewrite Hpl. unfold SECURE_PATH_SEG_SIZE.
  assert (get_sig_seg_size (sigs d) type = sigs_size ss) as ->.
  { destruct type.
    - destruct Htype as [sg ->]. simpl. rewrite sig_segs_size_spec by (done || lia). lia.
    - rewrite Htype. destruct ss as [|sg ss]; [done|]. unfold get_sig_seg_size. rewrite sig_segs_size_spec by (done || lia). lia. }
  unfold u8, u32. rewrite (Z.mod_small (nlri_size n)) by lia. by rewrite Z.mod_small by lia.
Qed.

(** ** Verdicts *)

Section Verdicts.
Context `{Build} `{Host} {E HT : Type} `{!HashTable E HT key_entry} `{!HashTableSpec E HT key_entry}.
Context `{!Event spki_event E} `{!OpenSSL}.
Implicit Types (d : rtr_bgpsec) (t : rtr_spki_table HT) (w : world E) (sg : rtr_signature_seg) (r : rtr_spki_record).

(** The signature was made for the hash with the key of the record. *)
Definition verifies (hash : list Z) sg r : Prop :=
  match load_public_key (spki r) with
  | (_, Some pub_key) => ECDSA_verify hash (take (Z.to_nat (sig_len sg)) (default [] (signature sg))) pub_key = 1
  | (_, None) => False
  end.

#[global] Instance verifies_dec hash sg r : Decision (verifies hash sg r).
Proof. unfold verifies. destruct (load_public_key (spki r)) as [? [?|]]; apply _. Defined.

Lemma validate_signature_spec hash sg r :
  sig_ok sg → ∃ v, validate_signature hash sg r = Some v ∧ (v = RTR_BGPSEC_VALID ↔ verifies hash sg r) ∧
    (v = RTR_BGPSEC_VALID ∨ v = RTR_BGPSEC_NOT_VALID ∨ v = RTR_BGPSEC_ERROR ∨ v = RTR_BGPSEC_SUCCESS).
Proof.
  intros (_ & Hl & data & Hd & Hb). unfold validate_signature, verifies.
  assert (load_public_key (spki r) = (RTR_BGPSEC_LOAD_PUB_KEY_ERROR, None) ∨
    ∃ k, load_public_key (spki r) = (RTR_BGPSEC_SUCCESS, Some k)) as [-> |[k ->]].
  { unfold load_public_key. destruct (d2i_EC_PUBKEY _); [|by left]. case_match; [by left|right; by eexists]. }
  - eexists. split; [done|]. unfold RTR_BGPSEC_ERROR, RTR_BGPSEC_VALID. split; [done|tauto].
  - rewrite Hd. cbn [mbind option_bind]. unfold slice. rewrite decide_True by (rewrite Nat.add_0_l; lia). rewrite drop_0.
    cbn [mbind option_bind default]. set (st := ECDSA_verify _ _ _). eexists. split; [done|].
    unfold RTR_BGPSEC_ERROR, RTR_BGPSEC_VALID, RTR_BGPSEC_NOT_VALID, RTR_BGPSEC_SUCCESS.
    destruct (Z.eqb_spec st (-1)) as [->|]; [split; [done|tauto]|]. destruct (Z.eqb_spec st 0) as [->|]; [split; [done|tauto]|].
    destruct (Z.eqb_spec st 1); split; (done || tauto).
Qed.

(** The result for a signature with the keys [rs]: valid if one verifies it. *)
Lemma validate_with_keys_spec hash sg rs retval :
  sig_ok sg → retval ≠ RTR_BGPSEC_VALID → 
  ∃ v, validate_with_keys RTR_BGPSEC_ALGORITHM_SUITE_1 hash sg rs retval = Some v ∧
    (v = RTR_BGPSEC_VALID ↔ Exists (verifies hash sg) rs) ∧
    (v = retval ∨ v = RTR_BGPSEC_VALID ∨ v = RTR_BGPSEC_NOT_VALID ∨ v = RTR_BGPSEC_ERROR ∨ v = RTR_BGPSEC_SUCCESS).
Proof.
  intros Hsg. revert retval. induction rs as [|r rs IH]; intros retval Hret; cbn [validate_with_keys].
  { exists retval. rewrite Exists_nil. tauto. }
  rewrite Z.eqb_refl. destruct (validate_signature_spec hash sg r Hsg) as (v & -> & Hv & Hcases). cbn [mbind option_bind].
  destruct (Z.eqb_spec v RTR_BGPSEC_VALID) as [Heq|Hne].
  - exists v. split; [done|]. rewrite Exists_cons. tauto.
  - destruct (IH v Hne) as (v' & -> & Hv' & Hc'). exists v'. split; [done|]. rewrite Exists_cons. split; [tauto|].
    destruct Hc' as [->|?]; tauto.
Qed.

(** The keys of a table for a signature. *)
Definition keys_for t sg : list rtr_spki_record := filter (λ r, ski r = sig_ski sg) (spki_records t).

Lemma keys_for_nil t sg : keys_for t sg = [] ↔ ∀ r, r ∈ spki_records t → ski r ≠ sig_ski sg.
Proof.
  unfold keys_for. split.
  - intros Hn r Hr Hs. apply (not_elem_of_nil r). rewrite <- Hn. by apply list_elem_of_filter.
  - intros Hn. apply elem_of_nil_inv. intros r [Hs Hr]%list_elem_of_filter. by destruct (Hn r Hr).
Qed.

Lemma all_keys t (ss : list rtr_signature_seg) (P : nat → rtr_signature_seg → rtr_spki_record → Prop) :
  (∀ k sg, ss !! k = Some sg → ∃ r, r ∈ spki_records t ∧ ski r = sig_ski sg ∧ P k sg r) → Forall (λ sg, keys_for t sg ≠ []) ss.
Proof.
  intros Hall. apply Forall_lookup. intros k sg Hk. destruct (Hall k sg Hk) as (r & Hr & Hs & _). rewrite keys_for_nil. intros Hno. by apply (Hno r).
Qed.

Lemma check_router_keys_spec ss t w :
  spki_table_ok (E := E) t → no_fail w →
  wp (check_router_keys ss t) (λ '(rv, t') w', t' = t ∧ emits w [] w' ∧
    rv = if decide (Forall (λ sg, keys_for t sg ≠ []) ss) then RTR_BGPSEC_SUCCESS else RTR_BGPSEC_ROUTER_KEY_NOT_FOUND) w.
Proof.
  intros Ht. revert w. induction ss as [|sg ss IH]; intros w Hnf; cbn [check_router_keys].
  { wp_step. split; [done|]. split; [apply emits_refl|]. by rewrite decide_True. }
  wp_step. eapply wp_mono; [by apply search_by_ski_spec|]. intros [[rv res] t'] w1 (-> & Hw1 & -> & ->). cbv beta iota.
  rewrite decide_False by done. wp_step. wp_step. fold (keys_for t sg). destruct (decide (keys_for t sg = [])) as [Hk|Hk].
  - rewrite bool_decide_true by done. wp_step. split; [done|]. split; [done|]. rewrite decide_False; [done|].
    by intros [? _]%Forall_cons.
  - rewrite bool_decide_false by done. eapply wp_mono; [apply IH; by eapply emits_no_fail|].
    intros [rv t'] w2 (-> & Hw2 & ->). split; [done|]. split; [by eapply emits_quiet|].
    destruct (decide (Forall (λ sg, keys_for t sg ≠ []) ss)) as [Hf|Hf].
    + rewrite decide_True; [done|]. by constructor.
    + rewrite decide_False; [done|]. by intros [_ ?]%Forall_cons.
Qed.

Lemma init_stream_spec size w :
  0 <= size < 65536 → no_fail w → wp (init_stream size) (λ os w', ∃ s, os = Some s ∧ holds s size [] ∧ emits w [] w') w.
Proof.
  intros Hs Hnf. unfold init_stream. wp_step. apply wp_alloc. intros ok w1 Hw1 Hal. destruct ok; [|by destruct (Hal eq_refl)].
  simpl negb. cbv iota. wp_step. apply wp_alloc. intros ok w2 Hw2 Hal2. destruct ok; [|destruct (Hal2 eq_refl); by eapply emits_no_fail].
  simpl negb. cbv iota. wp_step. eexists. split; [done|]. unfold u16. rewrite Z.mod_small by lia. split; [|by eapply emits_quiet].
  split; [done|]. simpl. rewrite repeat_length. split; [lia|]. split; [lia|]. done.
Qed.

(** From signature [k] on, all signatures are valid. *)
Fixpoint all_valid d n t (target : Z) (ss : list rtr_signature_seg) (ps : list rtr_secure_path_seg) : Prop :=
  match ss, ps with
  | sg :: ss, p :: ps' =>
      Exists (verifies (SHA256 (octets d n target ss ps)) sg) (keys_for t sg) ∧ all_valid d n t (seg_asn p) ss ps'
  | _, _ => True
  end.

Lemma read_stream_at_spec s size l offset :
  holds s size l → Z.of_nat (length l) = size → 0 <= offset <= size →
  read_stream_at (repeat 0 (Z.to_nat (size - offset))) s offset (size - offset) = Some (drop (Z.to_nat offset) l).
Proof.
  intros Hh Hl Ho. pose proof (holds_full _ _ _ Hh Hl) as Hb. destruct Hh as (Hsz & _ & Hmax & _).
  unfold read_stream_at. rewrite Hsz, Hb. unfold u16. rewrite !(Z.mod_small _ 65536) by lia.
  destruct (Z.ltb_spec size (offset + (size - offset))); [lia|]. unfold slice. rewrite decide_True by lia.
  cbn [mbind option_bind]. unfold write. rewrite take_ge by (rewrite length_drop; lia).
  rewrite length_drop, repeat_length, decide_True by lia. simpl. rewrite (drop_ge (repeat _ _)) by (rewrite repeat_length; lia).
  by rewrite app_nil_r.
Qed.

Lemma validate_sigs_done a s ss offset retval t w (Q : Z * rtr_spki_table HT → world E → Prop) :
  retval ≠ RTR_BGPSEC_VALID ∨ str_size s < offset → Q (retval, t) w → wp (validate_sigs a s ss offset retval t) Q w.
Proof.
  intros Hd HQ. assert ((offset <=? get_stream_size s) && (retval =? RTR_BGPSEC_VALID) = false) as Hc.
  { unfold get_stream_size. destruct Hd; [apply andb_false_intro2; by apply Z.eqb_neq|apply andb_false_intro1; by apply Z.leb_gt]. }
  destruct ss; cbn [validate_sigs]; rewrite Hc; by wp_step.
Qed.

(** A signature that is being validated. *)
Lemma validate_sig_step d n s size l target offset sg ss ps t w (Q : Z * rtr_spki_table HT → world E → Prop) :
  alg d = RTR_BGPSEC_ALGORITHM_SUITE_1 → holds s size l → Z.of_nat (length l) = size → sig_ok sg → 0 <= offset <= size →
  drop (Z.to_nat offset) l = octets d n target ss ps → spki_table_ok (E := E) t → no_fail w →
  (∀ v w', (v = RTR_BGPSEC_VALID ↔ Exists (verifies (SHA256 (octets d n target ss ps)) sg) (keys_for t sg)) →
     v ∈ [RTR_BGPSEC_VALID; RTR_BGPSEC_NOT_VALID; RTR_BGPSEC_ERROR; RTR_BGPSEC_SUCCESS] → emits w [] w' →
     wp (validate_sigs (alg d) s ss (u32 (offset + u32 ((match ss with sg' :: _ => sig_len sg' | [] => sig_len sg end) + 28))) v t) Q w') →
  wp (validate_sigs (alg d) s (sg :: ss) offset RTR_BGPSEC_VALID t) Q w.
Proof.
  intros Halg Hh Hl Hsg Ho Hdrop Ht Hnf HQ. cbn [validate_sigs]. unfold get_stream_size. rewrite (proj1 Hh).
  assert ((offset <=? size) && (RTR_BGPSEC_VALID =? RTR_BGPSEC_VALID) = true) as -> by (apply andb_true_intro; split; [apply Z.leb_le; lia|done]).
  wp_step. apply wp_alloc. intros ok w1 Hw1 Hal. destruct ok; [|by destruct (Hal eq_refl)]. simpl negb. cbv iota.
  rewrite (read_stream_at_spec s size l offset Hh Hl Ho), Hdrop. wp_step. wp_step. unfold hash_byte_sequence. rewrite Halg.
  change (RTR_BGPSEC_ALGORITHM_SUITE_1 =? RTR_BGPSEC_ALGORITHM_SUITE_1) with true. cbv iota. wp_step. wp_step. apply wp_alloc.
  intros ok w2 Hw2 Hal2. destruct ok; [|destruct (Hal2 eq_refl); by eapply emits_no_fail]. simpl negb. cbv iota. wp_step.
  change (negb (RTR_BGPSEC_SUCCESS =? RTR_BGPSEC_SUCCESS)) with false. cbv iota. wp_step. wp_step.
  pose proof (emits_quiet _ _ _ _ Hw1 Hw2) as Hw2'. wp_step. eapply wp_mono; [apply search_by_ski_spec; [done|by eapply emits_no_fail]|].
  intros [[rv res] t'] w3 (-> & Hw3 & -> & ->). cbv beta iota. rewrite decide_False by done. wp_step. wp_step. fold (keys_for t sg).
  destruct (validate_with_keys_spec (SHA256 (octets d n target ss ps)) sg (keys_for t sg) RTR_BGPSEC_SUCCESS Hsg) as (v & -> & Hv & Hc); [done|].
  rewrite Halg in HQ. wp_step. wp_step.
  assert (∀ x, x + Z.of_nat SKI_SIZE + sizeof_sig_len + SECURE_PATH_SEG_SIZE = x + 28) as ->
    by (intros; unfold SKI_SIZE, sizeof_sig_len, SECURE_PATH_SEG_SIZE; lia).
  apply (HQ v w3); [done| |by eapply emits_quiet].
  rewrite !elem_of_cons. tauto.
Qed.

Lemma next_offset_eq offset x : 0 <= offset < 65536 → 0 <= x < 65536 → u32 (offset + u32 (x + 28)) = offset + (x + 28).
Proof. intros. unfold u32. rewrite (Z.mod_small (x + 28)) by lia. apply Z.mod_small. lia. Qed.

Lemma validate_sigs_spec ss ps d n s size l target offset t w :
  alg d = RTR_BGPSEC_ALGORITHM_SUITE_1 → holds s size l → Z.of_nat (length l) = size → nlri_ok n → spki_table_ok (E := E) t →
  Forall sig_ok ss → length ss = length ps → ss ≠ [] → (∀ sg, last ss = Some sg → nlri_size n < sig_len sg + 13) →
  0 <= offset <= size → drop (Z.to_nat offset) l = octets d n target (tail ss) ps → no_fail w →
  wp (validate_sigs (alg d) s ss offset RTR_BGPSEC_VALID t) (λ '(rv, t') w', t' = t ∧ emits w [] w' ∧
    (rv = RTR_BGPSEC_VALID ↔ all_valid d n t target ss ps) ∧
    rv ∈ [RTR_BGPSEC_VALID; RTR_BGPSEC_NOT_VALID; RTR_BGPSEC_ERROR; RTR_BGPSEC_SUCCESS]) w.
Proof.
  intros Halg Hh Hl Hn Ht. revert ps target offset w. induction ss as [|sg ss IH]; intros ps target offset w Hss Hlen Hne Hlast Ho Hdrop Hnf; [done|].
  destruct ps as [|p ps]; [done|]. apply Forall_cons in Hss as [Hsg Hss]. simpl in Hlen. cbn [tail] in Hdrop.
  assert (size < 65536) as Hmax by (by destruct Hh as (_ & _ & ? & _)).
  assert (size - offset = Z.of_nat (length (octets d n target ss (p :: ps)))) as Hrest by (rewrite <- Hdrop, length_drop; lia).
  rewrite octets_length in Hrest by (done || simpl; lia). pose proof (nlri_size_bound n Hn) as Hns. pose proof (sigs_size_nonneg ss Hss) as Hnn.
  eapply validate_sig_step; try done. intros v w1 Hv Hvc Hw1.
  destruct (decide (v = RTR_BGPSEC_VALID)) as [->|Hnv].
  2:{ apply validate_sigs_done; [by left|]. split; [done|]. split; [done|]. split; [|done]. cbn [all_valid]. tauto. }
  destruct ss as [|sg' ss].
  - specialize (Hlast sg eq_refl). simpl in Hrest. destruct Hsg as (_ & Hsl & _).
    apply validate_sigs_done; [right|split; [done|split; [done|split; [|done]]]].
    + rewrite (proj1 Hh), next_offset_eq by lia. destruct ps; [simpl in *; lia|done].
    + cbn [all_valid]. tauto.
  - pose proof Hss as [(Hski' & Hsl' & Hd') Hss']%Forall_cons. assert (sig_ok sg') as Hsg' by done.
    pose proof (sigs_size_nonneg ss Hss'). cbn [sigs_size foldr] in Hrest. fold (sigs_size ss) in Hrest. cbn [length] in Hrest.
    rewrite next_offset_eq by lia.
    destruct ps as [|p' ps]; [done|].
    eapply wp_mono; [apply (IH (p' :: ps) (seg_asn p) (offset + (sig_len sg' + 28)) w1)|]; try done.
    + lia.
    + simpl in Hrest. lia.
    + cbn [tail]. rewrite <- (octets_next d n target sg' ss p (p' :: ps)), <- Hdrop, drop_drop by done. f_equal. lia.
    + by eapply emits_no_fail.
    + intros [rv t'] w2 (-> & Hw2 & Hrv & Hrc). split; [done|]. split; [by eapply emits_quiet|]. split; [|done].
      cbn [all_valid] in *. tauto.
Qed.

Lemma all_valid_lookup d n t target ss ps :
  length ss = length ps →
  all_valid d n t target ss ps ↔ ∀ k sg, ss !! k = Some sg →
    Exists (verifies (SHA256 (octets d n (match k with O => target | S j => match ps !! j with Some p => seg_asn p | None => 0 end end)
      (drop (S k) ss) (drop k ps))) sg) (keys_for t sg).
Proof.
  revert target ps. induction ss as [|sg ss IH]; intros target [|p ps] Hl; try done. cbn [all_valid].
  rewrite IH by (simpl in Hl; lia). split.
  - intros [Hv Hk] [|k] sg' Hsg; [by injection Hsg as <-|]. specialize (Hk k sg' Hsg). by destruct k.
  - intros Hk. split; [by apply (Hk O)|]. intros k sg' Hsg. specialize (Hk (S k) sg' Hsg). by destruct k.
Qed.

Lemma all_valid_signed d n t :
  length (sigs d) = length (path d) →
  all_valid d n t (target_as d) (sigs d) (path d) ↔
  ∀ k sg, sigs d !! k = Some sg → ∃ r, r ∈ spki_records t ∧ ski r = sig_ski sg ∧ verifies (SHA256 (signed_octets d n k)) sg r.
Proof.
  intros Hl. rewrite all_valid_lookup by done. unfold signed_octets, target_of. apply forall_proper. intros k. apply forall_proper. intros sg.
  unfold keys_for. rewrite Exists_exists. apply imp_iff_compat_l. apply exist_proper. intros r. rewrite list_elem_of_filter. tauto.
Qed.

(** An update with the lengths and pointers the functions of the library give it. *)
Record update_ok d n : Prop := {
  upd_alg : alg d = RTR_BGPSEC_ALGORITHM_SUITE_1;
  upd_nlri : nlri d = Some n;
  upd_nlri_ok : nlri_ok n;
  upd_afi : nlri_afi n = BGPSEC_IPV4 ∨ nlri_afi n = BGPSEC_IPV6;
  upd_path_len : path_len d = Z.of_nat (length (path d));
  upd_sigs_len : sigs_len d = Z.of_nat (length (sigs d));
  upd_sigs : Forall sig_ok (sigs d) }.

Lemma upd_afi_supported d n : update_ok d n → negb (nlri_afi n =? BGPSEC_IPV4) && negb (nlri_afi n =? BGPSEC_IPV6) = false.
Proof. intros Hu. by destruct (upd_afi d n Hu) as [->| ->]. Qed.

Lemma validate_as_path_spec d n t w :
  spki_table_ok (E := E) t → no_fail w → update_ok d n → path d ≠ [] → length (sigs d) = length (path d) →
  (∀ sg, last (sigs d) = Some sg → nlri_size n < sig_len sg + 13) → Z.of_nat (length (signed_octets d n 0)) < 65536 →
  wp (rtr_bgpsec_validate_as_path (Some d) (Some t)) (λ '(rv, t') w', t' = Some t ∧ emits w [] w' ∧
    (if decide (Forall (λ sg, keys_for t sg ≠ []) (sigs d))
     then (rv = RTR_BGPSEC_VALID ↔ all_valid d n t (target_as d) (sigs d) (path d)) ∧
          rv ∈ [RTR_BGPSEC_VALID; RTR_BGPSEC_NOT_VALID; RTR_BGPSEC_ERROR; RTR_BGPSEC_SUCCESS]
     else rv = RTR_BGPSEC_ROUTER_KEY_NOT_FOUND)) w.
Proof.
  intros Ht Hnf Hu Hp Hl Hlast Hmax. pose proof (upd_sigs d n Hu) as Hss. unfold rtr_bgpsec_validate_as_path.
  destruct (sigs d) as [|sg ss] eqn:Hsigs; [by destruct (path d)|]. wp_step. rewrite assert_true by by apply bool_decide_eq_true. wp_step.
  rewrite !bool_decide_false by done. simpl orb. cbv iota.
  rewrite (upd_path_len d n Hu), (upd_sigs_len d n Hu), Hsigs, Hl, Z.eqb_refl. simpl negb. cbv iota. rewrite (upd_alg d n Hu).
  change (rtr_bgpsec_has_algorithm_suite RTR_BGPSEC_ALGORITHM_SUITE_1 =? RTR_BGPSEC_ERROR) with false. cbv iota.
  rewrite (upd_nlri d n Hu). wp_step. wp_step. rewrite (upd_afi_supported d n Hu). cbv iota. wp_step.
  eapply wp_mono; [by apply check_router_keys_spec|]. intros [rv t'] w1 (-> & Hw1 & ->). cbv beta iota.
  destruct (decide (Forall (λ sg, keys_for t sg ≠ []) (sg :: ss))) as [Hk|Hk].
  2:{ change (negb (RTR_BGPSEC_ROUTER_KEY_NOT_FOUND =? RTR_BGPSEC_SUCCESS)) with true. cbv iota. by wp_step. }
  change (negb (RTR_BGPSEC_SUCCESS =? RTR_BGPSEC_SUCCESS)) with false. cbv iota.
  pose proof Hss as [Hsg Hss']%Forall_cons. 
  assert (signed_octets d n 0 = octets d n (target_as d) ss (path d)) as Heq by (unfold signed_octets; by rewrite Hsigs).
  rewrite Heq in Hmax. assert (length ss <= length (path d))%nat as Hle by (rewrite <- Hl; simpl; lia).
  rewrite (req_stream_size_spec d n VALIDATION ss); [|by eexists|apply Hu..|done|done|apply Hu|done]. wp_step. wp_step. wp_step.
  eapply wp_mono; [apply init_stream_spec; [lia|by eapply emits_no_fail]|]. intros os w2 (s & -> & Hs & Hw2). cbv beta iota.
  destruct (align_spec d n s VALIDATION ss) as (s' & -> & Hh); [by eexists|apply Hu..|done|done|done|]. wp_step. wp_step.
  cbv beta iota. change (negb (RTR_BGPSEC_SUCCESS =? RTR_BGPSEC_SUCCESS)) with false. cbv iota. wp_step. rewrite <- (upd_alg d n Hu).
  eapply wp_mono; [eapply (validate_sigs_spec _ (path d) d n s' _ _ (target_as d)); try done; try apply Hu|].
  - do 2 (eapply emits_no_fail; [done|]). done.
  - intros [rv t'] w3 (-> & Hw3 & Hrv & Hrc). wp_step. split; [done|]. split; [|done]. eapply emits_quiet; [|done]. by eapply emits_quiet.
Qed.

(** ** Signing *)

(** Memory for [n] bytes, in which the first ones are written. *)
Lemma write_front (l : list Z) (n : nat) : (length l <= n)%nat → ∃ data, write (repeat 0 n) 0 l = Some data ∧ length data = n ∧ take (length l) data = l.
Proof.
  intros Hl. unfold write. rewrite repeat_length, decide_True by lia. eexists. split; [done|]. simpl.
  split; [rewrite length_app, length_drop, repeat_length; lia|]. by rewrite take_app_length.
Qed.

(** The new segment, with room for the longest signature. *)
Lemma new_signature_seg_spec size w :
  0 <= size < 65536 → no_fail w →
  wp (rtr_bgpsec_new_signature_seg (E := E) None size None) (λ osg w', emits w [] w' ∧
    osg = Some (SignatureSeg (repeat 0 SKI_SIZE) size (Some (repeat 0 (Z.to_nat size))))) w.
Proof.
  intros Hs Hnf. unfold rtr_bgpsec_new_signature_seg. wp_step. apply wp_alloc. intros ok w1 Hw1 Hal. destruct ok; [|by destruct (Hal eq_refl)].
  simpl negb. cbv iota. wp_step. apply wp_alloc. intros ok w2 Hw2 Hal2. destruct ok; [|destruct (Hal2 eq_refl); by eapply emits_no_fail].
  simpl negb. cbv iota. wp_step. wp_step. wp_step. wp_step. wp_step. split; [by eapply emits_quiet|].
  unfold u16. by rewrite Z.mod_small by lia.
Qed.

Lemma sign_spec (hash : list Z) key size :
  1 <= Z.of_nat (length (ECDSA_sign hash key)) <= size → size < 65536 →
  ∃ data, sign_byte_sequence hash key RTR_BGPSEC_ALGORITHM_SUITE_1 (SignatureSeg (repeat 0 SKI_SIZE) 0 (Some (repeat 0 (Z.to_nat size)))) =
    Some (RTR_BGPSEC_SUCCESS, SignatureSeg (repeat 0 SKI_SIZE) (Z.of_nat (length (ECDSA_sign hash key))) (Some data)) ∧
    take (length (ECDSA_sign hash key)) data = ECDSA_sign hash key ∧ (length (ECDSA_sign hash key) <= length data)%nat.
Proof.
  intros Hl Hs. unfold sign_byte_sequence. change (RTR_BGPSEC_ALGORITHM_SUITE_1 =? RTR_BGPSEC_ALGORITHM_SUITE_1) with true. cbv iota.
  cbn [signature sig_ski mbind option_bind]. destruct (write_front (ECDSA_sign hash key) (Z.to_nat size)) as (data & -> & Hd & Ht); [lia|].
  cbn [mbind option_bind]. rewrite (proj2 (Z.ltb_ge _ _)) by lia. exists data. unfold u16. rewrite Z.mod_small by lia. split; [done|]. split; [done|lia].
Qed.

(** The signature is that of the octets of the update with all its segments. *)
Lemma generate_signature_run d n bytes key rv0 sg0 w :
  let hash := SHA256 (octets d n (target_as d) (sigs d) (path d)) in
  no_fail w → update_ok d n → length (path d) = S (length (sigs d)) →
  Z.of_nat (length (octets d n (target_as d) (sigs d) (path d))) < 65536 → snd (load_private_key bytes) = Some key →
  0 < ECDSA_size key < 65536 →
  sign_byte_sequence hash key RTR_BGPSEC_ALGORITHM_SUITE_1
    (SignatureSeg (repeat 0 SKI_SIZE) 0 (Some (repeat 0 (Z.to_nat (ECDSA_size key))))) = Some (rv0, sg0) →
  wp (rtr_bgpsec_generate_signature (E := E) (Some d) (Some bytes) Null) (λ '(rv, f) w', emits w [] w' ∧ rv = rv0 ∧
    f = if rv0 =? RTR_BGPSEC_SIGNING_ERROR then Uninit else Ptr sg0) w.
Proof.
  intros hash Hnf Hu Hl Hmax Hkey Hsize Hsign. assert (path d ≠ []) as Hp by by destruct (path d). pose proof (upd_sigs d n Hu) as Hss.
  unfold rtr_bgpsec_generate_signature. rewrite bool_decide_false by done. cbv iota. wp_step. cbn [read_field]. wp_step.
  rewrite bool_decide_false by (by intros []). cbv iota. unfold new_signature_for. rewrite (upd_alg d n Hu).
  change (rtr_bgpsec_has_algorithm_suite RTR_BGPSEC_ALGORITHM_SUITE_1 =? RTR_BGPSEC_ERROR) with false. cbv iota.
  rewrite (upd_nlri d n Hu). wp_step. wp_step. rewrite (upd_afi_supported d n Hu), (upd_path_len d n Hu), (upd_sigs_len d n Hu), Hl. cbv iota.
  rewrite (proj2 (Z.eqb_eq _ _)) by lia. simpl negb. cbv iota. destruct (load_private_key bytes) as [? key0]. simpl in Hkey. subst key0.
  cbv beta iota. rewrite (proj2 (Z.eqb_neq _ _)) by lia. wp_step. eapply wp_mono; [apply new_signature_seg_spec; [lia|done]|].
  intros osg w1 (Hw1 & ->). cbv beta iota. cbn [sig_ski signature].
  rewrite (req_stream_size_spec d n SIGNING (sigs d)); [|done|apply Hu..|done|lia|apply Hu|done]. wp_step. wp_step. wp_step.
  eapply wp_mono; [apply init_stream_spec; [lia|by eapply emits_no_fail]|]. intros os w2 (s & -> & Hs & Hw2). cbv beta iota.
  destruct (align_spec d n s SIGNING (sigs d)) as (s' & -> & Hh); [done|apply Hu..|done|lia|done|]. wp_step. wp_step. cbv beta iota.
  change (negb (RTR_BGPSEC_SUCCESS =? RTR_BGPSEC_SUCCESS)) with false. cbv iota.
  unfold get_stream_start, get_stream_size, slice. rewrite (holds_full _ _ _ Hh eq_refl), (proj1 Hh), Nat2Z.id, decide_True, drop_0, firstn_all by done.
  wp_step. wp_step. unfold hash_byte_sequence. change (RTR_BGPSEC_ALGORITHM_SUITE_1 =? RTR_BGPSEC_ALGORITHM_SUITE_1) with true.
  cbv iota. wp_step. wp_step. apply wp_alloc. intros ok w3 Hw3 Hal3. pose proof (emits_quiet _ _ _ _ Hw1 Hw2) as Hw2'.
  destruct ok; [|destruct (Hal3 eq_refl); by eapply emits_no_fail]. simpl negb. cbv iota. wp_step.
  change (negb (RTR_BGPSEC_SUCCESS =? RTR_BGPSEC_SUCCESS)) with false. cbv iota. wp_step. wp_step. fold hash.
  rewrite Hsign. wp_step. wp_step. cbv beta iota. wp_step. split; [by eapply emits_quiet|]. done.
Qed.

Lemma generate_signature_spec d n bytes key w :
  let hash := SHA256 (octets d n (target_as d) (sigs d) (path d)) in
  no_fail w → update_ok d n → length (path d) = S (length (sigs d)) →
  Z.of_nat (length (octets d n (target_as d) (sigs d) (path d))) < 65536 → snd (load_private_key bytes) = Some key →
  1 <= Z.of_nat (length (ECDSA_sign hash key)) <= ECDSA_size key → ECDSA_size key < 65536 →
  wp (rtr_bgpsec_generate_signature (E := E) (Some d) (Some bytes) Null) (λ '(rv, f) w', emits w [] w' ∧ rv = RTR_BGPSEC_SUCCESS ∧
    ∃ data, f = Ptr (SignatureSeg (repeat 0 SKI_SIZE) (Z.of_nat (length (ECDSA_sign hash key))) (Some data)) ∧
      take (length (ECDSA_sign hash key)) data = ECDSA_sign hash key ∧ (length (ECDSA_sign hash key) <= length data)%nat) w.
Proof.
  intros hash Hnf Hu Hl Hmax Hkey Hsig Hsize. destruct (sign_spec hash key (ECDSA_size key)) as (data & Hs & Hd); [done..|].
  eapply wp_mono; [eapply generate_signature_run; [..|exact Hs]; try done; lia|]. intros [rv f] w' (Hw & -> & ->).
  split; [done|]. split; [done|]. by exists data.
Qed.

(** Nothing is signed: the new segment is freed and the pointer to it kept. *)
Lemma generate_signature_failed d n bytes key w :
  no_fail w → update_ok d n → length (path d) = S (length (sigs d)) →
  Z.of_nat (length (octets d n (target_as d) (sigs d) (path d))) < 65536 → snd (load_private_key bytes) = Some key →
  ECDSA_sign (SHA256 (octets d n (target_as d) (sigs d) (path d))) key = [] → 0 < ECDSA_size key < 65536 →
  wp (rtr_bgpsec_generate_signature (E := E) (Some d) (Some bytes) Null) (λ '(rv, f) w', emits w [] w' ∧
    rv = RTR_BGPSEC_SIGNING_ERROR ∧ f = Uninit) w.
Proof.
  intros Hnf Hu Hl Hmax Hkey Hsig Hsize. eapply wp_mono; [eapply generate_signature_run; try done|by intros [rv f] w' (Hw & -> & ->)].
  unfold sign_byte_sequence. rewrite Hsig. change (RTR_BGPSEC_ALGORITHM_SUITE_1 =? RTR_BGPSEC_ALGORITHM_SUITE_1) with true. cbv iota.
  cbn [signature mbind option_bind]. unfold write. rewrite decide_True by (simpl; lia). done.
Qed.

End Verdicts.
