(* ===== verification/BgpsecTheorems.v ===== *)
(** * BGPsec: the verdict on a path, signing and validating, limits *)

From S2P Require Import Prelude TommyList Hashlin Spki SpkiProofs SpkiTheorems AspaArray Aspa Pdu PduProofs Bgpsec BgpsecProofs.
Open Scope Z_scope.

Section Theorems.
Context `{Build} `{Host} {E HT : Type} `{!HashTable E HT key_entry} `{!HashTableSpec E HT key_entry}.
Context `{!Event spki_event E} `{!OpenSSL}.
Implicit Types (d : rtr_bgpsec) (t : rtr_spki_table HT) (w : world E) (sg : rtr_signature_seg) (r : rtr_spki_record).

(** C5: The verdict on an update of the only algorithm suite, with as many signatures as
    path segments, at least one, for an NLRI of IPv4 or IPv6 that is less than 13 octets
    longer than the last signature, and with less than 65536 octets to hash, if memory
    lasts: that a router key is missing exactly if one signature has no key in the table;
    valid exactly if each signature, from the latest to the first, verifies under a key of
    the table with its subject key identifier, against the hash of the octets RFC 8205
    prescribes for it (the AS the update was sent to, the segments before it, the prefix). 
    The table is unchanged, and no other verdict than these, not valid, and an error of
    OpenSSL is possible. *)
Theorem validate_as_path_correct d n t w :
  spki_table_ok (E := E) t → no_fail w → update_ok d n → path d ≠ [] → length (sigs d) = length (path d) →
  (∀ sg, last (sigs d) = Some sg → nlri_size n < sig_len sg + 13) → Z.of_nat (length (signed_octets d n 0)) < 65536 →
  wp (rtr_bgpsec_validate_as_path (Some d) (Some t)) (λ '(rv, t') w', t' = Some t ∧ emits w [] w' ∧
    (rv = RTR_BGPSEC_ROUTER_KEY_NOT_FOUND ↔ ∃ sg, sg ∈ sigs d ∧ ∀ r, r ∈ spki_records t → ski r ≠ sig_ski sg) ∧
    (rv = RTR_BGPSEC_VALID ↔ ∀ k sg, sigs d !! k = Some sg →
       ∃ r, r ∈ spki_records t ∧ ski r = sig_ski sg ∧ verifies (SHA256 (signed_octets d n k)) sg r) ∧
    rv ∈ [RTR_BGPSEC_VALID; RTR_BGPSEC_NOT_VALID; RTR_BGPSEC_ROUTER_KEY_NOT_FOUND; RTR_BGPSEC_ERROR; RTR_BGPSEC_SUCCESS]) w.
Proof.
  intros Ht Hnf Hu Hp Hl Hlast Hmax. eapply wp_mono; [by apply validate_as_path_spec|]. intros [rv t'] w' (-> & Hw & Hv).
  split; [done|]. split; [done|]. rewrite <- all_valid_signed by done. destruct (decide _) as [Hk|Hk].
  - destruct Hv as [Hv Hc]. rewrite !elem_of_cons, elem_of_nil in *. split; [|split; [done|tauto]].
    split; [intros ->; by repeat destruct Hc as [Hc|Hc]|].
    intros (sg & Hsg & Hno). exfalso. rewrite Forall_forall in Hk. apply (Hk sg Hsg). by apply keys_for_nil.
  - subst rv. apply not_Forall_Exists in Hk; [|apply _]. apply Exists_exists in Hk as (sg & Hsg & Hno). apply dec_stable in Hno.
    pose proof (proj1 (keys_for_nil t sg) Hno) as Hno'. split; [split; [intros _; eauto|done]|]. split; [|rewrite !elem_of_cons; tauto]. split; [done|].
    rewrite all_valid_signed by done. intros Hall. apply list_elem_of_lookup in Hsg as [k Hsg]. destruct (Hall k sg Hsg) as (r & Hr & Hs & _).
    by destruct (Hno' r Hr).
Qed.

(** ** Forwarding an update *)

Definition set_target d (a : Z) : rtr_bgpsec :=
  BgpSec (alg d) (safi d) (afi d) (my_as d) a (sigs_len d) (path_len d) (nlri d) (sigs d) (path d).

(** What a router does to an update it received, with the functions of the library: it
    adds its own path segment, names the next AS, signs, fills in the identifier of its
    key, and adds the signature. *)
Definition forward d (ski bytes : list Z) (pcount flags next : Z) : M E (Z * rtr_bgpsec) :=
  seg ← rtr_bgpsec_new_secure_path_seg pcount flags (target_as d);
  seg ← of_option seg;
  d ← of_option (rtr_bgpsec_prepend_sec_path_seg (set_target d next) [seg]);
  '(rv, new_signature) ← rtr_bgpsec_generate_signature (Some d) (Some bytes) Null;
  sg ← of_option (read_field new_signature);
  sg ← of_option sg;
  of_option (rtr_bgpsec_prepend_sig_seg d [SignatureSeg ski (sig_len sg) (signature sg)]).

(** The update with a path segment of its own and, in the end, a signature. *)
Definition extended d (next : Z) (p : rtr_secure_path_seg) (ss : list rtr_signature_seg) : rtr_bgpsec :=
  BgpSec (alg d) (safi d) (afi d) (my_as d) next (Z.of_nat (length (ss ++ sigs d))) (path_len d + 1) (nlri d) (ss ++ sigs d) (p :: path d).

Lemma extended_ok d n next p ss : update_ok d n → Forall sig_ok ss → update_ok (extended d next p ss) n.
Proof.
  intros Hu Hss. split; simpl; try apply Hu; [|done|apply Forall_app; split; [done|apply Hu]].
  rewrite (upd_path_len d n Hu). lia.
Qed.

(** The signatures that were there still sign the same octets. *)
Lemma signed_octets_extended d n next p sg k :
  seg_asn p = target_as d → signed_octets (extended d next p [sg]) n (S k) = signed_octets d n k.
Proof.
  intros Hp. unfold signed_octets, octets, update_octets. f_equal. f_equal. destruct k as [|k]; [done|]. done.
Qed.

Lemma extended_size d n next p sg :
  nlri_ok n → Forall sig_ok (sigs d) → length (sigs d) = length (path d) →
  Z.of_nat (length (signed_octets (extended d next p [sg]) n 0)) = 15 + nlri_size n + sigs_size (sigs d) + 6 * Z.of_nat (length (path d)).
Proof.
  intros Hn Hss Hl. unfold signed_octets. simpl drop. rewrite drop_0, octets_length; [|done|simpl; lia|done]. cbn [length]. lia.
Qed.

(** What OpenSSL documents of a key: the signatures are in DER and not longer than
    [ECDSA_size], which is the size of memory that [ECDSA_sign] asks for. *)
Record private_key (bytes : list Z) (key : EC_KEY) : Prop := {
  key_loads : snd (load_private_key bytes) = Some key;
  key_size : ∀ h, 8 <= Z.of_nat (length (ECDSA_sign h key)) <= ECDSA_size key;
  key_short : ECDSA_size key < 65536 }.

(** An update the router may add its signature to. *)
Record extensible d n : Prop := {
  ext_ok : update_ok d n;
  ext_len : length (sigs d) = length (path d);
  ext_path : (length (path d) < 255)%nat;
  ext_as : 0 <= target_as d < 4294967296;
  ext_size : 15 + nlri_size n + sigs_size (sigs d) + 6 * Z.of_nat (length (path d)) < 65536 }.

Lemma forward_spec d n (ski bytes : list Z) pcount flags next key w :
  let p := SecurePathSeg (u8 pcount) (u8 flags) (target_as d) in
  let sig := ECDSA_sign (SHA256 (octets d n next (sigs d) (p :: path d))) key in
  no_fail w → extensible d n → private_key bytes key → length ski = SKI_SIZE → ski_is_empty ski = false →
  wp (forward d ski bytes pcount flags next) (λ '(rv, d') w', rv = RTR_BGPSEC_SUCCESS ∧ emits w [] w' ∧
    ∃ sg, d' = extended d next p [sg] ∧ sig_ok sg ∧ sig_ski sg = ski ∧ sig_len sg = Z.of_nat (length sig) ∧
      take (Z.to_nat (sig_len sg)) (default [] (signature sg)) = sig) w.
Proof.
  intros p sig Hnf [Hu Hl Hp Has Hsize] [Hkey Hks Hk16] Hski Hempty. unfold forward, rtr_bgpsec_new_secure_path_seg. wp_step. wp_step.
  apply wp_alloc. intros ok w1 Hw1 Hal. destruct ok; [|by destruct (Hal eq_refl)]. simpl negb. cbv iota. wp_step. wp_step. wp_step.
  assert (u32 (target_as d) = target_as d) as -> by (unfold u32; apply Z.mod_small; lia). fold p. wp_step.
  assert (rtr_bgpsec_prepend_sec_path_seg (set_target d next) [p] = Some (extended d next p [])) as ->.
  { unfold rtr_bgpsec_prepend_sec_path_seg, prepend, set_path, extended. simpl. rewrite (upd_path_len d n Hu). unfold u8.
    rewrite Z.mod_small, (upd_sigs_len d n Hu) by lia. by destruct (path d). }
  wp_step. wp_step. pose proof (Hks (SHA256 (octets d n next (sigs d) (p :: path d)))) as Hsl. fold sig in Hsl.
  eapply wp_mono; [apply (generate_signature_spec (extended d next p []) n bytes key)|].
  - by eapply emits_no_fail.
  - by apply extended_ok.
  - simpl. lia.
  - rewrite octets_length; [|apply Hu|simpl; lia|apply Hu]. cbn [extended sigs path app length]. lia.
  - done.
  - change (1 <= Z.of_nat (length sig) <= ECDSA_size key). lia.
  - done.
  - intros [rv f] w2 (Hw2 & -> & data & -> & Htake & Hlen). change (ECDSA_sign _ _) with sig in Htake, Hlen. cbn [read_field]. wp_step. wp_step.
    wp_step. wp_step. cbn [sig_len signature]. change (ECDSA_sign _ _) with sig.
    unfold rtr_bgpsec_prepend_sig_seg, bad_signature_seg. cbn [signature sig_len sig_ski]. rewrite bool_decide_false, Hempty by done.
    rewrite (proj2 (Z.eqb_neq _ _)) by lia. simpl orb. cbv iota.
    set (sg := SignatureSeg ski (Z.of_nat (length sig)) (Some data)).
    apply (wp_of_option _ (RTR_BGPSEC_SUCCESS, extended d next p [sg])); [|split; [done|]; split; [by eapply emits_quiet|]; exists sg].
    + assert (prepend [sg] (sigs (extended d next p [])) = Some (sg :: sigs d)) as -> by (simpl; by destruct (sigs d)).
      cbn [mbind option_bind]. unfold set_sigs, extended. cbn [sigs_len sigs path path_len alg safi afi my_as target_as nlri app length].
      do 2 f_equal. unfold u16. rewrite Z.mod_small by lia. f_equal. lia.
    + split; [done|]. split; [split; [done|]; split; [simpl; lia|]; exists data; split; [done|simpl; lia]|]. split; [done|]. split; [done|].
      cbn [sg sig_len signature]. by rewrite Nat2Z.id.
Qed.

(** C11: An update whose signatures are valid is still valid after a router added its path
    segment and its signature to it, by the calls of the library that [forward] composes:
    the next AS, which has the router's public key, validates the whole path successfully. 
    Assumptions: the update has as many signatures, of at least 8 octets, as path segments,
    less than 255, an NLRI of at most 16 octets, and less than 65536 octets in all; the key
    identifier of the router is not zero; OpenSSL loads the keys, signs in at least 8 and at
    most [ECDSA_size] octets, and verifies what it signed; memory lasts. *)
Theorem forward_validates d n t (ski bytes : list Z) pcount flags next key pub r w :
  no_fail w → spki_table_ok (E := E) t → extensible d n → private_key bytes key → length ski = SKI_SIZE → ski_is_empty ski = false →
  nlri_size n <= 16 → Forall (λ sg, 8 <= sig_len sg) (sigs d) →
  (∀ k sg, sigs d !! k = Some sg → ∃ r, r ∈ spki_records t ∧ Spki.ski r = sig_ski sg ∧ verifies (SHA256 (signed_octets d n k)) sg r) →
  r ∈ spki_records t → Spki.ski r = ski → snd (load_public_key (spki r)) = Some pub → (∀ h, ECDSA_verify h (ECDSA_sign h key) pub = 1) →
  wp (forward d ski bytes pcount flags next) (λ '(rv, d') w', rv = RTR_BGPSEC_SUCCESS ∧ length (path d') = S (length (path d)) ∧
    wp (rtr_bgpsec_validate_as_path (Some d') (Some t)) (λ '(rv, t') w'', rv = RTR_BGPSEC_VALID ∧ t' = Some t ∧ emits w' [] w'') w') w.
Proof.
  intros Hnf Ht Hext Hkey Hski Hempty Hn Hlong Hvalid Hr Hrs Hpub Hlaw. pose proof Hext as [Hu Hl Hp Has Hsize].
  eapply wp_mono; [by apply forward_spec|]. intros [rv d'] w1 (-> & Hw1 & sg & -> & Hsg & Hs & Hsl & Hdata). split; [done|]. split; [done|].
  pose proof (key_size _ _ Hkey (SHA256 (octets d n next (sigs d) (SecurePathSeg (u8 pcount) (u8 flags) (target_as d) :: path d)))) as Hks.
  assert (Forall (λ sg, 8 <= sig_len sg) ([sg] ++ sigs d)) as Hlong' by (constructor; [lia|done]).
  eapply wp_mono; [apply (validate_as_path_spec _ n)|].
  - done.
  - by eapply emits_no_fail.
  - apply extended_ok; [done|]. by constructor.
  - done.
  - simpl. lia.
  - intros sg' Hlast. apply last_Some_elem_of in Hlast. rewrite Forall_forall in Hlong'. specialize (Hlong' sg' Hlast). simpl in Hlong'. lia.
  - rewrite extended_size; [done|apply Hu|apply Hu|done].
  - intros [rv t'] w2 (-> & Hw2 & Hv).
    assert (∀ k sg', sigs (extended d next (SecurePathSeg (u8 pcount) (u8 flags) (target_as d)) [sg]) !! k = Some sg' →
      ∃ r, r ∈ spki_records t ∧ Spki.ski r = sig_ski sg' ∧
        verifies (SHA256 (signed_octets (extended d next (SecurePathSeg (u8 pcount) (u8 flags) (target_as d)) [sg]) n k)) sg' r) as Hall.
    { intros [|k] sg' Hk.
      - injection Hk as <-. exists r. split; [done|]. split; [congruence|]. unfold verifies. destruct (load_public_key (spki r)) as [? ?].
        simpl in Hpub. subst. rewrite Hdata. apply Hlaw.
      - rewrite signed_octets_extended by done. by apply Hvalid. }
    rewrite decide_True in Hv; [|exact (all_keys t _ (λ k sg' r, verifies (SHA256 (signed_octets _ n k)) sg' r) Hall)]. destruct Hv as [Hv _]. rewrite all_valid_signed in Hv by (simpl; lia).
    split; [by apply Hv|]. done.
Qed.

(** When OpenSSL does not sign, the segment that was made for the signature is freed,
    but [*new_signature], which the caller passed as null, is left pointing to it. *)
Theorem failed_signature_dangles d n bytes key w :
  no_fail w → update_ok d n → length (path d) = S (length (sigs d)) →
  Z.of_nat (length (octets d n (target_as d) (sigs d) (path d))) < 65536 → snd (load_private_key bytes) = Some key →
  ECDSA_sign (SHA256 (octets d n (target_as d) (sigs d) (path d))) key = [] → 0 < ECDSA_size key < 65536 →
  wp (rtr_bgpsec_generate_signature (E := E) (Some d) (Some bytes) Null) (λ '(rv, new_signature) _,
    rv = RTR_BGPSEC_SIGNING_ERROR ∧ read_field new_signature = None) w.
Proof. intros. eapply wp_mono; [by eapply generate_signature_failed|]. by intros [rv f] w' (_ & -> & ->). Qed.

End Theorems.

(** ** Instances *)

(** A stand-in for OpenSSL, with the laws the theorems ask for: a key is its first byte, a
    signature is in the key and the sum of what is hashed. *)
Definition sample_openssl : OpenSSL := {|
  EC_KEY := Z;
  d2i_EC_PUBKEY := head;
  d2i_ECPrivateKey := head;
  EC_KEY_check_key := λ _, 1;
  SHA256 := λ l, [foldr Z.add 0 l; Z.of_nat (length l)];
  ECDSA_verify := λ h sig key, if decide (sig = [key; 0; 0; 0; 0; 0] ++ take 2 (h ++ [0; 0])) then 1 else 0;
  ECDSA_size := λ _, 72;
  ECDSA_sign := λ h key, [key; 0; 0; 0; 0; 0] ++ take 2 (h ++ [0; 0]) |}.

(** The prefix 10.0.0.0/8, announced to AS 65001. *)
Definition sample_nlri : rtr_bgpsec_nlri := Nlri BGPSEC_IPV4 1 8 [10].
Definition announcement : rtr_bgpsec := BgpSec 1 1 1 64496 65001 0 0 (Some sample_nlri) [] [].

Definition sample_sig (l : list Z) (key : Z) : rtr_signature_seg :=
  SignatureSeg (replicate 20 1) 8 (Some (ECDSA_sign (OpenSSL := sample_openssl) (SHA256 (OpenSSL := sample_openssl) l) key)).

(** The announcement as AS 64496 signed it, and as AS 65001 sent it on to AS 65002. *)
Definition origin_seg : rtr_secure_path_seg := SecurePathSeg 1 0 64496.
Definition transit_seg : rtr_secure_path_seg := SecurePathSeg 1 0 65001.
Definition origin_update : rtr_bgpsec :=
  extended announcement 65001 origin_seg [sample_sig (octets announcement sample_nlri 65001 [] [origin_seg]) 7].
Definition transit_update : rtr_bgpsec :=
  extended origin_update 65002 transit_seg
    [sample_sig (octets announcement sample_nlri 65002 (sigs origin_update) [transit_seg; origin_seg]) 8].

Lemma sample_sig_ok l key : sig_ok (sample_sig l key).
Proof. split; [reflexivity|]. split; [simpl; lia|]. eexists. split; [reflexivity|]. simpl. lia. Qed.

Lemma sample_nlri_ok : nlri_ok sample_nlri.
Proof. split; [simpl; lia|]. vm_compute. discriminate. Qed.

Lemma origin_update_ok : update_ok origin_update sample_nlri.
Proof. apply extended_ok; [|repeat constructor; apply sample_sig_ok]. split; try done; by left. Qed.

Lemma transit_update_ok : update_ok transit_update sample_nlri.
Proof. apply extended_ok; [apply origin_update_ok|]. repeat constructor; apply sample_sig_ok. Qed.

Lemma transit_signatures (t : rtr_spki_table (tommy_hashlin key_entry)) :
  spki_records t = [key1; key2] → ∀ k sg, sigs transit_update !! k = Some sg →
  ∃ r, r ∈ spki_records t ∧ ski r = sig_ski sg ∧
    verifies (H1 := sample_openssl) (SHA256 (OpenSSL := sample_openssl) (signed_octets transit_update sample_nlri k)) sg r.
Proof.
  intros ->. intros [|[|k]] sg Hk; [..|done]; injection Hk as <-.
  - exists key2. split; [apply elem_of_cons; right; by apply list_elem_of_singleton|]. split; [reflexivity|vm_compute; reflexivity].
  - exists key1. split; [apply elem_of_cons; by left|]. split; [reflexivity|vm_compute; reflexivity].
Qed.

Lemma validate_as_path_correct_witness :
  ∃ (t : rtr_spki_table (tommy_hashlin key_entry)) (w : world spki_event), spki_records t = [key1; key2] ∧
    wp (rtr_bgpsec_validate_as_path (H := release_build) (H0 := {| big_endian := false |}) (H1 := sample_openssl)
          (Some transit_update) (Some t)) (λ '(rv, _) _, rv = RTR_BGPSEC_VALID) w.
Proof.
  destruct (two_keys_table None) as (t & w & Hok & Hnf & Hrec & _). exists t, w. split; [done|]. eapply wp_mono.
  { eapply (validate_as_path_correct (H1 := sample_openssl) transit_update sample_nlri t w); [done|done|apply transit_update_ok|done|done| |].
    - intros sg Hsg. injection Hsg as <-. vm_compute. done.
    - vm_compute. done. }
  intros [rv t'] w' (_ & _ & _ & Hv & _). by apply Hv, transit_signatures.
Defined.

Lemma origin_update_extensible : extensible origin_update sample_nlri.
Proof. split; [apply origin_update_ok|done|simpl; lia|simpl; lia|vm_compute; done]. Qed.

Lemma sample_private_key key : private_key (H1 := sample_openssl) (replicate 121 key) key.
Proof.
  split; [reflexivity|intros h|done]. change (8 <= Z.of_nat (length ([key; 0; 0; 0; 0; 0] ++ take 2 (h ++ [0; 0]))) <= 72).
  rewrite length_app, length_take_le by (rewrite length_app; simpl; lia). simpl. lia.
Qed.

Lemma sample_keys_law h key : ECDSA_verify (OpenSSL := sample_openssl) h (ECDSA_sign (OpenSSL := sample_openssl) h key) key = 1.
Proof. simpl. by rewrite decide_True. Qed.

Lemma forward_validates_witness :
  ∃ (t : rtr_spki_table (tommy_hashlin key_entry)) (w : world spki_event), spki_records t = [key1; key2] ∧
    wp (forward (H0 := {| big_endian := false |}) (H1 := sample_openssl) origin_update (replicate 20 1) (replicate 121 8) 1 0 65002)
      (λ '(rv, d') w', rv = RTR_BGPSEC_SUCCESS ∧
        wp (rtr_bgpsec_validate_as_path (H := release_build) (H0 := {| big_endian := false |}) (H1 := sample_openssl) (Some d') (Some t))
          (λ '(rv, _) _, rv = RTR_BGPSEC_VALID) w') w.
Proof.
  destruct (two_keys_table None) as (t & w & Hok & Hnf & Hrec & _). exists t, w. split; [done|]. eapply wp_mono.
  { apply (forward_validates (H := release_build) (H1 := sample_openssl) origin_update sample_nlri t (replicate 20 1) (replicate 121 8) 1 0 65002 8 8 key2 w).
    - done.
    - done.
    - apply origin_update_extensible.
    - apply sample_private_key.
    - done.
    - reflexivity.
    - vm_compute. done.
    - by repeat constructor.
    - intros [|k] sg Hk; [injection Hk as <-|done]. exists key1. rewrite Hrec. split; [apply elem_of_cons; by left|].
      split; [reflexivity|vm_compute; reflexivity].
    - rewrite Hrec. apply elem_of_cons. right. by apply list_elem_of_singleton.
    - reflexivity.
    - reflexivity.
    - intros h. apply sample_keys_law. }
  intros [rv d'] w' (-> & _ & Hv). split; [done|]. eapply wp_mono; [exact Hv|]. by intros [rv t'] w'' (-> & _).
Defined.

(** ** Limits *)

(** The keys of a signature are looked up by the subject key identifier alone, not
    together with the AS number of the path segment: an update that AS 65001 sent on is
    valid although all router keys of the table are those of AS 64496. *)
Theorem foreign_router_key_accepted :
  ∃ (t : rtr_spki_table (tommy_hashlin key_entry)) (w : world spki_event),
    (∀ r, r ∈ spki_records t → asn r = 64496) ∧ (∃ p, p ∈ path transit_update ∧ seg_asn p = 65001) ∧
    wp (rtr_bgpsec_validate_as_path (H := release_build) (H0 := {| big_endian := false |}) (H1 := sample_openssl)
          (Some transit_update) (Some t)) (λ '(rv, _) _, rv = RTR_BGPSEC_VALID) w.
Proof.
  destruct (two_keys_table None) as (t & w & Hok & Hnf & Hrec & _). exists t, w. split; [intros r; rewrite Hrec, !elem_of_cons, elem_of_nil; by intros [->|[->|[]]]|].
  split; [exists transit_seg; split; [apply elem_of_cons; by left|done]|]. eapply wp_mono.
  { eapply (validate_as_path_spec (H1 := sample_openssl) transit_update sample_nlri t w); [done|done|apply transit_update_ok|done|done| |].
    - intros sg Hsg. injection Hsg as <-. vm_compute. done.
    - vm_compute. done. }
  intros [rv t'] w' (_ & _ & Hv). pose proof (transit_signatures t Hrec) as Hall.
  rewrite decide_True in Hv by exact (all_keys t _ _ Hall). apply Hv, all_valid_signed; done.
Qed.

Definition long_sig : rtr_signature_seg := SignatureSeg (replicate 20 1) 40000 (Some (repeat 0 (Z.to_nat 40000))).
Definition long_update : rtr_bgpsec :=
  BgpSec 1 1 1 64496 65001 3 3 (Some sample_nlri) [long_sig; long_sig; long_sig] [transit_seg; transit_seg; origin_seg].

(** The size of the stream is kept in 16 bits: for an update whose octets do not fit
    into them, the memory is too short and validation writes beyond its end. *)
Theorem long_path_overruns_memory :
  ∃ s : stream, init_stream (default 0 (req_stream_size long_update VALIDATION)) spki_world = Some (Some s, spki_world) ∧
    str_size s < Z.of_nat (length (signed_octets long_update sample_nlri 0)) ∧
    align_byte_sequence (H0 := {| big_endian := false |}) long_update s VALIDATION = None.
Proof. eexists. split; [vm_compute; reflexivity|]. split; vm_compute; reflexivity. Qed.

Definition failing_openssl : OpenSSL := {|
  EC_KEY := Z;
  d2i_EC_PUBKEY := head;
  d2i_ECPrivateKey := head;
  EC_KEY_check_key := λ _, 1;
  SHA256 := λ l, [foldr Z.add 0 l];
  ECDSA_verify := λ _ _ _, -1;
  ECDSA_size := λ _, 72;
  ECDSA_sign := λ _ _, [] |}.

Lemma failed_signature_dangles_witness :
  wp (rtr_bgpsec_generate_signature (H0 := {| big_endian := false |}) (H1 := failing_openssl)
        (Some (extended announcement 65001 origin_seg [])) (Some (replicate 121 7)) Null) (λ '(rv, new_signature) _,
    rv = RTR_BGPSEC_SIGNING_ERROR ∧ read_field new_signature = None) spki_world.
Proof.
  apply (failed_signature_dangles (H1 := failing_openssl) _ sample_nlri _ 7); try done.
  - constructor.
  - apply extended_ok; [|constructor]. split; try done; by left.
Defined.
