(* ===== verification/RtrMgrBgpsec.v ===== *)
(** * BGPsec through the manager: [rtrlib/rtr_mgr.c]

    The functions that work with the manager's table of router keys, and those that only
    call their namesakes. *)

From S2P Require Import Prelude Hashlin Spki SpkiProofs AspaArray Aspa Pdu Bgpsec BgpsecProofs RtrMgr.
Open Scope Z_scope.

Section RtrMgrBgpsec.
Context `{Build} `{Host} {E HT : Type} `{!HashTable E HT key_entry} `{!Event spki_event E} `{!OpenSSL}.
Implicit Types (c : rtr_mgr_config HT) (d : rtr_bgpsec).

Definition rtr_mgr_bgpsec_validate_as_path (data : option rtr_bgpsec) c : M E (Z * rtr_mgr_config HT) :=
  st ← of_option (read_field (cfg_spki_table c));
  match st with
  | None => mret (RTR_BGPSEC_NOT_INITIALIZED, c)
  | Some st =>
      '(retval, st) ← rtr_bgpsec_validate_as_path data (Some st);
      mret (retval, set_tables c (cfg_pfx_table c) (of_pointer st) (cfg_aspa_table c))
  end.

Definition rtr_mgr_bgpsec_add_spki_record c (record : rtr_spki_record) : M E (rtr_mgr_config HT) :=
  st ← of_option (mjoin (read_field (cfg_spki_table c)));
  st ← rtr_bgpsec_add_spki_record st record;
  mret (set_tables c (cfg_pfx_table c) (Ptr st) (cfg_aspa_table c)).

Definition rtr_mgr_bgpsec_generate_signature (data : option rtr_bgpsec) (private_key : option (list Z))
    (new_signature : field rtr_signature_seg) : M E (Z * field rtr_signature_seg) :=
  rtr_bgpsec_generate_signature data private_key new_signature.
Definition rtr_mgr_bgpsec_get_version : Z := rtr_bgpsec_get_version.
Definition rtr_mgr_bgpsec_has_algorithm_suite (alg_suite : Z) : Z := rtr_bgpsec_has_algorithm_suite alg_suite.
Definition rtr_mgr_bgpsec_get_algorithm_suites := rtr_bgpsec_get_algorithm_suites.
Definition rtr_mgr_bgpsec_new_secure_path_seg (pcount flags asn : Z) : M E (option rtr_secure_path_seg) :=
  rtr_bgpsec_new_secure_path_seg pcount flags asn.
Definition rtr_mgr_bgpsec_prepend_sec_path_seg d (new_seg : list rtr_secure_path_seg) : option rtr_bgpsec :=
  rtr_bgpsec_prepend_sec_path_seg d new_seg.
Definition rtr_mgr_bgpsec_append_sec_path_seg d (new_seg : list rtr_secure_path_seg) : rtr_bgpsec :=
  rtr_bgpsec_append_sec_path_seg d new_seg.
Definition rtr_mgr_bgpsec_pop_secure_path_seg d : option rtr_secure_path_seg * rtr_bgpsec := rtr_bgpsec_pop_secure_path_seg d.
Definition rtr_mgr_bgpsec_new_signature_seg (ski : option (list Z)) (sig_len : Z) (signature : option (list Z))
  : M E (option rtr_signature_seg) := rtr_bgpsec_new_signature_seg ski sig_len signature.
Definition rtr_mgr_bgpsec_prepend_sig_seg d (new_seg : list rtr_signature_seg) : option (Z * rtr_bgpsec) :=
  rtr_bgpsec_prepend_sig_seg d new_seg.
Definition rtr_mgr_bgpsec_append_sig_seg d (new_seg : list rtr_signature_seg) : Z * rtr_bgpsec :=
  rtr_bgpsec_append_sig_seg d new_seg.
Definition rtr_mgr_bgpsec_pop_signature_seg d : option rtr_signature_seg * rtr_bgpsec := rtr_bgpsec_pop_signature_seg d.
Definition rtr_mgr_bgpsec_new (alg safi afi my_as target_as : Z) (nlri : option rtr_bgpsec_nlri) : M E (option rtr_bgpsec) :=
  rtr_bgpsec_new alg safi afi my_as target_as nlri.
Definition rtr_mgr_bgpsec_nlri_new (junk : rtr_bgpsec_nlri) (nlri_len : Z) : M E (option rtr_bgpsec_nlri) :=
  rtr_bgpsec_nlri_new junk nlri_len.

End RtrMgrBgpsec.

Section Specs.
Context `{Build} `{Host} {E HT : Type} `{!HashTable E HT key_entry} `{!HashTableSpec E HT key_entry}.
Context `{!Event spki_event E} `{!OpenSSL}.
Implicit Types (c : rtr_mgr_config HT) (d : rtr_bgpsec) (t : rtr_spki_table HT) (w : world E).

(** Without a table of router keys there is no verdict. *)
Lemma mgr_validate_uninitialised data c w :
  cfg_spki_table c = Null → rtr_mgr_bgpsec_validate_as_path data c w = Some (RTR_BGPSEC_NOT_INITIALIZED, c, w).
Proof. intros Hc. unfold rtr_mgr_bgpsec_validate_as_path. by rewrite Hc. Qed.

(** With a table, the verdict is that on the keys the caches sent, and the configuration
    is left as it was. *)
Lemma mgr_validate_spec d n c t w :
  cfg_spki_table c = Ptr t → spki_table_ok (E := E) t → no_fail w → update_ok d n → path d ≠ [] → length (sigs d) = length (path d) →
  (∀ sg, last (sigs d) = Some sg → nlri_size n < sig_len sg + 13) → Z.of_nat (length (signed_octets d n 0)) < 65536 →
  wp (rtr_mgr_bgpsec_validate_as_path (Some d) c) (λ '(rv, c') w', c' = c ∧ emits w [] w' ∧
    (rv = RTR_BGPSEC_VALID ↔ ∀ k sg, sigs d !! k = Some sg →
       ∃ r, r ∈ spki_records t ∧ ski r = sig_ski sg ∧ verifies (SHA256 (signed_octets d n k)) sg r)) w.
Proof.
  intros Hc Ht Hnf Hu Hp Hl Hlast Hmax. unfold rtr_mgr_bgpsec_validate_as_path. rewrite Hc. cbn [read_field]. wp_step. wp_step. cbv beta iota. wp_step.
  eapply wp_mono; [by apply validate_as_path_spec|]. intros [rv t'] w' (-> & Hw & Hv). cbv beta iota. wp_step.
  split; [unfold set_tables; simpl; rewrite <- Hc; by destruct c|]. split; [done|]. rewrite <- all_valid_signed by done.
  destruct (decide _) as [Hk|Hk]; [apply Hv|]. subst rv. split; [done|]. rewrite all_valid_signed by done. intros Hall. destruct Hk.
  by apply (all_keys t _ (λ k sg r, verifies (SHA256 (signed_octets d n k)) sg r)).
Qed.

End Specs.
