(* ===== verification/Rov.v ===== *)
(** * The tool [rpki-rov]: [tools/rpki-rov.c]

    From the first line of input on, and the wait for the first synchronisation.  A string
    is the list of its character codes, without the terminating zero.  What the other
    threads do to the status of the connection and to the table is given by the number of
    the iteration that looks at them. *)

From stdpp Require Import strings.
From S2P Require Import Prelude Ip IpText IpTextTheorems PfxTable RtrMgr.
Open Scope Z_scope.

Definition space : Z := 32.
Definition newline : Z := 10.
Definition connection_timeout : Z := 20.
Definition EXIT_FAILURE : Z := 1.

(** A text that was printed, to the standard output or to the standard error. *)
Inductive said := Out (text : list Z) | Err (text : list Z).
Definition line_of (s : string) : list Z := codes s ++ [newline].

(** ** What the code uses of the C library *)

(** [fgets] with a buffer of [n + 1] characters: up to the newline, which is kept, or the
    end; [None] at the end of the input. *)
Fixpoint get_line (n : nat) (input : list Z) : list Z * list Z :=
  match n, input with
  | S n, c :: rest => if c =? newline then ([c], rest) else let '(l, rest) := get_line n rest in (c :: l, rest)
  | _, _ => ([], input)
  end.
Definition fgets (size : nat) (input : list Z) : option (list Z * list Z) :=
  match input with [] => None | _ => Some (get_line (size - 1) input) end.

(** The string in a buffer ends at the first zero. *)
Fixpoint c_string (buffer : list Z) : list Z :=
  match buffer with c :: rest => if c =? 0 then [] else c :: c_string rest | [] => [] end.

(** [strtok] with a blank as the delimiter: the next token and what follows it. *)
Fixpoint skip_blanks (a : list Z) : list Z :=
  match a with c :: a' => if c =? space then skip_blanks a' else a | [] => [] end.
Fixpoint until_blank (a : list Z) : list Z * list Z :=
  match a with c :: a' => if c =? space then ([], a') else let '(t, rest) := until_blank a' in (c :: t, rest) | [] => ([], []) end.
Definition strtok (a : list Z) : option (list Z) * list Z :=
  match skip_blanks a with [] => (None, []) | a => let '(t, rest) := until_blank a in (Some t, rest) end.

(** [strtol] to base ten for a [long] of 64 bits: [None] is the error [ERANGE].  Text without
    a number is 0, without an error. *)
Definition strtol (a : list Z) : option Z :=
  let a := skip_space a in
  let '(negative, a) :=
    match a with c :: a' => if c =? 45 then (true, a') else if c =? 43 then (false, a') else (false, a) | [] => (false, a) end in
  let '(v, _, _) := scan_digits (length a) a 0 0 in
  let v := if (negative : bool) then - v else v in
  if (v <? - 2 ^ 63) || (2 ^ 63 <=? v) then None else Some v.

(** The conversions [%u] and [%d] for 32 bits. *)
Definition print_u (v : Z) : list Z := digits 10 10 v.
Definition print_d (v : Z) : list Z := if v <? 0 then 45 :: print_u (- v) else print_u v.

(** ** The tool *)

(** The text at [input] and what it was converted to; [None]: an error. *)
Definition str_to_int (str : list Z) : option Z := s32 <$> strtol str.

(** The character at a position of the string, its terminating zero included. *)
Definition char_at (input : list Z) (i : nat) : Z := default 0 (input !! i).

Definition starts_argument (input : list Z) (counter : nat) : bool :=
  (char_at input counter =? space) && negb (char_at input (S counter) =? space) && negb (char_at input (S counter) =? 0) && negb (Nat.eqb counter 0).
Fixpoint count_spaces (n : nat) (input : list Z) (counter : nat) (spaces : Z) : Z :=
  match n with
  | O => spaces
  | S n => count_spaces n input (S counter) (if starts_argument input counter then spaces + 1 else spaces)
  end.

Definition validity_code (result : rtr_pfxv_state) : Z :=
  match result with RTR_BGP_PFXV_STATE_VALID => 0 | RTR_BGP_PFXV_STATE_NOT_FOUND => 1 | RTR_BGP_PFXV_STATE_INVALID => 2 end.

(** The text of a record; the buffer of 100 characters is not written to if the address
    cannot be converted. *)
Definition print_reason (r : rtr_pfx_record) : option (list Z) :=
  tmp ← (rtr_ip_addr_to_str (rec_prefix r) 100).2;
  Some (print_u (asn r) ++ [space] ++ tmp ++ [space] ++ print_u (min_len r) ++ [space] ++ print_u (max_len r)).
Fixpoint print_reasons (rs : list rtr_pfx_record) : option (list Z) :=
  match rs with
  | [] => Some []
  | r :: rs =>
      text ← print_reason r;
      more ← print_reasons rs;
      Some (text ++ match rs with [] => [] | _ => [44] end ++ more)
  end.

Section Rov.
Context `{Build} {E : Type}.
Implicit Types (t : rtr_pfx_table) (w : world E).

(** The validation of a route and its output. *)
Definition rov_validate t (ip : list Z) (pref : rtr_ip_addr) (mask asn : Z) : M E (list said * rtr_pfx_table) :=
  '(_, result, reason, t) ← rtr_pfx_table_validate_r t true (u32 asn) pref (u8 mask);
  result ← of_option result;
  reasons ← of_option (print_reasons reason);
  mret ([Out (ip ++ [space] ++ print_d mask ++ [space] ++ print_d asn ++ [124] ++ reasons ++ [124] ++ print_d (validity_code result) ++ [newline])], t).

(** One line of input, as [fgets] left it in the buffer. *)
Definition rov_line t (buffer : list Z) : M E (list said * rtr_pfx_table) :=
  let input := c_string buffer in
  let input_len := (length input - 1)%nat in
  last ← of_option (if Nat.eqb (length input) 0 then None else input !! input_len);
  let input := if last =? newline then take input_len input else input in
  let spaces := count_spaces input_len input 0 0 in
  if negb (spaces =? 2) then mret ([Out (line_of "Arguments required: IP Mask ASN")], t)
  else
    let '(input_tok, rest) := strtok input in
    ip ← of_option input_tok;
    if INET6_ADDRSTRLEN - 1 <? Z.of_nat (length ip) then mret ([Err (line_of "Error: Invalid ip addr")], t)
    else
      pref ← of_option (rtr_ip_str_to_addr ip);
      match pref with
      | None => mret ([Err (line_of "Error: Invalid ip addr")], t)
      | Some pref =>
          let '(input_tok, rest) := strtok rest in
          input_tok ← of_option input_tok;
          match str_to_int input_tok with
          | None => mret ([Err (line_of "Error: Invalid mask")], t)
          | Some mask =>
              let '(input_tok, _) := strtok rest in
              input_tok ← of_option input_tok;
              match str_to_int input_tok with
              | None => mret ([Err (line_of "Error: Invalid asn")], t)
              | Some asn => rov_validate t ip pref mask asn
              end
          end
      end.

Context (status : nat → option rtr_mgr_status) (table : nat → rtr_pfx_table).

(** [None] is -1, the initial value of [connection_status].  The line that is read before
    the output is lost: the tool ends. *)
Definition connection_error (st : option rtr_mgr_status) : list said * bool :=
  if bool_decide (st = Some RTR_MGR_ERROR) then ([Out (line_of "error")], true) else ([], false).

(** The loop over the input: what was printed, and the exit status.  Every iteration takes a
    character at least, [S (length stdin)] of them are enough. *)
Fixpoint rov_loop (fuel i : nat) (stdin : list Z) : M E (list said * Z) :=
  match fuel with
  | O => of_option None
  | S fuel =>
      let '(out, failed) := connection_error (status i) in
      if failed then mret (out, EXIT_FAILURE)
      else
        match fgets 256 stdin with
        | None => mret ([Out (line_of "input error")], EXIT_FAILURE)
        | Some (buffer, stdin) =>
            '(out, _) ← rov_line (table i) buffer;
            '(more, code) ← rov_loop fuel (S i) stdin;
            mret (out ++ more, code)
        end
  end.

(** The wait for the first synchronisation: the iteration in which it is over, or what the
    tool prints before it gives up. *)
Context (in_sync : nat → bool).

Fixpoint rov_wait (fuel i : nat) (sleep_counter : Z) : option (nat + list said) :=
  match fuel with
  | O => None
  | S fuel =>
      if in_sync i then Some (inl i)
      else
        let '(out, failed) := connection_error (status i) in
        if failed then Some (inr out)
        else
          let sleep_counter := sleep_counter + 1 in
          if connection_timeout <=? sleep_counter then Some (inr [Out (line_of "timeout")])
          else rov_wait fuel (S i) sleep_counter
  end.

(** After [rtr_mgr_start]; the counter ends the wait after 20 iterations. *)
Definition rov_main (stdin : list Z) : M E (list said * Z) :=
  r ← of_option (rov_wait (Z.to_nat connection_timeout) 0 0);
  match r with
  | inr out => mret (out, EXIT_FAILURE)
  | inl i => rov_loop (S (length stdin)) i stdin
  end.

End Rov.
