(* ===== verification/RovTheorems.v ===== *)
(** * The tool [rpki-rov]: its answers *)

From stdpp Require Import strings.
From S2P Require Import Prelude Ip IpText IpTextProofs IpTextTheorems Trie PfxTable PfxTableProofs PfxTheorems RtrMgr Rov.
Open Scope Z_scope.

(** ** Characters *)

(** A character that is printed and is not a blank. *)
Definition visible (c : Z) : Prop := space < c.

Lemma digits_visible base n v : 2 <= base <= 16 → 0 <= v → Forall visible (digits base n v).
Proof.
  intros Hb. assert (∀ k, 0 <= k → visible (digit_char k)) as Hc.
  { intros k Hk. unfold visible, digit_char, space. destruct (k <? 10); lia. }
  revert v. induction n as [|n IH]; intros v Hv; cbn [digits]; [done|]. destruct (v <? base); [constructor; [by apply Hc|done]|].
  apply Forall_app. split; [apply IH, Z.div_pos; lia|]. constructor; [|done]. apply Hc, Z.mod_pos_bound. lia.
Qed.

Lemma decimal_visible v : 0 <= v → Forall visible (decimal v).
Proof. intros Hv. by apply digits_visible. Qed.

Lemma print_words_visible n words i bp bl : Forall (λ w, 0 <= w) words → Forall visible (print_words n words i bp bl).
Proof.
  intros Hw. revert i. induction n as [|n IH]; intros i; cbn [print_words]; [done|]. destruct (i <? 8); [|done].
  assert (visible colon) by done. destruct (i =? bp).
  - constructor; [done|]. apply Forall_app. split; [|apply IH]. by destruct (_ =? 7); repeat constructor.
  - apply Forall_app. split; [by destruct (i =? 0); repeat constructor|]. apply Forall_app. split; [|apply IH].
    apply digits_visible; [done|]. destruct (words !! Z.to_nat i) as [w|] eqn:Hl; [|done]. by apply (Forall_lookup_1 _ _ _ _ Hw Hl).
Qed.

Lemma dotted_visible a b c d : 0 <= a → 0 <= b → 0 <= c → 0 <= d →
  Forall visible (decimal a ++ [dot] ++ decimal b ++ [dot] ++ decimal c ++ [dot] ++ decimal d).
Proof. intros. assert (visible dot) by done. repeat (apply Forall_app; split); try (by apply decimal_visible); by repeat constructor. Qed.

Lemma text_inj (x y : list Z) : (0, Some x) = (0, Some y) → x = y.
Proof. congruence. Qed.

Lemma ip_text_visible ip len text : rtr_ip_addr_to_str ip len = (0, Some text) → Forall visible text.
Proof.
  assert (∀ x m, 0 <= m → 0 <= Z.land x m) as Hland by (intros x m Hm; apply Z.land_nonneg; by right).
  destruct ip as [[x]|a]; cbn [rtr_ip_addr_to_str].
  - unfold rtr_ipv4_addr_to_str. destruct (len =? 0); [done|]. intros <-%text_inj. apply Forall_take. by apply dotted_visible; apply Hland.
  - unfold rtr_ipv6_addr_to_str. destruct (len <? _); [done|]. destruct (best_run _ _ _ _ _ _) as [bp bl].
    destruct (_ && _); intros <-%text_inj.
    + do 2 (constructor; [done|]). apply Forall_app. split; [destruct (negb _); by repeat constructor|]. by apply dotted_visible; apply Hland.
    + apply print_words_visible. unfold ipv6_words. cbn [flat_map app]. repeat (constructor; [by apply Hland|]). constructor.
Qed.

(** ** Numbers *)

Definition digits_value (a : list Z) (v : Z) : Z := fold_left (λ v c, v * 10 + (c - 48)) a v.

Lemma scan_digits_all a v k : Forall (λ c, is_digit c = true) a → scan_digits (length a) a v k = (digits_value a v, (k + length a)%nat, []).
Proof.
  revert v k. induction a as [|c a IH]; intros v k Ha; [by rewrite Nat.add_0_r|]. apply Forall_cons in Ha as [Hc Ha].
  cbn [scan_digits length]. rewrite Hc, IH by done. by rewrite <- Nat.add_succ_comm.
Qed.

Lemma digits_digits n v : 0 <= v → Forall (λ c, is_digit c = true) (digits 10 n v).
Proof.
  revert v. induction n as [|n IH]; intros v Hv; cbn [digits]; [done|]. destruct (Z.ltb_spec v 10) as [Hlt|Hge].
  - constructor; [|done]. rewrite digit_char_dec by lia. apply is_digit_char. lia.
  - apply Forall_app. split; [apply IH; divs|]. constructor; [|done]. rewrite digit_char_dec by divs. apply is_digit_char. divs.
Qed.

Lemma digits_value_digits n v : 0 <= v < 10 ^ Z.of_nat n → digits_value (digits 10 n v) 0 = v.
Proof.
  revert v. induction n as [|n IH]; intros v Hv; [simpl in *; lia|]. cbn [digits]. destruct (Z.ltb_spec v 10) as [Hlt|Hge].
  - unfold digits_value. cbn [fold_left]. rewrite digit_char_dec by lia. lia.
  - unfold digits_value. rewrite fold_left_app. fold (digits_value (digits 10 n (v / 10)) 0). rewrite IH.
    + cbn [fold_left]. rewrite digit_char_dec by divs. divs.
    + rewrite Nat2Z.inj_succ, Z.pow_succ_r in Hv by lia. split; [divs|]. apply Z.div_lt_upper_bound; lia.
Qed.

Lemma digits_head n v : 0 <= v → n ≠ 0%nat → ∃ c l, digits 10 n v = c :: l.
Proof.
  intros Hv Hn. destruct n as [|n]; [done|]. cbn [digits]. destruct (v <? 10); [by eexists _, _|].
  destruct (digits 10 n (v / 10)); simpl; by eexists _, _.
Qed.

Lemma strtol_print_u v : is_u32 v → strtol (print_u v) = Some v.
Proof.
  intros Hv. unfold strtol, print_u. pose proof (digits_digits 10 v ltac:(lia)) as Hd. destruct (digits_head 10 v) as (c & l & Hc); [lia|done|].
  pose proof (digits_value_digits 10 v) as Hval. rewrite Hc in *. apply Forall_cons in Hd as Hd'. destruct Hd' as [Hcd _].
  unfold is_digit in Hcd. apply andb_true_iff in Hcd as [Hc1%Z.leb_le Hc2%Z.leb_le].
  assert (skip_space (c :: l) = c :: l) as ->.
  { cbn [skip_space]. unfold is_space. rewrite (proj2 (Z.eqb_neq c 32)), (proj2 (Z.leb_gt c 13)), andb_false_r by lia. done. }
  rewrite (proj2 (Z.eqb_neq c 45)), (proj2 (Z.eqb_neq c 43)) by lia. rewrite scan_digits_all, Hval by (done || (simpl; lia)).
  rewrite (proj2 (Z.ltb_ge v _)), (proj2 (Z.leb_gt _ v)) by lia. done.
Qed.

Lemma u32_s32 v : is_u32 v → u32 (s32 v) = v.
Proof. intros Hv. unfold s32, u32. rewrite (Z.mod_small v) by done. destruct (v <? 2147483648) eqn:Hl; divs. Qed.

Lemma s32_small v : 0 <= v < 2147483648 → s32 v = v.
Proof. intros Hv. unfold s32, u32. rewrite Z.mod_small by lia. by rewrite (proj2 (Z.ltb_lt _ _)) by lia. Qed.

(** ** Lines *)

Definition word (a : list Z) : Prop := a ≠ [] ∧ Forall visible a.

Lemma print_u_word v : 0 <= v → word (print_u v).
Proof. intros Hv. split; [|by apply digits_visible]. destruct (digits_head 10 v Hv) as (c & l & Hc); [done|]. unfold print_u. by rewrite Hc. Qed.

Lemma until_blank_word a rest : Forall visible a → until_blank (a ++ space :: rest) = (a, rest).
Proof.
  induction 1 as [|c a Hc _ IH]; [done|]. unfold visible in Hc. cbn [app until_blank]. rewrite (proj2 (Z.eqb_neq c space)) by lia. by rewrite IH.
Qed.

Lemma until_blank_end a : Forall visible a → until_blank a = (a, []).
Proof. induction 1 as [|c a Hc _ IH]; [done|]. unfold visible in Hc. cbn [until_blank]. rewrite (proj2 (Z.eqb_neq c space)) by lia. by rewrite IH. Qed.

Lemma skip_blanks_word a rest : word a → skip_blanks (a ++ rest) = a ++ rest.
Proof.
  intros [Hne Ha]. destruct a as [|c a]; [done|]. apply Forall_cons in Ha as [Hc _]. unfold visible in Hc. cbn [app skip_blanks].
  by rewrite (proj2 (Z.eqb_neq c space)) by lia.
Qed.

Lemma strtok_word a rest : word a → strtok (a ++ space :: rest) = (Some a, rest).
Proof.
  intros Ha. unfold strtok. rewrite skip_blanks_word by done. destruct Ha as [Hne Ha]. destruct a as [|c a]; [done|]. cbn [app].
  pose proof (until_blank_word (c :: a) rest Ha) as Hu. cbn [app] in Hu. by rewrite Hu.
Qed.

Lemma strtok_end a : word a → strtok a = (Some a, []).
Proof.
  intros Ha. unfold strtok. pose proof (skip_blanks_word a [] Ha) as Hs. rewrite app_nil_r in Hs. rewrite Hs. destruct Ha as [Hne Ha].
  destruct a as [|c a]; [done|]. by rewrite (until_blank_end (c :: a)).
Qed.

Lemma char_at_app a b j : char_at (a ++ b) (length a + j) = char_at b j.
Proof. unfold char_at. by rewrite lookup_app_r, Nat.add_comm, Nat.add_sub by lia. Qed.

Lemma char_at_word a b j : Forall visible a → (j < length a)%nat → visible (char_at (a ++ b) j).
Proof.
  intros Ha Hj. unfold char_at. rewrite lookup_app_l by done. destruct (lookup_lt_is_Some_2 a j Hj) as [c Hc]. rewrite Hc. by apply (Forall_lookup_1 _ _ _ _ Ha Hc).
Qed.

Lemma count_spaces_split n m input i s : count_spaces (n + m) input i s = count_spaces m input (i + n) (count_spaces n input i s).
Proof. revert i s. induction n as [|n IH]; intros i s; [by rewrite Nat.add_0_r|]. cbn [count_spaces Nat.add]. rewrite IH. f_equal. lia. Qed.

Lemma count_spaces_word a b pre s : Forall visible a → count_spaces (length a) (pre ++ a ++ b) (length pre) s = s.
Proof.
  intros Ha. revert pre s. induction Ha as [|c a Hc Ha IH]; intros pre s; [done|]. cbn [length count_spaces].
  assert (starts_argument (pre ++ (c :: a) ++ b) (length pre) = false) as ->.
  { unfold starts_argument. rewrite <- (Nat.add_0_r (length pre)) at 1. rewrite char_at_app. change (char_at ((c :: a) ++ b) 0) with c. unfold visible in Hc.
    by rewrite (proj2 (Z.eqb_neq c space)) by lia. }
  specialize (IH (pre ++ [c]) s). rewrite length_app, <- (assoc_L (++)) in IH. simpl in IH. rewrite Nat.add_comm in IH. exact IH.
Qed.

Lemma starts_argument_word pre a b : pre ≠ [] → word a → starts_argument (pre ++ space :: a ++ b) (length pre) = true.
Proof.
  intros Hpre [Hne Ha]. unfold starts_argument. rewrite <- (Nat.add_0_r (length pre)) at 1. rewrite char_at_app. rewrite <- Nat.add_1_r, char_at_app.
  destruct a as [|c a]; [done|]. apply Forall_cons in Ha as [Hc _]. change (char_at (space :: (c :: a) ++ b) 1) with c. unfold visible, space in *.
  rewrite (proj2 (Z.eqb_neq c 32)), (proj2 (Z.eqb_neq c 0)) by lia. destruct pre; [done|]. done.
Qed.

(** Three words make two arguments after the first one. *)
Lemma count_spaces_three a b c : word a → word b → word c →
  let input := a ++ space :: b ++ space :: c in count_spaces (length input) input 0 0 = 2.
Proof.
  intros Ha Hb Hc input.
  assert (∀ s, count_spaces (length a) input 0 s = s) as C1 by (intros s; exact (count_spaces_word a (space :: b ++ space :: c) [] s (proj2 Ha))).
  assert (starts_argument input (length a) = true) as C2 by exact (starts_argument_word a b (space :: c) (proj1 Ha) Hb).
  assert (∀ s, count_spaces (length b) input (length a + 1) s = s) as C3.
  { intros s. pose proof (count_spaces_word b (space :: c) (a ++ [space]) s (proj2 Hb)) as Hw. rewrite length_app, <- (assoc_L (++)) in Hw. exact Hw. }
  assert (starts_argument input (length a + 1 + length b) = true) as C4.
  { pose proof (starts_argument_word (a ++ space :: b) c [] ltac:(by destruct a) Hc) as Hs. rewrite app_nil_r, <- (assoc_L (++)), length_app in Hs.
    by rewrite <- (assoc_L Nat.add). }
  assert (∀ s, count_spaces (length c) input (length a + 1 + length b + 1) s = s) as C5.
  { intros s. pose proof (count_spaces_word c [] (a ++ space :: b ++ [space]) s (proj2 Hc)) as Hw. rewrite app_nil_r, <- (assoc_L (++)) in Hw.
    cbn [app] in Hw. rewrite <- (assoc_L (++)), length_app, length_cons, length_app in Hw. cbn [app length] in Hw.
    replace (length a + 1 + length b + 1)%nat with (length a + S (length b + 1))%nat by lia. exact Hw. }
  replace (length input) with (length a + 1 + length b + 1 + length c)%nat.
  - rewrite !count_spaces_split. rewrite C1, C5. cbn [count_spaces Nat.add]. rewrite C2, C3. by rewrite C4.
  - unfold input. rewrite length_app, length_cons, length_app, length_cons. lia.
Qed.

Lemma get_line_newline n a rest : Forall (λ c, c ≠ newline) a → (length a < n)%nat → get_line n (a ++ newline :: rest) = (a ++ [newline], rest).
Proof.
  intros Ha. revert n. induction Ha as [|c a Hc _ IH]; intros n Hn; (destruct n as [|n]; [simpl in Hn; lia|]); [done|].
  cbn [app get_line]. rewrite (proj2 (Z.eqb_neq c newline)) by done. rewrite IH; [done|]. simpl in Hn. lia.
Qed.

Lemma c_string_nonzero a : Forall (λ c, c ≠ 0) a → c_string a = a.
Proof. induction 1 as [|c a Hc _ IH]; [done|]. cbn [c_string]. rewrite (proj2 (Z.eqb_neq c 0)) by done. by rewrite IH. Qed.

(** ** Questions and answers *)

Record query := Query { q_ip : rtr_ip_addr; q_mask : Z; q_asn : Z }.
Definition query_ok (q : query) : Prop := valid_addr (q_ip q) ∧ is_u8 (q_mask q) ∧ is_u32 (q_asn q).

Definition ip_text (ip : rtr_ip_addr) : list Z := default [] (rtr_ip_addr_to_str ip INET6_ADDRSTRLEN).2.
Definition query_words (q : query) : list Z := ip_text (q_ip q) ++ space :: print_u (q_mask q) ++ space :: print_u (q_asn q).
Definition query_line (q : query) : list Z := query_words q ++ [newline].

Section Answers.
Context `{Build} {E : Type}.
Implicit Types (t : rtr_pfx_table) (w : world E) (q : query).

(** The answer has the question, the reasons and the verdict of RFC 6811.  The number of the
    AS is printed as an [int]. *)
Definition is_answer t q (text : list Z) : Prop :=
  let cov := covering_records t (q_ip q) (q_mask q) in
  let verdict := rov_state (q_asn q) (q_mask q) cov in
  ∃ reason reasons, print_reasons reason = Some reasons ∧
    text = ip_text (q_ip q) ++ [space] ++ print_d (q_mask q) ++ [space] ++ print_d (s32 (q_asn q)) ++ [124] ++ reasons ++ [124] ++
      print_d (validity_code verdict) ++ [newline] ∧
    match verdict with
    | RTR_BGP_PFXV_STATE_VALID => (∃ rest, cov ≡ₚ reason ++ rest) ∧ existsb (rov_match (q_asn q) (q_mask q)) reason = true
    | _ => reason ≡ₚ cov
    end.

(** The table can be searched for addresses of both families. *)
Definition searchable t : Prop := table_ok t ∧ ∀ v, height (pfx_table_get_root t v) <= width v.

Lemma ip_text_spec ip : valid_addr ip →
  word (ip_text ip) ∧ Z.of_nat (length (ip_text ip)) <= INET6_ADDRSTRLEN - 1 ∧ rtr_ip_str_to_addr (ip_text ip) = Some (Some ip).
Proof.
  intros Hv. assert (str_len ip <= INET6_ADDRSTRLEN) as Hs by by destruct ip. destruct (ip_text_read ip INET6_ADDRSTRLEN Hv Hs) as (text & Ht & Hl & Hp).
  unfold ip_text. rewrite Ht. cbn [snd default from_option id]. split; [|split; [lia|done]]. split; [|by eapply ip_text_visible].
  intros ->. by destruct ip.
Qed.

Lemma print_reasons_total rs : ∃ text, print_reasons rs = Some text.
Proof.
  assert (∀ r, ∃ text, print_reason r = Some text) as Hr.
  { intros r. unfold print_reason. destruct (rec_prefix r) as [a|a]; cbn [rtr_ip_addr_to_str]; [by eexists|]. unfold rtr_ipv6_addr_to_str.
    change (100 <? INET6_ADDRSTRLEN) with false. cbv iota. destruct (best_run _ _ _ _ _ _). destruct (_ && _); by eexists. }
  induction rs as [|r rs [more IH]]; [by exists []|]. destruct (Hr r) as [text Ht]. cbn [print_reasons]. rewrite Ht, IH. by eexists.
Qed.

Lemma query_words_chars q : query_ok q → Forall (λ c, c ≠ newline ∧ c ≠ 0) (query_words q).
Proof.
  intros (Hv & Hm & Ha). assert (∀ a, word a → Forall (λ c, c ≠ newline ∧ c ≠ 0) a) as Hw.
  { intros a [_ Hall]. eapply Forall_impl; [done|]. intros c. unfold visible, space, newline. lia. }
  unfold query_words. apply Forall_app. split; [by apply Hw, ip_text_spec|]. apply Forall_cons. split; [done|].
  apply Forall_app. split; [apply Hw, print_u_word; lia|]. apply Forall_cons. split; [done|]. apply Hw, print_u_word. lia.
Qed.

Lemma rov_validate_spec t q w : searchable t → query_ok q → no_fail w →
  wp (rov_validate t (ip_text (q_ip q)) (q_ip q) (q_mask q) (s32 (q_asn q))) (λ '(out, t') w', t' = t ∧ emits w [] w' ∧ ∃ text, out = [Out text] ∧ is_answer t q text) w.
Proof.
  intros [Hok Hh] (Hv & Hm & Ha) Hnf. unfold rov_validate. rewrite u32_s32, u8_small by done. wp_step.
  eapply wp_mono; [by apply rtr_pfx_table_validate_r_spec|]. intros [[[rtval result] reason] t'] w' (-> & Hw & Hres). cbv beta iota.
  destruct rtval; try done; [|by destruct Hres as (_ & Hno & _)]. destruct Hres as (-> & _ & Hinv & Hval). destruct (print_reasons_total reason) as [reasons Hr].
  wp_step. eapply wp_of_option; [done|]. wp_step. eapply wp_of_option; [done|]. wp_step. split; [done|]. split; [done|]. eexists. split; [done|].
  exists reason, reasons. split; [done|]. split; [done|]. destruct (rov_state _ _ _) eqn:Hst; [by apply Hval|by apply Hinv..].
Qed.

Lemma rov_line_spec t q w : searchable t → query_ok q → no_fail w →
  wp (rov_line t (query_line q)) (λ '(out, t') w', t' = t ∧ emits w [] w' ∧ ∃ text, out = [Out text] ∧ is_answer t q text) w.
Proof.
  intros Ht Hq Hnf. pose proof (query_words_chars q Hq) as Hc. pose proof Hq as (Hv & Hm & Ha). destruct (ip_text_spec _ Hv) as (Hw & Hlen & Hp).
  assert (word (print_u (q_mask q))) as Hwm by (apply print_u_word; lia). assert (word (print_u (q_asn q))) as Hwa by (apply print_u_word; lia).
  unfold rov_line, query_line. rewrite c_string_nonzero.
  2:{ apply Forall_app. split; [|by repeat constructor]. eapply Forall_impl; [done|]. by intros c [_ ?]. }
  rewrite length_app. change (length [newline]) with 1%nat. rewrite Nat.add_sub. rewrite (proj2 (Nat.eqb_neq _ 0)) by lia.
  wp_step. eapply wp_of_option; [by rewrite lookup_app_r, Nat.sub_diag by lia|]. rewrite Z.eqb_refl, take_app_length. cbv zeta.
  unfold query_words at 1 2. rewrite (count_spaces_three _ _ _ Hw Hwm Hwa). change (negb (2 =? 2)) with false. cbv iota.
  unfold query_words. rewrite strtok_word by done. cbv beta iota. wp_step. eapply wp_of_option; [done|]. rewrite (proj2 (Z.ltb_ge _ _)) by done.
  wp_step. eapply wp_of_option; [exact Hp|]. rewrite strtok_word by done. cbv beta iota. wp_step. eapply wp_of_option; [done|].
  unfold str_to_int. rewrite strtol_print_u by lia. cbn [fmap option_fmap option_map]. rewrite s32_small by lia. rewrite strtok_end by done. cbv beta iota.
  wp_step. eapply wp_of_option; [done|]. rewrite strtol_print_u by done. by apply rov_validate_spec.
Qed.

(** A query fits into the buffer. *)
Lemma query_line_length q : query_ok q → (length (query_words q) < 255)%nat.
Proof.
  intros (Hv & Hm & Ha). destruct (ip_text_spec _ Hv) as (_ & Hlen & _). unfold INET6_ADDRSTRLEN in Hlen. unfold query_words.
  assert (∀ n v, (length (digits 10 n v) <= n)%nat) as Hd.
  { induction n as [|n IH]; intros v; cbn [digits]; [done|]. destruct (v <? 10); [simpl; lia|]. rewrite length_app. specialize (IH (v / 10)). simpl. lia. }
  pose proof (Hd 10%nat (q_mask q)). pose proof (Hd 10%nat (q_asn q)). unfold print_u. rewrite length_app, length_cons, length_app, length_cons. lia.
Qed.

Context (status : nat → option rtr_mgr_status) (table : nat → rtr_pfx_table).

Lemma rov_loop_spec qs : ∀ fuel i w, (length qs < fuel)%nat → Forall query_ok qs → (∀ k, status k ≠ Some RTR_MGR_ERROR) → (∀ k, searchable (table k)) → no_fail w →
  wp (rov_loop status table fuel i (flat_map query_line qs)) (λ '(out, code) w', emits w [] w' ∧ code = EXIT_FAILURE ∧
    ∃ texts, out = (Out <$> texts) ++ [Out (line_of "input error")] ∧ length texts = length qs ∧
      ∀ k q text, qs !! k = Some q → texts !! k = Some text → is_answer (table (i + k)) q text) w.
Proof.
  induction qs as [|q qs IH]; intros fuel i w Hf Hqs Hst Htab Hnf; (destruct fuel as [|fuel]; [simpl in Hf; lia|]); cbn [rov_loop flat_map].
  all: unfold connection_error; rewrite bool_decide_eq_false_2 by done; cbv iota.
  { cbn [fgets]. wp_step. split; [apply emits_refl|]. split; [done|]. exists []. done. }
  apply Forall_cons in Hqs as [Hq Hqs]. pose proof (query_line_length q Hq) as Hlen.
  assert (fgets 256 (query_line q ++ flat_map query_line qs) = Some (query_line q, flat_map query_line qs)) as ->.
  { unfold query_line at 1 3. rewrite <- (assoc_L (++)). cbn [app]. unfold fgets. change (256 - 1)%nat with 255%nat.
    rewrite get_line_newline; [by destruct (query_words q)| |done]. eapply Forall_impl; [by apply query_words_chars|]. by intros c [? _]. }
  wp_step. eapply wp_mono; [by apply rov_line_spec|]. intros [out t'] w1 (_ & Hw1 & text & -> & Hans). cbv beta iota. wp_step.
  eapply wp_mono; [apply (IH fuel (S i) w1); [simpl in Hf; lia|done|done|done|by eapply emits_no_fail]|].
  intros [more code] w2 (Hw2 & -> & texts & -> & Hlt & Hall). cbv beta iota. wp_step. split; [by eapply emits_quiet|]. split; [done|].
  exists (text :: texts). split; [done|]. split; [simpl; lia|]. intros [|k] q' text' Hq' Ht'; simplify_eq/=.
  - by rewrite Nat.add_0_r.
  - rewrite <- Nat.add_succ_comm. by eapply Hall.
Qed.

(** ** The whole run *)

Context (in_sync : nat → bool).

(** The wait ends, after 20 iterations at most. *)
Lemma rov_wait_total fuel i : (0 < fuel)%nat → Z.of_nat (i + fuel) = connection_timeout → is_Some (rov_wait status in_sync fuel i (Z.of_nat i)).
Proof.
  revert i. induction fuel as [|fuel IH]; intros i Hf Hi; [lia|]. cbn [rov_wait]. destruct (in_sync i); [done|]. unfold connection_error.
  destruct (bool_decide _); [done|]. destruct (Z.leb_spec connection_timeout (Z.of_nat i + 1)) as [Hle|Hlt]; [done|].
  replace (Z.of_nat i + 1) with (Z.of_nat (S i)) by lia. apply IH; lia.
Qed.

Lemma rov_wait_sync n fuel i : (∀ k, status k ≠ Some RTR_MGR_ERROR) → in_sync n = true → (∀ k, (i <= k < n)%nat → in_sync k = false) → (i <= n)%nat →
  Z.of_nat n < connection_timeout → Z.of_nat (i + fuel) = connection_timeout → rov_wait status in_sync fuel i (Z.of_nat i) = Some (inl n).
Proof.
  intros Hst Hn. revert i. induction fuel as [|fuel IH]; intros i Hk Hi Hlt Hf; [lia|]. cbn [rov_wait].
  destruct (decide (i = n)) as [->|Hne]; [by rewrite Hn|]. rewrite Hk by lia. unfold connection_error. rewrite bool_decide_eq_false_2 by done. cbv iota.
  rewrite (proj2 (Z.leb_gt _ _)) by lia. replace (Z.of_nat i + 1) with (Z.of_nat (S i)) by lia. apply IH; [intros k ?; apply Hk; lia|lia..].
Qed.

(** C20: The tool from the synchronisation on, for an input of well-formed questions: an
    address in the text the library writes, a length and an AS number in decimal, one
    question a line.  When the connection is in time and stays without an error, all tables
    are well-formed with trees that have at most as many levels as an address has bits, and
    memory lasts, it answers each question, in order, with the verdict of RFC 6811 and the
    records that are the reason for it, by the table at the time of the question, and it
    ends with the input, with a message and a failure code. *)
Theorem rov_answers_correct qs n w : Forall query_ok qs → (∀ k, status k ≠ Some RTR_MGR_ERROR) → (∀ k, searchable (table k)) → no_fail w →
  in_sync n = true → (∀ k, (k < n)%nat → in_sync k = false) → Z.of_nat n < connection_timeout →
  wp (rov_main status table in_sync (flat_map query_line qs)) (λ '(out, code) w', emits w [] w' ∧ code = EXIT_FAILURE ∧
    ∃ texts, out = (Out <$> texts) ++ [Out (line_of "input error")] ∧ length texts = length qs ∧
      ∀ k q text, qs !! k = Some q → texts !! k = Some text → is_answer (table (n + k)) q text) w.
Proof.
  intros Hqs Hst Htab Hnf Hn Hk Hlt. unfold rov_main. wp_step. eapply wp_of_option.
  - apply (rov_wait_sync n _ 0); [done|done|intros k ?; apply Hk; lia|lia|done|done].
  - cbv beta iota. apply rov_loop_spec; try done. assert (length qs <= length (flat_map query_line qs))%nat; [|lia].
    clear. induction qs as [|q qs IH]; [done|]. cbn [flat_map]. unfold query_line at 1. rewrite !length_app. simpl. lia.
Qed.

End Answers.

(** ** Instances *)

(** 10.1.0.0/16 and 10.1.0.0/24 of AS 64497, in the third second. *)
Definition sample_queries : list query := [Query (Addr4 {| addr := 167837696 |}) 16 64497; Query (Addr4 {| addr := 167837696 |}) 25 64497].

Lemma sample_searchable : searchable (H := release_build) sample_table.
Proof. split; [decided|]. intros []; vm_compute; discriminate. Qed.

Lemma rov_answers_correct_witness :
  wp (rov_main (H := release_build) (λ _, None) (λ _, sample_table) (λ i, Nat.eqb i 3) (flat_map query_line sample_queries)) (λ '(out, code) w',
    flat_map query_line sample_queries = line_of "10.1.0.0 16 64497" ++ line_of "10.1.0.0 25 64497" ∧
    out = [Out (line_of "10.1.0.0 16 64497|64496 10.0.0.0 8 16,64497 10.1.0.0 16 24|0");
           Out (line_of "10.1.0.0 25 64497|64496 10.0.0.0 8 16,64497 10.1.0.0 16 24|2"); Out (line_of "input error")]) empty_world.
Proof.
  assert (Forall query_ok sample_queries) as Hq by (repeat constructor; vm_compute; (discriminate || reflexivity)).
  destruct (rov_answers_correct (H := release_build) (λ _, None) (λ _, sample_table) (λ i, Nat.eqb i 3) sample_queries 3 empty_world Hq) as ([out code] & w' & Hr & _).
  - done.
  - intros _. apply sample_searchable.
  - by constructor.
  - done.
  - intros k Hk. apply Nat.eqb_neq. lia.
  - done.
  - exists (out, code), w'. split; [exact Hr|]. split; [vm_compute; reflexivity|]. vm_compute in Hr. by injection Hr as <- _ _.
Defined.

(** ** Limits *)

(** With two blanks before the first word, two words are taken for three: the third is the
    null pointer, of which [strtol] reads. *)
Lemma rov_leading_blanks_undefined :
  rov_line (H := release_build) sample_table (codes "  10.1.0.0 16" ++ [newline]) empty_world = None.
Proof. by vm_compute. Qed.

(** A line that starts with a zero makes the tool read before the buffer. *)
Lemma rov_zero_undefined rest : rov_line (H := release_build) sample_table (0 :: rest) empty_world = None.
Proof. done. Qed.

(** The length of the prefix is reduced modulo 256, and large AS numbers are negative in the
    output. *)
Lemma rov_numbers_wrap :
  fst <$> rov_line (H := release_build) sample_table (line_of "10.1.0.0 272 4294967295") empty_world =
  Some ([Out (line_of "10.1.0.0 272 -1|64496 10.0.0.0 8 16,64497 10.1.0.0 16 24|2")], sample_table).
Proof. by vm_compute. Qed.
