(* ===== verification/Client.v ===== *)
(** * The tool [rtrclient]: its command line, [tools/rtrclient.c]

    The code is that with support for SSH.  A string is the list of its character codes,
    without the terminating zero.  [argv] from [optind] on is the list of the arguments that
    are left, so that [argc - optind] is its length. *)

From stdpp Require Import strings.
From S2P Require Import Prelude IpText IpTextTheorems Rov Sys Tcp Ssh.
Open Scope Z_scope.

Abbreviation str := (list Z).

(** ** UTF-8 *)

Definition UTF8_ONE_BYTE_PREFIX : Z := 0.
Definition UTF8_ONE_BYTE_MASK : Z := 128.
Definition UTF8_TWO_BYTE_PREFIX : Z := 192.
Definition UTF8_TWO_BYTE_MASK : Z := 224.
Definition UTF8_THREE_BYTE_PREFIX : Z := 224.
Definition UTF8_THREE_BYTE_MASK : Z := 240.
Definition UTF8_FOUR_BYTE_PREFIX : Z := 240.
Definition UTF8_FOUR_BYTE_MASK : Z := 248.
Definition UTF8_SUBSEQUENT_BYTE_PREFIX : Z := 128.
Definition UTF8_SUBSEQUENT_BYTE_MASK : Z := 192.

Definition byte_is (mask prefix : Z) (a : str) (i : nat) : bool := Z.land (char_at a i) mask =? prefix.
Definition subsequent (a : str) (i : nat) : bool := byte_is UTF8_SUBSEQUENT_BYTE_MASK UTF8_SUBSEQUENT_BYTE_PREFIX a i.

(** The loop; every iteration takes a byte at least. *)
Fixpoint utf8_loop (fuel : nat) (a : str) (i : nat) : option bool :=
  let len := length a in
  match fuel with
  | O => None
  | S fuel =>
      if (i <? len)%nat then
        if byte_is UTF8_ONE_BYTE_MASK UTF8_ONE_BYTE_PREFIX a i then utf8_loop fuel a (i + 1)
        else if byte_is UTF8_TWO_BYTE_MASK UTF8_TWO_BYTE_PREFIX a i && (i + 1 <? len)%nat && subsequent a (i + 1) then utf8_loop fuel a (i + 2)
        else if byte_is UTF8_THREE_BYTE_MASK UTF8_THREE_BYTE_PREFIX a i && (i + 2 <? len)%nat && subsequent a (i + 1) && subsequent a (i + 2)
        then utf8_loop fuel a (i + 3)
        else if byte_is UTF8_FOUR_BYTE_MASK UTF8_FOUR_BYTE_PREFIX a i && (i + 3 <? len)%nat && subsequent a (i + 1) && subsequent a (i + 2) && subsequent a (i + 3)
        then utf8_loop fuel a (i + 4)
        else Some false
      else Some true
  end.
Definition is_utf8 (a : str) : option bool := utf8_loop (S (length a)) a 0.

(** ** Checks of arguments *)

Definition is_numeric (a : str) : bool := forallb is_digit a.

(** [atoi] of digits: a number that an [int] cannot represent is undefined. *)
Definition atoi (a : str) : option Z :=
  let '(v, _, _) := scan_digits (length a) a 0 0 in
  if 2147483647 <? v then None else Some v.

Definition is_valid_port_number (a : str) : option bool :=
  if negb (is_numeric a) then Some false
  else
    port ← atoi a;
    Some (negb ((port <? 1) || (65535 <? port))).

Definition lower (c : Z) : Z := if (65 <=? c) && (c <=? 90) then c + 32 else c.

(** [strncasecmp(a, b, n) == 0]; the strings end with a zero. *)
Fixpoint strncasecmp_equal (n : nat) (a b : str) : bool :=
  match n with
  | O => true
  | S n =>
      match a, b with
      | [], [] => true
      | c :: a, d :: b => (lower c =? lower d) && strncasecmp_equal n a b
      | _, _ => false
      end
  end.
Definition is_word_prefix (a : str) (w : string) : bool := strncasecmp_equal (length a) a (codes w).

(** ** The configuration *)

Inductive socket_type := SOCKET_TYPE_TCP | SOCKET_TYPE_SSH.

Record socket_config := SocketConfig {
  type : socket_type;
  print_pfx_updates : bool;
  print_spki_updates : bool;
  print_aspa_updates : bool;
  bindaddr : option str;
  host : option str;
  port : option str;
  ssh_username : option str;
  ssh_private_key : option str;
  ssh_host_key : option str;
  ssh_password : option str;
  force_password : bool;
  force_key : bool }.
Implicit Types c : socket_config.

(** What is set to zero by [memset]. *)
Definition no_config : socket_config := SocketConfig SOCKET_TYPE_TCP false false false None None None None None None None false false.

Definition set_type c (x : socket_type) := SocketConfig x (print_pfx_updates c) (print_spki_updates c) (print_aspa_updates c) (bindaddr c) (host c) (port c)
  (ssh_username c) (ssh_private_key c) (ssh_host_key c) (ssh_password c) (force_password c) (force_key c).
Definition set_prints c (p k a : bool) := SocketConfig (type c) p k a (bindaddr c) (host c) (port c)
  (ssh_username c) (ssh_private_key c) (ssh_host_key c) (ssh_password c) (force_password c) (force_key c).
Definition set_addresses c (b h p : option str) := SocketConfig (type c) (print_pfx_updates c) (print_spki_updates c) (print_aspa_updates c) b h p
  (ssh_username c) (ssh_private_key c) (ssh_host_key c) (ssh_password c) (force_password c) (force_key c).
Definition set_credentials c (u k h p : option str) := SocketConfig (type c) (print_pfx_updates c) (print_spki_updates c) (print_aspa_updates c)
  (bindaddr c) (host c) (port c) u k h p (force_password c) (force_key c).
Definition set_force c (p k : bool) := SocketConfig (type c) (print_pfx_updates c) (print_spki_updates c) (print_aspa_updates c)
  (bindaddr c) (host c) (port c) (ssh_username c) (ssh_private_key c) (ssh_host_key c) (ssh_password c) p k.

(** What the tool prints while it parses; the texts of the usage and of the templates are
    left out, and so are quotation marks and newlines. *)
Inductive notice := Usage | Templates (name : option str) | Message (text : string) (arg : option str).

(** The global variables.  [configs] is [socket_config], the last one first. *)
Record client := Client {
  activate_pfx_update_cb : bool;
  activate_spki_update_cb : bool;
  activate_aspa_update_cb : bool;
  print_all_pfx_updates : bool;
  print_all_spki_updates : bool;
  print_all_aspa_updates : bool;
  print_status_updates : bool;
  export_pfx : bool;
  export_file_path : option str;
  template_name : option str;
  configs : list socket_config;
  args : list str;
  printed : list notice }.
Implicit Types g : client.

Definition set_activate g (p k a : bool) := Client p k a (print_all_pfx_updates g) (print_all_spki_updates g) (print_all_aspa_updates g) (print_status_updates g)
  (export_pfx g) (export_file_path g) (template_name g) (configs g) (args g) (printed g).
Definition set_print_all g (p k a : bool) := Client (activate_pfx_update_cb g) (activate_spki_update_cb g) (activate_aspa_update_cb g) p k a
  (print_status_updates g) (export_pfx g) (export_file_path g) (template_name g) (configs g) (args g) (printed g).
Definition set_global g (s e : bool) (o t : option str) := Client (activate_pfx_update_cb g) (activate_spki_update_cb g) (activate_aspa_update_cb g)
  (print_all_pfx_updates g) (print_all_spki_updates g) (print_all_aspa_updates g) s e o t (configs g) (args g) (printed g).
Definition set_configs g (l : list socket_config) := Client (activate_pfx_update_cb g) (activate_spki_update_cb g) (activate_aspa_update_cb g)
  (print_all_pfx_updates g) (print_all_spki_updates g) (print_all_aspa_updates g) (print_status_updates g)
  (export_pfx g) (export_file_path g) (template_name g) l (args g) (printed g).
Definition set_args g (l : list str) := Client (activate_pfx_update_cb g) (activate_spki_update_cb g) (activate_aspa_update_cb g)
  (print_all_pfx_updates g) (print_all_spki_updates g) (print_all_aspa_updates g) (print_status_updates g)
  (export_pfx g) (export_file_path g) (template_name g) (configs g) l (printed g).
Definition print g (n : notice) := Client (activate_pfx_update_cb g) (activate_spki_update_cb g) (activate_aspa_update_cb g)
  (print_all_pfx_updates g) (print_all_spki_updates g) (print_all_aspa_updates g) (print_status_updates g)
  (export_pfx g) (export_file_path g) (template_name g) (configs g) (args g) (printed g ++ [n]).

(** The process ends, or the call returns; [None] is undefined behaviour. *)
Inductive outcome (A : Type) := Exits (code : Z) | Returns (x : A).
Arguments Exits {A} _.
Arguments Returns {A} _.
Definition Cli (A : Type) : Type := client → option (outcome A * client).

#[global] Instance Cli_ret : MRet Cli := λ A x g, Some (Returns x, g).
#[global] Instance Cli_bind : MBind Cli := λ A B f m g,
  match m g with Some (Returns x, g') => f x g' | Some (Exits code, g') => Some (Exits code, g') | None => None end.

Definition EXIT_SUCCESS : Z := 0.
Definition modify (f : client → client) : Cli unit := λ g, Some (Returns tt, f g).
Definition defined {A} (o : option A) : Cli A := λ g, match o with Some x => Some (Returns x, g) | None => None end.
Definition exit_with {A} (n : notice) (code : Z) : Cli A := λ g, Some (Exits code, print g n).
Definition print_error_exit {A} (text : string) (arg : option str) : Cli A := exit_with (Message text arg) EXIT_FAILURE.
Definition get {A} (f : client → A) : Cli A := λ g, Some (Returns (f g), g).

(** [current_config]: the last element of the array. *)
Definition current : Cli socket_config := λ g, match configs g with c :: _ => Some (Returns c, g) | [] => None end.
Definition set_current (f : socket_config → socket_config) : Cli unit := λ g,
  match configs g with c :: l => Some (Returns tt, set_configs g (f c :: l)) | [] => None end.

(** [argv[optind]], which is null at the end: to use it as a string is undefined. *)
Definition argument : Cli str := λ g, match args g with a :: _ => Some (Returns a, g) | [] => None end.
Definition next_argument : Cli str := λ g, match args g with a :: l => Some (Returns a, set_args g l) | [] => None end.

(** ** [getopt] *)

Inductive option_kind := NoSuchOption | Flag | WithArgument.

(** An option string without its plus sign, which says that options end with the first
    argument that is not one. *)
Fixpoint option_in (optstring : str) (c : Z) : option_kind :=
  match optstring with
  | [] => NoSuchOption
  | d :: rest =>
      if (d =? c) && negb (c =? colon) then match rest with e :: _ => if e =? colon then WithArgument else Flag | [] => Flag end else option_in rest c
  end.

Definition dash : Z := 45.

(** [Option c optarg]: the next option; [NoOption]: -1; [BadOption]: a question mark. *)
Inductive getopt_result := Option (c : Z) (optarg : option str) | NoOption | BadOption.

(** The option at the head of [nextchar], the rest of the first argument. *)
Definition getopt_char (optstring : str) (l : list str) (c : Z) (rest : str) : getopt_result * list str * str :=
  let skip := match rest with [] => tail l | _ => l end in
  match option_in optstring c with
  | NoSuchOption => (BadOption, skip, rest)
  | Flag => (Option c None, skip, rest)
  | WithArgument =>
      match rest, tail l with
      | _ :: _, l => (Option c (Some rest), l, [])
      | [], a :: l => (Option c (Some a), l, [])
      | [], [] => (BadOption, [], [])
      end
  end.
Definition getopt (optstring : str) (l : list str) (nextchar : str) : getopt_result * list str * str :=
  match nextchar with
  | c :: rest => getopt_char optstring l c rest
  | [] =>
      match l with
      | (d :: c :: rest) :: l' =>
          if d =? dash then
            if (c =? dash) && bool_decide (rest = []) then (NoOption, l', []) else getopt_char optstring l c rest
          else (NoOption, l, [])
      | _ => (NoOption, l, [])
      end
  end.

(** The number of calls that can return an option. *)
Definition getopt_fuel (l : list str) : nat := S (sum_list_with (λ a, S (length a)) l).

(** ** Options *)

Definition next_option (optstring : string) (nextchar : str) : Cli (getopt_result * str) := λ g,
  let '(r, l, nextchar) := getopt (codes optstring) (args g) nextchar in Some (Returns (r, nextchar), set_args g l).

(** The body of the [switch]; the result is [print_template]. *)
Definition global_opt (opt : getopt_result) (print_template : bool) : Cli bool :=
  match opt with
  | Option 107 _ =>
      modify (λ g, set_activate g (activate_pfx_update_cb g) true (activate_aspa_update_cb g));;
      modify (λ g, set_print_all g (print_all_pfx_updates g) true (print_all_aspa_updates g));;
      mret print_template
  | Option 112 _ =>
      modify (λ g, set_activate g true (activate_spki_update_cb g) (activate_aspa_update_cb g));;
      modify (λ g, set_print_all g true (print_all_spki_updates g) (print_all_aspa_updates g));;
      mret print_template
  | Option 97 _ =>
      modify (λ g, set_activate g (activate_pfx_update_cb g) (activate_spki_update_cb g) true);;
      modify (λ g, set_print_all g (print_all_pfx_updates g) (print_all_spki_updates g) true);;
      mret print_template
  | Option 101 _ =>
      modify (λ g, set_global g (print_status_updates g) true (export_file_path g) (template_name g));;
      mret print_template
  | Option 111 optarg =>
      o ← get export_file_path;
      if bool_decide (is_Some o) then print_error_exit "output file can not be specified more than once" None
      else
        modify (λ g, set_global g (print_status_updates g) (export_pfx g) optarg (template_name g));;
        mret print_template
  | Option 116 optarg =>
      modify (λ g, set_global g (print_status_updates g) (export_pfx g) (export_file_path g) optarg);;
      mret print_template
  | Option 108 _ => mret true
  | Option 115 _ =>
      modify (λ g, set_global g true (export_pfx g) (export_file_path g) (template_name g));;
      mret print_template
  | Option 104 _ => exit_with Usage EXIT_SUCCESS
  | _ => exit_with Usage EXIT_FAILURE
  end.

Fixpoint global_opts_loop (fuel : nat) (nextchar : str) (print_template : bool) : Cli bool :=
  match fuel with
  | O => defined None
  | S fuel =>
      '(opt, nextchar) ← next_option "kpahelo:t:s" nextchar;
      match opt with
      | NoOption => mret print_template
      | _ => p ← global_opt opt print_template; global_opts_loop fuel nextchar p
      end
  end.

Definition parse_global_opts : Cli unit :=
  l ← get args;
  print_template ← global_opts_loop (getopt_fuel l) [] false;
  if (print_template : bool) then t ← get template_name; exit_with (Templates t) EXIT_SUCCESS
  else
    bad ← get (λ g, (bool_decide (is_Some (export_file_path g)) || bool_decide (is_Some (template_name g))) && negb (export_pfx g));
    if (bad : bool) then print_error_exit "Specifying -o or -t without -e does not make sense" None else mret tt.

Definition socket_opt (opt : getopt_result) : Cli unit :=
  match opt with
  | Option 107 _ =>
      modify (λ g, set_activate g (activate_pfx_update_cb g) true (activate_aspa_update_cb g));;
      set_current (λ c, set_prints c (print_pfx_updates c) true (print_aspa_updates c))
  | Option 112 _ =>
      modify (λ g, set_activate g true (activate_spki_update_cb g) (activate_aspa_update_cb g));;
      set_current (λ c, set_prints c true (print_spki_updates c) (print_aspa_updates c))
  | Option 97 _ =>
      modify (λ g, set_activate g (activate_pfx_update_cb g) (activate_spki_update_cb g) true);;
      set_current (λ c, set_prints c (print_pfx_updates c) (print_spki_updates c) true)
  | Option 98 optarg => set_current (λ c, set_addresses c optarg (host c) (port c))
  | Option 119 _ =>
      c ← current;
      if force_key c then print_error_exit "-w and -r are mutually exclusive" None
      else set_current (λ c, set_force c true (force_key c))
  | Option 114 _ =>
      c ← current;
      if force_password c then print_error_exit "-w and -r are mutually exclusive" None
      else set_current (λ c, set_force c (force_password c) true)
  | _ => exit_with Usage EXIT_FAILURE
  end.

Fixpoint socket_opts_loop (fuel : nat) (nextchar : str) : Cli unit :=
  match fuel with
  | O => defined None
  | S fuel =>
      '(opt, nextchar) ← next_option "kpahwrb:" nextchar;
      match opt with
      | NoOption => mret tt
      | _ => socket_opt opt;; socket_opts_loop fuel nextchar
      end
  end.

Definition parse_socket_opts : Cli unit := l ← get args; socket_opts_loop (getopt_fuel l) [].

(** ** The command line *)

Inductive cli_parse_state :=
  | CLI_PARSE_STATE_BEGIN
  | CLI_PARSE_STATE_GLOBAL_OPTS
  | CLI_PARSE_STATE_SOCKET_BEGIN
  | CLI_PARSE_STATE_SOCKET_TCP_OPTIONS
  | CLI_PARSE_STATE_SOCKET_TCP_HOST
  | CLI_PARSE_STATE_SOCKET_TCP_PORT
  | CLI_PARSE_STATE_SOCKET_SSH_OPTIONS
  | CLI_PARSE_STATE_SOCKET_SSH_HOST
  | CLI_PARSE_STATE_SOCKET_SSH_PORT
  | CLI_PARSE_STATE_SOCKET_SSH_USERNAME
  | CLI_PARSE_STATE_SOCKET_SSH_PRIVATE_KEY_PASSWORD
  | CLI_PARSE_STATE_SOCKET_SSH_HOST_KEY
  | CLI_PARSE_STATE_END.
#[global] Instance cli_parse_state_eq_dec : EqDecision cli_parse_state.
Proof. solve_decision. Defined.

(** What the system knows: whether a name has addresses, whether a file can be read, and
    whether it exists and is a regular file. *)
Class System := { getaddrinfo_ok : str → bool; access_ok : str → bool; is_regular : str → option bool }.

Section Parse.
Context `{System}.

Definition is_resolveable_host (a : str) : bool := getaddrinfo_ok a.
Definition is_file (a : str) : bool := match is_regular a with None => false | Some r => r end.
Definition is_readable_file (a : str) : bool := if negb (access_ok a) then false else is_file a.

(** Without memory the tool ends here, which is left out. *)
Definition extend_socket_config : Cli unit := modify (λ g, set_configs g (no_config :: configs g)).

(** Fewer than [n] arguments are left. *)
Definition fewer_than (n : nat) : Cli bool := get (λ g, (length (args g) <? n)%nat).

Definition socket_begin : Cli cli_parse_state :=
  extend_socket_config;;
  a ← argument;
  state ←
    (if is_word_prefix a "tcp" then
       set_current (λ c, set_type c SOCKET_TYPE_TCP);;
       few ← fewer_than 2;
       if (few : bool) then print_error_exit "Not enough arguments for tcp socket" None else mret CLI_PARSE_STATE_SOCKET_TCP_OPTIONS
     else if is_word_prefix a "ssh" then
       set_current (λ c, set_type c SOCKET_TYPE_SSH);;
       few ← fewer_than 4;
       if (few : bool) then print_error_exit "Not enough arguments for ssh socket" None else mret CLI_PARSE_STATE_SOCKET_SSH_OPTIONS
     else print_error_exit "%s is not a valid socket type" (Some a));
  next_argument;;
  mret state.

Definition socket_options (n : nat) (text : string) (state : cli_parse_state) : Cli cli_parse_state :=
  parse_socket_opts;;
  few ← fewer_than n;
  if (few : bool) then print_error_exit text None else mret state.

Definition socket_host (state : cli_parse_state) : Cli cli_parse_state :=
  a ← argument;
  if negb (is_resolveable_host a) then print_error_exit "cannot resolve %s" (Some a)
  else
    a ← next_argument;
    set_current (λ c, set_addresses c (bindaddr c) (Some a) (port c));;
    mret state.

Definition socket_port (state : cli_parse_state) : Cli cli_parse_state :=
  a ← argument;
  ok ← defined (is_valid_port_number a);
  if negb ok then print_error_exit "%s is not a valid port number" (Some a)
  else
    a ← next_argument;
    set_current (λ c, set_addresses c (bindaddr c) (host c) (Some a));;
    mret state.

Definition socket_key_or_password : Cli cli_parse_state :=
  a ← argument;
  c ← current;
  u ← defined (is_utf8 a);
  (if force_key c && negb (is_readable_file a) then print_error_exit "%s is not a readable file" (Some a)
   else if negb (force_password c) && negb (force_key c) && is_readable_file a then
     set_current (λ c, set_credentials c (ssh_username c) (Some a) (ssh_host_key c) (ssh_password c))
   else if negb (force_password c) && u then
     modify (λ g, print g (Message "%s does not seem to be a file. Trying password authentication." (Some a)));;
     modify (λ g, print g (Message "Use -r to force key authentication or -w to silence this warning" None));;
     set_current (λ c, set_credentials c (ssh_username c) (ssh_private_key c) (ssh_host_key c) (Some a))
   else if force_password c && negb u then print_error_exit "%s is not a valid utf8 string" (Some a)
   else if force_password c && negb (force_key c) && u then
     set_current (λ c, set_credentials c (ssh_username c) (ssh_private_key c) (ssh_host_key c) (Some a))
   else print_error_exit "%s is neither a readable file nor a valid utf8 string" (Some a));;
  next_argument;;
  mret CLI_PARSE_STATE_SOCKET_SSH_HOST_KEY.

Definition socket_host_key : Cli cli_parse_state :=
  a ← argument;
  if is_word_prefix a "tcp" || is_word_prefix a "ssh" then mret CLI_PARSE_STATE_SOCKET_BEGIN
  else if negb (is_readable_file a) then print_error_exit "%s is not a readable file" (Some a)
  else
    a ← next_argument;
    set_current (λ c, set_credentials c (ssh_username c) (ssh_private_key c) (Some a) (ssh_password c));;
    mret CLI_PARSE_STATE_SOCKET_BEGIN.

(** The body of the [switch]; in the first state [optind] is set to 1, as it is in [parse_cli]. *)
Definition cli_case (state : cli_parse_state) : Cli cli_parse_state :=
  match state with
  | CLI_PARSE_STATE_BEGIN => mret CLI_PARSE_STATE_GLOBAL_OPTS
  | CLI_PARSE_STATE_GLOBAL_OPTS => parse_global_opts;; mret CLI_PARSE_STATE_SOCKET_BEGIN
  | CLI_PARSE_STATE_SOCKET_BEGIN => socket_begin
  | CLI_PARSE_STATE_SOCKET_TCP_OPTIONS => socket_options 2 "Not enough arguments for tcp socket" CLI_PARSE_STATE_SOCKET_TCP_HOST
  | CLI_PARSE_STATE_SOCKET_TCP_HOST => socket_host CLI_PARSE_STATE_SOCKET_TCP_PORT
  | CLI_PARSE_STATE_SOCKET_TCP_PORT => socket_port CLI_PARSE_STATE_SOCKET_BEGIN
  | CLI_PARSE_STATE_SOCKET_SSH_OPTIONS => socket_options 4 "Not enough arguments for ssh socket" CLI_PARSE_STATE_SOCKET_SSH_HOST
  | CLI_PARSE_STATE_SOCKET_SSH_HOST => socket_host CLI_PARSE_STATE_SOCKET_SSH_PORT
  | CLI_PARSE_STATE_SOCKET_SSH_PORT => socket_port CLI_PARSE_STATE_SOCKET_SSH_USERNAME
  | CLI_PARSE_STATE_SOCKET_SSH_USERNAME =>
      a ← next_argument;
      set_current (λ c, set_credentials c (Some a) (ssh_private_key c) (ssh_host_key c) (ssh_password c));;
      mret CLI_PARSE_STATE_SOCKET_SSH_PRIVATE_KEY_PASSWORD
  | CLI_PARSE_STATE_SOCKET_SSH_PRIVATE_KEY_PASSWORD => socket_key_or_password
  | CLI_PARSE_STATE_SOCKET_SSH_HOST_KEY => socket_host_key
  | CLI_PARSE_STATE_END => mret CLI_PARSE_STATE_END
  end.

Fixpoint cli_loop (fuel : nat) (state : cli_parse_state) : Cli unit :=
  match fuel with
  | O => defined None
  | S fuel =>
      match state with
      | CLI_PARSE_STATE_END => mret tt
      | _ =>
          state ← cli_case state;
          over ← fewer_than 1;
          cli_loop fuel (if (over : bool) then CLI_PARSE_STATE_END else state)
      end
  end.

(** [argv] without the name of the program: [optind] is 1.  An argument is looked at in four
    states at most. *)
Definition cli_fuel (argv : list str) : nat := 4 * length argv + 6.
Definition parse_cli (argv : list str) : Cli unit :=
  modify (λ g, set_args g argv);;
  cli_loop (cli_fuel argv) CLI_PARSE_STATE_BEGIN.

Definition initial_client : client := Client false false false false false false false false None None [] [] [].

End Parse.

(** ** The transports *)

Definition text (a : str) : string := String.string_of_list_ascii ((λ x, Ascii.ascii_of_N (Z.to_N x)) <$> a).

Definition tcp_config_of c : rtr_tr_tcp_config := TcpConfig (text <$> host c) (text <$> port c) (text <$> bindaddr c) false 0.

(** [atoi] is used on a port that was checked. *)
Definition ssh_config_of c : option rtr_tr_ssh_config :=
  p ← port c;
  n ← atoi p;
  Some (SshConfig (text <$> host c) n (text <$> bindaddr c) (text <$> ssh_username c) (text <$> ssh_host_key c) (text <$> ssh_private_key c) false 0 (text <$> ssh_password c)).

(** The results, which the code does not look at. *)
Definition client_init_socket c : Os Z :=
  match type c with
  | SOCKET_TYPE_TCP => '(rv, _) ← rtr_tr_tcp_init (tcp_config_of c); mret rv
  | SOCKET_TYPE_SSH => config ← require (ssh_config_of c); '(rv, _) ← rtr_tr_ssh_init config; mret rv
  end.
Fixpoint client_init_sockets (l : list socket_config) : Os (list Z) :=
  match l with
  | [] => mret []
  | c :: l => rv ← client_init_socket c; rvs ← client_init_sockets l; mret (rv :: rvs)
  end.
