(* ===== verification/ClientTheorems.v ===== *)
(** * The tool [rtrclient]: the command line, and what is known after it was parsed *)

From stdpp Require Import strings.
From S2P Require Import Prelude IpText IpTextTheorems Rov Sys Tcp Ssh Client.
Open Scope Z_scope.

(** ** UTF-8 *)

(** The form of the bytes: a first byte that says how many follow. *)
Definition leads (mask prefix b : Z) : Prop := Z.land b mask = prefix.
Definition follows (b : Z) : Prop := Z.land b UTF8_SUBSEQUENT_BYTE_MASK = UTF8_SUBSEQUENT_BYTE_PREFIX.

Inductive utf8 : str → Prop :=
  | utf8_nil : utf8 []
  | utf8_one b a : leads UTF8_ONE_BYTE_MASK UTF8_ONE_BYTE_PREFIX b → utf8 a → utf8 (b :: a)
  | utf8_two b b1 a : leads UTF8_TWO_BYTE_MASK UTF8_TWO_BYTE_PREFIX b → follows b1 → utf8 a → utf8 (b :: b1 :: a)
  | utf8_three b b1 b2 a : leads UTF8_THREE_BYTE_MASK UTF8_THREE_BYTE_PREFIX b → follows b1 → follows b2 → utf8 a → utf8 (b :: b1 :: b2 :: a)
  | utf8_four b b1 b2 b3 a : leads UTF8_FOUR_BYTE_MASK UTF8_FOUR_BYTE_PREFIX b → follows b1 → follows b2 → follows b3 → utf8 a →
      utf8 (b :: b1 :: b2 :: b3 :: a).

(** The masks of two kinds of first bytes exclude each other. *)
Lemma leads_disjoint m p m' p' b : leads m p b → leads m' p' b → Z.land p m' = Z.land p' m.
Proof. unfold leads. intros <- <-. by rewrite <- !Z.land_assoc, (Z.land_comm m m'). Qed.

Lemma char_at_drop a i j : char_at (drop i a) j = char_at a (i + j).
Proof. unfold char_at. by rewrite lookup_drop. Qed.

Lemma byte_is_leads m p a i : byte_is m p a i = true ↔ leads m p (char_at a i).
Proof. unfold byte_is, leads. apply Z.eqb_eq. Qed.

Definition first_byte (n : nat) (b : Z) : Prop :=
  match n with
  | 1%nat => leads UTF8_ONE_BYTE_MASK UTF8_ONE_BYTE_PREFIX b
  | 2%nat => leads UTF8_TWO_BYTE_MASK UTF8_TWO_BYTE_PREFIX b
  | 3%nat => leads UTF8_THREE_BYTE_MASK UTF8_THREE_BYTE_PREFIX b
  | 4%nat => leads UTF8_FOUR_BYTE_MASK UTF8_FOUR_BYTE_PREFIX b
  | _ => False
  end.

(** A character of [n] bytes, at the head. *)
Definition char_of (n : nat) (a : str) : Prop :=
  (n <= length a)%nat ∧ first_byte n (char_at a 0) ∧ ∀ k, (1 <= k < n)%nat → follows (char_at a k).

Lemma first_byte_unique n m b : first_byte n b → first_byte m b → n = m.
Proof.
  destruct n as [|[|[|[|[|n]]]]], m as [|[|[|[|[|m]]]]]; try done; intros Hn Hm; pose proof (leads_disjoint _ _ _ _ _ Hn Hm); done.
Qed.

Lemma utf8_char a : utf8 a ↔ a = [] ∨ ∃ n, char_of n a ∧ utf8 (drop n a).
Proof.
  split.
  - assert (∀ (P : nat → Prop) n, (∀ k, (k < n)%nat → P k) → ∀ k, (1 <= k < n)%nat → P k) as Hk by (intros P n HP k ?; apply HP; lia).
    intros Hu. inversion Hu; subst; [by left|right..].
    + exists 1%nat. split; [|done]. split; [simpl; lia|]. split; [done|]. lia.
    + exists 2%nat. split; [|done]. split; [simpl; lia|]. split; [done|]. intros k Hk2. by replace k with 1%nat by lia.
    + exists 3%nat. split; [|done]. split; [simpl; lia|]. split; [done|]. intros k Hk3. by destruct (decide (k = 1%nat)) as [->|]; [|replace k with 2%nat by lia].
    + exists 4%nat. split; [|done]. split; [simpl; lia|]. split; [done|]. intros k Hk4.
      destruct (decide (k = 1%nat)) as [->|]; [done|]. by destruct (decide (k = 2%nat)) as [->|]; [|replace k with 3%nat by lia].
  - intros [->|(n & (Hlen & Hf & Hk) & Hu)]; [constructor|].
    destruct n as [|[|[|[|[|n]]]]]; [done|..|done]; destruct a as [|b a]; simpl in Hlen; try lia; [by constructor|..];
      destruct a as [|b1 a]; simpl in Hlen; try lia; [apply utf8_two; [done|by apply (Hk 1%nat); lia|done]|..];
      destruct a as [|b2 a]; simpl in Hlen; try lia; [apply utf8_three; [done|by apply (Hk 1%nat); lia|by apply (Hk 2%nat); lia|done]|..].
    destruct a as [|b3 a]; simpl in Hlen; try lia. apply utf8_four; [done|by apply (Hk 1%nat); lia|by apply (Hk 2%nat); lia|by apply (Hk 3%nat); lia|done].
Qed.

(** One test of the loop. *)
Lemma char_test n m p a i : (1 <= n <= 4)%nat → (i < length a)%nat → (∀ b, first_byte n b ↔ leads m p b) →
  char_of n (drop i a) ↔ byte_is m p a i = true ∧ (i + (n - 1) < length a)%nat ∧ ∀ k, (1 <= k < n)%nat → subsequent a (i + k) = true.
Proof.
  intros Hn Hi Hm. unfold char_of. rewrite Hm, byte_is_leads, length_drop, char_at_drop, Nat.add_0_r.
  assert ((∀ k, (1 <= k < n)%nat → follows (char_at (drop i a) k)) ↔ ∀ k, (1 <= k < n)%nat → subsequent a (i + k) = true) as ->.
  { split; intros Hk k Hk1; specialize (Hk k Hk1); revert Hk; rewrite ?char_at_drop; apply byte_is_leads. }
  intuition lia.
Qed.

Ltac test E := match goal with |- ∃ _, (if ?b then _ else _) = _ ∧ _ => destruct b eqn:E end.

Lemma utf8_loop_spec fuel a i : (i <= length a)%nat → (length a - i < fuel)%nat → ∃ r, utf8_loop fuel a i = Some r ∧ (r = true ↔ utf8 (drop i a)).
Proof.
  revert i. induction fuel as [|fuel IH]; intros i Hi Hf; [lia|]. cbn [utf8_loop]. destruct (Nat.ltb_spec i (length a)) as [Hlt|Hge].
  2:{ exists true. split; [done|]. rewrite drop_ge by lia. split; [constructor|done]. }
  assert (drop i a ≠ []) as Hne by (intros He; apply (f_equal length) in He; rewrite length_drop in He; simpl in He; lia).
  assert (∀ n, char_of n (drop i a) → (i + n <= length a)%nat → (1 <= n)%nat →
    ∃ r, utf8_loop fuel a (i + n) = Some r ∧ (r = true ↔ utf8 (drop i a))) as Hstep.
  { intros n Hc Hn H1. destruct (IH (i + n)%nat) as (r & Hr & Hu); [lia..|]. exists r. split; [done|]. rewrite Hu, (utf8_char (drop i a)). split.
    - intros Hd. right. exists n. by rewrite drop_drop.
    - intros [?|(n' & Hc' & Hu')]; [done|]. rewrite drop_drop in Hu'. destruct Hc as (_ & Hf1 & _), Hc' as (_ & Hf2 & _). by rewrite (first_byte_unique _ _ _ Hf1 Hf2). }
  pose proof (char_test 1 _ _ a i ltac:(lia) Hlt (λ b, iff_refl _)) as T1. pose proof (char_test 2 _ _ a i ltac:(lia) Hlt (λ b, iff_refl _)) as T2.
  pose proof (char_test 3 _ _ a i ltac:(lia) Hlt (λ b, iff_refl _)) as T3. pose proof (char_test 4 _ _ a i ltac:(lia) Hlt (λ b, iff_refl _)) as T4.
  assert (∀ (P : nat → Prop), (∀ k, (1 <= k < 1)%nat → P k) ↔ True) as K1 by (intros P; split; [done|lia]).
  assert (∀ (P : nat → Prop), (∀ k, (1 <= k < 2)%nat → P k) ↔ P 1%nat) as K2.
  { intros P. split; [intros HP; apply HP; lia|]. intros HP k ?. by replace k with 1%nat by lia. }
  assert (∀ (P : nat → Prop), (∀ k, (1 <= k < 3)%nat → P k) ↔ P 1%nat ∧ P 2%nat) as K3.
  { intros P. split; [intros HP; split; apply HP; lia|]. intros [? ?] k ?. by destruct (decide (k = 1%nat)) as [->|]; [|replace k with 2%nat by lia]. }
  assert (∀ (P : nat → Prop), (∀ k, (1 <= k < 4)%nat → P k) ↔ P 1%nat ∧ P 2%nat ∧ P 3%nat) as K4.
  { intros P. split; [intros HP; split_and!; apply HP; lia|]. intros (? & ? & ?) k ?.
    destruct (decide (k = 1%nat)) as [->|]; [done|]. by destruct (decide (k = 2%nat)) as [->|]; [|replace k with 3%nat by lia]. }
  rewrite K1 in T1. rewrite K2 in T2. rewrite K3 in T3. rewrite K4 in T4. simpl Nat.sub in *.
  destruct (byte_is UTF8_ONE_BYTE_MASK _ a i) eqn:E1; [apply Hstep; [apply T1; split_and!; (done || lia)|lia..]|].
  test E2; [|test E3; [|test E4]].
  - rewrite !andb_true_iff, Nat.ltb_lt in E2. destruct E2 as [[? ?] ?]. apply Hstep; [by apply T2|lia..].
  - rewrite !andb_true_iff, Nat.ltb_lt in E3. destruct E3 as [[[? ?] ?] ?]. apply Hstep; [by apply T3|lia..].
  - rewrite !andb_true_iff, Nat.ltb_lt in E4. destruct E4 as [[[[? ?] ?] ?] ?]. apply Hstep; [by apply T4|lia..].
  - exists false. split; [done|]. split; [done|]. intros Hu%utf8_char. exfalso. destruct Hu as [?|(n & Hc & _)]; [done|].
    assert (n = 1 ∨ n = 2 ∨ n = 3 ∨ n = 4)%nat as [->|[->|[->| ->]]].
    { destruct Hc as (_ & Hf1 & _). destruct n as [|[|[|[|[|n]]]]]; simpl in Hf1; tauto. }
    + apply T1 in Hc. by destruct Hc.
    + apply T2 in Hc as (H1 & H2 & H3). rewrite H1, H3, (proj2 (Nat.ltb_lt _ _) H2) in E2. done.
    + apply T3 in Hc as (H1 & H2 & H3 & H4). rewrite H1, H3, H4, (proj2 (Nat.ltb_lt _ _) H2) in E3. done.
    + apply T4 in Hc as (H1 & H2 & H3 & H4 & H5). rewrite H1, H3, H4, H5, (proj2 (Nat.ltb_lt _ _) H2) in E4. done.
Qed.

Lemma is_utf8_spec a : ∃ r, is_utf8 a = Some r ∧ (r = true ↔ utf8 a).
Proof. apply (utf8_loop_spec (S (length a)) a 0); lia. Qed.

(** ** Runs *)

(** The call is defined and ends; if it returns, the postcondition holds. *)
Definition runs {A} (m : Cli A) (Q : A → client → Prop) (g : client) : Prop :=
  ∃ o g', m g = Some (o, g') ∧ match o with Returns x => Q x g' | Exits _ => True end.

Lemma runs_bind {A B} (m : Cli A) (f : A → Cli B) Q g : runs m (λ x g', runs (f x) Q g') g → runs (m ≫= f) Q g.
Proof.
  intros ([code|x] & g' & Hm & Hx).
  - exists (Exits code), g'. split; [|done]. unfold mbind, Cli_bind. by rewrite Hm.
  - destruct Hx as (o & g'' & Hf & HQ). exists o, g''. split; [|done]. unfold mbind, Cli_bind. by rewrite Hm.
Qed.
Lemma runs_ret {A} (x : A) (Q : A → client → Prop) g : Q x g → runs (mret x) Q g.
Proof. intros. by exists (Returns x), g. Qed.
Lemma runs_mono {A} (m : Cli A) (Q R : A → client → Prop) g : runs m Q g → (∀ x g', Q x g' → R x g') → runs m R g.
Proof. intros (o & g' & Hm & Ho) HR. exists o, g'. split; [done|]. destruct o; auto. Qed.
Lemma runs_exit {A} n code (Q : A → client → Prop) g : runs (exit_with n code) Q g.
Proof. by eexists (Exits code), _. Qed.
Lemma runs_modify f (Q : unit → client → Prop) g : Q tt (f g) → runs (modify f) Q g.
Proof. intros. by eexists (Returns tt), _. Qed.
Lemma runs_get {A} (f : client → A) (Q : A → client → Prop) g : Q (f g) g → runs (get f) Q g.
Proof. intros. by eexists (Returns _), _. Qed.
Lemma runs_defined {A} (o : option A) x (Q : A → client → Prop) g : o = Some x → Q x g → runs (defined o) Q g.
Proof. intros -> ?. by eexists (Returns _), _. Qed.
Lemma runs_current c l (Q : socket_config → client → Prop) g : configs g = c :: l → Q c g → runs current Q g.
Proof. intros Hc HQ. exists (Returns c), g. unfold current. by rewrite Hc. Qed.
Lemma runs_set_current f c l (Q : unit → client → Prop) g : configs g = c :: l → Q tt (set_configs g (f c :: l)) → runs (set_current f) Q g.
Proof. intros Hc HQ. eexists (Returns tt), _. unfold set_current. by rewrite Hc. Qed.
Lemma runs_argument a l (Q : str → client → Prop) g : args g = a :: l → Q a g → runs argument Q g.
Proof. intros Ha HQ. exists (Returns a), g. unfold argument. by rewrite Ha. Qed.
Lemma runs_next a l (Q : str → client → Prop) g : args g = a :: l → Q a (set_args g l) → runs next_argument Q g.
Proof. intros Ha HQ. eexists (Returns a), _. unfold next_argument. by rewrite Ha. Qed.

Ltac cli_step :=
  lazymatch goal with
  | |- runs (match (_, _) with pair _ _ => _ end) _ _ => cbv beta iota; cli_step
  | |- runs (_ ≫= _) _ _ => apply runs_bind
  | |- runs (mret _) _ _ => apply runs_ret; cbv beta
  | |- runs (exit_with _ _) _ _ => apply runs_exit
  | |- runs (print_error_exit _ _) _ _ => apply runs_exit
  | |- runs (modify _) _ _ => apply runs_modify; cbv beta
  | |- runs (get _) _ _ => apply runs_get; cbv beta
  | |- runs (fewer_than _) _ _ => apply runs_get; cbv beta
  | |- runs current _ _ => eapply runs_current; [done|]; cbv beta
  | |- runs (set_current _) _ _ => eapply runs_set_current; [done|]; cbv beta
  | |- runs argument _ _ => eapply runs_argument; [done|]; cbv beta
  | |- runs next_argument _ _ => eapply runs_next; [done|]; cbv beta
  end.

(** ** Options *)

(** What [getopt] still has to look at; a rest of an argument belongs to the first one. *)
Definition to_read (l : list str) (nextchar : str) : nat :=
  match nextchar with [] => sum_list_with (λ a, S (length a)) l | _ => length nextchar + sum_list_with (λ a, S (length a)) (tail l) end.
Definition reading (l : list str) (nextchar : str) : Prop := nextchar = [] ∨ l ≠ [].

Lemma getopt_char_spec opts l c rest r l' next : l ≠ [] → getopt_char opts l c rest = (r, l', next) →
  (∃ k, l' = drop k l) ∧ r ≠ NoOption ∧ reading l' next ∧ (to_read l' next <= length rest + sum_list_with (λ a, S (length a)) (tail l))%nat.
Proof.
  intros Hl. destruct l as [|a l]; [done|]. unfold getopt_char. cbn [tail].
  destruct (option_in opts c), rest as [|d rest]; try (intros [= <- <- <-]).
  all: try (split; [by exists 1%nat|]; split; [done|]; split; [by left|]; simpl; lia).
  all: try (split; [by exists 0%nat|]; split; [done|]; split; [by right|]; simpl; lia).
  destruct l as [|b l]; intros [= <- <- <-]; (split; [by exists 2%nat|]); (split; [done|]); (split; [by left|]); simpl; lia.
Qed.

(** A call takes a part of what there is to read, or ends at an argument that is no option. *)
Lemma getopt_spec opts l nextchar r l' next : reading l nextchar → getopt opts l nextchar = (r, l', next) →
  (∃ k, l' = drop k l) ∧ reading l' next ∧ (r ≠ NoOption → (to_read l' next < to_read l nextchar)%nat).
Proof.
  intros Hr. unfold getopt. destruct nextchar as [|c rest].
  - destruct l as [|[|d [|c rest]] l]; try (intros [= <- <- <-]; split; [by exists 0%nat|]; split; [by left|done]).
    destruct (d =? dash); [|intros [= <- <- <-]; split; [by exists 0%nat|]; split; [by left|done]].
    destruct (_ && _); [intros [= <- <- <-]; split; [by exists 1%nat|]; split; [by left|done]|].
    intros Hg. apply getopt_char_spec in Hg as (Hk & Hn & Hr' & Hle); [|done]. split; [done|]. split; [done|]. intros _. simpl in *. lia.
  - intros Hg. destruct Hr as [?|Hl]; [done|]. apply getopt_char_spec in Hg as (Hk & Hn & Hr' & Hle); [|done]. split; [done|]. split; [done|]. intros _. simpl in *. lia.
Qed.

(** What holds of the arguments holds of those that are left. *)
Definition some_left (l l' : list str) : Prop := ∃ k, l' = drop k l.
#[global] Instance some_left_preorder : PreOrder some_left.
Proof.
  split; [intros l; by exists 0%nat|]. intros l1 l2 l3 [k ->] [k' ->]. exists (k + k')%nat. by rewrite drop_drop.
Qed.
Lemma some_left_length l l' : some_left l l' → (length l' <= length l)%nat.
Proof. intros [k ->]. rewrite length_drop. lia. Qed.
Lemma some_left_forall (P : str → Prop) l l' : some_left l l' → Forall P l → Forall P l'.
Proof. intros [k ->]. apply Forall_drop. Qed.

Lemma next_option_spec opts nextchar g (Q : getopt_result * str → client → Prop) :
  reading (args g) nextchar →
  (∀ r next l', some_left (args g) l' → reading l' next → (r ≠ NoOption → (to_read l' next < to_read (args g) nextchar)%nat) → Q (r, next) (set_args g l')) →
  runs (next_option opts nextchar) Q g.
Proof.
  intros Hr HQ. unfold next_option. destruct (getopt (codes opts) (args g) nextchar) as [[r l'] next] eqn:Hg.
  pose proof (getopt_spec _ _ _ _ _ _ Hr Hg) as (Hk & Hr' & Hlt). eexists (Returns _), _. rewrite Hg. split; [done|]. by apply HQ.
Qed.

(** The callbacks that are activated are those that something is printed for. *)
Definition acts (g : client) : Prop :=
  activate_pfx_update_cb g = print_all_pfx_updates g || existsb print_pfx_updates (configs g) ∧
  activate_spki_update_cb g = print_all_spki_updates g || existsb print_spki_updates (configs g) ∧
  activate_aspa_update_cb g = print_all_aspa_updates g || existsb print_aspa_updates (configs g).

Ltac match_option := repeat lazymatch goal with |- runs (match ?x with _ => _ end) _ _ => is_var x; destruct x end.

Lemma global_opt_spec opt p g : acts g → runs (global_opt opt p) (λ _ g', acts g' ∧ configs g' = configs g ∧ args g' = args g) g.
Proof.
  intros (Ha & Hb & Hc). unfold global_opt. match_option; try cli_step.
  all: try (repeat cli_step; unfold acts; simpl; rewrite ?orb_true_r; by split_and!).
  cli_step. destruct (bool_decide _); repeat cli_step. unfold acts. simpl. by split_and!.
Qed.

Lemma global_opts_loop_spec fuel nextchar p g : acts g → reading (args g) nextchar → (to_read (args g) nextchar < fuel)%nat →
  runs (global_opts_loop fuel nextchar p) (λ _ g', acts g' ∧ configs g' = configs g ∧ some_left (args g) (args g')) g.
Proof.
  revert nextchar p g. induction fuel as [|fuel IH]; intros nextchar p g Ha Hr Hf; [lia|]. cbn [global_opts_loop]. cli_step.
  apply next_option_spec; [done|]. intros r next l' Hl Hr' Hlt. cbv beta iota.
  assert (r ≠ NoOption → runs (p0 ← global_opt r p; global_opts_loop fuel next p0)
    (λ _ g', acts g' ∧ configs g' = configs g ∧ some_left (args g) (args g')) (set_args g l')) as Hgo.
  { intros Hne. cli_step. eapply runs_mono; [by apply global_opt_spec|]. intros p' g1 (H1 & H2 & H3). simpl in H2, H3.
    eapply runs_mono; [apply IH; [done|by rewrite H3|rewrite H3; specialize (Hlt Hne); lia]|]. intros _ g2 (H4 & H5 & H6). rewrite H3 in H6.
    split; [done|]. split; [by rewrite H5|]. by etrans. }
  destruct r; [by apply Hgo|by cli_step|by apply Hgo].
Qed.

Lemma parse_global_opts_spec g : acts g → runs parse_global_opts (λ _ g', acts g' ∧ configs g' = configs g ∧ some_left (args g) (args g')) g.
Proof.
  intros Ha. unfold parse_global_opts. cli_step. cli_step. cli_step.
  eapply runs_mono; [apply global_opts_loop_spec; [done|by left|unfold getopt_fuel; simpl; lia]|]. intros p g1 H1. destruct p; [repeat cli_step|].
  cli_step. cli_step. destruct (_ && _); by repeat cli_step.
Qed.

(** What the options of a socket can change of its configuration. *)
Definition same_socket c c' : Prop :=
  type c' = type c ∧ host c' = host c ∧ port c' = port c ∧ ssh_username c' = ssh_username c ∧ ssh_private_key c' = ssh_private_key c ∧
  ssh_host_key c' = ssh_host_key c ∧ ssh_password c' = ssh_password c.
#[global] Instance same_socket_preorder : PreOrder same_socket.
Proof. split; [done|]. intros c1 c2 c3. unfold same_socket. intros (? & ? & ? & ? & ? & ? & ?) (? & ? & ? & ? & ? & ? & ?). split_and!; congruence. Qed.

(** The options do not ask for a password and for a key. *)
Definition exclusive c : Prop := force_password c && force_key c = false.

Lemma socket_opt_spec opt c l g : acts g → configs g = c :: l → exclusive c →
  runs (socket_opt opt) (λ _ g', acts g' ∧ args g' = args g ∧ ∃ c', configs g' = c' :: l ∧ same_socket c c' ∧ exclusive c') g.
Proof.
  unfold acts, exclusive. intros (Ha & Hb & Hd) Hc Hx. rewrite Hc in *. simpl in Ha, Hb, Hd. unfold socket_opt. match_option; try cli_step.
  all: try (repeat cli_step; unfold acts; simpl; rewrite ?orb_true_r, ?orb_true_l; (split; [by rewrite ?orb_true_r|]); (split; [done|]); eexists; by split_and!).
  all: cli_step; (lazymatch goal with |- runs (if ?b then _ else _) _ _ => destruct b eqn:Hb' end); repeat cli_step; simpl;
    (split; [done|]); (split; [done|]); eexists; split_and!; try done; simpl; by rewrite Hb', ?andb_false_r.
Qed.

Lemma socket_opts_loop_spec fuel nextchar c l g : acts g → configs g = c :: l → exclusive c → reading (args g) nextchar → (to_read (args g) nextchar < fuel)%nat →
  runs (socket_opts_loop fuel nextchar) (λ _ g', acts g' ∧ some_left (args g) (args g') ∧ ∃ c', configs g' = c' :: l ∧ same_socket c c' ∧ exclusive c') g.
Proof.
  revert nextchar c g. induction fuel as [|fuel IH]; intros nextchar c g Ha Hc Hx Hr Hf; [lia|]. cbn [socket_opts_loop]. cli_step.
  apply next_option_spec; [done|]. intros r next l' Hl Hr' Hlt. cbv beta iota.
  assert (r ≠ NoOption → runs (socket_opt r;; socket_opts_loop fuel next)
    (λ _ g', acts g' ∧ some_left (args g) (args g') ∧ ∃ c', configs g' = c' :: l ∧ same_socket c c' ∧ exclusive c') (set_args g l')) as Hgo.
  { intros Hne. cli_step. eapply runs_mono; [by eapply socket_opt_spec|]. intros _ g1 (H1 & H2 & c1 & H3 & H4 & H5). simpl in H2.
    eapply runs_mono; [eapply (IH next c1 g1); [done|done|done|by rewrite H2|rewrite H2; specialize (Hlt Hne); lia]|].
    intros _ g2 (H6 & H7 & c2 & H8 & H9 & H10). rewrite H2 in H7. split; [done|]. split; [by etrans|]. exists c2. split_and!; [done|by etrans|done]. }
  destruct r; [by apply Hgo|cli_step|by apply Hgo]. split; [done|]. split; [done|]. by exists c.
Qed.

(** ** Complete configurations *)

Section Complete.
Context `{System}.

Definition host_ok c : Prop := ∃ h, host c = Some h ∧ is_resolveable_host h = true.
Definition port_ok c : Prop := ∃ p, port c = Some p ∧ is_valid_port_number p = Some true.

(** A private key or a password, but not both; a file is only taken for a key without [-r]. *)
Definition credentials_ok c : Prop :=
  (∃ k, ssh_private_key c = Some k ∧ ssh_password c = None ∧ is_readable_file k = true ∧ force_password c = false ∧ force_key c = false) ∨
  (∃ p, ssh_password c = Some p ∧ ssh_private_key c = None ∧ utf8 p).
Definition host_key_ok c : Prop := match ssh_host_key c with Some k => is_readable_file k = true | None => True end.

Definition config_ok c : Prop :=
  host_ok c ∧ port_ok c ∧ exclusive c ∧
  match type c with SOCKET_TYPE_TCP => True | SOCKET_TYPE_SSH => is_Some (ssh_username c) ∧ credentials_ok c ∧ host_key_ok c end.

Definition no_credentials c : Prop := ssh_private_key c = None ∧ ssh_password c = None ∧ ssh_host_key c = None.

(** What is known of the current configuration in a state, and how many arguments there are. *)
Definition at_state (s : cli_parse_state) c (n : nat) : Prop :=
  exclusive c ∧
  match s with
  | CLI_PARSE_STATE_SOCKET_TCP_OPTIONS => type c = SOCKET_TYPE_TCP ∧ (1 <= n)%nat
  | CLI_PARSE_STATE_SOCKET_TCP_HOST => type c = SOCKET_TYPE_TCP ∧ (2 <= n)%nat
  | CLI_PARSE_STATE_SOCKET_TCP_PORT => type c = SOCKET_TYPE_TCP ∧ host_ok c ∧ (1 <= n)%nat
  | CLI_PARSE_STATE_SOCKET_SSH_OPTIONS => type c = SOCKET_TYPE_SSH ∧ no_credentials c ∧ (1 <= n)%nat
  | CLI_PARSE_STATE_SOCKET_SSH_HOST => type c = SOCKET_TYPE_SSH ∧ no_credentials c ∧ (4 <= n)%nat
  | CLI_PARSE_STATE_SOCKET_SSH_PORT => type c = SOCKET_TYPE_SSH ∧ no_credentials c ∧ host_ok c ∧ (3 <= n)%nat
  | CLI_PARSE_STATE_SOCKET_SSH_USERNAME => type c = SOCKET_TYPE_SSH ∧ no_credentials c ∧ host_ok c ∧ port_ok c ∧ (2 <= n)%nat
  | CLI_PARSE_STATE_SOCKET_SSH_PRIVATE_KEY_PASSWORD =>
      type c = SOCKET_TYPE_SSH ∧ no_credentials c ∧ host_ok c ∧ port_ok c ∧ is_Some (ssh_username c) ∧ (1 <= n)%nat
  | CLI_PARSE_STATE_SOCKET_SSH_HOST_KEY => type c = SOCKET_TYPE_SSH ∧ config_ok c
  | _ => False
  end.

Definition inv (s : cli_parse_state) (g : client) : Prop :=
  acts g ∧ Forall (λ a, is_Some (is_valid_port_number a)) (args g) ∧
  match s with
  | CLI_PARSE_STATE_BEGIN | CLI_PARSE_STATE_GLOBAL_OPTS => configs g = []
  | CLI_PARSE_STATE_SOCKET_BEGIN | CLI_PARSE_STATE_END => Forall config_ok (configs g)
  | s => ∃ c l, configs g = c :: l ∧ Forall config_ok l ∧ at_state s c (length (args g))
  end.

(** Without an argument left, the sockets are complete. *)
Lemma inv_end s g : inv s g → args g = [] → inv CLI_PARSE_STATE_END g.
Proof.
  intros (Ha & Hp & Hs) He. split; [done|]. split; [done|]. destruct s; try done; try (by rewrite Hs); destruct Hs as (c & l & Hc & Hl & _ & Hat);
    rewrite ?He in Hat; simpl in Hat; try lia; destruct_and?; try lia. rewrite Hc. by constructor.
Qed.

(** The loop comes closer to its end. *)
Definition rank (s : cli_parse_state) : nat :=
  match s with
  | CLI_PARSE_STATE_END => 0
  | CLI_PARSE_STATE_BEGIN => 3
  | CLI_PARSE_STATE_GLOBAL_OPTS | CLI_PARSE_STATE_SOCKET_TCP_OPTIONS | CLI_PARSE_STATE_SOCKET_SSH_OPTIONS | CLI_PARSE_STATE_SOCKET_SSH_HOST_KEY => 2
  | _ => 1
  end.
Definition cli_measure (s : cli_parse_state) (g : client) : nat := 4 * length (args g) + rank s.
Definition step_ok (s : cli_parse_state) (g : client) (s' : cli_parse_state) (g' : client) : Prop :=
  inv s' g' ∧ (cli_measure s' g' < cli_measure s g)%nat.

Lemma acts_extend g c : acts g → print_pfx_updates c = false → print_spki_updates c = false → print_aspa_updates c = false → acts (set_configs g (c :: configs g)).
Proof. intros (H1 & H2 & H3) Ha Hb Hc. unfold acts. simpl. by rewrite Ha, Hb, Hc. Qed.

(** A change of the current configuration that does not affect the callbacks. *)
Lemma acts_change g c c' l : acts g → configs g = c :: l → print_pfx_updates c' = print_pfx_updates c → print_spki_updates c' = print_spki_updates c →
  print_aspa_updates c' = print_aspa_updates c → acts (set_configs g (c' :: l)).
Proof. unfold acts. intros (H1 & H2 & H3) Hc Ha Hb Hd. rewrite Hc in *. simpl in *. by rewrite Ha, Hb, Hd. Qed.

Lemma socket_begin_spec g : inv CLI_PARSE_STATE_SOCKET_BEGIN g → args g ≠ [] → runs socket_begin (step_ok CLI_PARSE_STATE_SOCKET_BEGIN g) g.
Proof.
  intros (Ha & Hp & Hs) Hne. destruct (args g) as [|a l] eqn:Hl; [done|]. pose proof (Forall_inv_tail Hp) as Hp'. unfold socket_begin, extend_socket_config.
  cli_step. cli_step. cli_step. eapply runs_argument; [exact Hl|]. cbv beta. cli_step.
  assert (∀ s t n, (2 <= n)%nat → (s = CLI_PARSE_STATE_SOCKET_TCP_OPTIONS ∧ t = SOCKET_TYPE_TCP ∨ s = CLI_PARSE_STATE_SOCKET_SSH_OPTIONS ∧ t = SOCKET_TYPE_SSH) →
    ∀ text, runs (set_current (λ c, set_type c t);; few ← fewer_than n; if few : bool then print_error_exit text None else mret s)
      (λ s' g', runs (next_argument;; mret s') (step_ok CLI_PARSE_STATE_SOCKET_BEGIN g) g') (set_configs g (no_config :: configs g))) as Hgo.
  { intros s t n Hn Hst text. cli_step. cli_step. cli_step. cli_step. simpl args. rewrite Hl. simpl length.
    destruct (Nat.ltb_spec (S (length l)) n) as [Hlt|Hge]; [cli_step|]. cli_step. cli_step. eapply runs_next; [exact Hl|]. cbv beta. cli_step.
    split; [|unfold cli_measure; simpl; rewrite Hl; simpl; destruct Hst as [[-> _]|[-> _]]; simpl; lia].
    split; [exact (acts_extend g (set_type no_config t) Ha eq_refl eq_refl eq_refl)|]. split; [done|].
    destruct Hst as [[-> ->]|[-> ->]]; eexists _, _; (split; [done|]); (split; [done|]); (split; [done|]); split_and!; (done || (simpl; lia)). }
  destruct (is_word_prefix a "tcp"); [apply Hgo; [lia|by left]|]. destruct (is_word_prefix a "ssh"); [apply Hgo; [lia|by right]|]. cli_step.
Qed.

Lemma socket_options_spec g s s' n text :
  inv s g → (s = CLI_PARSE_STATE_SOCKET_TCP_OPTIONS ∧ s' = CLI_PARSE_STATE_SOCKET_TCP_HOST ∧ n = 2%nat ∨
             s = CLI_PARSE_STATE_SOCKET_SSH_OPTIONS ∧ s' = CLI_PARSE_STATE_SOCKET_SSH_HOST ∧ n = 4%nat) →
  runs (socket_options n text s') (step_ok s g) g.
Proof.
  intros (Ha & Hp & Hs) Hst. assert (∃ c l, configs g = c :: l ∧ Forall config_ok l ∧ at_state s c (length (args g))) as (c & l & Hc & Hl & Hx & Hat)
    by (destruct Hst as [(-> & _)|(-> & _)]; exact Hs).
  unfold socket_options, parse_socket_opts. cli_step. cli_step. cli_step.
  eapply runs_mono; [eapply socket_opts_loop_spec; [done|done|done|by left|unfold getopt_fuel; simpl; lia]|].
  intros _ g1 (H1 & H2 & c1 & H3 & H4 & H5). cli_step. cli_step. destruct (Nat.ltb_spec (length (args g1)) n) as [Hlt|Hge]; [cli_step|]. cli_step.
  pose proof (some_left_length _ _ H2) as H6. destruct H4 as (T1 & T2 & T3 & T4 & T5 & T6 & T7). split.
  - split; [done|]. split; [by eapply some_left_forall|]. destruct Hst as [(-> & -> & ->)|(-> & -> & ->)]; exists c1, l; (split; [done|]); (split; [done|]); (split; [done|]).
    + destruct Hat. split; [congruence|done].
    + destruct Hat as (? & (? & ? & ?) & ?). split; [congruence|]. split; [|done]. unfold no_credentials. by rewrite T5, T6, T7.
  - unfold cli_measure. destruct Hst as [(-> & -> & ->)|(-> & -> & ->)]; simpl; lia.
Qed.

(** A step that takes an argument and sets a part of the current configuration. *)
Lemma take_argument g s s' c l a rest f :
  inv s g → configs g = c :: l → Forall config_ok l → args g = a :: rest →
  (print_pfx_updates (f c), print_spki_updates (f c), print_aspa_updates (f c)) = (print_pfx_updates c, print_spki_updates c, print_aspa_updates c) →
  (s' = CLI_PARSE_STATE_SOCKET_BEGIN ∧ config_ok (f c) ∨ at_state s' (f c) (length rest)) →
  step_ok s g s' (set_configs (set_args g rest) (f c :: l)).
Proof.
  intros (Ha & Hp & _) Hc Hl Hargs [= H1 H2 H3] Hs'. rewrite Hargs in Hp. apply Forall_cons in Hp as [_ Hp]. split.
  - split; [by eapply (acts_change (set_args g rest) c)|]. split; [done|]. destruct Hs' as [[-> Hok]|[Hx Hat]]; [by constructor|].
    destruct s'; try done; by exists (f c), l.
  - unfold cli_measure. simpl. rewrite Hargs. simpl. destruct s', s; simpl; lia.
Qed.

Lemma socket_host_spec g s s' :
  inv s g → (s = CLI_PARSE_STATE_SOCKET_TCP_HOST ∧ s' = CLI_PARSE_STATE_SOCKET_TCP_PORT ∨ s = CLI_PARSE_STATE_SOCKET_SSH_HOST ∧ s' = CLI_PARSE_STATE_SOCKET_SSH_PORT) →
  runs (socket_host s') (step_ok s g) g.
Proof.
  intros Hinv Hst. pose proof Hinv as (_ & _ & Hs). assert (∃ c l, configs g = c :: l ∧ Forall config_ok l ∧ at_state s c (length (args g)))
    as (c & l & Hc & Hl & Hx & Hat) by (destruct Hst as [(-> & _)|(-> & _)]; exact Hs).
  destruct (args g) as [|a rest] eqn:Ha; [destruct Hst as [[-> ->]|[-> ->]]; simpl in Hat; destruct_and?; lia|].
  unfold socket_host. cli_step. cli_step. destruct (is_resolveable_host a) eqn:Hr; simpl negb; cbv iota; [|cli_step]. cli_step. cli_step. cli_step.
  eapply runs_set_current; [exact Hc|]. cbv beta. cli_step. eapply (take_argument _ _ _ c l a rest (λ c, set_addresses c (bindaddr c) (Some a) (port c))); try done. right. split; [done|].
  assert (host_ok (set_addresses c (bindaddr c) (Some a) (port c))) by by exists a.
  destruct Hst as [[-> ->]|[-> ->]]; simpl in Hat; destruct_and?; split_and!; (done || lia).
Qed.

Lemma socket_port_spec g s s' :
  inv s g → (s = CLI_PARSE_STATE_SOCKET_TCP_PORT ∧ s' = CLI_PARSE_STATE_SOCKET_BEGIN ∨ s = CLI_PARSE_STATE_SOCKET_SSH_PORT ∧ s' = CLI_PARSE_STATE_SOCKET_SSH_USERNAME) →
  runs (socket_port s') (step_ok s g) g.
Proof.
  intros Hinv Hst. pose proof Hinv as (_ & Hp & Hs). assert (∃ c l, configs g = c :: l ∧ Forall config_ok l ∧ at_state s c (length (args g)))
    as (c & l & Hc & Hl & Hx & Hat) by (destruct Hst as [(-> & _)|(-> & _)]; exact Hs).
  destruct (args g) as [|a rest] eqn:Ha; [destruct Hst as [[-> ->]|[-> ->]]; simpl in Hat; destruct_and?; lia|].
  apply Forall_cons in Hp as [[ok Hok] _]. unfold socket_port. cli_step. cli_step. cli_step. eapply runs_defined; [done|]. cbv beta.
  destruct ok; simpl negb; cbv iota; [|cli_step]. cli_step. cli_step. cli_step. eapply runs_set_current; [exact Hc|]. cbv beta. cli_step.
  eapply (take_argument _ _ _ c l a rest (λ c, set_addresses c (bindaddr c) (host c) (Some a))); try done. set (c' := set_addresses c (bindaddr c) (host c) (Some a)).
  assert (port_ok c') by by exists a. destruct Hst as [[-> ->]|[-> ->]]; simpl in Hat; [left|right; split; [done|]].
  - destruct Hat as (Ht & ? & _). split; [done|]. split_and!; try done. simpl. by rewrite Ht.
  - destruct_and?. split_and!; (done || lia).
Qed.

(** A readable file is the key unless an option asks for a password, other text a password. *)
Lemma key_or_password_spec g : inv CLI_PARSE_STATE_SOCKET_SSH_PRIVATE_KEY_PASSWORD g →
  runs socket_key_or_password (step_ok CLI_PARSE_STATE_SOCKET_SSH_PRIVATE_KEY_PASSWORD g) g.
Proof.
  intros (Hac & Hp & c & l & Hc & Hl & Hx & Ht & (N1 & N2 & N3) & Hh & Hpo & Hu & Hn). destruct (args g) as [|a rest] eqn:Ha; [simpl in Hn; lia|].
  apply Forall_cons in Hp as [_ Hp]. destruct (is_utf8_spec a) as (u & Hu8 & Hutf). unfold socket_key_or_password. cli_step. eapply runs_argument; [exact Ha|].
  cbv beta. cli_step. eapply runs_current; [exact Hc|]. cbv beta. cli_step. eapply runs_defined; [exact Hu8|]. cbv beta. cli_step.
  set (Q := λ (_ : unit) g', runs (next_argument;; mret CLI_PARSE_STATE_SOCKET_SSH_HOST_KEY) (step_ok CLI_PARSE_STATE_SOCKET_SSH_PRIVATE_KEY_PASSWORD g) g').
  assert (∀ g1 k p, acts g1 → configs g1 = configs g → args g1 = args g → credentials_ok (set_credentials c (ssh_username c) k (ssh_host_key c) p) →
    Q tt (set_configs g1 (set_credentials c (ssh_username c) k (ssh_host_key c) p :: l))) as Hset.
  { intros g1 k p Ha1 Hc1 Hr1 Hcred. unfold Q. cli_step. eapply runs_next; [by simpl; rewrite Hr1|]. cbv beta. cli_step. split.
    - split; [eapply (acts_change g1 c); (done || congruence)|]. split; [done|]. eexists _, l. split; [done|]. split; [done|]. split; [done|]. split; [done|].
      split_and!; try done. simpl. rewrite Ht. split; [done|]. split; [done|]. unfold host_key_ok. simpl. by rewrite N3.
    - unfold cli_measure. simpl. rewrite Ha. simpl. lia. }
  destruct (force_key c && _) eqn:E1; [cli_step|]. destruct (negb (force_password c) && _ && _) eqn:E2.
  { eapply runs_set_current; [exact Hc|]. apply Hset; [done|done|done|]. left. exists a. rewrite !andb_true_iff, !negb_true_iff in E2. destruct E2 as [[? ?] ?]. by split_and!. }
  destruct (negb (force_password c) && u) eqn:E3.
  { cli_step. cli_step. cli_step. cli_step. eapply runs_set_current; [exact Hc|]. apply Hset; [done|done|done|]. right. exists a.
    apply andb_true_iff in E3 as [_ ->]. split_and!; [done|done|by apply Hutf]. }
  destruct (force_password c && negb u) eqn:E4; [cli_step|]. destruct (force_password c && _ && u) eqn:E5; [|cli_step].
  eapply runs_set_current; [exact Hc|]. apply Hset; [done|done|done|]. right. exists a. apply andb_true_iff in E5 as [_ ->]. split_and!; [done|done|by apply Hutf].
Qed.

Lemma socket_host_key_spec g : inv CLI_PARSE_STATE_SOCKET_SSH_HOST_KEY g → args g ≠ [] → runs socket_host_key (step_ok CLI_PARSE_STATE_SOCKET_SSH_HOST_KEY g) g.
Proof.
  intros Hinv Hne. pose proof Hinv as (Hac & Hp & c & l & Hc & Hl & Hx & Ht & Hok). destruct (args g) as [|a rest] eqn:Ha; [done|].
  unfold socket_host_key. cli_step. eapply runs_argument; [exact Ha|]. cbv beta. destruct (_ || _).
  { cli_step. split; [split; [done|]; split; [by rewrite Ha|]; rewrite Hc; by constructor|]. unfold cli_measure. simpl. lia. }
  destruct (is_readable_file a) eqn:Hr; simpl negb; cbv iota; [|cli_step]. cli_step. eapply runs_next; [exact Ha|]. cbv beta. cli_step.
  eapply runs_set_current; [exact Hc|]. cbv beta. cli_step. eapply (take_argument _ _ _ c l a rest (λ c, set_credentials c (ssh_username c) (ssh_private_key c) (Some a) (ssh_password c))); try done. left. split; [done|].
  destruct Hok as (? & ? & ? & Hssh). split_and!; try done. simpl. rewrite Ht in *. destruct Hssh as (? & ? & ?). by split_and!.
Qed.

Lemma cli_case_spec s g : inv s g → s ≠ CLI_PARSE_STATE_END → (args g = [] → s = CLI_PARSE_STATE_BEGIN) → runs (cli_case s) (step_ok s g) g.
Proof.
  intros Hinv Hne Hargs. destruct s; cbn [cli_case].
  - cli_step. split; [exact Hinv|]. unfold cli_measure. simpl. lia.
  - destruct Hinv as (Ha & Hp & Hc). cli_step. eapply runs_mono; [by apply parse_global_opts_spec|]. intros _ g1 (H1 & H2 & H3). cli_step.
    pose proof (some_left_length _ _ H3). split; [split; [done|]; split; [by eapply some_left_forall|]; by rewrite H2, Hc|]. unfold cli_measure. simpl. lia.
  - apply socket_begin_spec; [done|]. intros He. by specialize (Hargs He).
  - eapply socket_options_spec; [done|by left].
  - eapply socket_host_spec; [done|by left].
  - eapply socket_port_spec; [done|by left].
  - eapply socket_options_spec; [done|by right].
  - eapply socket_host_spec; [done|by right].
  - eapply socket_port_spec; [done|by right].
  - pose proof Hinv as (Ha & Hp & c & l & Hc & Hl & Hx & Ht & Hn & Hh & Hpo & Hlen). destruct (args g) as [|a rest] eqn:Hl'; [simpl in Hlen; lia|].
    cli_step. eapply runs_next; [exact Hl'|]. cbv beta. cli_step. eapply runs_set_current; [exact Hc|]. cbv beta. cli_step.
    eapply (take_argument _ _ _ c l a rest (λ c, set_credentials c (Some a) (ssh_private_key c) (ssh_host_key c) (ssh_password c))); try done. right. simpl in Hlen. split; [done|]. split_and!; (done || lia).
  - by apply key_or_password_spec.
  - apply socket_host_key_spec; [done|]. intros He. by specialize (Hargs He).
  - done.
Qed.

Lemma cli_loop_spec fuel s g : inv s g → (args g = [] → s = CLI_PARSE_STATE_BEGIN ∨ s = CLI_PARSE_STATE_END) → (cli_measure s g < fuel)%nat →
  runs (cli_loop fuel s) (λ _ g', inv CLI_PARSE_STATE_END g') g.
Proof.
  revert s g. induction fuel as [|fuel IH]; intros s g Hinv Hargs Hf; [lia|]. cbn [cli_loop].
  destruct (decide (s = CLI_PARSE_STATE_END)) as [->|Hne]; [by cli_step|].
  assert (runs (state ← cli_case s; over ← fewer_than 1; cli_loop fuel (if over : bool then CLI_PARSE_STATE_END else state))
    (λ _ g', inv CLI_PARSE_STATE_END g') g) as Hgo; [|by destruct s].
  cli_step. eapply runs_mono; [apply cli_case_spec; [done|done|intros He; by destruct (Hargs He)]|]. intros s' g' [Hinv' Hlt]. cli_step. cli_step.
  destruct (args g') as [|a l] eqn:Ha; simpl.
  - apply IH; [by eapply inv_end|by right|]. unfold cli_measure in *. rewrite Ha in *. simpl in *. lia.
  - apply IH; [done|by rewrite Ha|lia].
Qed.

(** ** From the command line to the transports *)

Lemma strdup_ready t s (Q : str_ptr → sys → Prop) :
  answers s = [] → (∀ p s', answers s' = [] → Q (Some (p, t)) s') → returns (rtr_strdup (Some t)) Q s.
Proof.
  intros Ha HQ. eexists _, _. split; [|by apply (HQ (next s) (set_heap s ({[next s]} ∪ live s) (S (next s))))]. unfold rtr_strdup, malloc, require, act, ask, mbind, Os_bind.
  by rewrite Ha.
Qed.

Lemma malloc_ready s (Q : option nat → sys → Prop) : answers s = [] → (∀ p s', answers s' = [] → Q (Some p) s') → returns malloc Q s.
Proof.
  intros Ha HQ. eexists _, _. split; [|by apply (HQ (next s) (set_heap s ({[next s]} ∪ live s) (S (next s))))]. unfold malloc, act, ask, mbind, Os_bind. by rewrite Ha.
Qed.

Lemma copy_optional_ready t s (Q : bool * str_ptr → sys → Prop) :
  answers s = [] → (∀ p s', answers s' = [] → Q (true, p) s') → returns (copy_optional t) Q s.
Proof.
  intros Ha HQ. destruct t as [t|]; cbn [copy_optional]; [|os_step; by apply HQ]. os_step. apply strdup_ready; [done|]. intros p s' Ha'. os_step. by apply HQ.
Qed.

Lemma client_init_socket_ready c s : config_ok c → answers s = [] → returns (client_init_socket c) (λ rv s', rv = RTR_TR_SUCCESS ∧ answers s' = []) s.
Proof.
  intros ((h & Hh & _) & (p & Hp & Hport) & _ & Ht) Ha. unfold client_init_socket. destruct (type c).
  - unfold rtr_tr_tcp_init, tcp_config_of. simpl cfg_host. simpl cfg_port. simpl cfg_bindaddr. rewrite Hh, Hp. simpl fmap. os_step. os_step.
    apply malloc_ready; [done|]. intros b s1 H1. os_step. apply strdup_ready; [done|]. intros p1 s2 H2. os_step. apply strdup_ready; [done|]. intros p2 s3 H3. os_step.
    apply (os_mono _ (λ _ s', answers s' = [])).
    + destruct (bindaddr c) as [ba|]; simpl; [apply strdup_ready; [done|]; by intros|by os_step].
    + intros p3 s4 H4. os_step. by os_step.
  - destruct Ht as ([u Hu] & Hcred & _). assert (∃ n, atoi p = Some n) as [n Hn].
    { unfold is_valid_port_number in Hport. destruct (negb _); [done|]. destruct (atoi p) as [n|]; [by exists n|done]. }
    assert (ssh_config_of c = Some (SshConfig (text <$> host c) n (text <$> bindaddr c) (text <$> ssh_username c) (text <$> ssh_host_key c)
      (text <$> ssh_private_key c) false 0 (text <$> ssh_password c))) as -> by (unfold ssh_config_of; rewrite Hp; simpl; by rewrite Hn).
    os_step. os_step. os_step. unfold rtr_tr_ssh_init. cbn [scfg_host scfg_username scfg_password scfg_client_privkey_path].
    os_step. apply malloc_ready; [done|]. intros b s1 H1. rewrite Hh, Hu. simpl fmap. os_step. apply strdup_ready; [done|]. intros p1 s2 H2.
    simpl bool_decide. cbv iota. os_step. apply strdup_ready; [done|]. intros p2 s3 H3. simpl bool_decide. cbv iota.
    assert (Bool.eqb (bool_decide (is_Some (text <$> ssh_password c))) (bool_decide (is_Some (text <$> ssh_private_key c))) = false) as ->.
    { destruct Hcred as [(k & -> & -> & _)|(w & -> & -> & _)]; done. }
    do 4 (os_step; apply copy_optional_ready; [done|]; intros ? ? ?; simpl negb; cbv beta iota). os_step. by os_step.
Qed.

Lemma client_init_sockets_ready l s : Forall config_ok l → answers s = [] →
  returns (client_init_sockets l) (λ rvs s', rvs = repeat RTR_TR_SUCCESS (length l) ∧ answers s' = []) s.
Proof.
  intros Hl. revert s. induction Hl as [|c l Hc _ IH]; intros s Ha; cbn [client_init_sockets]; [by os_step|]. os_step.
  eapply os_mono; [by apply client_init_socket_ready|]. intros rv s1 [-> H1]. os_step. eapply os_mono; [by apply IH|]. intros rvs s2 [-> H2]. by os_step.
Qed.

(** C27: Whatever the arguments are, as long as those that are numbers fit into an [int],
    parsing the command line ends, without reading beyond the arguments.  If the tool goes
    on, every socket is complete: a host that can be resolved, a valid port and, for SSH, a
    user name and either a readable key or a password in UTF-8; exactly those callbacks are
    active that something is printed for; and all transports can be initialised as long as
    there is memory.  (The port check reads a number with [atoi], which is undefined for
    larger ones.) *)
Theorem cli_sockets_complete argv : Forall (λ a, is_numeric a = true → is_Some (atoi a)) argv →
  runs (parse_cli argv) (λ _ g, acts g ∧ Forall config_ok (configs g) ∧
    ∀ s, answers s = [] → returns (client_init_sockets (rev (configs g))) (λ rvs _, rvs = repeat RTR_TR_SUCCESS (length (configs g))) s) initial_client.
Proof.
  intros Hp. assert (Forall (λ a, is_Some (is_valid_port_number a)) argv) as Hports.
  { eapply Forall_impl; [exact Hp|]. intros a Ha. simpl in Ha. unfold is_valid_port_number.
    destruct (is_numeric a) eqn:Hn; [|by eexists]. destruct (Ha eq_refl) as [v ->]. by eexists. }
  unfold parse_cli. cli_step. cli_step. eapply runs_mono.
  - apply cli_loop_spec; [done|by left|]. unfold cli_measure, cli_fuel. simpl. lia.
  - intros _ g (Ha & _ & Hok). split; [done|]. split; [done|]. intros s Hs. eapply os_mono; [apply client_init_sockets_ready; [by apply Forall_rev|done]|].
    intros rvs s' [-> _]. by rewrite length_rev.
Qed.

(** ** Command lines that are written down *)

Record ssh_spec := SshSpec { sp_user : str; sp_credential : str + str; sp_host_key : option str }.

(** A socket as a user describes it; the credential is a key or a password. *)
Record socket_spec := SocketSpec { sp_pfx : bool; sp_spki : bool; sp_aspa : bool; sp_bind : option str; sp_host : str; sp_port : str; sp_ssh : option ssh_spec }.
Implicit Types sp : socket_spec.

Definition has_password sp : bool := match sp_ssh sp with Some x => match sp_credential x with inr _ => true | inl _ => false end | None => false end.

Definition flag (b : bool) (a : string) : list str := if b then [codes a] else [].
Definition spec_flags sp : list str :=
  flag (sp_pfx sp) "-p" ++ flag (sp_spki sp) "-k" ++ flag (sp_aspa sp) "-a" ++ match sp_bind sp with Some b => [codes "-b"; b] | None => [] end ++ flag (has_password sp) "-w".
Definition credential_text (x : str + str) : str := match x with inl k => k | inr p => p end.
Definition spec_rest sp : list str :=
  match sp_ssh sp with
  | None => []
  | Some x => [sp_user x; credential_text (sp_credential x)] ++ match sp_host_key x with Some k => [k] | None => [] end
  end.
Definition spec_args sp : list str :=
  [codes (if sp_ssh sp then "ssh" else "tcp")] ++ spec_flags sp ++ [sp_host sp; sp_port sp] ++ spec_rest sp.

Definition spec_config sp : socket_config :=
  let cfg t u k h p := SocketConfig t (sp_pfx sp) (sp_spki sp) (sp_aspa sp) (sp_bind sp) (Some (sp_host sp)) (Some (sp_port sp)) u k h p (has_password sp) false in
  match sp_ssh sp with
  | None => cfg SOCKET_TYPE_TCP None None None None
  | Some x =>
      match sp_credential x with
      | inl k => cfg SOCKET_TYPE_SSH (Some (sp_user x)) (Some k) (sp_host_key x) None
      | inr p => cfg SOCKET_TYPE_SSH (Some (sp_user x)) None (sp_host_key x) (Some p)
      end
  end.

Definition no_option (a : str) : Prop := match a with d :: _ => (d =? dash) = false | [] => True end.
Definition ssh_spec_ok (x : ssh_spec) : Prop :=
  match sp_credential x with inl k => is_readable_file k = true | inr p => utf8 p end ∧
  match sp_host_key x with Some k => is_readable_file k = true ∧ is_word_prefix k "tcp" || is_word_prefix k "ssh" = false | None => True end.
Definition spec_ok sp : Prop :=
  no_option (sp_host sp) ∧ is_resolveable_host (sp_host sp) = true ∧ is_valid_port_number (sp_port sp) = Some true ∧
  match sp_ssh sp with Some x => ssh_spec_ok x | None => True end.

(** The state while no global option was given. *)
Definition st (p k a : bool) (cs : list socket_config) (l : list str) : client := Client p k a false false false false false None None cs l [].

Lemma opt_p b f p k a c cs l : socket_opts_loop (Nat.b2n b + f) [] (st p k a (c :: cs) (flag b "-p" ++ l)) =
  socket_opts_loop f [] (st (b || p) k a (set_prints c (b || print_pfx_updates c) (print_spki_updates c) (print_aspa_updates c) :: cs) l).
Proof. by destruct b, c. Qed.
Lemma opt_k b f p k a c cs l : socket_opts_loop (Nat.b2n b + f) [] (st p k a (c :: cs) (flag b "-k" ++ l)) =
  socket_opts_loop f [] (st p (b || k) a (set_prints c (print_pfx_updates c) (b || print_spki_updates c) (print_aspa_updates c) :: cs) l).
Proof. by destruct b, c. Qed.
Lemma opt_a b f p k a c cs l : socket_opts_loop (Nat.b2n b + f) [] (st p k a (c :: cs) (flag b "-a" ++ l)) =
  socket_opts_loop f [] (st p k (b || a) (set_prints c (print_pfx_updates c) (print_spki_updates c) (b || print_aspa_updates c) :: cs) l).
Proof. by destruct b, c. Qed.
Lemma opt_b b f p k a c cs l : bindaddr c = None →
  socket_opts_loop (Nat.b2n (bool_decide (is_Some b)) + f) [] (st p k a (c :: cs) (match b with Some b => [codes "-b"; b] | None => [] end ++ l)) =
  socket_opts_loop f [] (st p k a (set_addresses c b (host c) (port c) :: cs) l).
Proof. destruct b, c; simpl; intros; by subst. Qed.
Lemma opt_w b f p k a c cs l : force_key c = false → socket_opts_loop (Nat.b2n b + f) [] (st p k a (c :: cs) (flag b "-w" ++ l)) =
  socket_opts_loop f [] (st p k a (set_force c (b || force_password c) false :: cs) l).
Proof. destruct b, c; simpl; intros; by subst. Qed.
Lemma opt_end f p k a cs h l : no_option h → socket_opts_loop (S f) [] (st p k a cs (h :: l)) = Some (Returns tt, st p k a cs (h :: l)).
Proof.
  intros Hh. destruct h as [|d [|e h]]; [done|done|]. simpl in Hh. cbn [socket_opts_loop]. unfold mbind, Cli_bind, next_option. cbn [args st getopt]. by rewrite Hh.
Qed.

(** The configuration when the options were read. *)
Definition after_flags sp (t : socket_type) : socket_config :=
  SocketConfig t (sp_pfx sp) (sp_spki sp) (sp_aspa sp) (sp_bind sp) None None None None None None (has_password sp) false.

Lemma socket_flags sp p k a t cs l : spec_ok sp →
  parse_socket_opts (st p k a (set_type no_config t :: cs) (spec_flags sp ++ sp_host sp :: l)) =
  Some (Returns tt, st (sp_pfx sp || p) (sp_spki sp || k) (sp_aspa sp || a) (after_flags sp t :: cs) (sp_host sp :: l)).
Proof.
  intros (Hno & _). unfold parse_socket_opts, get, mbind, Cli_bind. cbn [args st].
  assert (∃ f, getopt_fuel (spec_flags sp ++ sp_host sp :: l) = Nat.b2n (sp_pfx sp) + (Nat.b2n (sp_spki sp) + (Nat.b2n (sp_aspa sp) +
    (Nat.b2n (bool_decide (is_Some (sp_bind sp))) + (Nat.b2n (has_password sp) + S f)))))%nat as [f ->].
  { unfold getopt_fuel, spec_flags. set (m := λ b : str, S (length b)). exists (sum_list_with m (spec_flags sp ++ sp_host sp :: l) - (Nat.b2n (sp_pfx sp) +
      Nat.b2n (sp_spki sp) + Nat.b2n (sp_aspa sp) + Nat.b2n (bool_decide (is_Some (sp_bind sp))) + Nat.b2n (has_password sp)))%nat.
    unfold spec_flags. rewrite !sum_list_with_app. unfold flag. destruct (sp_pfx sp), (sp_spki sp), (sp_aspa sp), (sp_bind sp), (has_password sp); simpl; lia. }
  unfold spec_flags. rewrite <- !(assoc_L (++)). rewrite opt_p, opt_k, opt_a, opt_b, opt_w by done. by rewrite opt_end, !orb_false_r by done.
Qed.

Lemma loop_step f s g s' g' : s ≠ CLI_PARSE_STATE_END → cli_case s g = Some (Returns s', g') →
  cli_loop (S f) s g = cli_loop f (if args g' then CLI_PARSE_STATE_END else s') g'.
Proof.
  intros Hs Hc. assert (cli_loop (S f) s g = (state ← cli_case s; over ← fewer_than 1; cli_loop f (if over : bool then CLI_PARSE_STATE_END else state)) g) as ->
    by by destruct s. unfold mbind, Cli_bind. rewrite Hc. unfold fewer_than, get. by destruct (args g').
Qed.

(** The words before the options. *)
Lemma begin_step f p k a cs sp l : (4 <= length l)%nat ∨ sp_ssh sp = None ∧ (1 <= length l)%nat →
  cli_loop (S f) CLI_PARSE_STATE_SOCKET_BEGIN (st p k a cs (codes (if sp_ssh sp then "ssh" else "tcp") :: l)) =
  cli_loop f (if sp_ssh sp then CLI_PARSE_STATE_SOCKET_SSH_OPTIONS else CLI_PARSE_STATE_SOCKET_TCP_OPTIONS)
    (st p k a (set_type no_config (if sp_ssh sp then SOCKET_TYPE_SSH else SOCKET_TYPE_TCP) :: cs) l).
Proof.
  intros Hl. assert (1 <= length l)%nat as Hl1 by lia. erewrite loop_step; [|done|].
  - instantiate (2 := if sp_ssh sp then _ else _). instantiate (1 := st p k a (set_type no_config (if sp_ssh sp then SOCKET_TYPE_SSH else SOCKET_TYPE_TCP) :: cs) l).
    destruct l as [|b l]; [simpl in Hl1; lia|]. done.
  - destruct (sp_ssh sp) as [x|]; cbn [cli_case].
    + destruct Hl as [Hl|[? _]]; [|done]. do 4 (destruct l as [|? l]; [simpl in Hl; lia|]). reflexivity.
    + destruct l as [|b l]; [simpl in Hl1; lia|]. reflexivity.
Qed.

Lemma options_step f p k a cs sp l : spec_ok sp → (if sp_ssh sp then 3 <= length l else 1 <= length l)%nat →
  cli_loop (S f) (if sp_ssh sp then CLI_PARSE_STATE_SOCKET_SSH_OPTIONS else CLI_PARSE_STATE_SOCKET_TCP_OPTIONS)
    (st p k a (set_type no_config (if sp_ssh sp then SOCKET_TYPE_SSH else SOCKET_TYPE_TCP) :: cs) (spec_flags sp ++ sp_host sp :: l)) =
  cli_loop f (if sp_ssh sp then CLI_PARSE_STATE_SOCKET_SSH_HOST else CLI_PARSE_STATE_SOCKET_TCP_HOST)
    (st (sp_pfx sp || p) (sp_spki sp || k) (sp_aspa sp || a) (after_flags sp (if sp_ssh sp then SOCKET_TYPE_SSH else SOCKET_TYPE_TCP) :: cs) (sp_host sp :: l)).
Proof.
  intros Hok Hl. destruct (sp_ssh sp) as [x|] eqn:Hx; (erewrite loop_step; [|done|]).
  1,3: instantiate (1 := st _ _ _ _ (sp_host sp :: l)); reflexivity.
  all: cbn [cli_case]; unfold socket_options, mbind, Cli_bind; rewrite socket_flags by done; unfold fewer_than, get; cbn [args st].
  - do 3 (destruct l as [|? l]; [simpl in Hl; lia|]). reflexivity.
  - destruct l as [|? l]; [simpl in Hl; lia|]. reflexivity.
Qed.

Lemma host_step f s s' p k a c cs h l : is_resolveable_host h = true → l ≠ [] →
  s = CLI_PARSE_STATE_SOCKET_TCP_HOST ∧ s' = CLI_PARSE_STATE_SOCKET_TCP_PORT ∨ s = CLI_PARSE_STATE_SOCKET_SSH_HOST ∧ s' = CLI_PARSE_STATE_SOCKET_SSH_PORT →
  cli_loop (S f) s (st p k a (c :: cs) (h :: l)) = cli_loop f s' (st p k a (set_addresses c (bindaddr c) (Some h) (port c) :: cs) l).
Proof.
  intros Hh Hl Hs. erewrite (loop_step _ _ _ s' (st p k a (set_addresses c (bindaddr c) (Some h) (port c) :: cs) l)); [by destruct l|by destruct Hs as [[-> _]|[-> _]]|].
  assert (cli_case s = socket_host s') as -> by by destruct Hs as [[-> ->]|[-> ->]]. unfold socket_host, mbind, Cli_bind, argument. cbn [args st]. by rewrite Hh.
Qed.

Lemma port_step f s s' p k a c cs h l : is_valid_port_number h = Some true →
  s = CLI_PARSE_STATE_SOCKET_TCP_PORT ∧ s' = CLI_PARSE_STATE_SOCKET_BEGIN ∨ s = CLI_PARSE_STATE_SOCKET_SSH_PORT ∧ s' = CLI_PARSE_STATE_SOCKET_SSH_USERNAME →
  cli_loop (S f) s (st p k a (c :: cs) (h :: l)) = cli_loop f (if l then CLI_PARSE_STATE_END else s') (st p k a (set_addresses c (bindaddr c) (host c) (Some h) :: cs) l).
Proof.
  intros Hh Hs. erewrite (loop_step _ _ _ s' (st p k a (set_addresses c (bindaddr c) (host c) (Some h) :: cs) l)); [done|by destruct Hs as [[-> _]|[-> _]]|].
  assert (cli_case s = socket_port s') as -> by by destruct Hs as [[-> ->]|[-> ->]]. unfold socket_port, mbind, Cli_bind, argument, defined. cbn [args st]. by rewrite Hh.
Qed.

Lemma user_step f p k a c cs u l : l ≠ [] →
  cli_loop (S f) CLI_PARSE_STATE_SOCKET_SSH_USERNAME (st p k a (c :: cs) (u :: l)) =
  cli_loop f CLI_PARSE_STATE_SOCKET_SSH_PRIVATE_KEY_PASSWORD
    (st p k a (set_credentials c (Some u) (ssh_private_key c) (ssh_host_key c) (ssh_password c) :: cs) l).
Proof. intros Hl. erewrite loop_step; [|done|reflexivity]. by destruct l. Qed.

Lemma credential_step f p k a c cs x l :
  match x with inl key => is_readable_file key = true | inr pw => utf8 pw end → force_key c = false → force_password c = (if x then false else true) →
  cli_loop (S f) CLI_PARSE_STATE_SOCKET_SSH_PRIVATE_KEY_PASSWORD (st p k a (c :: cs) (credential_text x :: l)) =
  cli_loop f (if l then CLI_PARSE_STATE_END else CLI_PARSE_STATE_SOCKET_SSH_HOST_KEY)
    (st p k a (set_credentials c (ssh_username c) (match x with inl key => Some key | inr _ => ssh_private_key c end) (ssh_host_key c)
      (match x with inr pw => Some pw | inl _ => ssh_password c end) :: cs) l).
Proof.
  intros Hx Hk Hp. match goal with |- _ = cli_loop f _ ?g' => rewrite (loop_step f _ _ CLI_PARSE_STATE_SOCKET_SSH_HOST_KEY g'); [done|done|] end. cbn [cli_case]. unfold socket_key_or_password, mbind, Cli_bind, argument, current, defined. cbn [args configs st].
  destruct (is_utf8_spec (credential_text x)) as (u & Hu & Hutf). rewrite Hu, Hk, Hp. destruct x as [key|pw]; cbn [credential_text] in *.
  - rewrite Hx. reflexivity.
  - rewrite (proj2 Hutf Hx). reflexivity.
Qed.

(** After the credential: the key of the host, or the next socket. *)
Lemma host_key_step f p k a c cs hk l :
  match hk with Some h => is_readable_file h = true ∧ is_word_prefix h "tcp" || is_word_prefix h "ssh" = false | None => True end →
  ssh_host_key c = None → (∀ w l', l = w :: l' → is_word_prefix w "tcp" || is_word_prefix w "ssh" = true) →
  let args := match hk with Some h => [h] | None => [] end ++ l in
  cli_loop (S f) (if args then CLI_PARSE_STATE_END else CLI_PARSE_STATE_SOCKET_SSH_HOST_KEY) (st p k a (c :: cs) args) =
  cli_loop (if args then S f else f) (if l then CLI_PARSE_STATE_END else CLI_PARSE_STATE_SOCKET_BEGIN)
    (st p k a (set_credentials c (ssh_username c) (ssh_private_key c) hk (ssh_password c) :: cs) l).
Proof.
  intros Hhk Hc Hl. destruct hk as [h|]; cbn [app].
  - destruct Hhk as [Hr Hw]. erewrite (loop_step f _ _ CLI_PARSE_STATE_SOCKET_BEGIN (st p k a (set_credentials c (ssh_username c) (ssh_private_key c) (Some h) (ssh_password c) :: cs) l));
      [done|done|]. cbn [cli_case]. unfold socket_host_key, mbind, Cli_bind, argument. cbn [args st]. by rewrite Hw, Hr.
  - assert (set_credentials c (ssh_username c) (ssh_private_key c) None (ssh_password c) = c) as -> by (destruct c; simpl in *; by subst).
    destruct l as [|w l]; [done|]. specialize (Hl w l eq_refl). erewrite (loop_step f _ _ CLI_PARSE_STATE_SOCKET_BEGIN (st p k a (c :: cs) (w :: l))); [done|done|].
    cbn [cli_case]. unfold socket_host_key, mbind, Cli_bind, argument. cbn [args st]. by rewrite Hl.
Qed.

(** Text that starts with a socket, or is at its end. *)
Definition starts_socket (l : list str) : Prop := ∀ w l', l = w :: l' → is_word_prefix w "tcp" || is_word_prefix w "ssh" = true.

(** All states of one socket. *)
Lemma one_socket sp p k a cs l f : spec_ok sp → starts_socket l → ∃ f', (f <= f')%nat ∧
  cli_loop (7 + f) CLI_PARSE_STATE_SOCKET_BEGIN (st p k a cs (spec_args sp ++ l)) =
  cli_loop f' (if l then CLI_PARSE_STATE_END else CLI_PARSE_STATE_SOCKET_BEGIN) (st (sp_pfx sp || p) (sp_spki sp || k) (sp_aspa sp || a) (spec_config sp :: cs) l).
Proof.
  intros Hok Hl. pose proof Hok as (Hno & Hr & Hp & Hs). unfold spec_args. rewrite <- !(assoc_L (++)). cbn [app].
  change (7 + f)%nat with (S (S (5 + f))). rewrite begin_step, options_step; [|done|..].
  2:{ unfold spec_rest. destruct (sp_ssh sp); simpl; lia. }
  2:{ rewrite length_app. unfold spec_rest. destruct (sp_ssh sp); [left|right; split; [done|]]; simpl; lia. }
  change (5 + f)%nat with (S (S (3 + f))). unfold spec_rest, spec_config. destruct (sp_ssh sp) as [x|] eqn:Hx.
  - destruct Hs as [Hcred Hhk]. rewrite (host_step _ _ CLI_PARSE_STATE_SOCKET_SSH_PORT) by (done || by right).
    rewrite (port_step _ _ CLI_PARSE_STATE_SOCKET_SSH_USERNAME) by (done || by right). cbn [app]. change (3 + f)%nat with (S (S (S f))). rewrite user_step by done.
    assert (has_password sp = (if sp_credential x then false else true)) as Hpw by by (unfold has_password; rewrite Hx; destruct (sp_credential x)).
    rewrite credential_step by done. rewrite host_key_step by done.
    exists (if (match sp_host_key x with Some h => [h] | None => [] end ++ l) then S f else f). split; [destruct (_ ++ l); lia|]. by destruct (sp_credential x).
  - rewrite (host_step _ _ CLI_PARSE_STATE_SOCKET_TCP_PORT) by (done || by left). rewrite (port_step _ _ CLI_PARSE_STATE_SOCKET_BEGIN) by (done || by left).
    exists (3 + f)%nat. split; [lia|]. done.
Qed.

Lemma spec_args_start sps : starts_socket (flat_map spec_args sps).
Proof. destruct sps as [|sp sps]; intros w l'; simpl; [done|]. intros [= <- _]. by destruct (sp_ssh sp). Qed.

Lemma all_sockets sps p k a cs f : sps ≠ [] → Forall spec_ok sps → (7 * length sps < f)%nat → ∃ p' k' a',
  cli_loop f CLI_PARSE_STATE_SOCKET_BEGIN (st p k a cs (flat_map spec_args sps)) = Some (Returns tt, st p' k' a' (rev (spec_config <$> sps) ++ cs) []).
Proof.
  intros Hne Hok. revert p k a cs f Hne. induction Hok as [|sp sps Hsp Hok IH]; intros p k a cs f Hne Hf; [done|]. cbn [flat_map fmap list_fmap rev length] in *.
  replace f with (7 + (f - 7))%nat by lia. destruct (one_socket sp p k a cs (flat_map spec_args sps) (f - 7) Hsp (spec_args_start sps)) as (f' & Hle & ->).
  destruct sps as [|sp' sps]; [destruct f' as [|f']; [simpl in Hf; lia|]; by eexists _, _, _|].
  destruct (IH (sp_pfx sp || p) (sp_spki sp || k) (sp_aspa sp || a) (spec_config sp :: cs) f') as (p' & k' & a' & Heq); [done|lia|].
  exists p', k', a'. rewrite <- (assoc_L (++)). exact Heq.
Qed.

(** C28: A command line that describes a list of sockets is parsed to exactly these sockets
    in their order, TCP and SSH, with what is printed for them and their local addresses,
    for SSH with a key or a password and with or without the key of the host, and nothing
    is printed.  The descriptions use all options of a socket but [-r], which asks for a
    key and is not parsed so. *)
Theorem cli_roundtrip sps : Forall spec_ok sps → ∃ g, parse_cli (flat_map spec_args sps) initial_client = Some (Returns tt, g) ∧
  rev (configs g) = spec_config <$> sps ∧ args g = [] ∧ printed g = [] ∧ print_all_pfx_updates g = false ∧ export_pfx g = false.
Proof.
  intros Hok. destruct sps as [|sp sps]; [by eexists|].
  set (argv := flat_map spec_args (sp :: sps)). assert (argv = codes (if sp_ssh sp then "ssh" else "tcp") :: tail argv) as Hargv by done.
  assert (7 * length (sp :: sps) < 4 * length argv + 3)%nat as Hfuel.
  { unfold argv. generalize (sp :: sps). clear. intros sps. induction sps as [|sp sps IH]; [simpl; lia|]. cbn [flat_map]. rewrite length_app. unfold spec_args at 1.
    rewrite !length_app. simpl in *. lia. }
  destruct (all_sockets (sp :: sps) false false false [] (4 + 4 * length argv) ltac:(done) Hok ltac:(lia)) as (p & k & a & Heq).
  exists (st p k a (rev (spec_config <$> sp :: sps) ++ []) []). split; [|split; [|done]; cbn [configs st]; by rewrite app_nil_r, rev_involutive].
  rewrite <- Heq. unfold parse_cli, modify, mbind, Cli_bind. change (cli_fuel argv) with (4 * length argv + 6)%nat.
  replace (4 * length argv + 6)%nat with (S (S (4 + 4 * length argv))) by lia. rewrite (loop_step _ _ _ CLI_PARSE_STATE_GLOBAL_OPTS (st false false false [] argv)) by done.
  rewrite Hargv at 1. cbv iota. rewrite (loop_step _ _ _ CLI_PARSE_STATE_SOCKET_BEGIN (st false false false [] argv)); [by rewrite Hargv at 1|done|].
  rewrite Hargv. by destruct (sp_ssh sp).
Qed.

End Complete.

(** ** Instances *)

(** Every name has addresses; the files are those whose name contains an underscore. *)
Definition sample_system : System :=
  {| getaddrinfo_ok := λ _, true; access_ok := λ a, bool_decide (95 ∈ a); is_regular := λ a, if bool_decide (95 ∈ a) then Some true else None |}.

Definition sample_specs : list socket_spec :=
  [SocketSpec true false false None (codes "cache.example.net") (codes "8282") None;
   SocketSpec false true false (Some (codes "::1")) (codes "cache2.example.net") (codes "22") (Some (SshSpec (codes "rtr") (inl (codes "id_rsa")) None));
   SocketSpec false false false None (codes "cache3.example.net") (codes "22") (Some (SshSpec (codes "rtr") (inr (codes "secret")) (Some (codes "known_hosts"))))].

Definition sample_argv : list str :=
  codes <$> ["tcp"; "-p"; "cache.example.net"; "8282"; "ssh"; "-k"; "-b"; "::1"; "cache2.example.net"; "22"; "rtr"; "id_rsa";
             "ssh"; "-w"; "cache3.example.net"; "22"; "rtr"; "secret"; "known_hosts"].

Lemma sample_specs_ok : Forall (spec_ok (H := sample_system)) sample_specs.
Proof.
  by repeat constructor; vm_compute.
Qed.

Lemma cli_roundtrip_witness : ∃ g, parse_cli (H := sample_system) sample_argv initial_client = Some (Returns tt, g) ∧ length (configs g) = 3%nat ∧
  activate_pfx_update_cb g = true ∧ activate_aspa_update_cb g = false.
Proof.
  destruct (cli_roundtrip (H := sample_system) sample_specs sample_specs_ok) as (g & Hg & _). exists g. split; [exact Hg|].
  vm_compute in Hg. injection Hg as <-. done.
Defined.

Lemma cli_sockets_complete_witness :
  runs (parse_cli (H := sample_system) (codes <$> ["-a"; "tcp"; "cache.example.net"; "0323"])) (λ _ g, acts g ∧ Forall (config_ok (H := sample_system)) (configs g) ∧
    length (configs g) = 1%nat ∧ activate_aspa_update_cb g = true) initial_client.
Proof.
  destruct (cli_sockets_complete (H := sample_system) (codes <$> ["-a"; "tcp"; "cache.example.net"; "0323"])) as (o & g & Hg & Ho);
    [repeat constructor; vm_compute; intros Hn; by (discriminate Hn || eexists)|].
  exists o, g. split; [exact Hg|]. destruct o as [|[]]; [done|]. destruct Ho as (Ha & Hok & _). split; [exact Ha|]. split; [exact Hok|].
  vm_compute in Hg. injection Hg as <-. done.
Defined.

(** ** Limits *)

(** The option that asks for a key makes the tool use the name of the file as a password. *)
Lemma forced_key_is_password :
  (λ '(_, g), (λ c, (force_key c, ssh_private_key c, ssh_password c)) <$> configs g) <$>
    parse_cli (H := sample_system) (codes <$> ["ssh"; "-r"; "cache.example.net"; "22"; "rtr"; "id_rsa"]) initial_client =
  Some [(true, None, Some (codes "id_rsa"))].
Proof. by vm_compute. Qed.

(** A port that an [int] cannot represent is undefined, and the empty text is a socket type. *)
Lemma large_port_undefined : parse_cli (H := sample_system) (codes <$> ["tcp"; "cache.example.net"; "4294967618"]) initial_client = None.
Proof. by vm_compute. Qed.
Lemma empty_socket_type : (λ '(_, g), type <$> configs g) <$> parse_cli (H := sample_system) [[]; codes "cache.example.net"; codes "323"] initial_client = Some [SOCKET_TYPE_TCP].
Proof. by vm_compute. Qed.
