(* ===== verification/TommyArray.v ===== *)
(** * The growing array: [third-party/tommyds/tommyarray.c]

    The array of [rtrclient] for the records it exports.  It grows by segments, each as
    large as all before it, so that elements stay where they are.  A pointer is the
    object it was made from and an offset, which may be negative while nothing is read
    there; an object is the list of its cells, named after the bit it was allocated for. *)

From S2P Require Import Prelude Hashlin.

Definition TOMMY_ARRAY_BIT : Z := 6.
Definition TOMMY_ARRAY_BIT_MAX : Z := 32.

(** [__builtin_clz(value) ^ 31], for a value that is not 0. *)
Definition tommy_ilog2_u32 (value : Z) : Z := Z.lxor (31 - Z.log2 value) 31.

(** A position that [array_bucket] lacks is a null pointer or was never written. *)
Record tommy_array (A : Type) := Array {
  segments : gmap Z (list (option A));
  array_bucket : gmap Z (Z * Z);
  array_bit : Z;
  array_max : Z;
  array_count : Z }.
Arguments Array {A} _ _ _ _ _.
Arguments segments {A} _.
Arguments array_bucket {A} _.
Arguments array_bit {A} _.
Arguments array_max {A} _.
Arguments array_count {A} _.

Section Array.
Context `{Build} {E A : Type}.
Implicit Types (a : tommy_array A) (segs : gmap Z (list (option A))).

Definition null_cells (n : Z) : list (option A) := replicate (Z.to_nat n) None.

Definition tommy_array_init : M E (tommy_array A) :=
  bucket_max ← of_option (shl1 TOMMY_ARRAY_BIT);
  ok ← alloc;
  mret (if ok : bool
        then Array {[0 := null_cells bucket_max]} (list_to_map ((λ i, (i, (0, 0))) <$> seqZ 0 TOMMY_ARRAY_BIT)) TOMMY_ARRAY_BIT bucket_max 0
        else Array ∅ ∅ TOMMY_ARRAY_BIT bucket_max 0).

(** [free]: nothing for a null pointer, otherwise an object from its first cell on. *)
Definition tommy_free (p : option (Z * Z)) segs : option (gmap Z (list (option A))) :=
  match p with
  | None => Some segs
  | Some (id, offset) => if offset =? 0 then _ ← segs !! id; Some (delete id segs) else None
  end.

Fixpoint done_loop (bits : list Z) a segs : option (gmap Z (list (option A))) :=
  match bits with
  | [] => Some segs
  | i :: bits =>
      '(id, offset) ← array_bucket a !! i;
      segs ← tommy_free (Some (id, offset + Z.shiftl 1 i)) segs;
      done_loop bits a segs
  end.

(** The objects that are left. *)
Definition tommy_array_done a : option (gmap Z (list (option A))) :=
  segs ← tommy_free (array_bucket a !! 0) (segments a);
  done_loop (seqZ TOMMY_ARRAY_BIT (array_bit a - TOMMY_ARRAY_BIT)) a segs.

(** To move a null pointer, and to write behind the pointers, is undefined. *)
Fixpoint array_grow_loop (fuel : nat) a (count : Z) : M E (tommy_array A) :=
  match fuel with
  | O => of_option None
  | S fuel =>
      if array_max a <? count then
        ok ← alloc;
        if negb ok || (TOMMY_ARRAY_BIT_MAX <=? array_bit a) then of_option None
        else
          let segment := array_bit a in
          let bucket_bit := array_bit a + 1 in
          bucket_max ← of_option (shl1 bucket_bit);
          array_grow_loop fuel (Array (<[segment := null_cells (array_max a)]> (segments a)) (<[array_bit a := (segment, - array_max a)]> (array_bucket a))
            bucket_bit bucket_max (array_count a)) count
      else mret a
  end.

Definition tommy_array_grow a (count : Z) : M E (tommy_array A) :=
  if count <=? array_count a then mret a
  else array_grow_loop 32 (Array (segments a) (array_bucket a) (array_bit a) (array_max a) count) count.

Definition tommy_array_ref a (pos : Z) : option (Z * Z) :=
  _ ← assert_ (pos <? array_count a);
  let bsr := tommy_ilog2_u32 (Z.lor pos 1) in
  '(id, offset) ← array_bucket a !! bsr;
  Some (id, offset + pos).

Definition tommy_array_set a (pos : Z) (element : A) : option (tommy_array A) :=
  '(id, offset) ← tommy_array_ref a pos;
  cells ← segments a !! id;
  if (0 <=? offset) && (offset <? Z.of_nat (length cells)) then
    Some (Array (<[id := <[Z.to_nat offset := Some element]> cells]> (segments a)) (array_bucket a) (array_bit a) (array_max a) (array_count a))
  else None.

(** The element, which may be a null pointer. *)
Definition tommy_array_get a (pos : Z) : option (option A) :=
  '(id, offset) ← tommy_array_ref a pos;
  cells ← segments a !! id;
  if 0 <=? offset then cells !! Z.to_nat offset else None.

Definition tommy_array_insert a (element : A) : M E (tommy_array A) :=
  let pos := array_count a in
  a ← tommy_array_grow a (u32 (pos + 1));
  of_option (tommy_array_set a pos element).

Definition tommy_array_size a : Z := array_count a.
End Array.
