(* ===== verification/TommyArrayProofs.v ===== *)
(** * The growing array refines a list *)

From S2P Require Import Prelude Hashlin TommyArray.

Lemma tommy_ilog2_u32_spec value : 0 < value < 2 ^ 32 → tommy_ilog2_u32 value = Z.log2 value.
Proof.
  intros Hv. unfold tommy_ilog2_u32. assert (0 <= Z.log2 value < 32) as Hl by (split; [apply Z.log2_nonneg|apply Z.log2_lt_pow2; lia]).
  revert Hl. generalize (Z.log2 value) as n. intros n Hn.
  assert (Forall (λ n, Z.lxor (31 - n) 31 = n) (seqZ 0 32)) as Hall by decided. rewrite Forall_forall in Hall. apply Hall. by apply elem_of_seqZ.
Qed.

(** ** Where an element lies *)

Definition segment_of (i : Z) : Z := if i <? TOMMY_ARRAY_BIT then 0 else i.
Definition segment_start (id : Z) : Z := if id =? 0 then 0 else 2 ^ id.
Definition segment_size (id : Z) : Z := if id =? 0 then 64 else 2 ^ id.

Lemma segment_cases i : 0 <= i → i < 6 ∧ segment_of i = 0 ∨ 6 <= i ∧ segment_of i = i.
Proof. unfold segment_of, TOMMY_ARRAY_BIT. destruct (Z.ltb_spec i 6); lia. Qed.

(** The segment of a position has room for it. *)
Lemma position_in_segment pos : 0 <= pos →
  let id := segment_of (Z.log2 pos) in 0 <= pos - segment_start id < segment_size id.
Proof.
  intros Hp id. pose proof (Z.log2_nonneg pos). destruct (segment_cases (Z.log2 pos)) as [[Hi Hs]|[Hi Hs]]; [done|..]; subst id; rewrite Hs; unfold segment_start, segment_size.
  - simpl. split; [lia|]. destruct (Z.eq_dec pos 0) as [->|]; [done|]. rewrite Z.sub_0_r. apply (Z.log2_lt_pow2 pos 6); lia.
  - rewrite (proj2 (Z.eqb_neq _ _)) by lia. assert (0 < pos) by (destruct (Z.eq_dec pos 0) as [->|]; [done|lia]).
    destruct (Z.log2_spec pos) as [? Hlt]; [done|]. rewrite Z.pow_succ_r in Hlt by done. lia.
Qed.

Lemma position_bit pos bit : 6 <= bit → 0 <= pos < 2 ^ bit → 0 <= Z.log2 pos < bit.
Proof. intros Hb Hp. split; [apply Z.log2_nonneg|]. destruct (Z.eq_dec pos 0) as [->|]; [simpl; lia|]. apply Z.log2_lt_pow2; lia. Qed.

Section Array.
Context `{Build} {E A : Type}.
Implicit Types (a : tommy_array A) (l : list A) (w : world E).

(** The cell of a position. *)
Definition cell (segs : gmap Z (list (option A))) (pos : Z) : option (option A) :=
  let id := segment_of (Z.log2 pos) in cells ← segs !! id; cells !! Z.to_nat (pos - segment_start id).

(** ** The invariant *)

Record array_mem a : Prop := {
  mem_bit : 6 <= array_bit a <= 30;
  mem_max : array_max a = 2 ^ array_bit a;
  mem_bucket : ∀ i, 0 <= i < array_bit a → array_bucket a !! i = Some (segment_of i, - segment_start (segment_of i));
  mem_live : ∀ id, is_Some (segments a !! id) ↔ id = 0 ∨ 6 <= id < array_bit a;
  mem_size : ∀ id cells, segments a !! id = Some cells → Z.of_nat (length cells) = segment_size id }.

Definition is_array a l : Prop :=
  array_mem a ∧ array_count a = Z.of_nat (length l) ∧ array_count a <= array_max a ∧
  ∀ k x, l !! k = Some x → cell (segments a) (Z.of_nat k) = Some (Some x).

Lemma array_ref_spec a pos : array_mem a → 0 <= pos < array_count a → array_count a <= array_max a →
  let id := segment_of (Z.log2 pos) in tommy_array_ref a pos = Some (id, pos - segment_start id) ∧
  ∃ cells, segments a !! id = Some cells ∧ pos - segment_start id < Z.of_nat (length cells).
Proof.
  intros Hm Hp Hc id. pose proof (mem_bit _ Hm). rewrite (mem_max _ Hm) in Hc. pose proof (Z.pow_le_mono_r 2 (array_bit a) 30).
  destruct (position_bit pos (array_bit a)) as [Hi Hi']; [lia..|]. split.
  - unfold tommy_array_ref. rewrite assert_true by (apply Z.ltb_lt; lia). cbn [mbind option_bind]. assert (Z.log2 (Z.lor pos 1) = Z.log2 pos) as Hl.
    { rewrite Z.log2_lor by lia. simpl. lia. }
    assert (0 < Z.lor pos 1 < 2 ^ 32) as Hr.
    { assert (0 <= Z.lor pos 1) by (apply Z.lor_nonneg; lia). assert (Z.lor pos 1 ≠ 0) by (rewrite Z.lor_eq_0_iff; lia).
      split; [lia|]. apply Z.log2_lt_pow2; [lia|]. lia. }
    rewrite tommy_ilog2_u32_spec, Hl, (mem_bucket _ Hm) by done. cbn [mbind option_bind]. do 2 f_equal. unfold id. lia.
  - destruct (proj2 (mem_live _ Hm id)) as [cells Hcells]; [destruct (segment_cases (Z.log2 pos)) as [[? ?]|[? ?]]; [done|left; done|right; unfold id; lia]|].
    exists cells. split; [done|]. rewrite (mem_size _ Hm _ _ Hcells). apply position_in_segment; lia.
Qed.

(** ** Operations *)

Lemma array_get_spec a l k x : is_array a l → l !! k = Some x → tommy_array_get a (Z.of_nat k) = Some (Some x).
Proof.
  intros (Hm & Hc & Hmax & Hcell) Hx. pose proof (lookup_lt_Some _ _ _ Hx). specialize (Hcell _ _ Hx). unfold cell in Hcell.
  destruct (array_ref_spec a (Z.of_nat k) Hm) as (Href & cells & Hs & _); [lia..|]. unfold tommy_array_get. rewrite Href. cbn [mbind option_bind].
  rewrite Hs in *. cbn [mbind option_bind] in *. rewrite (proj2 (Z.leb_le _ _)) by (apply position_in_segment; lia). done.
Qed.

(** Different positions have different cells. *)
Lemma cell_insert segs pos pos' x cells : 0 <= pos → 0 <= pos' → let id := segment_of (Z.log2 pos) in
  segs !! id = Some cells → pos - segment_start id < Z.of_nat (length cells) →
  cell (<[id := <[Z.to_nat (pos - segment_start id) := Some x]> cells]> segs) pos' = if pos' =? pos then Some (Some x) else cell segs pos'.
Proof.
  intros Hp Hp' id Hs Hlt. assert (segment_of (Z.log2 pos) = id) as Hid by done. pose proof (proj1 (position_in_segment pos Hp)) as H1. pose proof (proj1 (position_in_segment pos' Hp')) as H2. fold id in H1. clearbody id. unfold cell. destruct (Z.eqb_spec pos' pos) as [->|Hne].
  - rewrite Hid, lookup_insert_eq. cbn [mbind option_bind]. apply list_lookup_insert_eq. lia.
  - destruct (Z.eq_dec (segment_of (Z.log2 pos')) id) as [Heq|Hne'].
    + rewrite Heq in *. rewrite lookup_insert_eq, Hs. cbn [mbind option_bind]. apply list_lookup_insert_ne. lia.
    + by rewrite lookup_insert_ne.
Qed.

Lemma array_set_spec a pos x : array_mem a → 0 <= pos < array_count a → array_count a <= array_max a →
  ∃ a', tommy_array_set a pos x = Some a' ∧ array_mem a' ∧ array_count a' = array_count a ∧ array_max a' = array_max a ∧
  ∀ pos', 0 <= pos' → cell (segments a') pos' = if pos' =? pos then Some (Some x) else cell (segments a) pos'.
Proof.
  intros Hm Hp Hc. destruct (array_ref_spec a pos Hm Hp Hc) as (Href & cells & Hs & Hlt). unfold tommy_array_set. rewrite Href. cbn [mbind option_bind]. rewrite Hs. cbn [mbind option_bind].
  rewrite (proj2 (Z.leb_le _ _)), (proj2 (Z.ltb_lt _ _)) by (first [done|apply position_in_segment; lia]). eexists. split; [reflexivity|].
  split_and!; [|done|done|]; [|intros pos' Hp'; apply cell_insert; by first [done|lia]]. destruct Hm as [Hb Hmx Hbu Hli Hsi]. split; try done.
  - intros id. simpl. rewrite <- Hli. destruct (decide (id = segment_of (Z.log2 pos))) as [->|]; [|by rewrite lookup_insert_ne]. rewrite lookup_insert_eq, Hs. by split; eexists.
  - intros id cells'. simpl. destruct (decide (id = segment_of (Z.log2 pos))) as [->|]; [|rewrite lookup_insert_ne by done; apply Hsi].
    rewrite lookup_insert_eq. intros [= <-]. rewrite length_insert. by apply Hsi.
Qed.

Lemma null_cells_length n : 0 <= n → Z.of_nat (length (null_cells (A := A) n)) = n.
Proof. intros Hn. unfold null_cells. rewrite length_replicate. lia. Qed.

Lemma array_init_spec w : no_fail w → wp tommy_array_init (λ a w', emits w [] w' ∧ is_array a []) w.
Proof.
  intros Hnf. unfold tommy_array_init. wp_step. eapply (wp_of_option _ 64); [done|]. wp_step. apply wp_alloc. intros ok w1 Hw1 Hal. destruct ok; [|by destruct (Hal eq_refl)].
  wp_step. split; [done|]. split_and!; [|done|by vm_compute|done]. unfold TOMMY_ARRAY_BIT. split; cbn [array_bit array_max array_bucket segments]; [lia|done|..].
  - intros i Hi. assert (Forall (λ i, list_to_map (M := gmap Z (Z * Z)) ((λ i, (i, (0, 0))) <$> seqZ 0 6) !! i =
      Some (segment_of i, - segment_start (segment_of i))) (seqZ 0 6)) as Hall by decided. rewrite Forall_forall in Hall. apply Hall. by apply elem_of_seqZ.
  - intros id. rewrite lookup_singleton_is_Some. lia.
  - intros id cells [<- <-]%lookup_singleton_Some. by rewrite null_cells_length.
Qed.

(** One more segment. *)
Lemma array_mem_grow a : array_mem a → array_bit a < 30 →
  let a' := Array (<[array_bit a := null_cells (array_max a)]> (segments a)) (<[array_bit a := (array_bit a, - array_max a)]> (array_bucket a))
    (array_bit a + 1) (2 ^ (array_bit a + 1)) (array_count a) in
  array_mem a' ∧ ∀ pos x, cell (segments a) pos = Some x → cell (segments a') pos = Some x.
Proof.
  intros [Hb Hmx Hbu Hli Hsi] Hlt a'. assert (segments a !! array_bit a = None) as Hnew by (apply eq_None_not_Some; rewrite Hli; lia).
  split; [split; simpl; [lia|done|..]|].
  - intros i Hi. destruct (decide (i = array_bit a)) as [->|]; [|rewrite lookup_insert_ne by done; apply Hbu; lia].
    rewrite lookup_insert_eq. destruct (segment_cases (array_bit a)) as [[? ?]|[_ ->]]; [lia..|]. unfold segment_start. rewrite (proj2 (Z.eqb_neq _ _)) by lia. by rewrite Hmx.
  - intros id. destruct (decide (id = array_bit a)) as [->|]; [rewrite lookup_insert_eq; split; [lia|by eexists]|]. rewrite lookup_insert_ne, Hli by done. lia.
  - intros id cells. destruct (decide (id = array_bit a)) as [->|]; [|rewrite lookup_insert_ne by done; apply Hsi].
    rewrite lookup_insert_eq. intros [= <-]. rewrite null_cells_length, Hmx by (rewrite Hmx; apply Z.pow_nonneg; lia).
    unfold segment_size. by rewrite (proj2 (Z.eqb_neq _ _)) by lia.
  - intros pos x. unfold cell. simpl. destruct (decide (segment_of (Z.log2 pos) = array_bit a)) as [->|]; [by rewrite Hnew|]. by rewrite lookup_insert_ne.
Qed.

Lemma array_grow_loop_spec fuel a count w : array_mem a → no_fail w → count <= 2 ^ 30 → 30 - array_bit a < Z.of_nat fuel →
  wp (array_grow_loop fuel a count) (λ a' w', emits w [] w' ∧ array_mem a' ∧ count <= array_max a' ∧ array_count a' = array_count a ∧
    ∀ pos x, cell (segments a) pos = Some x → cell (segments a') pos = Some x) w.
Proof.
  revert a w. induction fuel as [|fuel IH]; intros a w Hm Hnf Hc Hf; [pose proof (mem_bit _ Hm); lia|]. cbn [array_grow_loop]. destruct (Z.ltb_spec (array_max a) count) as [Hlt|Hge].
  - assert (array_bit a < 30) as Hb by (apply (Z.pow_lt_mono_r_iff 2); [lia..|]; rewrite <- (mem_max _ Hm); lia). pose proof (mem_bit _ Hm).
    wp_step. apply wp_alloc. intros ok w1 Hw1 Hal. destruct ok; [|by destruct (Hal eq_refl)]. unfold TOMMY_ARRAY_BIT_MAX. rewrite (proj2 (Z.leb_gt _ _)) by lia. cbn [negb orb].
    wp_step. apply (wp_of_option _ (2 ^ (array_bit a + 1))).
    { unfold shl1. rewrite (proj2 (Z.leb_le _ _)), (proj2 (Z.ltb_lt _ _)) by lia. by rewrite Z.shiftl_1_l. }
    destruct (array_mem_grow a Hm Hb) as [Hm' Hcell]. eapply wp_mono; [apply IH; [exact Hm'|by eapply emits_no_fail|done|simpl; lia]|].
    intros a' w2 (Hw2 & Hm2 & Hmax & Hcount & Hcells). split_and!; try done; [by eapply emits_quiet|]. intros pos x Hx. by apply Hcells, Hcell.
  - wp_step. split_and!; try done. apply emits_refl.
Qed.

(** To insert an element appends it, up to [2 ^ 30] elements. *)
Lemma array_insert_spec a l x w : is_array a l → Z.of_nat (length l) < 2 ^ 30 → no_fail w →
  wp (tommy_array_insert a x) (λ a' w', emits w [] w' ∧ is_array a' (l ++ [x])) w.
Proof.
  intros (Hm & Hc & Hmax & Hcell) Hl Hnf. unfold tommy_array_insert. rewrite Hc. rewrite u32_small by lia. unfold tommy_array_grow. rewrite (proj2 (Z.leb_gt _ _)) by lia.
  wp_step. eapply wp_mono; [apply array_grow_loop_spec; [|done|lia|]|].
  - destruct Hm as [Hb Hmx Hbu Hli Hsi]. by split.
  - simpl. pose proof (mem_bit _ Hm). lia.
  - cbn [array_count segments]. intros a1 w1 (Hw1 & Hm1 & Hmax1 & Hc1 & Hcell1). destruct (array_set_spec a1 (Z.of_nat (length l)) x Hm1) as (a2 & Hset & Hm2 & Hc2 & Hmax2 & Hcell2); [lia..|].
    eapply wp_of_option; [exact Hset|]. split; [done|]. split_and!; [done|rewrite length_app; simpl; lia|lia|]. intros k y Hy. rewrite Hcell2 by lia.
    apply lookup_snoc_Some in Hy as [[Hk Hy]|[-> ->]]; [|by rewrite Z.eqb_refl]. rewrite (proj2 (Z.eqb_neq _ _)) by lia. by apply Hcell1, Hcell.
Qed.

(** Every segment is freed once, and none is left. *)
Lemma array_done_spec a : array_mem a → tommy_array_done a = Some ∅.
Proof.
  intros [Hb Hmx Hbu Hli Hsi]. unfold tommy_array_done. rewrite Hbu by lia.
  change (tommy_free (Some (segment_of 0, - segment_start (segment_of 0))) (segments a)) with (_ ← segments a !! 0; Some (delete 0 (segments a))).
  destruct (proj2 (Hli 0)) as [c0 ->]; [by left|]. cbn [mbind option_bind].
  assert (∀ n i segs, array_bit a - i = Z.of_nat n → 6 <= i → (∀ id, is_Some (segs !! id) ↔ i <= id < array_bit a) → done_loop (seqZ i (Z.of_nat n)) a segs = Some ∅) as Hloop.
  { induction n as [|n IH]; intros i segs Hn Hi Hs; [simpl; f_equal; apply map_empty; intros id; apply eq_None_not_Some; rewrite Hs; lia|].
    rewrite seqZ_cons by lia. cbn [done_loop]. rewrite Hbu by lia. cbn [mbind option_bind]. destruct (segment_cases i) as [[? ?]|[_ ->]]; [lia..|].
    unfold segment_start, tommy_free. rewrite (proj2 (Z.eqb_neq i 0)), Z.shiftl_1_l, (proj2 (Z.eqb_eq _ _)) by lia. destruct (proj2 (Hs i)) as [c ->]; [lia|]. cbn [mbind option_bind].
    replace (Z.pred (Z.of_nat (S n))) with (Z.of_nat n) by lia. apply IH; [lia..|]. intros id. destruct (decide (id = i)) as [->|].
    - rewrite lookup_delete_eq. split; [by intros [? ?]|lia].
    - rewrite lookup_delete_ne, Hs by done. lia. }
  unfold TOMMY_ARRAY_BIT. rewrite <- (Z2Nat.id (array_bit a - 6)) by lia. apply Hloop; [lia..|]. intros id. destruct (decide (id = 0)) as [->|].
  - rewrite lookup_delete_eq. split; [by intros [? ?]|lia].
  - rewrite lookup_delete_ne, Hli by done. lia.
Qed.
End Array.
