(* ===== verification/Mustach.v ===== *)
(** * Templates: [third-party/mustach/mustach.c]

    A string is the list of its character codes, without the terminating zero.  What is
    written to the file is the last component of a result; errors of the file are left out,
    and memory for partials is taken to be there. *)

From stdpp Require Import strings.
From S2P Require Import Prelude IpText IpTextTheorems Rov.
Open Scope Z_scope.

Definition NAME_LENGTH_MAX : nat := 1024.
Definition DEPTH_MAX : nat := 256.

Definition MUSTACH_OK : Z := 0.
Definition MUSTACH_ERROR_SYSTEM : Z := -1.
Definition MUSTACH_ERROR_UNEXPECTED_END : Z := -2.
Definition MUSTACH_ERROR_EMPTY_TAG : Z := -3.
Definition MUSTACH_ERROR_TAG_TOO_LONG : Z := -4.
Definition MUSTACH_ERROR_BAD_SEPARATORS : Z := -5.
Definition MUSTACH_ERROR_TOO_DEEP : Z := -6.
Definition MUSTACH_ERROR_CLOSING : Z := -7.
Definition MUSTACH_ERROR_BAD_UNESCAPE_TAG : Z := -8.

(** The callbacks, with the closure they change; [None] is undefined behaviour.  [itf_put] has
    what it writes in the middle. *)
Record mustach_itf (S : Type) := MustachItf {
  itf_start : option (S → option (Z * S));
  itf_put : S → list Z → bool → option (Z * list Z * S);
  itf_enter : S → list Z → option (Z * S);
  itf_next : S → option (Z * S);
  itf_leave : S → option S }.
Arguments itf_start {S} _.
Arguments itf_put {S} _ _ _ _.
Arguments itf_enter {S} _ _ _.
Arguments itf_next {S} _ _.
Arguments itf_leave {S} _ _.

(** ** What the code uses of the C library *)

Fixpoint is_prefix (b a : list Z) : bool :=
  match b, a with [], _ => true | d :: b, c :: a => (d =? c) && is_prefix b a | _ :: _, [] => false end.

(** The text before the first occurrence of [b], and the text from there on. *)
Fixpoint strstr (a b : list Z) : option (list Z * list Z) :=
  if is_prefix b a then Some ([], a)
  else match a with [] => None | c :: a => '(before, rest) ← strstr a b; Some (c :: before, rest) end.

Definition trim (a : list Z) : list Z := reverse (skip_space (reverse (skip_space a))).
Fixpoint until_space (a : list Z) : list Z * list Z :=
  match a with c :: a' => if is_space c then ([], a) else let '(t, rest) := until_space a' in (c :: t, rest) | [] => ([], []) end.

(** ** Tags *)

Definition char_brace : Z := 123.
Definition char_unbrace : Z := 125.
Definition char_comment : Z := 33.
Definition char_separators : Z := 61.
Definition char_inverted : Z := 94.
Definition char_section : Z := 35.
Definition char_end : Z := 47.
Definition char_unescaped : Z := 38.
Definition char_partial : Z := 62.
Definition char_colon : Z := 58.

(** The next tag: the text before it, its kind, its text without the kind and without blanks
    at its ends, and what follows it.  A comment and separators keep all of the text.
    [Undefined]: the length is decremented below zero. *)
Inductive scanned :=
  | NoMore
  | Bad (text : list Z) (rc : Z)
  | Found (text : list Z) (c : Z) (name rest : list Z)
  | Undefined.

Definition scan_name (text : list Z) (c : Z) (body rest : list Z) : scanned :=
  let name := trim body in
  if (NAME_LENGTH_MAX <? length name)%nat then Bad text MUSTACH_ERROR_TAG_TOO_LONG else Found text c name rest.

Fixpoint leading_braces (a : list Z) : nat :=
  match a with c :: a => if c =? char_unbrace then S (leading_braces a) else O | [] => O end.

(** A tag with three braces; [braces] is the number of closing braces at the head of [clstr]. *)
Definition scan_unescaped (text body term rest clstr : list Z) : scanned :=
  let braces := leading_braces clstr in
  if (braces <? length clstr)%nat then
    if bool_decide (last body = Some char_unbrace) then scan_name text char_unescaped (tail (take (length body - 1) body)) rest
    else Bad text MUSTACH_ERROR_BAD_UNESCAPE_TAG
  else
    if char_at term braces =? char_unbrace then scan_name text char_unescaped (tail body) (tail rest)
    else Bad text MUSTACH_ERROR_BAD_UNESCAPE_TAG.

Definition scan (template opstr clstr : list Z) : scanned :=
  match strstr template opstr with
  | None => NoMore
  | Some (text, from) =>
      let beg := drop (length opstr) from in
      match strstr beg clstr with
      | None => Bad text MUSTACH_ERROR_UNEXPECTED_END
      | Some (body, term) =>
          let rest := drop (length clstr) term in
          let c := char_at beg 0 in
          if (c =? char_comment) || (c =? char_separators) then Found text c body rest
          else if c =? char_brace then scan_unescaped text body term rest clstr
          else if existsb (Z.eqb c) [char_inverted; char_section; char_end; char_unescaped; char_partial; char_colon] then
            if bool_decide (body = []) then Undefined else scan_name text c (tail body) rest
          else scan_name text c body rest
      end
  end.

(** New separators from the text of a tag. *)
Definition separators (body : list Z) : option (list Z * list Z) :=
  if (length body <? 5)%nat || negb (bool_decide (last body = Some char_separators)) then None
  else
    let '(op, rest) := until_space (take (length body - 2) (tail body)) in
    match skip_space rest with [] => None | cl => Some (op, cl) end.

(** ** Processing *)

Record frame := Frame { f_name : list Z; f_again : list Z; f_emit : bool; f_entered : bool }.

Section Process.
Context {S : Type} (itf : mustach_itf S).

(** The call of [process] for a partial has a stack of its own.  Fuel: an iteration for each
    tag that is met. *)
Fixpoint process (fuel : nat) (template opstr clstr : list Z) (stack : list frame) (emit : bool) (closure : S) (file : list Z) : option (Z * S * list Z) :=
  match fuel with
  | O => None
  | Datatypes.S fuel =>
      let write text := if emit then file ++ text else file in
      match scan template opstr clstr with
      | Undefined => None
      | NoMore => Some (match stack with [] => 0 | _ => MUSTACH_ERROR_UNEXPECTED_END end, closure, write template)
      | Bad text rc => Some (rc, closure, write text)
      | Found text c name template =>
          let file := write text in
          if c =? char_comment then process fuel template opstr clstr stack emit closure file
          else if c =? char_separators then
            match separators name with
            | None => Some (MUSTACH_ERROR_BAD_SEPARATORS, closure, file)
            | Some (opstr, clstr) => process fuel template opstr clstr stack emit closure file
            end
          else if (c =? char_inverted) || (c =? char_section) then
            if (length stack =? DEPTH_MAX)%nat then Some (MUSTACH_ERROR_TOO_DEEP, closure, file)
            else
              '(rc, closure) ← (if emit then itf_enter itf closure name else Some (0, closure));
              if rc <? 0 then Some (rc, closure, file)
              else
                let template := match template with c :: t => if c =? newline then t else template | [] => [] end in
                let stack := Frame name template emit (negb (rc =? 0)) :: stack in
                process fuel template opstr clstr stack (if Bool.eqb (c =? char_section) (rc =? 0) then false else emit) closure file
          else if c =? char_end then
            match stack with
            | [] => Some (MUSTACH_ERROR_CLOSING, closure, file)
            | fr :: below =>
                if bool_decide (f_name fr ≠ name) then Some (MUSTACH_ERROR_CLOSING, closure, file)
                else
                  '(rc, closure) ← (if emit && f_entered fr then itf_next itf closure else Some (0, closure));
                  if rc <? 0 then Some (rc, closure, file)
                  else if negb (rc =? 0) then process fuel (f_again fr) opstr clstr stack emit closure file
                  else
                    closure ← (if f_emit fr && f_entered fr then itf_leave itf closure else Some closure);
                    process fuel template opstr clstr below (f_emit fr) closure file
            end
          else if c =? char_partial then
            if emit then
              '(rc, partial, closure) ← itf_put itf closure name false;
              if rc <? 0 then Some (rc, closure, file)
              else
                '(rc, closure, file) ← process fuel (c_string partial) opstr clstr [] true closure file;
                if rc <? 0 then Some (rc, closure, file) else process fuel template opstr clstr stack emit closure file
            else process fuel template opstr clstr stack emit closure file
          else
            if emit then
              '(rc, text, closure) ← itf_put itf closure name (negb (c =? char_unescaped));
              if rc <? 0 then Some (rc, closure, file ++ text)
              else process fuel template opstr clstr stack emit closure (file ++ text)
            else process fuel template opstr clstr stack emit closure file
      end
  end.

Definition fmustach (fuel : nat) (template : list Z) (closure : S) : option (Z * S * list Z) :=
  '(rc, closure) ← (match itf_start itf with Some start => start closure | None => Some (0, closure) end);
  if rc =? 0 then process fuel template (codes "{{") (codes "}}") [] true closure [] else Some (rc, closure, []).

End Process.
