(* ===== verification/ClientExport.v ===== *)
(** * The tool [rtrclient]: export of prefixes, [tools/rtrclient.c]

    With the hash function of [third-party/tommyds/tommyhash.c], the array of the records
    and the callbacks of the template. *)

From stdpp Require Import strings.
From S2P Require Import Prelude Ip IpText IpTextTheorems PfxTable Hashlin TommyArray Pdu Rov Mustach Client.
Open Scope Z_scope.

(** ** Hashing *)

Definition tommy_rot (x k : Z) : Z := Z.lor (u32 (Z.shiftl x k)) (Z.shiftr x (32 - k)).

Definition tommy_mix (abc : Z * Z * Z) : Z * Z * Z :=
  let '(a, b, c) := abc in
  let a := u32 (a - c) in let a := Z.lxor a (tommy_rot c 4) in let c := u32 (c + b) in
  let b := u32 (b - a) in let b := Z.lxor b (tommy_rot a 6) in let a := u32 (a + c) in
  let c := u32 (c - b) in let c := Z.lxor c (tommy_rot b 8) in let b := u32 (b + a) in
  let a := u32 (a - c) in let a := Z.lxor a (tommy_rot c 16) in let c := u32 (c + b) in
  let b := u32 (b - a) in let b := Z.lxor b (tommy_rot a 19) in let a := u32 (a + c) in
  let c := u32 (c - b) in let c := Z.lxor c (tommy_rot b 4) in let b := u32 (b + a) in
  (a, b, c).

Definition tommy_final (abc : Z * Z * Z) : Z * Z * Z :=
  let '(a, b, c) := abc in
  let c := Z.lxor c b in let c := u32 (c - tommy_rot b 14) in
  let a := Z.lxor a c in let a := u32 (a - tommy_rot c 11) in
  let b := Z.lxor b a in let b := u32 (b - tommy_rot a 25) in
  let c := Z.lxor c b in let c := u32 (c - tommy_rot b 16) in
  let a := Z.lxor a c in let a := u32 (a - tommy_rot c 4) in
  let b := Z.lxor b a in let b := u32 (b - tommy_rot a 14) in
  let c := Z.lxor c b in let c := u32 (c - tommy_rot b 24) in
  (a, b, c).

Definition key_at (key : list Z) (i : nat) : Z := default 0 (key !! i).
Definition tommy_le_uint32_read (key : list Z) (i : nat) : Z :=
  key_at key i + Z.shiftl (key_at key (i + 1)) 8 + Z.shiftl (key_at key (i + 2)) 16 + Z.shiftl (key_at key (i + 3)) 24.

(** The blocks of twelve bytes, while there are more than twelve. *)
Fixpoint hash_blocks (fuel : nat) (key : list Z) (abc : Z * Z * Z) : list Z * (Z * Z * Z) :=
  match fuel with
  | O => (key, abc)
  | S fuel =>
      if (12 <? length key)%nat then
        let '(a, b, c) := abc in
        let a := u32 (a + tommy_le_uint32_read key 0) in
        let b := u32 (b + tommy_le_uint32_read key 4) in
        let c := u32 (c + tommy_le_uint32_read key 8) in
        hash_blocks fuel (drop 12 key) (tommy_mix (a, b, c))
      else (key, abc)
  end.

(** The cases of the [switch], where each falls through to the ones below it. *)
Definition hash_rest (key : list Z) (abc : Z * Z * Z) : Z * Z * Z :=
  let '(a, b, c) := abc in
  let n := length key in
  let byte i shift := if (i <? n)%nat then Z.shiftl (key_at key i) shift else 0 in
  let c := if (n =? 12)%nat then c + tommy_le_uint32_read key 8 else c + byte 10%nat 16 + byte 9%nat 8 + byte 8%nat 0 in
  let b := if (8 <=? n)%nat then b + tommy_le_uint32_read key 4 else b + byte 6%nat 16 + byte 5%nat 8 + byte 4%nat 0 in
  let a := if (4 <=? n)%nat then a + tommy_le_uint32_read key 0 else a + byte 2%nat 16 + byte 1%nat 8 + byte 0%nat 0 in
  (u32 a, u32 b, u32 c).

Definition tommy_hash_u32 (init_val : Z) (key : list Z) : Z :=
  let a := u32 (3735928559 + u32 (Z.of_nat (length key)) + init_val) in
  let '(key, abc) := hash_blocks (length key) key (a, a, a) in
  if (length key =? 0)%nat then abc.2 else (tommy_final (hash_rest key abc)).2.

(** ** Collecting the records *)

Section Exporting.
Context `{Build} `{Host} {E : Type}.
Implicit Types r : rtr_pfx_record.

(** The packed structure: 16 bytes of address, as they are in memory, the rest is zero. *)
Definition packed_ip (ip : rtr_ip_addr) : list Z :=
  match ip with
  | Addr4 a => host_bytes 4 (addr a) ++ repeat 0 12
  | Addr6 a => host_bytes 4 (addr0 a) ++ host_bytes 4 (addr1 a) ++ host_bytes 4 (addr2 a) ++ host_bytes 4 (addr3 a)
  end.
Definition hash_pfx_record r : Z := tommy_hash_u32 0 (packed_ip (rec_prefix r) ++ host_bytes 4 (asn r) ++ [u8 (min_len r); u8 (max_len r)]).

Definition pfx_record_cmp (arg1 arg2 : rtr_pfx_record) : Z :=
  if (asn arg1 =? asn arg2) && (max_len arg1 =? max_len arg2) && (min_len arg1 =? min_len arg2) && rtr_ip_addr_equal (rec_prefix arg1) (rec_prefix arg2) then 0 else 1.

(** The array and the hash table; to copy a record without memory is undefined. *)
Definition pfx_export_cb (pfx_record : rtr_pfx_record) (arg : tommy_array rtr_pfx_record * tommy_hashlin rtr_pfx_record)
  : M E (tommy_array rtr_pfx_record * tommy_hashlin rtr_pfx_record) :=
  let '(roa_array, roa_hashtable) := arg in
  let record_hash := hash_pfx_record pfx_record in
  found ← of_option (tommy_hashlin_search roa_hashtable (λ e, pfx_record_cmp pfx_record e =? 0) record_hash);
  match found with
  | Some _ => mret (roa_array, roa_hashtable)
  | None =>
      ok ← alloc;
      if negb ok then of_option None
      else
        roa_hashtable ← tommy_hashlin_insert roa_hashtable pfx_record record_hash;
        roa_array ← tommy_array_insert roa_array pfx_record;
        mret (roa_array, roa_hashtable)
  end.

(** ** The callbacks of the template *)

Record exporter_state := Exporter { roa_section : bool; current_roa : nat; roas : tommy_array rtr_pfx_record }.

(** [strncmp(word, name, strlen(name)) == 0] for a word of the code. *)
Definition begins (word : string) (name : list Z) : bool := is_prefix name (codes word).

Definition template_enter (st : exporter_state) (name : list Z) : option (Z * exporter_state) :=
  if tommy_array_size (roas st) =? 0 then Some (0, st)
  else if begins "roas" name then Some (1, Exporter true 0 (roas st))
  else Some (if negb (current_roa st =? 0)%nat && bool_decide (name = codes "last") && (Z.of_nat (current_roa st) =? tommy_array_size (roas st) - 1) then 1 else 0, st).

Definition template_leave (st : exporter_state) : option exporter_state := Some (Exporter false (current_roa st) (roas st)).

Definition template_next (st : exporter_state) : option (Z * exporter_state) :=
  let current_roa := S (current_roa st) in
  Some (if tommy_array_size (roas st) <=? Z.of_nat current_roa then 0 else 1, Exporter (roa_section st) current_roa (roas st)).

Definition template_put (st : exporter_state) (name : list Z) (escape : bool) : option (Z * list Z * exporter_state) :=
  if negb (roa_section st) || (length name =? 0)%nat then Some (MUSTACH_ERROR_SYSTEM, [], st)
  else
    element ← tommy_array_get (roas st) (Z.of_nat (current_roa st));
    pfx_record ← element;
    text ← (if begins "prefix" name then (rtr_ip_addr_to_str (rec_prefix pfx_record) INET6_ADDRSTRLEN).2
            else if begins "length" name then Some (print_d (min_len pfx_record))
            else if begins "maxlen" name then Some (print_d (max_len pfx_record))
            else if begins "origin" name then Some (print_d (s32 (asn pfx_record)))
            else Some []);
    Some (MUSTACH_OK, text, st).

Definition template_itf : mustach_itf exporter_state := MustachItf _ None template_put template_enter template_next template_leave.

(** The export after the synchronisation: what is written, and the memory of the array that
    is left.  When the elements and the hash table are freed is not modelled. *)
Definition client_export (fuel : nat) (template : list Z) (t : rtr_pfx_table) : M E (list Z * gmap Z (list (option rtr_pfx_record))) :=
  prefixes ← tommy_array_init;
  prefix_hash ← tommy_hashlin_init;
  '(_, arg) ← rtr_pfx_table_for_each_ipv4_record pfx_export_cb (Some t) (prefixes, prefix_hash);
  '(_, (prefixes, _)) ← rtr_pfx_table_for_each_ipv6_record pfx_export_cb (Some t) arg;
  '(_, _, text) ← of_option (fmustach template_itf fuel template (Exporter false 0 prefixes));
  memory ← of_option (tommy_array_done prefixes);
  mret (text, memory).

End Exporting.

(** ** The templates: [tools/templates.h]

    A single quotation mark stands for a double one, and an exclamation mark for a tab. *)

Definition template_line (s : string) : list Z := (λ c, if c =? 39 then 34 else if c =? 33 then 9 else c) <$> line_of s.
Definition template_of (lines : list string) : list Z := flat_map template_line lines ++ [space].

Definition templates : list (string * list Z) :=
  [("default", template_of ["{{#roas}}"; "{{prefix}}/{{length}}-{{maxlen}} AS {{origin}}"; "{{/roas}}"]);
   ("csv", template_of ["{{#roas}}"; "{{prefix}}, {{length}}, {{maxlen}}, {{origin}}"; "{{/roas}}"]);
   ("csvwithheader", template_of ["prefix, minlen, maxlen, asn"; "{{#roas}}"; "{{prefix}}, {{length}}, {{maxlen}}, {{origin}}"; "{{/roas}}"]);
   ("json", template_of ["["; "{{#roas}}"; "!{"; "!!'prefix': '{{prefix}}',"; "!!'length': '{{length}}',"; "!!'maxlen': '{{maxlen}}',";
      "!!'origin': '{{origin}}'"; "!}{{^last}},{{/last}}"; "{{/roas}}"; "]"])]%string.

Fixpoint find_template (l : list (string * list Z)) (name : list Z) : option (list Z) :=
  match l with (n, t) :: l => if bool_decide (name = codes n) then Some t else find_template l name | [] => None end.

(** The text and whether a zero follows it: the contents of a file are not terminated. *)
Definition get_template `{System} (contents : list Z → option (list Z)) (name : list Z) : Cli (list Z * bool) :=
  match find_template templates name with
  | Some t => mret (t, true)
  | None =>
      if is_readable_file name then
        match contents name with
        | Some t => mret (t, false)
        | None => print_error_exit "Could not read template" None
        end
      else print_error_exit "Template %s not found" (Some name)
  end.
