(* ===== verification/ClientExportTheorems.v ===== *)
(** * The tool [rtrclient]: what an export writes *)

From stdpp Require Import strings.
From S2P Require Import Prelude Ip IpText IpTextTheorems Trie PfxTable PfxTableProofs PfxTableBulk PfxTheorems Hashlin HashlinProofs TommyArray TommyArrayProofs Pdu Rov RovTheorems Mustach Client ClientExport.
Open Scope Z_scope.

(** ** Distinct records *)

(** What is exported of a record. *)
Definition roa_key (r : rtr_pfx_record) : rtr_ip_addr * Z * Z * Z := (rec_prefix r, min_len r, max_len r, asn r).

Lemma pfx_record_cmp_spec r r' : (pfx_record_cmp r r' =? 0) = true ↔ roa_key r = roa_key r'.
Proof.
  unfold pfx_record_cmp, roa_key. rewrite rtr_ip_addr_equal_spec. destruct (Z.eqb_spec (asn r) (asn r')), (Z.eqb_spec (max_len r) (max_len r')),
    (Z.eqb_spec (min_len r) (min_len r')); simpl; try (split; [done|congruence]). case_bool_decide as Hp; simpl; split; try done; congruence.
Qed.

Section Collect.
Context `{Build} `{Host} {E : Type}.
Implicit Types (r : rtr_pfx_record) (array : list rtr_pfx_record) (w : world E).

Lemma hash_roa_key r r' : roa_key r = roa_key r' → hash_pfx_record r = hash_pfx_record r'.
Proof. unfold roa_key, hash_pfx_record. intros [= -> -> -> ->]. done. Qed.

(** The array has the first record of each kind, the hash table the same ones. *)
Definition collected (seen : list rtr_pfx_record) array (h : tommy_hashlin rtr_pfx_record) : Prop :=
  hashlin_ok h ∧ contents h ≡ₚ (λ r, (hash_pfx_record r, r)) <$> array ∧ NoDup (roa_key <$> array) ∧
  (∀ k, k ∈ roa_key <$> array ↔ k ∈ roa_key <$> seen) ∧ (length array <= length seen)%nat.
Definition collects (seen : list rtr_pfx_record) (arg : tommy_array rtr_pfx_record * tommy_hashlin rtr_pfx_record) : Prop :=
  ∃ array, is_array arg.1 array ∧ collected seen array arg.2.

Lemma pfx_export_cb_spec seen r arg w :
  collects seen arg → Z.of_nat (length seen) < 2 ^ 28 → no_fail w →
  wp (pfx_export_cb r arg) (λ arg' w', emits w [] w' ∧ collects (seen ++ [r]) arg') w.
Proof.
  destruct arg as [a h]. intros (array & Ha & Hok & Hc & Hnd & Hk & Hlen) Hsize Hnf. simpl in *. unfold pfx_export_cb.
  destruct (search_spec h (λ e, pfx_record_cmp r e =? 0) (hash_pfx_record r) Hok) as (res & Hs & Hres). wp_step. eapply wp_of_option; [exact Hs|].
  destruct res as [x|].
  - destruct Hres as [Hx Hcmp%pfx_record_cmp_spec]. rewrite Hc in Hx. apply list_elem_of_fmap in Hx as (x' & [= _ <-] & Hx). wp_step. split; [apply emits_refl|].
    exists array. split; [done|]. split_and!; try done; [|rewrite length_app; simpl; lia]. intros k. rewrite Hk, fmap_app, elem_of_app. split; [by left|]. intros [?|Hr]; [done|].
    apply list_elem_of_singleton in Hr as ->. apply Hk. rewrite Hcmp. by apply list_elem_of_fmap_2.
  - assert (roa_key r ∉ roa_key <$> array) as Hnew.
    { intros (x & Hkx & Hx)%list_elem_of_fmap. assert ((hash_pfx_record r, x) ∈ contents h) as Hin.
      { rewrite Hc. apply list_elem_of_fmap. exists x. by rewrite (hash_roa_key r x). }
      apply Hres in Hin. rewrite (proj2 (pfx_record_cmp_spec r x) Hkx) in Hin. done. }
    wp_step. apply wp_alloc. intros ok w1 Hw1 Hal. destruct ok; [|by destruct (Hal eq_refl)]. simpl negb. cbv iota. wp_step.
    assert (length (contents h) = length array) as Hch by (rewrite Hc; apply length_fmap).
    eapply wp_mono; [apply insert_spec; [done|rewrite Hch; lia|by eapply emits_no_fail]|]. intros h' w2 (Hw2 & Hok' & Hc'). wp_step.
    eapply wp_mono; [apply array_insert_spec; [done|lia|eauto with rtr]|]. intros a' w3 (Hw3 & Ha'). wp_step.
    split; [eauto with rtr|]. exists (array ++ [r]). split; [done|]. split_and!; [done| | | |rewrite !length_app; simpl; lia].
    + rewrite Hc', Hc, fmap_app. apply Permutation_cons_append.
    + rewrite fmap_app. apply NoDup_app. split_and!; [done| |apply NoDup_singleton]. intros k Hka ->%list_elem_of_singleton. done.
    + intros k. rewrite !fmap_app, !elem_of_app, Hk. done.
Qed.

Lemma collect_records_spec rs seen arg w :
  collects seen arg → Z.of_nat (length (seen ++ rs)) < 2 ^ 28 → no_fail w →
  wp (for_each_of pfx_export_cb rs arg) (λ arg' w', emits w [] w' ∧ collects (seen ++ rs) arg') w.
Proof.
  revert seen arg w. induction rs as [|r rs IH]; intros seen arg w Hc Hsize Hnf; cbn [for_each_of].
  - wp_step. split; [apply emits_refl|]. by rewrite app_nil_r.
  - rewrite length_app in Hsize. simpl in Hsize. wp_step. eapply wp_mono; [apply pfx_export_cb_spec; [done|lia|done]|]. intros arg1 w1 (Hw1 & Hc1).
    eapply wp_mono; [apply (IH (seen ++ [r])); [done|rewrite !length_app; simpl; lia|by eapply emits_no_fail]|]. intros arg2 w2 (Hw2 & Hc2).
    split; [by eapply emits_quiet|]. by rewrite <- (assoc_L (++)) in Hc2.
Qed.
End Collect.

(** ** Steps of a template *)

Definition op := codes "{{".
Definition cl := codes "}}".
Abbreviation run := (process template_itf).

Section Steps.
Context `{Build}.
Implicit Types (st : exporter_state) (fr : frame) (stack : list frame) (file : list Z).

(** A variable. *)
Definition is_variable (c : Z) : bool :=
  negb ((c =? char_comment) || (c =? char_separators) || (c =? char_inverted) || (c =? char_section) || (c =? char_end) || (c =? char_partial)).

Lemma step_put template text c name rest fuel stack st file value :
  scan template op cl = Found text c name rest → is_variable c = true → (∀ escape, template_put st name escape = Some (MUSTACH_OK, value, st)) →
  run (S fuel) template op cl stack true st file = run fuel rest op cl stack true st (file ++ text ++ value).
Proof.
  intros Hs Hc Hp. cbn [process]. rewrite Hs. unfold is_variable in Hc. rewrite negb_true_iff, !orb_false_iff in Hc. destruct Hc as [[[[[-> ->] ->] ->] ->] ->].
  simpl orb. cbv iota. simpl itf_put. rewrite Hp. cbn [mbind option_bind]. cbv beta iota. change (MUSTACH_OK <? 0) with false. cbv iota. by rewrite (assoc_L (++)).
Qed.

(** A section that is entered, and one that is not and whose text is written. *)
Lemma step_enter template text c name rest fuel stack st st' file (rc : Z) :
  scan template op cl = Found text c name rest → (c = char_section ∧ rc = 1 ∨ c = char_inverted ∧ (rc = 0 ∨ rc = 1)) → (length stack < DEPTH_MAX)%nat →
  template_enter st name = Some (rc, st') →
  let again := match rest with c :: t => if c =? newline then t else rest | [] => [] end in
  run (S fuel) template op cl stack true st file =
  run fuel again op cl (Frame name again true (negb (rc =? 0)) :: stack) (if (c =? char_inverted) && (rc =? 1) then false else true) st' (file ++ text).
Proof.
  intros Hs Hc Hd He again. cbn [process]. rewrite Hs. rewrite (proj2 (Nat.eqb_neq _ _)) by lia. simpl itf_enter. cbv iota.
  destruct Hc as [[-> ->]|[-> [-> | ->]]]; simpl orb; cbv iota; rewrite He; reflexivity.
Qed.

(** A section that is not entered. *)
Lemma step_hide template text name rest fuel stack st st' file :
  scan template op cl = Found text char_section name rest → (length stack < DEPTH_MAX)%nat → template_enter st name = Some (0, st') →
  let again := match rest with c :: t => if c =? newline then t else rest | [] => [] end in
  run (S fuel) template op cl stack true st file = run fuel again op cl (Frame name again true false :: stack) false st' (file ++ text).
Proof. intros Hs Hd He again. cbn [process]. rewrite Hs. rewrite (proj2 (Nat.eqb_neq _ _)) by lia. simpl itf_enter. simpl orb. cbv iota. rewrite He. reflexivity. Qed.

Lemma step_hidden_put template text c name rest fuel stack st file :
  scan template op cl = Found text c name rest → is_variable c = true →
  run (S fuel) template op cl stack false st file = run fuel rest op cl stack false st file.
Proof.
  intros Hs Hc. cbn [process]. rewrite Hs. unfold is_variable in Hc. rewrite negb_true_iff, !orb_false_iff in Hc. destruct Hc as [[[[[-> ->] ->] ->] ->] ->]. done.
Qed.

Lemma step_end_of_hidden template text name rest fuel fr stack st file :
  scan template op cl = Found text char_end name rest → f_name fr = name → f_entered fr = false →
  run (S fuel) template op cl (fr :: stack) false st file = run fuel rest op cl stack (f_emit fr) st file.
Proof. intros Hs Hn He. cbn [process]. rewrite Hs. simpl orb. cbv iota. rewrite bool_decide_eq_false_2 by tauto. rewrite He, andb_false_r. reflexivity. Qed.

Lemma step_hidden_enter template text name rest fuel stack st file :
  scan template op cl = Found text char_inverted name rest → (length stack < DEPTH_MAX)%nat →
  let again := match rest with c :: t => if c =? newline then t else rest | [] => [] end in
  run (S fuel) template op cl stack false st file = run fuel again op cl (Frame name again false false :: stack) false st file.
Proof. intros Hs Hd again. cbn [process]. rewrite Hs. rewrite (proj2 (Nat.eqb_neq _ _)) by lia. reflexivity. Qed.

(** The end of a section whose text was written: it is written again, or left. *)
Lemma step_end_again template text name rest fuel fr stack st st' file :
  scan template op cl = Found text char_end name rest → f_name fr = name → f_entered fr = true → template_next st = Some (1, st') →
  run (S fuel) template op cl (fr :: stack) true st file = run fuel (f_again fr) op cl (fr :: stack) true st' (file ++ text).
Proof. intros Hs Hn He Hx. cbn [process]. rewrite Hs. simpl orb. cbv iota. rewrite bool_decide_eq_false_2 by tauto. rewrite He. simpl andb. simpl itf_next. rewrite Hx. reflexivity. Qed.

Lemma step_end_leave template text name rest fuel fr stack st st' file :
  scan template op cl = Found text char_end name rest → f_name fr = name → f_entered fr = true → f_emit fr = true → template_next st = Some (0, st') →
  run (S fuel) template op cl (fr :: stack) true st file = run fuel rest op cl stack true (Exporter false (current_roa st') (roas st')) (file ++ text).
Proof.
  intros Hs Hn He Hm Hx. cbn [process]. rewrite Hs. simpl orb. cbv iota. rewrite bool_decide_eq_false_2 by tauto. rewrite He. simpl andb. simpl itf_next. rewrite Hx.
  cbn [mbind option_bind]. cbv beta iota. simpl. by rewrite Hm.
Qed.

(** The end of a section that was not entered; nothing was written of an inverted one. *)
Lemma step_end_skip template text name rest fuel fr stack st file :
  scan template op cl = Found text char_end name rest → f_name fr = name → f_entered fr = false →
  run (S fuel) template op cl (fr :: stack) true st file = run fuel rest op cl stack (f_emit fr) st (file ++ text).
Proof.
  intros Hs Hn He. cbn [process]. rewrite Hs. simpl orb. cbv iota. rewrite bool_decide_eq_false_2 by tauto. rewrite He, !andb_false_r. reflexivity.
Qed.

Lemma step_end_hidden template text name rest fuel fr stack st file :
  scan template op cl = Found text char_end name rest → f_name fr = name → f_entered fr = true → f_emit fr = true →
  run (S fuel) template op cl (fr :: stack) false st file = run fuel rest op cl stack true (Exporter false (current_roa st) (roas st)) file.
Proof.
  intros Hs Hn He Hm. cbn [process]. rewrite Hs. simpl orb. cbv iota. rewrite bool_decide_eq_false_2 by tauto. rewrite He, Hm. reflexivity.
Qed.

Lemma step_no_more template fuel st file : scan template op cl = NoMore → run (S fuel) template op cl [] true st file = Some (0, st, file ++ template).
Proof. intros Hs. cbn [process]. by rewrite Hs. Qed.
End Steps.

(** ** The section of the records *)

Section Records.
Context `{Build} (a : tommy_array rtr_pfx_record) (all : list rtr_pfx_record) (Ha : is_array a all) (again close rest pre : list Z) (n : nat) (line : nat → rtr_pfx_record → list Z).
Let fr := Frame (codes "roas") again true true.

(** The text of the section is processed for a record up to the end of the section. *)
Hypothesis body : ∀ k r fuel file, all !! k = Some r → ∃ section, (S k < length all → section = true)%nat ∧
  run (n + fuel) again op cl [fr] true (Exporter true k a) file = run fuel close op cl [fr] true (Exporter section k a) (file ++ line k r).
Hypothesis closes : scan close op cl = Found pre char_end (codes "roas") rest.

Fixpoint lines (k : nat) (rs : list rtr_pfx_record) : list Z :=
  match rs with [] => [] | r :: rs => line k r ++ pre ++ lines (S k) rs end.

Lemma size : tommy_array_size a = Z.of_nat (length all).
Proof. by destruct Ha as (_ & ? & _). Qed.

Lemma section_run rs : ∀ k fuel file, drop k all = rs → rs ≠ [] →
  run (S n * length rs + fuel) again op cl [fr] true (Exporter true k a) file =
  run fuel rest op cl [] true (Exporter false (length all) a) (file ++ lines k rs).
Proof.
  induction rs as [|r rs IH]; intros k fuel file Hd Hne; [done|]. assert (all !! k = Some r) as Hr by (rewrite <- (Nat.add_0_r k), <- lookup_drop, Hd; done).
  assert (length all = k + S (length rs))%nat as Hlen by (apply (f_equal length) in Hd; rewrite length_drop in Hd; simpl in Hd; apply lookup_lt_Some in Hr; lia).
  replace (S n * length (r :: rs) + fuel)%nat with (n + S (S n * length rs + fuel))%nat by (simpl; lia).
  destruct (body k r (S (S n * length rs + fuel)) file Hr) as (section & Hsec & ->). cbn [lines]. destruct rs as [|r' rs].
  - rewrite (step_end_leave _ _ _ _ _ _ _ _ (Exporter section (S k) a) _ closes); [|done..|].
    + cbn [lines length current_roa roas]. simpl in Hlen. rewrite Nat.mul_0_r, app_nil_r, <- (assoc_L (++)). by replace (length all) with (S k) by lia.
    + unfold template_next. cbn [roas current_roa roa_section]. rewrite size, (proj2 (Z.leb_le _ _)) by (simpl in Hlen; lia). done.
  - rewrite (step_end_again _ _ _ _ _ _ _ _ (Exporter section (S k) a) _ closes); [|done..|].
    + rewrite Hsec by (simpl in Hlen; lia). simpl f_again. rewrite IH; [|replace (S k) with (k + 1)%nat by lia; rewrite <- drop_drop, Hd; done|done]. by rewrite <- !(assoc_L (++)).
    + unfold template_next. cbn [roas current_roa roa_section]. rewrite size, (proj2 (Z.leb_gt _ _)) by (simpl in Hlen; lia). done.
Qed.
End Records.

(** The section is entered if there are records. *)
Lemma enter_empty a st : is_array a [] → roas st = a → template_enter st (codes "roas") = Some (0, st).
Proof. intros Ha Hst. unfold template_enter. by rewrite Hst, (size _ _ Ha). Qed.
Lemma enter_roas section a r all : is_array a (r :: all) → template_enter (Exporter section 0 a) (codes "roas") = Some (1, Exporter true 0 a).
Proof. intros Ha. unfold template_enter. cbn [roas]. rewrite (size _ _ Ha). done. Qed.

(** ** Templates with the four variables *)

Lemma ip_text_some ip : (rtr_ip_addr_to_str ip INET6_ADDRSTRLEN).2 = Some (ip_text ip).
Proof.
  unfold ip_text. assert (∃ t, (rtr_ip_addr_to_str ip INET6_ADDRSTRLEN).2 = Some t) as [t ->]; [|done].
  destruct ip as [a|a]; cbn [rtr_ip_addr_to_str]; [by eexists|]. unfold rtr_ipv6_addr_to_str. change (INET6_ADDRSTRLEN <? INET6_ADDRSTRLEN) with false. cbv iota.
  destruct (best_run _ _ _ _ _ _). destruct (_ && _); by eexists.
Qed.

Section Put.
Context `{Build} (a : tommy_array rtr_pfx_record) (all : list rtr_pfx_record) (k : nat) (r : rtr_pfx_record).
Context (Ha : is_array a all) (Hr : all !! k = Some r).
Let st := Exporter true k a.

Ltac put := intros escape; unfold template_put; cbn [roa_section roas current_roa st]; rewrite (array_get_spec _ _ _ _ Ha Hr); cbn [mbind option_bind].

Lemma put_prefix : ∀ escape, template_put st (codes "prefix") escape = Some (MUSTACH_OK, ip_text (rec_prefix r), st).
Proof. put. change (begins "prefix" (codes "prefix")) with true. cbv iota. by rewrite ip_text_some. Qed.
Lemma put_length : ∀ escape, template_put st (codes "length") escape = Some (MUSTACH_OK, print_d (min_len r), st).
Proof. by put. Qed.
Lemma put_maxlen : ∀ escape, template_put st (codes "maxlen") escape = Some (MUSTACH_OK, print_d (max_len r), st).
Proof. by put. Qed.
Lemma put_origin : ∀ escape, template_put st (codes "origin") escape = Some (MUSTACH_OK, print_d (s32 (asn r)), st).
Proof. by put. Qed.
End Put.

(** The texts before the variables and the rest of the template after each. *)
Record variables := Variables { v_texts : list Z * list Z * list Z * list Z; v_rests : list Z * list Z * list Z * list Z }.
Definition has_variables (template : list Z) (v : variables) : Prop :=
  let '(s0, s1, s2, s3) := v_texts v in let '(t1, t2, t3, t4) := v_rests v in
  scan template op cl = Found s0 112 (codes "prefix") t1 ∧ scan t1 op cl = Found s1 108 (codes "length") t2 ∧
  scan t2 op cl = Found s2 109 (codes "maxlen") t3 ∧ scan t3 op cl = Found s3 111 (codes "origin") t4.
Definition v_after (v : variables) : list Z := let '(_, _, _, t4) := v_rests v in t4.
Definition record_text (v : variables) (r : rtr_pfx_record) : list Z :=
  let '(s0, s1, s2, s3) := v_texts v in
  s0 ++ ip_text (rec_prefix r) ++ s1 ++ print_d (min_len r) ++ s2 ++ print_d (max_len r) ++ s3 ++ print_d (s32 (asn r)).

Lemma run_variables `{Build} template v a all k r stack fuel file : has_variables template v → is_array a all → all !! k = Some r →
  run (4 + fuel) template op cl stack true (Exporter true k a) file = run fuel (v_after v) op cl stack true (Exporter true k a) (file ++ record_text v r).
Proof.
  unfold has_variables, v_after, record_text. destruct (v_texts v) as [[[s0 s1] s2] s3], (v_rests v) as [[[t1 t2] t3] t4]. intros (H1 & H2 & H3 & H4) Ha Hr.
  change (4 + fuel)%nat with (S (S (S (S fuel)))). rewrite (step_put _ _ _ _ _ _ _ _ _ _ H1 eq_refl (put_prefix a all k r Ha Hr)).
  rewrite (step_put _ _ _ _ _ _ _ _ _ _ H2 eq_refl (put_length a all k r Ha Hr)), (step_put _ _ _ _ _ _ _ _ _ _ H3 eq_refl (put_maxlen a all k r Ha Hr)),
    (step_put _ _ _ _ _ _ _ _ _ _ H4 eq_refl (put_origin a all k r Ha Hr)). by rewrite <- !(assoc_L (++)).
Qed.

(** The variables of a template, computed. *)
Definition texts_of (template : list Z) : option variables :=
  match scan template op cl with
  | Found s0 _ _ t1 =>
      match scan t1 op cl with
      | Found s1 _ _ t2 =>
          match scan t2 op cl with
          | Found s2 _ _ t3 => match scan t3 op cl with Found s3 _ _ t4 => Some (Variables (s0, s1, s2, s3) (t1, t2, t3, t4)) | _ => None end
          | _ => None
          end
      | _ => None
      end
  | _ => None
  end.

(** A template of a header, a section with the variables, and a rest without tags. *)
Record simple_template := Simple { s_header : list Z; s_again : list Z; s_vars : variables; s_end : list Z; s_rest : list Z }.
Definition simple (template : list Z) (x : simple_template) : Prop :=
  (∃ rest, scan template op cl = Found (s_header x) char_section (codes "roas") rest ∧
     s_again x = match rest with c :: t => if c =? newline then t else rest | [] => [] end) ∧
  has_variables (s_again x) (s_vars x) ∧
  scan (v_after (s_vars x)) op cl = Found (s_end x) char_end (codes "roas") (s_rest x) ∧ scan (s_rest x) op cl = NoMore.

Lemma lines_flat line pre rs k : (∀ k r, line k r = line 0%nat r) → lines pre line k rs = flat_map (λ r, line 0%nat r ++ pre) rs.
Proof. intros Hl. revert k. induction rs as [|r rs IH]; intros k; [done|]. cbn [lines flat_map]. by rewrite Hl, IH, <- (assoc_L (++)). Qed.

(** A section that is not entered is skipped. *)
Lemma skip_variables `{Build} template v stack st fuel file : has_variables template v →
  run (4 + fuel) template op cl stack false st file = run fuel (v_after v) op cl stack false st file.
Proof.
  unfold has_variables, v_after. destruct (v_texts v) as [[[s0 s1] s2] s3], (v_rests v) as [[[t1 t2] t3] t4]. intros (H1 & H2 & H3 & H4).
  change (4 + fuel)%nat with (S (S (S (S fuel)))). rewrite (step_hidden_put _ _ _ _ _ _ _ _ _ H1 eq_refl), (step_hidden_put _ _ _ _ _ _ _ _ _ H2 eq_refl).
  by rewrite (step_hidden_put _ _ _ _ _ _ _ _ _ H3 eq_refl), (step_hidden_put _ _ _ _ _ _ _ _ _ H4 eq_refl).
Qed.

(** Each record gives one line. *)
Lemma simple_run `{Build} template x a all fuel : simple template x → is_array a all → (5 * length all + 8 <= fuel)%nat →
  ∃ st, fmustach template_itf fuel template (Exporter false 0 a) =
    Some (0, st, s_header x ++ flat_map (λ r, record_text (s_vars x) r ++ s_end x) all ++ s_rest x).
Proof.
  intros ((rest & Hs & Hagain) & Hv & Hend & Hno) Ha Hf. unfold fmustach. simpl itf_start. cbn [mbind option_bind]. change (0 =? 0) with true. cbv iota. fold op cl.
  destruct all as [|r all].
  - replace fuel with (S (4 + S (S (fuel - 7)))) by (simpl in Hf; lia). rewrite (step_hide _ _ _ _ _ _ _ (Exporter false 0 a) _ Hs); [|unfold DEPTH_MAX; simpl; lia|by eapply enter_empty].
    rewrite <- Hagain, (skip_variables _ _ _ _ _ _ Hv), (step_end_of_hidden _ _ _ _ _ _ _ _ _ Hend) by done. eexists. by rewrite (step_no_more _ _ _ _ Hno).
  - set (rs := r :: all) in *. replace fuel with (S (5 * length rs + S (fuel - 5 * length rs - 2))) by lia.
    rewrite (step_enter _ _ _ _ _ _ _ _ (Exporter true 0 a) _ 1 Hs); [|by left|unfold DEPTH_MAX; simpl; lia|by eapply enter_roas].
    rewrite <- Hagain. change (negb (1 =? 0)) with true. change (if (char_section =? char_inverted) && (1 =? 1) then false else true) with true.
    rewrite (section_run a rs Ha (s_again x) (v_after (s_vars x)) (s_rest x) (s_end x) 4 (λ _ r, record_text (s_vars x) r)); [|..|done|done|done].
    + eexists. rewrite step_no_more by done. rewrite lines_flat by done. by rewrite <- (assoc_L (++)).
    + intros k r' f file Hr. exists true. split; [done|]. by apply (run_variables _ _ _ rs).
Qed.

(** ** The templates of the tool *)

Definition template_named (name : string) : list Z := default [] (find_template templates (codes name)).

(** With the marks of the templates. *)
Definition quoted (s : string) : list Z := (λ c, if c =? 39 then 34 else if c =? 33 then 9 else if c =? 36 then newline else c) <$> codes s.

(** A line with the four parts of a record; a dollar sign is a newline. *)
Definition record_line (s0 s1 s2 s3 s4 : string) (r : rtr_pfx_record) : list Z :=
  quoted s0 ++ ip_text (rec_prefix r) ++ quoted s1 ++ print_d (min_len r) ++ quoted s2 ++ print_d (max_len r) ++
  quoted s3 ++ print_d (s32 (asn r)) ++ quoted s4.

Definition default_lines (rs : list rtr_pfx_record) : list Z := flat_map (record_line "" "/" "-" " AS " "$") rs ++ quoted "$ ".
Definition csv_lines (rs : list rtr_pfx_record) : list Z := flat_map (record_line "" ", " ", " ", " "$") rs ++ quoted "$ ".

Definition simple_of (template : list Z) : simple_template :=
  match scan template op cl with
  | Found h _ _ rest =>
      let again := match rest with c :: t => if c =? newline then t else rest | [] => [] end in
      match texts_of again with
      | Some v => match scan (v_after v) op cl with Found e _ _ r => Simple h again v e r | _ => Simple [] [] v [] [] end
      | None => Simple [] [] (Variables ([], [], [], []) ([], [], [], [])) [] []
      end
  | _ => Simple [] [] (Variables ([], [], [], []) ([], [], [], [])) [] []
  end.

Lemma simple_default : simple (template_named "default") (simple_of (template_named "default")).
Proof. split; [eexists; split; vm_compute; reflexivity|]. split; [|split; vm_compute; reflexivity]. split_and!; vm_compute; reflexivity. Qed.
Lemma simple_csv : simple (template_named "csv") (simple_of (template_named "csv")).
Proof. split; [eexists; split; vm_compute; reflexivity|]. split; [|split; vm_compute; reflexivity]. split_and!; vm_compute; reflexivity. Qed.
Lemma simple_header : simple (template_named "csvwithheader") (simple_of (template_named "csvwithheader")).
Proof. split; [eexists; split; vm_compute; reflexivity|]. split; [|split; vm_compute; reflexivity]. split_and!; vm_compute; reflexivity. Qed.

(** ** JSON *)

Definition json_start : list Z := quoted "[$".
Definition json_object : rtr_pfx_record → list Z := record_line "!{$!!'prefix': '" "',$!!'length': '" "',$!!'maxlen': '" "',$!!'origin': '" "'$!}".
Definition json_end : list Z := quoted "$]$ ".

(** A comma follows each object but the last one. *)
Definition json_comma (n k : nat) : list Z := if negb (k =? 0)%nat && (k =? n - 1)%nat then [] else quoted ",".
Fixpoint json_objects (n k : nat) (rs : list rtr_pfx_record) : list Z :=
  match rs with [] => [] | r :: rs => json_object r ++ json_comma n k ++ quoted "$" ++ json_objects n (S k) rs end.
Definition json_text (rs : list rtr_pfx_record) : list Z := json_start ++ json_objects (length rs) 0 rs ++ json_end.

Definition rest_of (template : list Z) : list Z := match scan template op cl with Found _ _ _ rest => rest | _ => [] end.
Definition json_again : list Z := tail (rest_of (template_named "json")).
Definition json_vars : variables := default (Variables ([], [], [], []) ([], [], [], [])) (texts_of json_again).
Definition json_inner : list Z := rest_of (v_after json_vars).
Definition json_close : list Z := rest_of json_inner.

Lemma json_scans :
  (∃ rest, scan (template_named "json") op cl = Found json_start char_section (codes "roas") rest ∧
     json_again = match rest with c :: t => if c =? newline then t else rest | [] => [] end) ∧
  has_variables json_again json_vars ∧
  scan (v_after json_vars) op cl = Found (quoted "'$!}") char_inverted (codes "last") json_inner ∧
  json_inner = match json_inner with c :: t => if c =? newline then t else json_inner | [] => [] end ∧
  scan json_inner op cl = Found (quoted ",") char_end (codes "last") json_close ∧
  scan json_close op cl = Found (quoted "$") char_end (codes "roas") json_end ∧ scan json_end op cl = NoMore.
Proof. split; [eexists; split; vm_compute; reflexivity|]. split; [split_and!; vm_compute; reflexivity|]. split_and!; vm_compute; reflexivity. Qed.

Lemma json_record_text r : record_text json_vars r ++ quoted "'$!}" = json_object r.
Proof.
  unfold record_text, json_object, record_line. assert (v_texts json_vars = (quoted "!{$!!'prefix': '", quoted "',$!!'length': '", quoted "',$!!'maxlen': '", quoted "',$!!'origin': '"))
    as -> by (vm_compute; reflexivity). by rewrite <- !(assoc_L (++)).
Qed.

(** The text of one record, with or without a comma. *)
Lemma json_body `{Build} a all stack k r fuel file : (length stack < DEPTH_MAX)%nat → is_array a all → all !! k = Some r → ∃ section, (S k < length all → section = true)%nat ∧
  run (6 + fuel) json_again op cl stack true (Exporter true k a) file =
  run fuel json_close op cl stack true (Exporter section k a) (file ++ json_object r ++ json_comma (length all) k).
Proof.
  intros Hd Ha Hr. destruct json_scans as (_ & Hv & Hlast & Hin & Hend & _). change (6 + fuel)%nat with (4 + S (S fuel))%nat. rewrite (run_variables _ _ _ _ _ _ _ _ _ Hv Ha Hr).
  assert (length all =? 0 = false)%nat as Hl by (apply Nat.eqb_neq; apply lookup_lt_Some in Hr; lia).
  assert (template_enter (Exporter true k a) (codes "last") = Some (if negb (k =? 0)%nat && (k =? length all - 1)%nat then 1 else 0, Exporter true k a)) as He.
  { unfold template_enter. cbn [roas current_roa]. rewrite (size _ _ Ha), (proj2 (Z.eqb_neq _ 0)) by (apply Nat.eqb_neq in Hl; lia). change (begins "roas" (codes "last")) with false. cbv iota.
    rewrite (bool_decide_eq_true_2 (codes "last" = codes "last")), andb_true_r by done. apply Nat.eqb_neq in Hl.
    assert ((Z.of_nat k =? Z.of_nat (length all) - 1) = (k =? length all - 1)%nat) as ->; [|done]. destruct (Nat.eqb_spec k (length all - 1)); [apply Z.eqb_eq|apply Z.eqb_neq]; lia. }
  erewrite (step_enter _ _ _ _ _ _ _ _ _ _ _ Hlast); [|right; split; [done|]|done|exact He]; [|destruct (_ && _); [by right|by left]]. rewrite <- Hin. rewrite <- json_record_text.
  unfold json_comma. destruct (negb (k =? 0)%nat && (k =? length all - 1)%nat) eqn:Hk.
  - exists false. apply andb_true_iff in Hk as [_ Hk%Nat.eqb_eq]. split; [lia|]. rewrite (step_end_hidden _ _ _ _ _ _ _ _ _ Hend) by done. by rewrite app_nil_r, <- (assoc_L (++)).
  - exists true. split; [done|]. rewrite (step_end_skip _ _ _ _ _ _ _ _ _ Hend) by done. by rewrite <- !(assoc_L (++)).
Qed.

Lemma json_run `{Build} a all fuel : is_array a all → (7 * length all + 10 <= fuel)%nat →
  ∃ st, fmustach template_itf fuel (template_named "json") (Exporter false 0 a) = Some (0, st, json_text all).
Proof.
  intros Ha Hf. destruct json_scans as ((rest & Hs & Hagain) & Hv & Hlast & Hin & Hend & Hclose & Hno). unfold fmustach, json_text. simpl itf_start. cbn [mbind option_bind].
  change (0 =? 0) with true. cbv iota. fold op cl. destruct all as [|r all].
  - replace fuel with (S (4 + S (S (S (S (fuel - 9)))))) by (simpl in Hf; lia). rewrite (step_hide _ _ _ _ _ _ _ (Exporter false 0 a) _ Hs); [|unfold DEPTH_MAX; simpl; lia|by eapply enter_empty].
    rewrite <- Hagain, (skip_variables _ _ _ _ _ _ Hv). rewrite (step_hidden_enter _ _ _ _ _ _ _ _ Hlast) by (unfold DEPTH_MAX; simpl; lia). rewrite <- Hin.
    rewrite (step_end_of_hidden _ _ _ _ _ _ _ _ _ Hend) by done. cbn [f_emit]. rewrite (step_end_of_hidden _ _ _ _ _ _ _ _ _ Hclose) by done. eexists.
    by rewrite (step_no_more _ _ _ _ Hno).
  - set (rs := r :: all) in *. replace fuel with (S (7 * length rs + S (fuel - 7 * length rs - 2))) by lia.
    rewrite (step_enter _ _ _ _ _ _ _ _ (Exporter true 0 a) _ 1 Hs); [|by left|unfold DEPTH_MAX; simpl; lia|by eapply enter_roas].
    rewrite <- Hagain. change (negb (1 =? 0)) with true. change (if (char_section =? char_inverted) && (1 =? 1) then false else true) with true.
    rewrite (section_run a rs Ha json_again json_close json_end (quoted "$") 6 (λ k r, json_object r ++ json_comma (length rs) k)); [|..|exact Hclose|done|done].
    + eexists. rewrite (step_no_more _ _ _ _ Hno). rewrite <- (assoc_L (++)). do 3 f_equal.
      assert (∀ k l, lines (quoted "$") (λ k r, json_object r ++ json_comma (length rs) k) k l = json_objects (length rs) k l) as Hj; [|by rewrite Hj].
      intros k l. revert k. induction l as [|r' l IH]; intros k; [done|]. cbn [lines json_objects]. by rewrite IH, <- (assoc_L (++)).
    + intros k r' f file Hr. apply json_body; [unfold DEPTH_MAX; simpl; lia|done|done].
Qed.

(** ** The export *)

Inductive format := Default | Csv | CsvWithHeader | Json.
Definition format_name (f : format) : string := match f with Default => "default" | Csv => "csv" | CsvWithHeader => "csvwithheader" | Json => "json" end.

(** Objects with commas between them; a single one has a comma, too. *)
Fixpoint separated (rs : list rtr_pfx_record) : list Z :=
  match rs with [] => [] | [r] => json_object r ++ quoted "$" | r :: rs => json_object r ++ quoted ",$" ++ separated rs end.
Definition format_text (f : format) (rs : list rtr_pfx_record) : list Z :=
  match f with
  | Default => default_lines rs
  | Csv => csv_lines rs
  | CsvWithHeader => quoted "prefix, minlen, maxlen, asn$" ++ csv_lines rs
  | Json => json_start ++ match rs with [r] => json_object r ++ quoted ",$" | _ => separated rs end ++ json_end
  end.

Lemma json_separated n k rs : (k + length rs = n)%nat → (k ≠ 0 ∨ 2 <= length rs)%nat → json_objects n k rs = separated rs.
Proof.
  revert k. induction rs as [|r rs IH]; intros k Hn Hk; [done|]. simpl in Hn. cbn [json_objects]. unfold json_comma. destruct rs as [|r' rs].
  - simpl in *. rewrite (proj2 (Nat.eqb_neq k 0)), (proj2 (Nat.eqb_eq k (n - 1))) by lia. cbn [negb andb app separated]. by rewrite ?app_nil_r.
  - simpl in Hn. rewrite (proj2 (Nat.eqb_neq k (n - 1))), andb_false_r by lia. rewrite IH; [done|simpl; lia|lia].
Qed.

Lemma simple_lines x s0 s1 s2 s3 s4 rs : v_texts (s_vars x) = (quoted s0, quoted s1, quoted s2, quoted s3) → s_end x = quoted s4 →
  flat_map (λ r, record_text (s_vars x) r ++ s_end x) rs = flat_map (record_line s0 s1 s2 s3 s4) rs.
Proof.
  intros Hv He. apply flat_map_ext. intros r. unfold record_text, record_line. rewrite Hv, He. by rewrite <- !(assoc_L (++)).
Qed.

Lemma format_run `{Build} f a all fuel : is_array a all → (7 * length all + 10 <= fuel)%nat →
  ∃ st, fmustach template_itf fuel (template_named (format_name f)) (Exporter false 0 a) = Some (0, st, format_text f all).
Proof.
  intros Ha Hf. destruct f; cbn [format_name format_text].
  - destruct (simple_run _ _ a all fuel simple_default Ha) as [st ->]; [lia|]. exists st. do 2 f_equal. by rewrite (simple_lines _ "" "/" "-" " AS " "$") by (vm_compute; reflexivity).
  - destruct (simple_run _ _ a all fuel simple_csv Ha) as [st ->]; [lia|]. exists st. do 2 f_equal. by rewrite (simple_lines _ "" ", " ", " ", " "$") by (vm_compute; reflexivity).
  - destruct (simple_run _ _ a all fuel simple_header Ha) as [st ->]; [lia|]. exists st. do 2 f_equal. by rewrite (simple_lines _ "" ", " ", " ", " "$") by (vm_compute; reflexivity).
  - destruct (json_run a all fuel Ha Hf) as [st ->]. exists st. do 2 f_equal. unfold json_text. f_equal. destruct all as [|r [|r' all]]; [done|done|].
    by rewrite json_separated by (simpl; lia).
Qed.

Section ExportTheorems.
Context `{Build} `{Host} {E : Type}.
Implicit Types (t : rtr_pfx_table) (w : world E).

(** One of the enumerations. *)
Lemma wp_each v seen arg t w (Q : rtr_pfx_rtvals * (tommy_array rtr_pfx_record * tommy_hashlin rtr_pfx_record) → world E → Prop) :
  lock t = Unlocked → collects seen arg → Z.of_nat (length (seen ++ tree_records (pfx_table_get_root t v))) < 2 ^ 28 → no_fail w →
  (∀ arg w', emits w [] w' → collects (seen ++ tree_records (pfx_table_get_root t v)) arg → Q (RTR_PFX_SUCCESS, arg) w') →
  wp (pfx_table_for_each_record pfx_export_cb v (Some t) arg) Q w.
Proof.
  intros Hl Hc Hsize Hnf HQ. unfold wp. rewrite for_each_record_of by done. apply wp_bind. eapply wp_mono; [by apply collect_records_spec|]. intros arg' w' [Hw Hc'].
  wp_step. by apply HQ.
Qed.

(** C29: An export with one of the templates of the tool writes one entry for each
    combination of prefix, lengths and AS number in the table, however many caches announce
    it, in the format of the template, frees the array and changes nothing else.  AS numbers are printed as signed
    integers, and a JSON export of a single record has a comma after it. *)
Theorem client_export_correct f t w fuel :
  table_ok t → no_fail w → Z.of_nat (length (records t)) < 2 ^ 28 → (7 * length (records t) + 10 <= fuel)%nat →
  wp (client_export fuel (template_named (format_name f)) t) (λ '(text, memory) w', emits w [] w' ∧ memory = ∅ ∧
    ∃ rs, NoDup (roa_key <$> rs) ∧ (∀ k, k ∈ roa_key <$> rs ↔ k ∈ roa_key <$> records t) ∧ text = format_text f rs) w.
Proof.
  intros Hok Hnf Hsize Hf. pose proof Hok as (_ & _ & Hl). unfold client_export. wp_step. eapply wp_mono; [by apply array_init_spec|]. intros a w0 (Hw0 & Ha).
  wp_step. eapply wp_mono; [apply init_spec; by eapply emits_no_fail|]. intros h w1 (Hw1 & Hh & Hc).
  assert (collects [] (a, h)) as Hcol by (exists []; split; [done|]; split_and!; [done|by simpl; rewrite Hc|constructor|done|done]).
  assert (length (records t) = length (tree_records (ipv4 t)) + length (tree_records (ipv6 t)))%nat as Hlen by apply length_app.
  wp_step. eapply (wp_each RTR_IPV4); [done|done|simpl; lia|eauto with rtr|]. intros arg1 w2 Hw2 Hc1. cbv beta iota. wp_step.
  eapply (wp_each RTR_IPV6); [done|done|simpl; rewrite length_app; simpl; lia|eauto with rtr|]. intros [a2 h2] w3 Hw3 (all & Ha2 & _ & _ & Hnd & Hk & Hle). cbv beta iota.
  destruct (format_run f a2 all fuel Ha2) as [st Hrun].
  { simpl in Hle. unfold records in *. rewrite length_app in *. simpl in *. lia. }
  wp_step. eapply wp_of_option; [exact Hrun|]. wp_step. eapply wp_of_option; [apply array_done_spec, Ha2|]. wp_step. split; [eauto 6 with rtr|]. split; [done|]. by exists all.
Qed.
End ExportTheorems.

(** ** Instances *)

Lemma client_export_correct_witness :
  wp (client_export (H := release_build) (H0 := little_endian_host) 31 (template_named "default") sample_table) (λ '(text, _) w', emits empty_world [] w' ∧
    text = quoted "10.1.0.0/16-24 AS 64497$10.0.0.0/8-16 AS 64496$2001:db8::/32-48 AS 64498$$ ") empty_world.
Proof.
  destruct (client_export_correct (H := release_build) (H0 := little_endian_host) Default sample_table empty_world 31) as ([text memory] & w' & Hr & Hw & _);
    [decided|by constructor|done|vm_compute; lia|].
  exists (text, memory), w'. split; [exact Hr|]. split; [exact Hw|]. vm_compute in Hr. by injection Hr as <- _ _.
Defined.

(** ** Limits *)

(** What a template writes for some records, and what it returns. *)
Definition export_of (template : list Z) (rs : list rtr_pfx_record) : option (Z * list Z) :=
  let _ := release_build in
  fst <$> (a ← tommy_array_init; a ← foldl (λ m r, a ← m; tommy_array_insert a r) (mret a) rs;
           '(rc, _, text) ← of_option (fmustach template_itf 20 template (Exporter false 0 a)); mret (rc, text)) empty_world.

(** An export of a single record as JSON has a comma after its only object, and a large AS
    number is negative. *)
Lemma json_single_comma : export_of (template_named "json") [PfxRecord 4200000000 (Addr4 {| addr := 167772160 |}) 8 16 1%nat] =
  Some (0, quoted "[$!{$!!'prefix': '10.0.0.0',$!!'length': '8',$!!'maxlen': '16',$!!'origin': '-94967296'$!},$$]$ ").
Proof. by vm_compute. Qed.

(** A variable after a section [last] that was left is an error. *)
Lemma variable_after_last : fst <$> export_of (codes "{{#roas}}{{#last}}{{/last}}{{prefix}}{{/roas}}") [r10_8; r10_1_16] = Some MUSTACH_ERROR_SYSTEM.
Proof. by vm_compute. Qed.
